(* ===== verification/_CoqProject ===== *)
-Q . S2P
Prelude.v
Text.v
TopK.v
Bounded.v
Schedule.v
Controller.v
Config.v
Opc.v
Rpc.v
Proto.v
Api.v
Compat.v
Browse.v
BrowseProtocol.v
BrowseSafety.v
BrowseKeys.v
Store.v
StoreWf.v
Cleanup.v
StoreSpec.v
Query.v
QuerySpec.v
Cache.v
Status.v
StatusSpec.v
Build.v
BuildSpec.v
Coordinated.v
CoordinatedSpec.v
Manager.v
Lifecycle.v
LifecycleSpec.v
PauseSpec.v
Wire.v
WireSpec.v
LiveSearch.v
LiveSearchSpec.v
Service.v
ServiceSpec.v
CleanupWorker.v
IndexSearch.v
IndexSearchSpec.v
Commands.v
CommandsSpec.v
Refresh.v
RefreshSpec.v
IndexFiles.v
IndexFilesSpec.v
Values.v
ValuesSpec.v
Requests.v
RequestsSpec.v
Startup.v
StartupSpec.v
Observation.v
ObservationSpec.v
Adapter.v
AdapterSpec.v
Runs.v
Output.v
Paths.v
Cli.v
CliSpec.v
CliRunSpec.v
Settings.v
Threads.v
Process.v
ProcessSpec.v
