(* ===== verification/Prelude.v ===== *)
(** * opcda-bridge: verification development

    opcda-bridge connects gRPC clients to OPC DA servers. A gateway (crate
    opcda-bridge-gateway) lists servers, browses their namespaces in sessions, searches them
    live, and keeps per server a persistent namespace index in SQLite that it builds,
    refreshes and searches; a client library (opcda-bridge) and a command line client
    (opcda-bridge-client) speak the protocol of opcda-bridge-proto with it. The development
    models the logic of these crates as Rocq definitions translated from the source, and
    proves what makes them correct.

    ** Layout

    This file is the prelude: Rust's [Result], integers at their width (a [w]-bit value is a [Z]
    in [0 .. umax w]; saturating, wrapping and truncating operations write out the bound),
    durations and instants (nanoseconds), [f64] as IEEE binary64, options, tactics, and lemmas on
    lists. A component has a file with its data, operations and step relation, and where
    it is large a file [..Spec] with its theorems.

    General parts. [Text]: strings the program inspects are lists of Unicode scalar values
    ([ustr]), names it only compares are byte [string]s; UTF-8 order, decimal numbers; the class
    [TextLibrary] stands for [str::to_lowercase] and the JSON of breadcrumbs (with its round
    trip law), [ascii_text] is an instance. [TopK]: sorted prefixes and bounded heaps.
    [Bounded]: a map with a queue of its keys. [Rpc]: gRPC statuses.

    Gateway.
    - [Schedule] (index.rs, index/scheduler.rs): timestamps, maintenance windows, jitter, back-off.
    - [Controller] (controller.rs): the adaptive controller that paces a build.
    - [Config] (config.rs): the settings of the index and the limits they impose.
    - [Opc] (opc.rs): the data exchanged with the OPC client.
    - [Browse], [BrowseProtocol], [BrowseSafety], [BrowseKeys] (browse.rs): the sections of the
      browse manager under its lock, the interleaving of requests between them, and the
      theorems: how the native client is used, that nothing leaks, bounds and confinement of keys.
    - [Store], [StoreWf], [StoreSpec] (index/store.rs): the tables and every statement on them, the
      invariant of every reachable database, and the contract of the active index.
    - [Cleanup] (index/scheduler.rs): the deletion of obsolete generations in batches;
      [CleanupWorker]: its worker, the registry of requests, and the background tasks with
      their shutdown, as interleaved steps.
    - [Query], [QuerySpec] (index/query.rs): ranking and the searches of one generation against a
      reference; [Cache]: the cache of results, a refinement of a least-recently-used list;
      [IndexSearch], [IndexSearchSpec]: the search handler of the manager, interleaved with builds,
      deletions and invalidations.
    - [Status], [StatusSpec] (index/status.rs): the status of an index, its measurements and the gate
      of automatic refreshes.
    - [Build], [BuildSpec] (index/traversal.rs): the loop that drains an inventory into a
      staging generation and promotes, fails or discards it; [Coordinated], [CoordinatedSpec]: the
      inventory by several workers with one coordinator.
    - [Manager], [Lifecycle], [LifecycleSpec], [PauseSpec] (index/enrollment.rs, traversal.rs,
      status.rs, scheduler.rs): the registries of the manager, one critical section per definition; the
      tasks of builds and deletions and the requests, interleaved; the reasons of a pause.
    - [Refresh], [RefreshSpec] (index/scheduler.rs): the background loop that visits the enrolled
      servers and starts their refreshes, among the tasks of [Lifecycle].
    - [IndexFiles], [IndexFilesSpec] (index/store.rs, scheduler.rs, enrollment.rs): the quarantine of the
      database's files, and the lock files of builds as calls of several processes.
    - [Wire], [WireSpec] (server/map.rs): the messages made of the gateway's values.
    - [LiveSearch], [LiveSearchSpec] (server/search.rs): the breadth-first search of a namespace.
    - [Service], [ServiceSpec] (server/service.rs, client.rs): requests for an index with their
      errors, from the manager to the client library.
    - [Values], [ValuesSpec] (server/map.rs, types/values.rs, the client's parsing of values): a value
      written on the command line on its way to the OPC client.
    - [Requests], [RequestsSpec] (server/service.rs, index/status.rs): the handlers of the foreground
      requests as programs, interleaved with each other, with clients that go away and with
      builds; what the registries of health and use hold.
    - [Startup], [StartupSpec] (index/traversal.rs, enrollment.rs): the start of a reserved refresh as one
      program in direct style, and its bisimulation with the machine of [Lifecycle].
    - [Observation], [ObservationSpec] (controller.rs, index/traversal.rs): the host metrics and the
      observation the controller of a build decides on.
    - [Adapter], [AdapterSpec] (opc_da_adapter.rs, opc.rs): the adapter of the native OPC DA client
      and the interface of inventory streams with its two implementations.
    - [Settings] (config.rs, logging.rs, service.rs): the configuration file and the flags, the log, the
      registration and the states of the Windows service; [Process], [ProcessSpec] (run.rs, service.rs,
      main.rs): the bootstrap, the server task and the service as threads ([Threads]) among the control handler,
      the requests and the background tasks.

    Protocol and clients. [Proto] (proto/bridge.proto): the messages. [Api] (types, error.rs): the typed
    values of the client library and their conversions. [Compat] (opcda-bridge-proto/src/lib.rs,
    compatibility.rs): release lines, protocol ranges and their evaluation. [Commands],
    [CommandsSpec] (opcda-bridge-client): settings, [browse --all], search requests. [Output] (output.rs,
    commands): what a command prints, as rows, JSON values and lines. [Cli] (client.rs, cli.rs, lib.rs, commands): the
    client library's methods, the commands and the process as interaction trees, whose events are
    connections, calls, messages of a stream, Ctrl-C, timers, files and output; [CliSpec], [CliRunSpec]: their runs
    ([Runs]). [Paths]: files and paths of the host.

    ** How the model corresponds to the code

    A function of the source is a definition of the same name, with its guards, early
    returns and error values in the same order; a [Mutex] section is one definition. State is
    passed explicitly; a [HashMap] is a [gmap], a table with an order a list of rows in rowid order;
    errors are [result]s, with the fixed part of their messages. Where tasks interleave, a program
    counter per task and an inductive step relation give every order of the
    critical sections, and the theorems are invariants of the reachable states by rule induction. Clock
    readings, drawn tokens, answers of the OPC client, of the file system and of other processes, and
    failures of whole database writes are arguments or inputs of the steps. A transaction
    is all or nothing; statements outside one commit one by one.

    Three kinds of programs say what the code asks of others. A foreground request and the start of a
    build are programs of a small monad of their own ([Requests], [Startup]). A command of the client is an
    interaction tree; its run is a log of events and answers that may stop anywhere, so that a
    theorem about runs is about every moment; a panic ends a run without a result. A thread of the gateway process is a finite
    program; once it is shown to follow a protocol, what is left of it in any interleaving has a phase,
    and the invariants are about phases.

    ** What the theorems show

    - The index database: every reachable state is consistent; the index searches read changes
      only by promotion, deletion, the replacement of an unreadable file, or rows inserted into the
      active generation itself (builds insert into their staging one); promotion is atomic; recovery
      and migration keep indexes; the quarantine of its files is all or nothing; the build lock
      excludes across processes.
    - Builds: a build publishes the complete inventory or nothing, and always settles; tasks of all
      servers exclude each other as documented, leave foreign rows alone, and leave no registration
      behind; a coordinated inventory is complete when it says so; cancellations reach its workers; a build is
      paused exactly when a reason, kept from the events alone, asks for it; the limits of operator and controller are respected; the program that starts a
      refresh refines the machine of the tasks; what the controller sees pauses a build when it should.
    - Searches: exact, prefix, substring and full-text searches agree with sorting all
      matches; the cache cannot be noticed; the live search is a filtered breadth-first traversal.
    - Browsing: the native client is used by its protocol, sessions are bounded and their keys
      confined, [browse --all] ends with what the gateway has.
    - Background work: the cleanup ends and deletes only obsolete rows, one worker at a time, none
      after a drained shutdown; automatic refreshes are gated, and each round of the loop that starts
      them visits every server, unless it sees a shutdown before one.
    - The protocol: statuses and pages reach the client without loss, every state and reason as its own
      value; errors reach it as what they mean, values arrive as they were written, and compatibility is
      negotiated as the offered ranges say, with the handshake or without it.
    - Requests: each gets the reply a table gives for what it asked and what it was told, whatever runs
      beside it, and the use it makes of a server is counted exactly while it lasts; the adapter's
      tokens and pages stand for those of the native client.
    - The client: a run asks nothing before it is connected, once, to the resolved host; [browse] prints
      the page its paging function makes; [search] and the watch of an index print everything they
      receive, in order; a failing process prints the error of its
      command or of its configuration, in the resolved format.
    - The process: the service manager hears of start, readiness, stop and end in this order and not before they
      are so; a stop always completes, with the requests in flight answered and the index quiet.

    Lemmas that exhibit a run with an unwanted outcome, each the witness of a flaw of the code:
    [CoordinatedSpec.truncated_subtree_completes], [CoordinatedSpec.pause_can_be_missed],
    [LifecycleSpec.cancellation_can_be_lost], [LifecycleSpec.build_record_can_be_lost],
    [PauseSpec.foreground_count_can_be_stale], [CleanupWorker.cleanup_request_can_wait],
    [IndexSearchSpec.stale_answer_after_deletion], [RefreshSpec.due_index_polled_without_wait],
    [IndexFilesSpec.inspection_failure_splits_files], [IndexFilesSpec.recovery_ends_live_build],
    [IndexFilesSpec.deletion_gives_up], [ProcessSpec.runtime_failure_unreported],
    [ProcessSpec.failed_start_reported].

    ** Bounds and inputs

    [StartupSpec] uses functional extensionality (programs contain functions). No definition runs on fuel that can change its result: decimal printing and UTF-8
    decoding recurse on a fuel that covers the value or the length; loops over events, answers and
    turns recurse on the list of inputs and end [waiting] when it is exhausted, and the
    theorems say how many inputs are enough. Counters wrap or saturate at their width (the release
    profile wraps); where a theorem needs a count to fit (2^64 background tasks) it says so.
    [SystemTime] is bounded as on Windows. SQLite's full-text [MATCH] and the [Debug] format of a
    server name are parameters. Names with NUL characters are excluded where a theorem needs it
    ([clean_texts]), because SQLite's [length] stops at them. Fresh UUIDs are premises of the browse steps.

    ** Not modelled

    Poisoned locks, tracing, and the panics and cancellation of tasks (but for the server task of [Process]); the byte
    encoding of messages (prost), the transport (tonic: its server is a parameter with its documented
    order of events), the parsing of the command line (clap) and of TOML, the layout of tables and
    the text of JSON; the native OPC DA client and the system calls behind the host metrics; canonical paths. The cleanup is
    modelled with no other writer between the reading of candidates and their deletion; a search of
    the database reads one state; the length of the duty-cycle wait is left out; a message
    and the flag its sender writes right after it are one step of the coordinated inventory. *)
From stdpp Require Export base option list gmap sets strings numbers sorting.
From Stdlib Require Export ZArith Lia.
From Stdlib Require Export (notations) Ascii.
From Corelib Require Export SpecFloat.

(** ** Scope of the development's notations *)

Declare Scope bridge_scope.
Delimit Scope bridge_scope with bridge.
#[global] Open Scope bridge_scope.
#[global] Open Scope Z_scope.

(** ** Fallible results

    Rust's [Result<A, E>]; [?] is the bind. *)

Inductive result (A E : Type) : Type :=
| Ok (value : A)
| Err (error : E).
Arguments Ok {A E} value.
Arguments Err {A E} error.

Definition result_bind {A B E : Type} (r : result A E) (k : A -> result B E) : result B E :=
  match r with
  | Ok a => k a
  | Err e => Err e
  end.

Definition result_map {A B E : Type} (f : A -> B) (r : result A E) : result B E :=
  match r with
  | Ok a => Ok (f a)
  | Err e => Err e
  end.

Definition map_err {A E F : Type} (f : E -> F) (r : result A E) : result A F :=
  match r with
  | Ok a => Ok a
  | Err e => Err (f e)
  end.

Definition ok_or {A E : Type} (o : option A) (e : E) : result A E :=
  match o with
  | Some a => Ok a
  | None => Err e
  end.

Definition is_ok {A E : Type} (r : result A E) : bool :=
  match r with
  | Ok _ => true
  | Err _ => false
  end.

(** [Option::transpose] for an optional fallible value. *)
Definition transpose {A E : Type} (o : option (result A E)) : result (option A) E :=
  match o with
  | None => Ok None
  | Some (Ok a) => Ok (Some a)
  | Some (Err e) => Err e
  end.

(** [collect::<Result<Vec<_>, _>>()]: the first error wins. *)
Fixpoint collect {A E : Type} (l : list (result A E)) : result (list A) E :=
  match l with
  | [] => Ok []
  | Ok a :: rest => result_map (cons a) (collect rest)
  | Err e :: _ => Err e
  end.

Notation "'let?' x := e 'in' k" := (result_bind e (fun x => k))
  (at level 10, x pattern, e at level 200, k at level 200) : bridge_scope.

(** ** Fixed-width unsigned integers

    A value of a [w]-bit unsigned type is a [Z] in [0 .. umax w]; the operations
    write out what the Rust methods of the same name do at the bounds. *)

Definition umax (w : Z) : Z := 2 ^ w - 1.
Definition in_uint (w z : Z) : Prop := 0 <= z <= umax w.

Abbreviation u8_max := (umax 8).
Abbreviation u16_max := (umax 16).
Abbreviation u32_max := (umax 32).
Abbreviation u64_max := (umax 64).
Abbreviation i64_max := (umax 63).

Definition saturating_add (w a b : Z) : Z := Z.min (a + b) (umax w).
Definition saturating_sub (a b : Z) : Z := Z.max (a - b) 0.
Definition saturating_mul (w a b : Z) : Z := Z.min (a * b) (umax w).
Definition wrapping_mul (w a b : Z) : Z := (a * b) mod 2 ^ w.

(** [u64::from(bool)] *)
Definition u64_from (b : bool) : Z := if b then 1 else 0.

(** [Ord::clamp]; Rust asserts [lo <= hi], a precondition the users prove. *)
Definition clamp (lo hi v : Z) : Z :=
  if v <? lo then lo else if hi <? v then hi else v.

(** [try_into().unwrap_or(MAX)] from a wider unsigned type. *)
Definition truncate_max (w z : Z) : Z := if z <=? umax w then z else umax w.

(** ** Durations and instants

    A [Duration] is a number of nanoseconds in [0 .. duration_max]; an [Instant]
    and a [SystemTime] are a number of nanoseconds from a fixed origin (the Unix
    epoch for [SystemTime]). *)

Definition nanos_per_sec : Z := 1000000000.
Definition nanos_per_milli : Z := 1000000.
Definition duration_max : Z := u64_max * nanos_per_sec + (nanos_per_sec - 1).
Definition in_duration (d : Z) : Prop := 0 <= d <= duration_max.
Definition from_secs (s : Z) : Z := s * nanos_per_sec.
Definition from_millis (m : Z) : Z := m * nanos_per_milli.
Definition as_millis (d : Z) : Z := d / nanos_per_milli.
Definition as_secs (d : Z) : Z := d / nanos_per_sec.
Definition duration_checked_mul (d m : Z) : option Z :=
  if d * m <=? duration_max then Some (d * m) else None.
Definition duration_saturating_add (a b : Z) : Z := Z.min (a + b) duration_max.
(** [saturating_duration_since] *)
Definition saturating_since (later earlier : Z) : Z := Z.max (later - earlier) 0.

(** ** Floating point

    An [f64] is an IEEE binary64 value, compared as Rust compares it. *)

Abbreviation f64 := spec_float.
Definition f64_of_Z (z : Z) : f64 := binary_normalize 53 1024 z 0 false.
Definition f64_ge (a b : f64) : bool := SFleb b a.
Definition f64_le (a b : f64) : bool := SFleb a b.

(** ** Options *)

(** [Option::is_some_and] and [Option::is_none_or] *)
Definition is_some_and {A : Type} (p : A -> bool) (o : option A) : bool :=
  match o with
  | Some a => p a
  | None => false
  end.

Definition is_none_or {A : Type} (p : A -> bool) (o : option A) : bool :=
  match o with
  | Some a => p a
  | None => true
  end.

Definition is_some {A : Type} (o : option A) : bool := is_some_and (fun _ => true) o.
Definition unwrap_or {A : Type} (d : A) (o : option A) : A :=
  match o with
  | Some a => a
  | None => d
  end.
(** [Option::or] *)
Definition option_or {A : Type} (o1 o2 : option A) : option A :=
  match o1 with
  | Some a => Some a
  | None => o2
  end.
(** [bool::then_some] *)
Definition then_some {A : Type} (b : bool) (a : A) : option A :=
  if b then Some a else None.

(** ** Entries of a map by a test *)

Section Those.
Context {A : Type} (p : A -> bool).

Definition those (m : gmap nat A) : gmap nat A := filter (fun kv => p kv.2 = true) m.
Definition one_if (o : option A) : nat := if is_some_and p o then 1 else 0.

Lemma those_insert m t x :
  (size (those (<[t := x]> m)) + one_if (m !! t) = size (those m) + one_if (Some x))%nat.
Proof.
  unfold those, one_if. cbn [is_some_and].
  assert (Ho : forall y : A, m !! t = Some y ->
    filter (fun kv : nat * A => p kv.2 = true) m !! t = if p y then Some y else None).
  { intros y Hy. destruct (p y) eqn:E.
    - by apply map_lookup_filter_Some.
    - apply map_lookup_filter_None. right. intros z Hz. rewrite Hy in Hz. injection Hz as <-. cbn. by rewrite E. }
  assert (Hn : m !! t = None -> filter (fun kv : nat * A => p kv.2 = true) m !! t = None).
  { intros Hy. apply map_lookup_filter_None. by left. }
  rewrite map_filter_insert. cbn [snd].
  destruct (m !! t) as [y|] eqn:Hy; cbn [is_some_and]; [specialize (Ho y eq_refl)|specialize (Hn eq_refl)];
    destruct (decide (p x = true)) as [Ex|Ex]; try (apply not_true_is_false in Ex); rewrite ?Ex;
    rewrite ?map_filter_delete.
  all: repeat case_match; rewrite ?map_size_insert, ?map_size_delete, ?Ho, ?Hn; cbn; try lia.
  assert (0 < size (filter (fun kv : nat * A => p kv.2 = true) m))%nat; [|lia].
  destruct (size _) eqn:Ez; [|lia]. apply map_size_empty_inv in Ez. rewrite Ez in Ho. done.
Qed.

Lemma those_size m : (size (those m) <= size m)%nat.
Proof. apply map_size_filter. Qed.
End Those.

(** ** Automation *)

Create HintDb bridge.

(** Case analysis on the boolean tests and matches of a goal. *)
Ltac bool_cases :=
  repeat match goal with
  | |- context [if ?b then _ else _] => destruct b eqn:?
  | H : context [if ?b then _ else _] |- _ => destruct b eqn:?
  end.

(** Turn boolean comparisons into propositions. *)
Ltac bool_to_prop :=
  repeat match goal with
  | H : (_ && _)%bool = true |- _ => apply andb_true_iff in H as [? ?]
  | H : (_ || _)%bool = false |- _ => apply orb_false_iff in H as [? ?]
  | H : negb _ = true |- _ => apply negb_true_iff in H
  | H : negb _ = false |- _ => apply negb_false_iff in H
  end.

Ltac zlia := unfold clamp, saturating_add, saturating_sub, truncate_max in *; lia.

(** ** Generic lemmas *)

(** Equations between results, taken apart without simplifying the values. *)
Lemma ok_inj {A E : Type} (a b : A) : Ok (E := E) a = Ok b -> a = b.
Proof. by intros [= ->]. Qed.
Lemma pair_inj {A B : Type} (a a' : A) (b b' : B) : (a, b) = (a', b') -> a = a' /\ b = b'.
Proof. by intros [= -> ->]. Qed.

Lemma clamp_bounds lo hi v : lo <= hi -> lo <= clamp lo hi v <= hi.
Proof. unfold clamp. bool_cases; lia. Qed.

Lemma clamp_id lo hi v : lo <= v <= hi -> clamp lo hi v = v.
Proof. unfold clamp. bool_cases; lia. Qed.

#[export] Hint Resolve clamp_bounds : bridge.

(** ** Generic lemmas on lists *)

Lemma Forall2_compose {A B C} (P : A -> B -> Prop) (Q : B -> C -> Prop) (R : A -> C -> Prop)
    l1 l2 l3 :
  (forall x y z, P x y -> Q y z -> R x z) -> Forall2 P l1 l2 -> Forall2 Q l2 l3 ->
  Forall2 R l1 l3.
Proof.
  intros H H1. revert l3. induction H1; intros l3 H3; inversion H3; subst; constructor; eauto.
Qed.

Lemma Forall2_impl_In {A B} (P Q : A -> B -> Prop) l k :
  (forall x y, In x l -> P x y -> Q x y) -> Forall2 P l k -> Forall2 Q l k.
Proof.
  intros H H1. induction H1; constructor.
  - apply H; [by left|done].
  - apply IHForall2. intros. apply H; [by right|done].
Qed.

Lemma filter_filter {A} (p q : A -> bool) l :
  List.filter p (List.filter q l) = List.filter (fun x => q x && p x) l.
Proof.
  induction l as [|x l IH]; simpl; [done|].
  destruct (q x); simpl; [destruct (p x); by rewrite IH | done].
Qed.

Lemma NoDup_map_filter {A B} (f : A -> B) (p : A -> bool) l :
  NoDup (map f l) -> NoDup (map f (List.filter p l)).
Proof.
  induction l as [|x l IH]; simpl; [done|]. rewrite NoDup_cons. intros [Hx Hl].
  destruct (p x); simpl; [|auto]. apply NoDup_cons. split; [|auto].
  rewrite list_elem_of_In, in_map_iff in *. intros (y & ? & [? ?]%filter_In). eauto.
Qed.

Lemma NoDup_map_inj {A B} (f : A -> B) l x y :
  NoDup (map f l) -> In x l -> In y l -> f x = f y -> x = y.
Proof.
  induction l as [|z l IH]; simpl; [done|]. rewrite NoDup_cons, list_elem_of_In, in_map_iff.
  intros [Hz Hl] [->|Hx] [->|Hy] He; auto; exfalso; apply Hz; eauto.
Qed.

Lemma NoDup_map_weaken {A B C} (f : A -> B) (h : A -> C) l :
  NoDup (map f l) -> (forall x y, In x l -> In y l -> h x = h y -> f x = f y) -> NoDup (map h l).
Proof.
  induction l as [|z l IH]; simpl; [intros; constructor|]. rewrite !NoDup_cons, !list_elem_of_In, !in_map_iff.
  intros [Hz Hl] Hinj. split.
  - intros (x & Hx & Hin). apply Hz. exists x. split; [apply Hinj; auto|done].
  - apply IH; [done|]. intros x y Hx Hy. apply Hinj; by right.
Qed.
