(* ===== verification/Text.v ===== *)
(** * Text

    Strings whose characters the program inspects (queries, item identifiers,
    display names) are lists of Unicode scalar values, as Rust's [chars()] gives
    them; identifiers it only compares or stores are byte [string]s. The file
    holds the string operations the gateway uses, the UTF-8 encoding that
    orders both Rust strings and SQLite text, and decimal numbers. *)
From S2P Require Import Prelude.

Abbreviation ustr := (list Z).

Definition scalar_value (c : Z) : Prop := 0 <= c < 55296 \/ 57344 <= c <= 1114111.
#[export] Instance scalar_value_dec c : Decision (scalar_value c).
Proof. unfold scalar_value. apply _. Defined.
Definition valid_text (s : ustr) : Prop := Forall scalar_value s.
#[export] Instance valid_text_dec s : Decision (valid_text s).
Proof. apply Forall_dec. apply _. Defined.

(** [char::is_whitespace]: the White_Space property. *)
Definition is_whitespace (c : Z) : bool :=
  (9 <=? c) && (c <=? 13) || (c =? 32) || (c =? 133) || (c =? 160) || (c =? 5760)
  || (8192 <=? c) && (c <=? 8202) || (c =? 8232) || (c =? 8233) || (c =? 8239)
  || (c =? 8287) || (c =? 12288).

(** [str::split_whitespace]; [word] holds the current word reversed. *)
Fixpoint split_whitespace_from (word : ustr) (s : ustr) : list ustr :=
  match s with
  | [] => if decide (word = []) then [] else [rev word]
  | c :: rest =>
      if is_whitespace c then
        if decide (word = []) then split_whitespace_from [] rest
        else rev word :: split_whitespace_from [] rest
      else split_whitespace_from (c :: word) rest
  end.
Definition split_whitespace (s : ustr) : list ustr := split_whitespace_from [] s.

(** [[T]::join] *)
Fixpoint join (sep : ustr) (l : list ustr) : ustr :=
  match l with
  | [] => []
  | [s] => s
  | s :: rest => s ++ sep ++ join sep rest
  end.

(** [str::starts_with] *)
Fixpoint starts_with (s prefix : ustr) : bool :=
  match prefix, s with
  | [], _ => true
  | p :: prefix', c :: s' => (c =? p) && starts_with s' prefix'
  | _ :: _, [] => false
  end.

(** [str::contains] *)
Fixpoint contains (s pattern : ustr) : bool :=
  starts_with s pattern ||
  match s with
  | [] => false
  | _ :: s' => contains s' pattern
  end.

(** The UTF-8 encoding of a scalar value. *)
Definition utf8_char (c : Z) : list Z :=
  if c <? 128 then [c]
  else if c <? 2048 then [192 + c / 64; 128 + c mod 64]
  else if c <? 65536 then [224 + c / 4096; 128 + c / 64 mod 64; 128 + c mod 64]
  else [240 + c / 262144; 128 + c / 4096 mod 64; 128 + c / 64 mod 64; 128 + c mod 64].
Definition utf8 (s : ustr) : list Z := concat (map utf8_char s).

(** Lexicographic comparison: [str::cmp] and SQLite's BINARY collation on the
    bytes, and (by [utf8_compare]) the comparison of the characters. *)
Fixpoint text_compare (a b : list Z) : comparison :=
  match a, b with
  | [], [] => Eq
  | [], _ :: _ => Lt
  | _ :: _, [] => Gt
  | x :: a', y :: b' =>
      match x ?= y with
      | Eq => text_compare a' b'
      | r => r
      end
  end.
Definition text_lt (a b : list Z) : bool :=
  match text_compare a b with Lt => true | _ => false end.
Definition text_le (a b : list Z) : bool :=
  match text_compare a b with Gt => false | _ => true end.

(** ** Decimal numbers *)

Definition digit_char (d : Z) : Ascii.ascii := Ascii.ascii_of_nat (48 + Z.to_nat d).
Definition char_digit (a : Ascii.ascii) : option Z :=
  let n := Z.of_nat (Ascii.nat_of_ascii a) in
  if (48 <=? n) && (n <=? 57) then Some (n - 48) else None.

Fixpoint to_decimal_fuel (fuel : nat) (z : Z) (acc : string) : string :=
  match fuel with
  | O => acc
  | S fuel' =>
      let acc' := String (digit_char (z mod 10)) acc in
      if z <? 10 then acc' else to_decimal_fuel fuel' (z / 10) acc'
  end.
(** [to_string] of an unsigned integer. *)
Definition to_decimal (z : Z) : string := to_decimal_fuel (S (Z.to_nat (Z.log2 z))) z "".

(** The digit loop of [from_str_radix(_, 10)] for a type whose maximum is [max];
    [None] is a digit error or an overflow. *)
Fixpoint parse_digits (max acc : Z) (s : string) : option Z :=
  match s with
  | EmptyString => Some acc
  | String a rest =>
      match char_digit a with
      | None => None
      | Some d =>
          if acc * 10 + d <=? max then parse_digits max (acc * 10 + d) rest else None
      end
  end.
(** [str::parse] of an unsigned type: an optional [+] and at least one digit. *)
Definition parse_uint (max : Z) (s : string) : option Z :=
  match s with
  | EmptyString => None
  | String a rest =>
      if Ascii.eqb a "+"%char then
        match rest with
        | EmptyString => None
        | _ => parse_digits max 0 rest
        end
      else parse_digits max 0 s
  end.

(** [str::parse::<i64>]: an optional sign. *)
Definition parse_i64 (s : string) : option Z :=
  match s with
  | String a (String _ _ as rest) =>
      if Ascii.eqb a "-"%char then
        match parse_digits (i64_max + 1) 0 rest with
        | Some z => Some (- z)
        | None => None
        end
      else parse_uint i64_max s
  | _ => parse_uint i64_max s
  end.

(** [str::split_once] with a character pattern. *)
Fixpoint split_once (c : Ascii.ascii) (s : string) : option (string * string) :=
  match s with
  | EmptyString => None
  | String a rest =>
      if Ascii.eqb a c then Some ("", rest)
      else match split_once c rest with
           | Some (l, r) => Some (String a l, r)
           | None => None
           end
  end.

(** [str::contains] on byte strings. *)
Fixpoint string_contains (pattern s : string) : bool :=
  String.prefix pattern s ||
  match s with
  | EmptyString => false
  | String _ rest => string_contains pattern rest
  end.

(** [to_ascii_lowercase] *)
Definition ascii_lower (a : Ascii.ascii) : Ascii.ascii :=
  let n := Ascii.nat_of_ascii a in
  if (65 <=? Z.of_nat n) && (Z.of_nat n <=? 90) then Ascii.ascii_of_nat (n + 32) else a.
Fixpoint to_ascii_lowercase (s : string) : string :=
  match s with
  | EmptyString => EmptyString
  | String a rest => String (ascii_lower a) (to_ascii_lowercase rest)
  end.

(** ** The text routines of libraries

    Unicode lower-casing ([str::to_lowercase]) and the JSON text of a list of
    strings (serde_json) are parameters of the development; the only thing the
    program needs of them is that decoding a written list gives it back. *)
Class TextLibrary := {
  to_lowercase : ustr -> ustr;
  breadcrumbs_to_json : list ustr -> ustr;
  breadcrumbs_from_json : ustr -> option (list ustr);
  breadcrumbs_json_roundtrip l : breadcrumbs_from_json (breadcrumbs_to_json l) = Some l
}.

(** [query.rs]: the canonical form of queries and searchable names. *)
Definition normalize_query `{TextLibrary} (value : ustr) : ustr :=
  to_lowercase (join [32] (split_whitespace value)).

(** ** Lemmas: decimal round trip *)

Lemma char_digit_char d : 0 <= d <= 9 -> char_digit (digit_char d) = Some d.
Proof.
  intros H. assert (d = 0 \/ d = 1 \/ d = 2 \/ d = 3 \/ d = 4 \/ d = 5 \/ d = 6 \/ d = 7
    \/ d = 8 \/ d = 9) as Hd by lia.
  repeat destruct Hd as [->|Hd]; try reflexivity. by subst.
Qed.

(** Parsing the digits of [z] written before [s] continues from [z]. *)
Lemma parse_to_decimal_fuel fuel max : forall z s,
  0 <= z -> z < 2 ^ Z.of_nat fuel -> z <= max ->
  parse_digits max 0 (to_decimal_fuel fuel z s) = parse_digits max z s.
Proof.
  induction fuel as [|fuel IH]; intros z s H0 Hf Hm.
  - simpl in *. by replace z with 0 by lia.
  - cbn [to_decimal_fuel]. pose proof (Z.mod_pos_bound z 10 ltac:(lia)) as Hmod.
    pose proof (Z.div_mod z 10 ltac:(lia)) as Hdm.
    destruct (Z.ltb_spec z 10).
    + cbn [parse_digits]. rewrite char_digit_char by lia.
      rewrite Z.mod_small by lia. replace (0 * 10 + z) with z by lia.
      by rewrite (proj2 (Z.leb_le _ _)) by lia.
    + assert (0 <= z / 10) by (apply Z.div_pos; lia).
      assert (z / 10 < 2 ^ Z.of_nat fuel).
      { rewrite Nat2Z.inj_succ, Z.pow_succ_r in Hf by lia.
        apply Z.div_lt_upper_bound; lia. }
      rewrite IH by (done || lia). cbn [parse_digits]. rewrite char_digit_char by lia.
      replace (z / 10 * 10 + z mod 10) with z by lia.
      by rewrite (proj2 (Z.leb_le _ _)) by lia.
Qed.

Lemma to_decimal_fuel_head fuel : forall z s,
  0 <= z -> exists d rest,
    to_decimal_fuel (S fuel) z s = String (digit_char d) rest /\ 0 <= d <= 9.
Proof.
  induction fuel as [|fuel IH]; intros z s Hz; rewrite (eq_refl : to_decimal_fuel (S _) z s =
    if z <? 10 then _ else _); pose proof (Z.mod_pos_bound z 10 ltac:(lia)).
  - cbn [to_decimal_fuel]. destruct (z <? 10); eexists _, _; (split; [reflexivity | lia]).
  - destruct (z <? 10).
    + eexists _, _; (split; [reflexivity | lia]).
    + apply IH. apply Z.div_pos; lia.
Qed.

Lemma to_decimal_bound z : 0 <= z -> z < 2 ^ Z.of_nat (S (Z.to_nat (Z.log2 z))).
Proof.
  intros Hz. destruct (decide (z = 0)) as [->|]; [reflexivity|].
  rewrite Nat2Z.inj_succ, Z2Nat.id by apply Z.log2_nonneg.
  apply Z.log2_spec. lia.
Qed.

Lemma digit_char_plus d : 0 <= d <= 9 -> Ascii.eqb (digit_char d) "+"%char = false.
Proof.
  intros H. assert (d = 0 \/ d = 1 \/ d = 2 \/ d = 3 \/ d = 4 \/ d = 5 \/ d = 6 \/ d = 7
    \/ d = 8 \/ d = 9) as Hd by lia.
  repeat destruct Hd as [->|Hd]; try reflexivity. by subst.
Qed.

Lemma parse_uint_to_decimal max z : 0 <= z <= max -> parse_uint max (to_decimal z) = Some z.
Proof.
  intros Hz. unfold to_decimal.
  destruct (to_decimal_fuel_head (Z.to_nat (Z.log2 z)) z "" ltac:(lia)) as (d & rest & He & Hd).
  unfold parse_uint. rewrite He. rewrite digit_char_plus by done. rewrite <- He.
  rewrite parse_to_decimal_fuel; [done | lia | apply to_decimal_bound; lia | lia].
Qed.

Lemma to_decimal_inj a b : 0 <= a -> 0 <= b -> to_decimal a = to_decimal b -> a = b.
Proof.
  intros Ha Hb He. pose proof (parse_uint_to_decimal (Z.max a b) a ltac:(lia)) as H1.
  rewrite He, parse_uint_to_decimal in H1 by lia. congruence.
Qed.

(** ** Lemmas: lexicographic order *)

Lemma text_compare_refl a : text_compare a a = Eq.
Proof. induction a as [|x a IH]; simpl; [done|]. by rewrite Z.compare_refl. Qed.

Lemma text_compare_eq a : forall b, text_compare a b = Eq -> a = b.
Proof.
  induction a as [|x a IH]; intros [|y b]; simpl; try done.
  destruct (Z.compare_spec x y); try done. intros ?. subst. f_equal. by apply IH.
Qed.

Lemma text_compare_antisym a : forall b, text_compare b a = CompOpp (text_compare a b).
Proof.
  induction a as [|x a IH]; intros [|y b]; simpl; try done.
  rewrite Z.compare_antisym. destruct (x ?= y); simpl; auto.
Qed.

Lemma text_compare_trans a : forall b c,
  text_compare a b = Lt -> text_compare b c = Lt -> text_compare a c = Lt.
Proof.
  induction a as [|x a IH]; intros [|y b] [|z c]; simpl; try done.
  destruct (Z.compare_spec x y), (Z.compare_spec y z); try done; intros ??; subst.
  - rewrite Z.compare_refl. by eapply IH.
  - by rewrite (proj2 (Z.compare_lt_iff _ _)) by lia.
  - by rewrite (proj2 (Z.compare_lt_iff _ _)) by lia.
  - by rewrite (proj2 (Z.compare_lt_iff _ _)) by lia.
Qed.

Lemma text_le_lt a b : text_le a b = negb (text_lt b a).
Proof.
  unfold text_le, text_lt. rewrite (text_compare_antisym a b).
  by destruct (text_compare a b).
Qed.

Lemma text_lt_irrefl a : text_lt a a = false.
Proof. unfold text_lt. by rewrite text_compare_refl. Qed.

Lemma text_lt_trans a b c : text_lt a b = true -> text_lt b c = true -> text_lt a c = true.
Proof.
  unfold text_lt. destruct (text_compare a b) eqn:E1, (text_compare b c) eqn:E2; try done.
  by rewrite (text_compare_trans _ _ _ E1 E2).
Qed.

Lemma text_compare_app p a b : text_compare (p ++ a) (p ++ b) = text_compare a b.
Proof. induction p as [|c p IH]; simpl; [done|]. by rewrite Z.compare_refl. Qed.

(** ** Lemmas: UTF-8 keeps the order of the characters *)

(** The encodings of two different scalar values differ at a byte that orders them
    as the values do, whatever follows. *)
Lemma utf8_char_lt c d s t :
  0 <= c < d -> d <= 1114111 -> text_compare (utf8_char c ++ s) (utf8_char d ++ t) = Lt.
Proof.
  intros Hc Hd. unfold utf8_char.
  pose proof (Z.div_mod c 64 ltac:(lia)). pose proof (Z.div_mod d 64 ltac:(lia)).
  pose proof (Z.div_mod (c/64) 64 ltac:(lia)). pose proof (Z.div_mod (d/64) 64 ltac:(lia)).
  pose proof (Z.div_mod (c/4096) 64 ltac:(lia)). pose proof (Z.div_mod (d/4096) 64 ltac:(lia)).
  pose proof (Z.mod_pos_bound c 64 ltac:(lia)). pose proof (Z.mod_pos_bound d 64 ltac:(lia)).
  pose proof (Z.mod_pos_bound (c/64) 64 ltac:(lia)).
  pose proof (Z.mod_pos_bound (d/64) 64 ltac:(lia)).
  pose proof (Z.mod_pos_bound (c/4096) 64 ltac:(lia)).
  pose proof (Z.mod_pos_bound (d/4096) 64 ltac:(lia)).
  assert (c / 64 / 64 = c / 4096) by (rewrite Z.div_div; [done|lia..]).
  assert (d / 64 / 64 = d / 4096) by (rewrite Z.div_div; [done|lia..]).
  assert (c / 4096 / 64 = c / 262144) by (rewrite Z.div_div; [done|lia..]).
  assert (d / 4096 / 64 = d / 262144) by (rewrite Z.div_div; [done|lia..]).
  destruct (Z.ltb_spec c 128), (Z.ltb_spec d 128), (Z.ltb_spec c 2048), (Z.ltb_spec d 2048),
    (Z.ltb_spec c 65536), (Z.ltb_spec d 65536); try lia; cbn [app text_compare];
    repeat match goal with
    | |- match ?a ?= ?b with _ => _ end = Lt => destruct (Z.compare_spec a b); [|done|lia]
    end; lia.
Qed.

Lemma utf8_char_lt_nil c s : text_compare [] (utf8_char c ++ s) = Lt.
Proof. unfold utf8_char. by bool_cases. Qed.

Lemma utf8_cons c s : utf8 (c :: s) = utf8_char c ++ utf8 s.
Proof. reflexivity. Qed.

(** Comparing the encodings is comparing the characters. *)
Lemma utf8_compare a : forall b, valid_text a -> valid_text b ->
  text_compare (utf8 a) (utf8 b) = text_compare a b.
Proof.
  assert (Hr : forall c, scalar_value c -> 0 <= c <= 1114111) by (unfold scalar_value; lia).
  induction a as [|x a IH]; intros [|y b] Ha Hb; [done|..].
  - rewrite utf8_cons. apply utf8_char_lt_nil.
  - rewrite utf8_cons, text_compare_antisym. by rewrite utf8_char_lt_nil.
  - apply Forall_cons in Ha as [Hx Ha], Hb as [Hy Hb].
    apply Hr in Hx, Hy. rewrite !utf8_cons. cbn [text_compare].
    destruct (Z.compare_spec x y).
    + subst. rewrite text_compare_app. by apply IH.
    + apply utf8_char_lt; lia.
    + rewrite text_compare_antisym, utf8_char_lt by lia. done.
Qed.

Lemma utf8_inj a b : valid_text a -> valid_text b -> utf8 a = utf8 b -> a = b.
Proof.
  intros Ha Hb He. apply text_compare_eq.
  rewrite <- utf8_compare, He by done. apply text_compare_refl.
Qed.

(** ** Lemmas: prefixes *)

Lemma starts_with_spec p : forall s, starts_with s p = true <-> exists t, s = p ++ t.
Proof.
  induction p as [|c p IH]; intros s; simpl.
  - split; [eauto|]. by destruct s.
  - destruct s as [|d s]; simpl.
    + split; [done|]. by intros [t ?].
    + rewrite andb_true_iff, Z.eqb_eq, IH. split.
      * intros [-> [t ->]]. eauto.
      * intros [t ?]. simplify_eq. eauto.
Qed.

(** ** Lemmas: parsed numbers are in range *)

Lemma char_digit_bounds a d : char_digit a = Some d -> 0 <= d <= 9.
Proof. unfold char_digit. bool_cases; [|done]. bool_to_prop. intros [= <-]. lia. Qed.

Lemma parse_digits_bounds max : forall s acc z,
  0 <= acc <= max -> parse_digits max acc s = Some z -> 0 <= z <= max.
Proof.
  induction s as [|a s IH]; intros acc z Hacc; cbn [parse_digits]; [by intros [= <-]|].
  destruct (char_digit a) as [d|] eqn:Ed; [|done]. apply char_digit_bounds in Ed.
  destruct (Z.leb_spec (acc * 10 + d) max); [|done]. apply IH. lia.
Qed.

Lemma parse_digits_smaller max max' : forall s acc z,
  max' <= max -> 0 <= acc -> parse_digits max acc s = Some z -> z <= max' ->
  parse_digits max' acc s = Some z.
Proof.
  assert (Hge : forall s acc z, 0 <= acc -> parse_digits max acc s = Some z -> acc <= z).
  { induction s as [|a s IH]; intros acc z Ha; cbn [parse_digits]; [intros [= <-]; lia|].
    destruct (char_digit a) as [d|] eqn:Ed; [|done]. apply char_digit_bounds in Ed.
    destruct (acc * 10 + d <=? max); [|done]. intros H%IH; lia. }
  induction s as [|a s IH]; intros acc z Hm Ha; cbn [parse_digits]; [done|].
  destruct (char_digit a) as [d|] eqn:Ed; [|done]. apply char_digit_bounds in Ed.
  destruct (Z.leb_spec (acc * 10 + d) max); [|done]. intros H1 Hz.
  pose proof (Hge s (acc * 10 + d) z ltac:(lia) H1).
  rewrite (proj2 (Z.leb_le _ max')) by lia. apply IH; (lia || done).
Qed.

Lemma parse_uint_smaller max max' s z :
  parse_uint max s = Some z -> z <= max' -> max' <= max -> parse_uint max' s = Some z.
Proof.
  unfold parse_uint. intros H Hz Hm. destruct s as [|a s]; [done|].
  destruct (Ascii.eqb a "+"%char); [destruct s; [done|]|];
    by apply (parse_digits_smaller max max' _ 0 z).
Qed.

Lemma to_decimal_nonempty z : to_decimal z <> "".
Proof.
  unfold to_decimal. cbn [to_decimal_fuel]. destruct (z <? 10); [done|].
  assert (H : forall fuel z s, s <> "" -> to_decimal_fuel fuel z s <> "").
  { induction fuel as [|fuel IH]; intros z' s Hs; cbn [to_decimal_fuel]; [done|].
    destruct (z' <? 10); [done|]. by apply IH. }
  by apply H.
Qed.

Lemma parse_uint_bounds max s z : 0 <= max -> parse_uint max s = Some z -> 0 <= z <= max.
Proof.
  unfold parse_uint. intros Hm. destruct s as [|a s]; [done|].
  destruct (Ascii.eqb a "+"%char); [destruct s; [done|]|]; apply parse_digits_bounds; lia.
Qed.

(** ** An instance of the text routines

    ASCII lower-casing, and lists of strings written with their lengths; the
    concrete inputs of the development use it. *)

Definition sized_encode (l : list ustr) : ustr :=
  concat (map (fun s => Z.of_nat (length s) :: s) l).
Fixpoint sized_decode (fuel : nat) (t : ustr) : option (list ustr) :=
  match t, fuel with
  | [], _ => Some []
  | _, O => None
  | n :: rest, S fuel' =>
      match sized_decode fuel' (drop (Z.to_nat n) rest) with
      | Some l => Some (take (Z.to_nat n) rest :: l)
      | None => None
      end
  end.

Lemma sized_decode_encode l : forall fuel,
  (length l <= fuel)%nat -> sized_decode fuel (sized_encode l) = Some l.
Proof.
  induction l as [|s l IH]; intros [|fuel] Hf; try done; simpl in *; [lia|].
  rewrite Nat2Z.id. unfold sized_encode in IH. rewrite drop_app_length, take_app_length.
  by rewrite IH by lia.
Qed.

Lemma length_sized_encode l : (length l <= length (sized_encode l))%nat.
Proof.
  induction l as [|s l IH]; simpl; [done|]. rewrite length_app. unfold sized_encode in IH. lia.
Qed.

Definition ascii_text : TextLibrary := {|
  to_lowercase := map (fun c => if (65 <=? c) && (c <=? 90) then c + 32 else c);
  breadcrumbs_to_json := sized_encode;
  breadcrumbs_from_json t := sized_decode (length t) t;
  breadcrumbs_json_roundtrip l := sized_decode_encode l _ (length_sized_encode l)
|}.
