(* ===== verification/TopK.v ===== *)
(** * Sorted prefixes

    The lemmas behind bounded searches: the [k] smallest elements of a list by the
    total order of a key, how they relate to those of a part of the list, and a
    bounded heap that keeps them while it reads the elements one by one. *)
From S2P Require Import Prelude Text.

(** ** Total orders

    What a derived [Ord] implementation promises. *)
Class Comparable {K : Type} (compare : K -> K -> comparison) : Prop := {
  compare_eq : forall a b, compare a b = Eq -> a = b;
  compare_refl : forall a, compare a a = Eq;
  compare_antisym : forall a b, compare b a = CompOpp (compare a b);
  compare_trans : forall a b c, compare a b = Lt -> compare b c = Lt -> compare a c = Lt
}.

#[export] Instance Z_comparable : Comparable Z.compare.
Proof.
  split.
  - apply Z.compare_eq.
  - apply Z.compare_refl.
  - intros a b. apply Z.compare_antisym.
  - intros a b c. rewrite !Z.compare_lt_iff. lia.
Qed.

#[export] Instance text_comparable : Comparable text_compare.
Proof.
  split.
  - intros a b. apply text_compare_eq.
  - apply text_compare_refl.
  - intros a b. apply text_compare_antisym.
  - apply text_compare_trans.
Qed.

(** The next field decides when the first ones are equal. *)
Definition then_compare (a b : comparison) : comparison :=
  match a with
  | Eq => b
  | _ => a
  end.

Definition pair_compare {A B : Type} (ca : A -> A -> comparison) (cb : B -> B -> comparison)
    (x y : A * B) : comparison :=
  then_compare (ca x.1 y.1) (cb x.2 y.2).

#[export] Instance pair_comparable {A B : Type} (ca : A -> A -> comparison)
    (cb : B -> B -> comparison) :
  Comparable ca -> Comparable cb -> Comparable (pair_compare ca cb).
Proof.
  intros HA HB. unfold pair_compare, then_compare. split.
  - intros [a1 b1] [a2 b2]; simpl. destruct (ca a1 a2) eqn:E; [|done..].
    apply compare_eq in E as ->. by intros ->%compare_eq.
  - intros [a b]; simpl. by rewrite !compare_refl.
  - intros [a1 b1] [a2 b2]; simpl. rewrite (compare_antisym (compare := ca) a1 a2), (compare_antisym (compare := cb) b1 b2).
    by destruct (ca a1 a2).
  - intros [a1 b1] [a2 b2] [a3 b3]; simpl.
    destruct (ca a1 a2) eqn:E1; [apply compare_eq in E1 as ->| |done].
    + destruct (ca a2 a3); [|done..]. apply compare_trans.
    + intros _. destruct (ca a2 a3) eqn:E2; [apply compare_eq in E2 as <-| |done].
      * by rewrite E1.
      * by rewrite (compare_trans _ _ _ E1 E2).
Qed.

(** The order of a record is that of its fields. *)
Definition via_compare {A B : Type} (f : A -> B) (c : B -> B -> comparison) (x y : A) : comparison :=
  c (f x) (f y).
Lemma via_comparable {A B : Type} (f : A -> B) (c : B -> B -> comparison) :
  Comparable c -> (forall x y, f x = f y -> x = y) -> Comparable (via_compare f c).
Proof.
  intros HC Hinj. unfold via_compare. split.
  - intros a b H. by apply Hinj, compare_eq.
  - intros a. apply compare_refl.
  - intros a b. apply compare_antisym.
  - intros a b d. apply compare_trans.
Qed.

Section TopK.
Context {A K : Type} (key : A -> K) (compare : K -> K -> comparison) {C : Comparable compare}.

Definition le_key (a b : A) : Prop := compare (key a) (key b) <> Gt.
#[export] Instance le_key_dec a b : Decision (le_key a b).
Proof. unfold le_key. destruct (compare (key a) (key b)); solve_decision. Defined.

(** The list sorted by key. *)
Definition sort_by : list A -> list A := merge_sort le_key.

Definition lt_key (a b : A) : bool :=
  match compare (key a) (key b) with Lt => true | _ => false end.

#[local] Instance le_key_total : Total le_key.
Proof.
  intros a b. unfold le_key. rewrite (compare_antisym (compare := compare) (key b) (key a)).
  destruct (compare (key b) (key a)); simpl; (left; discriminate) || (right; discriminate).
Qed.
#[local] Instance le_key_trans : Transitive le_key.
Proof.
  intros a b c. unfold le_key. intros H1 H2.
  destruct (compare (key a) (key b)) eqn:E1; [|destruct (compare (key b) (key c)) eqn:E2|done].
  - by apply compare_eq in E1 as ->.
  - apply compare_eq in E2 as <-. by rewrite E1.
  - by rewrite (compare_trans _ _ _ E1 E2).
  - done.
Qed.

#[local] Instance key_eq_dec : EqDecision K.
Proof.
  intros a b. destruct (compare a b) eqn:E; [left; by apply compare_eq|right|right];
    intros ->; by rewrite compare_refl in E.
Defined.

Lemma lt_key_iff a b : lt_key a b = true <-> le_key a b /\ key a <> key b.
Proof.
  unfold lt_key, le_key. destruct (compare (key a) (key b)) eqn:E; split; try done.
  - intros [_ H]. by apply compare_eq in E.
  - intros _. split; [done|]. intros H. rewrite H, compare_refl in E. done.
  - by intros [? _].
Qed.

Lemma not_lt_key a b : lt_key a b = false <-> le_key b a.
Proof.
  unfold lt_key, le_key. rewrite (compare_antisym (compare := compare) (key a) (key b)).
  destruct (compare (key a) (key b)); simpl; split; congruence.
Qed.

Lemma sort_by_perm l : Permutation (sort_by l) l.
Proof. apply merge_sort_Permutation. Qed.

Lemma sort_by_sorted l : StronglySorted le_key (sort_by l).
Proof. apply StronglySorted_merge_sort; apply _. Qed.

Lemma le_key_anti a b : le_key a b -> le_key b a -> key a = key b.
Proof.
  unfold le_key. rewrite (compare_antisym (compare := compare) (key a) (key b)).
  destruct (compare (key a) (key b)) eqn:E; simpl; [by apply compare_eq in E|done..].
Qed.

Lemma NoDup_take_map {B} (f : A -> B) k l : NoDup (map f l) -> NoDup (map f (take k l)).
Proof.
  intros H. rewrite <- (take_drop k l), map_app in H. by apply NoDup_app in H as [? _].
Qed.

(** Two sorted arrangements of a list with distinct keys coincide. *)
Lemma sorted_by_unique l1 : forall l2,
  StronglySorted le_key l1 -> StronglySorted le_key l2 -> Permutation l1 l2 ->
  NoDup (map key l1) -> l1 = l2.
Proof.
  induction l1 as [|a l1 IH]; intros l2 H1 H2 Hp Hnd.
  - by apply Permutation_nil in Hp.
  - destruct l2 as [|b l2]; [by apply Permutation_sym, Permutation_nil in Hp|].
    inversion H1 as [|? ? H1' Ha]; inversion H2 as [|? ? H2' Hb]; subst.
    rewrite List.Forall_forall in Ha, Hb.
    assert (Hab : key a = key b).
    { assert (Hin : In b (a :: l1)) by (eapply Permutation_in; [symmetry; exact Hp|by left]).
      assert (Hin' : In a (b :: l2)) by (eapply Permutation_in; [exact Hp|by left]).
      destruct Hin as [->|Hin]; [done|]. destruct Hin' as [->|Hin']; [done|].
      specialize (Ha b Hin). specialize (Hb a Hin'). unfold le_key in *.
      rewrite (compare_antisym (compare := compare) (key a) (key b)) in Hb.
      destruct (compare (key a) (key b)) eqn:E; [by apply compare_eq|done|done]. }
    simpl in Hnd. apply NoDup_cons in Hnd as [Hna Hnd].
    assert (a = b) as <-.
    { assert (Hin : In b (a :: l1)) by (eapply Permutation_in; [symmetry; exact Hp|by left]).
      destruct Hin as [->|Hin]; [done|]. exfalso. apply Hna. rewrite Hab.
      by apply list_elem_of_In, in_map. }
    f_equal. apply IH; [done|done| |done]. by apply Permutation_cons_inv in Hp.
Qed.

Lemma sort_by_ext l1 l2 :
  Permutation l1 l2 -> NoDup (map key l1) -> sort_by l1 = sort_by l2.
Proof.
  intros Hp Hnd. apply sorted_by_unique; try apply sort_by_sorted.
  - by rewrite !sort_by_perm.
  - by rewrite sort_by_perm.
Qed.

Lemma sort_by_sorted_id l :
  StronglySorted le_key l -> NoDup (map key l) -> sort_by l = l.
Proof.
  intros Hs Hnd. apply sorted_by_unique; [apply sort_by_sorted|done|apply sort_by_perm|].
  by rewrite sort_by_perm.
Qed.

Lemma StronglySorted_app_iff (l1 l2 : list A) :
  StronglySorted le_key (l1 ++ l2) <->
  StronglySorted le_key l1 /\ StronglySorted le_key l2 /\
  (forall x y, In x l1 -> In y l2 -> le_key x y).
Proof.
  induction l1 as [|a l1 IH]; simpl.
  - split; [intros H; repeat split; [constructor|done|done]|by intros (_ & H & _)].
  - split.
    + intros H. inversion H as [|? ? Hs Ha]; subst. apply IH in Hs as (H1 & H2 & H3).
      rewrite List.Forall_forall in Ha. split; [|split; [done|]].
      * constructor; [done|]. rewrite List.Forall_forall. intros x Hx. apply Ha, in_app_iff; auto.
      * intros x y [<-|Hx] Hy; [apply Ha, in_app_iff; by right|auto].
    + intros (H1 & H2 & H3). inversion H1 as [|? ? Hs Ha]; subst.
      rewrite List.Forall_forall in Ha. constructor; [apply IH; auto|].
      rewrite List.Forall_forall. intros x [Hx|Hx]%in_app_iff; auto.
Qed.

Lemma sort_by_take k l :
  NoDup (map key l) -> sort_by (take k (sort_by l)) = take k (sort_by l).
Proof.
  intros Hnd. apply sort_by_sorted_id; [|apply NoDup_take_map; by rewrite sort_by_perm].
  pose proof (sort_by_sorted l) as Hs. rewrite <- (take_drop k (sort_by l)) in Hs.
  revert Hs. generalize (take k (sort_by l)), (drop k (sort_by l)). intros a b.
  induction a as [|x a IH]; simpl; intros Hs; [constructor|].
  inversion Hs as [|? ? Hs' Hx]; subst. constructor; [auto|].
  by apply Forall_app in Hx as [? _].
Qed.

(** A part of a list splits into any of its sublists and the rest. *)
Lemma part_split (T part : list A) :
  NoDup (map key part) -> NoDup (map key T) -> (forall x, In x T -> In x part) ->
  exists rest, Permutation part (T ++ rest) /\
    (forall x, In x rest -> In x part /\ ~ In (key x) (map key T)).
Proof.
  intros Hp HT Hsub.
  set (rest := List.filter (fun x => negb (bool_decide (key x ∈ map key T))) part).
  assert (Hrest : forall x, In x rest <-> In x part /\ key x ∉ map key T).
  { intros x. unfold rest. by rewrite filter_In, negb_true_iff, bool_decide_eq_false. }
  assert (Hnd : NoDup rest).
  { apply NoDup_ListNoDup, List.NoDup_filter, NoDup_ListNoDup. by apply (NoDup_fmap_1 key). }
  exists rest. split; [|intros x [Hx Hn]%Hrest; split; [done|by rewrite <- list_elem_of_In]].
  apply NoDup_Permutation.
  - by apply (NoDup_fmap_1 key).
  - apply NoDup_app. split; [by apply (NoDup_fmap_1 key)|]. split; [|done].
    intros x Hx Hx'. apply list_elem_of_In, Hrest in Hx' as [_ Hn]. apply Hn.
    by apply (list_elem_of_fmap_2 key).
  - intros x. rewrite elem_of_app, !list_elem_of_In, Hrest. split.
    + intros Hx. destruct (decide (key x ∈ map key T)) as [Hk|Hk]; [left|by right].
      apply list_elem_of_In, in_map_iff in Hk as (y & Hy & Hin).
      by rewrite <- (NoDup_map_inj key part y x Hp (Hsub y Hin) Hx Hy).
    + intros [Hx|[Hx _]]; [by apply Hsub|done].
Qed.

Lemma take_sorted_split k l :
  NoDup (map key l) ->
  let T := take k (sort_by l) in
  let R := drop k (sort_by l) in
  sort_by l = T ++ R /\ StronglySorted le_key T /\ NoDup (map key T) /\
  (forall x y, In x T -> In y R -> le_key x y) /\
  (forall x, In x l <-> In x T \/ In x R) /\
  (forall x, In x R -> ~ In (key x) (map key T)).
Proof.
  intros Hl T R. assert (HTR : sort_by l = T ++ R) by (symmetry; apply take_drop).
  assert (Hnd : NoDup (map key (T ++ R))) by (rewrite <- HTR, sort_by_perm; done).
  pose proof (sort_by_sorted l) as Hs. rewrite HTR in Hs.
  apply StronglySorted_app_iff in Hs as (HsT & _ & Hle).
  rewrite map_app in Hnd. apply NoDup_app in Hnd as (HndT & Hdis & _).
  repeat split; try done.
  - intros Hx. apply in_app_iff. rewrite <- HTR.
    eapply Permutation_in; [symmetry; apply sort_by_perm|done].
  - intros Hx. apply in_app_iff in Hx. rewrite <- HTR in Hx.
    eapply Permutation_in; [apply sort_by_perm|done].
  - intros x Hx Hin. apply list_elem_of_In in Hin. apply (Hdis _ Hin).
    by apply list_elem_of_In, in_map.
Qed.

(** Enough of the smallest elements decide the sorted prefix: if a part of a list
    holds its [k] smallest elements, they are the part's [k] smallest. *)
Lemma topk_part k part l :
  NoDup (map key l) -> NoDup (map key part) -> (forall x, In x part -> In x l) ->
  (forall x, In x (take k (sort_by l)) -> In x part) ->
  take k (sort_by part) = take k (sort_by l).
Proof.
  intros Hl Hp Hsub Htop.
  destruct (take_sorted_split k l Hl) as (HTR & HsT & HndT & Hle & Hin & _).
  destruct (part_split _ part Hp HndT Htop) as (rest & Hperm & Hrest).
  set (T := take k (sort_by l)) in *. set (R := drop k (sort_by l)) in *.
  assert (HinR : forall x, In x rest -> In x R).
  { intros x [Hx Hn]%Hrest. apply Hsub, Hin in Hx as [Hx|Hx]; [|done].
    exfalso. by apply Hn, in_map. }
  assert (Hsort : sort_by part = T ++ sort_by rest).
  { apply sorted_by_unique.
    - apply sort_by_sorted.
    - apply StronglySorted_app_iff. split; [done|]. split; [apply sort_by_sorted|].
      intros x y Hx Hy. apply Hle; [done|]. apply HinR.
      eapply Permutation_in; [apply sort_by_perm|exact Hy].
    - by rewrite !sort_by_perm.
    - by rewrite sort_by_perm. }
  rewrite Hsort. destruct (decide (length T = k)) as [HT|HT].
  - rewrite take_app_le by lia. rewrite <- HT. by rewrite take_ge.
  - assert (HR : R = []).
    { unfold T in HT. rewrite length_take in HT. unfold R. apply drop_ge. lia. }
    assert (Hnil : rest = []).
    { destruct rest as [|x q]; [done|]. exfalso.
      specialize (HinR x (or_introl eq_refl)). by rewrite HR in HinR. }
    rewrite Hnil. unfold sort_by at 1. simpl. rewrite app_nil_r, take_ge; [done|].
    unfold T. rewrite length_take. lia.
Qed.

(** An element among the [k] smallest of a list is among those of any part. *)
Lemma topk_mono k part l x :
  NoDup (map key l) -> NoDup (map key part) -> (forall x, In x part -> In x l) ->
  In x (take k (sort_by l)) -> In x part -> In x (take k (sort_by part)).
Proof.
  intros Hl Hp Hsub Hx Hxp.
  destruct (take_sorted_split k l Hl) as (_ & _ & HndT & Hle & Hin & _).
  destruct (take_sorted_split k part Hp) as (_ & _ & HndP & HleP & HinP & HdisP).
  apply HinP in Hxp as [?|Hxr]; [done|exfalso].
  set (T := take k (sort_by l)) in *. set (P := take k (sort_by part)) in *.
  assert (Hk : length P = k).
  { unfold P. rewrite length_take. assert (drop k (sort_by part) <> []) as Hd by (by intros E; rewrite E in Hxr).
    apply Nat.min_l, Nat.le_ngt. intros Hlt. apply Hd, drop_ge. lia. }
  assert (HPT : forall y, In y P -> In y T).
  { intros y Hy. assert (Hyl : In y l) by (apply Hsub, HinP; by left).
    apply Hin in Hyl as [?|Hyr]; [done|exfalso].
    apply (HdisP x Hxr). rewrite (le_key_anti x y); [by apply in_map|by apply Hle|].
    by apply HleP. }
  assert (Hlen : (length (x :: P) <= length T)%nat).
  { apply NoDup_incl_length.
    - apply NoDup_ListNoDup, NoDup_cons. rewrite list_elem_of_In. split.
      + intros Hxp. by apply (HdisP x Hxr), in_map.
      + by apply (NoDup_fmap_1 key).
    - intros y [<-|Hy]; auto. }
  simpl in Hlen. unfold T in Hlen. rewrite length_take in Hlen. lia.
Qed.

(** ** A bounded heap

    The [BinaryHeap] that keeps the best [capacity] candidates of a stream: its
    greatest element is the worst one kept. *)
Definition heap_peek (heap : list A) : option A := last (sort_by heap).
Definition heap_pop (heap : list A) : list A := take (length heap - 1) (sort_by heap).
Definition into_sorted_vec (heap : list A) : list A := sort_by heap.
Definition heap_offer (capacity : nat) (heap : list A) (candidate : A) : list A :=
  if (length heap <? capacity)%nat then candidate :: heap
  else if is_some_and (fun worst => lt_key candidate worst) (heap_peek heap)
  then candidate :: heap_pop heap
  else heap.

(** ** Lemmas: the heap *)

(** Appending a greatest element. *)
Lemma sort_by_snoc l x :
  NoDup (map key (x :: l)) -> (forall y, In y l -> le_key y x) ->
  sort_by (x :: l) = sort_by l ++ [x].
Proof.
  intros Hnd Hmax. apply sorted_by_unique.
  - apply sort_by_sorted.
  - apply StronglySorted_app_iff. split; [apply sort_by_sorted|]. split; [repeat constructor|].
    intros y z Hy [<-|[]]. apply Hmax. eapply Permutation_in; [apply sort_by_perm|exact Hy].
  - rewrite !sort_by_perm. apply Permutation_cons_append.
  - by rewrite sort_by_perm.
Qed.

Lemma sort_by_idem l : NoDup (map key l) -> sort_by (sort_by l) = sort_by l.
Proof. intros Hnd. apply sort_by_ext; [apply sort_by_perm|]. by rewrite sort_by_perm. Qed.

(** The [k] smallest of a list with one more element come from the [k] smallest. *)
Lemma topk_cons k x l :
  NoDup (map key (x :: l)) ->
  take k (sort_by (x :: l)) = take k (sort_by (x :: take k (sort_by l))).
Proof.
  intros Hnd. symmetry. pose proof Hnd as Hnd'. simpl in Hnd'. apply NoDup_cons in Hnd' as [Hx Hl].
  destruct (take_sorted_split k l Hl) as (_ & _ & HndT & _ & Hin & _).
  apply topk_part; [done|..].
  - simpl. apply NoDup_cons. split; [|done]. intros Hk. apply Hx.
    apply list_elem_of_In, in_map_iff in Hk as (y & Hy & Hyin).
    apply list_elem_of_In, in_map_iff. exists y. split; [done|]. apply Hin. by left.
  - intros y [<-|Hy]; [by left|right]. apply Hin. by left.
  - intros y Hy. assert (Hyl : In y (x :: l)).
    { eapply Permutation_in; [apply sort_by_perm|]. apply list_elem_of_In.
      apply list_elem_of_In, elem_of_take in Hy as (i & Hi & _). by eapply list_elem_of_lookup_2. }
    destruct Hyl as [<-|Hyl]; [by left|right].
    apply (topk_mono k l (x :: l)); auto. intros z Hz. by right.
Qed.

(** Offering keeps the [capacity] smallest of what was offered. *)
Lemma heap_offer_spec capacity heap seen x :
  (0 < capacity)%nat -> NoDup (map key (x :: seen)) ->
  sort_by heap = take capacity (sort_by seen) ->
  sort_by (heap_offer capacity heap x) = take capacity (sort_by (x :: seen)).
Proof.
  intros Hc Hnd Hh. pose proof Hnd as Hnd'. simpl in Hnd'. apply NoDup_cons in Hnd' as [Hx Hs].
  destruct (take_sorted_split capacity seen Hs) as (_ & HsT & HndT & _ & Hin & _).
  rewrite (topk_cons capacity x seen Hnd). set (T := take capacity (sort_by seen)) in *.
  assert (Hperm : Permutation heap T) by (rewrite <- Hh; symmetry; apply sort_by_perm).
  assert (HxT : NoDup (map key (x :: T))).
  { simpl. apply NoDup_cons. split; [|done]. intros Hk. apply Hx.
    apply list_elem_of_In, in_map_iff in Hk as (y & Hy & Hyin).
    apply list_elem_of_In, in_map_iff. exists y. split; [done|]. apply Hin. by left. }
  pose proof (Permutation_length Hperm) as Hlen. unfold heap_offer.
  destruct (Nat.ltb_spec (length heap) capacity) as [Hlt|Hge].
  - rewrite take_ge by (rewrite sort_by_perm; simpl; lia).
    apply sort_by_ext; [by rewrite Hperm|]. simpl. by rewrite Hperm.
  - assert (HlenT : length T = capacity).
    { pose proof (length_take (sort_by seen) capacity) as E. fold T in E. lia. }
    unfold heap_peek, heap_pop. rewrite Hh, Hlen.
    destruct (last T) as [w|] eqn:Ew.
    2: { apply last_None in Ew. rewrite Ew in HlenT. simpl in HlenT. lia. }
    apply last_Some in Ew as (T' & HT). rewrite HT in *.
    apply StronglySorted_app_iff in HsT as (HsT' & _ & Hle).
    rewrite length_app in *. simpl in *. rewrite Nat.add_sub, take_app_length.
    unfold is_some_and. destruct (lt_key x w) eqn:Exw.
    + assert (Hxw : le_key x w) by by apply lt_key_iff in Exw as [? _].
      assert (Hsort : sort_by (x :: T' ++ [w]) = sort_by (x :: T') ++ [w]).
      { rewrite <- sort_by_snoc.
        - apply sort_by_ext; [|done]. rewrite (Permutation_app_comm T' [w]). apply perm_swap.
        - simpl. rewrite map_app in HxT. simpl in HxT.
          rewrite (Permutation_app_comm (map key T') [key w]) in HxT.
          simpl in HxT. revert HxT. rewrite !NoDup_cons, !elem_of_cons. intuition congruence.
        - intros y [<-|Hy]; [done|]. apply Hle; [done|by left]. }
      rewrite Hsort, take_app_le by (rewrite sort_by_perm; simpl; lia).
      rewrite take_ge; [done|]. rewrite sort_by_perm. simpl. lia.
    + apply not_lt_key in Exw. rewrite sort_by_snoc.
      * rewrite take_app_le by (rewrite sort_by_perm, length_app; simpl; lia).
        rewrite take_ge by (rewrite sort_by_perm, length_app; simpl; lia).
        rewrite Hh. symmetry. apply sort_by_sorted_id; [|by inversion HxT].
        apply StronglySorted_app_iff. split; [done|]. split; [repeat constructor|done].
      * done.
      * intros y [Hy|[<-|[]]]%in_app_iff; [|done].
        eapply le_key_trans; [|exact Exw]. apply Hle; [done|by left].
Qed.

(** Reading any stream of candidates with distinct keys, the heap ends with its
    [capacity] smallest, in order. *)
Lemma heap_fold capacity stream : forall heap seen,
  (0 < capacity)%nat -> NoDup (map key (rev stream ++ seen)) ->
  sort_by heap = take capacity (sort_by seen) ->
  into_sorted_vec (fold_left (heap_offer capacity) stream heap)
    = take capacity (sort_by (rev stream ++ seen)).
Proof.
  induction stream as [|x rest IH]; intros heap seen Hc Hnd Hh; simpl in *; [done|].
  rewrite <- app_assoc in *. simpl in *. apply (IH _ (x :: seen)); [done|done|].
  apply heap_offer_spec; [done| |done]. rewrite map_app in Hnd.
  by apply NoDup_app in Hnd as (_ & _ & ?).
Qed.

Lemma heap_topk capacity stream :
  (0 < capacity)%nat -> NoDup (map key stream) ->
  into_sorted_vec (fold_left (heap_offer capacity) stream []) = take capacity (sort_by stream).
Proof.
  intros Hc Hnd. rewrite (heap_fold capacity stream [] []); [|done| |].
  - rewrite app_nil_r. f_equal. apply sort_by_ext; [symmetry; apply Permutation_rev|].
    by rewrite <- Permutation_rev.
  - rewrite app_nil_r. by rewrite <- Permutation_rev.
  - rewrite take_ge; [done|]. rewrite sort_by_perm. simpl. lia.
Qed.

End TopK.

(** ** Changing the key *)

Lemma comparable_ext {K : Type} (c1 c2 : K -> K -> comparison) :
  (forall a b, c1 a b = c2 a b) -> Comparable c2 -> Comparable c1.
Proof.
  intros He HC. split; intros *; rewrite !He.
  - apply compare_eq.
  - apply compare_refl.
  - apply compare_antisym.
  - apply compare_trans.
Qed.

Lemma then_compare_assoc a b c :
  then_compare (then_compare a b) c = then_compare a (then_compare b c).
Proof. by destruct a. Qed.

(** Two orders that agree on the elements of a list sort it alike. *)
Lemma sort_by_agree {A K1 K2 : Type} (key1 : A -> K1) (c1 : K1 -> K1 -> comparison)
    (key2 : A -> K2) (c2 : K2 -> K2 -> comparison) `{Comparable K1 c1} `{Comparable K2 c2} l :
  (forall a b, In a l -> In b l -> c1 (key1 a) (key1 b) = c2 (key2 a) (key2 b)) ->
  NoDup (map key2 l) -> sort_by key1 c1 l = sort_by key2 c2 l.
Proof.
  intros He Hnd. eapply (sorted_by_unique key2 c2).
  - pose proof (sort_by_sorted key1 c1 l) as Hs.
    assert (Hin : forall x, In x (sort_by key1 c1 l) -> In x l)
      by (intros x; apply Permutation_in, sort_by_perm).
    revert Hs Hin. generalize (sort_by key1 c1 l). induction 1 as [|x m Hm IH Hx]; intros Hin.
    + constructor.
    + constructor; [apply IH; intros; apply Hin; by right|].
      rewrite List.Forall_forall in *. intros y Hy. specialize (Hx y Hy). unfold le_key in *.
      rewrite <- He; [done|apply Hin; by left|apply Hin; by right].
  - apply sort_by_sorted. done.
  - by rewrite !sort_by_perm.
  - by rewrite sort_by_perm.
Qed.

Lemma sort_by_map {A B K : Type} (f : A -> B) (key : B -> K) (c : K -> K -> comparison)
    `{Comparable K c} l :
  NoDup (map (fun x => key (f x)) l) ->
  sort_by key c (map f l) = map f (sort_by (fun x => key (f x)) c l).
Proof.
  intros Hnd. eapply (sorted_by_unique key c).
  - by apply sort_by_sorted.
  - pose proof (sort_by_sorted (fun x => key (f x)) c l) as Hs. revert Hs.
    generalize (sort_by (fun x => key (f x)) c l). induction 1 as [|x m Hm IH Hx]; simpl;
      constructor; [done|]. rewrite List.Forall_forall in *.
    intros y (z & <- & Hz)%in_map_iff. exact (Hx z Hz).
  - by rewrite !sort_by_perm.
  - rewrite sort_by_perm, map_map. done.
Qed.

(** Several bounded selections that together cover a list yield its sorted prefix. *)
Lemma topk_cover {A K : Type} (key : A -> K) (c : K -> K -> comparison) `{Comparable K c}
    (p1 p2 : A -> bool) (rows part : list A) k :
  NoDup (map key rows) -> NoDup (map key part) ->
  (forall x, In x part <->
     In x (take k (sort_by key c (List.filter p1 rows))) \/
     In x (take k (sort_by key c (List.filter p2 rows)))) ->
  take k (sort_by key c part)
    = take k (sort_by key c (List.filter (fun x => p1 x || p2 x) rows)).
Proof.
  intros Hrows Hpart Hin.
  assert (Hnd : forall p, NoDup (map key (List.filter p rows))) by (intros; by apply NoDup_map_filter).
  assert (Htake : forall p x, In x (take k (sort_by key c (List.filter p rows))) ->
    In x rows /\ p x = true).
  { intros p x Hx. apply filter_In. eapply Permutation_in; [apply (sort_by_perm key c)|].
    apply list_elem_of_In. apply list_elem_of_In, elem_of_take in Hx as (i & Hi & _).
    by eapply list_elem_of_lookup_2. }
  apply topk_part; [done|apply Hnd|done|..].
  - intros x Hx. apply filter_In. rewrite orb_true_iff.
    apply Hin in Hx as [[Hx Hp]%Htake|[Hx Hp]%Htake]; auto.
  - intros x Hx. pose proof (Htake _ _ Hx) as [Hxr Hp]. apply Hin.
    apply orb_true_iff in Hp as [Hp|Hp]; [left|right];
      (eapply topk_mono; [done|apply (Hnd (fun x => p1 x || p2 x))|apply Hnd| |exact Hx|by apply filter_In]);
      intros y [Hy Hpy]%filter_In; apply filter_In; rewrite orb_true_iff; auto.
Qed.
