(* ===== verification/Bounded.v ===== *)
(** * A map with a queue of its keys

    The query cache and the browse sessions bound their maps the same way: the keys
    wait in a queue, oldest first, and keys are dropped from its front while it is
    longer than the capacity. *)
From S2P Require Import Prelude.

Section Bounded.
Context {K V : Type} `{Countable K}.

(** [while queue.len() > capacity { queue.pop_front() .. map.remove(&oldest) }] *)
Fixpoint evict (capacity : Z) (m : gmap K V) (queue : list K) : gmap K V * list K :=
  match queue with
  | [] => (m, queue)
  | oldest :: rest =>
      if capacity <? Z.of_nat (length queue) then evict capacity (delete oldest m) rest
      else (m, queue)
  end.

(** The queue holds the keys of the map, each once. *)
Record queued (m : gmap K V) (queue : list K) : Prop := {
  queued_nodup : NoDup queue;
  queued_keys : forall k, is_Some (m !! k) <-> k ∈ queue
}.

Lemma queued_empty : queued ∅ [].
Proof.
  split; [constructor|]. intros k. rewrite lookup_empty, elem_of_nil. split; [by intros []|done].
Qed.

Lemma queued_push m queue k v :
  queued m queue -> k ∉ queue -> queued (<[k := v]> m) (queue ++ [k]).
Proof.
  intros [Hn Hk] Hnk. split.
  - apply NoDup_app. split; [done|]. split; [|apply NoDup_singleton].
    by intros x Hx ->%list_elem_of_singleton.
  - intros x. rewrite elem_of_app, list_elem_of_singleton, <- Hk.
    destruct (decide (x = k)) as [->|]; [rewrite lookup_insert_eq|rewrite lookup_insert_ne by done];
      [split; [by right|by eexists]|tauto].
Qed.

Lemma queued_filter (P : K * V -> Prop) `{forall x, Decision (P x)} (f : K -> bool) m queue :
  (forall k v, m !! k = Some v -> f k = true <-> P (k, v)) -> queued m queue ->
  queued (filter P m) (List.filter f queue).
Proof.
  intros Hf [Hn Hk]. split.
  - rewrite <- (map_id (List.filter f queue)). apply NoDup_map_filter. by rewrite map_id.
  - intros k. rewrite list_elem_of_In, filter_In, <- list_elem_of_In, <- Hk. split.
    + intros [v [Hv Hp]%map_lookup_filter_Some]. split; [by eexists|]. by apply (Hf k v).
    + intros [[v Hv] Hp]. exists v. apply map_lookup_filter_Some. split; [done|].
      by apply (Hf k v).
Qed.

Lemma queued_evict cap : forall queue m, queued m queue ->
  queued (evict cap m queue).1 (evict cap m queue).2.
Proof.
  induction queue as [|k queue IH]; intros m Hq; simpl; [done|].
  destruct (cap <? _); [|done]. apply IH. destruct Hq as [Hn Hk].
  apply NoDup_cons in Hn as [Hnk Hn]. split; [done|]. intros x.
  destruct (decide (x = k)) as [->|].
  - rewrite lookup_delete_eq. split; [by intros []|done].
  - rewrite lookup_delete_ne by done. rewrite Hk, elem_of_cons. tauto.
Qed.

Lemma evict_length cap : forall queue (m : gmap K V), 0 <= cap ->
  Z.of_nat (length (evict cap m queue).2) <= cap.
Proof.
  induction queue as [|k queue IH]; intros m Hc; cbn [evict]; [simpl; lia|].
  destruct (Z.ltb_spec cap (Z.of_nat (length (k :: queue)))); [by apply IH|simpl in *; lia].
Qed.

(** Eviction only removes pairs. *)
Lemma evict_subseteq cap : forall queue (m : gmap K V), (evict cap m queue).1 ⊆ m.
Proof.
  induction queue as [|k queue IH]; intros m; simpl; [done|]. destruct (cap <? _); [|done].
  etransitivity; [apply IH|]. apply delete_subseteq.
Qed.

Lemma queued_size m queue : queued m queue -> size m = length queue.
Proof.
  intros [Hn Hk]. rewrite <- size_dom, <- (size_list_to_set (C := gset K) queue) by done.
  f_equal. apply set_eq. intros k. by rewrite elem_of_dom, elem_of_list_to_set.
Qed.

End Bounded.
