(* ===== verification/Schedule.v ===== *)
(** * Schedule: timestamps, maintenance windows, jitter and retry delays

    The time arithmetic of index.rs and index/scheduler.rs that decides when a
    refresh may run: the decimal-millisecond timestamps the database keeps, the
    daily maintenance windows, the per-server jitter and the back-off after
    failed builds. *)
From S2P Require Import Prelude Text.

(** ** Timestamps *)

(** The latest [SystemTime] of the gateway's platform: a Windows FILETIME, a
    signed 64-bit count of 100 ns intervals from 1601. *)
Definition system_time_max : Z := (i64_max - 116444736000000000) * 100.

(** [SystemTime::checked_add] *)
Definition system_time_checked_add (t d : Z) : option Z :=
  if t + d <=? system_time_max then Some (t + d) else None.

(** [t.duration_since(earlier).ok()] *)
Definition duration_since (t earlier : Z) : option Z :=
  if earlier <=? t then Some (t - earlier) else None.

Definition system_time_timestamp (value : Z) : string :=
  match duration_since value 0 with
  | Some duration => to_decimal (as_millis duration)
  | None => ""
  end.

Definition timestamp_now (now : Z) : string :=
  to_decimal (as_millis (unwrap_or 0 (duration_since now 0))).

(** [now] is [SystemTime::now()], [instant_now] is [Instant::now()]. *)
Definition instant_timestamp (now instant_now value : Z) : string :=
  system_time_timestamp (now + saturating_since value instant_now).

Definition parse_timestamp (value : string) : option Z :=
  match parse_uint (umax 128) value with
  | None => None
  | Some millis =>
      if millis <=? u64_max then system_time_checked_add 0 (from_millis millis) else None
  end.

(** ** Deterministic jitter *)

Fixpoint fnv_bytes (hash : Z) (server : string) : Z :=
  match server with
  | EmptyString => hash
  | String byte rest =>
      fnv_bytes
        (wrapping_mul 64 (Z.lxor hash (Z.of_nat (Ascii.nat_of_ascii byte))) 1099511628211) rest
  end.
Definition fnv_offset : Z := 14695981039346656037.

Definition hex_digit (d : Z) : Ascii.ascii :=
  Ascii.ascii_of_nat (Z.to_nat (if d <? 10 then 48 + d else 87 + d)).
(** [format!("{hash:016x}")]: the [n] low hexadecimal digits. *)
Fixpoint hex_digits (n : nat) (z : Z) (acc : string) : string :=
  match n with
  | O => acc
  | S n' => hex_digits n' (z / 16) (String (hex_digit (z mod 16)) acc)
  end.
Definition stable_server_hash (server : string) : string :=
  hex_digits 16 (fnv_bytes fnv_offset server) "".

Definition deterministic_jitter (server : string) (maximum_seconds : Z) : Z :=
  if maximum_seconds =? 0 then 0
  else
    let range := saturating_add 64 maximum_seconds 1 in
    from_secs (fnv_bytes fnv_offset server mod range).

(** ** Retry delays *)

Definition RETRY_INITIAL_BACKOFF : Z := from_secs 300.
Definition RETRY_MAX_BACKOFF : Z := from_secs 86400.

Definition retry_base (consecutive_failures : Z) : Z :=
  let exponent := Z.min (saturating_sub consecutive_failures 1) 8 in
  let multiplier := Z.shiftl 1 exponent in
  Z.min
    (unwrap_or RETRY_MAX_BACKOFF (duration_checked_mul RETRY_INITIAL_BACKOFF multiplier))
    RETRY_MAX_BACKOFF.

Definition retry_delay (server : string) (consecutive_failures : Z) (circuit_open : bool)
    (circuit_open_seconds : Z) : Z :=
  let base := retry_base consecutive_failures in
  let jitter_limit := Z.max (as_secs base / 5) 1 in
  let jitter :=
    deterministic_jitter
      (String.append server (String.append ":retry:" (to_decimal consecutive_failures)))
      jitter_limit in
  let exponential := Z.min (duration_saturating_add base jitter) RETRY_MAX_BACKOFF in
  if circuit_open then
    Z.max exponential (Z.min (from_secs circuit_open_seconds) RETRY_MAX_BACKOFF)
  else exponential.

(** ** Maintenance windows *)

Record MaintenanceWindow := { start_minute : Z; end_minute : Z }.

Definition parse_clock (value : string) : result Z string :=
  let? (hour, minute) :=
    ok_or (split_once ":" value) "maintenance window clock must use HH:MM" in
  let? hour := ok_or (parse_uint u16_max hour) "maintenance window hour is invalid" in
  let? minute := ok_or (parse_uint u16_max minute) "maintenance window minute is invalid" in
  if (24 <=? hour) || (60 <=? minute)
  then Err "maintenance window clock is outside 00:00-23:59"
  else Ok (hour * 60 + minute).

Definition window_parse (value : string) : result MaintenanceWindow string :=
  let? (start, end_) :=
    ok_or (split_once "-" value) "maintenance window must use HH:MM-HH:MM" in
  let? start := parse_clock start in
  let? end_ := parse_clock end_ in
  Ok {| start_minute := start; end_minute := end_ |}.

Definition window_contains (self : MaintenanceWindow) (minute : Z) : bool :=
  if start_minute self =? end_minute self then true
  else if start_minute self <? end_minute self then
    (start_minute self <=? minute) && (minute <? end_minute self)
  else (start_minute self <=? minute) || (minute <? end_minute self).

Definition parse_maintenance_windows (values : list string) :
    result (list MaintenanceWindow) string :=
  collect (map window_parse values).

(** [hour] and [minute] are the local clock's. *)
Definition maintenance_window_active (windows : list MaintenanceWindow) (hour minute : Z) : bool :=
  match windows with
  | [] => false
  | _ => existsb (fun window => window_contains window (hour * 60 + minute)) windows
  end.

(** The gate [maintenance_window_is_open] puts on a refresh: a window that cannot be
    parsed closes it. *)
Definition maintenance_window_is_open (values : list string) (hour minute : Z) : bool :=
  match parse_maintenance_windows values with
  | Ok windows => maintenance_window_active windows hour minute
  | Err _ => false
  end.

(** ** Lemmas *)

Lemma fnv_bytes_bounds server : forall hash,
  in_uint 64 hash -> in_uint 64 (fnv_bytes hash server).
Proof.
  induction server as [|b s IH]; intros hash Hh; cbn [fnv_bytes]; [done|].
  apply IH. unfold wrapping_mul, in_uint, umax.
  pose proof (Z.mod_pos_bound
    (Z.lxor hash (Z.of_nat (Ascii.nat_of_ascii b)) * 1099511628211) (2 ^ 64) ltac:(lia)). lia.
Qed.

Lemma deterministic_jitter_bounds server maximum :
  0 <= maximum -> 0 <= deterministic_jitter server maximum <= from_secs maximum.
Proof.
  intros Hm. unfold deterministic_jitter, from_secs, nanos_per_sec.
  destruct (Z.eqb_spec maximum 0); [lia|].
  assert (0 < saturating_add 64 maximum 1) by (unfold saturating_add, umax; lia).
  pose proof (Z.mod_pos_bound (fnv_bytes fnv_offset server) (saturating_add 64 maximum 1)
    ltac:(lia)).
  assert (saturating_add 64 maximum 1 <= maximum + 1) by (unfold saturating_add; lia).
  nia.
Qed.

Definition retry_exponent (n : Z) : Z := Z.min (saturating_sub n 1) 8.

Lemma retry_base_spec n : retry_base n = from_secs (300 * 2 ^ retry_exponent n).
Proof.
  unfold retry_base. fold (retry_exponent n).
  rewrite Z.shiftl_mul_pow2 by (unfold retry_exponent, saturating_sub; lia). rewrite Z.mul_1_l.
  assert (Hp : 1 <= 2 ^ retry_exponent n <= 256).
  { change 1 with (2 ^ 0) at 1. change 256 with (2 ^ 8).
    split; apply Z.pow_le_mono_r; unfold retry_exponent, saturating_sub; lia. }
  unfold duration_checked_mul, RETRY_INITIAL_BACKOFF, RETRY_MAX_BACKOFF, from_secs, nanos_per_sec.
  rewrite (proj2 (Z.leb_le _ _)) by (unfold duration_max, nanos_per_sec, umax; lia).
  cbn [unwrap_or]. lia.
Qed.

Lemma retry_base_bounds n : from_secs 300 <= retry_base n <= from_secs 76800.
Proof.
  rewrite retry_base_spec. unfold from_secs, nanos_per_sec.
  assert (2 ^ 0 <= 2 ^ retry_exponent n <= 2 ^ 8).
  { split; apply Z.pow_le_mono_r; unfold retry_exponent, saturating_sub; lia. }
  lia.
Qed.

(** The delay lies between the base and six fifths of it, before the circuit. *)
Lemma retry_delay_closed server n :
  retry_base n <= retry_delay server n false 0 <=
    Z.min (from_secs (360 * 2 ^ retry_exponent n)) RETRY_MAX_BACKOFF.
Proof.
  assert (1 <= 2 ^ retry_exponent n).
  { change 1 with (2 ^ 0) at 1. apply Z.pow_le_mono_r; unfold retry_exponent, saturating_sub; lia. }
  pose proof (retry_base_bounds n) as Hb. unfold retry_delay.
  match goal with |- context [deterministic_jitter ?s ?m] =>
    pose proof (deterministic_jitter_bounds s m ltac:(lia)) as Hj;
    set (j := deterministic_jitter s m) in * end.
  assert (Hs : as_secs (retry_base n) / 5 = 60 * 2 ^ retry_exponent n).
  { rewrite retry_base_spec. unfold as_secs, from_secs, nanos_per_sec.
    rewrite Z.div_mul by lia.
    replace (300 * 2 ^ retry_exponent n) with (60 * 2 ^ retry_exponent n * 5) by lia.
    by rewrite Z.div_mul by lia. }
  rewrite Hs in Hj. rewrite retry_base_spec in *.
  unfold duration_saturating_add, RETRY_MAX_BACKOFF, duration_max, from_secs, nanos_per_sec, umax in *.
  lia.
Qed.

Lemma timestamp_parse t :
  0 <= t <= system_time_max ->
  parse_timestamp (system_time_timestamp t) = Some (t - t mod nanos_per_milli).
Proof.
  intros Ht. unfold system_time_timestamp, duration_since, parse_timestamp.
  rewrite (proj2 (Z.leb_le 0 t)) by lia. rewrite Z.sub_0_r. unfold as_millis, from_millis.
  pose proof (Z.div_mod t nanos_per_milli ltac:(done)) as Hdm.
  pose proof (Z.mod_pos_bound t nanos_per_milli ltac:(done)).
  assert (0 <= t / nanos_per_milli <= u64_max).
  { split; [apply Z.div_pos; [lia|done]|].
    transitivity (system_time_max / nanos_per_milli); [|by vm_compute].
    apply Z.div_le_mono; [done|lia]. }
  rewrite parse_uint_to_decimal by (unfold umax in *; lia).
  rewrite (proj2 (Z.leb_le _ u64_max)) by lia.
  unfold system_time_checked_add. rewrite (proj2 (Z.leb_le _ _)) by lia. f_equal. lia.
Qed.

(** ** Properties *)

(** A retry waits at least five minutes and at most a day; the wait doubles
    its base with each failure up to the ninth, so that whatever the jitter it
    grows with each of them, and an open circuit waits at least the configured
    time (or a day). *)
Theorem retry_delay_backoff (server : string) (n circuit_open_seconds : Z) (open : bool)
    (Hn : 1 <= n) (Hc : 0 <= circuit_open_seconds) :
  let delay := retry_delay server n open circuit_open_seconds in
  (RETRY_INITIAL_BACKOFF <= delay <= RETRY_MAX_BACKOFF) /\
  (from_secs (300 * 2 ^ Z.min (n - 1) 8) <= delay) /\
  (open = true -> Z.min (from_secs circuit_open_seconds) RETRY_MAX_BACKOFF <= delay) /\
  (open = false -> n <= 8 ->
     forall server', delay < retry_delay server' (n + 1) false circuit_open_seconds).
Proof.
  assert (Hf : forall s m c, retry_delay s m false c = retry_delay s m false 0) by done.
  assert (Ho : forall s m c, retry_delay s m true c =
    Z.max (retry_delay s m false 0) (Z.min (from_secs c) RETRY_MAX_BACKOFF)) by done.
  pose proof (retry_delay_closed server n) as Hd. pose proof (retry_base_bounds n) as Hb.
  assert (He : retry_exponent n = Z.min (n - 1) 8) by (unfold retry_exponent; zlia).
  pose proof (retry_base_spec n) as Hs. rewrite He in *.
  unfold RETRY_INITIAL_BACKOFF. destruct open; [rewrite Ho | rewrite Hf]; cbn zeta.
  - repeat split; try done; unfold RETRY_MAX_BACKOFF, from_secs, nanos_per_sec in *; lia.
  - repeat split; try done; try lia.
    intros _ Hn8 server'. rewrite (Hf server' _ circuit_open_seconds). pose proof (retry_delay_closed server' (n + 1)) as Hd'.
    rewrite retry_base_spec in Hd'.
    assert (Hpow : retry_exponent (n + 1) = Z.succ (n - 1)) by (unfold retry_exponent; zlia).
    rewrite Hpow, Z.pow_succ_r in Hd' by lia. rewrite (Z.min_l (n - 1) 8) in * by lia.
    assert (0 < 2 ^ (n - 1)) by (apply Z.pow_pos_nonneg; lia).
    unfold from_secs, nanos_per_sec in *. lia.
Qed.

(** The minutes of the day [w] covers: the arc from its start of length
    [end - start] modulo a day, the whole day when they coincide. *)
Definition window_length (w : MaintenanceWindow) : Z :=
  let d := (end_minute w - start_minute w) mod 1440 in
  if d =? 0 then 1440 else d.

(** A maintenance window that parses covers exactly the arc of the daily clock
    from its start minute to its end minute, across midnight included. *)
Theorem window_contains_arc (text : string) (w : MaintenanceWindow) (minute : Z)
    (Hparse : window_parse text = Ok w) (Hm : 0 <= minute < 1440) :
  (0 <= start_minute w < 1440 /\ 0 <= end_minute w < 1440) /\
  (window_contains w minute = true <->
   exists k, 0 <= k < window_length w /\ minute = (start_minute w + k) mod 1440).
Proof.
  assert (Hclock : forall v m, parse_clock v = Ok m -> 0 <= m < 1440).
  { intros v m. unfold parse_clock, result_bind, ok_or.
    destruct (split_once _ v) as [[h mi]|]; [|done].
    destruct (parse_uint u16_max h) as [hv|] eqn:Eh; [|done].
    destruct (parse_uint u16_max mi) as [mv|] eqn:Em; [|done].
    apply parse_uint_bounds in Eh, Em; [|done..]. bool_cases; [done|]. bool_to_prop. intros [= <-]. lia. }
  assert (Hw : 0 <= start_minute w < 1440 /\ 0 <= end_minute w < 1440).
  { revert Hparse. unfold window_parse, result_bind, ok_or.
    destruct (split_once _ text) as [[s e]|]; [|done].
    destruct (parse_clock s) eqn:Es; [|done]. destruct (parse_clock e) eqn:Ee; [|done].
    intros [= <-]. eauto. }
  split; [done|]. destruct w as [s e]; cbn [start_minute end_minute] in *.
  unfold window_contains, window_length; cbn [start_minute end_minute].
  set (d := (e - s) mod 1440).
  assert (Hd : d = if s <=? e then e - s else e - s + 1440).
  { unfold d. destruct (Z.leb_spec s e); [by rewrite Z.mod_small by lia|].
    symmetry. apply Z.mod_unique with (q := -1); lia. }
  clearbody d. split.
  - intros Hc. exists (if s <=? minute then minute - s else minute - s + 1440). split.
    + revert Hc Hd. bool_cases; bool_to_prop; lia.
    + destruct (Z.leb_spec s minute).
      * rewrite Z.mod_small by lia. lia.
      * apply Z.mod_unique with (q := 1); lia.
  - intros (k & Hk & Hmin).
    assert (Hk' : s + k = minute \/ s + k = minute + 1440).
    { pose proof (Z.div_mod (s + k) 1440 ltac:(lia)).
      revert Hk Hd. bool_cases; intros; assert ((s + k) / 1440 = 0 \/ (s + k) / 1440 = 1) by lia; lia. }
    clear Hmin. revert Hk Hd. bool_cases; intros; try lia; bool_to_prop; lia.
Qed.

(** Parsing a printed timestamp gives the instant back, truncated to its
    millisecond, for every instant of the epoch the platform can represent. *)
Theorem timestamp_roundtrip (t : Z) (Ht : 0 <= t <= system_time_max) :
  parse_timestamp (system_time_timestamp t) = Some (t - t mod nanos_per_milli) /\
  parse_timestamp (system_time_timestamp (t - t mod nanos_per_milli)) =
    parse_timestamp (system_time_timestamp t).
Proof.
  pose proof (Z.mod_pos_bound t nanos_per_milli ltac:(done)).
  assert (Hle : t mod nanos_per_milli <= t) by (apply Z.mod_le; [lia|done]).
  split; [by apply timestamp_parse|]. rewrite !timestamp_parse by lia. f_equal.
  assert (Hdiv : (t - t mod nanos_per_milli) mod nanos_per_milli = 0).
  { rewrite Zminus_mod_idemp_r, Z.sub_diag. done. }
  lia.
Qed.
