(* ===== verification/Controller.v ===== *)
(** * Adaptive index controller ([controller.rs])

    The AIMD controller that paces the inventory of one build: the limits it
    hands to the worker, the observation it reacts to, its four operating
    states and the decision it returns. Floating point readings are IEEE
    binary64 values ([spec_float]), compared as Rust compares [f64]. *)
From S2P Require Import Prelude.

(** [opc.rs]: [MAX_NATIVE_INVENTORY_BATCH_SIZE] *)
Definition MAX_NATIVE_INVENTORY_BATCH_SIZE : Z := 1000.

Inductive PauseReason :=
| Foreground
| OpcHealth
| HostCpu
| Memory
| Disk
| Database
| Operator
| Circuit
| Maintenance.

#[export] Instance PauseReason_eq_dec : EqDecision PauseReason.
Proof. solve_decision. Defined.

(** [PauseReason::as_str] *)
Definition as_str (reason : PauseReason) : string :=
  match reason with
  | Foreground => "foreground"
  | OpcHealth => "opc_health"
  | HostCpu => "host_cpu"
  | Memory => "memory"
  | Disk => "disk"
  | Database => "database"
  | Operator => "operator"
  | Circuit => "circuit"
  | Maintenance => "maintenance"
  end.

Inductive ControllerState :=
| Ramping
| Steady
| Throttled
| Paused (reason : PauseReason).

#[export] Instance ControllerState_eq_dec : EqDecision ControllerState.
Proof. solve_decision. Defined.

Definition is_paused (state : ControllerState) : bool :=
  match state with
  | Paused _ => true
  | _ => false
  end.

Record InventoryLimits := mk_limits {
  item_rate_per_second : Z; (* u32 *)
  batch_size : Z;           (* u32 *)
  duty_cycle_percent : Z    (* u8 *)
}.

#[export] Instance InventoryLimits_eq_dec : EqDecision InventoryLimits.
Proof. solve_decision. Defined.

Module Adaptive.

Record ControllerConfig := mk_config {
  floor : InventoryLimits;
  canary : InventoryLimits;
  ceiling : InventoryLimits;
  unlimited_item_rate : bool;
  healthy_window : Z;          (* Duration *)
  recovery_delay : Z;          (* Duration *)
  maximum_recovery_delay : Z;  (* Duration *)
  foreground_latency_soft_ms : Z; (* u64 *)
  foreground_latency_hard_ms : Z  (* u64 *)
}.

(** [ControllerConfig::normalized] *)
Definition normalized (self : ControllerConfig) : ControllerConfig :=
  let floor' := mk_limits
    (if unlimited_item_rate self then 0
     else Z.max (item_rate_per_second (floor self)) 1)
    (clamp 1 MAX_NATIVE_INVENTORY_BATCH_SIZE (batch_size (floor self)))
    (clamp 1 100 (duty_cycle_percent (floor self))) in
  let ceiling' := mk_limits
    (if unlimited_item_rate self then 0
     else Z.max (item_rate_per_second (ceiling self)) (item_rate_per_second floor'))
    (clamp (batch_size floor') MAX_NATIVE_INVENTORY_BATCH_SIZE (batch_size (ceiling self)))
    (clamp (duty_cycle_percent floor') 100 (duty_cycle_percent (ceiling self))) in
  let canary' := mk_limits
    (if unlimited_item_rate self then 0
     else clamp (item_rate_per_second floor') (item_rate_per_second ceiling')
            (item_rate_per_second (canary self)))
    (clamp (batch_size floor') (Z.min (batch_size ceiling') MAX_NATIVE_INVENTORY_BATCH_SIZE)
       (batch_size (canary self)))
    (clamp (duty_cycle_percent floor') (duty_cycle_percent ceiling')
       (duty_cycle_percent (canary self))) in
  {| floor := floor';
     canary := canary';
     ceiling := ceiling';
     unlimited_item_rate := unlimited_item_rate self;
     healthy_window := Z.max (healthy_window self) (from_millis 1);
     recovery_delay := Z.max (recovery_delay self) (from_millis 1);
     maximum_recovery_delay :=
       Z.max (maximum_recovery_delay self) (Z.max (recovery_delay self) (from_millis 1));
     foreground_latency_soft_ms := Z.max (foreground_latency_soft_ms self) 1;
     foreground_latency_hard_ms :=
       Z.max (foreground_latency_hard_ms self) (Z.max (foreground_latency_soft_ms self) 1) |}.

(** [impl Default for ControllerConfig] *)
Definition default_config : ControllerConfig :=
  {| floor := mk_limits 10 1 1;
     canary := mk_limits 50 25 5;
     ceiling := mk_limits 250 100 20;
     unlimited_item_rate := false;
     healthy_window := from_secs 30;
     recovery_delay := from_secs 30;
     maximum_recovery_delay := from_secs 300;
     foreground_latency_soft_ms := 1000;
     foreground_latency_hard_ms := 2000 |}.

Record ControllerObservation := mk_observation {
  foreground_active : bool;
  foreground_error : bool;
  foreground_bad_quality : bool;
  foreground_latency_ms : option Z;
  baseline_latency_ms : option Z;
  inventory_error : bool;
  host_cpu_percent : option f64;
  available_memory_percent : option f64;
  disk_active_percent : option f64;
  disk_queue : option f64;
  database_commit_p95_ms : option Z;
  insufficient_disk_space : bool
}.

Record ControllerDecision := mk_decision {
  decision_state : ControllerState;
  decision_limits : InventoryLimits;
  decision_paused : bool;
  decision_reason : option PauseReason;
  decision_recovery_at : option Z;
  decision_transitioned : bool
}.

Record AdaptiveIndexController := mk_controller {
  config : ControllerConfig;
  state : ControllerState;
  limits : InventoryLimits;
  hold_until : option Z;   (* Instant *)
  recovery_at : option Z;  (* Instant *)
  recovery_exponent : Z;   (* u32 *)
  last_reason : option PauseReason
}.

(** [AdaptiveIndexController::new] *)
Definition new (cfg : ControllerConfig) (now : Z) : AdaptiveIndexController :=
  let cfg := normalized cfg in
  {| config := cfg;
     state := Ramping;
     limits := canary cfg;
     hold_until := Some (now + healthy_window cfg);
     recovery_at := None;
     recovery_exponent := 0;
     last_reason := None |}.

Definition hard_reason (self : AdaptiveIndexController) (o : ControllerObservation)
  : option PauseReason :=
  if foreground_error o || foreground_bad_quality o || inventory_error o then Some OpcHealth
  else if is_some_and (fun latency => foreground_latency_hard_ms (config self) <=? latency)
            (foreground_latency_ms o) then Some OpcHealth
  else if is_some_and (fun v => f64_ge v (f64_of_Z 85)) (host_cpu_percent o) then Some HostCpu
  else if is_some_and (fun v => f64_le v (f64_of_Z 8)) (available_memory_percent o) then Some Memory
  else if is_some_and (fun v => f64_ge v (f64_of_Z 90)) (disk_active_percent o)
          || is_some_and (fun v => f64_ge v (f64_of_Z 5)) (disk_queue o) then Some Disk
  else if is_some_and (fun v => 1000 <=? v) (database_commit_p95_ms o)
          || insufficient_disk_space o then Some Database
  else None.

Definition soft_reason (self : AdaptiveIndexController) (o : ControllerObservation)
  : option PauseReason :=
  if is_some_and (fun latency => foreground_latency_soft_ms (config self) <=? latency)
       (foreground_latency_ms o) then Some OpcHealth
  else if is_some_and (fun v => f64_ge v (f64_of_Z 70)) (host_cpu_percent o) then Some HostCpu
  else if is_some_and (fun v => f64_le v (f64_of_Z 15)) (available_memory_percent o) then Some Memory
  else if is_some_and (fun v => f64_ge v (f64_of_Z 70)) (disk_active_percent o)
          || is_some_and (fun v => f64_ge v (f64_of_Z 2)) (disk_queue o) then Some Disk
  else if is_some_and (fun v => 250 <=? v) (database_commit_p95_ms o) then Some Database
  else None.

Definition throttle (self : AdaptiveIndexController) (now : Z) (reason : PauseReason)
  : AdaptiveIndexController :=
  {| config := config self;
     state := Throttled;
     limits := mk_limits
       (Z.max (item_rate_per_second (limits self) / 2) (item_rate_per_second (floor (config self))))
       (Z.max (batch_size (limits self) / 2) (batch_size (floor (config self))))
       (Z.max (duty_cycle_percent (limits self) / 2) (duty_cycle_percent (floor (config self))));
     hold_until := Some (now + healthy_window (config self));
     recovery_at := None;
     recovery_exponent := recovery_exponent self;
     last_reason := Some reason |}.

(** The delay [pause_for] adds to [now]: [recovery_delay * 2^min(exponent, 10)],
    capped by [maximum_recovery_delay]. *)
Definition pause_delay (cfg : ControllerConfig) (exponent : Z) : Z :=
  let multiplier := Z.shiftl 1 (Z.min exponent 10) in
  Z.min
    (unwrap_or (maximum_recovery_delay cfg)
       (duration_checked_mul (recovery_delay cfg) multiplier))
    (maximum_recovery_delay cfg).

Definition pause_for (self : AdaptiveIndexController) (now : Z) (reason : PauseReason)
  : AdaptiveIndexController :=
  {| config := config self;
     state := Paused reason;
     limits := canary (config self);
     hold_until := None;
     recovery_at := Some (now + pause_delay (config self) (recovery_exponent self));
     recovery_exponent := saturating_add 32 (recovery_exponent self) 1;
     last_reason := Some reason |}.

Definition increase_limits (self : AdaptiveIndexController) (now : Z) : AdaptiveIndexController :=
  let l := limits self in
  let c := ceiling (config self) in
  let l' := mk_limits
    (if unlimited_item_rate (config self) then item_rate_per_second l
     else Z.min (saturating_add 32 (item_rate_per_second l)
                   (Z.max (item_rate_per_second l / 10) 1))
                (item_rate_per_second c))
    (Z.min (saturating_add 32 (batch_size l) (Z.max (batch_size l / 10) 1)) (batch_size c))
    (Z.min (saturating_add 8 (duty_cycle_percent l) 1) (duty_cycle_percent c)) in
  {| config := config self;
     state := if decide (l' = c) then Steady else Ramping;
     limits := l';
     hold_until := Some (now + healthy_window (config self));
     recovery_at := recovery_at self;
     recovery_exponent := 0;
     last_reason := None |}.

(** [AdaptiveIndexController::decision]; [previous] is the state, limits and
    recovery instant before the observation. *)
Definition decision (self : AdaptiveIndexController)
    (previous : ControllerState * InventoryLimits * option Z) : ControllerDecision :=
  {| decision_state := state self;
     decision_limits := limits self;
     decision_paused := is_paused (state self);
     decision_reason := last_reason self;
     decision_recovery_at := recovery_at self;
     decision_transitioned :=
       negb (bool_decide (previous = (state self, limits self, recovery_at self))) |}.

(** [observe], foreground activity. *)
Definition pause_foreground (self : AdaptiveIndexController) : AdaptiveIndexController :=
  {| config := config self;
     state := Paused Foreground;
     limits := limits self;
     hold_until := hold_until self;
     recovery_at := None;
     recovery_exponent := recovery_exponent self;
     last_reason := Some Foreground |}.

(** [observe], first observation after the foreground activity ended. *)
Definition leave_foreground (self : AdaptiveIndexController) (now : Z) : AdaptiveIndexController :=
  if decide (state self = Paused Foreground) then
    {| config := config self;
       state := Ramping;
       limits := limits self;
       hold_until := Some (now + healthy_window (config self));
       recovery_at := recovery_at self;
       recovery_exponent := recovery_exponent self;
       last_reason := None |}
  else self.

(** [observe], the recovery deadline of a pause has passed. *)
Definition leave_pause (self : AdaptiveIndexController) (now : Z) : AdaptiveIndexController :=
  if is_paused (state self) then
    {| config := config self;
       state := Ramping;
       limits := canary (config self);
       hold_until := Some (now + healthy_window (config self));
       recovery_at := None;
       recovery_exponent := recovery_exponent self;
       last_reason := None |}
  else self.

(** [observe], after the hard limits and the recovery deadline. *)
Definition adjust (self : AdaptiveIndexController) (now : Z) (o : ControllerObservation)
  : AdaptiveIndexController :=
  match soft_reason self o with
  | Some reason =>
      let hold_expired := is_none_or (fun t => t <=? now) (hold_until self) in
      if negb (bool_decide (state self = Throttled)) || hold_expired
      then throttle self now reason
      else self
  | None =>
      if is_some_and (fun t => t <=? now) (hold_until self)
      then increase_limits self now
      else self
  end.

(** The state part of [observe]. *)
Definition observe_state (self : AdaptiveIndexController) (now : Z) (o : ControllerObservation)
  : AdaptiveIndexController :=
  if foreground_active o then pause_foreground self
  else
    let self := leave_foreground self now in
    match hard_reason self o with
    | Some reason => pause_for self now reason
    | None =>
        if is_paused (state self) && is_some_and (fun t => now <? t) (recovery_at self)
        then self
        else adjust (leave_pause self now) now o
    end.

(** [AdaptiveIndexController::observe] *)
Definition observe (self : AdaptiveIndexController) (now : Z) (o : ControllerObservation)
  : AdaptiveIndexController * ControllerDecision :=
  let previous := (state self, limits self, recovery_at self) in
  let self' := observe_state self now o in
  (self', decision self' previous).

(** ** Reachable controllers *)

Inductive reachable (cfg : ControllerConfig) : AdaptiveIndexController -> Prop :=
| reachable_new now : reachable cfg (new cfg now)
| reachable_observe c now o : reachable cfg c -> reachable cfg (observe_state c now o).

(** Componentwise order on limits. *)
Definition limits_le (a b : InventoryLimits) : Prop :=
  item_rate_per_second a <= item_rate_per_second b /\
  batch_size a <= batch_size b /\
  duty_cycle_percent a <= duty_cycle_percent b.

(** The fields of a configuration are values of their Rust types. *)
Record config_typed (c : ControllerConfig) : Prop := {
  typed_floor_rate : in_uint 32 (item_rate_per_second (floor c));
  typed_ceiling_rate : in_uint 32 (item_rate_per_second (ceiling c));
  typed_recovery_delay : in_duration (recovery_delay c);
  typed_maximum_delay : in_duration (maximum_recovery_delay c)
}.

(** What [normalized] establishes. *)
Record config_wf (c : ControllerConfig) : Prop := {
  wf_floor_pos : 0 <= item_rate_per_second (floor c) /\ 1 <= batch_size (floor c)
                 /\ 1 <= duty_cycle_percent (floor c);
  wf_rate_pos : unlimited_item_rate c = false -> 1 <= item_rate_per_second (floor c);
  wf_unlimited : unlimited_item_rate c = true -> item_rate_per_second (ceiling c) = 0;
  wf_floor_canary : limits_le (floor c) (canary c);
  wf_canary_ceiling : limits_le (canary c) (ceiling c);
  wf_rate : item_rate_per_second (ceiling c) <= u32_max;
  wf_batch : batch_size (ceiling c) <= MAX_NATIVE_INVENTORY_BATCH_SIZE;
  wf_duty : duty_cycle_percent (ceiling c) <= 100;
  wf_recovery : 0 < recovery_delay c <= maximum_recovery_delay c;
  wf_maximum : maximum_recovery_delay c <= duration_max;
  wf_window : 0 < healthy_window c;
  wf_latency : 1 <= foreground_latency_soft_ms c <= foreground_latency_hard_ms c
}.

(** The controller's invariant: the limits stay between floor and ceiling, and
    the state determines which of the two deadlines is armed. *)
Record controller_inv (c : AdaptiveIndexController) : Prop := {
  inv_config : config_wf (config c);
  inv_floor : limits_le (floor (config c)) (limits c);
  inv_ceiling : limits_le (limits c) (ceiling (config c));
  inv_steady : state c = Steady -> limits c = ceiling (config c);
  inv_exponent : in_uint 32 (recovery_exponent c);
  inv_reason : forall r, state c = Paused r -> last_reason c = Some r;
  inv_deadlines :
    match state c with
    | Paused Foreground => recovery_at c = None
    | Paused _ => exists t, recovery_at c = Some t
    | _ => recovery_at c = None /\ exists t, hold_until c = Some t
    end
}.

(** An observation that neither pauses nor throttles. *)
Definition healthy (self : AdaptiveIndexController) (o : ControllerObservation) : bool :=
  negb (foreground_active o)
  && negb (is_some (hard_reason self o))
  && negb (is_some (soft_reason self o)).

Fixpoint observe_all (c : AdaptiveIndexController) (l : list (Z * ControllerObservation))
  : AdaptiveIndexController :=
  match l with
  | [] => c
  | (now, o) :: rest => observe_all (observe_state c now o) rest
  end.

(** Observations that are healthy and at least one healthy window apart. *)
Fixpoint spaced_healthy (c : AdaptiveIndexController) (l : list (Z * ControllerObservation))
  : bool :=
  match l with
  | [] => true
  | (now, o) :: rest =>
      healthy c o && is_some_and (fun t => t <=? now) (hold_until c)
      && spaced_healthy (observe_state c now o) rest
  end.

(** How far the limits are below the ceiling. *)
Definition gap (c : AdaptiveIndexController) : Z :=
  Z.max (item_rate_per_second (ceiling (config c)) - item_rate_per_second (limits c))
    (Z.max (batch_size (ceiling (config c)) - batch_size (limits c))
       (duty_cycle_percent (ceiling (config c)) - duty_cycle_percent (limits c))).

(** ** Lemmas *)

Ltac limits_lia :=
  unfold limits_le, in_uint, umax, MAX_NATIVE_INVENTORY_BATCH_SIZE, clamp, saturating_add in *;
  simpl in *; repeat case_match; lia.

Lemma normalized_limits cfg : let n := normalized cfg in
  in_uint 32 (item_rate_per_second (Adaptive.floor cfg)) ->
  in_uint 32 (item_rate_per_second (ceiling cfg)) ->
  limits_le (Adaptive.floor n) (canary n) /\ limits_le (canary n) (ceiling n) /\
  0 <= item_rate_per_second (Adaptive.floor n) /\
  item_rate_per_second (ceiling n) <= u32_max /\
  1 <= batch_size (Adaptive.floor n) /\
  batch_size (ceiling n) <= MAX_NATIVE_INVENTORY_BATCH_SIZE /\
  1 <= duty_cycle_percent (Adaptive.floor n) /\ duty_cycle_percent (ceiling n) <= 100.
Proof.
  cbn zeta. intros T1 T2. unfold normalized, limits_le. cbn [Adaptive.floor canary ceiling
    item_rate_per_second batch_size duty_cycle_percent].
  set (fb := clamp 1 MAX_NATIVE_INVENTORY_BATCH_SIZE _). set (fd := clamp 1 100 _).
  assert (Hfb : 1 <= fb <= MAX_NATIVE_INVENTORY_BATCH_SIZE) by by apply clamp_bounds.
  assert (Hfd : 1 <= fd <= 100) by by apply clamp_bounds.
  set (cb := clamp fb _ (batch_size (ceiling cfg))).
  set (cd := clamp fd _ (duty_cycle_percent (ceiling cfg))).
  assert (Hcb : fb <= cb <= MAX_NATIVE_INVENTORY_BATCH_SIZE) by (apply clamp_bounds; lia).
  assert (Hcd : fd <= cd <= 100) by (apply clamp_bounds; lia).
  pose proof (clamp_bounds fb (Z.min cb MAX_NATIVE_INVENTORY_BATCH_SIZE) (batch_size (canary cfg))).
  pose proof (clamp_bounds fd cd (duty_cycle_percent (canary cfg))).
  unfold in_uint in T1, T2. destruct (unlimited_item_rate cfg).
  - unfold umax. lia.
  - match goal with |- context [clamp ?lo ?hi (item_rate_per_second (canary cfg))] =>
      pose proof (clamp_bounds lo hi (item_rate_per_second (canary cfg))) end.
    unfold umax in *. lia.
Qed.

Lemma normalized_wf cfg : config_typed cfg -> config_wf (normalized cfg).
Proof.
  intros [T1 T2 T3 T4]. pose proof (normalized_limits cfg T1 T2) as Hl. cbn zeta in Hl.
  constructor; try (clear - Hl; tauto).
  - simpl. intros ->. lia.
  - simpl. by intros ->.
  - simpl. unfold from_millis, nanos_per_milli. lia.
  - simpl. unfold in_duration, from_millis, nanos_per_milli, duration_max, nanos_per_sec, umax in *.
    lia.
  - simpl. unfold from_millis, nanos_per_milli. lia.
  - simpl. lia.
Qed.

(** [Z.div] by two and ten as bounds [lia] can use. *)
Lemma half_bounds z : 0 <= z -> 0 <= z / 2 <= z.
Proof. intros. split; [apply Z.div_pos; lia | apply Z.div_le_upper_bound; lia]. Qed.

Lemma tenth_bounds z : 0 <= z -> 0 <= z / 10.
Proof. intros. apply Z.div_pos; lia. Qed.

Lemma hard_reason_not_foreground c o r : hard_reason c o = Some r -> r <> Foreground.
Proof. unfold hard_reason. intros H. repeat case_match; congruence. Qed.

(** Every state the controller enters other than by [increase_limits] sets the
    deadlines of that state. *)
Lemma throttle_inv c now r : controller_inv c -> controller_inv (throttle c now r).
Proof.
  intros [Hwf [Hf1 [Hf2 Hf3]] [Hc1 [Hc2 Hc3]] _ He _ _].
  pose proof (wf_floor_pos _ Hwf) as (P1 & P2 & P3).
  pose proof (half_bounds (item_rate_per_second (limits c))).
  pose proof (half_bounds (batch_size (limits c))).
  pose proof (half_bounds (duty_cycle_percent (limits c))).
  constructor; simpl; unfold limits_le; simpl; try done; try lia; eauto.
Qed.

Lemma pause_for_inv c now r :
  r <> Foreground -> controller_inv c -> controller_inv (pause_for c now r).
Proof.
  intros Hr [Hwf _ _ _ He _ _]. constructor; simpl; try done.
  - apply Hwf.
  - apply Hwf.
  - unfold saturating_add, in_uint, umax in *. lia.
  - congruence.
  - destruct r; eauto; congruence.
Qed.

Lemma not_paused_recovery c :
  controller_inv c -> is_paused (state c) = false -> recovery_at c = None.
Proof. intros [_ _ _ _ _ _ Hd] Hp. destruct (state c); try done; by destruct Hd. Qed.

Lemma increase_inv c now :
  controller_inv c -> is_paused (state c) = false -> controller_inv (increase_limits c now).
Proof.
  intros Hinv Hp. pose proof (not_paused_recovery c Hinv Hp) as Hr.
  destruct Hinv as [Hwf [Hf1 [Hf2 Hf3]] [Hc1 [Hc2 Hc3]] _ He _ _].
  pose proof (wf_floor_pos _ Hwf) as (P1 & P2 & P3).
  pose proof (wf_duty _ Hwf). pose proof (wf_batch _ Hwf). pose proof (wf_rate _ Hwf).
  pose proof (tenth_bounds (item_rate_per_second (limits c))).
  pose proof (tenth_bounds (batch_size (limits c))).
  constructor; simpl; try done.
  - unfold limits_le, saturating_add, umax, MAX_NATIVE_INVENTORY_BATCH_SIZE in *; simpl.
    destruct (unlimited_item_rate (config c)); lia.
  - unfold limits_le, saturating_add, umax; simpl.
    destruct (unlimited_item_rate (config c)); lia.
  - case_decide; [done | discriminate].
  - case_decide; discriminate.
  - case_decide; eauto.
Qed.

Lemma restart_inv c now l rec :
  controller_inv c -> rec = None ->
  limits_le (floor (config c)) l -> limits_le l (ceiling (config c)) ->
  controller_inv {| config := config c; state := Ramping; limits := l;
                    hold_until := Some (now + healthy_window (config c));
                    recovery_at := rec; recovery_exponent := recovery_exponent c;
                    last_reason := None |}.
Proof. intros [Hwf Hf Hc _ He _ Hd] Hr. constructor; simpl; eauto; discriminate. Qed.

Lemma leave_foreground_inv c now : controller_inv c -> controller_inv (leave_foreground c now).
Proof.
  intros Hinv. unfold leave_foreground. case_decide as Hs; [|done].
  pose proof (inv_deadlines _ Hinv) as Hd. rewrite Hs in Hd.
  apply restart_inv; eauto; apply Hinv.
Qed.

Lemma leave_foreground_config c now : config (leave_foreground c now) = config c.
Proof. unfold leave_foreground. by case_decide. Qed.

Lemma leave_pause_inv c now :
  controller_inv c ->
  controller_inv (leave_pause c now) /\ is_paused (state (leave_pause c now)) = false.
Proof.
  intros Hinv. unfold leave_pause. destruct (is_paused (state c)) eqn:Hp; [|done].
  split; [|done]. apply restart_inv; eauto; apply Hinv.
Qed.

Lemma adjust_inv c now o :
  controller_inv c -> is_paused (state c) = false -> controller_inv (adjust c now o).
Proof.
  intros. unfold adjust. repeat case_match; eauto using throttle_inv, increase_inv.
Qed.

Lemma pause_foreground_inv c : controller_inv c -> controller_inv (pause_foreground c).
Proof. intros [? ? ? ? ? ? ?]. constructor; simpl; try done. congruence. Qed.

Lemma observe_state_inv c now o : controller_inv c -> controller_inv (observe_state c now o).
Proof.
  intros Hinv. unfold observe_state.
  destruct (foreground_active o); [by apply pause_foreground_inv|].
  pose proof (leave_foreground_inv c now Hinv) as Hl.
  destruct (hard_reason _ o) eqn:Hh.
  - apply pause_for_inv; [by eapply hard_reason_not_foreground | done].
  - case_match; [done|].
    destruct (leave_pause_inv (leave_foreground c now) now Hl). by apply adjust_inv.
Qed.

Lemma new_inv cfg now : config_typed cfg -> controller_inv (new cfg now).
Proof.
  intros Ht. pose proof (normalized_wf cfg Ht) as Hwf.
  constructor; cbn [new config state limits hold_until recovery_at recovery_exponent].
  - done.
  - apply Hwf.
  - apply Hwf.
  - discriminate.
  - unfold in_uint, umax. lia.
  - discriminate.
  - eauto.
Qed.

Lemma reachable_controller_inv cfg c : config_typed cfg -> reachable cfg c -> controller_inv c.
Proof. intros Ht. induction 1; eauto using new_inv, observe_state_inv. Qed.

#[export] Hint Resolve normalized_wf new_inv observe_state_inv reachable_controller_inv : bridge.

(** ** Functional behaviour of [observe] *)

Lemma observe_foreground c now o :
  foreground_active o = true -> observe_state c now o = pause_foreground c.
Proof. intros H. unfold observe_state. by rewrite H. Qed.

Lemma hard_reason_config c c' o : config c = config c' -> hard_reason c o = hard_reason c' o.
Proof. intros H. unfold hard_reason. by rewrite H. Qed.

Lemma soft_reason_config c c' o : config c = config c' -> soft_reason c o = soft_reason c' o.
Proof. intros H. unfold soft_reason. by rewrite H. Qed.

Lemma observe_hard c now o r :
  foreground_active o = false -> hard_reason c o = Some r ->
  observe_state c now o = pause_for (leave_foreground c now) now r.
Proof.
  intros Hf Hr. unfold observe_state. rewrite Hf.
  rewrite (hard_reason_config _ c) by apply leave_foreground_config. by rewrite Hr.
Qed.

Lemma observe_waiting c now o r t :
  foreground_active o = false -> hard_reason c o = None ->
  state c = Paused r -> r <> Foreground -> recovery_at c = Some t -> now < t ->
  observe_state c now o = c.
Proof.
  intros Hf Hh Hs Hr Ht Hlt. unfold observe_state. rewrite Hf.
  assert (leave_foreground c now = c) as ->.
  { unfold leave_foreground. case_decide; congruence. }
  rewrite Hh, Hs, Ht. simpl. by rewrite (proj2 (Z.ltb_lt _ _) Hlt).
Qed.

Lemma adjust_not_paused c now o :
  is_paused (state c) = false -> is_paused (state (adjust c now o)) = false.
Proof.
  intros. unfold adjust, throttle, increase_limits. repeat case_match; simpl; try done.
Qed.

Lemma healthy_not_paused c now o :
  healthy c o = true -> is_paused (state c) = false ->
  observe_state c now o = adjust c now o.
Proof.
  unfold healthy. intros H Hp. bool_to_prop. unfold observe_state.
  assert (leave_foreground c now = c) as ->.
  { unfold leave_foreground. case_decide as Hs; [by rewrite Hs in Hp | done]. }
  destruct (hard_reason c o); [done|].
  replace (foreground_active o) with false by done. rewrite Hp. simpl.
  unfold leave_pause. by rewrite Hp.
Qed.

Lemma healthy_increase c now o t :
  healthy c o = true -> is_paused (state c) = false -> hold_until c = Some t -> t <= now ->
  observe_state c now o = increase_limits c now.
Proof.
  intros Hh Hp Ht Hle. rewrite healthy_not_paused by done. unfold healthy in Hh.
  bool_to_prop. unfold adjust. destruct (soft_reason c o); [done|].
  rewrite Ht. simpl. by rewrite (proj2 (Z.leb_le _ _) Hle).
Qed.

(** *** Backoff *)

Lemma shiftl_pow e : 0 <= e -> Z.shiftl 1 (Z.min e 10) = 2 ^ Z.min e 10.
Proof. intros. rewrite Z.shiftl_mul_pow2 by lia. lia. Qed.

Lemma pause_delay_eq cfg e :
  0 <= e -> maximum_recovery_delay cfg <= duration_max ->
  pause_delay cfg e
  = Z.min (recovery_delay cfg * 2 ^ Z.min e 10) (maximum_recovery_delay cfg).
Proof.
  intros He Hm. unfold pause_delay. rewrite shiftl_pow by done.
  unfold duration_checked_mul, unwrap_or. case_match; case_match; simplify_eq; lia.
Qed.

(** *** Progress towards the ceiling *)

Lemma increase_gap c now :
  controller_inv c ->
  gap (increase_limits c now) <= Z.max (gap c - 1) 0.
Proof.
  intros [Hwf [Hf1 [Hf2 Hf3]] [Hc1 [Hc2 Hc3]] _ _ _ _].
  pose proof (wf_floor_pos _ Hwf) as (P1 & P2 & P3).
  pose proof (wf_batch _ Hwf). pose proof (wf_duty _ Hwf). pose proof (wf_unlimited _ Hwf).
  pose proof (wf_rate _ Hwf).
  pose proof (tenth_bounds (item_rate_per_second (limits c))).
  pose proof (tenth_bounds (batch_size (limits c))).
  unfold gap, increase_limits, saturating_add, in_uint, umax, MAX_NATIVE_INVENTORY_BATCH_SIZE in *.
  simpl. destruct (unlimited_item_rate (config c)); simpl; lia.
Qed.

Lemma increase_state c now :
  controller_inv c -> gap (increase_limits c now) <= 0 ->
  state (increase_limits c now) = Steady
  /\ limits (increase_limits c now) = ceiling (config c).
Proof.
  intros Hinv Hg.
  assert (limits (increase_limits c now) = ceiling (config c)) as Heq.
  { assert (limits_le (limits (increase_limits c now)) (ceiling (config c))) as (L1 & L2 & L3).
    { destruct Hinv as [_ _ (? & ? & ?) _ _ _ _].
      unfold limits_le, increase_limits; simpl. destruct (unlimited_item_rate _); lia. }
    unfold gap in Hg. change (config (increase_limits c now)) with (config c) in Hg.
    destruct (limits (increase_limits c now)), (ceiling (config c)); simpl in *.
    f_equal; lia. }
  split; [|done]. revert Heq. unfold increase_limits; cbn [limits state].
  intros ->. by rewrite decide_True.
Qed.

Lemma increase_not_paused c now : is_paused (state (increase_limits c now)) = false.
Proof. unfold increase_limits; simpl. by case_decide. Qed.

Lemma observe_all_reaches_ceiling l : forall c,
  controller_inv c -> is_paused (state c) = false ->
  spaced_healthy c l = true -> l <> [] -> gap c <= Z.of_nat (length l) ->
  state (observe_all c l) = Steady /\ limits (observe_all c l) = ceiling (config c).
Proof.
  induction l as [|[now o] l IH]; intros c Hinv Hp Hs Hne Hg; [done|].
  simpl in Hs. bool_to_prop. destruct (hold_until c) as [t|] eqn:Hh; [|done].
  match goal with H : is_some_and _ _ = true |- _ => simpl in H; apply Z.leb_le in H end.
  assert (observe_state c now o = increase_limits c now) as He
    by (by eapply healthy_increase).
  pose proof (increase_gap c now Hinv) as Hgap. simpl.
  destruct l as [|p l].
  - simpl in *. rewrite He. apply increase_state; [done | lia].
  - rewrite He in *. change (config c) with (config (increase_limits c now)).
    apply IH; simpl length in *; try done; try lia.
    + by apply increase_inv.
    + apply increase_not_paused.
Qed.

Lemma reachable_config cfg c : reachable cfg c -> config c = normalized cfg.
Proof.
  induction 1 as [now|c now o _ IH]; [done|]. rewrite <- IH. unfold observe_state.
  destruct (foreground_active o); [done|]. destruct (hard_reason _ o).
  - apply leave_foreground_config.
  - case_match; [apply leave_foreground_config|].
    transitivity (config (leave_foreground c now)); [|apply leave_foreground_config].
    unfold adjust, leave_pause. repeat case_match; done.
Qed.

(** ** Properties *)

(** Whatever it observes, the controller asks the worker only for limits
    between the normalized floor and ceiling (so at most
    [MAX_NATIVE_INVENTORY_BATCH_SIZE] entries per slice and a duty cycle of 1 to
    100 percent); a pause always carries its reason, and [Steady] means the
    ceiling. *)
Theorem controller_decisions_bounded cfg c now o :
  config_typed cfg -> reachable cfg c ->
  let d := snd (observe c now o) in
  let n := normalized cfg in
  limits_le (floor n) (decision_limits d) /\ limits_le (decision_limits d) (ceiling n)
  /\ 1 <= batch_size (decision_limits d) <= MAX_NATIVE_INVENTORY_BATCH_SIZE
  /\ 1 <= duty_cycle_percent (decision_limits d) <= 100
  /\ (decision_paused d = true ->
      exists r, decision_state d = Paused r /\ decision_reason d = Some r)
  /\ (decision_state d = Steady -> decision_limits d = ceiling n).
Proof.
  intros Ht Hr. simpl.
  assert (reachable cfg (observe_state c now o)) as Hr' by by constructor.
  pose proof (reachable_controller_inv _ _ Ht Hr') as [Hwf Hf Hc Hs _ Hp _].
  rewrite (reachable_config _ _ Hr') in *.
  pose proof (wf_floor_pos _ Hwf) as (F1 & F2 & F3).
  pose proof (wf_batch _ Hwf). pose proof (wf_duty _ Hwf).
  destruct Hf as (G1 & G2 & G3), Hc as (H1 & H2 & H3).
  repeat split; try done; try lia.
  intros. destruct (state (observe_state c now o)); try done. eauto.
Qed.

Definition cpu_at (percent : Z) : ControllerObservation :=
  {| foreground_active := false; foreground_error := false; foreground_bad_quality := false;
     foreground_latency_ms := Some 20; baseline_latency_ms := Some 500;
     inventory_error := false; host_cpu_percent := Some (f64_of_Z percent);
     available_memory_percent := None; disk_active_percent := None; disk_queue := None;
     database_commit_p95_ms := None; insufficient_disk_space := false |}.

(** Hard-limit backoff: while the controller is paused for a reason other
    than foreground activity, an observation without a hard reason before the
    recovery instant changes nothing, one at or after it ends the pause, and one
    with a hard reason restarts the pause with the canary limits and a delay of
    [recovery_delay * 2^min(exponent, 10)] capped at [maximum_recovery_delay]. *)
Theorem controller_backoff cfg c now o r :
  config_typed cfg -> reachable cfg c ->
  state c = Paused r -> r <> Foreground -> foreground_active o = false ->
  exists t, recovery_at c = Some t
  /\ (hard_reason c o = None -> now < t -> observe_state c now o = c)
  /\ (hard_reason c o = None -> t <= now -> is_paused (state (observe_state c now o)) = false)
  /\ (forall r', hard_reason c o = Some r' ->
      let c' := observe_state c now o in
      state c' = Paused r' /\ limits c' = canary (normalized cfg)
      /\ recovery_exponent c' = saturating_add 32 (recovery_exponent c) 1
      /\ recovery_at c' =
           Some (now + Z.min (recovery_delay (normalized cfg)
                              * 2 ^ Z.min (recovery_exponent c) 10)
                         (maximum_recovery_delay (normalized cfg)))).
Proof.
  intros Ht Hr Hs Hne Hf. pose proof (reachable_controller_inv _ _ Ht Hr) as Hinv.
  pose proof (inv_deadlines _ Hinv) as Hd. rewrite Hs in Hd.
  assert (exists t, recovery_at c = Some t) as [t Hrec] by (destruct r; done || exact Hd).
  assert (leave_foreground c now = c) as Hl
    by (unfold leave_foreground; case_decide; congruence).
  exists t. split_and!; [done| | |].
  - intros. by eapply observe_waiting.
  - intros Hh Hle. unfold observe_state. rewrite Hf, Hl, Hh, Hs, Hrec. simpl.
    rewrite (proj2 (Z.ltb_ge _ _) Hle). apply adjust_not_paused, leave_pause_inv, Hinv.
  - intros r' Hh. rewrite (observe_hard _ _ _ r') by done. rewrite Hl. simpl.
    rewrite (reachable_config _ _ Hr). split_and!; try done.
    rewrite pause_delay_eq; [done| |].
    + apply (inv_exponent _ Hinv).
    + apply wf_maximum. rewrite <- (reachable_config _ _ Hr). apply Hinv.
Qed.

(** Recovery: an unpaused controller that sees healthy observations at least
    one healthy window apart reaches the ceiling and reports [Steady] after at
    most as many of them as the largest distance of a limit to its ceiling. *)
Theorem controller_reaches_ceiling cfg c l :
  config_typed cfg -> reachable cfg c -> is_paused (state c) = false ->
  spaced_healthy c l = true -> l <> [] -> gap c <= Z.of_nat (length l) ->
  state (observe_all c l) = Steady /\ limits (observe_all c l) = ceiling (normalized cfg).
Proof.
  intros Ht Hr. rewrite <- (reachable_config _ _ Hr).
  apply observe_all_reaches_ceiling, (reachable_controller_inv cfg); done.
Qed.

End Adaptive.
