(* ===== verification/Config.v ===== *)
(** * Index settings (config.rs)

    The [index] table of the gateway's configuration file, with every key
    optional, and the settings the gateway runs with. The default database path
    depends on the environment of the process and is an argument. The last
    section connects the settings with the controller that paces a build: the
    limits an operator configures are limits no decision of the controller
    exceeds. *)
From S2P Require Import Prelude Controller.

(** ** Configuration keys and resolved settings *)

Record IndexConfig := {
  raw_database_path : option string;
  raw_refresh_interval_seconds : option Z;
  raw_startup_grace_period_seconds : option Z;
  raw_schedule_jitter_seconds : option Z;
  raw_inventory_batch_size : option Z;
  raw_inventory_root : option string;
  raw_commit_batch_size : option Z;
  raw_commit_interval_ms : option Z;
  raw_batch_size : option Z;
  raw_item_rate_limit : option Z;
  raw_burst_size : option Z;
  raw_duty_cycle_percent : option Z;
  raw_adaptive : option bool;
  raw_minimum_item_rate : option Z;
  raw_minimum_batch_size : option Z;
  raw_minimum_duty_cycle_percent : option Z;
  raw_canary_item_rate : option Z;
  raw_canary_batch_size : option Z;
  raw_canary_duty_cycle_percent : option Z;
  raw_adaptive_healthy_window_seconds : option Z;
  raw_adaptive_recovery_delay_seconds : option Z;
  raw_adaptive_max_recovery_delay_seconds : option Z;
  raw_sentinel_tag : option string;
  raw_sentinel_probe_interval_seconds : option Z;
  raw_minimum_free_space_bytes : option Z;
  raw_storage_headroom_bytes : option Z;
  raw_circuit_failure_threshold : option Z;
  raw_circuit_open_seconds : option Z;
  raw_quiet_period_seconds : option Z;
  raw_health_probe_interval_seconds : option Z;
  raw_health_latency_threshold_ms : option Z;
  raw_adaptive_foreground_soft_latency_ms : option Z;
  raw_adaptive_foreground_hard_latency_ms : option Z;
  raw_operation_timeout_seconds : option Z;
  raw_maintenance_windows : list string;
  raw_concurrency : option Z;
  raw_worker_count : option Z;
  raw_query_cache_capacity : option Z;
  raw_max_results : option Z
}.

(** [#[derive(Default)]] *)
Definition default_index_config : IndexConfig :=
  {| raw_database_path := None; raw_refresh_interval_seconds := None;
     raw_startup_grace_period_seconds := None; raw_schedule_jitter_seconds := None;
     raw_inventory_batch_size := None; raw_inventory_root := None;
     raw_commit_batch_size := None; raw_commit_interval_ms := None; raw_batch_size := None;
     raw_item_rate_limit := None; raw_burst_size := None; raw_duty_cycle_percent := None;
     raw_adaptive := None; raw_minimum_item_rate := None; raw_minimum_batch_size := None;
     raw_minimum_duty_cycle_percent := None; raw_canary_item_rate := None;
     raw_canary_batch_size := None; raw_canary_duty_cycle_percent := None;
     raw_adaptive_healthy_window_seconds := None;
     raw_adaptive_recovery_delay_seconds := None;
     raw_adaptive_max_recovery_delay_seconds := None; raw_sentinel_tag := None;
     raw_sentinel_probe_interval_seconds := None; raw_minimum_free_space_bytes := None;
     raw_storage_headroom_bytes := None; raw_circuit_failure_threshold := None;
     raw_circuit_open_seconds := None; raw_quiet_period_seconds := None;
     raw_health_probe_interval_seconds := None; raw_health_latency_threshold_ms := None;
     raw_adaptive_foreground_soft_latency_ms := None;
     raw_adaptive_foreground_hard_latency_ms := None; raw_operation_timeout_seconds := None;
     raw_maintenance_windows := []; raw_concurrency := None; raw_worker_count := None;
     raw_query_cache_capacity := None; raw_max_results := None |}.

Record ResolvedIndexConfig := {
  cfg_database_path : string;
  cfg_refresh_interval_seconds : Z;
  cfg_startup_grace_period_seconds : Z;
  cfg_schedule_jitter_seconds : Z;
  cfg_inventory_batch_size : Z;
  cfg_inventory_root : option string;
  cfg_commit_batch_size : Z;
  cfg_commit_interval_ms : Z;
  cfg_batch_size : Z;
  cfg_item_rate_limit : Z;
  cfg_burst_size : Z;
  cfg_duty_cycle_percent : Z;
  cfg_adaptive : bool;
  cfg_minimum_item_rate : Z;
  cfg_minimum_batch_size : Z;
  cfg_minimum_duty_cycle_percent : Z;
  cfg_canary_item_rate : Z;
  cfg_canary_batch_size : Z;
  cfg_canary_duty_cycle_percent : Z;
  cfg_adaptive_healthy_window_seconds : Z;
  cfg_adaptive_recovery_delay_seconds : Z;
  cfg_adaptive_max_recovery_delay_seconds : Z;
  cfg_sentinel_tag : option string;
  cfg_sentinel_probe_interval_seconds : Z;
  cfg_minimum_free_space_bytes : Z;
  cfg_storage_headroom_bytes : Z;
  cfg_circuit_failure_threshold : Z;
  cfg_circuit_open_seconds : Z;
  cfg_quiet_period_seconds : Z;
  cfg_health_probe_interval_seconds : Z;
  cfg_health_latency_threshold_ms : Z;
  cfg_adaptive_foreground_soft_latency_ms : Z;
  cfg_adaptive_foreground_hard_latency_ms : Z;
  cfg_operation_timeout_seconds : Z;
  cfg_maintenance_windows : list string;
  cfg_concurrency : Z;
  cfg_worker_count : Z;
  cfg_query_cache_capacity : Z;
  cfg_max_results : Z
}.

Definition DEFAULT_INDEX_REFRESH_INTERVAL_SECONDS : Z := 604800.
Definition DEFAULT_INDEX_STARTUP_GRACE_PERIOD_SECONDS : Z := 30.
Definition DEFAULT_INDEX_SCHEDULE_JITTER_SECONDS : Z := 21600.
Definition DEFAULT_INDEX_INVENTORY_BATCH_SIZE : Z := 256.
Definition DEFAULT_INDEX_COMMIT_BATCH_SIZE : Z := 1024.
Definition DEFAULT_INDEX_COMMIT_INTERVAL_MS : Z := 1000.
Definition DEFAULT_INDEX_BATCH_SIZE : Z := 256.
Definition DEFAULT_INDEX_ITEM_RATE : Z := 0.
Definition DEFAULT_INDEX_BURST_SIZE : Z := 100.
Definition DEFAULT_INDEX_DUTY_CYCLE_PERCENT : Z := 100.
Definition DEFAULT_INDEX_ADAPTIVE : bool := false.
Definition DEFAULT_INDEX_MINIMUM_ITEM_RATE : Z := 10.
Definition DEFAULT_INDEX_MINIMUM_BATCH_SIZE : Z := 1.
Definition DEFAULT_INDEX_MINIMUM_DUTY_CYCLE_PERCENT : Z := 1.
Definition DEFAULT_INDEX_CANARY_ITEM_RATE : Z := 50.
Definition DEFAULT_INDEX_CANARY_BATCH_SIZE : Z := 25.
Definition DEFAULT_INDEX_CANARY_DUTY_CYCLE_PERCENT : Z := 5.
Definition DEFAULT_INDEX_ADAPTIVE_HEALTHY_WINDOW_SECONDS : Z := 30.
Definition DEFAULT_INDEX_ADAPTIVE_RECOVERY_DELAY_SECONDS : Z := 30.
Definition DEFAULT_INDEX_ADAPTIVE_MAX_RECOVERY_DELAY_SECONDS : Z := 300.
Definition DEFAULT_INDEX_SENTINEL_PROBE_INTERVAL_SECONDS : Z := 30.
Definition DEFAULT_INDEX_MINIMUM_FREE_SPACE_BYTES : Z := 100 * 1024 * 1024.
Definition DEFAULT_INDEX_STORAGE_HEADROOM_BYTES : Z := 10 * 1024 * 1024.
Definition DEFAULT_INDEX_CIRCUIT_FAILURE_THRESHOLD : Z := 3.
Definition DEFAULT_INDEX_CIRCUIT_OPEN_SECONDS : Z := 300.
Definition DEFAULT_INDEX_QUIET_PERIOD_SECONDS : Z := 2.
Definition DEFAULT_INDEX_HEALTH_PROBE_INTERVAL_SECONDS : Z := 30.
Definition DEFAULT_INDEX_HEALTH_LATENCY_THRESHOLD_MS : Z := 500.
Definition DEFAULT_INDEX_OPERATION_TIMEOUT_SECONDS : Z := 30.
Definition DEFAULT_INDEX_CONCURRENCY : Z := 1.
Definition DEFAULT_INDEX_WORKER_COUNT : Z := 1.
Definition MAX_INDEX_WORKER_COUNT : Z := 4.
Definition DEFAULT_INDEX_QUERY_CACHE_CAPACITY : Z := 256.
Definition DEFAULT_INDEX_MAX_RESULTS : Z := 50.

Definition resolve_index_config (default_path : option string) (config : IndexConfig) :
    ResolvedIndexConfig :=
  let database_path :=
    unwrap_or "opcda-bridge-index.sqlite3" (option_or (raw_database_path config) default_path) in
  let health_latency_threshold_ms :=
    Z.max (unwrap_or DEFAULT_INDEX_HEALTH_LATENCY_THRESHOLD_MS
             (raw_health_latency_threshold_ms config)) 1 in
  let adaptive_foreground_soft_latency_ms :=
    Z.max (unwrap_or (saturating_mul 64 health_latency_threshold_ms 2)
             (raw_adaptive_foreground_soft_latency_ms config)) 1 in
  let adaptive_foreground_hard_latency_ms :=
    Z.max (unwrap_or (saturating_mul 64 health_latency_threshold_ms 4)
             (raw_adaptive_foreground_hard_latency_ms config))
      adaptive_foreground_soft_latency_ms in
  {| cfg_database_path := database_path;
     cfg_refresh_interval_seconds :=
       unwrap_or DEFAULT_INDEX_REFRESH_INTERVAL_SECONDS (raw_refresh_interval_seconds config);
     cfg_startup_grace_period_seconds :=
       unwrap_or DEFAULT_INDEX_STARTUP_GRACE_PERIOD_SECONDS (raw_startup_grace_period_seconds config);
     cfg_schedule_jitter_seconds :=
       unwrap_or DEFAULT_INDEX_SCHEDULE_JITTER_SECONDS (raw_schedule_jitter_seconds config);
     cfg_inventory_batch_size :=
       clamp 1 MAX_NATIVE_INVENTORY_BATCH_SIZE
         (unwrap_or DEFAULT_INDEX_INVENTORY_BATCH_SIZE
           (option_or (raw_inventory_batch_size config) (raw_batch_size config)));
     cfg_inventory_root := raw_inventory_root config;
     cfg_commit_batch_size :=
       Z.max
         (unwrap_or DEFAULT_INDEX_COMMIT_BATCH_SIZE
           (option_or (raw_commit_batch_size config) (raw_batch_size config))) 1;
     cfg_commit_interval_ms :=
       Z.max (unwrap_or DEFAULT_INDEX_COMMIT_INTERVAL_MS (raw_commit_interval_ms config)) 1;
     cfg_batch_size :=
       clamp 1 MAX_NATIVE_INVENTORY_BATCH_SIZE
         (unwrap_or DEFAULT_INDEX_BATCH_SIZE (raw_batch_size config));
     cfg_item_rate_limit := unwrap_or DEFAULT_INDEX_ITEM_RATE (raw_item_rate_limit config);
     cfg_burst_size := Z.max (unwrap_or DEFAULT_INDEX_BURST_SIZE (raw_burst_size config)) 1;
     cfg_duty_cycle_percent :=
       clamp 1 100 (unwrap_or DEFAULT_INDEX_DUTY_CYCLE_PERCENT (raw_duty_cycle_percent config));
     cfg_adaptive := unwrap_or DEFAULT_INDEX_ADAPTIVE (raw_adaptive config);
     cfg_minimum_item_rate :=
       Z.max (unwrap_or DEFAULT_INDEX_MINIMUM_ITEM_RATE (raw_minimum_item_rate config)) 1;
     cfg_minimum_batch_size :=
       clamp 1 MAX_NATIVE_INVENTORY_BATCH_SIZE
         (unwrap_or DEFAULT_INDEX_MINIMUM_BATCH_SIZE (raw_minimum_batch_size config));
     cfg_minimum_duty_cycle_percent :=
       clamp 1 100
         (unwrap_or DEFAULT_INDEX_MINIMUM_DUTY_CYCLE_PERCENT
           (raw_minimum_duty_cycle_percent config));
     cfg_canary_item_rate :=
       Z.max (unwrap_or DEFAULT_INDEX_CANARY_ITEM_RATE (raw_canary_item_rate config)) 1;
     cfg_canary_batch_size :=
       clamp 1 MAX_NATIVE_INVENTORY_BATCH_SIZE
         (unwrap_or DEFAULT_INDEX_CANARY_BATCH_SIZE (raw_canary_batch_size config));
     cfg_canary_duty_cycle_percent :=
       clamp 1 100
         (unwrap_or DEFAULT_INDEX_CANARY_DUTY_CYCLE_PERCENT
           (raw_canary_duty_cycle_percent config));
     cfg_adaptive_healthy_window_seconds :=
       Z.max
         (unwrap_or DEFAULT_INDEX_ADAPTIVE_HEALTHY_WINDOW_SECONDS
           (raw_adaptive_healthy_window_seconds config)) 1;
     cfg_adaptive_recovery_delay_seconds :=
       Z.max
         (unwrap_or DEFAULT_INDEX_ADAPTIVE_RECOVERY_DELAY_SECONDS
           (raw_adaptive_recovery_delay_seconds config)) 1;
     cfg_adaptive_max_recovery_delay_seconds :=
       Z.max
         (unwrap_or DEFAULT_INDEX_ADAPTIVE_MAX_RECOVERY_DELAY_SECONDS
           (raw_adaptive_max_recovery_delay_seconds config)) 1;
     cfg_sentinel_tag := raw_sentinel_tag config;
     cfg_sentinel_probe_interval_seconds :=
       Z.max
         (unwrap_or DEFAULT_INDEX_SENTINEL_PROBE_INTERVAL_SECONDS
           (raw_sentinel_probe_interval_seconds config)) 1;
     cfg_minimum_free_space_bytes :=
       unwrap_or DEFAULT_INDEX_MINIMUM_FREE_SPACE_BYTES (raw_minimum_free_space_bytes config);
     cfg_storage_headroom_bytes :=
       unwrap_or DEFAULT_INDEX_STORAGE_HEADROOM_BYTES (raw_storage_headroom_bytes config);
     cfg_circuit_failure_threshold :=
       Z.max
         (unwrap_or DEFAULT_INDEX_CIRCUIT_FAILURE_THRESHOLD
           (raw_circuit_failure_threshold config)) 1;
     cfg_circuit_open_seconds :=
       Z.max (unwrap_or DEFAULT_INDEX_CIRCUIT_OPEN_SECONDS (raw_circuit_open_seconds config)) 1;
     cfg_quiet_period_seconds :=
       unwrap_or DEFAULT_INDEX_QUIET_PERIOD_SECONDS (raw_quiet_period_seconds config);
     cfg_health_probe_interval_seconds :=
       Z.max
         (unwrap_or DEFAULT_INDEX_HEALTH_PROBE_INTERVAL_SECONDS
           (raw_health_probe_interval_seconds config)) 1;
     cfg_health_latency_threshold_ms := health_latency_threshold_ms;
     cfg_adaptive_foreground_soft_latency_ms := adaptive_foreground_soft_latency_ms;
     cfg_adaptive_foreground_hard_latency_ms := adaptive_foreground_hard_latency_ms;
     cfg_operation_timeout_seconds :=
       Z.max
         (unwrap_or DEFAULT_INDEX_OPERATION_TIMEOUT_SECONDS
           (raw_operation_timeout_seconds config)) 1;
     cfg_maintenance_windows := raw_maintenance_windows config;
     cfg_concurrency := Z.max (unwrap_or DEFAULT_INDEX_CONCURRENCY (raw_concurrency config)) 1;
     cfg_worker_count :=
       clamp 1 MAX_INDEX_WORKER_COUNT
         (unwrap_or DEFAULT_INDEX_WORKER_COUNT (raw_worker_count config));
     cfg_query_cache_capacity :=
       Z.max (unwrap_or DEFAULT_INDEX_QUERY_CACHE_CAPACITY (raw_query_cache_capacity config)) 1;
     cfg_max_results := Z.max (unwrap_or DEFAULT_INDEX_MAX_RESULTS (raw_max_results config)) 1 |}.

(** The values of the keys fit their types in the configuration. *)
Definition typed_key (w : Z) (o : option Z) : Prop := forall v, o = Some v -> in_uint w v.
Record config_keys_typed (config : IndexConfig) : Prop := {
  key_item_rate_limit : typed_key 32 (raw_item_rate_limit config);
  key_minimum_item_rate : typed_key 32 (raw_minimum_item_rate config);
  key_healthy_window : typed_key 64 (raw_adaptive_healthy_window_seconds config);
  key_recovery_delay : typed_key 64 (raw_adaptive_recovery_delay_seconds config);
  key_max_recovery_delay : typed_key 64 (raw_adaptive_max_recovery_delay_seconds config)
}.

(** ** The controller of a build (index/traversal.rs) *)

Definition controller_config (settings : ResolvedIndexConfig) : Adaptive.ControllerConfig :=
  {| Adaptive.floor :=
       mk_limits (cfg_minimum_item_rate settings) (cfg_minimum_batch_size settings)
         (cfg_minimum_duty_cycle_percent settings);
     Adaptive.canary :=
       mk_limits (cfg_canary_item_rate settings) (cfg_canary_batch_size settings)
         (cfg_canary_duty_cycle_percent settings);
     Adaptive.ceiling :=
       mk_limits (cfg_item_rate_limit settings) (cfg_inventory_batch_size settings)
         (cfg_duty_cycle_percent settings);
     Adaptive.unlimited_item_rate := cfg_item_rate_limit settings =? 0;
     Adaptive.healthy_window :=
       from_secs (Z.max (cfg_adaptive_healthy_window_seconds settings) 1);
     Adaptive.recovery_delay :=
       from_secs (Z.max (cfg_adaptive_recovery_delay_seconds settings) 1);
     Adaptive.maximum_recovery_delay :=
       from_secs (Z.max (cfg_adaptive_max_recovery_delay_seconds settings) 1);
     Adaptive.foreground_latency_soft_ms :=
       Z.max (cfg_adaptive_foreground_soft_latency_ms settings) 1;
     Adaptive.foreground_latency_hard_ms :=
       Z.max (cfg_adaptive_foreground_hard_latency_ms settings)
         (Z.max (cfg_adaptive_foreground_soft_latency_ms settings) 1) |}.

Definition initial_inventory_limits (settings : ResolvedIndexConfig) (now : Z) :
    InventoryLimits :=
  if negb (cfg_adaptive settings) then
    mk_limits (cfg_item_rate_limit settings) (cfg_inventory_batch_size settings)
      (cfg_duty_cycle_percent settings)
  else Adaptive.limits (Adaptive.new (controller_config settings) now).

(** ** Lemmas and properties *)

#[local] Arguments unwrap_or {_} _ _ : simpl never.
#[local] Arguments Z.max : simpl never.
#[local] Arguments clamp : simpl never.

Lemma typed_default w d o : in_uint w d -> typed_key w o -> in_uint w (unwrap_or d o).
Proof. intros Hd Ho. destruct o; [by apply Ho|done]. Qed.

Lemma seconds_in_duration s : in_uint 64 s -> in_duration (from_secs (Z.max s 1)).
Proof. unfold in_uint, in_duration, from_secs, duration_max, nanos_per_sec, umax. lia. Qed.

Lemma controller_config_typed path config :
  config_keys_typed config ->
  Adaptive.config_typed (controller_config (resolve_index_config path config)).
Proof.
  intros [H1 H2 _ H4 H5]. split; cbn.
  - eapply (typed_default 32 DEFAULT_INDEX_MINIMUM_ITEM_RATE) in H2; [|by vm_compute].
    unfold in_uint, umax in *. lia.
  - by apply (typed_default 32).
  - eapply (typed_default 64 DEFAULT_INDEX_ADAPTIVE_RECOVERY_DELAY_SECONDS) in H4; [|by vm_compute].
    apply seconds_in_duration. unfold in_uint, umax in *. lia.
  - eapply (typed_default 64 DEFAULT_INDEX_ADAPTIVE_MAX_RECOVERY_DELAY_SECONDS) in H5; [|by vm_compute].
    apply seconds_in_duration. unfold in_uint, umax in *. lia.
Qed.

Lemma settings_bounds path config :
  config_keys_typed config ->
  let s := resolve_index_config path config in
  0 <= cfg_item_rate_limit s /\ 1 <= cfg_minimum_item_rate s /\
  1 <= cfg_minimum_batch_size s <= MAX_NATIVE_INVENTORY_BATCH_SIZE /\
  1 <= cfg_inventory_batch_size s <= MAX_NATIVE_INVENTORY_BATCH_SIZE /\
  1 <= cfg_minimum_duty_cycle_percent s <= 100 /\ 1 <= cfg_duty_cycle_percent s <= 100 /\
  1 <= cfg_adaptive_foreground_soft_latency_ms s <= cfg_adaptive_foreground_hard_latency_ms s.
Proof.
  intros [H1 _ _ _ _] s. apply (typed_default 32 DEFAULT_INDEX_ITEM_RATE) in H1; [|by vm_compute].
  cbn. unfold in_uint in H1. repeat split; try apply clamp_bounds; try lia;
    unfold MAX_NATIVE_INVENTORY_BATCH_SIZE; lia.
Qed.

Lemma clamp_max lo hi v : lo <= hi -> v <= hi -> clamp lo hi v = Z.max lo v.
Proof. unfold clamp. bool_cases; lia. Qed.

(** C40: an operator's limits hold. Whatever the health of the plant, the limits of a
    build's adaptive controller stay between the configured minimum and the
    configured limit of the item rate, the batch size and the duty cycle (the
    minimum, where an operator sets it above the limit), a limit of 0 items per
    second leaves the rate unlimited, and the native batch bound and the two
    latency thresholds are respected whatever the file says. *)
Theorem configured_limits_respected (path : option string) (config : IndexConfig)
    (c : Adaptive.AdaptiveIndexController) (Ht : config_keys_typed config)
    (Hr : Adaptive.reachable (controller_config (resolve_index_config path config)) c) :
  let s := resolve_index_config path config in
  let l := Adaptive.limits c in
  (if cfg_item_rate_limit s =? 0 then item_rate_per_second l = 0
   else cfg_minimum_item_rate s <= item_rate_per_second l
        <= Z.max (cfg_minimum_item_rate s) (cfg_item_rate_limit s)) /\
  cfg_minimum_batch_size s <= batch_size l
    <= Z.max (cfg_minimum_batch_size s) (cfg_inventory_batch_size s) /\
  cfg_minimum_duty_cycle_percent s <= duty_cycle_percent l
    <= Z.max (cfg_minimum_duty_cycle_percent s) (cfg_duty_cycle_percent s) /\
  1 <= batch_size l <= MAX_NATIVE_INVENTORY_BATCH_SIZE /\ 1 <= duty_cycle_percent l <= 100 /\
  1 <= cfg_adaptive_foreground_soft_latency_ms s <= cfg_adaptive_foreground_hard_latency_ms s.
Proof.
  intros s l. pose proof (controller_config_typed path config Ht) as Hct.
  pose proof (Adaptive.reachable_controller_inv _ _ Hct Hr) as Hinv.
  pose proof (settings_bounds path config Ht) as (B1 & B2 & B3 & B4 & B5 & B6 & B7).
  fold s in B1, B2, B3, B4, B5, B6, B7. destruct Hinv as [Hwf (F1 & F2 & F3) (C1 & C2 & C3) _ _ _ _].
  rewrite (Adaptive.reachable_config _ _ Hr) in *. fold s in F1, F2, F3, C1, C2, C3.
  pose proof (Adaptive.wf_floor_pos _ Hwf) as (P1 & P2 & P3).
  fold l in F1, F2, F3, C1, C2, C3. clearbody l. clear Hct Hr Hwf.
  cbn -[s] in F1, F2, F3, C1, C2, C3.
  rewrite (clamp_id _ _ (cfg_minimum_batch_size s)) in * by lia.
  rewrite (clamp_id _ _ (cfg_minimum_duty_cycle_percent s)) in * by lia.
  rewrite clamp_max in C2, C3 by lia. clearbody s.
  split; [|lia]. destruct (Z.eqb_spec (cfg_item_rate_limit s) 0); lia.
Qed.

(** The controller of a gateway without configuration. *)
Lemma configured_limits_respected_witness :
  let s := resolve_index_config (Some "index.db"%string) default_index_config in
  let l := Adaptive.limits (Adaptive.new (controller_config s) 5) in
  cfg_minimum_batch_size s <= batch_size l /\ batch_size l <= MAX_NATIVE_INVENTORY_BATCH_SIZE.
Proof.
  intros s l.
  assert (Ht : config_keys_typed default_index_config) by (split; intros v Hv; discriminate Hv).
  pose proof (configured_limits_respected (Some "index.db"%string) default_index_config
    (Adaptive.new (controller_config s) 5) Ht (Adaptive.reachable_new _ 5)) as (_ & [H1 _] & _ & [_ H2] & _).
  exact (conj H1 H2).
Defined.

