(* ===== verification/Opc.v ===== *)
(** * The OPC client interface (opc.rs)

    The data the gateway exchanges with its OPC DA client: browse pages,
    inventory entries and the events of an inventory stream. The adapter
    that implements the interface is in [Adapter]; the native client behind it is not
    part of the repository, and components that call the interface take its answers as arguments. *)
From S2P Require Import Prelude Text.

Inductive NamespaceOrganization := OrgUnspecified | OrgFlat | OrgHierarchical.
#[export] Instance NamespaceOrganization_eq_dec : EqDecision NamespaceOrganization.
Proof. solve_decision. Defined.

Inductive BrowseSource :=
| SourceUnspecified | SourceDa3 | SourceDa2 | SourceFlat | SourceDerived.
#[export] Instance BrowseSource_eq_dec : EqDecision BrowseSource.
Proof. solve_decision. Defined.

Inductive BrowseNodeKind := NodeBranch | NodeItem | NodeBranchAndItem.
#[export] Instance BrowseNodeKind_eq_dec : EqDecision BrowseNodeKind.
Proof. solve_decision. Defined.

Record BrowseCapabilities := {
  cap_organization : NamespaceOrganization;
  cap_source : BrowseSource;
  cap_supports_browse_sessions : bool;
  cap_supports_search : bool;
  cap_max_page_size : Z
}.

Record BrowseNode := {
  node_key : string;
  node_display_name : ustr;
  node_kind : BrowseNodeKind;
  node_item_id : option ustr
}.
#[export] Instance BrowseNode_eq_dec : EqDecision BrowseNode.
Proof. solve_decision. Defined.

Record BrowsePage := {
  page_nodes : list BrowseNode;
  page_next_page_token : option string;
  page_complete : bool;
  page_organization : NamespaceOrganization;
  page_source : BrowseSource;
  page_warning : option string
}.
#[export] Instance BrowsePage_eq_dec : EqDecision BrowsePage.
Proof. solve_decision. Defined.

Inductive InventoryNodeKind := InventoryItem | InventoryBranchAndItem.
#[export] Instance InventoryNodeKind_eq_dec : EqDecision InventoryNodeKind.
Proof. solve_decision. Defined.

Record InventoryEntry := {
  entry_display_name : ustr;
  entry_item_id : ustr;
  entry_kind : InventoryNodeKind;
  entry_breadcrumbs : list ustr
}.
#[export] Instance InventoryEntry_eq_dec : EqDecision InventoryEntry.
Proof. solve_decision. Defined.

Record InventoryProgress := {
  branches_visited : Z;
  entries_seen : Z;
  unique_items : Z;
  active_time_ms : Z;
  paused_time_ms : Z;
  items_per_second : f64;
  estimated_remaining_ms : option Z
}.

Inductive InventorySliceBackend := SliceDa3 | SliceDa2.

Record InventorySliceObservation := {
  slice_sequence : Z;
  slice_backend : InventorySliceBackend;
  slice_nodes_returned : Z;
  slice_has_more : bool;
  slice_native_operations : Z;
  slice_elapsed_ms : Z;
  slice_entries_seen : Z;
  slice_unique_items : Z
}.

Record InventoryCompleted := {
  completed_complete : bool;
  completed_cancelled : bool;
  completed_truncated : bool;
  completed_warning : option string;
  completed_organization : NamespaceOrganization;
  completed_source : BrowseSource
}.

Inductive InventoryEvent :=
| Entry (entry : InventoryEntry)
| Progress (progress : InventoryProgress)
| Slice (observation : InventorySliceObservation)
| Completed (completion : InventoryCompleted).

Record InventoryPacing := {
  min_interval : Z;
  pacing_item_rate_per_second : option Z;
  pacing_batch_size : option Z
}.
Definition pacing_default : InventoryPacing :=
  {| min_interval := 0; pacing_item_rate_per_second := None; pacing_batch_size := None |}.
