(* ===== verification/Rpc.v ===== *)
(** * gRPC statuses

    The status codes of the gateway's errors, with the fixed part of their messages. *)
From S2P Require Import Prelude.

Inductive Code :=
| InvalidArgument | NotFound | FailedPrecondition | ResourceExhausted | Unavailable
| Unimplemented | Aborted | Internal | CancelledCode | UnknownCode | DeadlineExceeded
| AlreadyExists | PermissionDenied | OutOfRange | DataLoss | Unauthenticated.
#[export] Instance Code_eq_dec : EqDecision Code.
Proof. solve_decision. Defined.

Record Status := mk_status { code : Code; message : string }.
#[export] Instance Status_eq_dec : EqDecision Status.
Proof. solve_decision. Defined.
