(* ===== verification/Proto.v ===== *)
(** * The messages of the bridge protocol (proto/bridge.proto)

    The messages the gateway and its clients exchange, as the Rust types generated from
    the protocol: an enumeration travels as its [i32] number, a message field may be
    absent. Texts the components inspect are [ustr], others byte strings. *)
From S2P Require Import Prelude Text.

(** ** Enumerations

    [i32_of_...] is the number of a value ([as i32]), [..._of_i32] the generated
    [TryFrom<i32>]. *)

Inductive NamespaceOrganization :=
| NAMESPACE_ORGANIZATION_UNSPECIFIED | NAMESPACE_ORGANIZATION_FLAT
| NAMESPACE_ORGANIZATION_HIERARCHICAL.
Definition i32_of_namespace_organization (value : NamespaceOrganization) : Z :=
  match value with
  | NAMESPACE_ORGANIZATION_UNSPECIFIED => 0
  | NAMESPACE_ORGANIZATION_FLAT => 1
  | NAMESPACE_ORGANIZATION_HIERARCHICAL => 2
  end.
Definition namespace_organization_of_i32 (value : Z) : option NamespaceOrganization :=
  match value with
  | 0 => Some NAMESPACE_ORGANIZATION_UNSPECIFIED
  | 1 => Some NAMESPACE_ORGANIZATION_FLAT
  | 2 => Some NAMESPACE_ORGANIZATION_HIERARCHICAL
  | _ => None
  end.

Inductive BrowseSource :=
| BROWSE_SOURCE_UNSPECIFIED | BROWSE_SOURCE_DA3 | BROWSE_SOURCE_DA2 | BROWSE_SOURCE_FLAT
| BROWSE_SOURCE_DERIVED.
Definition i32_of_browse_source (value : BrowseSource) : Z :=
  match value with
  | BROWSE_SOURCE_UNSPECIFIED => 0
  | BROWSE_SOURCE_DA3 => 1
  | BROWSE_SOURCE_DA2 => 2
  | BROWSE_SOURCE_FLAT => 3
  | BROWSE_SOURCE_DERIVED => 4
  end.
Definition browse_source_of_i32 (value : Z) : option BrowseSource :=
  match value with
  | 0 => Some BROWSE_SOURCE_UNSPECIFIED
  | 1 => Some BROWSE_SOURCE_DA3
  | 2 => Some BROWSE_SOURCE_DA2
  | 3 => Some BROWSE_SOURCE_FLAT
  | 4 => Some BROWSE_SOURCE_DERIVED
  | _ => None
  end.

Inductive BrowseNodeKind :=
| BROWSE_NODE_KIND_UNSPECIFIED | BROWSE_NODE_KIND_BRANCH | BROWSE_NODE_KIND_ITEM
| BROWSE_NODE_KIND_BRANCH_AND_ITEM.
Definition i32_of_browse_node_kind (value : BrowseNodeKind) : Z :=
  match value with
  | BROWSE_NODE_KIND_UNSPECIFIED => 0
  | BROWSE_NODE_KIND_BRANCH => 1
  | BROWSE_NODE_KIND_ITEM => 2
  | BROWSE_NODE_KIND_BRANCH_AND_ITEM => 3
  end.
Definition browse_node_kind_of_i32 (value : Z) : option BrowseNodeKind :=
  match value with
  | 0 => Some BROWSE_NODE_KIND_UNSPECIFIED
  | 1 => Some BROWSE_NODE_KIND_BRANCH
  | 2 => Some BROWSE_NODE_KIND_ITEM
  | 3 => Some BROWSE_NODE_KIND_BRANCH_AND_ITEM
  | _ => None
  end.

Inductive SearchMatchMode :=
| SEARCH_MATCH_MODE_UNSPECIFIED | SEARCH_MATCH_MODE_EXACT | SEARCH_MATCH_MODE_PREFIX
| SEARCH_MATCH_MODE_CONTAINS.
Definition i32_of_search_match_mode (value : SearchMatchMode) : Z :=
  match value with
  | SEARCH_MATCH_MODE_UNSPECIFIED => 0
  | SEARCH_MATCH_MODE_EXACT => 1
  | SEARCH_MATCH_MODE_PREFIX => 2
  | SEARCH_MATCH_MODE_CONTAINS => 3
  end.
Definition search_match_mode_of_i32 (value : Z) : option SearchMatchMode :=
  match value with
  | 0 => Some SEARCH_MATCH_MODE_UNSPECIFIED
  | 1 => Some SEARCH_MATCH_MODE_EXACT
  | 2 => Some SEARCH_MATCH_MODE_PREFIX
  | 3 => Some SEARCH_MATCH_MODE_CONTAINS
  | _ => None
  end.

Inductive SearchIndexState :=
| SEARCH_INDEX_STATE_UNSPECIFIED | SEARCH_INDEX_STATE_NOT_INDEXED | SEARCH_INDEX_STATE_PARTIAL
| SEARCH_INDEX_STATE_READY | SEARCH_INDEX_STATE_STALE | SEARCH_INDEX_STATE_REFRESHING
| SEARCH_INDEX_STATE_FAILED | SEARCH_INDEX_STATE_PROMOTING | SEARCH_INDEX_STATE_DELETING.
Definition i32_of_search_index_state (value : SearchIndexState) : Z :=
  match value with
  | SEARCH_INDEX_STATE_UNSPECIFIED => 0
  | SEARCH_INDEX_STATE_NOT_INDEXED => 1
  | SEARCH_INDEX_STATE_PARTIAL => 2
  | SEARCH_INDEX_STATE_READY => 3
  | SEARCH_INDEX_STATE_STALE => 4
  | SEARCH_INDEX_STATE_REFRESHING => 5
  | SEARCH_INDEX_STATE_FAILED => 6
  | SEARCH_INDEX_STATE_PROMOTING => 7
  | SEARCH_INDEX_STATE_DELETING => 8
  end.
Definition search_index_state_of_i32 (value : Z) : option SearchIndexState :=
  match value with
  | 0 => Some SEARCH_INDEX_STATE_UNSPECIFIED
  | 1 => Some SEARCH_INDEX_STATE_NOT_INDEXED
  | 2 => Some SEARCH_INDEX_STATE_PARTIAL
  | 3 => Some SEARCH_INDEX_STATE_READY
  | 4 => Some SEARCH_INDEX_STATE_STALE
  | 5 => Some SEARCH_INDEX_STATE_REFRESHING
  | 6 => Some SEARCH_INDEX_STATE_FAILED
  | 7 => Some SEARCH_INDEX_STATE_PROMOTING
  | 8 => Some SEARCH_INDEX_STATE_DELETING
  | _ => None
  end.

Inductive SearchIndexControlAction :=
| SEARCH_INDEX_CONTROL_ACTION_UNSPECIFIED | SEARCH_INDEX_CONTROL_ACTION_PAUSE
| SEARCH_INDEX_CONTROL_ACTION_RESUME | SEARCH_INDEX_CONTROL_ACTION_CANCEL
| SEARCH_INDEX_CONTROL_ACTION_ENABLE_AUTO_REFRESH
| SEARCH_INDEX_CONTROL_ACTION_DISABLE_AUTO_REFRESH | SEARCH_INDEX_CONTROL_ACTION_DELETE.
Definition i32_of_search_index_control_action (value : SearchIndexControlAction) : Z :=
  match value with
  | SEARCH_INDEX_CONTROL_ACTION_UNSPECIFIED => 0
  | SEARCH_INDEX_CONTROL_ACTION_PAUSE => 1
  | SEARCH_INDEX_CONTROL_ACTION_RESUME => 2
  | SEARCH_INDEX_CONTROL_ACTION_CANCEL => 3
  | SEARCH_INDEX_CONTROL_ACTION_ENABLE_AUTO_REFRESH => 4
  | SEARCH_INDEX_CONTROL_ACTION_DISABLE_AUTO_REFRESH => 5
  | SEARCH_INDEX_CONTROL_ACTION_DELETE => 6
  end.
Definition search_index_control_action_of_i32 (value : Z) : option SearchIndexControlAction :=
  match value with
  | 0 => Some SEARCH_INDEX_CONTROL_ACTION_UNSPECIFIED
  | 1 => Some SEARCH_INDEX_CONTROL_ACTION_PAUSE
  | 2 => Some SEARCH_INDEX_CONTROL_ACTION_RESUME
  | 3 => Some SEARCH_INDEX_CONTROL_ACTION_CANCEL
  | 4 => Some SEARCH_INDEX_CONTROL_ACTION_ENABLE_AUTO_REFRESH
  | 5 => Some SEARCH_INDEX_CONTROL_ACTION_DISABLE_AUTO_REFRESH
  | 6 => Some SEARCH_INDEX_CONTROL_ACTION_DELETE
  | _ => None
  end.

Inductive IndexControllerState :=
| INDEX_CONTROLLER_STATE_UNSPECIFIED | INDEX_CONTROLLER_STATE_RAMPING
| INDEX_CONTROLLER_STATE_STEADY | INDEX_CONTROLLER_STATE_THROTTLED
| INDEX_CONTROLLER_STATE_PAUSED.
Definition i32_of_index_controller_state (value : IndexControllerState) : Z :=
  match value with
  | INDEX_CONTROLLER_STATE_UNSPECIFIED => 0
  | INDEX_CONTROLLER_STATE_RAMPING => 1
  | INDEX_CONTROLLER_STATE_STEADY => 2
  | INDEX_CONTROLLER_STATE_THROTTLED => 3
  | INDEX_CONTROLLER_STATE_PAUSED => 4
  end.
Definition index_controller_state_of_i32 (value : Z) : option IndexControllerState :=
  match value with
  | 0 => Some INDEX_CONTROLLER_STATE_UNSPECIFIED
  | 1 => Some INDEX_CONTROLLER_STATE_RAMPING
  | 2 => Some INDEX_CONTROLLER_STATE_STEADY
  | 3 => Some INDEX_CONTROLLER_STATE_THROTTLED
  | 4 => Some INDEX_CONTROLLER_STATE_PAUSED
  | _ => None
  end.

Inductive IndexPauseReason :=
| INDEX_PAUSE_REASON_UNSPECIFIED | INDEX_PAUSE_REASON_FOREGROUND | INDEX_PAUSE_REASON_OPC_HEALTH
| INDEX_PAUSE_REASON_HOST_CPU | INDEX_PAUSE_REASON_MEMORY | INDEX_PAUSE_REASON_DISK
| INDEX_PAUSE_REASON_DATABASE | INDEX_PAUSE_REASON_OPERATOR | INDEX_PAUSE_REASON_CIRCUIT.
Definition i32_of_index_pause_reason (value : IndexPauseReason) : Z :=
  match value with
  | INDEX_PAUSE_REASON_UNSPECIFIED => 0
  | INDEX_PAUSE_REASON_FOREGROUND => 1
  | INDEX_PAUSE_REASON_OPC_HEALTH => 2
  | INDEX_PAUSE_REASON_HOST_CPU => 3
  | INDEX_PAUSE_REASON_MEMORY => 4
  | INDEX_PAUSE_REASON_DISK => 5
  | INDEX_PAUSE_REASON_DATABASE => 6
  | INDEX_PAUSE_REASON_OPERATOR => 7
  | INDEX_PAUSE_REASON_CIRCUIT => 8
  end.
Definition index_pause_reason_of_i32 (value : Z) : option IndexPauseReason :=
  match value with
  | 0 => Some INDEX_PAUSE_REASON_UNSPECIFIED
  | 1 => Some INDEX_PAUSE_REASON_FOREGROUND
  | 2 => Some INDEX_PAUSE_REASON_OPC_HEALTH
  | 3 => Some INDEX_PAUSE_REASON_HOST_CPU
  | 4 => Some INDEX_PAUSE_REASON_MEMORY
  | 5 => Some INDEX_PAUSE_REASON_DISK
  | 6 => Some INDEX_PAUSE_REASON_DATABASE
  | 7 => Some INDEX_PAUSE_REASON_OPERATOR
  | 8 => Some INDEX_PAUSE_REASON_CIRCUIT
  | _ => None
  end.

Inductive IndexHealthState :=
| INDEX_HEALTH_STATE_UNSPECIFIED | INDEX_HEALTH_STATE_HEALTHY | INDEX_HEALTH_STATE_UNHEALTHY
| INDEX_HEALTH_STATE_UNAVAILABLE.
Definition i32_of_index_health_state (value : IndexHealthState) : Z :=
  match value with
  | INDEX_HEALTH_STATE_UNSPECIFIED => 0
  | INDEX_HEALTH_STATE_HEALTHY => 1
  | INDEX_HEALTH_STATE_UNHEALTHY => 2
  | INDEX_HEALTH_STATE_UNAVAILABLE => 3
  end.
Definition index_health_state_of_i32 (value : Z) : option IndexHealthState :=
  match value with
  | 0 => Some INDEX_HEALTH_STATE_UNSPECIFIED
  | 1 => Some INDEX_HEALTH_STATE_HEALTHY
  | 2 => Some INDEX_HEALTH_STATE_UNHEALTHY
  | 3 => Some INDEX_HEALTH_STATE_UNAVAILABLE
  | _ => None
  end.

Inductive ProtocolFeatureKind :=
| PROTOCOL_FEATURE_KIND_UNSPECIFIED | PROTOCOL_FEATURE_KIND_CORE
| PROTOCOL_FEATURE_KIND_NAMESPACE | PROTOCOL_FEATURE_KIND_INDEXED_SEARCH.
Definition i32_of_protocol_feature_kind (value : ProtocolFeatureKind) : Z :=
  match value with
  | PROTOCOL_FEATURE_KIND_UNSPECIFIED => 0
  | PROTOCOL_FEATURE_KIND_CORE => 1
  | PROTOCOL_FEATURE_KIND_NAMESPACE => 2
  | PROTOCOL_FEATURE_KIND_INDEXED_SEARCH => 3
  end.
Definition protocol_feature_kind_of_i32 (value : Z) : option ProtocolFeatureKind :=
  match value with
  | 0 => Some PROTOCOL_FEATURE_KIND_UNSPECIFIED
  | 1 => Some PROTOCOL_FEATURE_KIND_CORE
  | 2 => Some PROTOCOL_FEATURE_KIND_NAMESPACE
  | 3 => Some PROTOCOL_FEATURE_KIND_INDEXED_SEARCH
  | _ => None
  end.

(** ** Browsing and live search *)

Record BrowseNode := mk_browse_node {
  node_key : string;
  node_display_name : ustr;
  node_kind : Z;
  node_item_id : option ustr
}.

Record BrowsePage := mk_browse_page {
  page_session_id : string;
  page_nodes : list BrowseNode;
  page_next_page_token : option string;
  page_complete : bool;
  page_organization : Z;
  page_source : Z;
  page_warning : option string
}.

Record BrowseBreadcrumb := mk_browse_breadcrumb {
  crumb_node_key : string;
  crumb_display_name : ustr
}.

Record SearchProgress := mk_search_progress {
  search_visited_nodes : Z;
  search_matches : Z;
  search_partial : bool
}.

Record SearchCompleted := mk_search_completed {
  done_complete : bool;
  done_cancelled : bool;
  done_truncated : bool;
  done_warning : option string
}.

Record SearchMatch := mk_search_match {
  match_node : option BrowseNode;
  match_breadcrumbs : list BrowseBreadcrumb
}.

Inductive Event :=
| EventMatch (value : SearchMatch)
| EventProgress (value : SearchProgress)
| EventCompleted (value : SearchCompleted).
Record SearchEvent := mk_search_event { event : option Event }.

Record SearchRequest := mk_search_request {
  request_server : string;
  request_query : ustr;
  request_match_mode : Z;
  request_session_id : option string;
  request_scope_node_key : option string;
  request_max_results : Z;
  request_include_branches : bool;
  request_refresh : bool
}.

Record BrowseRequest := mk_browse_request {
  browse_server : string;
  browse_session_id : option string;
  browse_parent_node_key : option string;
  browse_page_token : option string;
  browse_page_size : Z;
  browse_refresh : bool
}.

(** ** The persistent index *)

Record IndexedSearchProgress := mk_indexed_search_progress {
  progress_branches_visited : Z;
  progress_entries_seen : Z;
  progress_unique_items : Z;
  progress_active_time_ms : Z;
  progress_paused_time_ms : Z;
  progress_items_per_second : f64;
  progress_estimated_remaining_ms : option Z
}.

Record IndexInventoryLimits := mk_index_inventory_limits {
  limits_item_rate_per_second : Z;
  limits_batch_size : Z;
  limits_duty_cycle_percent : Z
}.

Record IndexForegroundDiagnostics := mk_index_foreground_diagnostics {
  foreground_active_count : Z;
  foreground_operations : Z;
  foreground_errors : Z;
  foreground_bad_quality : Z;
  foreground_latency_p50_ms : option Z;
  foreground_latency_p95_ms : option Z;
  foreground_latency_max_ms : option Z;
  foreground_last_error : bool;
  foreground_last_bad_quality : bool
}.

Record IndexHostDiagnostics := mk_index_host_diagnostics {
  host_cpu_percent : option f64;
  host_available_memory_percent : option f64;
  host_disk_active_percent : option f64;
  host_disk_queue : option f64;
  host_process_working_set_bytes : option Z;
  host_process_private_bytes : option Z;
  host_process_read_bytes_per_second : option Z;
  host_process_write_bytes_per_second : option Z;
  host_disk_free_bytes : option Z
}.

Record IndexStorageDiagnostics := mk_index_storage_diagnostics {
  storage_main_bytes : Z;
  storage_wal_bytes : Z;
  storage_shm_bytes : Z;
  storage_free_bytes : option Z;
  storage_last_commit_latency_ms : option Z
}.

Record IndexSchedulerDiagnostics := mk_index_scheduler_diagnostics {
  scheduler_next_refresh_at : option string;
  scheduler_last_attempt_at : option string;
  scheduler_last_success_at : option string;
  scheduler_last_success_duration_ms : option Z;
  scheduler_retry_after : option string;
  scheduler_consecutive_failures : Z;
  scheduler_circuit_open : bool
}.

Record IndexHealthDiagnostics := mk_index_health_diagnostics {
  health_state : Z;
  health_sentinel_configured : bool
}.

Record SearchIndexStatus := mk_search_index_status {
  status_server : string;
  status_state : Z;
  status_configured : bool;
  status_active_generation : Z;
  status_entry_count : Z;
  status_unique_item_count : Z;
  status_started_at : option string;
  status_completed_at : option string;
  status_last_error : option string;
  status_database_bytes : Z;
  status_organization : Z;
  status_source : Z;
  status_progress : option IndexedSearchProgress;
  status_effective_limits : option IndexInventoryLimits;
  status_controller_state : Z;
  status_pause_reason : option Z;
  status_recovery_deadline : option string;
  status_foreground : option IndexForegroundDiagnostics;
  status_host : option IndexHostDiagnostics;
  status_storage : option IndexStorageDiagnostics;
  status_scheduler : option IndexSchedulerDiagnostics;
  status_health : option IndexHealthDiagnostics;
  status_promoting : bool;
  status_pause_reason_detail : option string
}.

Record IndexedSearchMatch := mk_indexed_search_match {
  indexed_item_id : ustr;
  indexed_display_name : ustr;
  indexed_kind : Z;
  indexed_breadcrumbs : list ustr
}.

Record SearchIndexResponse := mk_search_index_response {
  response_matches : list IndexedSearchMatch;
  response_has_more : bool;
  response_status : option SearchIndexStatus
}.

Record SearchIndexRequest := mk_search_index_request {
  index_server : string;
  index_query : ustr;
  index_match_mode : Z;
  index_max_results : Z
}.

(** ** Capabilities *)

Record GetCapabilitiesResponse := mk_get_capabilities_response {
  cap_application_version : string;
  cap_protocol_version : string;
  cap_max_page_size : Z;
  cap_supports_browse_sessions : bool;
  cap_supports_search : bool;
  cap_organization : Z;
  cap_source : Z;
  cap_supports_indexed_search : bool;
  cap_indexed_search_protocol_version : string;
  cap_max_indexed_search_results : Z;
  cap_search_index_state : Z;
  cap_search_index_promoting : bool
}.

Record ProtocolFeature := mk_protocol_feature {
  feature_kind : Z;
  feature_min_version : Z;
  feature_max_version : Z
}.
Record GetGatewayInfoResponse := mk_get_gateway_info_response {
  info_application_version : string;
  info_compatibility_schema_version : Z;
  info_features : list ProtocolFeature
}.

(** ** Reads and writes *)

Record TagValue := mk_tag_value {
  tag_tag_id : string;
  tag_value : string;
  tag_quality : string;
  tag_timestamp : string
}.
Inductive TypedValue :=
| StringValue (value : string)
| IntValue (value : Z)
| FloatValue (value : f64)
| BoolValue (value : bool).
Record WriteResponse := mk_write_response {
  write_tag_id : string;
  write_success : bool;
  write_error : option string
}.

(** ** Lemmas: every value is recovered from its number *)

Lemma namespace_organization_number value : namespace_organization_of_i32 (i32_of_namespace_organization value) = Some value.
Proof. by destruct value. Qed.
Lemma browse_source_number value : browse_source_of_i32 (i32_of_browse_source value) = Some value.
Proof. by destruct value. Qed.
Lemma browse_node_kind_number value : browse_node_kind_of_i32 (i32_of_browse_node_kind value) = Some value.
Proof. by destruct value. Qed.
Lemma search_match_mode_number value : search_match_mode_of_i32 (i32_of_search_match_mode value) = Some value.
Proof. by destruct value. Qed.
Lemma search_index_state_number value : search_index_state_of_i32 (i32_of_search_index_state value) = Some value.
Proof. by destruct value. Qed.
Lemma search_index_control_action_number value : search_index_control_action_of_i32 (i32_of_search_index_control_action value) = Some value.
Proof. by destruct value. Qed.
Lemma index_controller_state_number value : index_controller_state_of_i32 (i32_of_index_controller_state value) = Some value.
Proof. by destruct value. Qed.
Lemma index_pause_reason_number value : index_pause_reason_of_i32 (i32_of_index_pause_reason value) = Some value.
Proof. by destruct value. Qed.
Lemma index_health_state_number value : index_health_state_of_i32 (i32_of_index_health_state value) = Some value.
Proof. by destruct value. Qed.
Lemma protocol_feature_kind_number value : protocol_feature_kind_of_i32 (i32_of_protocol_feature_kind value) = Some value.
Proof. by destruct value. Qed.
