(* ===== verification/Api.v ===== *)
(** * The client's types (opcda-bridge/src/types, error.rs)

    The typed values of the client library and their conversions from and to the
    messages of the protocol, with the errors of messages that violate it. *)
From S2P Require Import Prelude Text Rpc Proto.

(** ** Errors *)

Inductive Error :=
| ConnectError (error : string)
| RpcError (status : Status)
| IncompatibleGateway (operation : string)
| UnknownIndexServer (server : string)
| IndexNotEnrolled (server : string)
| IndexDeleting (server : string)
| ProtocolError (message : string).

(** [Display] of an [i32] *)
Definition i32_to_string (value : Z) : string :=
  if value <? 0 then String.append "-" (to_decimal (- value)) else to_decimal value.

Definition invalid_enum (field : string) (value : Z) : Error :=
  ProtocolError
    (String.append "gateway returned unknown "
       (String.append field (String.append " value " (i32_to_string value)))).

(** ** Enumerations *)

Inductive NamespaceOrganization :=
| UnspecifiedOrganization | FlatOrganization | HierarchicalOrganization.
Definition organization (value : Z) : result NamespaceOrganization Error :=
  match namespace_organization_of_i32 value with
  | None => Err (invalid_enum "namespace organization" value)
  | Some NAMESPACE_ORGANIZATION_UNSPECIFIED => Ok UnspecifiedOrganization
  | Some NAMESPACE_ORGANIZATION_FLAT => Ok FlatOrganization
  | Some NAMESPACE_ORGANIZATION_HIERARCHICAL => Ok HierarchicalOrganization
  end.

Inductive BrowseSource :=
| UnspecifiedSource | Da3Source | Da2Source | FlatSource | DerivedSource.
Definition source (value : Z) : result BrowseSource Error :=
  match browse_source_of_i32 value with
  | None => Err (invalid_enum "browse source" value)
  | Some BROWSE_SOURCE_UNSPECIFIED => Ok UnspecifiedSource
  | Some BROWSE_SOURCE_DA3 => Ok Da3Source
  | Some BROWSE_SOURCE_DA2 => Ok Da2Source
  | Some BROWSE_SOURCE_FLAT => Ok FlatSource
  | Some BROWSE_SOURCE_DERIVED => Ok DerivedSource
  end.

Inductive BrowseNodeKind :=
| UnspecifiedKind | BranchKind | ItemKind | BranchAndItemKind.
Definition node_kind_from (value : Z) : result BrowseNodeKind Error :=
  match browse_node_kind_of_i32 value with
  | None => Err (invalid_enum "browse node kind" value)
  | Some BROWSE_NODE_KIND_UNSPECIFIED => Ok UnspecifiedKind
  | Some BROWSE_NODE_KIND_BRANCH => Ok BranchKind
  | Some BROWSE_NODE_KIND_ITEM => Ok ItemKind
  | Some BROWSE_NODE_KIND_BRANCH_AND_ITEM => Ok BranchAndItemKind
  end.

Inductive SearchMatchMode :=
| ExactMode | PrefixMode | ContainsMode.
Definition match_mode_number (value : SearchMatchMode) : Z :=
  match value with
  | ExactMode => i32_of_search_match_mode SEARCH_MATCH_MODE_EXACT
  | PrefixMode => i32_of_search_match_mode SEARCH_MATCH_MODE_PREFIX
  | ContainsMode => i32_of_search_match_mode SEARCH_MATCH_MODE_CONTAINS
  end.

Inductive SearchIndexState :=
| UnspecifiedState | NotIndexedState | PartialState | ReadyState | StaleState
| RefreshingState | PromotingState | FailedState | DeletingState.
Definition search_index_state (value : Z) : result SearchIndexState Error :=
  match search_index_state_of_i32 value with
  | None => Err (invalid_enum "search index state" value)
  | Some SEARCH_INDEX_STATE_UNSPECIFIED => Ok UnspecifiedState
  | Some SEARCH_INDEX_STATE_NOT_INDEXED => Ok NotIndexedState
  | Some SEARCH_INDEX_STATE_PARTIAL => Ok PartialState
  | Some SEARCH_INDEX_STATE_READY => Ok ReadyState
  | Some SEARCH_INDEX_STATE_STALE => Ok StaleState
  | Some SEARCH_INDEX_STATE_REFRESHING => Ok RefreshingState
  | Some SEARCH_INDEX_STATE_FAILED => Ok FailedState
  | Some SEARCH_INDEX_STATE_PROMOTING => Ok PromotingState
  | Some SEARCH_INDEX_STATE_DELETING => Ok DeletingState
  end.

Inductive SearchIndexControlAction :=
| PauseAction | ResumeAction | CancelAction | EnableAutoRefreshAction
| DisableAutoRefreshAction | DeleteAction.
Definition action_number (value : SearchIndexControlAction) : Z :=
  match value with
  | PauseAction => i32_of_search_index_control_action SEARCH_INDEX_CONTROL_ACTION_PAUSE
  | ResumeAction => i32_of_search_index_control_action SEARCH_INDEX_CONTROL_ACTION_RESUME
  | CancelAction => i32_of_search_index_control_action SEARCH_INDEX_CONTROL_ACTION_CANCEL
  | EnableAutoRefreshAction => i32_of_search_index_control_action SEARCH_INDEX_CONTROL_ACTION_ENABLE_AUTO_REFRESH
  | DisableAutoRefreshAction => i32_of_search_index_control_action SEARCH_INDEX_CONTROL_ACTION_DISABLE_AUTO_REFRESH
  | DeleteAction => i32_of_search_index_control_action SEARCH_INDEX_CONTROL_ACTION_DELETE
  end.

Inductive IndexControllerState :=
| UnspecifiedController | RampingController | SteadyController | ThrottledController
| PausedController.
Definition index_controller_state (value : Z) : result IndexControllerState Error :=
  match index_controller_state_of_i32 value with
  | None => Err (invalid_enum "index controller state" value)
  | Some INDEX_CONTROLLER_STATE_UNSPECIFIED => Ok UnspecifiedController
  | Some INDEX_CONTROLLER_STATE_RAMPING => Ok RampingController
  | Some INDEX_CONTROLLER_STATE_STEADY => Ok SteadyController
  | Some INDEX_CONTROLLER_STATE_THROTTLED => Ok ThrottledController
  | Some INDEX_CONTROLLER_STATE_PAUSED => Ok PausedController
  end.

Inductive IndexPauseReason :=
| UnspecifiedReason | ForegroundReason | OpcHealthReason | HostCpuReason | MemoryReason
| DiskReason | DatabaseReason | OperatorReason | CircuitReason.
Definition index_pause_reason (value : Z) : result IndexPauseReason Error :=
  match index_pause_reason_of_i32 value with
  | None => Err (invalid_enum "index pause reason" value)
  | Some INDEX_PAUSE_REASON_UNSPECIFIED => Ok UnspecifiedReason
  | Some INDEX_PAUSE_REASON_FOREGROUND => Ok ForegroundReason
  | Some INDEX_PAUSE_REASON_OPC_HEALTH => Ok OpcHealthReason
  | Some INDEX_PAUSE_REASON_HOST_CPU => Ok HostCpuReason
  | Some INDEX_PAUSE_REASON_MEMORY => Ok MemoryReason
  | Some INDEX_PAUSE_REASON_DISK => Ok DiskReason
  | Some INDEX_PAUSE_REASON_DATABASE => Ok DatabaseReason
  | Some INDEX_PAUSE_REASON_OPERATOR => Ok OperatorReason
  | Some INDEX_PAUSE_REASON_CIRCUIT => Ok CircuitReason
  end.

Inductive IndexHealthState :=
| UnspecifiedProbe | HealthyProbe | UnhealthyProbe | UnavailableProbe.
Definition index_health_state (value : Z) : result IndexHealthState Error :=
  match index_health_state_of_i32 value with
  | None => Err (invalid_enum "index health state" value)
  | Some INDEX_HEALTH_STATE_UNSPECIFIED => Ok UnspecifiedProbe
  | Some INDEX_HEALTH_STATE_HEALTHY => Ok HealthyProbe
  | Some INDEX_HEALTH_STATE_UNHEALTHY => Ok UnhealthyProbe
  | Some INDEX_HEALTH_STATE_UNAVAILABLE => Ok UnavailableProbe
  end.

(** [BrowseNodeKind::is_branch] and [is_item] *)
Definition is_branch (kind : BrowseNodeKind) : bool :=
  match kind with BranchKind | BranchAndItemKind => true | _ => false end.
Definition is_item (kind : BrowseNodeKind) : bool :=
  match kind with ItemKind | BranchAndItemKind => true | _ => false end.

(** ** Browsing and live search *)

Record BrowseNode := mk_browse_node {
  node_key : string;
  node_display_name : ustr;
  node_kind : BrowseNodeKind;
  node_item_id : option ustr
}.

Record BrowsePage := mk_browse_page {
  page_session_id : string;
  page_nodes : list BrowseNode;
  page_next_page_token : option string;
  page_complete : bool;
  page_organization : NamespaceOrganization;
  page_source : BrowseSource;
  page_warning : option string
}.

Record BrowseBreadcrumb := mk_browse_breadcrumb {
  crumb_node_key : string;
  crumb_display_name : ustr
}.

Record SearchProgress := mk_search_progress {
  search_visited_nodes : Z;
  search_matches : Z;
  search_partial : bool
}.

Record SearchCompleted := mk_search_completed {
  done_complete : bool;
  done_cancelled : bool;
  done_truncated : bool;
  done_warning : option string
}.

(** [TryFrom<proto::BrowseNode>]: exactly the selectable nodes have an ItemID. *)
Definition browse_node (value : Proto.BrowseNode) : result BrowseNode Error :=
  let? kind := node_kind_from (Proto.node_kind value) in
  if is_item kind && negb (is_some (Proto.node_item_id value))
  then Err (ProtocolError "gateway returned a selectable browse node without an ItemID")
  else if negb (is_item kind) && is_some (Proto.node_item_id value)
  then Err (ProtocolError "gateway returned an ItemID for a non-selectable browse node")
  else
    Ok {| node_key := Proto.node_key value;
          node_display_name := Proto.node_display_name value;
          node_kind := kind;
          node_item_id := Proto.node_item_id value |}.

(** [TryFrom<proto::BrowsePage>]: a page is complete or has a continuation token. *)
Definition browse_page (value : Proto.BrowsePage) : result BrowsePage Error :=
  if Proto.page_complete value && is_some (Proto.page_next_page_token value)
  then Err (ProtocolError "gateway returned a complete browse page with a continuation token")
  else if negb (Proto.page_complete value) && negb (is_some (Proto.page_next_page_token value))
  then
    Err (ProtocolError "gateway returned an incomplete browse page without a continuation token")
  else
    let? nodes := collect (map browse_node (Proto.page_nodes value)) in
    let? org := organization (Proto.page_organization value) in
    let? src := source (Proto.page_source value) in
    Ok {| page_session_id := Proto.page_session_id value;
          page_nodes := nodes;
          page_next_page_token := Proto.page_next_page_token value;
          page_complete := Proto.page_complete value;
          page_organization := org;
          page_source := src;
          page_warning := Proto.page_warning value |}.

Record SearchMatch := mk_search_match {
  match_node : BrowseNode;
  match_breadcrumbs : list BrowseBreadcrumb
}.

Inductive SearchEvent :=
| MatchEvent (value : SearchMatch)
| ProgressEvent (value : SearchProgress)
| CompletedEvent (value : SearchCompleted).

(** [TryFrom<proto::SearchEvent>] *)
Definition search_event (value : Proto.SearchEvent) : result SearchEvent Error :=
  match Proto.event value with
  | Some (EventMatch found) =>
      let? node := ok_or (Proto.match_node found)
                     (ProtocolError "gateway returned a search match without a node") in
      let? node := browse_node node in
      Ok (MatchEvent
            {| match_node := node;
               match_breadcrumbs :=
                 map (fun part =>
                        {| crumb_node_key := Proto.crumb_node_key part;
                           crumb_display_name := Proto.crumb_display_name part |})
                     (Proto.match_breadcrumbs found) |})
  | Some (EventProgress progress) =>
      Ok (ProgressEvent
            {| search_visited_nodes := Proto.search_visited_nodes progress;
               search_matches := Proto.search_matches progress;
               search_partial := Proto.search_partial progress |})
  | Some (EventCompleted completed) =>
      Ok (CompletedEvent
            {| done_complete := Proto.done_complete completed;
               done_cancelled := Proto.done_cancelled completed;
               done_truncated := Proto.done_truncated completed;
               done_warning := Proto.done_warning completed |})
  | None => Err (ProtocolError "gateway returned an empty search event")
  end.

Record SearchRequest := mk_search_request {
  request_server : string;
  request_query : ustr;
  request_match_mode : SearchMatchMode;
  request_session_id : option string;
  request_scope_node_key : option string;
  request_max_results : Z;
  request_include_branches : bool;
  request_refresh : bool
}.
(** [From<SearchRequest> for proto::SearchRequest] *)
Definition search_request (value : SearchRequest) : Proto.SearchRequest :=
  {| Proto.request_server := request_server value;
     Proto.request_query := request_query value;
     Proto.request_match_mode := match_mode_number (request_match_mode value);
     Proto.request_session_id := request_session_id value;
     Proto.request_scope_node_key := request_scope_node_key value;
     Proto.request_max_results := request_max_results value;
     Proto.request_include_branches := request_include_branches value;
     Proto.request_refresh := request_refresh value |}.

Record SearchIndexRequest := mk_search_index_request {
  index_server : string;
  index_query : ustr;
  index_match_mode : SearchMatchMode;
  index_max_results : Z
}.
(** [From<SearchIndexRequest> for proto::SearchIndexRequest] *)
Definition search_index_request (value : SearchIndexRequest) : Proto.SearchIndexRequest :=
  {| Proto.index_server := index_server value;
     Proto.index_query := index_query value;
     Proto.index_match_mode := match_mode_number (index_match_mode value);
     Proto.index_max_results := index_max_results value |}.

(** ** The persistent index *)

Record IndexedSearchProgress := mk_indexed_search_progress {
  progress_branches_visited : Z;
  progress_entries_seen : Z;
  progress_unique_items : Z;
  progress_active_time_ms : Z;
  progress_paused_time_ms : Z;
  progress_items_per_second : f64;
  progress_estimated_remaining_ms : option Z
}.
Definition indexed_search_progress (value : Proto.IndexedSearchProgress) : IndexedSearchProgress :=
  {| progress_branches_visited := Proto.progress_branches_visited value;
     progress_entries_seen := Proto.progress_entries_seen value;
     progress_unique_items := Proto.progress_unique_items value;
     progress_active_time_ms := Proto.progress_active_time_ms value;
     progress_paused_time_ms := Proto.progress_paused_time_ms value;
     progress_items_per_second := Proto.progress_items_per_second value;
     progress_estimated_remaining_ms := Proto.progress_estimated_remaining_ms value |}.

Record IndexInventoryLimits := mk_index_inventory_limits {
  limits_item_rate_per_second : Z;
  limits_batch_size : Z;
  limits_duty_cycle_percent : Z
}.
Definition inventory_limits (value : Proto.IndexInventoryLimits) : IndexInventoryLimits :=
  {| limits_item_rate_per_second := Proto.limits_item_rate_per_second value;
     limits_batch_size := Proto.limits_batch_size value;
     limits_duty_cycle_percent := Proto.limits_duty_cycle_percent value |}.

Record IndexForegroundDiagnostics := mk_index_foreground_diagnostics {
  foreground_active_count : Z;
  foreground_operations : Z;
  foreground_errors : Z;
  foreground_bad_quality : Z;
  foreground_latency_p50_ms : option Z;
  foreground_latency_p95_ms : option Z;
  foreground_latency_max_ms : option Z;
  foreground_last_error : bool;
  foreground_last_bad_quality : bool
}.
Definition default_foreground : IndexForegroundDiagnostics :=
  {| foreground_active_count := 0;
     foreground_operations := 0;
     foreground_errors := 0;
     foreground_bad_quality := 0;
     foreground_latency_p50_ms := None;
     foreground_latency_p95_ms := None;
     foreground_latency_max_ms := None;
     foreground_last_error := false;
     foreground_last_bad_quality := false |}.
Definition foreground_diagnostics (value : Proto.IndexForegroundDiagnostics) : IndexForegroundDiagnostics :=
  {| foreground_active_count := Proto.foreground_active_count value;
     foreground_operations := Proto.foreground_operations value;
     foreground_errors := Proto.foreground_errors value;
     foreground_bad_quality := Proto.foreground_bad_quality value;
     foreground_latency_p50_ms := Proto.foreground_latency_p50_ms value;
     foreground_latency_p95_ms := Proto.foreground_latency_p95_ms value;
     foreground_latency_max_ms := Proto.foreground_latency_max_ms value;
     foreground_last_error := Proto.foreground_last_error value;
     foreground_last_bad_quality := Proto.foreground_last_bad_quality value |}.

Record IndexHostDiagnostics := mk_index_host_diagnostics {
  host_cpu_percent : option f64;
  host_available_memory_percent : option f64;
  host_disk_active_percent : option f64;
  host_disk_queue : option f64;
  host_process_working_set_bytes : option Z;
  host_process_private_bytes : option Z;
  host_process_read_bytes_per_second : option Z;
  host_process_write_bytes_per_second : option Z;
  host_disk_free_bytes : option Z
}.
Definition default_host : IndexHostDiagnostics :=
  {| host_cpu_percent := None;
     host_available_memory_percent := None;
     host_disk_active_percent := None;
     host_disk_queue := None;
     host_process_working_set_bytes := None;
     host_process_private_bytes := None;
     host_process_read_bytes_per_second := None;
     host_process_write_bytes_per_second := None;
     host_disk_free_bytes := None |}.
Definition host_diagnostics (value : Proto.IndexHostDiagnostics) : IndexHostDiagnostics :=
  {| host_cpu_percent := Proto.host_cpu_percent value;
     host_available_memory_percent := Proto.host_available_memory_percent value;
     host_disk_active_percent := Proto.host_disk_active_percent value;
     host_disk_queue := Proto.host_disk_queue value;
     host_process_working_set_bytes := Proto.host_process_working_set_bytes value;
     host_process_private_bytes := Proto.host_process_private_bytes value;
     host_process_read_bytes_per_second := Proto.host_process_read_bytes_per_second value;
     host_process_write_bytes_per_second := Proto.host_process_write_bytes_per_second value;
     host_disk_free_bytes := Proto.host_disk_free_bytes value |}.

Record IndexStorageDiagnostics := mk_index_storage_diagnostics {
  storage_main_bytes : Z;
  storage_wal_bytes : Z;
  storage_shm_bytes : Z;
  storage_free_bytes : option Z;
  storage_last_commit_latency_ms : option Z
}.
Definition default_storage : IndexStorageDiagnostics :=
  {| storage_main_bytes := 0;
     storage_wal_bytes := 0;
     storage_shm_bytes := 0;
     storage_free_bytes := None;
     storage_last_commit_latency_ms := None |}.
Definition storage_diagnostics (value : Proto.IndexStorageDiagnostics) : IndexStorageDiagnostics :=
  {| storage_main_bytes := Proto.storage_main_bytes value;
     storage_wal_bytes := Proto.storage_wal_bytes value;
     storage_shm_bytes := Proto.storage_shm_bytes value;
     storage_free_bytes := Proto.storage_free_bytes value;
     storage_last_commit_latency_ms := Proto.storage_last_commit_latency_ms value |}.

Record IndexSchedulerDiagnostics := mk_index_scheduler_diagnostics {
  scheduler_next_refresh_at : option string;
  scheduler_last_attempt_at : option string;
  scheduler_last_success_at : option string;
  scheduler_last_success_duration_ms : option Z;
  scheduler_retry_after : option string;
  scheduler_consecutive_failures : Z;
  scheduler_circuit_open : bool
}.
Definition default_scheduler : IndexSchedulerDiagnostics :=
  {| scheduler_next_refresh_at := None;
     scheduler_last_attempt_at := None;
     scheduler_last_success_at := None;
     scheduler_last_success_duration_ms := None;
     scheduler_retry_after := None;
     scheduler_consecutive_failures := 0;
     scheduler_circuit_open := false |}.
Definition scheduler_diagnostics (value : Proto.IndexSchedulerDiagnostics) : IndexSchedulerDiagnostics :=
  {| scheduler_next_refresh_at := Proto.scheduler_next_refresh_at value;
     scheduler_last_attempt_at := Proto.scheduler_last_attempt_at value;
     scheduler_last_success_at := Proto.scheduler_last_success_at value;
     scheduler_last_success_duration_ms := Proto.scheduler_last_success_duration_ms value;
     scheduler_retry_after := Proto.scheduler_retry_after value;
     scheduler_consecutive_failures := Proto.scheduler_consecutive_failures value;
     scheduler_circuit_open := Proto.scheduler_circuit_open value |}.

Record IndexHealthDiagnostics := mk_index_health_diagnostics {
  health_state : IndexHealthState;
  health_sentinel_configured : bool
}.
Definition default_health : IndexHealthDiagnostics :=
  {| health_state := UnavailableProbe; health_sentinel_configured := false |}.
Definition health_diagnostics (value : Proto.IndexHealthDiagnostics) :
    result IndexHealthDiagnostics Error :=
  let? state := index_health_state (Proto.health_state value) in
  Ok {| health_state := state;
        health_sentinel_configured := Proto.health_sentinel_configured value |}.

Record SearchIndexStatus := mk_search_index_status {
  status_server : string;
  status_state : SearchIndexState;
  status_auto_refresh_enabled : bool;
  status_active_generation : Z;
  status_entry_count : Z;
  status_unique_item_count : Z;
  status_started_at : option string;
  status_completed_at : option string;
  status_last_error : option string;
  status_database_bytes : Z;
  status_organization : NamespaceOrganization;
  status_source : BrowseSource;
  status_progress : option IndexedSearchProgress;
  status_effective_limits : option IndexInventoryLimits;
  status_controller_state : IndexControllerState;
  status_pause_reason : option IndexPauseReason;
  status_recovery_deadline : option string;
  status_foreground : IndexForegroundDiagnostics;
  status_host : IndexHostDiagnostics;
  status_storage : IndexStorageDiagnostics;
  status_scheduler : IndexSchedulerDiagnostics;
  status_health : IndexHealthDiagnostics;
  status_promoting : bool;
  status_pause_reason_detail : option string
}.

(** [TryFrom<proto::SearchIndexStatus>] *)
Definition search_index_status (value : Proto.SearchIndexStatus) : result SearchIndexStatus Error :=
  let? state := search_index_state (Proto.status_state value) in
  let? org := organization (Proto.status_organization value) in
  let? src := source (Proto.status_source value) in
  let? controller := index_controller_state (Proto.status_controller_state value) in
  let? reason := transpose (index_pause_reason <$> Proto.status_pause_reason value) in
  let? health := transpose (health_diagnostics <$> Proto.status_health value) in
  Ok {| status_server := Proto.status_server value;
        status_state := state;
        status_auto_refresh_enabled := Proto.status_configured value;
        status_active_generation := Proto.status_active_generation value;
        status_entry_count := Proto.status_entry_count value;
        status_unique_item_count := Proto.status_unique_item_count value;
        status_started_at := Proto.status_started_at value;
        status_completed_at := Proto.status_completed_at value;
        status_last_error := Proto.status_last_error value;
        status_database_bytes := Proto.status_database_bytes value;
        status_organization := org;
        status_source := src;
        status_progress := indexed_search_progress <$> Proto.status_progress value;
        status_effective_limits := inventory_limits <$> Proto.status_effective_limits value;
        status_controller_state := controller;
        status_pause_reason := reason;
        status_recovery_deadline := Proto.status_recovery_deadline value;
        status_foreground := from_option foreground_diagnostics default_foreground (Proto.status_foreground value);
        status_host := from_option host_diagnostics default_host (Proto.status_host value);
        status_storage := from_option storage_diagnostics default_storage (Proto.status_storage value);
        status_scheduler := from_option scheduler_diagnostics default_scheduler (Proto.status_scheduler value);
        status_health := unwrap_or default_health health;
        status_promoting := Proto.status_promoting value;
        status_pause_reason_detail := Proto.status_pause_reason_detail value |}.

Record IndexedSearchMatch := mk_indexed_search_match {
  indexed_item_id : ustr;
  indexed_display_name : ustr;
  indexed_kind : BrowseNodeKind;
  indexed_breadcrumbs : list ustr
}.

(** [TryFrom<proto::IndexedSearchMatch>]: a match is selectable and has an ItemID. *)
Definition indexed_search_match (value : Proto.IndexedSearchMatch) :
    result IndexedSearchMatch Error :=
  let? kind := node_kind_from (Proto.indexed_kind value) in
  if negb (is_item kind)
  then Err (ProtocolError "gateway returned a non-selectable indexed search match")
  else if match Proto.indexed_item_id value with [] => true | _ => false end
  then Err (ProtocolError "gateway returned an indexed search match without an ItemID")
  else
    Ok {| indexed_item_id := Proto.indexed_item_id value;
          indexed_display_name := Proto.indexed_display_name value;
          indexed_kind := kind;
          indexed_breadcrumbs := Proto.indexed_breadcrumbs value |}.

Record SearchIndexResponse := mk_search_index_response {
  response_matches : list IndexedSearchMatch;
  response_has_more : bool;
  response_status : SearchIndexStatus
}.
(** [TryFrom<proto::SearchIndexResponse>] *)
Definition search_index_response (value : Proto.SearchIndexResponse) :
    result SearchIndexResponse Error :=
  let? matches := collect (map indexed_search_match (Proto.response_matches value)) in
  let? status := ok_or (Proto.response_status value)
                   (ProtocolError "gateway returned indexed search results without status") in
  let? status := search_index_status status in
  Ok {| response_matches := matches;
        response_has_more := Proto.response_has_more value;
        response_status := status |}.

(** ** Capabilities *)

Record Capabilities := mk_capabilities {
  cap_application_version : string;
  cap_protocol_version : string;
  cap_max_page_size : Z;
  cap_supports_browse_sessions : bool;
  cap_supports_search : bool;
  cap_organization : NamespaceOrganization;
  cap_source : BrowseSource;
  cap_supports_indexed_search : bool;
  cap_indexed_search_protocol_version : string;
  cap_max_indexed_search_results : Z;
  cap_search_index_state : SearchIndexState;
  cap_search_index_promoting : bool
}.
(** [TryFrom<proto::GetCapabilitiesResponse>] *)
Definition capabilities (value : Proto.GetCapabilitiesResponse) : result Capabilities Error :=
  let? org := organization (Proto.cap_organization value) in
  let? src := source (Proto.cap_source value) in
  let? state := search_index_state (Proto.cap_search_index_state value) in
  Ok {| cap_application_version := Proto.cap_application_version value;
        cap_protocol_version := Proto.cap_protocol_version value;
        cap_max_page_size := Proto.cap_max_page_size value;
        cap_supports_browse_sessions := Proto.cap_supports_browse_sessions value;
        cap_supports_search := Proto.cap_supports_search value;
        cap_organization := org;
        cap_source := src;
        cap_supports_indexed_search := Proto.cap_supports_indexed_search value;
        cap_indexed_search_protocol_version := Proto.cap_indexed_search_protocol_version value;
        cap_max_indexed_search_results := Proto.cap_max_indexed_search_results value;
        cap_search_index_state := state;
        cap_search_index_promoting := Proto.cap_search_index_promoting value |}.
