(* ===== verification/Compat.v ===== *)
(** * Protocol compatibility (opcda-bridge-proto/src/lib.rs, opcda-bridge/src/compatibility.rs)

    The catalog of release lines with the protocols they implement, and the client's
    evaluation of a gateway's protocol profile, from the gateway-wide handshake or from
    the capabilities of an older gateway. [RELEASE_LINES] and [EVIDENCE] are what the
    build script generates from compatibility.toml. *)
From S2P Require Import Prelude Text Rpc Proto Api.

(** ** The catalog *)

Record ReleaseLine := {
  name : string;
  min_version : string;
  max_version : string;
  status : string;
  core_protocol : Z;
  namespace_protocol : Z;
  indexed_search_protocol : Z
}.

Definition SCHEMA_VERSION : Z := 1.
Definition CORE_PROTOCOL_VERSION : Z := 1.

Definition RELEASE_LINES : list ReleaseLine :=
  [ {| name := "legacy"; min_version := "0.1.0"; max_version := "0.3.1"; status := "legacy";
       core_protocol := 1; namespace_protocol := 1; indexed_search_protocol := 0 |};
    {| name := "paged"; min_version := "0.3.2"; max_version := "0.3.999"; status := "supported";
       core_protocol := 1; namespace_protocol := 2; indexed_search_protocol := 0 |};
    {| name := "indexed"; min_version := "0.4.0"; max_version := "0.4.999"; status := "supported";
       core_protocol := 1; namespace_protocol := 2; indexed_search_protocol := 1 |};
    {| name := "indexed-on-demand"; min_version := "0.5.0"; max_version := "0.999.999";
       status := "supported";
       core_protocol := 1; namespace_protocol := 2; indexed_search_protocol := 2 |} ].

(** Client line, gateway line, status, exact client version, exact gateway version. *)
Record Evidence := mk_evidence {
  client_line : string;
  gateway_line : string;
  evidence_text : string;
  exact_client : string;
  exact_gateway : string
}.

Definition EVIDENCE : list Evidence :=
  [ mk_evidence "indexed" "paged" "contract-boundary-tested" "" "";
    mk_evidence "paged" "indexed" "contract-boundary-tested" "" "";
    mk_evidence "indexed" "indexed" "exact-pair-tested" "0.4.0" "0.4.3";
    mk_evidence "indexed" "indexed" "exact-pair-tested" "0.4.3" "0.4.3";
    mk_evidence "indexed-on-demand" "indexed-on-demand" "contract-boundary-tested" "" "" ].

(** [str::split] on a character *)
Fixpoint split (c : Ascii.ascii) (s : string) : list string :=
  match s with
  | EmptyString => [""]
  | String a rest =>
      if Ascii.eqb a c then "" :: split c rest
      else
        match split c rest with
        | part :: parts => String a part :: parts
        | [] => [String a ""]
        end
  end.

Definition version_tuple (value : string) : option (Z * Z * Z) :=
  match split "." value with
  | [a; b; c] =>
      if String.eqb a "" || String.eqb b "" || String.eqb c "" then None
      else
        a ← parse_uint u64_max a;
        b ← parse_uint u64_max b;
        c ← parse_uint u64_max c;
        Some (a, b, c)
  | _ => None
  end.

(** [<=] of Rust's tuples. *)
Definition version_le (v w : Z * Z * Z) : bool :=
  let '(a, b, c) := v in
  let '(a', b', c') := w in
  (a <? a') || ((a =? a') && ((b <? b') || ((b =? b') && (c <=? c')))).

Definition line_contains (version : Z * Z * Z) (line : ReleaseLine) : bool :=
  match version_tuple (min_version line), version_tuple (max_version line) with
  | Some minimum, Some maximum => version_le minimum version && version_le version maximum
  | _, _ => false
  end.

Definition release_line_for (version : string) : option ReleaseLine :=
  version ← version_tuple version;
  List.find (line_contains version) RELEASE_LINES.

(** The versions of the packages of this workspace ([CARGO_PKG_VERSION]). *)
Definition gateway_package_version : string := "0.6.3".
Definition library_package_version : string := "0.6.0".

(** ** Features and version ranges *)

Inductive CompatibilityFeature := Core | Namespace | IndexedSearch.
#[export] Instance CompatibilityFeature_eq_dec : EqDecision CompatibilityFeature.
Proof. solve_decision. Defined.

(** [CompatibilityFeature::from_proto] *)
Definition feature_from_proto (value : Z) : result CompatibilityFeature Error :=
  match protocol_feature_kind_of_i32 value with
  | None =>
      Err (ProtocolError
             (String.append "gateway returned unknown protocol feature " (i32_to_string value)))
  | Some PROTOCOL_FEATURE_KIND_CORE => Ok Core
  | Some PROTOCOL_FEATURE_KIND_NAMESPACE => Ok Namespace
  | Some PROTOCOL_FEATURE_KIND_INDEXED_SEARCH => Ok IndexedSearch
  | Some PROTOCOL_FEATURE_KIND_UNSPECIFIED =>
      Err (ProtocolError "gateway returned an unspecified protocol feature")
  end.

Definition feature_name (feature : CompatibilityFeature) : string :=
  match feature with
  | Core => "core"
  | Namespace => "namespace"
  | IndexedSearch => "indexed-search"
  end.

Record ProtocolVersionRange := mk_range { range_min : Z; range_max : Z }.
#[export] Instance ProtocolVersionRange_eq_dec : EqDecision ProtocolVersionRange.
Proof. solve_decision. Defined.

(** [ProtocolVersionRange::new] *)
Definition new_range (min max : Z) : option ProtocolVersionRange :=
  if max <? min then None else Some (mk_range min max).
Definition exact (version : Z) : ProtocolVersionRange := mk_range version version.
Definition overlaps (self other : ProtocolVersionRange) : bool :=
  (range_min self <=? range_max other) && (range_min other <=? range_max self).
Definition negotiate (self other : ProtocolVersionRange) : option Z :=
  if overlaps self other
  then
    Some (if range_min other <? range_min self then range_min self else range_min other)
  else None.

Record ProtocolFeatureSupport := mk_support {
  feature : CompatibilityFeature;
  versions : ProtocolVersionRange
}.

(** ** The gateway's handshake *)

Record GatewayInfo := {
  gateway_application_version : string;
  compatibility_schema_version : Z;
  gateway_features : list ProtocolFeatureSupport
}.

Definition feature_support (value : ProtocolFeature) : result ProtocolFeatureSupport Error :=
  let? kind := feature_from_proto (feature_kind value) in
  let? versions :=
    ok_or (new_range (feature_min_version value) (feature_max_version value))
      (ProtocolError
         (String.append "gateway returned reversed "
            (String.append (feature_name kind) " protocol version range"))) in
  Ok (mk_support kind versions).

(** [TryFrom<proto::GetGatewayInfoResponse>] *)
Definition gateway_info_from (value : GetGatewayInfoResponse) : result GatewayInfo Error :=
  let? features := collect (map feature_support (info_features value)) in
  Ok {| gateway_application_version := info_application_version value;
        compatibility_schema_version := info_compatibility_schema_version value;
        gateway_features := features |}.

(** ** Profiles *)

Inductive CompatibilitySource := FromGatewayInfo | FromLegacyCapabilities | SourceUnknown.

Record ProtocolProfile := {
  profile_application_version : option string;
  profile_source : CompatibilitySource;
  profile_features : list ProtocolFeatureSupport
}.

Definition from_gateway_info (info : GatewayInfo) : ProtocolProfile :=
  {| profile_application_version := Some (gateway_application_version info);
     profile_source := FromGatewayInfo;
     profile_features := gateway_features info |}.

(** [ProtocolProfile::feature] *)
Definition profile_feature (self : ProtocolProfile) (f : CompatibilityFeature) :
    option ProtocolVersionRange :=
  versions <$> List.find (fun support => bool_decide (feature support = f)) (profile_features self).

Definition line_features (line : ReleaseLine) : list ProtocolFeatureSupport :=
  [ mk_support Core (exact (core_protocol line));
    mk_support Namespace (exact (namespace_protocol line));
    mk_support IndexedSearch (exact (indexed_search_protocol line)) ].

(** [None] where the [expect] on the catalog would panic. *)
Definition current_client_profile (application_version : string) : option ProtocolProfile :=
  line ← release_line_for library_package_version;
  Some {| profile_application_version := Some application_version;
          profile_source := FromGatewayInfo;
          profile_features := line_features line |}.

(** [str::trim] on the bytes of a string: the white space of Unicode, encoded, is
    removed from both ends. *)
Definition bytes_of (s : string) : list Z :=
  map (fun a => Z.of_nat (Ascii.nat_of_ascii a)) (String.list_ascii_of_string s).
Definition white_space : list (list Z) :=
  map utf8_char
    ([9; 10; 11; 12; 13; 32; 133; 160; 5760; 8192; 8193; 8194; 8195; 8196; 8197; 8198; 8199;
      8200; 8201; 8202; 8232; 8233; 8239; 8287; 12288]).
Fixpoint trim_start (fuel : nat) (white : list (list Z)) (s : list Z) : list Z :=
  match fuel with
  | O => s
  | S fuel =>
      match List.find (starts_with s) white with
      | Some w => trim_start fuel white (drop (length w) s)
      | None => s
      end
  end.
Definition trim (s : list Z) : list Z :=
  let s := trim_start (length s) white_space s in
  rev (trim_start (length s) (map (@rev Z) white_space) (rev s)).
Definition trims_to (value : string) (literals : list string) : bool :=
  existsb (fun literal => bool_decide (trim (bytes_of value) = bytes_of literal)) literals.

Definition parse_namespace_protocol (value : string) : option Z :=
  if trims_to value ["1"; "1.0"] then Some 1
  else if trims_to value ["2"; "2.0"] then Some 2
  else if trims_to value ["0.3"; "0.3.0"] then Some 2
  else None.

Definition parse_index_protocol (value : string) : option Z :=
  if trims_to value ["1"; "1.0"] then Some 1 else None.

Definition legacy_gateway_profile (c : Capabilities) : ProtocolProfile :=
  let line := release_line_for (cap_application_version c) in
  let base :=
    match parse_namespace_protocol (cap_protocol_version c) with
    | None => []
    | Some namespace_version =>
        [ mk_support Core (exact (from_option core_protocol CORE_PROTOCOL_VERSION line));
          mk_support Namespace (exact namespace_version) ]
    end in
  let index :=
    if cap_supports_indexed_search c
    then
      match parse_index_protocol (cap_indexed_search_protocol_version c) with
      | Some index_protocol => [ mk_support IndexedSearch (exact index_protocol) ]
      | None => []
      end
    else [] in
  {| profile_application_version := Some (cap_application_version c);
     profile_source := FromLegacyCapabilities;
     profile_features := base ++ index |}.

(** ** Evidence *)

Inductive CompatibilityEvidence := ContractBoundaryTested | ExactPairTested | Unverified.

Definition evidence_status (value : string) : option CompatibilityEvidence :=
  if String.eqb value "contract-boundary-tested" then Some ContractBoundaryTested
  else if String.eqb value "exact-pair-tested" then Some ExactPairTested
  else if String.eqb value "unverified" then Some Unverified
  else None.

Definition catalog_line (version : string) : option string := name <$> release_line_for version.

(** The first entry that satisfies a test and names a known status. *)
Fixpoint first_status (test : Evidence -> bool) (l : list Evidence) : option CompatibilityEvidence :=
  match l with
  | [] => None
  | e :: rest =>
      match (if test e then evidence_status (evidence_text e) else None) with
      | Some status => Some status
      | None => first_status test rest
      end
  end.

Definition catalog_evidence (client_version gateway_version : option string) :
    CompatibilityEvidence :=
  match client_version, gateway_version with
  | Some client_version, Some gateway_version =>
      match catalog_line client_version, catalog_line gateway_version with
      | Some cl, Some gl =>
          let of_lines e := String.eqb (client_line e) cl && String.eqb (gateway_line e) gl in
          match
            first_status
              (fun e =>
                 of_lines e && negb (String.eqb (exact_client e) "")
                 && String.eqb (exact_client e) client_version
                 && String.eqb (exact_gateway e) gateway_version) EVIDENCE
          with
          | Some status => status
          | None =>
              unwrap_or Unverified
                (first_status
                   (fun e =>
                      of_lines e && String.eqb (exact_client e) ""
                      && String.eqb (exact_gateway e) "") EVIDENCE)
          end
      | _, _ => Unverified
      end
  | _, _ => Unverified
  end.

(** ** The evaluation *)

Inductive FeatureCompatibilityStatus := Compatible | Unsupported | Incompatible | Unknown.
#[export] Instance FeatureCompatibilityStatus_eq_dec : EqDecision FeatureCompatibilityStatus.
Proof. solve_decision. Defined.

Inductive CompatibilityStatus := Full | PartlyCompatible | NotCompatible | UnknownCompatibility.

Record FeatureCompatibility := {
  result_feature : CompatibilityFeature;
  result_status : FeatureCompatibilityStatus;
  result_client_versions : ProtocolVersionRange;
  result_gateway_versions : option ProtocolVersionRange;
  negotiated_version : option Z;
  reason : string
}.

Record CompatibilityReport := {
  report_client_version : string;
  report_library_version : string;
  report_gateway_version : option string;
  report_source : CompatibilitySource;
  report_status : CompatibilityStatus;
  report_evidence : CompatibilityEvidence;
  report_features : list FeatureCompatibility
}.

(** [CompatibilityReport::feature] and [satisfies] *)
Definition report_feature (self : CompatibilityReport) (f : CompatibilityFeature) :
    option FeatureCompatibility :=
  List.find (fun result => bool_decide (result_feature result = f)) (report_features self).
Definition is_compatible (result : FeatureCompatibility) : bool :=
  bool_decide (result_status result = Compatible).
Definition satisfies (self : CompatibilityReport) (required : list CompatibilityFeature) : bool :=
  forallb (fun f => is_some_and is_compatible (report_feature self f)) required.

Definition range_text (range : ProtocolVersionRange) : string :=
  String.append (to_decimal (range_min range)) (String.append "-" (to_decimal (range_max range))).

(** The comparison of one feature of the client. *)
Definition compare_feature (gateway : ProtocolProfile) (client_support : ProtocolFeatureSupport) :
    FeatureCompatibility :=
  let f := feature client_support in
  let gateway_versions := profile_feature gateway f in
  let '(status, negotiated, why) :=
    match gateway_versions with
    | Some range =>
        if overlaps (versions client_support) range
        then (Compatible, negotiate (versions client_support) range,
              String.append (feature_name f) " protocol ranges overlap")
        else (Incompatible, None,
              String.append (feature_name f)
                (String.append " protocol ranges do not overlap: client "
                   (String.append (range_text (versions client_support))
                      (String.append ", gateway " (range_text range)))))
    | None =>
        match f with
        | IndexedSearch => (Unsupported, None, "gateway does not advertise indexed search"%string)
        | _ =>
            (Unknown, None,
             String.append "gateway did not advertise the "
               (String.append (feature_name f) " protocol"))
        end
    end in
  {| result_feature := f;
     result_status := status;
     result_client_versions := versions client_support;
     result_gateway_versions := gateway_versions;
     negotiated_version := negotiated;
     reason := why |}.

Definition overall_status (features : list FeatureCompatibility) : CompatibilityStatus :=
  match
    result_status <$> List.find (fun result => bool_decide (result_feature result = Core)) features
  with
  | Some Compatible => if forallb is_compatible features then Full else PartlyCompatible
  | Some (Incompatible | Unsupported) => NotCompatible
  | Some Unknown | None => UnknownCompatibility
  end.

Definition evaluate_compatibility (client gateway : ProtocolProfile) : CompatibilityReport :=
  let features := map (compare_feature gateway) (profile_features client) in
  {| report_client_version := unwrap_or "unknown"%string (profile_application_version client);
     report_library_version := library_package_version;
     report_gateway_version := profile_application_version gateway;
     report_source := profile_source gateway;
     report_status := overall_status features;
     report_evidence :=
       catalog_evidence (profile_application_version client) (profile_application_version gateway);
     report_features := features |}.

Definition unknown_compatibility_report (client_version : string) : CompatibilityReport :=
  {| report_client_version := client_version;
     report_library_version := library_package_version;
     report_gateway_version := None;
     report_source := SourceUnknown;
     report_status := UnknownCompatibility;
     report_evidence := Unverified;
     report_features := [] |}.

(** ** The client's question (client.rs)

    [info] is the answer to [GetGatewayInfo], [capabilities_answer] the typed answer of
    [capabilities], asked when the gateway predates the handshake and a server is named. *)

Definition compatibility_with_client_version (server : option string) (client_version : string)
    (info : result GetGatewayInfoResponse Status)
    (capabilities_answer : string -> result Capabilities Error) :
    option (result CompatibilityReport Error) :=
  client_profile ← current_client_profile client_version;
  Some
    match result_bind (map_err RpcError info) gateway_info_from with
    | Ok info => Ok (evaluate_compatibility client_profile (from_gateway_info info))
    | Err (RpcError s) =>
        match code s with
        | Unimplemented =>
            match server with
            | Some server =>
                let? c := capabilities_answer server in
                Ok (evaluate_compatibility client_profile (legacy_gateway_profile c))
            | None => Ok (unknown_compatibility_report
                            (unwrap_or ""%string (profile_application_version client_profile)))
            end
        | _ => Err (RpcError s)
        end
    | Err error => Err error
    end.

(** ** The catalog *)

(** Lines do not overlap: [find] returns the one line that contains a version. *)
Lemma version_le_trans u v w : version_le u v = true -> version_le v w = true -> version_le u w = true.
Proof. destruct u as [[] ?], v as [[] ?], w as [[] ?]. simpl. lia. Qed.

Lemma release_lines_disjoint version line line' :
  In line RELEASE_LINES -> In line' RELEASE_LINES ->
  line_contains version line = true -> line_contains version line' = true -> line = line'.
Proof.
  destruct version as [[a b] c].
  intros H H'; repeat destruct H as [<-|H]; try destruct H; repeat destruct H' as [<-|H'];
    try destruct H'; try done; unfold line_contains;
    repeat match goal with
    | |- context [version_tuple ?v] => let r := eval vm_compute in (version_tuple v) in
        change (version_tuple v) with r; cbv iota beta
    end; unfold version_le; lia.
Qed.

Example current_lines :
  map catalog_line [gateway_package_version; "0.4.3"; "1.0"; "0.x.3"; "0.3.1"]%string =
  [Some "indexed-on-demand"; Some "indexed"; None; None; Some "legacy"]%string.
Proof. vm_compute. done. Qed.
Example no_break_space_trimmed :
  parse_namespace_protocol
    (String (Ascii.ascii_of_nat 194) (String (Ascii.ascii_of_nat 160) "2.0 ")) = Some 2.
Proof. vm_compute. done. Qed.

(** ** Negotiation *)

(** What the first entry of a feature in the gateway's answer covers. *)
Definition is_entry (f : CompatibilityFeature) (p : ProtocolFeature) : bool :=
  match feature_from_proto (feature_kind p) with
  | Ok g => bool_decide (g = f)
  | Err _ => false
  end.
Definition entry (info : GetGatewayInfoResponse) (f : CompatibilityFeature) : option ProtocolFeature :=
  List.find (is_entry f) (info_features info).
Definition covers (v : Z) (p : ProtocolFeature) : bool :=
  (feature_min_version p <=? v) && (v <=? feature_max_version p).
(** An answer that obeys the protocol: known features, ranges that are not reversed. *)
Definition entry_valid (p : ProtocolFeature) : Prop :=
  (exists f, feature_from_proto (feature_kind p) = Ok f)
  /\ feature_min_version p <= feature_max_version p.
(** The versions this client speaks. *)
Definition spoken (f : CompatibilityFeature) : Z :=
  match f with Core => 1 | Namespace => 2 | IndexedSearch => 2 end.

Lemma client_profile version :
  current_client_profile version =
  Some {| profile_application_version := Some version; profile_source := FromGatewayInfo;
          profile_features := map (fun f => mk_support f (exact (spoken f)))
                                [Core; Namespace; IndexedSearch] |}.
Proof. reflexivity. Qed.

Lemma collect_spec {A E B} (f : B -> result A E) l :
  (forall x, In x l -> exists a, f x = Ok a) <-> exists r, collect (map f l) = Ok r.
Proof.
  induction l as [|x l IH]; simpl; [naive_solver|]. split.
  - intros H. destruct (H x (or_introl eq_refl)) as [a ->].
    destruct (proj1 IH) as [r ->]; [auto|]. by eexists.
  - intros [r Hr]. destruct (f x) as [a|] eqn:Hf; [|done].
    destruct (collect (map f l)) eqn:Hc; [|done].
    intros y [<-|Hy]; [by exists a|]. apply (proj2 IH); [by eexists|done].
Qed.

Lemma feature_support_ok p : (exists a, feature_support p = Ok a) <-> entry_valid p.
Proof.
  unfold feature_support, entry_valid, new_range.
  destruct (feature_from_proto (feature_kind p)) as [f|]; simpl.
  - bool_cases; simpl; split; [by intros [] | intros [_ H]; lia
                              | intros _; split; [by exists f|lia] | by eexists].
  - split; [by intros [] | by intros [[] _]].
Qed.

Lemma gateway_feature info fs f :
  collect (map feature_support info) = Ok fs ->
  versions <$> List.find (fun support => bool_decide (feature support = f)) fs =
  (fun p => mk_range (feature_min_version p) (feature_max_version p)) <$> List.find (is_entry f) info.
Proof.
  revert fs. induction info as [|p info IH]; simpl; intros fs; [by intros [= <-]|].
  destruct (feature_support p) as [s|] eqn:Hs; [|done].
  destruct (collect (map feature_support info)) as [rest|] eqn:Hc; [|done].
  intros [= <-]. simpl. unfold feature_support, new_range in Hs. unfold is_entry at 1.
  destruct (feature_from_proto (feature_kind p)) as [g|]; [|done]. simpl in Hs.
  destruct (feature_max_version p <? feature_min_version p); [done|].
  injection Hs as <-. simpl. case_bool_decide; [done|]. by apply IH.
Qed.

(** *** What a report says

    [offers f range]: the gateway offers the versions [range] of the feature [f]. *)
Section Report.
Context (offers : CompatibilityFeature -> ProtocolVersionRange -> Prop).

Definition speaks (f : CompatibilityFeature) (range : ProtocolVersionRange) : Prop :=
  range_min range <= spoken f <= range_max range.
Definition agreed (f : CompatibilityFeature) : Prop := exists range, offers f range /\ speaks f range.
Definition offered (f : CompatibilityFeature) : Prop := exists range, offers f range.

(** The entry of a feature: what was compared, the verdict and the version agreed on. *)
Record entry_right (f : CompatibilityFeature) (e : FeatureCompatibility) : Prop := {
  entry_client : result_client_versions e = mk_range (spoken f) (spoken f);
  entry_gateway range : result_gateway_versions e = Some range <-> offers f range;
  entry_compatible : result_status e = Compatible <-> agreed f;
  entry_incompatible : result_status e = Incompatible <-> offered f /\ ~ agreed f;
  entry_unsupported : result_status e = Unsupported <-> f = IndexedSearch /\ ~ offered f;
  entry_unknown : result_status e = Unknown <-> f <> IndexedSearch /\ ~ offered f;
  entry_negotiated version : negotiated_version e = Some version <-> version = spoken f /\ agreed f
}.
Record report_right (client_version : string) (gateway_version : option string)
    (source : CompatibilitySource) (r : CompatibilityReport) : Prop := {
  right_client : report_client_version r = client_version;
  right_library : report_library_version r = library_package_version;
  right_gateway : report_gateway_version r = gateway_version;
  right_source : report_source r = source;
  right_entries : map result_feature (report_features r) = [Core; Namespace; IndexedSearch];
  right_entry f : exists e, report_feature r f = Some e /\ entry_right f e;
  right_satisfies required : satisfies r required = true <-> forall f, f ∈ required -> agreed f;
  right_full : report_status r = Full <-> forall f, agreed f;
  right_partly : report_status r = PartlyCompatible <-> agreed Core /\ ~ forall f, agreed f;
  right_not : report_status r = NotCompatible <-> offered Core /\ ~ agreed Core;
  right_unknown : report_status r = UnknownCompatibility <-> ~ offered Core
}.

(** A gateway's profile with these offers. *)
Context (gateway : ProtocolProfile)
  (Hoffers : forall f range, profile_feature gateway f = Some range <-> offers f range).

Abbreviation compared f := (compare_feature gateway (mk_support f (exact (spoken f)))).

Lemma compared_feature f : result_feature (compared f) = f.
Proof.
  unfold compare_feature. simpl. destruct (profile_feature gateway f); [bool_cases|destruct f]; done.
Qed.

Lemma agreed_profile f :
  agreed f <-> exists range, profile_feature gateway f = Some range /\ overlaps (exact (spoken f)) range = true.
Proof using Hoffers.
  unfold agreed, speaks, overlaps, exact. simpl. setoid_rewrite <- Hoffers.
  setoid_rewrite andb_true_iff. setoid_rewrite Z.leb_le. naive_solver.
Qed.
Lemma offered_profile f : offered f <-> exists range, profile_feature gateway f = Some range.
Proof using Hoffers. unfold offered. by setoid_rewrite Hoffers. Qed.

Lemma compared_right f : entry_right f (compared f).
Proof using Hoffers.
  pose proof (agreed_profile f) as Ha. pose proof (offered_profile f) as Ho.
  unfold compare_feature. cbn [feature versions].
  destruct (profile_feature gateway f) as [range|] eqn:E.
  - assert (Hof : offered f) by (apply Ho; by eexists).
    assert (Hgw : forall r, Some range = Some r <-> offers f r) by (intros r; rewrite <- E; apply Hoffers).
    destruct (overlaps (exact (spoken f)) range) eqn:Eo.
    + assert (Hag : agreed f) by (apply Ha; by eexists).
      split; cbn; try done; try exact Hgw; try (by tauto); try (by split; [done|tauto]).
      intros version. unfold negotiate. rewrite Eo. unfold overlaps, exact in *. simpl in *.
      apply andb_true_iff in Eo as [E1%Z.leb_le E2%Z.leb_le].
      destruct (Z.ltb_spec (range_min range) (spoken f)).
      * split; [by intros [= <-]|by intros [-> _]].
      * assert (range_min range = spoken f) as -> by lia. split; [by intros [= <-]|by intros [-> _]].
    + assert (Hna : ~ agreed f) by (rewrite Ha; intros (r & [= <-] & Hr); congruence).
      split; cbn; try done; try exact Hgw; try (by tauto); try (by split; [done|tauto]).
  - assert (Hno : ~ offered f) by (rewrite Ho; by intros []).
    assert (Hna : ~ agreed f) by (rewrite Ha; by intros (? & ? & _)).
    assert (Hnone : forall range, None = Some range <-> offers f range).
    { intros range. rewrite <- Hoffers, E. done. }
    destruct f; split; cbn; try done; try exact Hnone; try (by tauto);
      try (intros version); first [by split; [done|tauto]|by split; [by split|]|by split; [|intros []]].
Qed.

Lemma compared_compatible f : is_compatible (compared f) = true <-> agreed f.
Proof using Hoffers. unfold is_compatible. rewrite bool_decide_eq_true. apply compared_right. Qed.

Lemma all_features (P : CompatibilityFeature -> Prop) :
  (forall f, P f) <-> P Core /\ P Namespace /\ P IndexedSearch.
Proof. split; [auto|]. by intros (? & ? & ?) []. Qed.

Lemma evaluated_right client_version :
  report_right client_version (profile_application_version gateway) (profile_source gateway)
    (evaluate_compatibility
       {| profile_application_version := Some client_version; profile_source := FromGatewayInfo;
          profile_features := map (fun f => mk_support f (exact (spoken f))) [Core; Namespace; IndexedSearch] |}
       gateway).
Proof using Hoffers.
  set (r := evaluate_compatibility _ gateway).
  assert (Hr : report_features r = [compared Core; compared Namespace; compared IndexedSearch]) by done.
  assert (Hfind : forall f, report_feature r f = Some (compared f)).
  { intros f. unfold report_feature. rewrite Hr. cbn [List.find]. rewrite !compared_feature. by destruct f. }
  assert (Hall : forallb is_compatible (report_features r) = true <-> forall f, agreed f).
  { rewrite Hr, (all_features agreed). cbn [forallb].
    rewrite !andb_true_iff, !compared_compatible. tauto. }
  assert (Hst : report_status r =
    match result_status (compared Core) with
    | Compatible => if forallb is_compatible (report_features r) then Full else PartlyCompatible
    | Incompatible | Unsupported => NotCompatible
    | Unknown => UnknownCompatibility
    end).
  { change (report_status r) with (overall_status (report_features r)). unfold overall_status.
    pose proof (Hfind Core) as Hc. unfold report_feature in Hc. rewrite Hc. cbn [fmap option_fmap option_map].
    by destruct (result_status (compared Core)). }
  assert (Hag : agreed Core -> offered Core) by (intros (range & ? & _); by exists range).
  assert (Hcore : (forall f, agreed f) -> agreed Core) by auto.
  assert (Hcase : agreed Core /\ (report_status r = Full /\ (forall f, agreed f) \/
                                  report_status r = PartlyCompatible /\ ~ forall f, agreed f) \/
                  report_status r = NotCompatible /\ offered Core /\ ~ agreed Core \/
                  report_status r = UnknownCompatibility /\ ~ offered Core).
  { destruct (compared_right Core) as [_ _ H1 H2 H3 H4 _]. rewrite Hst.
    destruct (result_status (compared Core)) eqn:E.
    - left. split; [by apply H1|]. rewrite <- Hall. destruct (forallb _ _); [by left|by right].
    - by destruct (proj1 H3 eq_refl).
    - right. left. split; [done|]. by apply H2.
    - right. right. split; [done|]. by apply H4. }
  split; try done.
  4-7: clear - Hcase Hag Hcore; clearbody r;
    destruct Hcase as [(Hc & [[-> ?]|[-> ?]])|[(-> & ? & ?)|[-> ?]]]; (split; intros; try done; tauto).
  - rewrite Hr. cbn [map]. by rewrite !compared_feature.
  - intros f. exists (compared f). split; [done|apply compared_right].
  - intros required. unfold satisfies. rewrite forallb_forall. setoid_rewrite Hfind. cbn [is_some_and].
    setoid_rewrite compared_compatible. by setoid_rewrite list_elem_of_In.
Qed.
End Report.

(** The offers of a gateway's answer: the first entry of each feature. *)
Definition info_offers (info : GetGatewayInfoResponse) (f : CompatibilityFeature)
    (range : ProtocolVersionRange) : Prop :=
  exists p, entry info f = Some p /\ range = mk_range (feature_min_version p) (feature_max_version p).

(** The offers of a gateway without the handshake, read off its capabilities: the namespace
    protocol by its text, the core with it, and the only index protocol of its time. *)
Definition reads (value : string) (literals : list string) : Prop :=
  exists literal, literal ∈ literals /\ trim (bytes_of value) = bytes_of literal.
Inductive capabilities_offer (c : Capabilities) : CompatibilityFeature -> ProtocolVersionRange -> Prop :=
| offer_core : reads (cap_protocol_version c) ["1"; "1.0"; "2"; "2.0"; "0.3"; "0.3.0"] ->
    capabilities_offer c Core (mk_range 1 1)
| offer_first : reads (cap_protocol_version c) ["1"; "1.0"] ->
    capabilities_offer c Namespace (mk_range 1 1)
| offer_second : reads (cap_protocol_version c) ["2"; "2.0"; "0.3"; "0.3.0"] ->
    capabilities_offer c Namespace (mk_range 2 2)
| offer_index : cap_supports_indexed_search c = true ->
    reads (cap_indexed_search_protocol_version c) ["1"; "1.0"] ->
    capabilities_offer c IndexedSearch (mk_range 1 1).

Lemma trims_to_reads value literals : trims_to value literals = true <-> reads value literals.
Proof.
  unfold trims_to, reads. rewrite existsb_exists. setoid_rewrite <- list_elem_of_In.
  by setoid_rewrite bool_decide_eq_true.
Qed.

Lemma core_protocol_one version :
  from_option core_protocol CORE_PROTOCOL_VERSION (release_line_for version) = 1.
Proof.
  unfold release_line_for. destruct (version_tuple version) as [v|]; [|done]. cbn [mbind option_bind].
  destruct (List.find _ _) as [line|] eqn:E; [|done]. apply List.find_some in E as [Hin _].
  by repeat destruct Hin as [<-|Hin].
Qed.

Lemma reads_app value l1 l2 : reads value (l1 ++ l2) <-> reads value l1 \/ reads value l2.
Proof. unfold reads. setoid_rewrite elem_of_app. naive_solver. Qed.
(** A text that reads as the first protocol does not read as the second. *)
Lemma reads_once value : reads value ["1"; "1.0"] -> reads value ["2"; "2.0"; "0.3"; "0.3.0"] -> False.
Proof.
  intros (l1 & H1%list_elem_of_In & E1) (l2 & H2%list_elem_of_In & E2). rewrite E1 in E2.
  repeat destruct H1 as [<-|H1]; try done; repeat destruct H2 as [<-|H2]; done.
Qed.

Lemma legacy_offers c f range :
  profile_feature (legacy_gateway_profile c) f = Some range <-> capabilities_offer c f range.
Proof.
  unfold legacy_gateway_profile, profile_feature, parse_namespace_protocol, parse_index_protocol.
  cbn [profile_features]. rewrite core_protocol_one.
  set (P := cap_protocol_version c). set (I := cap_indexed_search_protocol_version c).
  pose proof (trims_to_reads P ["1"; "1.0"]) as H1. pose proof (trims_to_reads P ["2"; "2.0"]) as H2.
  pose proof (trims_to_reads P ["0.3"; "0.3.0"]) as H3. pose proof (trims_to_reads I ["1"; "1.0"]) as HI.
  pose proof (reads_app P ["2"; "2.0"] ["0.3"; "0.3.0"]) as H23.
  pose proof (reads_app P ["1"; "1.0"] (["2"; "2.0"] ++ ["0.3"; "0.3.0"])) as H123.
  pose proof (reads_once P) as Hx. cbn [app] in H23, H123.
  assert (Hinv : capabilities_offer c f range ->
    match f with
    | Core => range = mk_range 1 1 /\ reads P ["1"; "1.0"; "2"; "2.0"; "0.3"; "0.3.0"]
    | Namespace => range = mk_range 1 1 /\ reads P ["1"; "1.0"] \/
                   range = mk_range 2 2 /\ reads P ["2"; "2.0"; "0.3"; "0.3.0"]
    | IndexedSearch => range = mk_range 1 1 /\ cap_supports_indexed_search c = true /\ reads I ["1"; "1.0"]
    end).
  { intros []; tauto. }
  destruct (trims_to P ["1"; "1.0"]) eqn:E1, (trims_to P ["2"; "2.0"]) eqn:E2,
    (trims_to P ["0.3"; "0.3.0"]) eqn:E3, (cap_supports_indexed_search c) eqn:Ec,
    (trims_to I ["1"; "1.0"]) eqn:Ei, f; cbn; unfold exact.
  all: split; [intros [= <-]; constructor; tauto|intros H%Hinv].
  all: destruct_and?; destruct_or?; destruct_and?; subst; try done; exfalso;
    try rewrite H123 in *; try rewrite H23 in *; intuition congruence.
Qed.

Lemma answer_valid info :
  (exists fs, collect (map feature_support (info_features info)) = Ok fs) <->
  Forall entry_valid (info_features info).
Proof.
  rewrite <- collect_spec, Forall_forall. setoid_rewrite list_elem_of_In.
  split; intros H p Hp; apply feature_support_ok; auto.
Qed.

Lemma answer_error info e :
  collect (map feature_support (info_features info)) = Err e -> exists message, e = ProtocolError message.
Proof.
  induction (info_features info) as [|p l IH]; simpl; [done|].
  destruct (feature_support p) as [s|e'] eqn:Hs.
  - destruct (collect (map feature_support l)); [done|]. auto.
  - intros [= <-]. unfold feature_support, feature_from_proto, new_range in Hs.
    destruct (protocol_feature_kind_of_i32 (feature_kind p)) as [[]|]; simpl in Hs;
      bool_cases; simplify_eq/=; eauto.
Qed.

(** C38: the client's question about compatibility always has an answer. When the gateway answers
    the handshake, that is an error of the protocol exactly when its answer names an unknown feature or a
    reversed range, and otherwise the report on the ranges it offers; when it does not know the handshake,
    the report on what its capabilities offer, the error of asking for them, or without a server to ask for, a
    report that knows nothing; and any other failure is passed on. A report calls a feature
    compatible, with the version this client speaks as the negotiated one, exactly when the range
    offered for it contains that version, incompatible when the range does not, and without a range unsupported for the
    index and unknown otherwise; it is [Full] exactly when all three are compatible,
    [NotCompatible] when the core range excludes the client, [UnknownCompatibility] without one. *)
Theorem compatibility_negotiated server client_version info capabilities_answer :
  exists answer,
    compatibility_with_client_version server client_version info capabilities_answer = Some answer /\
    match info with
    | Ok info =>
        ((exists r, answer = Ok r) <-> Forall entry_valid (info_features info)) /\
        match answer with
        | Ok r => report_right (info_offers info) client_version (Some (info_application_version info))
                    FromGatewayInfo r
        | Err e => exists message, e = ProtocolError message
        end
    | Err status =>
        (code status <> Unimplemented -> answer = Err (RpcError status)) /\
        (code status = Unimplemented ->
         match server with
         | Some server =>
             match capabilities_answer server with
             | Ok c => exists r, answer = Ok r /\
                 report_right (capabilities_offer c) client_version (Some (cap_application_version c))
                   FromLegacyCapabilities r
             | Err e => answer = Err e
             end
         | None => exists r, answer = Ok r /\ report_client_version r = client_version /\
             report_library_version r = library_package_version /\ report_gateway_version r = None /\
             report_source r = SourceUnknown /\ report_status r = UnknownCompatibility /\ report_features r = []
         end)
    end.
Proof.
  unfold compatibility_with_client_version. rewrite client_profile. simpl.
  eexists. split; [reflexivity|]. destruct info as [info|status]; simpl.
  - unfold gateway_info_from.
    destruct (collect (map feature_support (info_features info))) as [fs|e] eqn:Hc; simpl.
    + split; [split; [intros _|by eexists]; apply (answer_valid info); by eexists|].
      apply (evaluated_right (info_offers info)
        (from_gateway_info {| gateway_application_version := info_application_version info;
           compatibility_schema_version := info_compatibility_schema_version info; gateway_features := fs |})).
      intros f range. unfold profile_feature, info_offers, entry. simpl. rewrite (gateway_feature _ _ f Hc).
      destruct (List.find (is_entry f) (info_features info)) as [p|]; simpl; [|naive_solver].
      split; [intros [= <-]; by exists p|by intros (p' & [= <-] & ->)].
    + destruct (answer_error info e Hc) as [message ->]. split; [|by exists message].
      split; [by intros []|]. intros Hv%answer_valid. destruct Hv. congruence.
  - split; intros Hcode; [by destruct (code status)|]. rewrite Hcode.
    destruct server as [server|]; [|by eexists].
    destruct (capabilities_answer server) as [c|e]; simpl; [|done]. eexists. split; [reflexivity|].
    apply (evaluated_right (capabilities_offer c) (legacy_gateway_profile c) (legacy_offers c)).
Qed.

(** A gateway of release 0.5 and one of release 0.4. *)
Definition demo_info (index_protocol : Z) : GetGatewayInfoResponse :=
  {| info_application_version := "0.5.0";
     info_compatibility_schema_version := 1;
     info_features :=
       [ {| feature_kind := 1; feature_min_version := 1; feature_max_version := 1 |};
         {| feature_kind := 2; feature_min_version := 1; feature_max_version := 2 |};
         {| feature_kind := 3; feature_min_version := index_protocol;
            feature_max_version := index_protocol |} ] |}.

(** A gateway without the handshake: its namespace protocol is enough, its index is too old. *)
Definition older_gateway : Capabilities :=
  mk_capabilities "0.4.3" " 2.0" 1000 true true HierarchicalOrganization Da2Source true "1" 100 ReadyState false.
Definition refused : Status := mk_status Internal "".

Lemma compatibility_negotiated_witness :
  exists r1 r2 r3,
    compatibility_with_client_version None "0.6.1" (Ok (demo_info 2)) (fun _ => Err (RpcError refused))
    = Some (Ok r1) /\ report_status r1 = Full /\
    compatibility_with_client_version None "0.6.1" (Ok (demo_info 1)) (fun _ => Err (RpcError refused))
    = Some (Ok r2) /\ report_status r2 = PartlyCompatible /\ satisfies r2 [IndexedSearch] = false /\
    compatibility_with_client_version (Some "plc") "0.6.1" (Err (mk_status Unimplemented ""))
      (fun _ => Ok older_gateway) = Some (Ok r3) /\ satisfies r3 [Core; Namespace] = true /\
    report_status r3 = PartlyCompatible.
Proof.
  destruct (compatibility_negotiated None "0.6.1" (Ok (demo_info 2)) (fun _ => Err (RpcError refused)))
    as (a1 & H1 & V1 & R1).
  destruct (compatibility_negotiated None "0.6.1" (Ok (demo_info 1)) (fun _ => Err (RpcError refused)))
    as (a2 & H2 & V2 & R2).
  destruct (compatibility_negotiated (Some "plc") "0.6.1" (Err (mk_status Unimplemented ""))
    (fun _ => Ok older_gateway)) as (a3 & H3 & _ & R3).
  assert (Hv : forall index, Forall entry_valid (info_features (demo_info index))).
  { intros index. repeat constructor; simpl; try (by eexists); lia. }
  destruct (proj2 V1 (Hv 2)) as [r1 ->]. destruct (proj2 V2 (Hv 1)) as [r2 ->].
  destruct (R3 eq_refl) as (r3 & -> & S3). exists r1, r2, r3.
  assert (Ho : forall index f, (f = IndexedSearch -> index = 2) -> agreed (info_offers (demo_info index)) f).
  { intros index f Hf. destruct f; (eexists; split; [eexists; split; [reflexivity|reflexivity]|]);
      unfold speaks; simpl; try lia. rewrite Hf by done. lia. }
  assert (Hn : ~ agreed (info_offers (demo_info 1)) IndexedSearch).
  { intros (range & (p & Hp & ->) & Hr). vm_compute in Hp. injection Hp as <-. unfold speaks in Hr. simpl in Hr. lia. }
  assert (Hr2 : reads " 2.0" ["2"; "2.0"; "0.3"; "0.3.0"]).
  { exists "2.0"%string. split; [by do 2 constructor|vm_compute; reflexivity]. }
  assert (Hl : forall f, f <> IndexedSearch -> agreed (capabilities_offer older_gateway) f).
  { intros [] Hf; [exists (mk_range 1 1)|exists (mk_range 2 2)|done]; (split; [|unfold speaks; simpl; lia]).
    - constructor. exists "2.0"%string. split; [by do 4 constructor|vm_compute; reflexivity].
    - by constructor. }
  assert (Hln : ~ agreed (capabilities_offer older_gateway) IndexedSearch).
  { intros (range & Hoffer & Hr). inversion Hoffer; subst. unfold speaks in Hr. simpl in Hr. lia. }
  split; [exact H1|]. split; [apply (right_full _ _ _ _ _ R1); intros f; by apply Ho|].
  split; [exact H2|]. split; [apply (right_partly _ _ _ _ _ R2); split; [by apply Ho|by intros H; apply Hn]|].
  split; [apply not_true_iff_false; rewrite (right_satisfies _ _ _ _ _ R2); intros H; apply Hn, H; constructor|].
  split; [exact H3|]. split; [|apply (right_partly _ _ _ _ _ S3); split; [by apply Hl|by intros H; apply Hln]].
  apply (right_satisfies _ _ _ _ _ S3). intros f Hf. apply Hl. intros ->.
  rewrite !elem_of_cons, elem_of_nil in Hf. naive_solver.
Defined.
