(* ===== verification/Browse.v ===== *)
(** * Browse sessions (browse.rs)

    The state of the browse manager and the sections of its operations that run
    under the lock of its session map, one function each. How requests interleave
    between those sections is in BrowseProtocol. Instants are nanoseconds; the
    tokens a section draws ([Uuid::new_v4]) are its arguments. *)
From S2P Require Import Prelude Text Bounded Opc Rpc.

Definition DEFAULT_PAGE_SIZE : Z := 200.
Definition MAX_PAGE_SIZE : Z := 1000.
Definition MAX_ACTIVE_SESSIONS : Z := 128.
Definition SESSION_TTL : Z := from_secs 60.
Definition MAX_CACHED_PAGES_PER_SESSION : Z := 256.
Definition MAX_NODE_BINDINGS_PER_SESSION : Z := 100000.
Definition MAX_PAGE_BINDINGS_PER_SESSION : Z := 256.

Record PageKey := {
  key_parent : option string;
  key_token : option string;
  key_size : Z
}.
#[export] Instance PageKey_eq_dec : EqDecision PageKey.
Proof. solve_decision. Defined.
#[export] Program Instance PageKey_countable : Countable PageKey :=
  inj_countable' (fun k => (key_parent k, key_token k, key_size k))
    (fun '(p, t, n) => {| key_parent := p; key_token := t; key_size := n |}) _.
Next Obligation. by intros []. Qed.

Record PageBinding := {
  native_page_token : string;
  binding_parent : option string;
  binding_size : Z
}.

(** The operation lock of a session is part of the interleaving, not of its data. *)
Record Session := mk_session {
  session_server : string;
  native_session_id : string;
  last_used : Z;
  node_bindings : gmap string string;
  page_bindings : gmap string PageBinding;
  page_binding_order : list string;
  pages : gmap PageKey BrowsePage;
  page_order : list PageKey
}.

Definition new_session (server native_session_id : string) (now : Z) : Session :=
  mk_session server native_session_id now ∅ ∅ [] ∅ [].

Definition touch (now : Z) (s : Session) : Session :=
  mk_session (session_server s) (native_session_id s) now (node_bindings s) (page_bindings s)
    (page_binding_order s) (pages s) (page_order s).

Definition cache_page (s : Session) (key : PageKey) (page : BrowsePage) : Session :=
  let order :=
    match pages s !! key with
    | Some _ => List.filter (fun existing => negb (bool_decide (existing = key))) (page_order s)
    | None => page_order s
    end in
  let '(pages', order') :=
    evict MAX_CACHED_PAGES_PER_SESSION (<[key := page]> (pages s)) (order ++ [key]) in
  mk_session (session_server s) (native_session_id s) (last_used s) (node_bindings s)
    (page_bindings s) (page_binding_order s) pages' order'.

Definition invalidate_parent (s : Session) (parent : option string) : Session :=
  let bindings := filter (fun kv => binding_parent kv.2 <> parent) (page_bindings s) in
  mk_session (session_server s) (native_session_id s) (last_used s) (node_bindings s)
    bindings
    (List.filter (fun token => is_some (bindings !! token)) (page_binding_order s))
    (filter (fun kv => key_parent kv.1 <> parent) (pages s))
    (List.filter (fun key => negb (bool_decide (key_parent key = parent))) (page_order s)).

Definition bind_page (s : Session) (token : string) (binding : PageBinding) : Session :=
  let '(bindings, order) :=
    evict MAX_PAGE_BINDINGS_PER_SESSION (<[token := binding]> (page_bindings s))
      (page_binding_order s ++ [token]) in
  mk_session (session_server s) (native_session_id s) (last_used s) (node_bindings s)
    bindings order (pages s) (page_order s).

Definition bind_node (s : Session) (key native : string) : Session :=
  mk_session (session_server s) (native_session_id s) (last_used s)
    (<[key := native]> (node_bindings s)) (page_bindings s) (page_binding_order s) (pages s)
    (page_order s).

(** ** Expiry *)

Abbreviation Sessions := (gmap string Session).

(** The sessions kept, and the expired ones taken out of the map. *)
Definition remove_expired (sessions : Sessions) (now : Z) : Sessions * list (string * Session) :=
  let cutoff := now - SESSION_TTL in
  (filter (fun kv => ~ last_used kv.2 < cutoff) sessions,
   map_to_list (filter (fun kv => last_used kv.2 < cutoff) sessions)).

(** ** Opening a session *)

Definition capacity_error : Status :=
  mk_status ResourceExhausted "maximum active browse sessions reached".

Definition open_check (sessions : Sessions) : result unit Status :=
  if MAX_ACTIVE_SESSIONS <=? Z.of_nat (size sessions) then Err capacity_error else Ok tt.

(** The new session enters the map, unless the capacity was reached meanwhile: then the
    native session has to be closed. *)
Definition open_commit (sessions : Sessions) (session_id : string) (session : Session) :
    Sessions * option string :=
  if MAX_ACTIVE_SESSIONS <=? Z.of_nat (size sessions)
  then (sessions, Some (native_session_id session))
  else (<[session_id := session]> sessions, None).

(** ** Browsing *)

Definition normalize_page_size (page_size : Z) : result Z Status :=
  let page_size := if page_size =? 0 then DEFAULT_PAGE_SIZE else page_size in
  if MAX_PAGE_SIZE <? page_size
  then Err (mk_status InvalidArgument "page_size must be between 1 and 1000")
  else Ok page_size.

(** What [browse] checks before it uses a session. *)
Definition browse_validate (page_size : Z) (page_token : option string) (refresh : bool) :
    result Z Status :=
  let? page_size := normalize_page_size page_size in
  if refresh && is_some page_token
  then Err (mk_status InvalidArgument "refresh cannot be combined with a browse page token")
  else Ok page_size.

Definition resolve_node (s : Session) (key : string) : result string Status :=
  ok_or (node_bindings s !! key) (mk_status NotFound "browse parent node not found").

Definition resolve_page (s : Session) (key : PageKey) (token : string) : result string Status :=
  let? binding :=
    ok_or (page_bindings s !! token) (mk_status FailedPrecondition "invalid browse page token") in
  if negb (binding_size binding =? key_size key)
  then Err (mk_status FailedPrecondition "browse page token was created for a different page size")
  else if negb (bool_decide (binding_parent binding = key_parent key))
  then Err (mk_status FailedPrecondition "browse page token is bound to a different parent")
  else Ok (native_page_token binding).

(** The native identifiers of a request. *)
Record Resolved := {
  r_session : string;
  r_parent : option string;
  r_token : option string
}.

(** The first section: the session, the native identifiers and a cached page. *)
Definition browse_enter (sessions : Sessions) (server session_id : string) (key : PageKey)
    (refresh : bool) (now : Z) : Sessions * result (Resolved * option BrowsePage) Status :=
  match sessions !! session_id with
  | None => (sessions, Err (mk_status NotFound "browse session not found or expired"))
  | Some session =>
      if negb (bool_decide (session_server session = server))
      then (sessions, Err (mk_status FailedPrecondition
                             "browse session belongs to a different OPC server"))
      else
        let session := touch now session in
        let sessions := <[session_id := session]> sessions in
        match transpose (resolve_node session <$> key_parent key) with
        | Err e => (sessions, Err e)
        | Ok parent =>
            match transpose (resolve_page session key <$> key_token key) with
            | Err e => (sessions, Err e)
            | Ok token =>
                let resolved :=
                  {| r_session := native_session_id session; r_parent := parent;
                     r_token := token |} in
                if refresh
                then (<[session_id := invalidate_parent session (key_parent key)]> sessions,
                      Ok (resolved, None))
                else (sessions, Ok (resolved, pages session !! key))
            end
        end
  end.

Definition closed_error : Status := mk_status NotFound "browse session closed during browse".

(** The second section, under the operation lock: the page another request cached. *)
Definition browse_recheck (sessions : Sessions) (session_id : string) (key : PageKey)
    (refresh : bool) (now : Z) : Sessions * result (option BrowsePage) Status :=
  match sessions !! session_id with
  | None => (sessions, Err closed_error)
  | Some session =>
      let session := touch now session in
      (<[session_id := session]> sessions,
       Ok (if refresh then None else pages session !! key))
  end.

(** A page says whether it is the last one in two ways, which have to agree. *)
Definition validate_page (page : BrowsePage) : result unit Status :=
  if page_complete page && is_some (page_next_page_token page)
  then Err (mk_status Internal
              "OPC client returned a complete browse page with a continuation token")
  else if negb (page_complete page) && negb (is_some (page_next_page_token page))
  then Err (mk_status Internal
              "OPC client returned an incomplete browse page without a continuation token")
  else Ok tt.

Definition bind_nodes (s : Session) (nodes : list (string * BrowseNode)) : Session :=
  fold_left (fun s '(token, node) => bind_node s token (node_key node)) nodes s.

Definition public_node (token : string) (node : BrowseNode) : BrowseNode :=
  {| node_key := token; node_display_name := node_display_name node;
     node_kind := node_kind node; node_item_id := node_item_id node |}.

(** The last section: the nodes and the continuation of a native page get tokens of the
    session, and the page is cached. [node_tokens] has a token for each node. *)
Definition browse_commit (sessions : Sessions) (session_id : string) (key : PageKey)
    (native_page : BrowsePage) (now : Z) (node_tokens : list string) (page_token : string) :
    Sessions * result BrowsePage Status :=
  match sessions !! session_id with
  | None => (sessions, Err closed_error)
  | Some session =>
      let session := touch now session in
      if MAX_NODE_BINDINGS_PER_SESSION
           <? Z.of_nat (size (node_bindings session)) + Z.of_nat (length (page_nodes native_page))
      then (<[session_id := session]> sessions,
            Err (mk_status ResourceExhausted "maximum browse nodes per session reached"))
      else
        let named := combine node_tokens (page_nodes native_page) in
        let session := bind_nodes session named in
        let session :=
          match page_next_page_token native_page with
          | None => session
          | Some native_token =>
              bind_page session page_token
                {| native_page_token := native_token; binding_parent := key_parent key;
                   binding_size := key_size key |}
          end in
        let page :=
          {| page_nodes := map (fun '(token, node) => public_node token node) named;
             page_next_page_token :=
               (fun _ => page_token) <$> page_next_page_token native_page;
             page_complete := page_complete native_page;
             page_organization := page_organization native_page;
             page_source := page_source native_page;
             page_warning := page_warning native_page |} in
        (<[session_id := cache_page session key page]> sessions, Ok page)
  end.

(** ** Closing a session *)

Definition not_found : Status := mk_status NotFound "browse session not found or expired".

Definition close_lookup (sessions : Sessions) (session_id : string) : result string Status :=
  ok_or (native_session_id <$> sessions !! session_id) not_found.

Definition close_remove (sessions : Sessions) (session_id : string) :
    Sessions * result unit Status :=
  (delete session_id sessions,
   ok_or ((fun _ => tt) <$> sessions !! session_id) not_found).
