(* ===== verification/BrowseProtocol.v ===== *)
(** * Concurrent browse requests (browse.rs)

    [open_session], [browse] and [close_session] as tasks that interleave between the
    sections of Browse: at every [await], at every acquisition of an operation lock
    and at every call of the OPC client. A trace records the calls of the client. *)
From S2P Require Import Prelude Text Bounded Opc Rpc Browse.

(** ** Client calls *)

Inductive NativeEvent :=
| NOpen (native : string)
| NBrowse (native : string) (parent token : option string) (size : Z)
| NReturn (native : string) (parent : option string) (size : Z) (page : option BrowsePage)
| NClose (native : string)
| NClosed (native : string).

(** What the client may be asked for one native session: opened once, browsed by one call
    at a time, closed at most once and never used again. *)
Inductive Phase := Fresh | Idle | Busy | Closing | Closed | Violated.
#[export] Instance Phase_eq_dec : EqDecision Phase.
Proof. solve_decision. Defined.

Definition event_native (e : NativeEvent) : string :=
  match e with
  | NOpen n | NBrowse n _ _ _ | NReturn n _ _ _ | NClose n | NClosed n => n
  end.
Definition phase_step (p : Phase) (e : NativeEvent) : Phase :=
  match e, p with
  | NOpen _, Fresh => Idle
  | NBrowse _ _ _ _, Idle => Busy
  | NReturn _ _ _ _, Busy => Idle
  | NClose _, Idle => Closing
  | NClosed _, Closing => Closed
  | _, _ => Violated
  end.
Definition native_phase (n : string) (trace : list NativeEvent) : Phase :=
  fold_left phase_step (List.filter (fun e => bool_decide (event_native e = n)) trace) Fresh.

(** ** Requests *)

Inductive Call :=
| CallOpen (server : string)
| CallBrowse (server : string) (session_id page_parent page_token : option string)
    (page_size : Z) (refresh : bool)
| CallClose (session_id : string).

(** The arguments of [browse_existing]. *)
Record BrowseArgs := {
  arg_server : string;
  arg_session : string;
  arg_key : PageKey;
  arg_refresh : bool;
  arg_temporary : bool
}.

Inductive Outcome :=
| OutSession (session_id : string)
| OutPage (session_id : string) (page : BrowsePage)
| OutClosed.

(** What follows the closing of expired sessions. *)
Inductive Next :=
| NextOpen (server : string) (browse : option (PageKey * bool))
| NextBrowse (server : string) (session_id : option string) (key : PageKey) (refresh : bool).

(** Where a request is. *)
Inductive Pc :=
| Start (call : Call)
| Expiring (expired : list (string * Session)) (next : Next)
| ExpiringCall (session_id : string) (session : Session) (rest : list (string * Session))
    (next : Next)
| Opening (server : string) (browse : option (PageKey * bool))
| Opened (server native : string) (browse : option (PageKey * bool))
| Undoing (native : string)
| Entering (args : BrowseArgs)
| Waiting (args : BrowseArgs) (resolved : Resolved)
| Locked (args : BrowseArgs) (resolved : Resolved)
| Calling (args : BrowseArgs) (resolved : Resolved)
| Returned (args : BrowseArgs) (resolved : Resolved) (page : BrowsePage)
| CloseStart (session_id : string) (failed : option Status)
| CloseWaiting (session_id native : string) (failed : option Status)
| CloseLocked (session_id native : string) (failed : option Status)
| CloseCall (session_id native : string) (failed : option Status)
| Finished (outcome : result Outcome Status).

(** The session whose operation lock the request holds. *)
Definition holds (pc : Pc) : option string :=
  match pc with
  | ExpiringCall sid _ _ _ | CloseLocked sid _ _ | CloseCall sid _ _ => Some sid
  | Locked a _ | Calling a _ | Returned a _ _ => Some (arg_session a)
  | _ => None
  end.

(** What the requests share. [issued] and [history] record the tokens handed out and the
    native session of every gateway session; no operation reads them. *)
Record Shared := mk_shared {
  sessions : Sessions;
  trace : list NativeEvent;
  history : gmap string string;
  issued : gset string
}.

Definition with_sessions (st : Shared) (s : Sessions) : Shared :=
  mk_shared s (trace st) (history st) (issued st).
Definition log (st : Shared) (e : NativeEvent) : Shared :=
  mk_shared (sessions st) (trace st ++ [e]) (history st) (issued st).
Definition record_session (st : Shared) (session_id native : string) : Shared :=
  mk_shared (sessions st) (trace st) (<[session_id := native]> (history st)) (issued st).
Definition issue (st : Shared) (tokens : list string) : Shared :=
  mk_shared (sessions st) (trace st) (history st) (list_to_set tokens ∪ issued st).

(** The end of [browse_existing] in [browse]: a temporary session is closed on error. *)
Definition after_browse (a : BrowseArgs) (r : result BrowsePage Status) : Pc :=
  match r with
  | Ok page => Finished (Ok (OutPage (arg_session a) page))
  | Err e =>
      if arg_temporary a then CloseStart (arg_session a) (Some e) else Finished (Err e)
  end.
(** The end of [close_session], called by the client of the gateway or after an error. *)
Definition after_close (failed : option Status) (r : result unit Status) : Pc :=
  match failed, r with
  | Some e, _ => Finished (Err e)
  | None, Ok _ => Finished (Ok OutClosed)
  | None, Err e => Finished (Err e)
  end.
Definition after_open (server session_id : string) (browse : option (PageKey * bool)) : Pc :=
  match browse with
  | None => Finished (Ok (OutSession session_id))
  | Some (key, refresh) =>
      Entering {| arg_server := server; arg_session := session_id; arg_key := key;
                  arg_refresh := refresh; arg_temporary := true |}
  end.

(** ** The steps of a request

    [free sid] says that no other request holds the operation lock of [sid]. The client
    may answer anything, except that it opens a native session under a new
    identifier; [Uuid::new_v4] draws tokens not drawn before. *)
Section Steps.
Context (free : string -> Prop).

Inductive task_step : Shared -> Pc -> Shared -> Pc -> Prop :=
| step_call_open st server now kept expired closing :
    remove_expired (sessions st) now = (kept, expired) -> Permutation closing expired ->
    task_step st (Start (CallOpen server))
      (with_sessions st kept) (Expiring closing (NextOpen server None))
| step_call_browse st server sid parent token size refresh now kept expired closing :
    remove_expired (sessions st) now = (kept, expired) -> Permutation closing expired ->
    task_step st (Start (CallBrowse server sid parent token size refresh))
      (with_sessions st kept)
      (Expiring closing (NextBrowse server sid
         {| key_parent := parent; key_token := token; key_size := size |} refresh))
| step_call_close st sid :
    task_step st (Start (CallClose sid)) st (CloseStart sid None)
| step_expire st sid session rest next :
    free sid ->
    task_step st (Expiring ((sid, session) :: rest) next)
      (log st (NClose (native_session_id session))) (ExpiringCall sid session rest next)
| step_expire_closed st sid session rest next :
    task_step st (ExpiringCall sid session rest next)
      (log st (NClosed (native_session_id session))) (Expiring rest next)
| step_open_rejected st server browse e :
    open_check (sessions st) = Err e ->
    task_step st (Expiring [] (NextOpen server browse)) st (Finished (Err e))
| step_open st server browse :
    open_check (sessions st) = Ok tt ->
    task_step st (Expiring [] (NextOpen server browse)) st (Opening server browse)
| step_browse_rejected st server sid key refresh e :
    browse_validate (key_size key) (key_token key) refresh = Err e ->
    task_step st (Expiring [] (NextBrowse server sid key refresh)) st (Finished (Err e))
| step_browse st server sid key refresh size :
    browse_validate (key_size key) (key_token key) refresh = Ok size ->
    task_step st (Expiring [] (NextBrowse server (Some sid) key refresh)) st
      (Entering {| arg_server := server; arg_session := sid;
                   arg_key := {| key_parent := key_parent key; key_token := key_token key;
                                 key_size := size |};
                   arg_refresh := refresh; arg_temporary := false |})
| step_browse_open st server key refresh size now kept expired closing :
    browse_validate (key_size key) (key_token key) refresh = Ok size ->
    remove_expired (sessions st) now = (kept, expired) -> Permutation closing expired ->
    task_step st (Expiring [] (NextBrowse server None key refresh))
      (with_sessions st kept)
      (Expiring closing (NextOpen server
         (Some ({| key_parent := key_parent key; key_token := key_token key;
                   key_size := size |}, refresh))))
| step_opened st server native browse :
    native_phase native (trace st) = Fresh ->
    task_step st (Opening server browse) (log st (NOpen native)) (Opened server native browse)
| step_open_failed st server browse error :
    task_step st (Opening server browse) st (Finished (Err (mk_status Unavailable error)))
| step_open_commit st server native browse sid now sessions' :
    history st !! sid = None ->
    open_commit (sessions st) sid (new_session server native now) = (sessions', None) ->
    task_step st (Opened server native browse)
      (record_session (with_sessions st sessions') sid native) (after_open server sid browse)
| step_open_undo st server native browse sid now sessions' undo :
    open_commit (sessions st) sid (new_session server native now) = (sessions', Some undo) ->
    task_step st (Opened server native browse)
      (log (with_sessions st sessions') (NClose undo)) (Undoing undo)
| step_undone st native :
    task_step st (Undoing native) (log st (NClosed native)) (Finished (Err capacity_error))
| step_enter_failed st a now sessions' e :
    browse_enter (sessions st) (arg_server a) (arg_session a) (arg_key a) (arg_refresh a) now
      = (sessions', Err e) ->
    task_step st (Entering a) (with_sessions st sessions') (after_browse a (Err e))
| step_enter_cached st a now sessions' r page :
    browse_enter (sessions st) (arg_server a) (arg_session a) (arg_key a) (arg_refresh a) now
      = (sessions', Ok (r, Some page)) ->
    task_step st (Entering a) (with_sessions st sessions') (after_browse a (Ok page))
| step_enter st a now sessions' r :
    browse_enter (sessions st) (arg_server a) (arg_session a) (arg_key a) (arg_refresh a) now
      = (sessions', Ok (r, None)) ->
    task_step st (Entering a) (with_sessions st sessions') (Waiting a r)
| step_lock st a r :
    free (arg_session a) -> task_step st (Waiting a r) st (Locked a r)
| step_recheck_failed st a r now sessions' e :
    browse_recheck (sessions st) (arg_session a) (arg_key a) (arg_refresh a) now
      = (sessions', Err e) ->
    task_step st (Locked a r) (with_sessions st sessions') (after_browse a (Err e))
| step_recheck_cached st a r now sessions' page :
    browse_recheck (sessions st) (arg_session a) (arg_key a) (arg_refresh a) now
      = (sessions', Ok (Some page)) ->
    task_step st (Locked a r) (with_sessions st sessions') (after_browse a (Ok page))
| step_recheck st a r now sessions' :
    browse_recheck (sessions st) (arg_session a) (arg_key a) (arg_refresh a) now
      = (sessions', Ok None) ->
    task_step st (Locked a r)
      (log (with_sessions st sessions')
         (NBrowse (r_session r) (r_parent r) (r_token r) (key_size (arg_key a))))
      (Calling a r)
| step_failed st a r error :
    task_step st (Calling a r)
      (log st (NReturn (r_session r) (r_parent r) (key_size (arg_key a)) None))
      (after_browse a (Err (mk_status Unavailable error)))
| step_invalid st a r page e :
    validate_page page = Err e ->
    task_step st (Calling a r)
      (log st (NReturn (r_session r) (r_parent r) (key_size (arg_key a)) (Some page)))
      (after_browse a (Err e))
| step_returned st a r page :
    validate_page page = Ok tt ->
    task_step st (Calling a r)
      (log st (NReturn (r_session r) (r_parent r) (key_size (arg_key a)) (Some page)))
      (Returned a r page)
| step_commit st a r page now tokens token sessions' result :
    NoDup (token :: tokens) -> (forall x, x ∈ token :: tokens -> x ∉ issued st) ->
    length tokens = length (page_nodes page) ->
    browse_commit (sessions st) (arg_session a) (arg_key a) page now tokens token
      = (sessions', result) ->
    task_step st (Returned a r page)
      (issue (with_sessions st sessions') (token :: tokens)) (after_browse a result)
| step_close_missing st sid failed e :
    close_lookup (sessions st) sid = Err e ->
    task_step st (CloseStart sid failed) st (after_close failed (Err e))
| step_close st sid failed native :
    close_lookup (sessions st) sid = Ok native ->
    task_step st (CloseStart sid failed) st (CloseWaiting sid native failed)
| step_close_lock st sid native failed :
    free sid -> task_step st (CloseWaiting sid native failed) st (CloseLocked sid native failed)
| step_close_gone st sid native failed sessions' e :
    close_remove (sessions st) sid = (sessions', Err e) ->
    task_step st (CloseLocked sid native failed) (with_sessions st sessions')
      (after_close failed (Err e))
| step_close_remove st sid native failed sessions' :
    close_remove (sessions st) sid = (sessions', Ok tt) ->
    task_step st (CloseLocked sid native failed)
      (log (with_sessions st sessions') (NClose native)) (CloseCall sid native failed)
| step_closed st sid native failed r :
    task_step st (CloseCall sid native failed) (log st (NClosed native)) (after_close failed r).

End Steps.

(** ** The system *)

Record World := mk_world { shared : Shared; tasks : gmap nat Pc }.

Definition initial : World := mk_world (mk_shared ∅ [] ∅ ∅) ∅.

Definition lock_free (w : World) (t : nat) (sid : string) : Prop :=
  forall t' pc, tasks w !! t' = Some pc -> holds pc = Some sid -> t' = t.

Inductive step : World -> World -> Prop :=
| step_spawn w t call :
    tasks w !! t = None -> step w (mk_world (shared w) (<[t := Start call]> (tasks w)))
| step_task w t pc st' pc' :
    tasks w !! t = Some pc -> task_step (lock_free w t) (shared w) pc st' pc' ->
    step w (mk_world st' (<[t := pc']> (tasks w))).

Inductive reachable : World -> Prop :=
| reachable_initial : reachable initial
| reachable_step w w' : reachable w -> step w w' -> reachable w'.
