(* ===== verification/BrowseSafety.v ===== *)
(** * Safety of concurrent browsing

    The client is used as its protocol demands in every interleaving: invariants of
    the system of BrowseProtocol, and the properties that follow. *)
From S2P Require Import Prelude Text Bounded Opc Rpc Browse BrowseProtocol.

(** ** The part of a request the invariant is about *)

Record View := mk_view {
  v_custody : list string;          (* native sessions it has to close or to store *)
  v_closing : option string;        (* the one it is closing *)
  v_calling : option string;        (* the one it is browsing *)
  v_opened : option string;         (* the one it opened *)
  v_holds : option string;          (* the operation lock it holds *)
  v_knows : list (string * string)  (* gateway sessions with their native sessions *)
}.

Definition expired_natives (l : list (string * Session)) : list string :=
  map (fun p => native_session_id p.2) l.
Definition expired_knows (l : list (string * Session)) : list (string * string) :=
  map (fun p => (p.1, native_session_id p.2)) l.

Definition view (pc : Pc) : View :=
  match pc with
  | Expiring l _ => mk_view (expired_natives l) None None None None (expired_knows l)
  | ExpiringCall sid s rest _ =>
      mk_view (native_session_id s :: expired_natives rest) (Some (native_session_id s)) None None
        (Some sid) ((sid, native_session_id s) :: expired_knows rest)
  | Opened _ n _ => mk_view [n] None None (Some n) None []
  | Undoing n => mk_view [n] (Some n) None None None []
  | Waiting a r => mk_view [] None None None None [(arg_session a, r_session r)]
  | Locked a r | Returned a r _ =>
      mk_view [] None None None (Some (arg_session a)) [(arg_session a, r_session r)]
  | Calling a r =>
      mk_view [] None (Some (r_session r)) None (Some (arg_session a))
        [(arg_session a, r_session r)]
  | CloseWaiting sid n _ => mk_view [] None None None None [(sid, n)]
  | CloseLocked sid n _ => mk_view [] None None None (Some sid) [(sid, n)]
  | CloseCall sid n _ => mk_view [n] (Some n) None None (Some sid) [(sid, n)]
  | _ => mk_view [] None None None None []
  end.

Lemma view_holds pc : v_holds (view pc) = holds pc.
Proof. by destruct pc. Qed.

Definition live (w : World) : gmap string string :=
  native_session_id <$> sessions (shared w).

(** A native session is open and not being closed. *)
Definition usable (p : Phase) : Prop := p = Idle \/ p = Busy.

(** The invariant, in terms of the native sessions in the map, the phases the trace
    gives them, the history and the views of the requests. *)
Record inv (L : gmap string string) (P : string -> Phase) (H : gmap string string)
    (V : gmap nat View) : Prop := {
  inv_live : forall sid n, L !! sid = Some n -> H !! sid = Some n /\ usable (P n);
  inv_inj : forall s1 s2 n, H !! s1 = Some n -> H !! s2 = Some n -> s1 = s2;
  inv_history : forall sid n, H !! sid = Some n -> P n <> Fresh;
  inv_knows : forall t v sid n, V !! t = Some v -> (sid, n) ∈ v_knows v -> H !! sid = Some n;
  inv_locks : forall t t' v v' sid, V !! t = Some v -> V !! t' = Some v' ->
    v_holds v = Some sid -> v_holds v' = Some sid -> t = t';
  inv_nodup : forall t v, V !! t = Some v -> NoDup (v_custody v);
  inv_custody_live : forall t v n sid, V !! t = Some v -> n ∈ v_custody v -> L !! sid <> Some n;
  inv_custody : forall t t' v v' n, V !! t = Some v -> V !! t' = Some v' ->
    n ∈ v_custody v -> n ∈ v_custody v' -> t = t';
  inv_phase : forall t v n, V !! t = Some v -> n ∈ v_custody v ->
    (v_closing v = Some n -> P n = Closing) /\ (v_closing v <> Some n -> usable (P n));
  inv_opened : forall t v n, V !! t = Some v -> v_opened v = Some n ->
    n ∈ v_custody v /\ forall sid, H !! sid <> Some n;
  inv_calling : forall t v n, V !! t = Some v -> v_calling v = Some n ->
    P n = Busy /\ exists sid, v_holds v = Some sid /\ (sid, n) ∈ v_knows v;
  inv_busy : forall n, P n = Busy -> exists t v, V !! t = Some v /\ v_calling v = Some n;
  inv_owned : forall n, usable (P n) \/ P n = Closing ->
    (exists sid, L !! sid = Some n) \/ (exists t v, V !! t = Some v /\ n ∈ v_custody v);
  inv_safe : forall n, P n <> Violated
}.

(** The views after a step of one request. *)
Lemma views_cases (V : gmap nat View) t v' t' v :
  <[t := v']> V !! t' = Some v -> (t' = t /\ v = v') \/ (t' <> t /\ V !! t' = Some v).
Proof. intros [[-> ->]|[? ?]]%lookup_insert_Some; [by left|right; by split]. Qed.

Ltac split_views :=
  repeat match goal with
  | H : <[_ := _]> _ !! _ = Some _ |- _ =>
      apply views_cases in H as [[-> ->]|[? H]]
  end.

(** Something a request of the old state does, one of the new state does as well. *)
Lemma views_exists (V : gmap nat View) t v v' (Q : View -> Prop) :
  V !! t = Some v -> (Q v -> Q v') ->
  (exists t1 v1, V !! t1 = Some v1 /\ Q v1) ->
  exists t1 v1, <[t := v']> V !! t1 = Some v1 /\ Q v1.
Proof.
  intros Hv Hq (t1 & v1 & H1 & Q1). destruct (decide (t1 = t)) as [->|].
  - exists t, v'. rewrite lookup_insert_eq. split; [done|]. apply Hq. congruence.
  - exists t1, v1. by rewrite lookup_insert_ne by done.
Qed.

(** A request that takes an operation lock. *)
Definition lockable (V : gmap nat View) (t : nat) (v v' : View) : Prop :=
  forall sid, v_holds v' = Some sid ->
    v_holds v = Some sid \/ forall t' u, V !! t' = Some u -> v_holds u = Some sid -> t' = t.

Lemma locks_step V t v v' :
  V !! t = Some v -> lockable V t v v' ->
  (forall t1 t2 v1 v2 sid, V !! t1 = Some v1 -> V !! t2 = Some v2 ->
     v_holds v1 = Some sid -> v_holds v2 = Some sid -> t1 = t2) ->
  forall t1 t2 v1 v2 sid, <[t := v']> V !! t1 = Some v1 -> <[t := v']> V !! t2 = Some v2 ->
     v_holds v1 = Some sid -> v_holds v2 = Some sid -> t1 = t2.
Proof.
  intros Hv Hl Hold t1 t2 v1 v2 sid H1 H2 S1 S2.
  apply views_cases in H1 as [[-> ->]|[N1 H1]], H2 as [[-> ->]|[N2 H2]]; [done|..].
  - destruct (Hl sid S1) as [S1'|Hf]; [by eapply (Hold t t2)|]. symmetry. by eapply Hf.
  - destruct (Hl sid S2) as [S2'|Hf]; [by eapply (Hold t1 t)|]. by eapply Hf.
  - by eapply (Hold t1 t2).
Qed.

(** ** Steps of the invariant *)

Section InvSteps.
Context (L : gmap string string) (P : string -> Phase) (H : gmap string string)
  (V : gmap nat View) (Hinv : inv L P H V).
Context (t : nat) (v v' : View) (Hv : V !! t = Some v) (Hlock : lockable V t v v').

Definition knows_valid (H : gmap string string) (v : View) : Prop :=
  forall sid n, (sid, n) ∈ v_knows v -> H !! sid = Some n.

(** The request learns or forgets sessions and takes or releases its lock. *)
Lemma inv_quiet :
  v_custody v' = v_custody v -> v_closing v' = v_closing v -> v_calling v' = None ->
  v_calling v = None -> v_opened v' = None -> knows_valid H v' ->
  inv L P H (<[t := v']> V).
Proof.
  intros Hc Hcl Hca Hca' Ho Hk. split; [apply Hinv..| | | | | | | | | | |apply Hinv].
  - intros t1 v1 sid n H1 Hin. split_views; [by apply Hk|by eapply inv_knows].
  - eapply locks_step; [done|done|apply Hinv].
  - intros t1 v1 H1. split_views; [rewrite Hc|]; by eapply inv_nodup.
  - intros t1 v1 n sid H1 Hin. split_views; [rewrite Hc in Hin|]; by eapply inv_custody_live.
  - intros t1 t2 v1 v2 n H1 H2 I1 I2.
    apply views_cases in H1 as [[-> ->]|[N1 H1]], H2 as [[-> ->]|[N2 H2]]; rewrite ?Hc in *;
      [done|by eapply (inv_custody _ _ _ _ Hinv)..].
  - intros t1 v1 n H1 Hin. split_views; [rewrite Hc in Hin; rewrite Hcl|]; by eapply inv_phase.
  - intros t1 v1 n H1 Hn. split_views; [congruence|by eapply inv_opened].
  - intros t1 v1 n H1 Hn. split_views; [congruence|by eapply inv_calling].
  - intros n Hb. eapply (views_exists _ _ _ _ (fun u => v_calling u = Some n)); [done|congruence|].
    by apply (inv_busy _ _ _ _ Hinv).
  - intros n Hn. destruct (inv_owned _ _ _ _ Hinv n Hn) as [Hl|He]; [by left|right].
    eapply (views_exists _ _ _ _ (fun u => n ∈ v_custody u)); [done|by rewrite Hc|done].
Qed.

(** The request takes sessions out of the map. *)
Lemma inv_take L' :
  v_custody v = [] -> v_closing v' = None -> v_calling v' = None -> v_calling v = None ->
  v_opened v' = None -> knows_valid H v' -> NoDup (v_custody v') -> L' ⊆ L ->
  (forall sid n, L !! sid = Some n -> L' !! sid = Some n \/ n ∈ v_custody v') ->
  (forall n, n ∈ v_custody v' -> exists sid, L !! sid = Some n /\ L' !! sid = None) ->
  inv L' P H (<[t := v']> V).
Proof.
  intros Hc Hcl Hca Hca' Ho Hk Hnd Hsub Hkeep Htake.
  assert (Hsub' : forall sid n, L' !! sid = Some n -> L !! sid = Some n).
  { intros sid n Hs. by eapply lookup_weaken. }
  assert (Hgone : forall n sid, n ∈ v_custody v' -> L' !! sid <> Some n).
  { intros n sid Hn Hs. destruct (Htake n Hn) as (sid' & H1 & H2).
    apply (inv_live _ _ _ _ Hinv) in H1 as [H1 _].
    pose proof (inv_live _ _ _ _ Hinv _ _ (Hsub' _ _ Hs)) as [H3 _].
    rewrite (inv_inj _ _ _ _ Hinv _ _ _ H3 H1) in Hs. congruence. }
  assert (Hothers : forall t1 v1 n, V !! t1 = Some v1 -> n ∈ v_custody v1 -> n ∉ v_custody v').
  { intros t1 v1 n H1 Hn Hn'. destruct (Htake n Hn') as (sid & H2 & _).
    by eapply (inv_custody_live _ _ _ _ Hinv). }
  split; [|apply Hinv..| | | | | | | | | | |apply Hinv].
  - intros sid n Hs. by apply (inv_live _ _ _ _ Hinv), Hsub'.
  - intros t1 v1 sid n H1 Hin. split_views; [by apply Hk|by eapply inv_knows].
  - eapply locks_step; [done|done|apply Hinv].
  - intros t1 v1 H1. split_views; [done|]; by eapply inv_nodup.
  - intros t1 v1 n sid H1 Hin Hs. split_views; [by eapply Hgone|].
    eapply inv_custody_live; [done..|by apply Hsub'].
  - intros t1 t2 v1 v2 n H1 H2 I1 I2.
    apply views_cases in H1 as [[-> ->]|[N1 H1]], H2 as [[-> ->]|[N2 H2]]; [done|..].
    + by destruct (Hothers t2 v2 n).
    + by destruct (Hothers t1 v1 n).
    + by eapply (inv_custody _ _ _ _ Hinv).
  - intros t1 v1 n H1 Hin. split_views; [|by eapply inv_phase]. rewrite Hcl. split; [done|].
    intros _. destruct (Htake n Hin) as (sid & H1 & _). by eapply (inv_live _ _ _ _ Hinv).
  - intros t1 v1 n H1 Hn. split_views; [congruence|by eapply inv_opened].
  - intros t1 v1 n H1 Hn. split_views; [congruence|by eapply inv_calling].
  - intros n Hb. eapply (views_exists _ _ _ _ (fun u => v_calling u = Some n)); [done|congruence|].
    by apply (inv_busy _ _ _ _ Hinv).
  - intros n Hn. destruct (inv_owned _ _ _ _ Hinv n Hn) as [[sid Hl]|He].
    + destruct (Hkeep sid n Hl) as [?|?]; [by left; exists sid|right].
      exists t, v'. by rewrite lookup_insert_eq.
    + right. eapply (views_exists _ _ _ _ (fun u => n ∈ v_custody u)); [done| |done].
      rewrite Hc. by intros ?%elem_of_nil.
Qed.

(** The request stores the session it opened. *)
Lemma inv_commit sid n :
  H !! sid = None -> v_custody v = [n] -> v_closing v = None -> v_calling v = None ->
  v_opened v = Some n -> v' = mk_view [] None None None None [] ->
  inv (<[sid := n]> L) P (<[sid := n]> H) (<[t := v']> V).
Proof.
  intros Hs Hc Hcl Hca Ho Hv'.
  assert (HLs : L !! sid = None).
  { destruct (L !! sid) as [m|] eqn:E; [|done]. apply (inv_live _ _ _ _ Hinv) in E as [E _].
    congruence. }
  assert (Hn : n ∈ v_custody v) by (rewrite Hc; by apply list_elem_of_singleton).
  destruct (inv_opened _ _ _ _ Hinv t v n Hv Ho) as [_ Hnew].
  destruct (inv_phase _ _ _ _ Hinv _ _ _ Hv Hn) as [_ Hu].
  assert (Husable : usable (P n)) by (apply Hu; by rewrite Hcl).
  assert (Hne : forall t1 v1 m, V !! t1 = Some v1 -> t1 <> t -> m ∈ v_custody v1 -> m <> n).
  { intros t1 v1 m H1 Ht Hm ->. apply Ht. by eapply (inv_custody _ _ _ _ Hinv). }
  split.
  - intros s m Hm. apply lookup_insert_Some in Hm as [[<- <-]|[Hsm Hm]].
    + by rewrite lookup_insert_eq.
    + rewrite lookup_insert_ne by done. by apply (inv_live _ _ _ _ Hinv).
  - intros s1 s2 m H1 H2. apply lookup_insert_Some in H1 as [[<- <-]|[N1 H1]],
      H2 as [[<- E2]|[N2 H2]]; [done|by destruct (Hnew s2)|subst m; by destruct (Hnew s1)|].
    by eapply (inv_inj _ _ _ _ Hinv).
  - intros s m Hm. apply lookup_insert_Some in Hm as [[<- <-]|[Hsm Hm]].
    + by destruct Husable as [->| ->].
    + by eapply (inv_history _ _ _ _ Hinv).
  - intros t1 v1 s m H1 Hin. split_views; [subst v'; by apply elem_of_nil in Hin|].
    rewrite lookup_insert_ne; [by eapply inv_knows|]. intros <-.
    pose proof (inv_knows _ _ _ _ Hinv _ _ _ _ H1 Hin). congruence.
  - eapply locks_step; [done|done|apply Hinv].
  - intros t1 v1 H1. split_views; [subst v'; constructor|by eapply inv_nodup].
  - intros t1 v1 m s H1 Hin Hm. split_views; [subst v'; by apply elem_of_nil in Hin|].
    apply lookup_insert_Some in Hm as [[<- <-]|[Hsm Hm]]; [by eapply Hne|].
    by eapply (inv_custody_live _ _ _ _ Hinv).
  - intros t1 t2 v1 v2 m H1 H2 I1 I2.
    apply views_cases in H1 as [[-> ->]|[N1 H1]], H2 as [[-> ->]|[N2 H2]]; [done|..];
      rewrite ?Hv' in *; [by apply elem_of_nil in I1|by apply elem_of_nil in I2|].
    by eapply (inv_custody _ _ _ _ Hinv).
  - intros t1 v1 m H1 Hin. split_views; [subst v'; by apply elem_of_nil in Hin|by eapply inv_phase].
  - intros t1 v1 m H1 Hm. apply views_cases in H1 as [[-> ->]|[N1 H1]]; [by subst v'|].
    destruct (inv_opened _ _ _ _ Hinv _ _ _ H1 Hm) as [Hm1 Hm2]. split; [done|]. intros s Hsm.
    apply lookup_insert_Some in Hsm as [[<- <-]|[? Hsm]]; [|by destruct (Hm2 s)].
    by apply (Hne t1 v1 n).
  - intros t1 v1 m H1 Hm. split_views; [by subst v'|by eapply inv_calling].
  - intros m Hb. eapply (views_exists _ _ _ _ (fun u => v_calling u = Some m)); [done|congruence|].
    by apply (inv_busy _ _ _ _ Hinv).
  - intros m Hm. destruct (decide (m = n)) as [->|Hmn].
    + left. exists sid. by rewrite lookup_insert_eq.
    + destruct (inv_owned _ _ _ _ Hinv m Hm) as [[s Hl]|He].
      * left. exists s. rewrite lookup_insert_ne; [done|congruence].
      * right. eapply (views_exists _ _ _ _ (fun u => m ∈ v_custody u)); [done| |done].
        rewrite Hc. by intros ->%list_elem_of_singleton.
  - apply Hinv.
Qed.

(** *** Steps that change the phase of one native session *)

Context (P' : string -> Phase) (n : string) (p : Phase).
Context (HP : forall m, P' m = if decide (m = n) then p else P m).

Lemma phase_same : P' n = p.
Proof. rewrite HP. by rewrite decide_True. Qed.
Lemma phase_other m : m <> n -> P' m = P m.
Proof. intros. rewrite HP. by rewrite decide_False. Qed.

(** The client opened the native session for the request. *)
Lemma inv_open :
  p = Idle -> P n = Fresh -> v_custody v = [] -> v_calling v = None ->
  v_custody v' = [n] -> v_closing v' = None -> v_calling v' = None -> v_knows v' = [] ->
  v_opened v' = Some n -> inv L P' H (<[t := v']> V).
Proof.
  intros Hp Hf Hc Hca Hc' Hcl Hca' Hk Ho.
  assert (Hnl : forall sid, H !! sid <> Some n).
  { intros sid Hs. by eapply (inv_history _ _ _ _ Hinv). }
  assert (Hnc : forall t1 v1, V !! t1 = Some v1 -> n ∉ v_custody v1).
  { intros t1 v1 H1 Hn. destruct (inv_phase _ _ _ _ Hinv _ _ _ H1 Hn) as [H2 H3].
    rewrite Hf in *. destruct (decide (v_closing v1 = Some n)) as [Hd|Hd]; [by specialize (H2 Hd)|].
    by destruct (H3 Hd). }
  split.
  - intros sid m Hs. pose proof (inv_live _ _ _ _ Hinv _ _ Hs) as [H1 H2]. split; [done|].
    rewrite phase_other; [done|]. intros ->. by destruct (Hnl sid).
  - apply Hinv.
  - intros sid m Hs. rewrite phase_other; [by eapply (inv_history _ _ _ _ Hinv)|].
    intros ->. by destruct (Hnl sid).
  - intros t1 v1 sid m H1 Hin. split_views; [|by eapply inv_knows].
    rewrite Hk in Hin. by apply elem_of_nil in Hin.
  - eapply locks_step; [done|done|apply Hinv].
  - intros t1 v1 H1. split_views; [rewrite Hc'; apply NoDup_singleton|]; by eapply inv_nodup.
  - intros t1 v1 m sid H1 Hin Hs. split_views; [|by eapply inv_custody_live].
    rewrite Hc' in Hin. apply list_elem_of_singleton in Hin as ->.
    apply (inv_live _ _ _ _ Hinv) in Hs as [Hs _]. by destruct (Hnl sid).
  - intros t1 t2 v1 v2 m H1 H2 I1 I2.
    apply views_cases in H1 as [[-> ->]|[N1 H1]], H2 as [[-> ->]|[N2 H2]]; [done|..].
    + rewrite Hc' in I1. apply list_elem_of_singleton in I1 as ->. by destruct (Hnc t2 v2).
    + rewrite Hc' in I2. apply list_elem_of_singleton in I2 as ->. by destruct (Hnc t1 v1).
    + by eapply (inv_custody _ _ _ _ Hinv).
  - intros t1 v1 m H1 Hin. split_views.
    + rewrite Hc' in Hin. apply list_elem_of_singleton in Hin as ->. rewrite Hcl, phase_same, Hp.
      split; [done|by left].
    + rewrite phase_other; [by eapply inv_phase|]. intros ->. by destruct (Hnc t1 v1).
  - intros t1 v1 m H1 Hn. split_views; [|by eapply inv_opened].
    rewrite Ho in Hn. injection Hn as <-. split; [|apply Hnl].
    rewrite Hc'. by apply list_elem_of_singleton.
  - intros t1 v1 m H1 Hn. split_views; [congruence|].
    destruct (inv_calling _ _ _ _ Hinv _ _ _ H1 Hn) as [Hb He]. split; [|done].
    rewrite phase_other; [done|congruence].
  - intros m Hb. destruct (decide (m = n)) as [->|Hm]; [by rewrite phase_same, Hp in Hb|].
    rewrite phase_other in Hb by done.
    eapply (views_exists _ _ _ _ (fun u => v_calling u = Some m)); [done|congruence|].
    by apply (inv_busy _ _ _ _ Hinv).
  - intros m Hm. destruct (decide (m = n)) as [->|Hne].
    + right. exists t, v'. rewrite lookup_insert_eq, Hc'. split; [done|].
      by apply list_elem_of_singleton.
    + rewrite phase_other in Hm by done.
      destruct (inv_owned _ _ _ _ Hinv m Hm) as [Hl|He]; [by left|right].
      eapply (views_exists _ _ _ _ (fun u => m ∈ v_custody u)); [done| |done].
      rewrite Hc. by intros ?%elem_of_nil.
  - intros m. destruct (decide (m = n)) as [->|Hne]; [by rewrite phase_same, Hp|].
    rewrite phase_other by done. apply Hinv.
Qed.

(** An idle session: no request browses the native session of a lock held by another. *)
Lemma idle_of_lock sid :
  v_calling v = None -> (forall t' u, V !! t' = Some u -> v_holds u = Some sid -> t' = t) ->
  H !! sid = Some n -> usable (P n) -> P n = Idle.
Proof.
  intros Hca Hfree Hs [?|Hb]; [done|].
  destruct (inv_busy _ _ _ _ Hinv n Hb) as (t1 & v1 & H1 & C1).
  destruct (inv_calling _ _ _ _ Hinv _ _ _ H1 C1) as (_ & sid1 & S1 & K1).
  pose proof (inv_knows _ _ _ _ Hinv _ _ _ _ H1 K1) as Hs1.
  rewrite (inv_inj _ _ _ _ Hinv _ _ _ Hs1 Hs) in S1.
  pose proof (Hfree _ _ H1 S1) as ->. congruence.
Qed.

(** Nor one another request just opened. *)
Lemma idle_of_opened : v_opened v = Some n -> usable (P n) -> P n = Idle.
Proof.
  intros Ho [?|Hb]; [done|].
  destruct (inv_busy _ _ _ _ Hinv n Hb) as (t1 & v1 & H1 & C1).
  destruct (inv_calling _ _ _ _ Hinv _ _ _ H1 C1) as (_ & sid1 & S1 & K1).
  pose proof (inv_knows _ _ _ _ Hinv _ _ _ _ H1 K1) as Hs1.
  by destruct (inv_opened _ _ _ _ Hinv _ _ _ Hv Ho) as [_ Hno]; destruct (Hno sid1).
Qed.

(** The request's custody is its own. *)
Lemma custody_mine t1 v1 m : V !! t1 = Some v1 -> m ∈ v_custody v1 -> m ∈ v_custody v -> t1 = t.
Proof. intros H1 I1 I2. by eapply (inv_custody _ _ _ _ Hinv). Qed.

(** One request browses a native session at a time. *)
Lemma caller_unique t1 v1 t2 v2 m :
  V !! t1 = Some v1 -> V !! t2 = Some v2 ->
  v_calling v1 = Some m -> v_calling v2 = Some m -> t1 = t2.
Proof.
  intros H1 H2 C1 C2.
  destruct (inv_calling _ _ _ _ Hinv _ _ _ H1 C1) as (_ & s1 & S1 & K1).
  destruct (inv_calling _ _ _ _ Hinv _ _ _ H2 C2) as (_ & s2 & S2 & K2).
  pose proof (inv_knows _ _ _ _ Hinv _ _ _ _ H1 K1) as E1.
  pose proof (inv_knows _ _ _ _ Hinv _ _ _ _ H2 K2) as E2.
  rewrite (inv_inj _ _ _ _ Hinv _ _ _ E1 E2) in S1. by eapply (inv_locks _ _ _ _ Hinv).
Qed.

(** The request asks the client to close or to browse the native session, or has the
    client's answer: [p] is the phase that follows. *)
Section PhaseChange.
Context (Hp : p <> Fresh /\ p <> Violated) (Hpn : P n <> Fresh) (Hopened : v_opened v' = None)
  (Hknows : knows_valid H v') (Hnodup : NoDup (v_custody v')).
Context (Hmem : forall m, m ∈ v_custody v' <-> m ∈ v_custody v /\ (p = Closed -> m <> n)).
Context (Hclosing' : forall m, v_closing v' = Some m <-> p = Closing /\ m = n)
  (Hclosing : forall m, v_closing v = Some m -> p = Closed /\ m = n).
Context (Hcalling' : forall m, v_calling v' = Some m <-> p = Busy /\ m = n)
  (Hcalling : forall m, v_calling v = Some m -> m = n) (Hbusy : P n = Busy -> v_calling v = Some n)
  (Hheld : p = Busy -> exists sid, v_holds v' = Some sid /\ (sid, n) ∈ v_knows v').
Context (Hcase : (usable p /\ n ∉ v_custody v /\ usable (P n)) \/
                 ((p = Closing \/ p = Closed) /\ n ∈ v_custody v)).

Lemma change_live sid m : L !! sid = Some m -> H !! sid = Some m /\ usable (P' m).
Proof.
  intros Hs. pose proof (inv_live _ _ _ _ Hinv _ _ Hs) as [H1 H2]. split; [done|].
  destruct (decide (m = n)) as [->|Hne]; [|by rewrite phase_other].
  rewrite phase_same. destruct Hcase as [[? _]|[_ Hn]]; [done|].
  by destruct (inv_custody_live _ _ _ _ Hinv _ _ _ sid Hv Hn).
Qed.

Lemma change_phase t1 v1 m : <[t := v']> V !! t1 = Some v1 -> m ∈ v_custody v1 ->
  (v_closing v1 = Some m -> P' m = Closing) /\ (v_closing v1 <> Some m -> usable (P' m)).
Proof.
  intros H1 Hin. split_views.
  - rewrite Hclosing'. apply Hmem in Hin as [Hin Hc]. split.
    + intros [Hpc ->]. by rewrite phase_same.
    + intros Hno. destruct (decide (m = n)) as [->|Hne].
      * rewrite phase_same. destruct Hcase as [[? _]|[[?|?] _]]; [done|tauto|by destruct Hc].
      * rewrite phase_other by done. apply (inv_phase _ _ _ _ Hinv _ _ _ Hv Hin).
        intros [_ ?]%Hclosing. done.
  - destruct (inv_phase _ _ _ _ Hinv _ _ _ H1 Hin) as [Hc Hu].
    destruct (decide (m = n)) as [->|Hne]; [|by rewrite phase_other].
    rewrite phase_same. destruct Hcase as [(Hup & _ & Hun)|[_ Hn]].
    + split; [|done]. intros Hcl. specialize (Hc Hcl). destruct Hun; congruence.
    + by pose proof (custody_mine _ _ _ H1 Hin Hn).
Qed.

Lemma change_calling t1 v1 m : <[t := v']> V !! t1 = Some v1 -> v_calling v1 = Some m ->
  P' m = Busy /\ exists sid, v_holds v1 = Some sid /\ (sid, m) ∈ v_knows v1.
Proof.
  intros H1 Hc. split_views.
  - apply Hcalling' in Hc as [Hb ->]. rewrite phase_same. by split; [|apply Hheld].
  - destruct (inv_calling _ _ _ _ Hinv _ _ _ H1 Hc) as [Hb He]. split; [|done].
    rewrite phase_other; [done|]. intros ->.
    by pose proof (caller_unique _ _ _ _ _ H1 Hv Hc (Hbusy Hb)).
Qed.

Lemma change_busy m : P' m = Busy ->
  exists t1 v1, <[t := v']> V !! t1 = Some v1 /\ v_calling v1 = Some m.
Proof.
  intros Hb. destruct (decide (m = n)) as [->|Hne].
  - rewrite phase_same in Hb. exists t, v'. rewrite lookup_insert_eq. split; [done|].
    by apply Hcalling'.
  - rewrite phase_other in Hb by done.
    eapply (views_exists _ _ _ _ (fun u => v_calling u = Some m)); [done| |].
    + intros Hm. by apply Hcalling in Hm.
    + by apply (inv_busy _ _ _ _ Hinv).
Qed.

Lemma change_owned m : usable (P' m) \/ P' m = Closing ->
  (exists sid, L !! sid = Some m) \/
  (exists t1 v1, <[t := v']> V !! t1 = Some v1 /\ m ∈ v_custody v1).
Proof.
  intros Hm. assert (Hold : usable (P m) \/ P m = Closing \/ (m = n /\ n ∈ v_custody v)).
  { destruct (decide (m = n)) as [->|Hne]; [|rewrite phase_other in Hm by done; tauto].
    destruct Hcase as [(_ & _ & ?)|[_ ?]]; [by left|by right; right]. }
  assert (Hex : (exists sid, L !! sid = Some m) \/ exists t1 v1, V !! t1 = Some v1 /\ m ∈ v_custody v1).
  { destruct Hold as [?|[?|[-> ?]]]; [apply (inv_owned _ _ _ _ Hinv); tauto..|].
    right. by exists t, v. }
  destruct Hex as [?|Hex]; [by left|right].
  eapply (views_exists _ _ _ _ (fun u => m ∈ v_custody u)); [done| |done].
  intros Hin. apply Hmem. split; [done|]. intros Hpc ->. rewrite phase_same in Hm.
  destruct Hm as [[?|?]|?]; congruence.
Qed.

Lemma inv_phase_change : inv L P' H (<[t := v']> V).
Proof.
  split.
  - intros sid m. apply change_live.
  - apply Hinv.
  - intros sid m Hs. destruct (decide (m = n)) as [->|Hne]; [rewrite phase_same; apply Hp|].
    rewrite phase_other by done. by eapply (inv_history _ _ _ _ Hinv).
  - intros t1 v1 sid m H1 Hin. split_views; [by apply Hknows|by eapply inv_knows].
  - eapply locks_step; [done|done|apply Hinv].
  - intros t1 v1 H1. split_views; [done|by eapply inv_nodup].
  - intros t1 v1 m sid H1 Hin. split_views; [apply Hmem in Hin as [Hin _]|];
      by eapply inv_custody_live.
  - intros t1 t2 v1 v2 m H1 H2 I1 I2.
    apply views_cases in H1 as [[-> ->]|[N1 H1]], H2 as [[-> ->]|[N2 H2]];
      [done|rewrite Hmem in I1; destruct I1|rewrite Hmem in I2; destruct I2|];
      by eapply (inv_custody _ _ _ _ Hinv).
  - apply change_phase.
  - intros t1 v1 m H1 Hn. split_views; [congruence|by eapply inv_opened].
  - apply change_calling.
  - apply change_busy.
  - apply change_owned.
  - intros m. destruct (decide (m = n)) as [->|Hne]; [rewrite phase_same; apply Hp|].
    rewrite phase_other by done. apply Hinv.
Qed.

End PhaseChange.
End InvSteps.

(** ** The phase a trace gives a native session *)

Lemma native_phase_snoc n tr e :
  native_phase n (tr ++ [e]) =
  if decide (n = event_native e) then phase_step (native_phase n tr) e else native_phase n tr.
Proof.
  unfold native_phase. rewrite List.filter_app, fold_left_app. simpl.
  destruct (decide (n = event_native e)) as [->|Hn].
  - by rewrite bool_decide_eq_true_2.
  - by rewrite bool_decide_eq_false_2 by congruence.
Qed.

(** ** What the sections do to the native sessions of the map *)

Definition natives (s : Sessions) : gmap string string := native_session_id <$> s.

Lemma natives_lookup s sid n :
  natives s !! sid = Some n <-> exists x, s !! sid = Some x /\ native_session_id x = n.
Proof.
  unfold natives. rewrite lookup_fmap, fmap_Some. split; intros (x & ? & ?); by exists x.
Qed.

Lemma natives_insert_same s sid x y :
  s !! sid = Some x -> native_session_id y = native_session_id x ->
  natives (<[sid := y]> s) = natives s.
Proof.
  intros Hs Hn. apply map_eq. intros i. unfold natives. rewrite !lookup_fmap.
  destruct (decide (i = sid)) as [->|]; [|by rewrite lookup_insert_ne].
  rewrite lookup_insert_eq, Hs. simpl. by rewrite Hn.
Qed.

Lemma cache_page_native s key page :
  native_session_id (cache_page s key page) = native_session_id s.
Proof. unfold cache_page. by destruct (evict _ _ _). Qed.
Lemma bind_page_native s token b : native_session_id (bind_page s token b) = native_session_id s.
Proof. unfold bind_page. by destruct (evict _ _ _). Qed.
Lemma bind_nodes_native l : forall s, native_session_id (bind_nodes s l) = native_session_id s.
Proof. induction l as [|[k n] l IH]; intros s; simpl; [done|]. by rewrite IH. Qed.

Lemma enter_natives st server sid key refresh now st' r :
  browse_enter st server sid key refresh now = (st', r) -> natives st' = natives st.
Proof.
  unfold browse_enter. destruct (st !! sid) as [s|] eqn:E; [|by intros [= <- <-]].
  destruct (negb _); [by intros [= <- <-]|].
  assert (Ht : natives (<[sid := touch now s]> st) = natives st) by by eapply natives_insert_same.
  destruct (transpose (resolve_node _ <$> _)); [|by intros [= <- <-]].
  destruct (transpose (resolve_page _ _ <$> _)); [|by intros [= <- <-]].
  destruct refresh; intros [= <- <-]; [|done].
  etransitivity; [|exact Ht]. eapply natives_insert_same; [apply lookup_insert_eq|done].
Qed.

Lemma enter_resolved st server sid key refresh now st' r page :
  browse_enter st server sid key refresh now = (st', Ok (r, page)) ->
  natives st !! sid = Some (r_session r).
Proof.
  unfold browse_enter. intros He. apply natives_lookup.
  destruct (st !! sid) as [s|]; [|done]. exists s. split; [done|].
  destruct (negb _); [done|]. destruct (transpose (resolve_node _ <$> _)); [|done].
  destruct (transpose (resolve_page _ _ <$> _)); [|done].
  by destruct refresh; injection He as _ <- _.
Qed.

Lemma recheck_natives st sid key refresh now st' r :
  browse_recheck st sid key refresh now = (st', r) ->
  natives st' = natives st /\ (is_ok r = true -> exists n, natives st !! sid = Some n).
Proof.
  unfold browse_recheck. destruct (st !! sid) as [s|] eqn:E; intros [= <- <-].
  - split; [by eapply natives_insert_same|]. intros _. exists (native_session_id s).
    apply natives_lookup. by exists s.
  - by split.
Qed.

Lemma commit_natives st sid key page now tokens token st' r :
  browse_commit st sid key page now tokens token = (st', r) -> natives st' = natives st.
Proof.
  unfold browse_commit. destruct (st !! sid) as [s|] eqn:E; [|by intros [= <- <-]].
  destruct (_ <? _); intros [= <- <-]; [by eapply natives_insert_same|].
  eapply natives_insert_same; [done|]. rewrite cache_page_native.
  destruct (page_next_page_token page); rewrite ?bind_page_native; by rewrite bind_nodes_native.
Qed.

Lemma expired_natives_spec st now kept expired :
  remove_expired st now = (kept, expired) ->
  natives kept ⊆ natives st /\
  (forall sid n, natives st !! sid = Some n ->
     natives kept !! sid = Some n \/ (sid, n) ∈ expired_knows expired) /\
  (forall sid n, (sid, n) ∈ expired_knows expired ->
     natives st !! sid = Some n /\ natives kept !! sid = None) /\
  NoDup expired.*1.
Proof.
  unfold remove_expired. intros [= <- <-]. set (cutoff := now - SESSION_TTL).
  assert (Hin : forall sid n, (sid, n) ∈ expired_knows (map_to_list
      (filter (fun kv => last_used kv.2 < cutoff) st)) <->
    exists s, st !! sid = Some s /\ last_used s < cutoff /\ native_session_id s = n).
  { intros sid n. unfold expired_knows. rewrite list_elem_of_fmap. split.
    - intros ([k s] & [= -> ->] & [H1 H2]%elem_of_map_to_list%map_lookup_filter_Some). by exists s.
    - intros (s & H1 & H2 & <-). exists (sid, s). split; [done|].
      by apply elem_of_map_to_list, map_lookup_filter_Some. }
  split; [|split; [|split]].
  - apply map_fmap_mono, map_filter_subseteq.
  - intros sid n (s & Hs & <-)%natives_lookup. destruct (decide (last_used s < cutoff)).
    + right. apply Hin. by exists s.
    + left. apply natives_lookup. exists s. split; [|done]. by apply map_lookup_filter_Some.
  - intros sid n (s & H1 & H2 & H3)%Hin. split; [apply natives_lookup; by exists s|].
    unfold natives. rewrite lookup_fmap. apply fmap_None, map_lookup_filter_None. right.
    intros s' Hs'. simpl. congruence.
  - apply NoDup_fst_map_to_list.
Qed.

(** ** The invariant of the system *)

Definition no_view : View := mk_view [] None None None None [].

Lemma view_after_browse a r : view (after_browse a r) = no_view.
Proof. unfold after_browse. destruct r; [done|]. by destruct (arg_temporary a). Qed.
Lemma view_after_close f r : view (after_close f r) = no_view.
Proof. by destruct f, r. Qed.
Lemma view_after_open server sid b : view (after_open server sid b) = no_view.
Proof. by destruct b as [[? ?]|]. Qed.

Lemma knows_none H : knows_valid H no_view.
Proof. intros sid n Hin. by apply elem_of_nil in Hin. Qed.

Lemma inv_spawn L P H V t : inv L P H V -> V !! t = None -> inv L P H (<[t := no_view]> V).
Proof.
  intros I Ht.
  assert (Hold : forall t1 v1, V !! t1 = Some v1 -> <[t := no_view]> V !! t1 = Some v1).
  { intros t1 v1 H1. rewrite lookup_insert_ne; [done|congruence]. }
  split; [apply I..| | | | | | | | | | |apply I].
  - intros t1 v1 sid n H1 Hin. split_views; [by apply elem_of_nil in Hin|by eapply (inv_knows _ _ _ _ I)].
  - intros t1 t2 v1 v2 sid H1 H2 S1 S2.
    apply views_cases in H1 as [[-> ->]|[N1 H1]], H2 as [[-> ->]|[N2 H2]]; [done..|].
    by eapply (inv_locks _ _ _ _ I).
  - intros t1 v1 H1. split_views; [constructor|by eapply (inv_nodup _ _ _ _ I)].
  - intros t1 v1 n sid H1 Hin. split_views; [by apply elem_of_nil in Hin|].
    by eapply (inv_custody_live _ _ _ _ I).
  - intros t1 t2 v1 v2 n H1 H2 I1 I2.
    apply views_cases in H1 as [[-> ->]|[N1 H1]], H2 as [[-> ->]|[N2 H2]];
      [done|by apply elem_of_nil in I1|by apply elem_of_nil in I2|].
    by eapply (inv_custody _ _ _ _ I).
  - intros t1 v1 n H1 Hin. split_views; [by apply elem_of_nil in Hin|by eapply (inv_phase _ _ _ _ I)].
  - intros t1 v1 n H1 Hn. split_views; [done|by eapply (inv_opened _ _ _ _ I)].
  - intros t1 v1 n H1 Hn. split_views; [done|by eapply (inv_calling _ _ _ _ I)].
  - intros n (t1 & v1 & H1 & H2)%(inv_busy _ _ _ _ I). exists t1, v1. by auto.
  - intros n [?|(t1 & v1 & H1 & H2)]%(inv_owned _ _ _ _ I); [by left|right].
    exists t1, v1. by auto.
Qed.

Definition phases (st : Shared) (n : string) : Phase := native_phase n (trace st).

Definition system_inv (st : Shared) (ts : gmap nat Pc) : Prop :=
  inv (natives (sessions st)) (phases st) (history st) (view <$> ts).

Lemma phases_log st e m :
  phases (log st e) m =
    if decide (m = event_native e) then phase_step (phases st (event_native e)) e else phases st m.
Proof.
  unfold phases, log. simpl. rewrite native_phase_snoc. by destruct (decide _) as [->|].
Qed.

Lemma phases_logged st e p m :
  phase_step (phases st (event_native e)) e = p ->
  phases (log st e) m = if decide (m = event_native e) then p else phases st m.
Proof. intros <-. apply phases_log. Qed.

Lemma phases_sessions st s : phases (with_sessions st s) = phases st.
Proof. done. Qed.

Section TaskStep.
Context (w : World) (t : nat) (pc : Pc) (Hpc : tasks w !! t = Some pc).
Context (I : system_inv (shared w) (tasks w)).

Lemma view_of_task : (view <$> tasks w) !! t = Some (view pc).
Proof. by rewrite lookup_fmap, Hpc. Qed.

Lemma views_of_step pc' : view <$> <[t := pc']> (tasks w) = <[t := view pc']> (view <$> tasks w).
Proof. apply fmap_insert. Qed.

Lemma lockable_free v sid :
  v_holds v = Some sid -> lock_free w t sid -> lockable (view <$> tasks w) t (view pc) v.
Proof.
  intros Hv Hfree s Hs. right. intros t' u Ht' Hu. rewrite Hv in Hs. injection Hs as ->.
  rewrite lookup_fmap, fmap_Some in Ht'. destruct Ht' as (pc' & Ht' & ->).
  rewrite view_holds in Hu. by eapply Hfree.
Qed.

Lemma lockable_none v : v_holds v = None -> lockable (view <$> tasks w) t (view pc) v.
Proof. intros Hv s Hs. congruence. Qed.

Lemma lockable_same v : v_holds v = v_holds (view pc) -> lockable (view <$> tasks w) t (view pc) v.
Proof. intros Hv s Hs. left. congruence. Qed.

(** Sections that leave the native sessions in place. *)
Lemma quiet_step sessions' pc' :
  natives sessions' = natives (sessions (shared w)) ->
  lockable (view <$> tasks w) t (view pc) (view pc') ->
  v_custody (view pc') = v_custody (view pc) -> v_closing (view pc') = v_closing (view pc) ->
  v_calling (view pc') = None -> v_calling (view pc) = None -> v_opened (view pc') = None ->
  knows_valid (history (shared w)) (view pc') ->
  system_inv (with_sessions (shared w) sessions') (<[t := pc']> (tasks w)).
Proof.
  intros Hs Hl H1 H2 H3 H4 H5 H6. unfold system_inv. rewrite views_of_step. simpl. rewrite Hs.
  exact (inv_quiet _ _ _ _ I t _ _ view_of_task Hl H1 H2 H3 H4 H5 H6).
Qed.

(** The expired sessions go to the request. *)
Lemma expire_step now kept expired closing next :
  v_custody (view pc) = [] -> v_calling (view pc) = None ->
  remove_expired (sessions (shared w)) now = (kept, expired) -> Permutation closing expired ->
  system_inv (with_sessions (shared w) kept) (<[t := Expiring closing next]> (tasks w)).
Proof.
  intros Hc Hca Hre Hp. unfold system_inv. rewrite views_of_step. simpl.
  pose proof (expired_natives_spec _ _ _ _ Hre) as (H1 & H2 & H3 & H4).
  assert (Hk : Permutation (expired_knows closing) (expired_knows expired))
    by by apply Permutation_map.
  assert (Hcust : forall n, n ∈ expired_natives closing <-> exists sid, (sid, n) ∈ expired_knows closing).
  { intros n. unfold expired_natives, expired_knows. setoid_rewrite list_elem_of_fmap. split.
    - intros ([k s] & -> & Hin). exists k, (k, s). done.
    - intros (sid & [k s] & [= -> ->] & Hin). by exists (k, s). }
  apply (inv_take _ _ _ _ I t _ _ view_of_task); [by apply lockable_none|done..| | |done| |].
  - intros sid n Hin. simpl in Hin. rewrite Hk in Hin. apply H3 in Hin as [Hin _].
    by apply (inv_live _ _ _ _ I) in Hin as [? _].
  - simpl. unfold expired_natives. apply NoDup_fmap_2_strong.
    + intros [k1 s1] [k2 s2] I1 I2 He. simpl in He.
      assert (Hs : forall k s, (k, s) ∈ closing -> history (shared w) !! k = Some (native_session_id s)).
      { intros k s Hin. assert (Hks : (k, native_session_id s) ∈ expired_knows expired).
        { rewrite <- Hk. apply list_elem_of_fmap. by exists (k, s). }
        apply H3 in Hks as [Hks _]. by apply (inv_live _ _ _ _ I) in Hks as [? _]. }
      pose proof (Hs _ _ I1) as E1. pose proof (Hs _ _ I2) as E2. rewrite <- He in E2.
      pose proof (inv_inj _ _ _ _ I _ _ _ E1 E2) as ->.
      apply (NoDup_map_inj fst closing); [|by apply list_elem_of_In..|done].
      assert (Hf : Permutation closing.*1 expired.*1) by by apply Permutation_map.
      by rewrite Hf.
    + apply (NoDup_fmap_1 fst). assert (Hf : Permutation closing.*1 expired.*1) by by apply Permutation_map.
      by rewrite Hf.
  - intros sid n Hs. destruct (H2 _ _ Hs) as [?|Hin]; [by left|right]. simpl. apply Hcust.
    exists sid. by rewrite Hk.
  - intros n [sid Hin]%Hcust. rewrite Hk in Hin. exists sid. by apply H3.
Qed.

(** The request asks the client to close a session in its custody. *)
Lemma close_step sessions' n pc' :
  natives sessions' = natives (sessions (shared w)) ->
  lockable (view <$> tasks w) t (view pc) (view pc') ->
  n ∈ v_custody (view pc) -> phases (shared w) n = Idle ->
  v_closing (view pc) = None -> v_calling (view pc) = None ->
  v_custody (view pc') = v_custody (view pc) -> v_closing (view pc') = Some n ->
  v_calling (view pc') = None -> v_opened (view pc') = None ->
  knows_valid (history (shared w)) (view pc') ->
  system_inv (log (with_sessions (shared w) sessions') (NClose n)) (<[t := pc']> (tasks w)).
Proof.
  intros Hs Hl Hn Hi Hc1 Hc2 Hcu Hc3 Hc4 Ho Hk. unfold system_inv. rewrite views_of_step. simpl.
  rewrite Hs.
  apply (inv_phase_change _ _ _ _ I t _ _ view_of_task Hl _ n Closing); try done.
  - intros m. apply (phases_logged (with_sessions (shared w) sessions')). cbn [event_native].
    rewrite phases_sessions. by rewrite Hi.
  - rewrite Hcu. by eapply (inv_nodup _ _ _ _ I), view_of_task.
  - intros m. rewrite Hcu. split; [by split|by intros []].
  - intros m. rewrite Hc3. split; [by intros [= ->]|by intros [_ ->]].
  - intros m Hm. congruence.
  - intros m. rewrite Hc4. by split; [|intros []].
  - intros m Hm. congruence.
  - intros Hb. congruence.
  - right. by split; [left|].
Qed.

(** The client closed it. *)
Lemma closed_step n rest pc' :
  lockable (view <$> tasks w) t (view pc) (view pc') ->
  v_custody (view pc) = n :: rest -> v_closing (view pc) = Some n ->
  v_calling (view pc) = None -> v_custody (view pc') = rest -> v_closing (view pc') = None ->
  v_calling (view pc') = None -> v_opened (view pc') = None ->
  knows_valid (history (shared w)) (view pc') ->
  system_inv (log (shared w) (NClosed n)) (<[t := pc']> (tasks w)).
Proof.
  intros Hl Hcu Hc1 Hc2 Hcu' Hc3 Hc4 Ho Hk. unfold system_inv. rewrite views_of_step. simpl.
  assert (Hn : n ∈ v_custody (view pc)) by (rewrite Hcu; by left).
  pose proof (inv_phase _ _ _ _ I _ _ _ view_of_task Hn) as [Hi _]. specialize (Hi Hc1).
  pose proof (inv_nodup _ _ _ _ I _ _ view_of_task) as Hnd. rewrite Hcu in Hnd.
  apply NoDup_cons in Hnd as [Hnr Hnd].
  apply (inv_phase_change _ _ _ _ I t _ _ view_of_task Hl _ n Closed); try done.
  - intros m. apply (phases_logged (shared w)). cbn [event_native]. by rewrite Hi.
  - by rewrite Hcu'.
  - intros m. rewrite Hcu', Hcu, elem_of_cons. split.
    + intros Hm. split; [by right|]. intros _ ->. done.
    + intros [[->|Hm] Hne]; [by destruct Hne|done].
  - intros m. rewrite Hc3. by split; [|intros []].
  - intros m. rewrite Hc1. by intros [= ->].
  - intros m. rewrite Hc4. by split; [|intros []].
  - intros m Hm. congruence.
  - intros Hb. congruence.
  - right. by split; [right|].
Qed.

(** The client's answer to a browse call. *)
Lemma answer_step a r e pc' :
  pc = Calling a r -> event_native e = r_session r ->
  phase_step Busy e = Idle -> v_holds (view pc') = None \/ v_holds (view pc') = v_holds (view pc) ->
  v_custody (view pc') = [] -> v_closing (view pc') = None ->
  v_calling (view pc') = None -> v_opened (view pc') = None ->
  knows_valid (history (shared w)) (view pc') ->
  system_inv (log (shared w) e) (<[t := pc']> (tasks w)).
Proof.
  intros Hpc' He Hst Hh Hcu Hcl Hca Ho Hk. unfold system_inv. rewrite views_of_step. simpl.
  assert (Hl : lockable (view <$> tasks w) t (view pc) (view pc'))
    by (destruct Hh; [by apply lockable_none|by apply lockable_same]).
  pose proof view_of_task as Hv. rewrite Hpc' in Hv, Hl. simpl in Hv, Hl.
  destruct (inv_calling _ _ _ _ I _ _ _ Hv eq_refl) as [Hb _].
  apply (inv_phase_change _ _ _ _ I t _ _ Hv Hl _ (r_session r) Idle); try done.
  - intros m. rewrite <- He. apply phases_logged. by rewrite He, Hb.
  - rewrite Hcu. constructor.
  - intros m. rewrite Hcu. simpl. split; [by intros ?%elem_of_nil|by intros [?%elem_of_nil _]].
  - intros m. rewrite Hcl. by split; [|intros []].
  - intros m. rewrite Hca. by split; [|intros []].
  - by intros m [= ->].
  - left. split; [by left|]. split; [by intros ?%elem_of_nil|by right].
Qed.

(** The request browses the session of its lock. *)
Lemma call_step a r sessions' parent token size :
  pc = Locked a r -> natives sessions' = natives (sessions (shared w)) ->
  (exists n, natives (sessions (shared w)) !! arg_session a = Some n) ->
  system_inv (log (with_sessions (shared w) sessions') (NBrowse (r_session r) parent token size))
    (<[t := Calling a r]> (tasks w)).
Proof.
  intros Hpc' Hs [n Hn]. unfold system_inv. rewrite views_of_step. simpl. rewrite Hs.
  assert (Hl : lockable (view <$> tasks w) t (view pc) (view (Calling a r)))
    by (apply lockable_same; by rewrite Hpc').
  pose proof view_of_task as Hv. rewrite Hpc' in Hv, Hl. simpl in Hv, Hl.
  assert (Hh : history (shared w) !! arg_session a = Some (r_session r)).
  { apply (inv_knows _ _ _ _ I _ _ _ _ Hv). by apply list_elem_of_singleton. }
  apply (inv_live _ _ _ _ I) in Hn as [Hn Hu]. rewrite Hh in Hn. injection Hn as <-.
  assert (Hi : phases (shared w) (r_session r) = Idle).
  { apply (idle_of_lock _ _ _ _ I t _ Hv (r_session r) (arg_session a)); try done.
    intros t' u Ht' Hu'. by eapply (inv_locks _ _ _ _ I). }
  apply (inv_phase_change _ _ _ _ I t _ _ Hv Hl _ (r_session r) Busy); try done.
  - intros m. apply (phases_logged (with_sessions (shared w) sessions')). cbn [event_native].
    rewrite phases_sessions. by rewrite Hi.
  - intros sid m Hm. simpl in Hm. apply list_elem_of_singleton in Hm as [= -> ->]. done.
  - constructor.
  - intros m. simpl. split; [by intros ?%elem_of_nil|by intros [?%elem_of_nil _]].
  - intros m. simpl. by split; [|intros []].
  - intros m. simpl. split; [by intros [= ->]|by intros [_ ->]].
  - intros Hb. congruence.
  - intros _. exists (arg_session a). split; [done|]. by apply list_elem_of_singleton.
  - left. split; [by right|]. split; [by intros ?%elem_of_nil|done].
Qed.

End TaskStep.

(** Removing a session from the map and asking the client to close it. *)
Lemma remove_step w t sid n failed :
  tasks w !! t = Some (CloseLocked sid n failed) -> system_inv (shared w) (tasks w) ->
  is_Some (sessions (shared w) !! sid) ->
  system_inv (log (with_sessions (shared w) (delete sid (sessions (shared w)))) (NClose n))
    (<[t := CloseCall sid n failed]> (tasks w)).
Proof.
  intros Hpc I [s Hs]. set (st := shared w) in *.
  pose proof (view_of_task w t _ Hpc) as Hv. simpl in Hv.
  assert (Hh : history st !! sid = Some n).
  { apply (inv_knows _ _ _ _ I _ _ _ _ Hv). by apply list_elem_of_singleton. }
  assert (Hl : natives (sessions st) !! sid = Some n).
  { assert (Hl : natives (sessions st) !! sid = Some (native_session_id s))
      by (apply natives_lookup; by exists s).
    pose proof (inv_live _ _ _ _ I _ _ Hl) as [H' _]. congruence. }
  destruct (inv_live _ _ _ _ I _ _ Hl) as [_ Hu].
  assert (Hi : phases st n = Idle).
  { apply (idle_of_lock _ _ _ _ I t _ Hv n sid); try done.
    intros t' u Ht' Hu'. by eapply (inv_locks _ _ _ _ I). }
  set (mid := mk_view [n] None None None (Some sid) [(sid, n)]).
  assert (Hdel : natives (delete sid (sessions st)) = delete sid (natives (sessions st)))
    by apply fmap_delete.
  assert (I' : inv (delete sid (natives (sessions st))) (phases st) (history st)
                 (<[t := mid]> (view <$> tasks w))).
  { apply (inv_take _ _ _ _ I t _ mid Hv).
    - intros s' Hs'. by left.
    - done.
    - done.
    - done.
    - done.
    - done.
    - intros s' n' Hin. simpl in Hin. by apply list_elem_of_singleton in Hin as [= -> ->].
    - apply NoDup_singleton.
    - apply delete_subseteq.
    - intros s' n' Hs'. destruct (decide (s' = sid)) as [->|].
      + right. simpl. rewrite Hl in Hs'. injection Hs' as ->. by apply list_elem_of_singleton.
      + left. by rewrite lookup_delete_ne.
    - intros n' Hn'. simpl in Hn'. apply list_elem_of_singleton in Hn' as ->. exists sid.
      by rewrite lookup_delete_eq. }
  unfold system_inv. rewrite views_of_step. simpl. rewrite Hdel.
  set (last := mk_view [n] (Some n) None None (Some sid) [(sid, n)]).
  rewrite <- (insert_insert_eq (view <$> tasks w) t last mid).
  apply (inv_phase_change _ _ _ _ I' t mid last ltac:(apply lookup_insert_eq)
    ltac:(intros s' Hs'; by left) _ n Closing); try done.
  - intros m. apply (phases_logged (with_sessions st (delete sid (sessions st)))).
    cbn [event_native]. rewrite phases_sessions. by rewrite Hi.
  - intros s' n' Hin. simpl in Hin. by apply list_elem_of_singleton in Hin as [= -> ->].
  - apply NoDup_singleton.
  - intros m. simpl. split; [by split|by intros []].
  - intros m. simpl. split; [by intros [= ->]|by intros [_ ->]].
  - intros m. simpl. by split; [|intros []].
  - intros Hb. congruence.
  - right. split; [by left|]. simpl. by apply list_elem_of_singleton.
Qed.

Lemma knows_one (H : gmap string string) v sid n :
  H !! sid = Some n -> v_knows v = [(sid, n)] -> knows_valid H v.
Proof. intros Hs Hv s m Hin. rewrite Hv in Hin. by apply list_elem_of_singleton in Hin as [= -> ->]. Qed.

Lemma same_sessions st : with_sessions st (sessions st) = st.
Proof. by destruct st. Qed.

Lemma log_same st e : log (with_sessions st (sessions st)) e = log st e.
Proof. by destruct st. Qed.

Section Cases.
Context (w : World) (t : nat) (I : system_inv (shared w) (tasks w)).

(** A request that keeps its lock, or drops it, and has nothing in custody. *)
Lemma plain_step pc pc' sessions' :
  tasks w !! t = Some pc -> natives sessions' = natives (sessions (shared w)) ->
  v_custody (view pc) = [] -> v_closing (view pc) = None -> v_calling (view pc) = None ->
  view pc' = no_view ->
  system_inv (with_sessions (shared w) sessions') (<[t := pc']> (tasks w)).
Proof.
  intros Hpc Hs H1 H2 H3 Hv. apply (quiet_step w t pc Hpc I); rewrite ?Hv; try done.
  apply knows_none.
Qed.

Lemma plain_step_same pc pc' :
  tasks w !! t = Some pc ->
  v_custody (view pc) = [] -> v_closing (view pc) = None -> v_calling (view pc) = None ->
  view pc' = no_view -> system_inv (shared w) (<[t := pc']> (tasks w)).
Proof.
  intros Hpc H1 H2 H3 Hv. rewrite <- (same_sessions (shared w)). by eapply plain_step.
Qed.

(** A request that takes the lock of the session it knows. *)
Lemma lock_step pc pc' sid n :
  tasks w !! t = Some pc -> view pc = mk_view [] None None None None [(sid, n)] ->
  view pc' = mk_view [] None None None (Some sid) [(sid, n)] -> lock_free w t sid ->
  system_inv (shared w) (<[t := pc']> (tasks w)).
Proof.
  intros Hpc Hv Hv' Hf. rewrite <- (same_sessions (shared w)).
  apply (quiet_step w t pc Hpc I); rewrite ?Hv'; try done; try (by rewrite Hv).
  - by eapply lockable_free.
  - eapply knows_one; [|done]. apply (inv_knows _ _ _ _ I _ _ sid n (view_of_task w t pc Hpc)).
    rewrite Hv. by apply list_elem_of_singleton.
Qed.

(** The closing of an expired session. *)
Lemma expired_step sid s rest next :
  tasks w !! t = Some (Expiring ((sid, s) :: rest) next) -> lock_free w t sid ->
  system_inv (log (shared w) (NClose (native_session_id s)))
    (<[t := ExpiringCall sid s rest next]> (tasks w)).
Proof.
  intros Hpc Hf. pose proof (view_of_task w t _ Hpc) as Hv. rewrite <- log_same.
  assert (Hn : native_session_id s ∈ v_custody (view (Expiring ((sid, s) :: rest) next)))
    by (simpl; by left).
  apply (close_step w t _ Hpc I); try done.
  - by eapply lockable_free.
  - assert (Hh : history (shared w) !! sid = Some (native_session_id s)).
    { apply (inv_knows _ _ _ _ I _ _ _ _ Hv). simpl. by left. }
    pose proof (inv_phase _ _ _ _ I _ _ _ Hv Hn) as [_ Hu].
    apply (idle_of_lock _ _ _ _ I t _ Hv _ sid); [done| |done|by apply Hu].
    intros t' u Ht' Hu'. rewrite lookup_fmap, fmap_Some in Ht'.
    destruct Ht' as (pc' & Ht' & ->). rewrite view_holds in Hu'. by eapply Hf.
  - intros s' n' Hin. by apply (inv_knows _ _ _ _ I _ _ _ _ Hv).
Qed.

(** A session that found no room is closed again. *)
Lemma undo_step server n browse :
  tasks w !! t = Some (Opened server n browse) ->
  system_inv (log (shared w) (NClose n)) (<[t := Undoing n]> (tasks w)).
Proof.
  intros Hpc. pose proof (view_of_task w t _ Hpc) as Hv. rewrite <- log_same.
  assert (Hn : n ∈ v_custody (view (Opened server n browse)))
    by (simpl; by apply list_elem_of_singleton).
  apply (close_step w t _ Hpc I); try done.
  - apply (idle_of_opened _ _ _ _ I t _ Hv); [done|].
    by apply (inv_phase _ _ _ _ I _ _ _ Hv Hn).
  - intros s' n' Hin. by apply elem_of_nil in Hin.
Qed.

Lemma store_step server n browse sid now :
  tasks w !! t = Some (Opened server n browse) -> history (shared w) !! sid = None ->
  system_inv
    (record_session (with_sessions (shared w)
       (<[sid := new_session server n now]> (sessions (shared w)))) sid n)
    (<[t := after_open server sid browse]> (tasks w)).
Proof.
  intros Hpc Hs. unfold system_inv. rewrite views_of_step, view_after_open. simpl.
  assert (Hi : natives (<[sid := new_session server n now]> (sessions (shared w)))
    = <[sid := n]> (natives (sessions (shared w)))) by apply fmap_insert.
  rewrite Hi. apply (inv_commit _ _ _ _ I t (view (Opened server n browse)));
    [by apply view_of_task|by intros s' [=]|done..].
Qed.

Lemma opened_step server n browse :
  tasks w !! t = Some (Opening server browse) -> phases (shared w) n = Fresh ->
  system_inv (log (shared w) (NOpen n)) (<[t := Opened server n browse]> (tasks w)).
Proof.
  intros Hpc Hf. unfold system_inv. rewrite views_of_step. simpl.
  apply (inv_open _ _ _ _ I t (view (Opening server browse))
    (view (Opened server n browse)) (view_of_task w t _ Hpc)
    ltac:(by intros s' [=]) _ n Idle); try done.
  intros m. apply (phases_logged (shared w)). cbn [event_native]. by rewrite Hf.
Qed.

Lemma store_commit server n browse sid now sessions' :
  tasks w !! t = Some (Opened server n browse) -> history (shared w) !! sid = None ->
  open_commit (sessions (shared w)) sid (new_session server n now) = (sessions', None) ->
  system_inv (record_session (with_sessions (shared w) sessions') sid n)
    (<[t := after_open server sid browse]> (tasks w)).
Proof.
  unfold open_commit. destruct (_ <=? _); [done|]. intros Hpc Hs [= <-]. by apply store_step.
Qed.

Lemma undo_commit server n browse sid now sessions' undo :
  tasks w !! t = Some (Opened server n browse) ->
  open_commit (sessions (shared w)) sid (new_session server n now) = (sessions', Some undo) ->
  system_inv (log (with_sessions (shared w) sessions') (NClose undo))
    (<[t := Undoing undo]> (tasks w)).
Proof.
  unfold open_commit. destruct (_ <=? _); [|done]. intros Hpc [= <- <-]. rewrite log_same.
  by eapply undo_step.
Qed.

Lemma enter_step a now sessions' r :
  tasks w !! t = Some (Entering a) ->
  browse_enter (sessions (shared w)) (arg_server a) (arg_session a) (arg_key a) (arg_refresh a) now
    = (sessions', Ok (r, None)) ->
  system_inv (with_sessions (shared w) sessions') (<[t := Waiting a r]> (tasks w)).
Proof.
  intros Hpc He. apply (quiet_step w t _ Hpc I); try done.
  - by eapply enter_natives.
  - eapply knows_one; [|done]. apply enter_resolved in He.
    by apply (inv_live _ _ _ _ I) in He as [? _].
Qed.

Lemma recheck_step a r now sessions' result out :
  tasks w !! t = Some (Locked a r) ->
  browse_recheck (sessions (shared w)) (arg_session a) (arg_key a) (arg_refresh a) now
    = (sessions', result) ->
  system_inv (with_sessions (shared w) sessions') (<[t := after_browse a out]> (tasks w)).
Proof.
  intros Hpc [Hn _]%recheck_natives.
  by apply (plain_step _ _ _ Hpc); [..|apply view_after_browse].
Qed.

Lemma found_step sid failed n :
  tasks w !! t = Some (CloseStart sid failed) -> close_lookup (sessions (shared w)) sid = Ok n ->
  system_inv (shared w) (<[t := CloseWaiting sid n failed]> (tasks w)).
Proof.
  intros Hpc Hc. rewrite <- (same_sessions (shared w)). apply (quiet_step w t _ Hpc I); try done.
  eapply knows_one; [|done]. unfold close_lookup in Hc.
    destruct (native_session_id <$> _) as [n'|] eqn:E; [|done]. injection Hc as ->.
    assert (Hl : natives (sessions (shared w)) !! sid = Some n)
      by (unfold natives; by rewrite lookup_fmap).
    by apply (inv_live _ _ _ _ I) in Hl as [? _].
Qed.

Lemma gone_step sid n failed sessions' e :
  tasks w !! t = Some (CloseLocked sid n failed) ->
  close_remove (sessions (shared w)) sid = (sessions', Err e) ->
  system_inv (with_sessions (shared w) sessions')
    (<[t := after_close failed (Err e)]> (tasks w)).
Proof.
  intros Hpc [= <- Hr]. destruct (sessions (shared w) !! sid) eqn:E; [done|].
  apply (plain_step _ _ _ Hpc); try done; [|apply view_after_close].
  by rewrite delete_id.
Qed.

Lemma removed_step sid n failed sessions' :
  tasks w !! t = Some (CloseLocked sid n failed) ->
  close_remove (sessions (shared w)) sid = (sessions', Ok tt) ->
  system_inv (log (with_sessions (shared w) sessions') (NClose n))
    (<[t := CloseCall sid n failed]> (tasks w)).
Proof.
  intros Hpc [= <- Hr]. apply remove_step; [done|done|].
  by destruct (sessions (shared w) !! sid).
Qed.

End Cases.

(** Every step of a request keeps the invariant. *)
Lemma task_step_inv w t pc st' pc' :
  tasks w !! t = Some pc -> system_inv (shared w) (tasks w) ->
  task_step (lock_free w t) (shared w) pc st' pc' -> system_inv st' (<[t := pc']> (tasks w)).
Proof.
  intros Hpc I Hstep. pose proof (view_of_task w t pc Hpc) as Hv.
  inversion Hstep; subst;
    try (by eapply (plain_step_same w t I _ _ Hpc); rewrite ?view_after_close);
    try (by eapply (plain_step w t I _ _ _ Hpc); rewrite ?view_after_browse, ?view_after_close;
         eauto using enter_natives, commit_natives);
    try (by eapply (expire_step w t _ Hpc I));
    try (by eapply (lock_step w t I _ _ _ _ Hpc)).
  - by apply expired_step.
  - apply (closed_step w t _ Hpc I _ (expired_natives rest)); try done.
    intros s' n' Hin. apply (inv_knows _ _ _ _ I _ _ _ _ Hv). simpl. by right.
  - by apply opened_step.
  - eapply store_commit; eassumption.
  - eapply undo_commit; eassumption.
  - apply (closed_step w t _ Hpc I _ []); try done. apply knows_none.
  - eapply enter_step; eassumption.
  - eapply recheck_step; eassumption.
  - eapply recheck_step; eassumption.
  - match goal with H : browse_recheck _ _ _ _ _ = _ |- _ =>
      apply recheck_natives in H as [Hn He] end.
    by apply (call_step w t _ Hpc I); [|..|apply He].
  - by apply (answer_step w t _ Hpc I a r); rewrite ?view_after_browse;
      [..|left| | | | |apply knows_none].
  - by apply (answer_step w t _ Hpc I a r); rewrite ?view_after_browse;
      [..|left| | | | |apply knows_none].
  - apply (answer_step w t _ Hpc I a r); try done; [by right|].
    intros s' n' Hin. by apply (inv_knows _ _ _ _ I _ _ _ _ Hv).
  - eapply found_step; eassumption.
  - eapply gone_step; eassumption.
  - eapply removed_step; eassumption.
  - apply (closed_step w t _ Hpc I _ []); rewrite ?view_after_close; try done. apply knows_none.
Qed.

Lemma reachable_inv w : reachable w -> system_inv (shared w) (tasks w).
Proof.
  induction 1 as [|w w' Hr I Hstep].
  - unfold system_inv, initial, natives. simpl. rewrite !fmap_empty. unfold phases. simpl.
    split; intros *; rewrite ?lookup_empty; try done. by intros [[?|?]|?].
  - destruct Hstep as [w t call Ht|w t pc st' pc' Hpc Hstep].
    + unfold system_inv. simpl. rewrite views_of_step. apply inv_spawn; [done|].
      by rewrite lookup_fmap, Ht.
    + by eapply task_step_inv.
Qed.

(** C14: the client is used as its protocol demands. However requests to open, browse and
    close sessions interleave, with expiry, capacity races, failures and temporary
    sessions, no native session is ever browsed by two calls at once, closed while a
    call is running, closed twice, or used after it was closed. *)
Theorem browse_native_protocol (w : World) (n : string) (Hr : reachable w) :
  native_phase n (trace (shared w)) <> Violated.
Proof. apply (inv_safe _ _ _ _ (reachable_inv w Hr)). Qed.

(** C15: no native session leaks. When every request has ended, the native sessions that
    are open at the client are exactly those of the sessions in the map; every other
    one that was ever opened has been closed. *)
Theorem browse_no_leak (w : World) (n : string) (Hr : reachable w)
    (Hdone : forall t pc, tasks w !! t = Some pc -> exists o, pc = Finished o) :
  (native_phase n (trace (shared w)) = Idle <->
     exists sid s, sessions (shared w) !! sid = Some s /\ native_session_id s = n) /\
  (native_phase n (trace (shared w)) = Fresh \/ native_phase n (trace (shared w)) = Idle \/
   native_phase n (trace (shared w)) = Closed).
Proof.
  pose proof (reachable_inv w Hr) as I.
  assert (Hno : forall t v, (view <$> tasks w) !! t = Some v -> v = no_view).
  { intros t v Ht. rewrite lookup_fmap, fmap_Some in Ht. destruct Ht as (pc & Hpc & ->).
    by destruct (Hdone t pc Hpc) as [o ->]. }
  assert (Hbusy : phases (shared w) n <> Busy).
  { intros (t & v & Ht & Hc)%(inv_busy _ _ _ _ I). rewrite (Hno t v Ht) in Hc. done. }
  assert (Hown : usable (phases (shared w) n) \/ phases (shared w) n = Closing ->
    exists sid, natives (sessions (shared w)) !! sid = Some n).
  { intros [?|(t & v & Ht & Hc)]%(inv_owned _ _ _ _ I); [done|].
    rewrite (Hno t v Ht) in Hc. by apply elem_of_nil in Hc. }
  assert (Hlive : forall sid, natives (sessions (shared w)) !! sid = Some n ->
    phases (shared w) n = Idle).
  { intros sid [_ [?|?]]%(inv_live _ _ _ _ I); done. }
  pose proof (inv_safe _ _ _ _ I n) as Hsafe. unfold phases in *. split.
  - split.
    + intros Hi. destruct Hown as [sid Hs]; [by left; left|]. exists sid. by apply natives_lookup.
    + intros (sid & Hs). apply (Hlive sid). by apply natives_lookup.
  - destruct (native_phase n _) eqn:E; try done; try tauto.
    destruct Hown as [sid Hs]; [by right|]. by apply Hlive in Hs.
Qed.

(** *** A session opened, and one that expired *)

Definition demo_shared : Shared :=
  mk_shared {["s" := new_session "plc" "n" 0]} [NOpen "n"] {["s" := "n"]} ∅.
Definition demo_open : World :=
  mk_world demo_shared {[0%nat := Finished (Ok (OutSession "s"))]}.

Lemma reachable_task w t pc st' pc' :
  reachable w -> tasks w !! t = Some pc -> task_step (lock_free w t) (shared w) pc st' pc' ->
  reachable (mk_world st' (<[t := pc']> (tasks w))).
Proof. intros Hr Hpc Hs. eapply reachable_step; [exact Hr|]. by eapply step_task. Qed.

Lemma demo_open_reachable : reachable demo_open.
Proof.
  pose proof (reachable_step _ _ reachable_initial
    (step_spawn initial 0%nat (CallOpen "plc") eq_refl)) as R.
  eapply (reachable_task _ 0%nat) in R; [|reflexivity|by apply (step_call_open _ _ "plc" 0 ∅ [] [])].
  eapply (reachable_task _ 0%nat) in R; [|reflexivity|by apply step_open].
  eapply (reachable_task _ 0%nat) in R; [|reflexivity|by apply (step_opened _ _ "plc" "n")].
  eapply (reachable_task _ 0%nat) in R;
    [|reflexivity|by apply (step_open_commit _ _ "plc" "n" None "s" 0)].
  match type of R with reachable ?w => assert (E : w = demo_open) by (vm_compute; reflexivity) end.
  by rewrite E in R.
Qed.

Lemma browse_native_protocol_witness :
  native_phase "n" (trace (shared demo_open)) <> Violated.
Proof. apply (browse_native_protocol demo_open "n" demo_open_reachable). Defined.

Lemma browse_no_leak_witness : native_phase "n" (trace (shared demo_open)) = Idle.
Proof.
  apply (browse_no_leak demo_open "n" demo_open_reachable).
  - intros t pc Hpc. unfold demo_open in Hpc. cbn [tasks] in Hpc.
    apply lookup_singleton_Some in Hpc as [_ <-]. by eexists.
  - by exists "s", (new_session "plc" "n" 0).
Defined.
