(* ===== verification/BrowseKeys.v ===== *)
(** * Bounds and confinement of browse sessions

    In every interleaving of BrowseProtocol the sessions and what each one remembers
    stay within their limits, and every native key the gateway sends to the client
    came from the client, for the same native session. *)
From S2P Require Import Prelude Text Bounded Opc Rpc Browse BrowseProtocol BrowseSafety.

(** ** What a trace says the client returned *)

Definition returned_node (tr : list NativeEvent) (n v : string) : Prop :=
  exists parent size page, NReturn n parent size (Some page) ∈ tr /\
    v ∈ map node_key (page_nodes page).
Definition returned_token (tr : list NativeEvent) (n : string) (parent : option string) (size : Z)
    (token : string) : Prop :=
  exists page, NReturn n parent size (Some page) ∈ tr /\
    page_next_page_token page = Some token.

(** The native parent is the one the gateway key stands for. *)
Definition resolves (s : Session) (key native : option string) : Prop :=
  match key with
  | None => native = None
  | Some k => is_Some native /\ node_bindings s !! k = native
  end.

Record session_ok (tr : list NativeEvent) (iss : gset string) (s : Session) : Prop := {
  ok_pages : queued (pages s) (page_order s);
  ok_pages_bound : Z.of_nat (length (page_order s)) <= MAX_CACHED_PAGES_PER_SESSION;
  ok_bindings : queued (page_bindings s) (page_binding_order s);
  ok_bindings_bound : Z.of_nat (length (page_binding_order s)) <= MAX_PAGE_BINDINGS_PER_SESSION;
  ok_nodes_bound : Z.of_nat (size (node_bindings s)) <= MAX_NODE_BINDINGS_PER_SESSION;
  ok_nodes : forall k v, node_bindings s !! k = Some v ->
    k ∈ iss /\ returned_node tr (native_session_id s) v;
  ok_tokens : forall k b, page_bindings s !! k = Some b ->
    k ∈ iss /\ exists parent, resolves s (binding_parent b) parent /\
      returned_token tr (native_session_id s) parent (binding_size b) (native_page_token b)
}.

Lemma resolves_weaken s s' key native :
  node_bindings s ⊆ node_bindings s' -> resolves s key native -> resolves s' key native.
Proof.
  intros Hs. destruct key as [k|]; simpl; [|done]. intros [[v ->] Hk]. split; [by eexists|].
  by eapply lookup_weaken.
Qed.

Lemma session_ok_mono tr tr' iss iss' s :
  tr ⊆ tr' -> iss ⊆ iss' -> session_ok tr iss s -> session_ok tr' iss' s.
Proof.
  intros Ht Hi [H1 H2 H3 H4 H5 H6 H7]. split; try done.
  - intros k v Hk. destruct (H6 k v Hk) as (H8 & p & z & g & H9 & H10).
    split; [by apply Hi|]. exists p, z, g. by split; [apply Ht|].
  - intros k b Hk. destruct (H7 k b Hk) as (H8 & p & H9 & g & H10 & H11).
    split; [by apply Hi|]. exists p. split; [done|]. exists g. by split; [apply Ht|].
Qed.

Lemma new_session_ok tr iss server n now : session_ok tr iss (new_session server n now).
Proof. split; simpl; try done; apply queued_empty. Qed.

Lemma touch_ok tr iss now s : session_ok tr iss s -> session_ok tr iss (touch now s).
Proof. by intros []; split. Qed.

Lemma invalidate_ok tr iss s parent :
  session_ok tr iss s -> session_ok tr iss (invalidate_parent s parent).
Proof.
  intros [H1 H2 H3 H4 H5 H6 H7]. unfold invalidate_parent.
  set (bindings := filter _ (page_bindings s)).
  assert (Hl : forall A (f : A -> bool) l, (length (List.filter f l) <= length l)%nat).
  { intros A f l. induction l as [|x l IH]; simpl; [done|]. destruct (f x); simpl; lia. }
  assert (Hb : forall k b, bindings !! k = Some b -> page_bindings s !! k = Some b).
  { intros k b Hk. by apply map_lookup_filter_Some in Hk as [? _]. }
  split; simpl.
  - apply queued_filter; [|done]. intros k v _. by rewrite negb_true_iff, bool_decide_eq_false.
  - pose proof (Hl _ (fun key => negb (bool_decide (key_parent key = parent))) (page_order s)). lia.
  - apply queued_filter; [|done]. intros k b Hk. simpl. fold bindings.
    destruct (bindings !! k) as [b'|] eqn:E; simpl.
    + apply map_lookup_filter_Some in E as [E Hp]. split; [|done]. intros _. by rewrite Hk in E; injection E as ->.
    + split; [done|]. intros Hne. apply map_lookup_filter_None in E as [E|E]; [congruence|].
      by destruct (E b Hk).
  - pose proof (Hl _ (fun token => is_some (bindings !! token)) (page_binding_order s)). lia.
  - done.
  - done.
  - intros k b Hk. by apply H7, Hb.
Qed.

Lemma cache_page_ok tr iss s key page :
  session_ok tr iss s -> session_ok tr iss (cache_page s key page).
Proof.
  intros [H1 H2 H3 H4 H5 H6 H7]. unfold cache_page.
  set (order := match pages s !! key with Some _ => _ | None => _ end).
  assert (Hq : queued (<[key := page]> (pages s)) (order ++ [key])).
  { destruct H1 as [Hn Hk]. unfold order. destruct (pages s !! key) as [p|] eqn:E.
    - rewrite <- (insert_delete_eq (pages s) key page). apply queued_push.
      + split.
        * rewrite <- (map_id (List.filter _ _)). apply NoDup_map_filter. by rewrite map_id.
        * intros k. rewrite list_elem_of_In, filter_In, <- list_elem_of_In, <- Hk.
          rewrite negb_true_iff, bool_decide_eq_false.
          destruct (decide (k = key)) as [->|]; [rewrite lookup_delete_eq|rewrite lookup_delete_ne by done].
          -- split; [by intros []|tauto].
          -- tauto.
      + rewrite list_elem_of_In, filter_In, negb_true_iff, bool_decide_eq_false. tauto.
    - apply queued_push; [by split|]. rewrite <- Hk, E. by intros []. }
  pose proof (queued_evict MAX_CACHED_PAGES_PER_SESSION _ _ Hq) as He.
  pose proof (evict_length MAX_CACHED_PAGES_PER_SESSION (order ++ [key])
    (<[key := page]> (pages s)) ltac:(done)) as Hl.
  destruct (evict _ _ _) as [ps o]. by split.
Qed.

Lemma bind_page_ok tr iss s token b parent :
  session_ok tr iss s -> page_bindings s !! token = None -> token ∈ iss ->
  resolves s (binding_parent b) parent ->
  returned_token tr (native_session_id s) parent (binding_size b) (native_page_token b) ->
  session_ok tr iss (bind_page s token b).
Proof.
  intros [H1 H2 H3 H4 H5 H6 H7] Hnew Hiss Hres Hret. unfold bind_page.
  assert (Hq : queued (<[token := b]> (page_bindings s)) (page_binding_order s ++ [token])).
  { apply queued_push; [done|]. rewrite <- (queued_keys _ _ H3), Hnew. by intros []. }
  pose proof (queued_evict MAX_PAGE_BINDINGS_PER_SESSION _ _ Hq) as He.
  pose proof (evict_length MAX_PAGE_BINDINGS_PER_SESSION (page_binding_order s ++ [token])
    (<[token := b]> (page_bindings s)) ltac:(done)) as Hl.
  pose proof (evict_subseteq MAX_PAGE_BINDINGS_PER_SESSION (page_binding_order s ++ [token])
    (<[token := b]> (page_bindings s))) as Hs.
  destruct (evict _ _ _) as [ps o]. split; try done. simpl in *.
  intros k b' Hk. eapply lookup_weaken in Hk; [|exact Hs].
  apply lookup_insert_Some in Hk as [[<- <-]|[_ Hk]]; [|by apply H7].
  split; [done|]. by exists parent.
Qed.

Lemma bind_node_ok tr iss s k v :
  session_ok tr iss s -> node_bindings s !! k = None -> k ∈ iss ->
  returned_node tr (native_session_id s) v ->
  Z.of_nat (size (node_bindings s)) + 1 <= MAX_NODE_BINDINGS_PER_SESSION ->
  session_ok tr iss (bind_node s k v).
Proof.
  intros [H1 H2 H3 H4 H5 H6 H7] Hnew Hk Hv Hsize. split; simpl; try done.
  - rewrite map_size_insert_None by done. lia.
  - intros k' v' Hk'. by apply lookup_insert_Some in Hk' as [[<- <-]|[_ Hk']]; [|apply H6].
  - intros k' b Hb. destruct (H7 k' b Hb) as (H8 & p & H9 & H10). split; [done|].
    exists p. split; [|done]. apply (resolves_weaken s); [|done]. by apply insert_subseteq.
Qed.

Lemma bind_nodes_ok tr iss named : forall s,
  session_ok tr iss s -> NoDup named.*1 ->
  (forall k, k ∈ named.*1 -> node_bindings s !! k = None /\ k ∈ iss) ->
  (forall x, x ∈ named.*2 -> returned_node tr (native_session_id s) (node_key x)) ->
  Z.of_nat (size (node_bindings s)) + Z.of_nat (length named) <= MAX_NODE_BINDINGS_PER_SESSION ->
  session_ok tr iss (bind_nodes s named) /\ node_bindings s ⊆ node_bindings (bind_nodes s named) /\
  page_bindings (bind_nodes s named) = page_bindings s.
Proof.
  induction named as [|[k x] named IH]; intros s Hs Hnd Hk Hx Hsize; [done|].
  apply NoDup_cons in Hnd as [Hknew Hnd].
  destruct (Hk k ltac:(by left)) as [Hnone Hin].
  change (bind_nodes s ((k, x) :: named)) with (bind_nodes (bind_node s k (node_key x)) named).
  cbn [length] in Hsize.
  destruct (IH (bind_node s k (node_key x))) as (IH1 & IH2 & IH3).
  - apply bind_node_ok; [done..| |lia]. apply Hx. by left.
  - done.
  - intros k' Hk'. simpl. rewrite lookup_insert_ne by (intros ->; done). apply Hk. by right.
  - intros x' Hx'. apply (Hx x'). by right.
  - simpl. rewrite map_size_insert_None by done. lia.
  - split; [done|]. split; [|done]. etransitivity; [|exact IH2]. by apply insert_subseteq.
Qed.

Lemma combine_fst {A B} (l : list A) : forall k : list B, length l = length k -> (combine l k).*1 = l.
Proof. induction l as [|x l IH]; intros [|y k] Hl; simpl in *; [done..|]. by rewrite IH by lia. Qed.
Lemma combine_snd {A B} (l : list A) : forall k : list B, length l = length k -> (combine l k).*2 = k.
Proof. induction l as [|x l IH]; intros [|y k] Hl; simpl in *; [done..|]. by rewrite IH by lia. Qed.

(** ** The invariant *)

(** What a request knows of the native keys it will send. *)
Definition resolved_ok (st : Shared) (a : BrowseArgs) (r : Resolved) : Prop :=
  (forall v, r_parent r = Some v -> returned_node (trace st) (r_session r) v) /\
  (forall k, r_token r = Some k ->
     returned_token (trace st) (r_session r) (r_parent r) (key_size (arg_key a)) k) /\
  (forall s, sessions st !! arg_session a = Some s ->
     resolves s (key_parent (arg_key a)) (r_parent r)).

Definition task_ok (st : Shared) (pc : Pc) : Prop :=
  match pc with
  | Waiting a r | Locked a r | Calling a r => resolved_ok st a r
  | Returned a r page =>
      resolved_ok st a r /\
      NReturn (r_session r) (r_parent r) (key_size (arg_key a)) (Some page) ∈ trace st
  | _ => True
  end.

(** Every call names keys the client returned before it. *)
Definition confined (tr : list NativeEvent) : Prop :=
  forall before n parent token size after,
    tr = before ++ NBrowse n parent token size :: after ->
    (forall v, parent = Some v -> returned_node before n v) /\
    (forall k, token = Some k -> returned_token before n parent size k).

Record keys_inv (st : Shared) (ts : gmap nat Pc) : Prop := {
  keys_sessions : forall sid s, sessions st !! sid = Some s ->
    session_ok (trace st) (issued st) s;
  keys_tasks : forall t pc, ts !! t = Some pc -> task_ok st pc;
  keys_size : Z.of_nat (size (sessions st)) <= MAX_ACTIVE_SESSIONS;
  keys_confined : confined (trace st)
}.

(** The sessions requests know only gain bindings. *)
Definition grows (st st' : Shared) : Prop :=
  trace st ⊆ trace st' /\ issued st ⊆ issued st' /\
  forall sid s', sessions st' !! sid = Some s' ->
    history st !! sid = None \/
    exists s, sessions st !! sid = Some s /\ node_bindings s ⊆ node_bindings s'.

Lemma resolved_grows st st' a r :
  grows st st' -> is_Some (history st !! arg_session a) ->
  resolved_ok st a r -> resolved_ok st' a r.
Proof.
  intros (Ht & Hi & Hs) [n Hh] (H1 & H2 & H3). split; [|split].
  - intros v Hv. destruct (H1 v Hv) as (p & z & g & H4 & H5). exists p, z, g.
    by split; [apply Ht|].
  - intros k Hk. destruct (H2 k Hk) as (g & H4 & H5). exists g. by split; [apply Ht|].
  - intros s' Hs'. destruct (Hs _ _ Hs') as [?|(s & Hs1 & Hs2)]; [congruence|].
    apply (resolves_weaken s); [done|]. by apply H3.
Qed.

Lemma task_grows w t pc st' :
  system_inv (shared w) (tasks w) -> tasks w !! t = Some pc -> grows (shared w) st' ->
  task_ok (shared w) pc -> task_ok st' pc.
Proof.
  intros I Hpc Hg. pose proof (view_of_task w t pc Hpc) as Hv.
  assert (Hk : forall a r, v_knows (view pc) = [(arg_session a, r_session r)] ->
    is_Some (history (shared w) !! arg_session a)).
  { intros a r Hkn. exists (r_session r). apply (inv_knows _ _ _ _ I _ _ _ _ Hv).
    rewrite Hkn. by apply list_elem_of_singleton. }
  destruct pc; simpl; try done.
  1-3: by intros; eapply resolved_grows; [done|by eapply Hk|].
  intros [H1 H2]. split; [by eapply resolved_grows; [done|by eapply Hk|]|]. by apply Hg.
Qed.

Lemma confined_snoc tr e :
  confined tr ->
  match e with
  | NBrowse n parent token size =>
      (forall v, parent = Some v -> returned_node tr n v) /\
      (forall k, token = Some k -> returned_token tr n parent size k)
  | _ => True
  end -> confined (tr ++ [e]).
Proof.
  intros Hc He before n parent token size after Heq.
  destruct after as [|x after] using rev_ind.
  - apply app_inj_tail in Heq as [-> ->]. done.
  - rewrite app_comm_cons, app_assoc in Heq. apply app_inj_tail in Heq as [Heq _].
    by eapply Hc.
Qed.

(** What a section leaves in the map: sessions in order, known ones with their bindings. *)
Record sessions_ok (st : Shared) (iss : gset string) (s' : Sessions) : Prop := {
  sok_session : forall sid s, s' !! sid = Some s -> session_ok (trace st) iss s;
  sok_size : Z.of_nat (size s') <= MAX_ACTIVE_SESSIONS;
  sok_grows : forall sid x, s' !! sid = Some x ->
    history st !! sid = None \/
    exists s, sessions st !! sid = Some s /\ node_bindings s ⊆ node_bindings x
}.

Lemma keys_step w t pc sessions' es iss' hist' pc' :
  let st := shared w in
  let st' := mk_shared sessions' (trace st ++ es) hist' iss' in
  system_inv st (tasks w) -> keys_inv st (tasks w) -> tasks w !! t = Some pc ->
  sessions_ok st iss' sessions' -> issued st ⊆ iss' -> confined (trace st ++ es) ->
  (grows st st' -> task_ok st' pc -> task_ok st' pc') ->
  keys_inv st' (<[t := pc']> (tasks w)).
Proof.
  cbn zeta. intros I [K1 K2 K3 K4] Hpc [S1 S2 S3] Hi Hc Ht.
  assert (Hg : grows (shared w) (mk_shared sessions' (trace (shared w) ++ es) hist' iss')).
  { split; [|by split]. simpl. intros e He. apply elem_of_app. by left. }
  split; simpl; [|..|done|done].
  - intros sid s Hs. apply (session_ok_mono (trace (shared w)) _ iss'); [|done|by eapply S1].
    intros e He. apply elem_of_app. by left.
  - intros t' pc1 [[<- <-]|[Hne H1]]%lookup_insert_Some.
    + apply Ht; [done|]. eapply task_grows; [done..|]. by eapply K2.
    + eapply task_grows; [done..|]. by eapply K2.
Qed.

Lemma same_ok st ts : keys_inv st ts -> sessions_ok st (issued st) (sessions st).
Proof.
  intros [K1 K2 K3 K4]. split; [done|done|]. intros sid x Hx. right. by exists x.
Qed.

Lemma sub_ok st ts s' : keys_inv st ts -> s' ⊆ sessions st -> sessions_ok st (issued st) s'.
Proof.
  intros [K1 K2 K3 K4] Hs. split.
  - intros sid s Hl. eapply K1, lookup_weaken; [exact Hl|done].
  - apply map_subseteq_size in Hs. lia.
  - intros sid x Hx. right. exists x. split; [by eapply lookup_weaken|done].
Qed.

(** A session replaced by one with more bindings. *)
Lemma replace_ok st iss s' sid x y :
  sessions_ok st iss s' -> s' !! sid = Some x -> session_ok (trace st) iss y ->
  node_bindings x ⊆ node_bindings y -> sessions_ok st iss (<[sid := y]> s').
Proof.
  intros [S1 S2 S3] Hx Hy Hsub. split.
  - intros k s [[<- <-]|[_ Hk]]%lookup_insert_Some; [done|by eapply S1].
  - by rewrite map_size_insert_Some by (by eexists).
  - intros k z [[<- <-]|[_ Hk]]%lookup_insert_Some; [|by apply S3].
    destruct (S3 sid x Hx) as [?|(s & H1 & H2)]; [by left|right]. exists s. split; [done|].
    by etransitivity.
Qed.

Lemma enter_ok st ts server sid key refresh now s' r :
  keys_inv st ts -> browse_enter (sessions st) server sid key refresh now = (s', r) ->
  sessions_ok st (issued st) s'.
Proof.
  intros K. pose proof (same_ok st ts K) as S. unfold browse_enter.
  destruct (sessions st !! sid) as [s|] eqn:E; [|by intros [= <- _]].
  destruct (negb _); [by intros [= <- _]|].
  assert (St : sessions_ok st (issued st) (<[sid := touch now s]> (sessions st))).
  { eapply replace_ok; [done..|apply touch_ok|done]. by eapply (sok_session _ _ _ S). }
  destruct (transpose (resolve_node _ <$> _)); [|by intros [= <- _]].
  destruct (transpose (resolve_page _ _ <$> _)); [|by intros [= <- _]].
  destruct refresh; intros [= <- _]; [|done].
  eapply replace_ok; [done|apply lookup_insert_eq|apply invalidate_ok|done].
  apply touch_ok. by eapply (sok_session _ _ _ S).
Qed.

Lemma recheck_ok st ts sid key refresh now s' r :
  keys_inv st ts -> browse_recheck (sessions st) sid key refresh now = (s', r) ->
  sessions_ok st (issued st) s'.
Proof.
  intros K. pose proof (same_ok st ts K) as S. unfold browse_recheck.
  destruct (sessions st !! sid) as [s|] eqn:E; intros [= <- _]; [|done].
  eapply replace_ok; [done..|apply touch_ok|done]. by eapply (sok_session _ _ _ S).
Qed.

(** What entering resolves is what the session was told by the client. *)
Lemma enter_resolves st ts a now s' r page :
  keys_inv st ts ->
  browse_enter (sessions st) (arg_server a) (arg_session a) (arg_key a) (arg_refresh a) now
    = (s', Ok (r, page)) ->
  resolved_ok (with_sessions st s') a r.
Proof.
  intros K He. pose proof (enter_ok _ _ _ _ _ _ _ _ _ K He) as S. revert He.
  unfold browse_enter. destruct (sessions st !! arg_session a) as [s|] eqn:E; [|done].
  pose proof (keys_sessions _ _ K _ _ E) as Hs.
  destruct (negb _); [done|].
  destruct (transpose (resolve_node _ <$> _)) as [p|] eqn:Ep; [|done].
  destruct (transpose (resolve_page _ _ <$> _)) as [q|] eqn:Eq; [|done].
  assert (Hres : resolves s (key_parent (arg_key a)) p).
  { destruct (key_parent (arg_key a)) as [k|]; simpl in Ep |- *; [|by injection Ep as <-].
    unfold resolve_node in Ep. simpl in Ep.
    destruct (node_bindings s !! k) as [v|] eqn:Ev; simpl in Ep; [|done].
    injection Ep as <-. split; [by eexists|done]. }
  assert (Hsame : forall x, s' !! arg_session a = Some x -> node_bindings x = node_bindings s ->
    resolves x (key_parent (arg_key a)) p).
  { intros x _ Hx. eapply resolves_weaken; [|exact Hres]. by rewrite Hx. }
  intros He. assert (Hr : r = {| r_session := native_session_id s; r_parent := p; r_token := q |}
    /\ forall x, s' !! arg_session a = Some x -> node_bindings x = node_bindings s).
  { destruct (arg_refresh a); injection He as <- <- _; (split; [done|]); intros x;
      rewrite lookup_insert_eq; by intros [= <-]. }
  destruct Hr as [-> Hx]. split; [|split]; simpl.
  - intros v ->. destruct (key_parent (arg_key a)) as [k|]; simpl in Hres; [|done].
    by destruct (ok_nodes _ _ _ Hs k v) as [_ ?]; [apply Hres|].
  - intros tok ->. destruct (key_token (arg_key a)) as [g|]; simpl in Eq; [|done].
    unfold resolve_page in Eq. simpl in Eq.
    destruct (page_bindings s !! g) as [b|] eqn:Eb; simpl in Eq; [|done].
    destruct (Z.eqb_spec (binding_size b) (key_size (arg_key a))) as [Hz|]; [|done].
    destruct (bool_decide _) eqn:Ebp; simpl in Eq; [|done]. injection Eq as <-.
    apply bool_decide_eq_true in Ebp.
    destruct (ok_tokens _ _ _ Hs g b Eb) as (_ & parent & Hpar & Hret).
    rewrite <- Hz. assert (parent = p) as <-; [|done]. rewrite Ebp in Hpar.
    destruct (key_parent (arg_key a)); simpl in Hpar, Hres; [|congruence].
    destruct Hpar as [_ <-], Hres as [_ <-]. done.
  - intros x Hx'. apply Hsame; [done|]. by apply Hx.
Qed.

(** The page a request stores: its nodes and its continuation get new tokens. *)
Lemma commit_ok w t a r page now tokens token s' out :
  let st := shared w in
  system_inv st (tasks w) -> keys_inv st (tasks w) ->
  tasks w !! t = Some (Returned a r page) ->
  NoDup (token :: tokens) -> (forall x, x ∈ token :: tokens -> x ∉ issued st) ->
  length tokens = length (page_nodes page) ->
  browse_commit (sessions st) (arg_session a) (arg_key a) page now tokens token = (s', out) ->
  sessions_ok st (list_to_set (token :: tokens) ∪ issued st) s'.
Proof.
  cbn zeta. set (st := shared w). set (iss := list_to_set (token :: tokens) ∪ issued st).
  intros I K Hpc Hnd Hfresh Hlen. pose proof (same_ok st _ K) as S.
  assert (S' : sessions_ok st iss (sessions st)).
  { destruct S as [S1 S2 S3]. split; [|done|done]. intros sid s Hs.
    apply (session_ok_mono (trace st) _ (issued st)); [done|set_solver|by eapply S1]. }
  unfold browse_commit. destruct (sessions st !! arg_session a) as [s|] eqn:E; [|by intros [= <- _]].
  pose proof (sok_session _ _ _ S' _ _ E) as Hs.
  pose proof (sok_session _ _ _ S _ _ E) as Hold.
  assert (St : session_ok (trace st) iss (touch now s)) by by apply touch_ok.
  destruct (Z.ltb_spec MAX_NODE_BINDINGS_PER_SESSION
    (Z.of_nat (size (node_bindings (touch now s))) + Z.of_nat (length (page_nodes page))))
    as [_|Hroom]; intros [= <- _]; [by eapply replace_ok|].
  destruct (keys_tasks _ _ K _ _ Hpc) as [(R1 & R2 & R3) Hret].
  assert (Hn : native_session_id s = r_session r).
  { assert (Hh : history st !! arg_session a = Some (r_session r)).
    { apply (inv_knows _ _ _ _ I _ _ _ _ (view_of_task w t _ Hpc)).
      by apply list_elem_of_singleton. }
    assert (Hl : natives (sessions st) !! arg_session a = Some (native_session_id s))
      by (apply natives_lookup; by exists s).
    apply (inv_live _ _ _ _ I) in Hl as [Hl _]. fold st in Hl. congruence. }
  apply NoDup_cons in Hnd as [Htok Hnd].
  assert (Hnew : forall k, k ∈ token :: tokens -> node_bindings s !! k = None /\
    page_bindings s !! k = None).
  { intros k Hk. specialize (Hfresh k Hk). split.
    - destruct (node_bindings s !! k) as [v|] eqn:Ev; [|done].
      by destruct (ok_nodes _ _ _ Hold k v Ev).
    - destruct (page_bindings s !! k) as [v|] eqn:Ev; [|done].
      by destruct (ok_tokens _ _ _ Hold k v Ev). }
  destruct (bind_nodes_ok (trace st) iss (combine tokens (page_nodes page)) (touch now s))
    as (B1 & B2 & B3); [done|by rewrite combine_fst|..].
  { intros k Hk. rewrite combine_fst in Hk by done. split; [apply Hnew; by right|].
    unfold iss. apply elem_of_union_l, elem_of_list_to_set. by right. }
  { intros x Hx. rewrite combine_snd in Hx by done. simpl. rewrite Hn.
    exists (r_parent r), (key_size (arg_key a)), page. split; [done|].
    by apply list_elem_of_fmap_2. }
  { rewrite length_combine, Hlen, Nat.min_id. exact Hroom. }
  set (bound := bind_nodes _ _) in *.
  assert (Hbn : native_session_id bound = r_session r) by (unfold bound; by rewrite bind_nodes_native).
  eapply (replace_ok _ _ _ _ s); [done|done|apply cache_page_ok|].
  - destruct (page_next_page_token page) as [tok|] eqn:Etok; [|done].
    apply (bind_page_ok _ _ _ _ _ (r_parent r)); simpl.
    + done.
    + rewrite B3. apply Hnew. by left.
    + unfold iss. apply elem_of_union_l, elem_of_list_to_set. by left.
    + apply (resolves_weaken s); [done|]. by apply R3.
    + rewrite Hbn. by exists page.
  - assert (Hc : forall x key g, node_bindings (cache_page x key g) = node_bindings x).
    { intros x key g. unfold cache_page. by destruct (evict _ _ _). }
    assert (Hb : forall x k b, node_bindings (bind_page x k b) = node_bindings x).
    { intros x k b. unfold bind_page. by destruct (evict _ _ _). }
    rewrite Hc. destruct (page_next_page_token page); rewrite ?Hb; exact B2.
Qed.

Lemma keys_quiet w t pc sessions' pc' :
  system_inv (shared w) (tasks w) -> keys_inv (shared w) (tasks w) -> tasks w !! t = Some pc ->
  sessions_ok (shared w) (issued (shared w)) sessions' ->
  (grows (shared w) (with_sessions (shared w) sessions') ->
   task_ok (with_sessions (shared w) sessions') pc ->
   task_ok (with_sessions (shared w) sessions') pc') ->
  keys_inv (with_sessions (shared w) sessions') (<[t := pc']> (tasks w)).
Proof.
  intros I K Hpc Hs Ht. unfold with_sessions in *. rewrite <- (app_nil_r (trace (shared w))) in *.
  apply (keys_step w t pc); try done. rewrite app_nil_r. apply K.
Qed.

Lemma keys_same w t pc pc' :
  system_inv (shared w) (tasks w) -> keys_inv (shared w) (tasks w) -> tasks w !! t = Some pc ->
  (task_ok (shared w) pc -> task_ok (shared w) pc') ->
  keys_inv (shared w) (<[t := pc']> (tasks w)).
Proof.
  intros I K Hpc Ht. rewrite <- (same_sessions (shared w)) at 1.
  apply (keys_quiet w t pc); [done..|by eapply same_ok|]. by rewrite same_sessions.
Qed.

Lemma keys_log w t pc sessions' e pc' :
  let st := shared w in let st' := log (with_sessions st sessions') e in
  system_inv st (tasks w) -> keys_inv st (tasks w) -> tasks w !! t = Some pc ->
  sessions_ok st (issued st) sessions' ->
  match e with NBrowse _ _ _ _ => confined (trace st ++ [e]) | _ => True end ->
  (grows st st' -> task_ok st' pc -> task_ok st' pc') ->
  keys_inv st' (<[t := pc']> (tasks w)).
Proof.
  cbn zeta. intros I K Hpc Hs He Ht. apply (keys_step w t pc); try done.
  destruct e; try done; by apply confined_snoc; [apply K|].
Qed.

Lemma task_ok_end st : forall a r, task_ok st (after_browse a r).
Proof. intros a [p|e]; simpl; [done|]. by destruct (arg_temporary a). Qed.
Lemma task_ok_closed st f r : task_ok st (after_close f r).
Proof. by destruct f, r. Qed.
Lemma task_ok_opened st server sid b : task_ok st (after_open server sid b).
Proof. by destruct b as [[? ?]|]. Qed.

Lemma expired_ok st ts now kept expired :
  keys_inv st ts -> remove_expired (sessions st) now = (kept, expired) ->
  sessions_ok st (issued st) kept.
Proof.
  intros K [= <- _]. apply (sub_ok st ts); [done|]. apply map_filter_subseteq.
Qed.

#[local] Hint Resolve task_ok_end task_ok_closed task_ok_opened same_ok expired_ok enter_ok
  recheck_ok : keys.

Lemma store_ok w t server n browse sid now sessions' :
  let st := shared w in
  keys_inv st (tasks w) -> tasks w !! t = Some (Opened server n browse) ->
  history st !! sid = None ->
  open_commit (sessions st) sid (new_session server n now) = (sessions', None) ->
  sessions_ok st (issued st) sessions'.
Proof.
  cbn zeta. intros K Hpc Hh. unfold open_commit.
  destruct (Z.leb_spec MAX_ACTIVE_SESSIONS (Z.of_nat (size (sessions (shared w))))) as [|Hlt];
    [done|]. intros [= <-]. destruct (same_ok _ _ K) as [S1 S2 S3]. split.
  - intros k s [[<- <-]|[_ Hk]]%lookup_insert_Some; [apply new_session_ok|by eapply S1].
  - pose proof (map_size_insert sid (new_session server n now) (sessions (shared w))) as Hsz.
    rewrite Hsz. destruct (sessions (shared w) !! sid); unfold id; simpl; lia.
  - intros k x [[<- <-]|[_ Hk]]%lookup_insert_Some; [by left|by eapply S3].
Qed.

Lemma call_confined w t a r :
  keys_inv (shared w) (tasks w) -> tasks w !! t = Some (Locked a r) ->
  confined (trace (shared w) ++
    [NBrowse (r_session r) (r_parent r) (r_token r) (key_size (arg_key a))]).
Proof.
  intros K Hpc. apply confined_snoc; [apply K|].
  destruct (keys_tasks _ _ K _ _ Hpc) as (R1 & R2 & _). by split.
Qed.

Lemma task_step_keys w t pc st' pc' :
  tasks w !! t = Some pc -> system_inv (shared w) (tasks w) -> keys_inv (shared w) (tasks w) ->
  task_step (lock_free w t) (shared w) pc st' pc' -> keys_inv st' (<[t := pc']> (tasks w)).
Proof.
  intros Hpc I K Hstep. inversion Hstep; subst;
    try (by eapply (keys_same w t _ _ I K Hpc); eauto with keys);
    try (by eapply (keys_quiet w t _ _ _ I K Hpc); eauto with keys);
    try (rewrite <- (log_same (shared w)));
    try (by eapply (keys_log w t _ _ _ _ I K Hpc); eauto with keys).
  - match goal with H : open_commit _ _ _ = _ |- _ =>
      pose proof (store_ok w t _ _ _ _ _ _ K Hpc ltac:(eassumption) H) as Hs end.
    pose proof (keys_step w t _ sessions' [] (issued (shared w)) (<[sid := native]> (history (shared w)))
      (after_open server sid browse) I K Hpc Hs) as Hk.
    rewrite app_nil_r in Hk. apply Hk; [done|apply K|]. intros _ _. apply task_ok_opened.
  - match goal with H : open_commit _ _ _ = _ |- _ =>
      unfold open_commit in H; destruct (_ <=? _); [|done]; injection H as <- <- end.
    by eapply (keys_log w t _ _ _ _ I K Hpc); eauto with keys.
  - eapply (keys_quiet w t _ _ _ I K Hpc); [by eauto with keys|]. intros _ _.
    by eapply enter_resolves.
  - eapply (keys_log w t _ _ _ _ I K Hpc); [by eauto with keys|by apply (call_confined w t)|done].
  - eapply (keys_log w t _ _ _ _ I K Hpc); [by eauto with keys|done|]. intros _ Hr.
    split; [exact Hr|]. simpl. apply elem_of_app. right. by apply list_elem_of_singleton.
  - match goal with H : browse_commit _ _ _ _ _ _ _ = _ |- _ =>
      pose proof (commit_ok w t _ _ _ _ _ _ _ _ I K Hpc ltac:(eassumption) ltac:(eassumption)
        ltac:(eassumption) H) as Hs end.
    pose proof (keys_step w t _ sessions' [] (list_to_set (token :: tokens) ∪ issued (shared w))
      (history (shared w)) (after_browse a result) I K Hpc Hs) as Hk.
    rewrite app_nil_r in Hk. apply Hk; [set_solver|apply K|]. intros _ _. apply task_ok_end.
  - match goal with H : close_remove _ _ = _ |- _ => injection H as <- _ end.
    eapply (keys_quiet w t _ _ _ I K Hpc); [|by eauto with keys].
    eapply sub_ok; [done|apply delete_subseteq].
  - match goal with H : close_remove _ _ = _ |- _ => injection H as <- _ end.
    eapply (keys_log w t _ _ _ _ I K Hpc); [|done|done].
    eapply sub_ok; [done|apply delete_subseteq].
Qed.

Lemma reachable_keys w : reachable w -> keys_inv (shared w) (tasks w).
Proof.
  induction 1 as [|w w' Hr K Hstep].
  - split; simpl.
    + intros sid s Hs. by rewrite lookup_empty in Hs.
    + intros t pc Hs. by rewrite lookup_empty in Hs.
    + done.
    + intros before n parent token size after Heq. by destruct before.
  - pose proof (reachable_inv w Hr) as I. destruct Hstep as [w t call Ht|w t pc st' pc' Hpc Hstep].
    + destruct K as [K1 K2 K3 K4]. split; simpl; [done| |done|done].
      intros t' pc [[<- <-]|[_ H1]]%lookup_insert_Some; [done|by eapply K2].
    + by eapply task_step_keys.
Qed.

(** C16: the gateway never forwards a key the client did not give it. In every
    interleaving, each browse call to the client names a parent that an earlier answer
    for the same native session listed, and a page token that an earlier answer for
    the same native session, the same parent and the same page size ended with. *)
Theorem browse_keys_confined (w : World) (before after : list NativeEvent) (n : string)
    (parent token : option string) (size : Z) (Hr : reachable w)
    (Htrace : trace (shared w) = before ++ NBrowse n parent token size :: after) :
  (forall v, parent = Some v -> returned_node before n v) /\
  (forall k, token = Some k -> returned_token before n parent size k).
Proof. by eapply (keys_confined _ _ (reachable_keys w Hr)). Qed.

(** Browsing is bounded. In every interleaving there are at most 128 sessions, and a
    session has at most 256 cached pages, 256 continuation tokens and 100,000 node
    keys, its queues listing exactly the keys of its maps. *)
Theorem browse_bounded (w : World) (sid : string) (s : Session) (Hr : reachable w)
    (Hs : sessions (shared w) !! sid = Some s) :
  Z.of_nat (size (sessions (shared w))) <= 128 /\
  Z.of_nat (size (pages s)) <= 256 /\ Z.of_nat (size (page_bindings s)) <= 256 /\
  Z.of_nat (size (node_bindings s)) <= 100000 /\
  (forall key, key ∈ page_order s <-> is_Some (pages s !! key)) /\
  (forall token, token ∈ page_binding_order s <-> is_Some (page_bindings s !! token)).
Proof.
  destruct (reachable_keys w Hr) as [K1 _ K3 _]. destruct (K1 sid s Hs) as [H1 H2 H3 H4 H5 _ _].
  rewrite (queued_size _ _ H1), (queued_size _ _ H3).
  split; [done|]. split; [done|]. split; [done|]. split; [done|].
  by split; intros; symmetry; [apply (queued_keys _ _ H1)|apply (queued_keys _ _ H3)].
Qed.

(** *** A session browsed to its first level, and the request for the second *)

Definition demo_page : BrowsePage :=
  {| page_nodes := [{| node_key := "x"; node_display_name := [65]; node_kind := NodeBranch;
                       node_item_id := None |}];
     page_next_page_token := None; page_complete := true;
     page_organization := OrgHierarchical; page_source := SourceDa3; page_warning := None |}.
Definition demo_args (parent : option string) : BrowseArgs :=
  {| arg_server := "plc"; arg_session := "s";
     arg_key := {| key_parent := parent; key_token := None; key_size := 200 |};
     arg_refresh := false; arg_temporary := false |}.
Definition demo_resolved (parent : option string) : Resolved :=
  {| r_session := "n"; r_parent := parent; r_token := None |}.

Lemma lock_free_check w t sid :
  forallb (fun p => negb (bool_decide (holds p.2 = Some sid)) || bool_decide (p.1 = t))
    (map_to_list (tasks w)) = true -> lock_free w t sid.
Proof.
  rewrite forallb_forall. intros Hf t' pc Hpc Hh.
  specialize (Hf (t', pc)). rewrite <- list_elem_of_In, elem_of_map_to_list in Hf.
  specialize (Hf Hpc). simpl in Hf. rewrite Hh in Hf. rewrite bool_decide_eq_true_2 in Hf by done.
  by apply bool_decide_eq_true in Hf.
Qed.

Lemma fresh_check (l : list string) (iss : gset string) :
  forallb (fun x => negb (bool_decide (x ∈ iss))) l = true -> forall x, x ∈ l -> x ∉ iss.
Proof.
  rewrite forallb_forall. intros Hf x Hx. rewrite list_elem_of_In in Hx. specialize (Hf x Hx).
  by rewrite negb_true_iff, bool_decide_eq_false in Hf.
Qed.

(** Request [t] makes the step that [tac] proves. *)
Ltac advance R t tac :=
  eapply (reachable_task _ t) in R; [|reflexivity|tac]; vm_compute in R.
(** A browse request up to the client's call, and its end. *)
Ltac browse_call R t :=
  advance R t ltac:(eapply (step_call_browse _ _ _ _ _ _ _ _ 0); reflexivity);
  advance R t ltac:(eapply step_browse; reflexivity);
  advance R t ltac:(eapply (step_enter _ _ _ 0); reflexivity);
  advance R t ltac:(eapply step_lock; apply lock_free_check; vm_compute; reflexivity);
  advance R t ltac:(eapply (step_recheck _ _ _ _ 0); reflexivity).

Lemma reachable_spawn w t call :
  reachable w -> tasks w !! t = None ->
  reachable (mk_world (shared w) (<[t := Start call]> (tasks w))).
Proof. intros Hr Ht. eapply reachable_step; [exact Hr|]. by apply step_spawn. Qed.

Lemma demo_browse_reachable : exists w, reachable w /\
  trace (shared w) = [NOpen "n"; NBrowse "n" None None 200;
                      NReturn "n" None 200 (Some demo_page); NBrowse "n" (Some "x") None 200].
Proof.
  pose proof demo_open_reachable as R.
  eapply (reachable_spawn _ 1%nat (CallBrowse "plc" (Some "s") None None 0 false)) in R;
    [|reflexivity].
  vm_compute in R. browse_call R 1%nat.
  advance R 1%nat ltac:(apply (step_returned _ _ _ _ demo_page); reflexivity).
  advance R 1%nat ltac:(eapply (step_commit _ _ _ _ _ 0 ["k"] "p");
    [apply (bool_decide_unpack _); reflexivity|by apply fresh_check|reflexivity|reflexivity]).
  eapply (reachable_spawn _ 2%nat (CallBrowse "plc" (Some "s") (Some "k") None 0 false)) in R;
    [|reflexivity].
  vm_compute in R. browse_call R 2%nat.
  eexists. split; [exact R|]. reflexivity.
Qed.

Lemma browse_keys_confined_witness :
  returned_node [NOpen "n"; NBrowse "n" None None 200; NReturn "n" None 200 (Some demo_page)] "n" "x".
Proof.
  destruct demo_browse_reachable as (w & Hr & Ht).
  exact (proj1 (browse_keys_confined w
    [NOpen "n"; NBrowse "n" None None 200; NReturn "n" None 200 (Some demo_page)] []
    "n" (Some "x") None 200 Hr Ht) "x" eq_refl).
Defined.

