(* ===== verification/Store.v ===== *)
(** * The index database (index/store.rs)

    The tables of the SQLite database that holds the namespace indexes, and the
    statements the gateway runs on them. A table is the list of its rows in
    rowid order; [index_meta] and [enrolled_servers] are maps on their primary
    keys. A statement that fails inside a transaction leaves the database as it
    was; statements outside a transaction commit one by one, so an operation
    returns the database together with its result. *)
From S2P Require Import Prelude Text Schedule Opc.

(** ** Rows *)

Inductive GenerationState := Staging | Active | Superseded | Failed.
#[export] Instance GenerationState_eq_dec : EqDecision GenerationState.
Proof. solve_decision. Defined.

Record EnrolledServer := {
  auto_refresh_enabled : bool;
  enrolled_at : string;
  updated_at : string
}.

Record Generation := {
  g_rowid : Z;
  g_server : string;
  g_generation : Z;
  g_state : GenerationState;
  g_organization : string;
  g_source : string;
  g_started_at : string;
  g_completed_at : option string;
  g_entry_count : Z;
  g_unique_item_count : Z;
  g_last_error : option string;
  g_compatibility_fallback : bool
}.

Record EntryRow := {
  e_server : string;
  e_generation : Z;
  e_item_id : ustr;
  e_item_id_norm : ustr;
  e_display_name : ustr;
  e_display_name_norm : ustr;
  e_kind : Z;
  e_breadcrumbs : ustr
}.

Record FtsRow := {
  f_rowid : Z;
  f_server : string;
  f_generation : Z;
  f_item_id : ustr;
  f_display_name : ustr;
  f_breadcrumbs : ustr
}.

Record IndexDb := {
  index_meta : gmap string string;
  enrolled_servers : gmap string EnrolledServer;
  generations : list Generation;
  entries : list EntryRow;
  entries_fts : list FtsRow
}.

Definition SCHEMA_VERSION : Z := 4.
Definition empty_db : IndexDb :=
  {| index_meta := ∅; enrolled_servers := ∅; generations := []; entries := [];
     entries_fts := [] |}.

Definition set_meta (db : IndexDb) m :=
  {| index_meta := m; enrolled_servers := enrolled_servers db;
     generations := generations db; entries := entries db; entries_fts := entries_fts db |}.
Definition set_enrolled (db : IndexDb) m :=
  {| index_meta := index_meta db; enrolled_servers := m;
     generations := generations db; entries := entries db; entries_fts := entries_fts db |}.
Definition set_generations (db : IndexDb) l :=
  {| index_meta := index_meta db; enrolled_servers := enrolled_servers db;
     generations := l; entries := entries db; entries_fts := entries_fts db |}.
Definition set_entries (db : IndexDb) l :=
  {| index_meta := index_meta db; enrolled_servers := enrolled_servers db;
     generations := generations db; entries := l; entries_fts := entries_fts db |}.
Definition set_fts (db : IndexDb) l :=
  {| index_meta := index_meta db; enrolled_servers := enrolled_servers db;
     generations := generations db; entries := entries db; entries_fts := l |}.

(** ** SQL building blocks *)

(** [UPDATE .. WHERE p], [DELETE .. WHERE p] and [.. WHERE EXISTS]. *)
Definition update_where {A : Type} (p : A -> bool) (f : A -> A) (rows : list A) : list A :=
  map (fun r => if p r then f r else r) rows.
Definition delete_where {A : Type} (p : A -> bool) (rows : list A) : list A :=
  List.filter (fun r => negb (p r)) rows.
Definition count_where {A : Type} (p : A -> bool) (rows : list A) : Z :=
  Z.of_nat (length (List.filter p rows)).

(** The rowid of a new row: one more than the largest. *)
Definition max_of (l : list Z) : Z := fold_right Z.max 0 l.
Definition next_rowid {A : Type} (rowid : A -> Z) (rows : list A) : Z :=
  max_of (map rowid rows) + 1.

Definition is_state (s : GenerationState) (r : Generation) : bool := bool_decide (g_state r = s).
Definition of_server (server : string) (r : Generation) : bool := bool_decide (g_server r = server).
Definition has_key (server : string) (generation : Z) (r : Generation) : bool :=
  of_server server r && (g_generation r =? generation).
Definition entry_of (server : string) (generation : Z) (e : EntryRow) : bool :=
  bool_decide (e_server e = server) && (e_generation e =? generation).
Definition fts_of (server : string) (generation : Z) (f : FtsRow) : bool :=
  bool_decide (f_server f = server) && (f_generation f =? generation).

Definition with_state (s : GenerationState) (r : Generation) : Generation :=
  {| g_rowid := g_rowid r; g_server := g_server r; g_generation := g_generation r; g_state := s;
     g_organization := g_organization r; g_source := g_source r; g_started_at := g_started_at r;
     g_completed_at := g_completed_at r; g_entry_count := g_entry_count r;
     g_unique_item_count := g_unique_item_count r; g_last_error := g_last_error r;
     g_compatibility_fallback := g_compatibility_fallback r |}.
Definition with_last_error (e : option string) (r : Generation) : Generation :=
  {| g_rowid := g_rowid r; g_server := g_server r; g_generation := g_generation r;
     g_state := g_state r;
     g_organization := g_organization r; g_source := g_source r; g_started_at := g_started_at r;
     g_completed_at := g_completed_at r; g_entry_count := g_entry_count r;
     g_unique_item_count := g_unique_item_count r; g_last_error := e;
     g_compatibility_fallback := g_compatibility_fallback r |}.
Definition with_counts (entry_count unique_item_count : Z) (r : Generation) : Generation :=
  {| g_rowid := g_rowid r; g_server := g_server r; g_generation := g_generation r;
     g_state := g_state r;
     g_organization := g_organization r; g_source := g_source r; g_started_at := g_started_at r;
     g_completed_at := g_completed_at r; g_entry_count := entry_count;
     g_unique_item_count := unique_item_count; g_last_error := g_last_error r;
     g_compatibility_fallback := g_compatibility_fallback r |}.

(** ** Column texts *)

Definition namespace_string (value : NamespaceOrganization) : string :=
  match value with
  | OrgUnspecified => "unspecified"
  | OrgFlat => "flat"
  | OrgHierarchical => "hierarchical"
  end.
Definition parse_namespace (value : string) : NamespaceOrganization :=
  if bool_decide (value = "flat") then OrgFlat
  else if bool_decide (value = "hierarchical") then OrgHierarchical
  else OrgUnspecified.
Definition source_string (value : BrowseSource) : string :=
  match value with
  | SourceUnspecified => "unspecified"
  | SourceDa3 => "da3"
  | SourceDa2 => "da2"
  | SourceFlat => "flat"
  | SourceDerived => "derived"
  end.
Definition parse_source (value : string) : BrowseSource :=
  if bool_decide (value = "da3") then SourceDa3
  else if bool_decide (value = "da2") then SourceDa2
  else if bool_decide (value = "flat") then SourceFlat
  else if bool_decide (value = "derived") then SourceDerived
  else SourceUnspecified.
Definition node_kind_number (value : InventoryNodeKind) : Z :=
  match value with
  | InventoryItem => 1
  | InventoryBranchAndItem => 2
  end.

(** Whether an index built from one profile serves a server that now reports
    another. *)
Definition index_profile_is_compatible (indexed_organization : NamespaceOrganization)
    (indexed_source : BrowseSource) (compatibility_fallback : bool)
    (raw_organization : NamespaceOrganization) (raw_source : BrowseSource) : bool :=
  bool_decide (indexed_organization = raw_organization)
  && (bool_decide (indexed_source = raw_source)
      || (compatibility_fallback
          && bool_decide (indexed_source = SourceDa2)
          && bool_decide (raw_source = SourceDa3))).

(** ** Enrollment *)

Definition enroll (db : IndexDb) (server timestamp : string) : IndexDb :=
  match enrolled_servers db !! server with
  | Some _ => db
  | None =>
      set_enrolled db
        (<[server := {| auto_refresh_enabled := false; enrolled_at := timestamp;
                        updated_at := timestamp |}]> (enrolled_servers db))
  end.

Definition enrollment (db : IndexDb) (server : string) : option bool :=
  auto_refresh_enabled <$> enrolled_servers db !! server.
Definition is_enrolled (db : IndexDb) (server : string) : bool :=
  is_some (enrollment db server).

Definition set_auto_refresh (db : IndexDb) (server : string) (enabled : bool) (now : string) :
    IndexDb * bool :=
  match enrolled_servers db !! server with
  | Some row =>
      (set_enrolled db
         (<[server := {| auto_refresh_enabled := enabled; enrolled_at := enrolled_at row;
                         updated_at := now |}]> (enrolled_servers db)), true)
  | None => (db, false)
  end.

Definition active_exists (db : IndexDb) (server : string) : bool :=
  existsb (fun r => of_server server r && is_state Active r) (generations db).

(** [ORDER BY server]: the BINARY collation of the names. *)
Definition name_le (a b : string) : Prop := String.leb a b = true.
#[export] Instance name_le_dec a b : Decision (name_le a b).
Proof. unfold name_le. apply _. Defined.

Definition scheduled_servers (db : IndexDb) : list string :=
  merge_sort name_le
    (map fst
       (List.filter
          (fun kv : string * EnrolledServer =>
             auto_refresh_enabled kv.2 && active_exists db kv.1)
          (map_to_list (enrolled_servers db)))).

(** ** Generations *)

Definition i64_try_from (z : Z) (message : string) : result Z string :=
  if z <=? i64_max then Ok z else Err message.

(** [SELECT COALESCE(MAX(generation), 0) + 1]; the sum leaves the integers above
    [i64::MAX] and the column can no longer be read as one. *)
Definition next_generation (db : IndexDb) (server : string) : result Z string :=
  let numbers := map g_generation (List.filter (of_server server) (generations db)) in
  let maximum :=
    match numbers with
    | [] => 0
    | n :: rest => fold_left Z.max rest n
    end in
  if maximum =? i64_max then Err "Invalid column type Real" else Ok (maximum + 1).

Definition new_generation (db : IndexDb) (server : string) (generation : Z)
    (state : GenerationState) (organization source started_at : string)
    (last_error : option string) : Generation :=
  {| g_rowid := next_rowid g_rowid (generations db);
     g_server := server;
     g_generation := generation;
     g_state := state;
     g_organization := organization;
     g_source := source;
     g_started_at := started_at;
     g_completed_at := None;
     g_entry_count := 0;
     g_unique_item_count := 0;
     g_last_error := last_error;
     g_compatibility_fallback := false |}.

(** [INSERT INTO generations]: the primary key must be free. *)
Definition insert_generation (db : IndexDb) (row : Generation) : result IndexDb string :=
  if existsb (has_key (g_server row) (g_generation row)) (generations db)
  then Err "UNIQUE constraint failed: generations.server, generations.generation"
  else Ok (set_generations db (generations db ++ [row])).

Definition start_generation (db : IndexDb) (server : string) (organization : NamespaceOrganization)
    (source : BrowseSource) (started_at : string) : IndexDb * result Z string :=
  let db := enroll db server started_at in
  match next_generation db server with
  | Err e => (db, Err e)
  | Ok generation =>
      if generation <? 0 then (db, Err "namespace index generation is negative")
      else
        match insert_generation db
                (new_generation db server generation Staging (namespace_string organization)
                   (source_string source) started_at None) with
        | Ok db' => (db', Ok generation)
        | Err e => (db, Err e)
        end
  end.

Definition record_failed_attempt (db : IndexDb) (server error now : string) :
    IndexDb * result unit string :=
  match next_generation db server with
  | Err e => (db, Err e)
  | Ok generation =>
      match insert_generation db
              (new_generation db server generation Failed "unspecified" "unspecified" now
                 (Some error)) with
      | Ok db' => (db', Ok tt)
      | Err e => (db, Err e)
      end
  end.

(** ** Entries *)

Section Entries.
Context `{TextLibrary}.

Definition entry_row (server : string) (generation : Z) (entry : InventoryEntry) : EntryRow :=
  {| e_server := server;
     e_generation := generation;
     e_item_id := entry_item_id entry;
     e_item_id_norm := normalize_query (entry_item_id entry);
     e_display_name := entry_display_name entry;
     e_display_name_norm := normalize_query (entry_display_name entry);
     e_kind := node_kind_number (entry_kind entry);
     e_breadcrumbs := breadcrumbs_to_json (entry_breadcrumbs entry) |}.

Definition fts_row (rowid : Z) (server : string) (generation : Z) (entry : InventoryEntry) :
    FtsRow :=
  {| f_rowid := rowid;
     f_server := server;
     f_generation := generation;
     f_item_id := entry_item_id entry;
     f_display_name := entry_display_name entry;
     f_breadcrumbs := join [32] (entry_breadcrumbs entry) |}.

(** [INSERT OR IGNORE INTO entries]: the number of rows inserted. An existing key
    is ignored; a missing generation violates the foreign key. *)
Definition insert_entry_row (db : IndexDb) (row : EntryRow) : result (IndexDb * Z) string :=
  if existsb (fun e => entry_of (e_server row) (e_generation row) e
                       && bool_decide (e_item_id e = e_item_id row)) (entries db)
  then Ok (db, 0)
  else if existsb (has_key (e_server row) (e_generation row)) (generations db)
  then Ok (set_entries db (entries db ++ [row]), 1)
  else Err "FOREIGN KEY constraint failed".

Fixpoint insert_rows (db : IndexDb) (server : string) (generation : Z)
    (new : list InventoryEntry) (inserted_count : Z) : result (IndexDb * Z) string :=
  match new with
  | [] => Ok (db, inserted_count)
  | entry :: rest =>
      if bool_decide (entry_item_id entry = []) then
        Err "inventory entry has an empty ItemID"
      else
        let? (db, inserted) := insert_entry_row db (entry_row server generation entry) in
        if 0 <? inserted then
          let db :=
            set_fts db
              (entries_fts db
               ++ [fts_row (next_rowid f_rowid (entries_fts db)) server generation entry]) in
          insert_rows db server generation rest (saturating_add 64 inserted_count inserted)
        else insert_rows db server generation rest inserted_count
  end.

(** One transaction: nothing of a failed batch stays. *)
Definition insert_entries (db : IndexDb) (server : string) (generation : Z)
    (new : list InventoryEntry) : IndexDb * result Z string :=
  match i64_try_from generation "namespace index generation exceeds SQLite range" with
  | Err e => (db, Err e)
  | Ok generation =>
      match insert_rows db server generation new 0 with
      | Ok (db', inserted_count) => (db', Ok inserted_count)
      | Err e => (db, Err e)
      end
  end.

End Entries.

(** ** The life of a generation *)

Definition update_progress (db : IndexDb) (server : string) (generation : Z)
    (progress : InventoryProgress) : IndexDb * result unit string :=
  match
    let? entry_count :=
      i64_try_from (entries_seen progress) "namespace index entry count exceeds SQLite range" in
    let? unique_item_count :=
      i64_try_from (unique_items progress)
        "namespace index unique item count exceeds SQLite range" in
    let? generation :=
      i64_try_from generation "namespace index generation exceeds SQLite range" in
    Ok (set_generations db
          (update_where (fun r => has_key server generation r && is_state Staging r)
             (with_counts entry_count unique_item_count) (generations db)))
  with
  | Ok db' => (db', Ok tt)
  | Err e => (db, Err e)
  end.

(** The [SET] clause of the promotion. *)
Definition activate (completed_at : string) (searchable_item_count : Z)
    (organization source : option string) (warning : option string) (r : Generation) :
    Generation :=
  {| g_rowid := g_rowid r;
     g_server := g_server r;
     g_generation := g_generation r;
     g_state := Active;
     g_organization := unwrap_or (g_organization r) organization;
     g_source := unwrap_or (g_source r) source;
     g_started_at := g_started_at r;
     g_completed_at := Some completed_at;
     g_entry_count := searchable_item_count;
     g_unique_item_count := searchable_item_count;
     g_last_error := warning;
     g_compatibility_fallback :=
       bool_decide (g_source r = "da3") && bool_decide (source = Some "da2") |}.

Definition promote_with_profile (db : IndexDb) (server : string) (generation : Z)
    (completed_at : string) (searchable_item_count : Z)
    (profile : option (NamespaceOrganization * BrowseSource)) (warning : option string) :
    IndexDb * result unit string :=
  match
    let? searchable_item_count :=
      i64_try_from searchable_item_count "namespace index entry count exceeds SQLite range" in
    let organization := (fun p => namespace_string p.1) <$> profile in
    let source := (fun p => source_string p.2) <$> profile in
    let? generation :=
      i64_try_from generation "namespace index generation exceeds SQLite range" in
    let rows :=
      update_where (fun r => of_server server r && is_state Active r)
        (with_state Superseded) (generations db) in
    let target := fun r => has_key server generation r && is_state Staging r in
    let promoted := count_where target rows in
    if promoted =? 1 then
      Ok (set_generations db
            (update_where target
               (activate completed_at searchable_item_count organization source warning) rows))
    else Err "namespace index generation is not staging"
  with
  | Ok db' => (db', Ok tt)
  | Err e => (db, Err e)
  end.

Definition fail_generation (db : IndexDb) (server : string) (generation : Z) (error : string) :
    IndexDb * result unit string :=
  match i64_try_from generation "namespace index generation exceeds SQLite range" with
  | Err e => (db, Err e)
  | Ok generation =>
      (set_generations db
         (update_where (fun r => has_key server generation r && is_state Staging r)
            (fun r => with_last_error (Some error) (with_state Failed r)) (generations db)), Ok tt)
  end.

(** [DELETE FROM generations WHERE p], with the [ON DELETE CASCADE] of the entries. *)
Definition delete_generations (p : Generation -> bool) (db : IndexDb) : IndexDb :=
  set_entries
    (set_generations db (delete_where p (generations db)))
    (delete_where
       (fun e => existsb (fun r => p r && has_key (e_server e) (e_generation e) r)
                   (generations db)) (entries db)).

Definition discard_empty_generation (db : IndexDb) (server : string) (generation : Z) :
    IndexDb * result bool string :=
  match i64_try_from generation "namespace index generation exceeds SQLite range" with
  | Err e => (db, Err e)
  | Ok generation =>
      let p := fun r =>
        has_key server generation r && is_state Staging r
        && negb (existsb (entry_of (g_server r) (g_generation r)) (entries db))
        && negb (existsb (fts_of (g_server r) (g_generation r)) (entries_fts db)) in
      (delete_generations p db, Ok (count_where p (generations db) =? 1))
  end.

(** A generation the cleanup may delete. *)
Definition is_obsolete (db : IndexDb) (r : Generation) : bool :=
  is_state Superseded r || (is_state Failed r && active_exists db (g_server r)).

Definition obsolete_servers (db : IndexDb) : list string :=
  remove_dups (map g_server (List.filter (is_obsolete db) (generations db))).

Definition has_obsolete_generations (db : IndexDb) (server : string) : bool :=
  existsb (fun r => of_server server r && is_obsolete db r) (generations db).

Definition clear_server (db : IndexDb) (server : string) : IndexDb :=
  delete_generations (of_server server)
    (set_fts db (delete_where (fun f => bool_decide (f_server f = server)) (entries_fts db))).

Definition retry_after_key (server : string) : string := String.append "retry_after:" server.
Definition failures_key (server : string) : string := String.append "failures:" server.
Definition circuit_key (server : string) : string := String.append "circuit:" server.

Definition delete_index (db : IndexDb) (server : string) : IndexDb :=
  let db := clear_server db server in
  let db :=
    set_meta db
      (delete (retry_after_key server)
         (delete (failures_key server) (delete (circuit_key server) (index_meta db)))) in
  set_enrolled db (delete server (enrolled_servers db)).

(** ** Queries on the generations *)

Record DbStatus := {
  row_generation : Z;
  row_state : GenerationState;
  row_organization : NamespaceOrganization;
  row_source : BrowseSource;
  row_started_at : string;
  row_completed_at : option string;
  row_entry_count : Z;
  row_unique_item_count : Z;
  row_last_error : option string
}.

Record StatusRows := {
  rows_active : option DbStatus;
  rows_staging : option DbStatus;
  rows_failed : option DbStatus;
  rows_failed_after_active : option DbStatus
}.

Record StoredIndexProfile := {
  profile_organization : NamespaceOrganization;
  profile_source : BrowseSource;
  profile_compatibility_fallback : bool
}.

(** [row.get::<_, i64>() as u64] *)
Definition as_u64 (z : Z) : Z := z mod 2 ^ 64.

Definition db_status (r : Generation) : DbStatus :=
  {| row_generation := as_u64 (g_generation r);
     row_state := g_state r;
     row_organization := parse_namespace (g_organization r);
     row_source := parse_source (g_source r);
     row_started_at := g_started_at r;
     row_completed_at := g_completed_at r;
     row_entry_count := as_u64 (g_entry_count r);
     row_unique_item_count := as_u64 (g_unique_item_count r);
     row_last_error := g_last_error r |}.

Definition state_rank (s : GenerationState) : Z :=
  match s with
  | Active => 0
  | Staging => 1
  | _ => 2
  end.
(** [ORDER BY CASE state .. END, generation DESC] *)
Definition status_order (a b : Generation) : Prop :=
  state_rank (g_state a) < state_rank (g_state b) \/
  (state_rank (g_state a) = state_rank (g_state b) /\ g_generation b <= g_generation a).
#[export] Instance status_order_dec a b : Decision (status_order a b).
Proof. unfold status_order. apply _. Defined.

Definition status_rows (db : IndexDb) (server : string) : list DbStatus :=
  map db_status
    (merge_sort status_order
       (List.filter (fun r => of_server server r && negb (is_state Superseded r))
          (generations db))).

Definition row_is (s : GenerationState) (row : DbStatus) : bool := bool_decide (row_state row = s).

(** [StatusRows::from_rows] *)
Definition from_rows (rows : list DbStatus) : StatusRows :=
  let active := List.find (row_is Active) rows in
  let failed := List.find (row_is Failed) rows in
  {| rows_active := active;
     rows_staging := List.find (row_is Staging) rows;
     rows_failed := failed;
     rows_failed_after_active :=
       match active, failed with
       | Some a, Some f => then_some (row_generation a <? row_generation f) f
       | _, _ => None
       end |}.

(** The first row [ORDER BY generation DESC LIMIT 1] leaves of the selected ones. *)
Definition active_profile (db : IndexDb) (server : string) : option StoredIndexProfile :=
  match merge_sort status_order
          (List.filter (fun r => of_server server r && is_state Active r) (generations db)) with
  | [] => None
  | r :: _ =>
      Some {| profile_organization := parse_namespace (g_organization r);
              profile_source := parse_source (g_source r);
              profile_compatibility_fallback := g_compatibility_fallback r |}
  end.

Definition search_generation (db : IndexDb) (server : string) : option Z :=
  match merge_sort status_order
          (List.filter
             (fun r => of_server server r && (is_state Active r || is_state Staging r))
             (generations db)) with
  | [] => None
  | r :: _ => Some (as_u64 (g_generation r))
  end.

(** ** Retry state in [index_meta] *)

Definition retry_state (db : IndexDb) (server : string) :
    result (option Z * Z * bool) string :=
  let get := fun key => index_meta db !! key in
  let? retry_after :=
    transpose
      (match get (retry_after_key server) with
       | None => None
       | Some value =>
           if bool_decide (value = "") then None
           else Some
             (let? millis :=
                ok_or (parse_uint u64_max value) "invalid persisted index retry deadline" in
              ok_or (system_time_checked_add 0 (from_millis millis))
                "persisted index retry deadline overflow")
       end) in
  let failures :=
    unwrap_or 0 (v ← get (failures_key server); parse_uint u32_max v) in
  let circuit_open := is_some_and (fun v => bool_decide (v = "1")) (get (circuit_key server)) in
  Ok (retry_after, failures, circuit_open).

Definition set_retry_state (db : IndexDb) (server : string) (retry_after : option Z)
    (failures : Z) (circuit_open : bool) : IndexDb :=
  let retry :=
    unwrap_or ""
      (t ← retry_after; d ← duration_since t 0; Some (to_decimal (as_millis d))) in
  set_meta db
    (<[circuit_key server := if circuit_open then "1" else "0"]>
       (<[failures_key server := to_decimal failures]>
          (<[retry_after_key server := retry]> (index_meta db)))).

(** ** Opening the database *)

Definition interrupted : string := "namespace index build interrupted by gateway restart".

(** The two recovery statements for one server whose build no process owns. *)
Definition recover_server (db : IndexDb) (server : string) : IndexDb :=
  let staged := existsb (fun r => of_server server r && is_state Staging r) (generations db) in
  let db :=
    set_generations db
      (update_where (fun r => of_server server r && is_state Active r && staged)
         (with_last_error (Some interrupted)) (generations db)) in
  let state := if active_exists db server then Superseded else Failed in
  set_generations db
    (update_where (fun r => of_server server r && is_state Staging r)
       (fun r => with_last_error (Some (unwrap_or interrupted (g_last_error r)))
                   (with_state state r)) (generations db)).

(** [held] is [BuildFileLock::is_held]. *)
Fixpoint recover_servers (held : string -> result bool string) (db : IndexDb)
    (servers : list string) : IndexDb * result unit string :=
  match servers with
  | [] => (db, Ok tt)
  | server :: rest =>
      match held server with
      | Err e => (db, Err e)
      | Ok true => recover_servers held db rest
      | Ok false => recover_servers held (recover_server db server) rest
      end
  end.

Definition staging_servers (db : IndexDb) : list string :=
  remove_dups (map g_server (List.filter (is_state Staging) (generations db))).

Definition migrate_schema_2_to_3 (db : IndexDb) : IndexDb :=
  let clear := fun r =>
    {| g_rowid := g_rowid r; g_server := g_server r; g_generation := g_generation r;
       g_state := g_state r; g_organization := g_organization r; g_source := g_source r;
       g_started_at := g_started_at r; g_completed_at := g_completed_at r;
       g_entry_count := g_entry_count r; g_unique_item_count := g_unique_item_count r;
       g_last_error := g_last_error r; g_compatibility_fallback := false |} in
  set_meta (set_generations db (map clear (generations db)))
    (<["schema_version" := "3"]> (index_meta db)).

Definition migrate_server (migrated_at : string) (db : IndexDb) (server : string) : IndexDb :=
  match enrolled_servers db !! server with
  | Some _ => db
  | None =>
      set_enrolled db
        (<[server := {| auto_refresh_enabled := active_exists db server;
                        enrolled_at := migrated_at; updated_at := migrated_at |}]>
           (enrolled_servers db))
  end.
Definition migrate_schema_3_to_4 (db : IndexDb) (migrated_at : string) : IndexDb :=
  let servers := merge_sort name_le (remove_dups (map g_server (generations db))) in
  let db := fold_left (migrate_server migrated_at) servers db in
  set_meta db (<["schema_version" := to_decimal SCHEMA_VERSION]> (index_meta db)).

Definition migrate (db : IndexDb) (migrated_at : string) : result IndexDb string :=
  match index_meta db !! "schema_version" with
  | None => Ok db
  | Some text =>
      let? version :=
        ok_or (parse_i64 text)
          (String.append "invalid namespace index schema version " text) in
      if version =? 2 then
        Ok (migrate_schema_3_to_4 (migrate_schema_2_to_3 db) migrated_at)
      else if version =? 3 then Ok (migrate_schema_3_to_4 db migrated_at)
      else if version =? SCHEMA_VERSION then Ok db
      else Err "unsupported namespace index schema version"
  end.

Definition open_once (held : string -> result bool string) (migrated_at : string)
    (db : IndexDb) : IndexDb * result unit string :=
  match migrate db migrated_at with
  | Err e => (db, Err e)
  | Ok db =>
      let db := set_meta db (<["schema_version" := to_decimal SCHEMA_VERSION]> (index_meta db)) in
      if bool_decide (entries db = []) then
        if bool_decide (entries_fts db = []) then recover_servers held db (staging_servers db)
        else (db, Err "namespace index relational and full-text data are inconsistent")
      else
        if bool_decide (entries_fts db = []) then
          (db, Err "namespace index relational and full-text data are inconsistent")
        else recover_servers held db (staging_servers db)
  end.

Definition is_quarantinable_index_error (error : string) : bool :=
  let message := to_ascii_lowercase error in
  string_contains "unsupported namespace index schema version" message
  || string_contains "invalid namespace index schema version" message
  || string_contains "namespace index relational and full-text data are inconsistent" message
  || string_contains "file is not a database" message
  || string_contains "database disk image is malformed" message.

(** [IndexDb::open]: the database at the path after the attempt, and whether the old
    files were moved away. [quarantine] is the outcome of moving them. *)
Definition open_db (held : string -> result bool string) (migrated_at : string)
    (quarantine : result bool string) (db : IndexDb) : IndexDb * result bool string :=
  match open_once held migrated_at db with
  | (db', Ok _) => (db', Ok false)
  | (db', Err error) =>
      if is_quarantinable_index_error error then
        match quarantine with
        | Err e => (db', Err e)
        | Ok moved =>
            match open_once held migrated_at (if moved then empty_db else db') with
            | (db'', Ok _) => (db'', Ok moved)
            | (db'', Err e) => (db'', Err e)
            end
        end
      else (db', Err error)
  end.
