(* ===== verification/StoreWf.v ===== *)
(** * The invariant of the index database

    What every reachable database satisfies ([wf]): unique keys, one active
    generation per server, foreign keys, and full-text rows that mirror the
    entries of every generation the cleanup may not touch. The file proves that
    each operation of [Store] preserves it, and what the operations do to the
    generations and entries. *)
From S2P Require Import Prelude Text Schedule Opc Store.

(** ** Well-formed databases *)

Definition g_key (r : Generation) : string * Z := (g_server r, g_generation r).
Definition e_key (e : EntryRow) : string * Z * ustr := (e_server e, e_generation e, e_item_id e).

(** The ItemIDs of one generation, in the relational and in the full-text table. *)
Definition item_ids (db : IndexDb) (server : string) (generation : Z) : list ustr :=
  map e_item_id (List.filter (entry_of server generation) (entries db)).
Definition fts_item_ids (db : IndexDb) (server : string) (generation : Z) : list ustr :=
  map f_item_id (List.filter (fts_of server generation) (entries_fts db)).

(** The ItemIDs with their display names. *)
Definition entry_names (db : IndexDb) (server : string) (generation : Z) : list (ustr * ustr) :=
  map (fun e => (e_item_id e, e_display_name e))
    (List.filter (entry_of server generation) (entries db)).
Definition fts_names (db : IndexDb) (server : string) (generation : Z) : list (ustr * ustr) :=
  map (fun f => (f_item_id f, f_display_name f))
    (List.filter (fts_of server generation) (entries_fts db)).

Record wf (db : IndexDb) : Prop := {
  wf_keys : NoDup (map g_key (generations db));
  wf_numbers : forall r, In r (generations db) -> 1 <= g_generation r <= i64_max;
  wf_active : forall r1 r2, In r1 (generations db) -> In r2 (generations db) ->
    g_state r1 = Active -> g_state r2 = Active -> g_server r1 = g_server r2 ->
    g_generation r1 = g_generation r2;
  wf_entries : NoDup (map e_key (entries db));
  wf_items : forall e, In e (entries db) -> e_item_id e <> [];
  wf_foreign_key : forall e, In e (entries db) ->
    exists r, In r (generations db) /\ g_key r = (e_server e, e_generation e);
  wf_fts_key : forall f, In f (entries_fts db) ->
    exists r, In r (generations db) /\ g_key r = (f_server f, f_generation f);
  wf_fts_rowids : StronglySorted Z.lt (0 :: map f_rowid (entries_fts db));
  (** the two tables agree on every generation the cleanup may not touch *)
  wf_fts_sync : forall r, In r (generations db) -> is_obsolete db r = false ->
    fts_names db (g_server r) (g_generation r) = entry_names db (g_server r) (g_generation r)
}.

(** ** Lemmas: rows and conditions *)

Lemma of_server_iff s r : of_server s r = true <-> g_server r = s.
Proof. apply bool_decide_eq_true. Qed.
Lemma is_state_iff s r : is_state s r = true <-> g_state r = s.
Proof. apply bool_decide_eq_true. Qed.
Lemma has_key_iff s g r : has_key s g r = true <-> g_key r = (s, g).
Proof.
  unfold has_key, g_key. rewrite andb_true_iff, of_server_iff, Z.eqb_eq.
  split; [intros [-> ->]; done | by intros [= -> ->]].
Qed.
Lemma entry_of_iff s g e : entry_of s g e = true <-> e_server e = s /\ e_generation e = g.
Proof. unfold entry_of. by rewrite andb_true_iff, bool_decide_eq_true, Z.eqb_eq. Qed.
Lemma fts_of_iff s g f : fts_of s g f = true <-> f_server f = s /\ f_generation f = g.
Proof. unfold fts_of. by rewrite andb_true_iff, bool_decide_eq_true, Z.eqb_eq. Qed.

Lemma active_exists_iff db s :
  active_exists db s = true <->
  exists r, In r (generations db) /\ g_server r = s /\ g_state r = Active.
Proof.
  unfold active_exists. rewrite existsb_exists. setoid_rewrite andb_true_iff.
  by setoid_rewrite of_server_iff; setoid_rewrite is_state_iff.
Qed.

Lemma is_obsolete_iff db r :
  is_obsolete db r = true <->
  g_state r = Superseded \/ (g_state r = Failed /\ active_exists db (g_server r) = true).
Proof.
  unfold is_obsolete. by rewrite orb_true_iff, andb_true_iff, !is_state_iff.
Qed.

Lemma is_obsolete_ext db db' r :
  generations db' = generations db -> is_obsolete db' r = is_obsolete db r.
Proof. unfold is_obsolete, active_exists. by intros ->. Qed.

Lemma update_where_map {A} (p : A -> bool) f l :
  update_where p f l = map (fun r => if p r then f r else r) l.
Proof. reflexivity. Qed.

Lemma In_delete_where {A} (p : A -> bool) x l : In x (delete_where p l) <-> In x l /\ p x = false.
Proof. unfold delete_where. by rewrite filter_In, negb_true_iff. Qed.

Lemma filter_delete_where {A} (p q : A -> bool) l :
  (forall x, In x l -> p x = true -> q x = false) ->
  List.filter p (delete_where q l) = List.filter p l.
Proof.
  intros H. unfold delete_where. rewrite filter_filter. apply filter_ext_in.
  intros x Hx. specialize (H x Hx). destruct (q x), (p x); simpl; auto. by discriminate H.
Qed.

Lemma NoDup_map_delete {A B} (f : A -> B) (p : A -> bool) l :
  NoDup (map f l) -> NoDup (map f (delete_where p l)).
Proof. apply NoDup_map_filter. Qed.

Lemma max_of_ge l x : In x l -> x <= max_of l.
Proof. induction l as [|y l IH]; simpl; [done|]. intros [->|H%IH]; lia. Qed.

Lemma StronglySorted_map_filter {A} (f : A -> Z) (p : A -> bool) a l :
  StronglySorted Z.lt (a :: map f l) -> StronglySorted Z.lt (a :: map f (List.filter p l)).
Proof.
  revert a. induction l as [|x l IH]; intros a H; [done|]. simpl.
  inversion H as [|? ? H1 H2]; subst. simpl in *.
  inversion H2 as [|? ? Hax Hal]; subst. inversion H1 as [|? ? H3 H4]; subst.
  assert (StronglySorted Z.lt (a :: map f (List.filter p l))).
  { apply IH. constructor; done. }
  destruct (p x); [|done]. simpl. inversion H0; subst. constructor.
  - apply IH. done.
  - constructor; done.
Qed.

Lemma StronglySorted_snoc a l b :
  StronglySorted Z.lt (a :: l) -> (forall x, In x (a :: l) -> x < b) ->
  StronglySorted Z.lt ((a :: l) ++ [b]).
Proof.
  intros H Hb. induction H as [|x m H IH Hx]; simpl; [repeat constructor|].
  constructor; [apply IH; intros; apply Hb; by right|].
  apply Forall_app. split; [done|]. repeat constructor. apply Hb. by left.
Qed.

(** ** Lemmas: updates that keep the keys *)

Lemma active_exists_map db h s :
  (forall r, g_key (h r) = g_key r) ->
  active_exists (set_generations db (map h (generations db))) s = true <->
  exists r, In r (generations db) /\ g_server r = s /\ g_state (h r) = Active.
Proof.
  intros Hk. rewrite active_exists_iff. simpl. setoid_rewrite in_map_iff. split.
  - intros (? & (r & <- & Hr) & <- & ?). exists r. pose proof (Hk r) as Hkr.
    unfold g_key in Hkr. naive_solver.
  - intros (r & Hr & <- & Ha). exists (h r). pose proof (Hk r) as Hkr.
    unfold g_key in Hkr. naive_solver.
Qed.

Lemma map_keys h l : (forall r, g_key (h r) = g_key r) -> map g_key (map h l) = map g_key l.
Proof. intros Hk. rewrite map_map. by apply map_ext. Qed.

Lemma wf_map_generations db h :
  wf db -> (forall r, g_key (h r) = g_key r) ->
  (forall r1 r2, In r1 (generations db) -> In r2 (generations db) ->
     g_state (h r1) = Active -> g_state (h r2) = Active -> g_server r1 = g_server r2 ->
     g_generation r1 = g_generation r2) ->
  (forall r, In r (generations db) -> is_obsolete db r = true ->
     is_obsolete (set_generations db (map h (generations db))) (h r) = true) ->
  wf (set_generations db (map h (generations db))).
Proof.
  intros W Hk Ha Ho.
  assert (Hks : forall r, g_server (h r) = g_server r /\ g_generation (h r) = g_generation r).
  { intros r. specialize (Hk r). unfold g_key in Hk. naive_solver. }
  assert (Hex : forall k, (exists r, In r (generations db) /\ g_key r = k) ->
    exists r, In r (map h (generations db)) /\ g_key r = k).
  { intros k (r & Hr & <-). exists (h r). split; [by apply in_map|apply Hk]. }
  split; simpl.
  - rewrite map_keys by done. apply W.
  - intros ? (r & <- & Hr)%in_map_iff. rewrite (proj2 (Hks _)). by apply W.
  - intros r1 r2 (s1 & <- & H1)%in_map_iff (s2 & <- & H2)%in_map_iff.
    rewrite !(proj1 (Hks _)), !(proj2 (Hks _)). by apply Ha.
  - apply W.
  - apply W.
  - intros e He. by apply Hex, W.
  - intros f Hf. by apply Hex, W.
  - apply W.
  - intros r' (r & <- & Hr)%in_map_iff Hob.
    rewrite !(proj1 (Hks _)), !(proj2 (Hks _)).
    apply (wf_fts_sync _ W r Hr). destruct (is_obsolete db r) eqn:E; [|done].
    by rewrite (Ho r Hr E) in Hob.
Qed.

Lemma wf_tables db db' :
  generations db' = generations db -> entries db' = entries db ->
  entries_fts db' = entries_fts db -> wf db -> wf db'.
Proof.
  destruct db, db'; simpl. intros -> -> -> W. split; try apply W.
Qed.

Lemma wf_set_meta db m : wf db -> wf (set_meta db m).
Proof. by apply wf_tables. Qed.

Lemma wf_enroll db s t : wf db -> wf (enroll db s t).
Proof. unfold enroll. destruct (_ !! s); [done|]. by apply wf_tables. Qed.

Lemma wf_set_auto_refresh db s b t : wf db -> wf (set_auto_refresh db s b t).1.
Proof. unfold set_auto_refresh. destruct (_ !! s); [|done]. by apply wf_tables. Qed.

Lemma wf_set_retry_state db s r n c : wf db -> wf (set_retry_state db s r n c).
Proof. by apply wf_tables. Qed.

(** The two tables list the same ItemIDs. *)
Lemma wf_sync_ids db r : wf db -> In r (generations db) -> is_obsolete db r = false ->
  fts_item_ids db (g_server r) (g_generation r) = item_ids db (g_server r) (g_generation r).
Proof.
  intros W Hr Ho. pose proof (f_equal (map fst) (wf_fts_sync _ W r Hr Ho)) as Hs.
  unfold fts_names, entry_names in Hs. rewrite !map_map in Hs. exact Hs.
Qed.

Lemma wf_empty : wf empty_db.
Proof. split; simpl; try done; repeat constructor. Qed.

(** ** Lemmas: new generations *)

Lemma fold_max_spec l : forall m,
  m <= fold_left Z.max l m /\ (forall x, In x l -> x <= fold_left Z.max l m) /\
  (forall b, m <= b -> (forall x, In x l -> x <= b) -> fold_left Z.max l m <= b).
Proof.
  induction l as [|y l IH]; intros m; simpl; [repeat split; (lia || done || auto)|].
  destruct (IH (Z.max m y)) as (H1 & H2 & H3). split; [lia|]. split.
  - intros x [->|Hx]; [lia|auto].
  - intros b Hm Hb. apply H3; [|auto]. specialize (Hb y (or_introl eq_refl)). lia.
Qed.

Lemma next_generation_spec db s g :
  wf db -> next_generation db s = Ok g ->
  1 <= g <= i64_max /\ forall r, In r (generations db) -> g_server r = s -> g_generation r < g.
Proof.
  unfold next_generation. intros W.
  set (l := map g_generation (List.filter (of_server s) (generations db))).
  assert (Hin : forall r, In r (generations db) -> g_server r = s -> In (g_generation r) l).
  { intros r Hr Hs. apply in_map, filter_In. by rewrite of_server_iff. }
  assert (Hb : forall x, In x l -> 1 <= x <= i64_max).
  { intros x (r & <- & [Hr _]%filter_In)%in_map_iff. by apply W. }
  destruct l as [|n rest].
  - intros [= <-]. split; [unfold umax; lia|]. intros r Hr Hs. destruct (Hin r Hr Hs).
  - destruct (Z.eqb_spec (fold_left Z.max rest n) i64_max); [done|]. intros [= <-].
    destruct (fold_max_spec rest n) as (H1 & H2 & H3). split.
    + assert (fold_left Z.max rest n <= i64_max).
      { apply H3; [apply Hb; by left|]. intros x Hx. apply Hb. by right. }
      pose proof (Hb n (or_introl eq_refl)). lia.
    + intros r Hr Hs. destruct (Hin r Hr Hs) as [->|Hx]; [lia|]. specialize (H2 _ Hx). lia.
Qed.

(** Inserting a generation whose number is above the server's. *)
Lemma insert_generation_fresh db r :
  (forall x, In x (generations db) -> g_server x = g_server r -> g_generation x < g_generation r) ->
  insert_generation db r = Ok (set_generations db (generations db ++ [r])).
Proof.
  intros Hf. unfold insert_generation. destruct (existsb _ _) eqn:E; [|done].
  apply existsb_exists in E as (x & Hx & Hk%has_key_iff). unfold g_key in Hk.
  injection Hk as Hs Hg. specialize (Hf x Hx Hs). lia.
Qed.

Lemma names_none db s g :
  wf db -> (forall r, In r (generations db) -> g_key r <> (s, g)) ->
  entry_names db s g = [] /\ fts_names db s g = [].
Proof.
  intros W Hn. unfold entry_names, fts_names. split.
  - destruct (List.filter _ _) as [|e l] eqn:E; [done|exfalso].
    assert (He : In e (e :: l)) by by left. rewrite <- E in He.
    apply filter_In in He as [He [<- <-]%entry_of_iff].
    destruct (wf_foreign_key _ W e He) as (r & Hr & Hk). by apply (Hn r Hr).
  - destruct (List.filter _ _) as [|f l] eqn:E; [done|exfalso].
    assert (Hf : In f (f :: l)) by by left. rewrite <- E in Hf.
    apply filter_In in Hf as [Hf [<- <-]%fts_of_iff].
    destruct (wf_fts_key _ W f Hf) as (r & Hr & Hk). by apply (Hn r Hr).
Qed.

Lemma wf_new_generation db r :
  wf db -> 1 <= g_generation r <= i64_max -> g_state r <> Active ->
  (forall x, In x (generations db) -> g_server x = g_server r -> g_generation x < g_generation r) ->
  wf (set_generations db (generations db ++ [r])).
Proof.
  intros W Hb Ha Hf. set (db' := set_generations _ _).
  assert (Hact : forall s, active_exists db' s = active_exists db s).
  { intros s. unfold active_exists, db'. simpl. rewrite existsb_app. simpl.
    rewrite orb_false_r. destruct (is_state Active r) eqn:E; [by apply is_state_iff in E|].
    by rewrite andb_false_r, orb_false_r. }
  assert (Hob : forall x, is_obsolete db' x = is_obsolete db x).
  { intros x. unfold is_obsolete. by rewrite Hact. }
  split; simpl.
  - rewrite map_app. apply NoDup_app. split; [apply W|]. split; [|apply NoDup_singleton].
    intros k Hk Hk'. apply list_elem_of_In, in_map_iff in Hk as (x & <- & Hx).
    simpl in Hk'. apply list_elem_of_singleton in Hk'. unfold g_key in Hk'.
    injection Hk' as Hs Hg. specialize (Hf x Hx Hs). lia.
  - intros x [Hx|[<-|[]]]%in_app_iff; [by apply W|done].
  - intros r1 r2 [H1|[<-|[]]]%in_app_iff [H2|[<-|[]]]%in_app_iff ??; try done. by apply W.
  - apply W.
  - apply W.
  - intros e He. destruct (wf_foreign_key _ W e He) as (x & Hx & Hk). exists x.
    split; [apply in_app_iff; by left | done].
  - intros f He. destruct (wf_fts_key _ W f He) as (x & Hx & Hk). exists x.
    split; [apply in_app_iff; by left | done].
  - apply W.
  - intros x [Hx|[<-|[]]]%in_app_iff; rewrite Hob; [by apply W|]. intros _.
    destruct (names_none db (g_server r) (g_generation r) W) as [H1 H2].
    { intros x Hx Hk. unfold g_key in Hk. injection Hk as Hs Hg. specialize (Hf x Hx Hs). lia. }
    change (fts_names db (g_server r) (g_generation r)
      = entry_names db (g_server r) (g_generation r)). by rewrite H1, H2.
Qed.

Lemma enroll_generations db s t : generations (enroll db s t) = generations db.
Proof. unfold enroll. by destruct (_ !! s). Qed.

Lemma next_generation_enroll db s t : next_generation (enroll db s t) s = next_generation db s.
Proof. unfold next_generation. by rewrite enroll_generations. Qed.

(** A started generation is a new row above every other of the server. *)
Lemma start_generation_spec db s org src t :
  wf db ->
  (exists g, start_generation db s org src t =
     (set_generations (enroll db s t) (generations db ++
        [new_generation db s g Staging (namespace_string org) (source_string src) t None]), Ok g)
     /\ 1 <= g <= i64_max
     /\ (forall r, In r (generations db) -> g_server r = s -> g_generation r < g))
  \/ exists e, start_generation db s org src t = (enroll db s t, Err e).
Proof.
  intros W. unfold start_generation. rewrite next_generation_enroll.
  destruct (next_generation db s) as [g|e] eqn:E; [|right; by exists e].
  left. exists g. destruct (next_generation_spec db s g W E) as [Hb Hf].
  rewrite (proj2 (Z.ltb_ge g 0)) by lia.
  rewrite insert_generation_fresh by (simpl; by rewrite enroll_generations).
  unfold new_generation. by rewrite enroll_generations.
Qed.

Lemma wf_start_generation db s org src t : wf db -> wf (start_generation db s org src t).1.
Proof.
  intros W. destruct (start_generation_spec db s org src t W) as [(g & -> & Hb & Hf)|(e & ->)];
    [|by apply wf_enroll]. simpl.
  rewrite <- (enroll_generations db s t). apply wf_new_generation; try done.
  - by apply wf_enroll.
  - simpl. by rewrite enroll_generations.
Qed.

Lemma wf_record_failed_attempt db s e t : wf db -> wf (record_failed_attempt db s e t).1.
Proof.
  intros W. unfold record_failed_attempt.
  destruct (next_generation db s) as [g|] eqn:E; [|done].
  destruct (next_generation_spec db s g W E) as [Hb Hf].
  rewrite insert_generation_fresh by done. by apply wf_new_generation.
Qed.

(** ** Lemmas: entries *)

Section Entries.
Context `{TextLibrary}.

(** The database with one more entry, in both tables. *)
Definition add_entry (db : IndexDb) (s : string) (g : Z) (x : InventoryEntry) : IndexDb :=
  set_fts (set_entries db (entries db ++ [entry_row s g x]))
    (entries_fts db ++ [fts_row (next_rowid f_rowid (entries_fts db)) s g x]).

Definition has_item (db : IndexDb) (s : string) (g : Z) (item : ustr) : bool :=
  existsb (fun e => entry_of s g e && bool_decide (e_item_id e = item)) (entries db).

Lemma has_item_iff db s g item : has_item db s g item = true <-> In item (item_ids db s g).
Proof.
  unfold has_item, item_ids. rewrite existsb_exists, in_map_iff. split.
  - intros (e & He & [Hk Hi%bool_decide_eq_true]%andb_true_iff). exists e. by rewrite filter_In.
  - intros (e & Hi & [He Hk]%filter_In). exists e.
    by rewrite andb_true_iff, bool_decide_eq_true.
Qed.

Lemma item_ids_add_entry db s g x s' g' :
  item_ids (add_entry db s g x) s' g' =
    item_ids db s' g' ++ (if bool_decide (s = s') && (g =? g') then [entry_item_id x] else []) /\
  fts_item_ids (add_entry db s g x) s' g' =
    fts_item_ids db s' g' ++ (if bool_decide (s = s') && (g =? g') then [entry_item_id x] else []).
Proof.
  unfold item_ids, fts_item_ids. simpl. rewrite !List.filter_app, !map_app. simpl.
  unfold entry_of, fts_of. simpl. by destruct (_ && _).
Qed.

Lemma names_add_entry db s g x s' g' :
  entry_names (add_entry db s g x) s' g' =
    entry_names db s' g' ++ (if bool_decide (s = s') && (g =? g') then [(entry_item_id x, entry_display_name x)] else []) /\
  fts_names (add_entry db s g x) s' g' =
    fts_names db s' g' ++ (if bool_decide (s = s') && (g =? g') then [(entry_item_id x, entry_display_name x)] else []).
Proof.
  unfold entry_names, fts_names. simpl. rewrite !List.filter_app, !map_app. simpl.
  unfold entry_of, fts_of. simpl. by destruct (_ && _).
Qed.

Lemma wf_add_entry db s g x :
  wf db -> entry_item_id x <> [] -> has_item db s g (entry_item_id x) = false ->
  (exists r, In r (generations db) /\ g_key r = (s, g)) ->
  wf (add_entry db s g x).
Proof.
  intros W Hx Hn Hk. split; simpl; try apply W.
  - rewrite map_app. apply NoDup_app. split; [apply W|]. split; [|apply NoDup_singleton].
    intros k Hin Hin'. apply list_elem_of_singleton in Hin' as ->.
    apply list_elem_of_In, in_map_iff in Hin as (e & He & Hin).
    apply not_true_iff_false in Hn. apply Hn, existsb_exists. exists e. split; [done|].
    unfold e_key in He. simpl in He. rewrite andb_true_iff, entry_of_iff, bool_decide_eq_true.
    by injection He.
  - intros e [He|[<-|[]]]%in_app_iff; [by apply W|done].
  - intros e [He|[<-|[]]]%in_app_iff; [by apply W|done].
  - intros e [He|[<-|[]]]%in_app_iff; [by apply W|done].
  - rewrite map_app. simpl. rewrite app_comm_cons. apply StronglySorted_snoc; [apply W|].
    intros y [<-|Hy]; unfold next_rowid.
    + assert (0 <= max_of (map f_rowid (entries_fts db))); [|lia].
      induction (map f_rowid _); simpl; lia.
    + pose proof (max_of_ge _ y Hy). lia.
  - intros r Hr Ho. destruct (names_add_entry db s g x (g_server r) (g_generation r)) as [-> ->].
    f_equal. apply (wf_fts_sync _ W r Hr). exact Ho.
Qed.

(** A batch that succeeds appends, in both tables, the entries whose ItemID is new. *)
Fixpoint fresh_entries (db : IndexDb) (s : string) (g : Z) (new : list InventoryEntry) :
    list InventoryEntry :=
  match new with
  | [] => []
  | x :: rest =>
      if has_item db s g (entry_item_id x) then fresh_entries db s g rest
      else x :: fresh_entries (add_entry db s g x) s g rest
  end.

Lemma insert_rows_spec new : forall db s g n db' m,
  0 <= n <= u64_max -> insert_rows db s g new n = Ok (db', m) ->
  db' = fold_left (fun db x => add_entry db s g x) (fresh_entries db s g new) db /\
  m = Z.min (n + Z.of_nat (length (fresh_entries db s g new))) u64_max.
Proof.
  induction new as [|x rest IH]; intros db s g n db' m Hn; cbn [insert_rows fresh_entries].
  - intros [= <- <-]. simpl. split; [done|lia].
  - destruct (bool_decide_reflect (entry_item_id x = [])); [done|].
    unfold insert_entry_row. simpl.
    change (existsb _ (entries db)) with (has_item db s g (entry_item_id x)).
    destruct (has_item db s g (entry_item_id x)) eqn:E; simpl; [by apply IH|].
    destruct (existsb _ (generations db)); simpl; [|done].
    change (set_fts _ _) with (add_entry db s g x). intros Hi.
    destruct (IH (add_entry db s g x) s g (saturating_add 64 n 1) db' m) as [-> ->];
      [unfold saturating_add; lia | done |].
    split; [done|]. unfold saturating_add. lia.
Qed.

Lemma wf_insert_rows new : forall db s g n db' m,
  wf db -> insert_rows db s g new n = Ok (db', m) -> wf db'.
Proof.
  induction new as [|x rest IH]; intros db s g n db' m W; cbn [insert_rows].
  - by intros [= <- <-].
  - destruct (bool_decide_reflect (entry_item_id x = [])) as [|Hx]; [done|].
    unfold insert_entry_row. simpl.
    change (existsb _ (entries db)) with (has_item db s g (entry_item_id x)).
    destruct (has_item db s g (entry_item_id x)) eqn:E; simpl; [by eauto|].
    destruct (existsb _ (generations db)) eqn:Ek; simpl; [|done].
    change (set_fts _ _) with (add_entry db s g x).
    intros Hi. apply (IH _ s g _ db' m) in Hi; [done|]. apply wf_add_entry; [done..|].
    apply existsb_exists in Ek as (r & Hr & Hk%has_key_iff). eauto.
Qed.

Lemma wf_insert_entries db s g new : wf db -> wf (insert_entries db s g new).1.
Proof.
  intros W. unfold insert_entries, i64_try_from. destruct (g <=? i64_max); [|done].
  destruct (insert_rows db s g new 0) as [[db' m]|] eqn:E; [|done].
  by eapply wf_insert_rows.
Qed.

End Entries.

(** ** Lemmas: the life of a generation *)

(** Obsolete rows keep their status when no row of the server stops being active. *)
Lemma is_obsolete_map db h r :
  (forall x, g_key (h x) = g_key x) ->
  (active_exists db (g_server r) = true ->
   active_exists (set_generations db (map h (generations db))) (g_server r) = true) ->
  h r = r -> is_obsolete db r = true ->
  is_obsolete (set_generations db (map h (generations db))) (h r) = true.
Proof.
  intros Hk Ha Hr. rewrite Hr, !is_obsolete_iff. intros [?|[? ?]]; [by left|right]. auto.
Qed.

Lemma wf_map_same_state db h :
  wf db -> (forall r, g_key (h r) = g_key r) -> (forall r, g_state (h r) = g_state r) ->
  wf (set_generations db (map h (generations db))).
Proof.
  intros W Hk Hs. apply wf_map_generations; [done|done|..].
  - intros r1 r2 H1 H2. rewrite !Hs. intros. by eapply wf_active.
  - intros r Hr. rewrite !is_obsolete_iff, Hs.
    assert (Hsr : g_server (h r) = g_server r) by (specialize (Hk r); by injection Hk).
    rewrite Hsr. intros [?|[? Ha]]; [by left|right]. split; [done|].
    apply active_exists_map; [done|]. apply active_exists_iff in Ha as (x & ? & ? & ?).
    exists x. by rewrite Hs.
Qed.

Lemma wf_update_progress db s g p : wf db -> wf (update_progress db s g p).1.
Proof.
  intros W. unfold update_progress, i64_try_from, result_bind. bool_cases; try done. simpl.
  rewrite update_where_map. apply wf_map_same_state; [done|intros r; by destruct (_ && _)..].
Qed.

Lemma wf_fail_generation db s g e : wf db -> wf (fail_generation db s g e).1.
Proof.
  intros W. unfold fail_generation, i64_try_from. destruct (g <=? i64_max); [|done]. simpl.
  set (h := fun r => if has_key s g r && is_state Staging r
              then with_last_error (Some e) (with_state Failed r) else r).
  assert (Hk : forall r, g_key (h r) = g_key r) by (intros r; unfold h; by destruct (_ && _)).
  assert (Hs : forall r, g_state r <> Staging -> h r = r).
  { intros r Hr. unfold h. destruct (is_state Staging r) eqn:E; [by apply is_state_iff in E|].
    by rewrite andb_false_r. }
  assert (Ha : forall r, g_state (h r) = Active <-> g_state r = Active).
  { intros r. destruct (decide (g_state r = Staging)) as [E|E]; [|by rewrite Hs].
    rewrite E. unfold h. destruct (_ && _); simpl; [done|by rewrite E]. }
  apply (wf_map_generations db h W Hk).
  - intros r1 r2 H1 H2. rewrite !Ha. intros. by eapply wf_active.
  - intros r Hr Ho. assert (Hh : h r = r).
    { apply Hs. apply is_obsolete_iff in Ho as [E|[E _]]; by rewrite E. }
    rewrite Hh. apply is_obsolete_iff. apply is_obsolete_iff in Ho as [E|[E Ho]]; [by left|].
    right. split; [done|]. apply active_exists_map; [done|].
    apply active_exists_iff in Ho as (x & ? & ? & ?). exists x. by rewrite Ha.
Qed.

(** What a promotion does to each row. *)
Definition promote_row (s : string) (g : Z) (act : Generation -> Generation) (r : Generation) :
    Generation :=
  if has_key s g r && is_state Staging r then act r
  else if of_server s r && is_state Active r then with_state Superseded r
  else r.

Lemma promote_row_update s g act l :
  update_where (fun r => has_key s g r && is_state Staging r) act
    (update_where (fun r => of_server s r && is_state Active r) (with_state Superseded) l)
  = map (promote_row s g act) l.
Proof.
  unfold update_where. rewrite map_map. apply map_ext. intros r. unfold promote_row.
  destruct (of_server s r && is_state Active r) eqn:E; [|done].
  apply andb_true_iff in E as [_ E%is_state_iff].
  assert (is_state Staging r = false) as -> by (unfold is_state; by rewrite E).
  assert (is_state Staging (with_state Superseded r) = false) as -> by done.
  by rewrite !andb_false_r.
Qed.

Lemma count_where_map {A} (p q : A -> bool) f l :
  (forall x, p (f x) = q x) -> count_where p (map f l) = count_where q l.
Proof.
  intros H. unfold count_where. f_equal. induction l as [|x l IH]; simpl; [done|].
  rewrite H. by destruct (q x); simpl; rewrite IH.
Qed.

Lemma count_where_pos {A} (p : A -> bool) l :
  0 < count_where p l <-> exists x, In x l /\ p x = true.
Proof.
  unfold count_where. setoid_rewrite <- filter_In. destruct (List.filter p l) as [|x m]; simpl.
  - split; [lia|by intros (? & [])].
  - split; [eauto|lia].
Qed.

(** At most one row has a given key. *)
Lemma count_where_key db s g (p : Generation -> bool) :
  wf db -> (forall r, p r = true -> g_key r = (s, g)) -> count_where p (generations db) <= 1.
Proof.
  intros W Hp. pose proof (NoDup_map_filter g_key p _ (wf_keys _ W)) as Hnd.
  unfold count_where. destruct (List.filter p (generations db)) as [|x [|y l]] eqn:E;
    simpl; [lia..|].
  assert (Hxy : In x (x :: y :: l) /\ In y (x :: y :: l)) by (split; [by left|right; by left]).
  rewrite <- E in Hxy. destruct Hxy as [[_ Hx]%filter_In [_ Hy]%filter_In].
  simpl in Hnd. apply NoDup_cons in Hnd as [Hnd _]. exfalso. apply Hnd.
  rewrite (Hp _ Hx), <- (Hp _ Hy). constructor.
Qed.

Lemma promote_spec db s g t n prof w :
  wf db ->
  match promote_with_profile db s g t n prof w with
  | (db', Ok _) =>
      n <= i64_max /\ g <= i64_max /\
      (exists r, In r (generations db) /\ g_key r = (s, g) /\ g_state r = Staging) /\
      db' = set_generations db (map
        (promote_row s g (activate t n ((fun p => namespace_string p.1) <$> prof)
                            ((fun p => source_string p.2) <$> prof) w)) (generations db))
  | (db', Err _) =>
      db' = db /\ (n <= i64_max -> g <= i64_max ->
      forall r, In r (generations db) -> g_key r = (s, g) -> g_state r <> Staging)
  end.
Proof.
  intros W. unfold promote_with_profile, i64_try_from, result_bind.
  destruct (Z.leb_spec n i64_max); [|split; [done|lia]].
  destruct (Z.leb_spec g i64_max); [|split; [done|lia]].
  set (target := fun r => has_key s g r && is_state Staging r).
  assert (Hc : forall l, count_where target
    (update_where (fun r => of_server s r && is_state Active r) (with_state Superseded) l)
    = count_where target l).
  { intros l. apply count_where_map. intros r. unfold target.
    destruct (of_server s r && is_state Active r) eqn:E; [|done].
    apply andb_true_iff in E as [_ E%is_state_iff]. unfold is_state. simpl. rewrite E. simpl.
    by rewrite !andb_false_r. }
  assert (Ht : forall r, target r = true <-> g_key r = (s, g) /\ g_state r = Staging).
  { intros r. unfold target. by rewrite andb_true_iff, has_key_iff, is_state_iff. }
  rewrite Hc, (promote_row_update s g _ (generations db) : update_where target _ _ = _).
  destruct (Z.eqb_spec (count_where target (generations db)) 1).
  - split; [done|]. split; [done|]. split; [|done].
    destruct (proj1 (count_where_pos target (generations db)) ltac:(lia)) as (r & Hr & ?%Ht).
    exists r. tauto.
  - split; [done|]. intros _ _ r Hr Hk Hs.
    assert (0 < count_where target (generations db)).
    { apply count_where_pos. exists r. by rewrite Ht. }
    pose proof (count_where_key db s g target W ltac:(intros x Hx; by apply Ht)). lia.
Qed.

Lemma promote_row_facts s g t n o so w r :
  let h := promote_row s g (activate t n o so w) in
  g_key (h r) = g_key r /\
  (g_state (h r) = Active <->
     (g_key r = (s, g) /\ g_state r = Staging) \/ (g_server r <> s /\ g_state r = Active)).
Proof.
  cbn zeta. unfold promote_row.
  destruct (has_key s g r && is_state Staging r) eqn:E.
  - apply andb_true_iff in E as [E1%has_key_iff E2%is_state_iff]. split; [done|].
    split; [by left|done].
  - assert (~ (g_key r = (s, g) /\ g_state r = Staging)).
    { rewrite <- has_key_iff, <- is_state_iff, <- andb_true_iff. by rewrite E. }
    destruct (of_server s r && is_state Active r) eqn:E'.
    + apply andb_true_iff in E' as [E1%of_server_iff E2%is_state_iff]. split; [done|].
      split; [done|]. tauto.
    + split; [done|]. apply andb_false_iff in E'. rewrite <- !not_true_iff_false in E'.
      rewrite of_server_iff, is_state_iff in E'. tauto.
Qed.

Lemma wf_promote db s g t n prof w : wf db -> wf (promote_with_profile db s g t n prof w).1.
Proof.
  intros W. pose proof (promote_spec db s g t n prof w W) as Hs.
  destruct (promote_with_profile db s g t n prof w) as [db' [|]]; simpl.
  2: { by destruct Hs as [-> _]. }
  destruct Hs as (_ & _ & (r & Hr & Hk & Hst) & ->).
  set (h := promote_row _ _ _).
  assert (Hf : forall x, g_key (h x) = g_key x /\ (g_state (h x) = Active <->
    (g_key x = (s, g) /\ g_state x = Staging) \/ (g_server x <> s /\ g_state x = Active)))
    by (intros; apply promote_row_facts).
  apply wf_map_generations; [done|apply Hf|..].
  - intros r1 r2 H1 H2. rewrite !(proj2 (Hf _)). unfold g_key.
    intros [[E1 _]|[? ?]] [[E2 _]|[? ?]] Hsv;
      try (injection E1 as ? ?); try (injection E2 as ? ?); try congruence.
    by eapply wf_active.
  - intros x Hx Hob. apply is_obsolete_map; [apply Hf| |..|done].
    + intros (y & Hy & Hys & Ha)%active_exists_iff.
      apply active_exists_map; [apply Hf|].
      destruct (decide (g_server x = s)) as [->|Hne].
      * exists r. rewrite (proj2 (Hf r)). unfold g_key in Hk. injection Hk as Hks Hg.
        split; [done|]. split; [done|]. left. by rewrite <- Hks, <- Hg.
      * exists y. rewrite (proj2 (Hf y)). split; [done|]. split; [done|]. right. by rewrite Hys.
    + apply is_obsolete_iff in Hob. unfold h, promote_row, is_state.
      destruct Hob as [->|[-> _]]; simpl; by rewrite !andb_false_r.
Qed.

(** Deleting generations: no full-text row of a deleted one may remain, and an
    active one goes only with every other of its server. *)
Lemma wf_delete_generations db p :
  wf db ->
  (forall r f, In r (generations db) -> In f (entries_fts db) -> p r = true ->
     g_key r <> (f_server f, f_generation f)) ->
  (forall r r', In r (generations db) -> In r' (generations db) -> p r = true ->
     g_state r = Active -> g_server r' = g_server r -> p r' = true) ->
  wf (delete_generations p db).
Proof.
  intros W Hf Ha. set (db' := delete_generations p db).
  assert (Hin : forall r, In r (generations db') <-> In r (generations db) /\ p r = false)
    by (intros r; apply In_delete_where).
  assert (Hkey : forall k, (exists r, In r (generations db) /\ g_key r = k) ->
    (forall r, In r (generations db) -> g_key r = k -> p r = false) ->
    exists r, In r (generations db') /\ g_key r = k).
  { intros k (r & Hr & Hk) Hp. exists r. rewrite Hin. auto. }
  assert (He : forall e, In e (entries db') <-> In e (entries db) /\
    forall r, In r (generations db) -> g_key r = (e_server e, e_generation e) -> p r = false).
  { intros e. unfold db'. simpl. rewrite In_delete_where, <- not_true_iff_false, existsb_exists.
    apply and_iff_compat_l. setoid_rewrite andb_true_iff. setoid_rewrite has_key_iff. split.
    - intros Hn r Hr Hk. apply not_true_iff_false. intros Hp. apply Hn. eauto.
    - intros Hn (r & Hr & Hp & Hk). by rewrite (Hn r Hr Hk) in Hp. }
  assert (Hob : forall r, In r (generations db) -> p r = false ->
    is_obsolete db r = true -> is_obsolete db' r = true).
  { intros r Hr Hp. rewrite !is_obsolete_iff. intros [?|[? Hx]]; [by left|right].
    split; [done|]. apply active_exists_iff in Hx as (x & Hx & Hs & Hst).
    apply active_exists_iff. exists x. rewrite Hin. repeat split; try done.
    apply not_true_iff_false. intros Hpx. by rewrite (Ha x r Hx Hr Hpx Hst (eq_sym Hs)) in Hp. }
  split.
  - apply NoDup_map_delete, W.
  - intros r [Hr _]%Hin. by apply W.
  - intros r1 r2 [H1 _]%Hin [H2 _]%Hin. by apply W.
  - apply NoDup_map_delete, W.
  - intros e [Hx _]%He. by apply W.
  - intros e [Hx Hp]%He. apply Hkey; [by apply W|done].
  - intros f Hx. apply Hkey; [by apply (wf_fts_key _ W)|]. intros r Hr Hk.
    apply not_true_iff_false. intros Hp. by apply (Hf r f).
  - apply W.
  - intros r [Hr Hp]%Hin Ho.
    assert (Hi : entry_names db' (g_server r) (g_generation r)
      = entry_names db (g_server r) (g_generation r)).
    { unfold entry_names. f_equal. apply filter_delete_where. intros e Hx [Hs Hg]%entry_of_iff.
      rewrite <- not_true_iff_false, existsb_exists. setoid_rewrite andb_true_iff.
      setoid_rewrite has_key_iff. intros (x & Hxin & Hpx & Hk). rewrite Hs, Hg in Hk.
      by rewrite (NoDup_map_inj g_key _ x r (wf_keys _ W) Hxin Hr Hk), Hp in Hpx. }
    rewrite Hi. apply (wf_fts_sync _ W r Hr). apply not_true_iff_false. intros Hx.
    by rewrite (Hob r Hr Hp Hx) in Ho.
Qed.

Lemma wf_discard_empty_generation db s g : wf db -> wf (discard_empty_generation db s g).1.
Proof.
  intros W. unfold discard_empty_generation, i64_try_from. destruct (g <=? i64_max); [|done].
  simpl. apply wf_delete_generations; [done|..].
  - intros r f Hr Hf Hp Hk. apply andb_true_iff in Hp as [_ Hp%negb_true_iff].
    rewrite <- not_true_iff_false, existsb_exists in Hp. apply Hp. exists f.
    split; [done|]. unfold g_key in Hk. apply fts_of_iff. by injection Hk.
  - intros r r' _ _ Hp Ha. rewrite !andb_true_iff, is_state_iff in Hp.
    destruct Hp as [[[_ Hp] _] _]. congruence.
Qed.

(** Deleting the full-text rows of a server before its generations. *)
Lemma wf_clear_server db s : wf db -> wf (clear_server db s).
Proof.
  intros W. unfold clear_server.
  set (f := delete_where (fun f => bool_decide (f_server f = s)) (entries_fts db)).
  assert (Hf : forall x, In x f <-> In x (entries_fts db) /\ f_server x <> s).
  { intros x. unfold f. rewrite In_delete_where, bool_decide_eq_false. done. }
  set (db' := delete_generations (of_server s) (set_fts db f)).
  assert (Hin : forall r, In r (generations db') <-> In r (generations db) /\ g_server r <> s).
  { intros r. unfold db'. simpl. rewrite In_delete_where, <- of_server_iff.
    by rewrite not_true_iff_false. }
  assert (He : forall e, In e (entries db') -> In e (entries db) /\ e_server e <> s).
  { intros e. unfold db'. simpl. rewrite In_delete_where, <- not_true_iff_false, existsb_exists.
    intros [Hx Hn]. split; [done|]. intros Hs.
    destruct (wf_foreign_key _ W e Hx) as (r & Hr & Hk). apply Hn. exists r.
    rewrite andb_true_iff, has_key_iff, of_server_iff. split; [done|]. split; [|done].
    unfold g_key in Hk. injection Hk. congruence. }
  assert (Hact : forall s', s' <> s -> active_exists db' s' = active_exists db s').
  { intros s' Hne. apply eq_iff_eq_true. rewrite !active_exists_iff. setoid_rewrite Hin.
    split; intros (r & Hr); exists r; [tauto|]. destruct Hr as (? & <- & ?). auto. }
  split.
  - apply NoDup_map_delete, W.
  - intros r [Hr _]%Hin. by apply W.
  - intros r1 r2 [H1 _]%Hin [H2 _]%Hin. by apply W.
  - apply NoDup_map_delete, W.
  - intros e [Hx _]%He. by apply W.
  - intros e [Hx Hp]%He. destruct (wf_foreign_key _ W e Hx) as (r & Hr & Hk). exists r.
    split; [apply Hin; split; [done|]|done]. unfold g_key in Hk. injection Hk. congruence.
  - intros x [Hx Hp]%Hf. destruct (wf_fts_key _ W x Hx) as (r & Hr & Hk). exists r.
    split; [apply Hin; split; [done|]|done]. unfold g_key in Hk. injection Hk. congruence.
  - unfold db'. simpl. by apply StronglySorted_map_filter, W.
  - intros r [Hr Hs]%Hin Ho.
    assert (Hfi : fts_names db' (g_server r) (g_generation r)
      = fts_names db (g_server r) (g_generation r)).
    { unfold fts_names. f_equal. apply filter_delete_where. intros x _ [Hx _]%fts_of_iff.
      apply bool_decide_eq_false. congruence. }
    assert (Hi : entry_names db' (g_server r) (g_generation r)
      = entry_names db (g_server r) (g_generation r)).
    { unfold entry_names. f_equal. apply filter_delete_where. intros e _ [Hx _]%entry_of_iff.
      rewrite <- not_true_iff_false, existsb_exists. intros (y & _ & Hy).
      rewrite andb_true_iff, has_key_iff, of_server_iff in Hy. destruct Hy as [Hy Hk].
      unfold g_key in Hk. injection Hk. congruence. }
    rewrite Hi, Hfi. apply (wf_fts_sync _ W r Hr). unfold is_obsolete in *.
    by rewrite <- Hact.
Qed.

Lemma wf_delete_index db s : wf db -> wf (delete_index db s).
Proof. intros W. eapply wf_tables; [..|by apply (wf_clear_server db s)]; done. Qed.

(** ** Lemmas: opening *)

Lemma wf_recover_server db s : wf db -> wf (recover_server db s).
Proof.
  intros W. unfold recover_server.
  set (staged := existsb _ (generations db)).
  set (db1 := set_generations db _).
  assert (W1 : wf db1).
  { unfold db1. rewrite update_where_map.
    apply wf_map_same_state; [done|intros r; by destruct (_ && _)..]. }
  clearbody db1. clear W. rename W1 into W.
  set (st := if active_exists db1 s then Superseded else Failed).
  set (u := fun r => with_last_error (Some (unwrap_or interrupted (g_last_error r)))
                       (with_state st r)).
  rewrite update_where_map.
  set (h := fun r => if of_server s r && is_state Staging r then u r else r).
  assert (Hst : st <> Active) by (unfold st; by destruct (active_exists db1 s)).
  assert (Hk : forall r, g_key (h r) = g_key r) by (intros r; unfold h; by destruct (_ && _)).
  assert (Hh : forall r, g_state r <> Staging -> h r = r).
  { intros r Hr. unfold h. destruct (is_state Staging r) eqn:E; [by apply is_state_iff in E|].
    by rewrite andb_false_r. }
  assert (Ha : forall r, g_state (h r) = Active <-> g_state r = Active).
  { intros r. destruct (decide (g_state r = Staging)) as [E|E]; [|by rewrite Hh].
    rewrite E. unfold h. destruct (_ && _); simpl; [done|by rewrite E]. }
  apply wf_map_generations; [done|done|..].
  - intros r1 r2 H1 H2. rewrite !Ha. intros. by eapply wf_active.
  - intros r Hr Ho. apply is_obsolete_map; [done| |..|done].
    + intros (x & Hx & Hs & Hax)%active_exists_iff. apply active_exists_map; [done|].
      exists x. by rewrite Ha.
    + apply Hh. apply is_obsolete_iff in Ho as [E|[E _]]; by rewrite E.
Qed.

Lemma wf_recover_servers held l : forall db, wf db -> wf (recover_servers held db l).1.
Proof.
  induction l as [|s l IH]; intros db W; simpl; [done|].
  destruct (held s) as [[]|]; [by apply IH|by apply IH, wf_recover_server|done].
Qed.

Lemma migrate_server_tables t l : forall db,
  generations (fold_left (migrate_server t) l db) = generations db /\
  entries (fold_left (migrate_server t) l db) = entries db /\
  entries_fts (fold_left (migrate_server t) l db) = entries_fts db.
Proof.
  induction l as [|s l IH]; intros db; simpl; [done|].
  destruct (IH (migrate_server t db s)) as (-> & -> & ->). unfold migrate_server.
  by destruct (_ !! s).
Qed.

Lemma wf_migrate_3_to_4 db t : wf db -> wf (migrate_schema_3_to_4 db t).
Proof.
  intros W. unfold migrate_schema_3_to_4.
  destruct (migrate_server_tables t (merge_sort name_le (remove_dups (map g_server (generations db))))
    db) as (H1 & H2 & H3).
  by eapply wf_tables; [..|done].
Qed.

Lemma wf_migrate_2_to_3 db : wf db -> wf (migrate_schema_2_to_3 db).
Proof.
  intros W. unfold migrate_schema_2_to_3.
  by apply wf_set_meta, wf_map_same_state.
Qed.

Lemma wf_migrate db t db' : wf db -> migrate db t = Ok db' -> wf db'.
Proof.
  intros W. unfold migrate, result_bind, ok_or. destruct (index_meta db !! _) as [v|].
  2: { by intros [= <-]. }
  destruct (parse_i64 v) as [z|]; [|done]. bool_cases; intros [= <-].
  - by apply wf_migrate_3_to_4, wf_migrate_2_to_3.
  - by apply wf_migrate_3_to_4.
  - done.
Qed.

Lemma wf_open_once held t db : wf db -> wf (open_once held t db).1.
Proof.
  intros W. unfold open_once. destruct (migrate db t) as [db1|] eqn:E; [|done].
  pose proof (wf_migrate _ _ _ W E) as W1.
  set (db2 := set_meta db1 _). assert (W2 : wf db2) by (by apply wf_set_meta).
  bool_cases; simpl; try done; by apply wf_recover_servers.
Qed.

Lemma wf_open_db held t q db : wf db -> wf (open_db held t q db).1.
Proof.
  intros W. unfold open_db. pose proof (wf_open_once held t db W) as W1.
  destruct (open_once held t db) as [db' [|e]]; [done|]. simpl in W1.
  destruct (is_quarantinable_index_error e); [|done]. destruct q as [moved|]; [|done].
  assert (W2 : wf (if moved then empty_db else db')) by (by destruct moved; [apply wf_empty|]).
  pose proof (wf_open_once held t _ W2) as W3. by destruct (open_once held t _) as [? [|]].
Qed.

(** ** A concrete database

    Server ["plc"] has an active generation 2 over a superseded generation 1, and a
    build of generation 3 under way; the witnesses of the properties use it. *)

Definition demo_entry (item display : ustr) : InventoryEntry :=
  {| entry_display_name := display; entry_item_id := item; entry_kind := InventoryItem;
     entry_breadcrumbs := [] |}.
Definition demo_build (server : string) (generation : Z) (items : list InventoryEntry)
    (db : IndexDb) : IndexDb :=
  (insert_entries (H := ascii_text)
     (start_generation db server OrgHierarchical SourceDa3 "1000").1 server generation items).1.
Definition demo_promote (server : string) (generation count : Z) (db : IndexDb) : IndexDb :=
  (promote_with_profile db server generation "2000" count (Some (OrgHierarchical, SourceDa2))
     None).1.
Definition demo_first : IndexDb :=
  demo_promote "plc" 1 2
    (demo_build "plc" 1 [demo_entry [65; 49] [70]; demo_entry [65; 50] [71]] empty_db).
Definition demo_db : IndexDb :=
  demo_build "plc" 3 [demo_entry [66; 49] [80; 86]]
    (demo_promote "plc" 2 1 (demo_build "plc" 2 [demo_entry [65; 49] [80; 86]] demo_first)).

Lemma wf_demo_build s g items db : wf db -> wf (demo_build s g items db).
Proof. intros W. by apply wf_insert_entries, wf_start_generation. Qed.
Lemma wf_demo_promote s g n db : wf db -> wf (demo_promote s g n db).
Proof. intros W. by apply wf_promote. Qed.
Lemma wf_demo_first : wf demo_first.
Proof. apply wf_demo_promote, wf_demo_build, wf_empty. Qed.
Lemma wf_demo_db : wf demo_db.
Proof. apply wf_demo_build, wf_demo_promote, wf_demo_build, wf_demo_first. Qed.

Example demo_states : map g_state (generations demo_db) = [Superseded; Active; Staging].
Proof. vm_compute. reflexivity. Qed.
