(* ===== verification/Cleanup.v ===== *)
(** * Cleanup of obsolete generations (index/scheduler.rs)

    The background worker that deletes the rows of superseded and failed
    generations in bounded batches: candidates are read without the writer gate
    and deleted under it, a cursor walks the full-text table, and the worker
    gives way to builds and to shutdown. *)
From S2P Require Import Prelude Text Schedule Opc Store StoreWf.

(** ** Definitions *)

Definition CLEANUP_BATCH_SIZE : nat := Z.to_nat 10000.

Record CleanupStats := {
  batches : Z;
  stat_entries : Z;
  stat_fts_entries : Z;
  stat_generations : Z;
  stopped_for_shutdown : bool;
  deferred_for_build : bool
}.
Definition stats_default : CleanupStats :=
  {| batches := 0; stat_entries := 0; stat_fts_entries := 0; stat_generations := 0;
     stopped_for_shutdown := false; deferred_for_build := false |}.

Record CleanupBatch := {
  batch_entries : Z;
  batch_fts_entries : Z;
  batch_generations : Z
}.

Record CleanupCandidate := { c_rowid : Z; c_generation : Z }.

Inductive CleanupBatchResult :=
| Shutdown
| Deferred
| NoObsoleteGenerations
| Deleted (batch : CleanupBatch).

(** The [EXISTS] clause of the cleanup statements. *)
Definition in_obsolete (db : IndexDb) (server : string) (generation : Z) : bool :=
  existsb (fun g => has_key server generation g && is_obsolete db g) (generations db).

Definition cleanup_fts_candidates (read_only : IndexDb) (server : string) (after_rowid : Z) :
    list CleanupCandidate :=
  map (fun f => {| c_rowid := f_rowid f; c_generation := f_generation f |})
    (take CLEANUP_BATCH_SIZE
       (List.filter
          (fun f => (after_rowid <? f_rowid f) && bool_decide (f_server f = server)
                    && in_obsolete read_only (f_server f) (f_generation f))
          (entries_fts read_only))).

Definition cleanup_generation_candidates (read_only : IndexDb) (server : string) :
    list CleanupCandidate :=
  map (fun g => {| c_rowid := g_rowid g; c_generation := g_generation g |})
    (take CLEANUP_BATCH_SIZE
       (List.filter
          (fun g => of_server server g && is_obsolete read_only g
                    && negb (existsb (entry_of (g_server g) (g_generation g)) (entries read_only))
                    && negb (existsb (fts_of (g_server g) (g_generation g))
                               (entries_fts read_only)))
          (generations read_only))).

(** [DELETE .. WHERE rowid IN (SELECT .. WHERE p LIMIT n)] *)
Fixpoint delete_first {A : Type} (n : nat) (p : A -> bool) (rows : list A) : list A :=
  match rows, n with
  | [], _ => []
  | _, O => rows
  | r :: rest, S n' =>
      if p r then delete_first n' p rest else r :: delete_first n p rest
  end.

Definition fts_match (db : IndexDb) (server : string) (candidate : CleanupCandidate)
    (f : FtsRow) : bool :=
  (f_rowid f =? c_rowid candidate) && bool_decide (f_server f = server)
  && (f_generation f =? c_generation candidate)
  && in_obsolete db (f_server f) (f_generation f).

Definition delete_fts_candidate (server : string) (acc : IndexDb * Z)
    (candidate : CleanupCandidate) : IndexDb * Z :=
  let '(db, deleted) := acc in
  let p := fts_match db server candidate in
  (set_fts db (delete_where p (entries_fts db)),
   saturating_add 64 deleted (count_where p (entries_fts db))).

Definition generation_match (db : IndexDb) (server : string) (candidate : CleanupCandidate)
    (g : Generation) : bool :=
  (g_rowid g =? c_rowid candidate) && of_server server g
  && (g_generation g =? c_generation candidate) && is_obsolete db g
  && negb (existsb (entry_of (g_server g) (g_generation g)) (entries db)).

Definition delete_generation_candidate (server : string) (acc : IndexDb * Z)
    (candidate : CleanupCandidate) : IndexDb * Z :=
  let '(db, deleted) := acc in
  let p := generation_match db server candidate in
  (delete_generations p db, saturating_add 64 deleted (count_where p (generations db))).

Definition entry_obsolete (db : IndexDb) (server : string) (e : EntryRow) : bool :=
  bool_decide (e_server e = server) && in_obsolete db (e_server e) (e_generation e).

(** One transaction. *)
Definition delete_cleanup_batch (db : IndexDb) (server : string)
    (fts_candidates generation_candidates : list CleanupCandidate) : IndexDb * CleanupBatch :=
  let '(db, fts_entries) := fold_left (delete_fts_candidate server) fts_candidates (db, 0) in
  let entries' := delete_first CLEANUP_BATCH_SIZE (entry_obsolete db server) (entries db) in
  let deleted := Z.of_nat (length (entries db)) - Z.of_nat (length entries') in
  let db := set_entries db entries' in
  let '(db, generations_) :=
    fold_left (delete_generation_candidate server) generation_candidates (db, 0) in
  (db, {| batch_entries := deleted; batch_fts_entries := fts_entries;
          batch_generations := generations_ |}).

(** [read_only] is the database when the candidates are read, [db] when the writer
    gate is held; the flags are what the worker sees at each check. *)
Definition cleanup_one_batch (read_only db : IndexDb) (server : string) (fts_after_rowid : Z)
    (shutting_down build_active build_active_at_gate : bool) :
    IndexDb * Z * CleanupBatchResult :=
  if shutting_down then (db, fts_after_rowid, Shutdown)
  else if build_active then (db, fts_after_rowid, Deferred)
  else if negb (has_obsolete_generations read_only server) then
    (db, fts_after_rowid, NoObsoleteGenerations)
  else
    let fts_candidates := cleanup_fts_candidates read_only server fts_after_rowid in
    let generation_candidates :=
      match fts_candidates with
      | [] => cleanup_generation_candidates read_only server
      | _ => []
      end in
    if build_active_at_gate then (db, fts_after_rowid, Deferred)
    else if negb (has_obsolete_generations db server) then
      (db, fts_after_rowid, NoObsoleteGenerations)
    else
      let last_fts_rowid := c_rowid <$> last fts_candidates in
      let '(db, batch) := delete_cleanup_batch db server fts_candidates generation_candidates in
      (db, unwrap_or fts_after_rowid last_fts_rowid, Deleted batch).

Definition add_batch (stats : CleanupStats) (batch : CleanupBatch) : CleanupStats :=
  {| batches := saturating_add 64 (batches stats) 1;
     stat_entries := saturating_add 64 (stat_entries stats) (batch_entries batch);
     stat_fts_entries := saturating_add 64 (stat_fts_entries stats) (batch_fts_entries batch);
     stat_generations := saturating_add 64 (stat_generations stats) (batch_generations batch);
     stopped_for_shutdown := stopped_for_shutdown stats;
     deferred_for_build := deferred_for_build stats |}.
Definition set_stopped (stats : CleanupStats) : CleanupStats :=
  {| batches := batches stats; stat_entries := stat_entries stats;
     stat_fts_entries := stat_fts_entries stats; stat_generations := stat_generations stats;
     stopped_for_shutdown := true; deferred_for_build := deferred_for_build stats |}.
Definition set_deferred (stats : CleanupStats) : CleanupStats :=
  {| batches := batches stats; stat_entries := stat_entries stats;
     stat_fts_entries := stat_fts_entries stats; stat_generations := stat_generations stats;
     stopped_for_shutdown := stopped_for_shutdown stats; deferred_for_build := true |}.

(** What the worker observes at one batch: shutdown, a build before and at the gate. *)
Definition cleanup_flags : Type := bool * bool * bool.

(** The batch loop, with no other writer between its batches; [None] is out of fuel. *)
Fixpoint cleanup_loop (fuel : nat) (flags : nat -> cleanup_flags) (db : IndexDb)
    (server : string) (fts_after_rowid : Z) (stats : CleanupStats) :
    option (IndexDb * CleanupStats) :=
  match fuel with
  | O => None
  | S fuel' =>
      let '(shutting_down, build_active, build_active_at_gate) := flags O in
      match cleanup_one_batch db db server fts_after_rowid
              shutting_down build_active build_active_at_gate with
      | (db, _, Shutdown) => Some (db, set_stopped stats)
      | (db, _, Deferred) => Some (db, set_deferred stats)
      | (db, _, NoObsoleteGenerations) => Some (db, stats)
      | (db, fts_after_rowid, Deleted batch) =>
          let stats := add_batch stats batch in
          if (batch_fts_entries batch =? 0) && (batch_entries batch =? 0)
             && (batch_generations batch =? 0)
          then Some (db, stats)
          else cleanup_loop fuel' (fun k => flags (S k)) db server fts_after_rowid stats
      end
  end.

Definition cleanup_obsolete_generations_coordinated (fuel : nat) (flags : nat -> cleanup_flags)
    (db : IndexDb) (server : string) : option (IndexDb * CleanupStats) :=
  if negb (has_obsolete_generations db server) then Some (db, stats_default)
  else cleanup_loop fuel flags db server 0 stats_default.

(** Every row of the tables: an upper bound of the batches. *)
Definition row_count (db : IndexDb) : nat :=
  length (generations db) + length (entries db) + length (entries_fts db).

(** ** The scheduled worker *)

Record CleanupTaskState := { running : bool; requested : bool }.

Definition cleanup_task_should_run (tasks : gmap string CleanupTaskState) (server : string)
    (shutting_down : bool) : gmap string CleanupTaskState * bool :=
  let task := unwrap_or {| running := false; requested := false |} (tasks !! server) in
  (<[server := {| running := running task; requested := false |}]> tasks, negb shutting_down).

Definition clear_finished_cleanup_task (tasks : gmap string CleanupTaskState) (server : string)
    (shutting_down : bool) : gmap string CleanupTaskState * bool :=
  let rerun := is_some_and (fun task => requested task && negb shutting_down) (tasks !! server) in
  (if rerun then tasks else delete server tasks, rerun).

Definition CLEANUP_RETRY_LIMIT : Z := 3.
Definition CLEANUP_RETRY_INITIAL_BACKOFF : Z := from_millis 100.

(** The failure count, whether to retry, and the wait before the retry. *)
Definition retry_cleanup_after_failure (consecutive_failures : Z) (shutting_down : bool) :
    Z * option Z :=
  let failures := saturating_add 32 consecutive_failures 1 in
  let retry := (failures <=? CLEANUP_RETRY_LIMIT) && negb shutting_down in
  (failures,
   then_some retry
     (Z.min (CLEANUP_RETRY_INITIAL_BACKOFF * 2 ^ saturating_sub failures 1) duration_max)).

(** ** Lemmas: what a batch deletes *)

(** The rows of one server's obsolete generations. *)
Definition gone_generation (db : IndexDb) (server : string) (r : Generation) : bool :=
  of_server server r && is_obsolete db r.
Definition gone_fts (db : IndexDb) (server : string) (f : FtsRow) : bool :=
  bool_decide (f_server f = server) && in_obsolete db (f_server f) (f_generation f).

(** The database without them. *)
Definition purge (db : IndexDb) (server : string) : IndexDb :=
  {| index_meta := index_meta db;
     enrolled_servers := enrolled_servers db;
     generations := delete_where (gone_generation db server) (generations db);
     entries := delete_where (entry_obsolete db server) (entries db);
     entries_fts := delete_where (gone_fts db server) (entries_fts db) |}.

(** [db] is [db0] with some of the obsolete rows of [server] deleted. *)
Record pruned (server : string) (db0 db : IndexDb) : Prop := {
  pruned_meta : index_meta db = index_meta db0;
  pruned_enrolled : enrolled_servers db = enrolled_servers db0;
  pruned_generations :
    delete_where (gone_generation db0 server) (generations db)
      = delete_where (gone_generation db0 server) (generations db0);
  pruned_entries :
    delete_where (entry_obsolete db0 server) (entries db)
      = delete_where (entry_obsolete db0 server) (entries db0);
  pruned_fts :
    delete_where (gone_fts db0 server) (entries_fts db)
      = delete_where (gone_fts db0 server) (entries_fts db0);
  pruned_subset : forall r, In r (generations db) -> In r (generations db0);
  pruned_entries_subset : forall e, In e (entries db) -> In e (entries db0);
  pruned_keys : NoDup (map g_key (generations db0));
  pruned_wf : wf db
}.

Lemma in_obsolete_iff db s g :
  in_obsolete db s g = true <->
  exists r, In r (generations db) /\ g_key r = (s, g) /\ is_obsolete db r = true.
Proof.
  unfold in_obsolete. rewrite existsb_exists. split; intros (r & Hr & H); exists r;
    rewrite andb_true_iff, has_key_iff in *; tauto.
Qed.

Lemma gone_generation_iff db s r :
  gone_generation db s r = true <-> g_server r = s /\ is_obsolete db r = true.
Proof. unfold gone_generation. by rewrite andb_true_iff, of_server_iff. Qed.

Lemma entry_obsolete_iff db s e :
  entry_obsolete db s e = true <->
  e_server e = s /\ in_obsolete db (e_server e) (e_generation e) = true.
Proof. unfold entry_obsolete. by rewrite andb_true_iff, bool_decide_eq_true. Qed.

Lemma gone_fts_iff db s f :
  gone_fts db s f = true <->
  f_server f = s /\ in_obsolete db (f_server f) (f_generation f) = true.
Proof. unfold gone_fts. by rewrite andb_true_iff, bool_decide_eq_true. Qed.

Lemma pruned_refl s db : wf db -> pruned s db db.
Proof. intros W. split; try done. apply W. Qed.

Section Pruned.
Context {server : string} {db0 db : IndexDb}.
Context (Hp : pruned server db0 db).

(** A row that stays is still there. *)
Lemma pruned_kept r :
  In r (generations db0) -> gone_generation db0 server r = false -> In r (generations db).
Proof.
  intros Hr Hg. assert (Hin : In r (delete_where (gone_generation db0 server) (generations db0)))
    by by apply In_delete_where.
  rewrite <- (pruned_generations _ _ _ Hp) in Hin.
  by apply In_delete_where in Hin as [? _].
Qed.

Lemma pruned_active_exists s : active_exists db s = active_exists db0 s.
Proof.
  apply eq_iff_eq_true. rewrite !active_exists_iff. split; intros (r & Hr & Hs & Ha); exists r.
  - split; [by apply (pruned_subset _ _ _ Hp)|done].
  - split; [|done]. apply pruned_kept; [done|]. apply not_true_iff_false.
    rewrite gone_generation_iff, is_obsolete_iff. intros [_ [?|[? _]]]; congruence.
Qed.

Lemma pruned_is_obsolete r : is_obsolete db r = is_obsolete db0 r.
Proof. unfold is_obsolete. by rewrite pruned_active_exists. Qed.

Lemma pruned_in_obsolete s g :
  in_obsolete db s g = true -> in_obsolete db0 s g = true.
Proof.
  rewrite !in_obsolete_iff. intros (r & Hr & Hk & Ho). exists r.
  rewrite <- pruned_is_obsolete. split; [by apply (pruned_subset _ _ _ Hp)|done].
Qed.

(** Deleting full-text rows of obsolete generations. *)
Lemma pruned_delete_fts p :
  (forall f, In f (entries_fts db) -> p f = true -> gone_fts db server f = true) ->
  pruned server db0 (set_fts db (delete_where p (entries_fts db))).
Proof.
  intros Hd. pose proof (pruned_wf _ _ _ Hp) as W. split; try apply Hp.
  - simpl. rewrite <- (pruned_fts _ _ _ Hp). apply filter_delete_where. intros f Hf Hk.
    apply not_true_iff_false. intros Hpf. apply Hd in Hpf as [Hs Ho]%gone_fts_iff; [|done].
    apply pruned_in_obsolete in Ho. apply negb_true_iff in Hk.
    rewrite <- not_true_iff_false, gone_fts_iff in Hk. tauto.
  - split; simpl; try apply W.
    + intros f [Hf _]%In_delete_where. by apply (wf_fts_key _ W).
    + by apply StronglySorted_map_filter, W.
    + intros r Hr Ho. assert (Hfi : fts_names (set_fts db (delete_where p (entries_fts db)))
        (g_server r) (g_generation r) = fts_names db (g_server r) (g_generation r)).
      { unfold fts_names. f_equal. apply filter_delete_where. intros f Hf [Hs Hg]%fts_of_iff.
        apply not_true_iff_false. intros [_ Hx]%(Hd f Hf)%gone_fts_iff.
        apply in_obsolete_iff in Hx as (x & Hx & Hk & Hox). rewrite Hs, Hg in Hk.
        rewrite (NoDup_map_inj g_key _ x r (wf_keys _ W) Hx Hr Hk) in Hox.
        change (is_obsolete db r = false) in Ho. congruence. }
      rewrite Hfi. by apply (wf_fts_sync _ W r Hr).
Qed.

Lemma pruned_set_entries l :
  (forall e, In e l -> In e (entries db)) -> NoDup (map e_key l) ->
  delete_where (entry_obsolete db server) l = delete_where (entry_obsolete db server) (entries db) ->
  pruned server db0 (set_entries db l).
Proof.
  intros Hsub Hnd Hl. pose proof (pruned_wf _ _ _ Hp) as W.
  assert (Hfilter : forall q, (forall e, q e = true -> entry_obsolete db server e = false) ->
    List.filter q l = List.filter q (entries db)).
  { intros q Hq. rewrite <- (filter_delete_where q (entry_obsolete db server) l),
      <- (filter_delete_where q (entry_obsolete db server) (entries db)), Hl; [done|auto..]. }
  split; try apply Hp.
  - simpl. rewrite <- (pruned_entries _ _ _ Hp). apply Hfilter. intros e He.
    apply negb_true_iff in He. rewrite <- not_true_iff_false in *.
    rewrite !entry_obsolete_iff in *. intros [? ?%pruned_in_obsolete]. by apply He.
  - simpl. intros e He. by apply (pruned_entries_subset _ _ _ Hp), Hsub.
  - split; simpl; try apply W.
    + done.
    + intros e He. by apply W, Hsub.
    + intros e He. by apply W, Hsub.
    + intros r Hr Ho. assert (Hi : entry_names (set_entries db l) (g_server r) (g_generation r)
        = entry_names db (g_server r) (g_generation r)).
      { unfold entry_names. f_equal. apply Hfilter. intros e [Hes Heg]%entry_of_iff.
        apply not_true_iff_false. intros [_ Hx]%entry_obsolete_iff.
        apply in_obsolete_iff in Hx as (x & Hx & Hk & Hox). rewrite Hes, Heg in Hk.
        rewrite (NoDup_map_inj g_key _ x r (wf_keys _ W) Hx Hr Hk) in Hox.
        change (is_obsolete db r = false) in Ho. congruence. }
      rewrite Hi. by apply (wf_fts_sync _ W r Hr).
Qed.

(** Deleting obsolete generations that hold no row. *)
Lemma pruned_delete_generations p :
  (forall r, In r (generations db) -> p r = true ->
     gone_generation db server r = true /\
     (forall e, In e (entries db) -> g_key r <> (e_server e, e_generation e)) /\
     (forall f, In f (entries_fts db) -> g_key r <> (f_server f, f_generation f))) ->
  pruned server db0 (delete_generations p db).
Proof.
  intros Hd. pose proof (pruned_wf _ _ _ Hp) as W.
  assert (He : delete_where (fun e => existsb (fun r => p r && has_key (e_server e)
    (e_generation e) r) (generations db)) (entries db) = entries db).
  { unfold delete_where. rewrite forallb_filter_id; [done|]. apply forallb_forall.
    intros e He. apply negb_true_iff, not_true_iff_false. rewrite existsb_exists.
    intros (r & Hr & [Hpr Hk%has_key_iff]%andb_true_iff).
    destruct (Hd r Hr Hpr) as (_ & Hn & _). by apply (Hn e). }
  split; try apply Hp.
  - simpl. rewrite <- (pruned_generations _ _ _ Hp). apply filter_delete_where.
    intros r Hr Hk. apply not_true_iff_false. intros Hpr.
    destruct (Hd r Hr Hpr) as ([Hs Ho]%gone_generation_iff & _).
    rewrite pruned_is_obsolete in Ho. apply negb_true_iff in Hk.
    rewrite <- not_true_iff_false, gone_generation_iff in Hk. tauto.
  - simpl. rewrite He. apply Hp.
  - simpl. intros r [Hr _]%In_delete_where. by apply (pruned_subset _ _ _ Hp).
  - simpl. intros e [Hin _]%In_delete_where. by apply (pruned_entries_subset _ _ _ Hp).
  - apply wf_delete_generations; [done|..].
    + intros r f Hr Hf Hpr. destruct (Hd r Hr Hpr) as (_ & _ & Hn). by apply Hn.
    + intros r r' Hr _ Hpr Ha. destruct (Hd r Hr Hpr) as ([_ Ho]%gone_generation_iff & _).
      apply is_obsolete_iff in Ho as [?|[? _]]; congruence.
Qed.

End Pruned.

(** ** Lemmas: bounded deletion *)

Lemma delete_first_subset {A} (p : A -> bool) l : forall n x,
  In x (delete_first n p l) -> In x l.
Proof.
  induction l as [|y l IH]; intros [|n] x; simpl; [done..|].
  destruct (p y); [eauto|]. intros [->|?]; eauto.
Qed.

Lemma delete_first_NoDup {A B} (f : A -> B) (p : A -> bool) l : forall n,
  NoDup (map f l) -> NoDup (map f (delete_first n p l)).
Proof.
  induction l as [|y l IH]; intros [|n]; simpl; [done..|].
  rewrite NoDup_cons, list_elem_of_In, in_map_iff. intros [Hy Hl].
  destruct (p y); simpl; [auto|]. apply NoDup_cons. rewrite list_elem_of_In, in_map_iff.
  split; [|auto]. intros (x & Hx & Hin). apply Hy. eauto using delete_first_subset.
Qed.

Lemma delete_first_delete_where {A} (p : A -> bool) l : forall n,
  delete_where p (delete_first n p l) = delete_where p l.
Proof.
  unfold delete_where. induction l as [|y l IH]; intros [|n]; simpl; [done..|].
  destruct (p y) eqn:E; simpl; [auto|]. rewrite E. simpl. by rewrite IH.
Qed.

Lemma delete_first_length {A} (p : A -> bool) l : forall n,
  (length (delete_first n p l) <= length l)%nat /\
  ((0 < n)%nat -> (exists x, In x l /\ p x = true) ->
   (length (delete_first n p l) < length l)%nat).
Proof.
  induction l as [|y l IH]; intros [|n]; simpl; (split; [try lia|intros Hn; try lia]).
  - by intros (? & [] & _).
  - destruct (p y); simpl; [destruct (IH n)|destruct (IH (S n))]; lia.
  - intros (x & Hx & Hpx). destruct (p y) eqn:E; simpl; [destruct (IH n); lia|].
    destruct (IH (S n)) as [_ H]. assert (H' := H ltac:(lia)).
    destruct Hx as [->|Hx]; [congruence|]. specialize (H' ltac:(eauto)). lia.
Qed.

Lemma delete_where_length {A} (p : A -> bool) l :
  Z.of_nat (length (delete_where p l)) = Z.of_nat (length l) - count_where p l.
Proof.
  unfold delete_where, count_where. induction l as [|x l IH]; simpl; [done|].
  destruct (p x); simpl; lia.
Qed.

Lemma count_where_nonneg {A} (p : A -> bool) l : 0 <= count_where p l.
Proof. unfold count_where. lia. Qed.

(** ** Lemmas: the statements of a batch *)

Section Batch.
Context {server : string} {db0 : IndexDb}.

Lemma pruned_fts_candidates cands : forall db n,
  pruned server db0 db ->
  pruned server db0 (fold_left (delete_fts_candidate server) cands (db, n)).1.
Proof.
  induction cands as [|c cands IH]; intros db n Hp; simpl; [done|]. apply IH.
  apply pruned_delete_fts; [done|]. intros f _ Hf. unfold fts_match in Hf.
  rewrite !andb_true_iff, bool_decide_eq_true in Hf. apply gone_fts_iff. tauto.
Qed.

(** The statement deletes what some candidate names; [in_obsolete] does not change. *)
Lemma fts_candidates_spec cands : forall db n,
  0 <= n <= u64_max ->
  let '(db', m) := fold_left (delete_fts_candidate server) cands (db, n) in
  generations db' = generations db /\ entries db' = entries db /\
  (forall f, In f (entries_fts db') <->
     In f (entries_fts db) /\ forall c, In c cands -> fts_match db server c f = false) /\
  n <= m <= u64_max /\
  (length (entries_fts db') <= length (entries_fts db))%nat /\
  (m = 0 -> entries_fts db' = entries_fts db) /\
  (0 < m -> n = 0 -> (length (entries_fts db') < length (entries_fts db))%nat).
Proof.
  induction cands as [|c cands IH]; intros db n Hn; cbn [fold_left].
  - repeat split; try done; try lia. by intros [? _].
  - unfold delete_fts_candidate at 2.
    set (p := fts_match db server c). set (db1 := set_fts db _).
    set (n1 := saturating_add 64 n _).
    pose proof (count_where_nonneg p (entries_fts db)) as Hc0.
    pose proof (delete_where_length p (entries_fts db)) as Hl1.
    assert (Hn1 : 0 <= n1 <= u64_max) by (unfold n1, saturating_add in *; lia).
    assert (Hle : n <= n1) by (unfold n1, saturating_add in *; lia).
    specialize (IH db1 n1 Hn1). destruct (fold_left _ cands _) as [db' m].
    destruct IH as (Hg & He & Hf & Hm & Hl & Hz & Hlt).
    change (entries_fts db1) with (delete_where p (entries_fts db)) in *.
    change (fts_match db1 server) with (fts_match db server) in Hf.
    split; [done|]. split; [done|]. split.
    + intros f. rewrite Hf, In_delete_where. split.
      * intros [[Hin Hnp] Hall]. split; [done|]. intros x [<-|Hx]; auto.
      * intros [Hin Hall]. split; [split; [done|apply Hall; by left]|].
        intros x Hx. apply Hall. by right.
    + split; [lia|]. split; [lia|]. split.
      * intros ->. rewrite Hz by done.
        assert (Hn0 : n1 = 0) by lia. assert (Hc : count_where p (entries_fts db) = 0)
          by (unfold n1, saturating_add, umax in Hn0; lia).
        unfold delete_where. apply forallb_filter_id, forallb_forall. intros f Hin.
        apply negb_true_iff, not_true_iff_false. intros Hpf.
        assert (0 < count_where p (entries_fts db)) by (apply count_where_pos; eauto). lia.
      * intros Hm0 ->. destruct (decide (count_where p (entries_fts db) = 0)) as [Hc|Hc]; [|lia].
        assert (n1 = 0) by (unfold n1, saturating_add, umax; lia).
        specialize (Hlt Hm0 ltac:(done)). lia.
Qed.

(** A row a candidate matches after a deletion of empty generations matched before. *)
Lemma generation_match_before {db c c' r} :
  pruned server db0 db ->
  pruned server db0 (delete_generations (generation_match db server c) db) ->
  generation_match (delete_generations (generation_match db server c) db) server c' r = true ->
  generation_match db server c' r = true.
Proof.
  intros Hp Hp1. unfold generation_match at 1 3. rewrite !andb_true_iff.
  intros [[[[? ?] ?] Ho] Hne]. rewrite (pruned_is_obsolete Hp1) in Ho.
  rewrite (pruned_is_obsolete Hp). repeat split; try done.
  apply negb_true_iff, not_true_iff_false. rewrite existsb_exists. intros (e & He & Hk).
  apply negb_true_iff in Hne. rewrite <- not_true_iff_false in Hne. apply Hne, existsb_exists.
  exists e. split; [|done]. simpl. apply In_delete_where. split; [done|].
  rewrite <- not_true_iff_false, existsb_exists. intros (y & Hy & Hyk).
  apply andb_true_iff in Hyk as [Hpy Hyk%has_key_iff].
  unfold generation_match in Hpy. apply andb_true_iff in Hpy as [_ Hpy%negb_true_iff].
  rewrite <- not_true_iff_false, existsb_exists in Hpy. apply Hpy. exists e.
  split; [done|]. apply entry_of_iff. unfold g_key in Hyk. by injection Hyk.
Qed.

Lemma generation_candidates_spec cands : forall db n,
  pruned server db0 db -> 0 <= n <= u64_max ->
  (forall c r, In c cands -> In r (generations db) -> generation_match db server c r = true ->
     forall f, In f (entries_fts db) -> g_key r <> (f_server f, f_generation f)) ->
  let '(db', m) := fold_left (delete_generation_candidate server) cands (db, n) in
  pruned server db0 db' /\ entries_fts db' = entries_fts db /\
  (length (entries db') <= length (entries db))%nat /\
  n <= m <= u64_max /\
  (length (generations db') <= length (generations db))%nat /\
  (0 < m -> n = 0 -> (length (generations db') < length (generations db))%nat).
Proof.
  induction cands as [|c cands IH]; intros db n Hp Hn Hno; cbn [fold_left].
  - split; [done|]. repeat split; (done || lia).
  - unfold delete_generation_candidate at 2.
    set (p := generation_match db server c). set (db1 := delete_generations p db).
    set (n1 := saturating_add 64 n _).
    pose proof (count_where_nonneg p (generations db)) as Hc0.
    pose proof (delete_where_length p (generations db)) as Hl1.
    assert (Hn1 : 0 <= n1 <= u64_max) by (unfold n1, saturating_add in *; lia).
    assert (Hle : n <= n1) by (unfold n1, saturating_add in *; lia).
    assert (Hp1 : pruned server db0 db1).
    { apply pruned_delete_generations; [done|]. intros r Hr Hpr. split; [|split].
      - unfold p, generation_match in Hpr. rewrite !andb_true_iff in Hpr.
        apply gone_generation_iff. rewrite of_server_iff in Hpr. tauto.
      - intros e He Hk. unfold p, generation_match in Hpr.
        apply andb_true_iff in Hpr as [_ Hpr%negb_true_iff].
        rewrite <- not_true_iff_false, existsb_exists in Hpr. apply Hpr. exists e.
        split; [done|]. apply entry_of_iff. unfold g_key in Hk. by injection Hk.
      - apply Hno with (c := c); [by left|done..]. }
    assert (Hle1 : (length (entries db1) <= length (entries db))%nat).
    { unfold db1. simpl. pose proof (delete_where_length
        (fun e => existsb (fun r => p r && has_key (e_server e) (e_generation e) r)
           (generations db)) (entries db)) as Hd.
      pose proof (count_where_nonneg (fun e => existsb (fun r => p r && has_key (e_server e)
        (e_generation e) r) (generations db)) (entries db)). lia. }
    specialize (IH db1 n1 Hp1 Hn1). destruct (fold_left _ cands _) as [db' m].
    change (generations db1) with (delete_where p (generations db)) in *.
    change (entries_fts db1) with (entries_fts db) in *.
    destruct IH as (Hpr & Hf & He & Hm & Hl & Hlt).
    { intros c' r Hc' [Hr _]%In_delete_where Hm'. apply (Hno c' r); [by right|done|].
      by apply (generation_match_before Hp Hp1). }
    split; [done|]. split; [done|]. split; [lia|]. split; [lia|]. split; [lia|].
    intros Hm0 ->. destruct (decide (count_where p (generations db) = 0)) as [Hc|Hc]; [|lia].
    assert (n1 = 0) by (unfold n1, saturating_add, umax; lia).
    specialize (Hlt Hm0 ltac:(done)). lia.
Qed.

End Batch.

(** ** Lemmas: one batch *)

Lemma batch_size_pos : (0 < CLEANUP_BATCH_SIZE)%nat.
Proof. apply Nat.ltb_lt. by vm_compute. Qed.

Lemma take_nonempty {A} n (l : list A) : (0 < n)%nat -> l <> [] -> take n l <> [].
Proof. destruct n, l; simpl; (done || lia). Qed.

(** The full-text rows still to delete are beyond the cursor. *)
Definition cursor_ok (server : string) (db : IndexDb) (cursor : Z) : Prop :=
  forall f, In f (entries_fts db) -> gone_fts db server f = true -> cursor < f_rowid f.

Definition candidates (db : IndexDb) (server : string) (cursor : Z) :
    list CleanupCandidate * list CleanupCandidate :=
  let fts := cleanup_fts_candidates db server cursor in
  (fts, match fts with [] => cleanup_generation_candidates db server | _ => [] end).

Definition batch_is_empty (batch : CleanupBatch) : bool :=
  (batch_fts_entries batch =? 0) && (batch_entries batch =? 0) && (batch_generations batch =? 0).

Lemma generation_candidates_sound db server c :
  In c (cleanup_generation_candidates db server) ->
  exists g, In g (generations db) /\ generation_match db server c g = true /\
    (forall f, In f (entries_fts db) -> (server, c_generation c) <> (f_server f, f_generation f)).
Proof.
  unfold cleanup_generation_candidates. intros (g & <- & Hg)%in_map_iff. simpl.
  apply list_elem_of_In, elem_of_take in Hg as (i & Hg & _). apply list_elem_of_lookup_2 in Hg.
  apply list_elem_of_In, filter_In in Hg as [Hg Hq]. rewrite !andb_true_iff in Hq.
  destruct Hq as [[[Hs Ho] He] Hf]. exists g. split; [done|]. split.
  - unfold generation_match. simpl. by rewrite !Z.eqb_refl, Hs, Ho, He.
  - intros f Hin Hk. apply negb_true_iff in Hf. rewrite <- not_true_iff_false, existsb_exists in Hf.
    apply Hf. exists f. split; [done|]. apply fts_of_iff. apply of_server_iff in Hs. rewrite Hs.
    by injection Hk.
Qed.

Lemma generation_candidates_none db server r :
  wf db -> In r (generations db) -> gone_generation db server r = true ->
  (forall e, In e (entries db) -> entry_obsolete db server e = false) ->
  (forall f, In f (entries_fts db) -> gone_fts db server f = false) ->
  cleanup_generation_candidates db server <> [].
Proof.
  intros W Hr Hg He Hf. unfold cleanup_generation_candidates.
  intros H%map_eq_nil. revert H. apply take_nonempty; [apply batch_size_pos|]. intros Hnil.
  match type of Hnil with List.filter ?p _ = _ => assert (Hin : In r (List.filter p (generations db)))
  end.
  { apply filter_In. split; [done|]. unfold gone_generation in Hg.
    rewrite !andb_true_iff, !negb_true_iff. apply andb_true_iff in Hg as [Hs Ho].
    assert (Hin : in_obsolete db (g_server r) (g_generation r) = true)
      by (apply in_obsolete_iff; exists r; auto).
    apply of_server_iff in Hs as Hs'.
    repeat split; [done|done|..]; apply not_true_iff_false; rewrite existsb_exists.
    - intros (e & Hein & [Hes Heg]%entry_of_iff). specialize (He e Hein).
      rewrite <- not_true_iff_false, entry_obsolete_iff in He. apply He. rewrite Hes, Heg. auto.
    - intros (f & Hfin & [Hes Heg]%fts_of_iff). specialize (Hf f Hfin).
      rewrite <- not_true_iff_false, gone_fts_iff in Hf. apply Hf. rewrite Hes, Heg. auto. }
  by rewrite Hnil in Hin.
Qed.

(** The rows of a sorted table among the first [n] of the selected ones are those up to
    the last of them. *)
Lemma sorted_take_last (l : list Z) : forall n a x z,
  StronglySorted Z.lt (a :: l) -> last (take n l) = Some z -> In x l -> x <= z -> In x (take n l).
Proof.
  induction l as [|y l IH]; intros n a x z Hs Hl Hx Hxz; [done|].
  destruct n as [|n]; simpl in *; [done|]. destruct Hx as [->|Hx]; [by left|].
  inversion Hs as [|? ? Hs' _]; subst. right.
  destruct (take n l) as [|w t] eqn:Et.
  - simpl in Hl. injection Hl as <-. inversion Hs' as [|? ? _ Hall]; subst.
    rewrite List.Forall_forall in Hall. specialize (Hall x Hx). lia.
  - rewrite <- Et. eapply IH; [done|rewrite Et; exact Hl|done|done].
Qed.

Lemma StronglySorted_lt_NoDup l : StronglySorted Z.lt l -> NoDup l.
Proof.
  induction 1 as [|x l _ IH Hx]; constructor; [|done]. rewrite list_elem_of_In.
  rewrite List.Forall_forall in Hx. intros H%Hx. lia.
Qed.

(** The full-text stage moves the cursor past everything it deletes. *)
Lemma fts_stage_cursor server db cursor db1 n :
  wf db -> cursor_ok server db cursor ->
  fold_left (delete_fts_candidate server) (cleanup_fts_candidates db server cursor) (db, 0)
    = (db1, n) ->
  cursor_ok server db1
    (unwrap_or cursor (c_rowid <$> last (cleanup_fts_candidates db server cursor))).
Proof.
  intros W Hcur Hfold.
  pose proof (fts_candidates_spec (server := server) (cleanup_fts_candidates db server cursor) db 0
    ltac:(unfold umax; lia)) as Hs.
  rewrite Hfold in Hs. destruct Hs as (Hg & _ & Hf & _).
  intros f [Hin Hnot]%Hf [Hfs Hob]%gone_fts_iff. rewrite Hfs in Hob.
  assert (Hob' : in_obsolete db server (f_generation f) = true).
  { revert Hob. unfold in_obsolete, is_obsolete, active_exists. by rewrite Hg. }
  assert (Hc : cursor < f_rowid f) by (apply Hcur; [done|apply gone_fts_iff; by rewrite Hfs]).
  unfold cleanup_fts_candidates in *.
  set (sel := List.filter _ (entries_fts db)) in *.
  assert (Hsel : In f sel).
  { apply filter_In. split; [done|].
    rewrite !andb_true_iff, Z.ltb_lt, bool_decide_eq_true, Hfs. auto. }
  assert (Hno : ~ In (f_rowid f) (take CLEANUP_BATCH_SIZE (map f_rowid sel))).
  { intros H. rewrite firstn_map in H.
    apply in_map_iff in H as (x & Hx & Hxin).
    assert (Hxf : In x (entries_fts db)).
    { apply list_elem_of_In, elem_of_take in Hxin as (i & Hi & _).
      apply list_elem_of_lookup_2, list_elem_of_In, filter_In in Hi. apply Hi. }
    assert (x = f) as -> .
    { eapply (NoDup_map_inj f_rowid); [|done|done|done].
      pose proof (wf_fts_rowids _ W) as Hsort. inversion Hsort; subst.
      eapply StronglySorted_lt_NoDup; done. }
    specialize (Hnot {| c_rowid := f_rowid f; c_generation := f_generation f |}
      (in_map _ _ _ Hxin)). unfold fts_match in Hnot. simpl in Hnot.
    rewrite !Z.eqb_refl, Hfs, Hob', bool_decide_eq_true_2 in Hnot by done. done. }
  rewrite <- (fmap_last c_rowid). change (c_rowid <$> map _ ?l) with (map c_rowid (map
    (fun f => {| c_rowid := f_rowid f; c_generation := f_generation f |}) l)).
  rewrite map_map. simpl. rewrite firstn_map in Hno.
  destruct (last (map f_rowid (take CLEANUP_BATCH_SIZE sel))) as [z|] eqn:El; simpl; [|done].
  apply Z.nle_gt. intros Hle. apply Hno. rewrite <- firstn_map. rewrite <- firstn_map in El.
  eapply sorted_take_last; [|exact El|by apply in_map|done].
  apply StronglySorted_map_filter, W.
Qed.

(** The entries stage. *)
Lemma entries_stage server db0 db n :
  pruned server db0 db ->
  pruned server db0 (set_entries db (delete_first n (entry_obsolete db server) (entries db))).
Proof.
  intros Hp. apply pruned_set_entries; [done|..].
  - apply delete_first_subset.
  - apply delete_first_NoDup, (wf_entries _ (pruned_wf _ _ _ Hp)).
  - apply delete_first_delete_where.
Qed.

Lemma fts_stage_empty server db cursor r :
  wf db -> cursor_ok server db cursor -> In r (generations db) ->
  gone_generation db server r = true ->
  (fold_left (delete_fts_candidate server) (cleanup_fts_candidates db server cursor) (db, 0)).2 = 0 ->
  cleanup_fts_candidates db server cursor = [] /\
  forall f, In f (entries_fts db) -> gone_fts db server f = false.
Proof.
  intros W Hcur Hr Hgone Hzero.
  pose proof (fts_candidates_spec (server := server) (cleanup_fts_candidates db server cursor) db 0
    ltac:(unfold umax; lia)) as Hs.
  destruct (fold_left _ _ _) as [db1 n]. simpl in Hzero. subst n.
  destruct Hs as (_ & _ & Hf & _ & _ & Hz & _). specialize (Hz eq_refl).
  assert (Hsel : forall f, In f (entries_fts db) -> gone_fts db server f = true ->
    In f (List.filter (fun f => (cursor <? f_rowid f) && bool_decide (f_server f = server)
      && in_obsolete db (f_server f) (f_generation f)) (entries_fts db))).
  { intros f Hin Hg. apply filter_In. split; [done|]. rewrite andb_true_iff, andb_true_iff.
    rewrite Z.ltb_lt, bool_decide_eq_true. pose proof (Hcur f Hin Hg).
    apply gone_fts_iff in Hg. tauto. }
  destruct (cleanup_fts_candidates db server cursor) as [|c cands] eqn:Ec.
  - split; [done|]. intros f Hin. apply not_true_iff_false. intros Hg.
    unfold cleanup_fts_candidates in Ec. apply map_eq_nil in Ec. revert Ec.
    apply take_nonempty; [apply batch_size_pos|]. intros Hnil. specialize (Hsel f Hin Hg).
    by rewrite Hnil in Hsel.
  - exfalso. assert (Hc : In c (cleanup_fts_candidates db server cursor))
      by (rewrite Ec; by left).
    unfold cleanup_fts_candidates in Hc. apply in_map_iff in Hc as (f & <- & Hin).
    apply list_elem_of_In, elem_of_take in Hin as (i & Hi & _).
    apply list_elem_of_lookup_2, list_elem_of_In, filter_In in Hi as [Hin Hq].
    rewrite !andb_true_iff in Hq. assert (Hin1 : In f (entries_fts db1)) by by rewrite Hz.
    apply Hf in Hin1 as [_ Hnot]. specialize (Hnot _ (or_introl eq_refl)).
    unfold fts_match in Hnot. simpl in Hnot. rewrite !Z.eqb_refl in Hnot.
    destruct Hq as [[_ Hq1] Hq2]. by rewrite Hq1, Hq2 in Hnot.
Qed.

Lemma fold_generations_subset server cands : forall db n db' m,
  fold_left (delete_generation_candidate server) cands (db, n) = (db', m) ->
  forall r, In r (generations db') -> In r (generations db).
Proof.
  induction cands as [|c cands IH]; intros db n db' m; simpl; [by intros [= <- <-]|].
  intros He r Hr. specialize (IH _ _ _ _ He r Hr). by apply In_delete_where in IH as [? _].
Qed.

Lemma fold_generations_monotone server cands : forall db n,
  n <= u64_max -> n <= (fold_left (delete_generation_candidate server) cands (db, n)).2.
Proof.
  induction cands as [|c cands IH]; intros db n Hn; simpl; [lia|].
  etransitivity; [|apply IH; unfold saturating_add; lia].
  pose proof (count_where_nonneg (generation_match db server c) (generations db)).
  unfold saturating_add. lia.
Qed.

Lemma fold_generations_positive server c cands db :
  (exists g, In g (generations db) /\ generation_match db server c g = true) ->
  0 < (fold_left (delete_generation_candidate server) (c :: cands) (db, 0)).2.
Proof.
  intros Hg. simpl. apply count_where_pos in Hg.
  eapply Z.lt_le_trans; [|apply fold_generations_monotone; unfold saturating_add; lia].
  unfold saturating_add, umax. lia.
Qed.

(** With nothing left of it in the other tables, an obsolete generation is deleted. *)
Lemma generations_stage_positive server db db2 r :
  wf db -> In r (generations db) -> gone_generation db server r = true ->
  (forall e, In e (entries db) -> entry_obsolete db server e = false) ->
  (forall f, In f (entries_fts db) -> gone_fts db server f = false) ->
  generations db2 = generations db -> (forall e, In e (entries db2) -> In e (entries db)) ->
  0 < (fold_left (delete_generation_candidate server) (cleanup_generation_candidates db server)
         (db2, 0)).2.
Proof.
  intros W Hr Hg Hent Hnof Hgens Hsub.
  pose proof (generation_candidates_none db server r W Hr Hg Hent Hnof) as Hgn.
  destruct (cleanup_generation_candidates db server) as [|c cs] eqn:Ec; [done|].
  destruct (generation_candidates_sound db server c) as (g & Hgin & Hgm & _);
    [rewrite Ec; by left|].
  apply fold_generations_positive. exists g. rewrite Hgens. split; [done|].
  assert (Hob : is_obsolete db2 g = is_obsolete db g)
    by (unfold is_obsolete, active_exists; by rewrite Hgens).
  unfold generation_match in *. rewrite Hob. rewrite !andb_true_iff in *.
  destruct Hgm as [? Hne]. split; [done|]. apply negb_true_iff, not_true_iff_false.
  rewrite existsb_exists. intros (e & Hein & Hek). apply negb_true_iff in Hne.
  rewrite <- not_true_iff_false, existsb_exists in Hne. apply Hne. exists e. auto.
Qed.

(** No full-text row belongs to a candidate generation. *)
Lemma generations_stage_no_fts server db db2 gc :
  (forall c, In c gc -> In c (cleanup_generation_candidates db server)) ->
  (forall f, In f (entries_fts db2) -> In f (entries_fts db)) ->
  forall c r, In c gc -> In r (generations db2) -> generation_match db2 server c r = true ->
  forall f, In f (entries_fts db2) -> g_key r <> (f_server f, f_generation f).
Proof.
  intros Hgc Hsub c r Hc Hr Hm f Hin Hk.
  destruct (generation_candidates_sound db server c (Hgc c Hc)) as (_ & _ & _ & Hn).
  unfold generation_match in Hm. rewrite !andb_true_iff, of_server_iff, !Z.eqb_eq in Hm.
  destruct Hm as [[[[_ Hms] Hmg] _] _]. unfold g_key in Hk. rewrite Hms, Hmg in Hk.
  by apply (Hn f); [apply Hsub|].
Qed.

Lemma batch_spec server db0 db cursor :
  pruned server db0 db ->
  let '(fc, gc) := candidates db server cursor in
  let '(db', b) := delete_cleanup_batch db server fc gc in
  pruned server db0 db' /\
  (batch_is_empty b = false -> (row_count db' < row_count db)%nat) /\
  (cursor_ok server db cursor -> cursor_ok server db' (unwrap_or cursor (c_rowid <$> last fc))) /\
  (cursor_ok server db cursor -> batch_is_empty b = true ->
   has_obsolete_generations db server = false).
Proof.
  intros Hp. unfold candidates. pose proof (pruned_wf _ _ _ Hp) as W.
  set (fc := cleanup_fts_candidates db server cursor).
  set (gc := match fc with [] => _ | _ => [] end). unfold delete_cleanup_batch.
  pose proof (pruned_fts_candidates fc db 0 Hp) as Hp1.
  pose proof (fts_candidates_spec (server := server) fc db 0 ltac:(unfold umax; lia)) as Hs1.
  pose proof (fun H => fts_stage_cursor server db cursor _ _ W H (surjective_pairing _)) as Hcur.
  pose proof (fun r H Hr Hg => fts_stage_empty server db cursor r W H Hr Hg) as Hemp.
  fold fc in Hcur, Hemp. destruct (fold_left (delete_fts_candidate server) fc (db, 0)) as [db1 nf].
  simpl in Hp1, Hcur, Hemp. destruct Hs1 as (Hg1 & He1 & Hf1 & Hnf & Hl1 & Hz1 & Hlt1).
  set (es := delete_first CLEANUP_BATCH_SIZE (entry_obsolete db1 server) (entries db1)).
  pose proof (entries_stage server db0 db1 CLEANUP_BATCH_SIZE Hp1) as Hp2. fold es in Hp2.
  destruct (delete_first_length (entry_obsolete db1 server) (entries db1) CLEANUP_BATCH_SIZE)
    as [Hle2 Hlt2]. fold es in Hle2, Hlt2. specialize (Hlt2 batch_size_pos).
  set (db2 := set_entries db1 es) in *.
  assert (Hgc : forall c, In c gc -> In c (cleanup_generation_candidates db server))
    by (intros c; unfold gc; by destruct fc).
  pose proof (generation_candidates_spec (server := server) gc db2 0 Hp2
    ltac:(unfold umax; lia)) as Hs3.
  specialize (Hs3 (generations_stage_no_fts server db db2 gc Hgc
    (fun f Hin => proj1 (proj1 (Hf1 f) Hin)))).
  destruct (fold_left _ gc _) as [db3 ng] eqn:E3.
  destruct Hs3 as (Hp3 & Hf3 & Hle3 & Hng & Hl3 & Hlt3).
  change (generations db2) with (generations db1) in *. change (entries db2) with es in *.
  change (entries_fts db2) with (entries_fts db1) in *.
  unfold batch_is_empty, row_count. simpl. split; [done|]. split; [|split].
  - rewrite !andb_false_iff, !Z.eqb_neq. rewrite <- Hg1, <- He1. intros [[Hx|Hx]|Hx].
    + specialize (Hlt1 ltac:(lia) eq_refl). rewrite Hf3. lia.
    + rewrite Hf3. lia.
    + specialize (Hlt3 ltac:(lia) eq_refl). rewrite Hf3. lia.
  - intros Hc f Hin Hg. rewrite Hf3 in Hin. apply (Hcur Hc f Hin).
    apply gone_fts_iff in Hg as [Hfs Hg]. apply gone_fts_iff. split; [done|].
    apply in_obsolete_iff in Hg as (r & Hr & Hk & Ho). apply in_obsolete_iff. exists r.
    rewrite (pruned_is_obsolete Hp3), <- (pruned_is_obsolete Hp1) in Ho.
    split; [|done]. exact (fold_generations_subset _ _ _ _ _ _ E3 r Hr).
  - rewrite !andb_true_iff, !Z.eqb_eq. intros Hc [[-> He] ->].
    apply not_true_iff_false. intros Hhas. apply existsb_exists in Hhas as (r & Hr & Hg).
    destruct (Hemp r Hc Hr Hg eq_refl) as [Hfc Hnof].
    assert (Hent : forall e, In e (entries db) -> entry_obsolete db server e = false).
    { intros e Hin. apply not_true_iff_false. intros Ho. rewrite <- He1 in Hin.
      assert ((length es < length (entries db1))%nat); [|lia]. apply Hlt2. exists e.
      split; [done|]. revert Ho. unfold entry_obsolete, in_obsolete, is_obsolete, active_exists.
      by rewrite Hg1. }
    assert (Hpos : 0 < (fold_left (delete_generation_candidate server) gc (db2, 0)).2).
    { unfold gc. rewrite Hfc. apply (generations_stage_positive server db db2 r); try done.
      intros e Hin. rewrite <- He1. eapply delete_first_subset. exact Hin. }
    rewrite E3 in Hpos. simpl in Hpos. lia.
Qed.

(** ** Lemmas: the loop *)

(** Nothing obsolete is left: the database is purged. *)
Lemma pruned_complete server db0 db :
  pruned server db0 db -> has_obsolete_generations db server = false -> db = purge db0 server.
Proof.
  intros Hp Hno. pose proof (pruned_wf _ _ _ Hp) as W.
  assert (Hg : forall r, In r (generations db) -> gone_generation db0 server r = false).
  { intros r Hr. apply not_true_iff_false. intros Hx. rewrite <- not_true_iff_false in Hno.
    apply Hno, existsb_exists. exists r. split; [done|]. unfold gone_generation in Hx.
    by rewrite (pruned_is_obsolete Hp). }
  assert (Hkey : forall s g r, In r (generations db) -> g_key r = (s, g) -> s = server ->
    in_obsolete db0 s g = false).
  { intros s g r Hr Hk ->. apply not_true_iff_false. rewrite in_obsolete_iff.
    intros (r0 & Hr0 & Hk0 & Ho). specialize (Hg r Hr).
    assert (Hin : In r (generations db0)) by by apply (pruned_subset _ _ _ Hp).
    rewrite (NoDup_map_inj g_key _ r0 r (pruned_keys _ _ _ Hp) Hr0 Hin ltac:(congruence)) in Ho.
    rewrite <- not_true_iff_false, gone_generation_iff in Hg. apply Hg.
    unfold g_key in Hk. injection Hk. auto. }
  assert (Hid : forall A (p : A -> bool) l, (forall x, In x l -> p x = false) ->
    delete_where p l = l).
  { intros A p l Hl. apply forallb_filter_id, forallb_forall. intros x Hx.
    by rewrite Hl. }
  destruct db as [m en gs es fs]. unfold purge.
  rewrite <- (pruned_generations _ _ _ Hp), <- (pruned_entries _ _ _ Hp), <- (pruned_fts _ _ _ Hp).
  rewrite <- (pruned_meta _ _ _ Hp), <- (pruned_enrolled _ _ _ Hp). simpl in *.
  f_equal; symmetry; apply Hid; [done|..].
  - intros e He. apply not_true_iff_false. rewrite entry_obsolete_iff. intros [Hs Ho].
    destruct (wf_foreign_key _ W e He) as (r & Hr & Hk). by rewrite (Hkey _ _ r Hr Hk Hs) in Ho.
  - intros f Hf. apply not_true_iff_false. rewrite gone_fts_iff. intros [Hs Ho].
    destruct (wf_fts_key _ W f Hf) as (r & Hr & Hk). by rewrite (Hkey _ _ r Hr Hk Hs) in Ho.
Qed.

Lemma cleanup_loop_spec server db0 fuel : forall flags db cursor stats,
  pruned server db0 db -> (row_count db < fuel)%nat ->
  exists db' stats', cleanup_loop fuel flags db server cursor stats = Some (db', stats') /\
    pruned server db0 db' /\
    ((forall k, flags k = (false, false, false)) -> cursor_ok server db cursor ->
     has_obsolete_generations db' server = false /\
     stopped_for_shutdown stats' = stopped_for_shutdown stats /\
     deferred_for_build stats' = deferred_for_build stats).
Proof.
  induction fuel as [|fuel IH]; intros flags db cursor stats Hp Hf; [lia|].
  cbn [cleanup_loop]. destruct (flags O) as [[sd ba] bg] eqn:Ef. unfold cleanup_one_batch.
  destruct sd; [eexists _, _; split; [done|split; [done|]]; intros Hq; by rewrite Hq in Ef|].
  destruct ba; [eexists _, _; split; [done|split; [done|]]; intros Hq; by rewrite Hq in Ef|].
  destruct (has_obsolete_generations db server) eqn:Eo; cbn [negb].
  2: { eexists _, _. split; [done|]. split; [done|]. done. }
  destruct bg; [eexists _, _; split; [done|split; [done|]]; intros Hq; by rewrite Hq in Ef|].
  pose proof (batch_spec server db0 db cursor Hp) as Hb. unfold candidates in Hb.
  destruct (delete_cleanup_batch db server _ _) as [db1 b].
  destruct Hb as (Hp1 & Hlt & Hc & Hz). fold (batch_is_empty b).
  destruct (batch_is_empty b) eqn:Eb.
  - eexists _, _. split; [done|]. split; [done|]. intros _ Hcur. by rewrite (Hz Hcur) in Eo.
  - destruct (IH (fun k => flags (S k)) db1 (unwrap_or cursor (c_rowid <$>
      last (cleanup_fts_candidates db server cursor))) (add_batch stats b) Hp1)
      as (db' & st & -> & Hp' & Hq).
    { specialize (Hlt eq_refl). lia. }
    eexists _, _. split; [done|]. split; [done|]. intros Hfl Hcur. apply Hq; auto.
Qed.

(** ** Properties *)

(** C22: the cleanup of a server always ends, whatever builds and shutdown do meanwhile,
    within one batch more than there are rows; it deletes nothing but rows of the
    server's obsolete generations, and undisturbed it deletes all of them: the
    database is then the purged one. *)
Theorem cleanup_purges (db : IndexDb) (server : string) (flags : nat -> cleanup_flags)
    (fuel : nat) (W : wf db) (Hfuel : (row_count db < fuel)%nat) :
  exists db' stats,
    cleanup_obsolete_generations_coordinated fuel flags db server = Some (db', stats) /\
    pruned server db db' /\
    ((forall k, flags k = (false, false, false)) ->
     db' = purge db server /\ stopped_for_shutdown stats = false /\
     deferred_for_build stats = false).
Proof.
  pose proof (pruned_refl server db W) as Hp. unfold cleanup_obsolete_generations_coordinated.
  destruct (has_obsolete_generations db server) eqn:Eo; cbn [negb].
  - destruct (cleanup_loop_spec server db fuel flags db 0 stats_default Hp Hfuel)
      as (db' & st & -> & Hp' & Hq).
    eexists _, _. split; [done|]. split; [done|]. intros Hfl.
    destruct (Hq Hfl) as (Hno & -> & ->).
    { intros f Hf _. pose proof (wf_fts_rowids _ W) as Hs. inversion Hs as [|? ? _ Hall]; subst.
      rewrite List.Forall_forall in Hall. by apply Hall, in_map. }
    split; [by apply pruned_complete|done].
  - eexists _, _. split; [done|]. split; [done|]. intros _.
    split; [by apply pruned_complete|done].
Qed.

Lemma cleanup_purges_witness :
  (row_count demo_db < 20)%nat /\
  exists stats,
    cleanup_obsolete_generations_coordinated 20 (fun _ => (false, false, false)) demo_db "plc"
      = Some (purge demo_db "plc", stats) /\
    map g_generation (generations (purge demo_db "plc")) = [2; 3].
Proof.
  assert (Hf : (row_count demo_db < 20)%nat) by (apply Nat.ltb_lt; vm_compute; reflexivity).
  split; [exact Hf|].
  destruct (cleanup_purges demo_db "plc" (fun _ => (false, false, false)) 20 wf_demo_db Hf)
    as (db' & stats & H & _ & Hq).
  destruct (Hq (fun _ => eq_refl)) as [-> _]. exists stats.
  split; [exact H | vm_compute; reflexivity].
Defined.
