(* ===== verification/StoreSpec.v ===== *)
(** * What the index database promises

    The operations of the database as one type, the invariant of every reachable
    database, and the contract readers rely on: the index that searches see, the
    active generation with its rows, changes only by a promotion, a deletion, the
    replacement of an unreadable file, or rows inserted into that very generation. *)
From S2P Require Import Prelude Text Schedule Opc Store StoreWf Cleanup.

Section Operations.
Context `{TextLibrary}.

Inductive db_op :=
| OpEnroll (server timestamp : string)
| OpSetAutoRefresh (server : string) (enabled : bool) (now : string)
| OpSetRetryState (server : string) (retry_after : option Z) (failures : Z) (circuit_open : bool)
| OpStartGeneration (server : string) (organization : NamespaceOrganization)
    (source : BrowseSource) (started_at : string)
| OpRecordFailedAttempt (server error now : string)
| OpInsertEntries (server : string) (generation : Z) (new : list InventoryEntry)
| OpUpdateProgress (server : string) (generation : Z) (progress : InventoryProgress)
| OpPromote (server : string) (generation : Z) (completed_at : string) (count : Z)
    (profile : option (NamespaceOrganization * BrowseSource)) (warning : option string)
| OpFailGeneration (server : string) (generation : Z) (error : string)
| OpDiscardEmptyGeneration (server : string) (generation : Z)
| OpClearServer (server : string)
| OpDeleteIndex (server : string)
| OpCleanupBatch (server : string) (cursor : Z) (flags : cleanup_flags)
| OpOpen (held : string -> result bool string) (migrated_at : string)
    (quarantine : result bool string).

Definition db_exec (db : IndexDb) (op : db_op) : IndexDb :=
  match op with
  | OpEnroll s t => enroll db s t
  | OpSetAutoRefresh s b t => (set_auto_refresh db s b t).1
  | OpSetRetryState s r n c => set_retry_state db s r n c
  | OpStartGeneration s o src t => (start_generation db s o src t).1
  | OpRecordFailedAttempt s e t => (record_failed_attempt db s e t).1
  | OpInsertEntries s g new => (insert_entries db s g new).1
  | OpUpdateProgress s g p => (update_progress db s g p).1
  | OpPromote s g t n p w => (promote_with_profile db s g t n p w).1
  | OpFailGeneration s g e => (fail_generation db s g e).1
  | OpDiscardEmptyGeneration s g => (discard_empty_generation db s g).1
  | OpClearServer s => clear_server db s
  | OpDeleteIndex s => delete_index db s
  | OpCleanupBatch s cursor (sd, ba, bg) => (cleanup_one_batch db db s cursor sd ba bg).1.1
  | OpOpen held t q => (open_db held t q db).1
  end.

(** The states of the database over the life of the gateway, restarts included. *)
Inductive reachable : IndexDb -> Prop :=
| reachable_empty : reachable empty_db
| reachable_step db op : reachable db -> reachable (db_exec db op).

Lemma cleanup_one_batch_pruned db server cursor sd ba bg :
  wf db -> pruned server db (cleanup_one_batch db db server cursor sd ba bg).1.1.
Proof.
  intros W. pose proof (pruned_refl server db W) as Hp. unfold cleanup_one_batch.
  destruct sd, ba, (has_obsolete_generations db server), bg; try done. cbn [negb].
  pose proof (batch_spec server db db cursor Hp) as Hb. unfold candidates in Hb.
  destruct (delete_cleanup_batch db server _ _) as [db1 b]. by destruct Hb.
Qed.

Lemma wf_db_exec db op : wf db -> wf (db_exec db op).
Proof.
  intros W. destruct op as [| | | | | | | | | | | |s cursor [[sd ba] bg]|]; simpl.
  - by apply wf_enroll.
  - by apply wf_set_auto_refresh.
  - by apply wf_set_retry_state.
  - by apply wf_start_generation.
  - by apply wf_record_failed_attempt.
  - by apply wf_insert_entries.
  - by apply wf_update_progress.
  - by apply wf_promote.
  - by apply wf_fail_generation.
  - by apply wf_discard_empty_generation.
  - by apply wf_clear_server.
  - by apply wf_delete_index.
  - eapply pruned_wf, cleanup_one_batch_pruned. exact W.
  - by apply wf_open_db.
Qed.

Lemma reachable_start db s o src t :
  reachable db -> reachable (start_generation db s o src t).1.
Proof. apply (reachable_step db (OpStartGeneration s o src t)). Qed.
Lemma reachable_insert db s g new : reachable db -> reachable (insert_entries db s g new).1.
Proof. apply (reachable_step db (OpInsertEntries s g new)). Qed.
Lemma reachable_promote db s g t n p w :
  reachable db -> reachable (promote_with_profile db s g t n p w).1.
Proof. apply (reachable_step db (OpPromote s g t n p w)). Qed.

Lemma wf_reachable db : reachable db -> wf db.
Proof. induction 1; [apply wf_empty | by apply wf_db_exec]. Qed.

(** Every entry is the row of an inventory entry. *)
Definition rows_written (db : IndexDb) : Prop :=
  forall e, In e (entries db) -> exists x, e = entry_row (e_server e) (e_generation e) x.

Lemma rows_written_subset db db' :
  (forall e, In e (entries db') -> In e (entries db)) -> rows_written db -> rows_written db'.
Proof. intros Hs Hw e He. apply Hw, Hs, He. Qed.

Lemma rows_written_insert_rows new : forall db s g n db' m,
  rows_written db -> insert_rows db s g new n = Ok (db', m) -> rows_written db'.
Proof.
  induction new as [|x rest IH]; intros db s g n db' m Hw; cbn [insert_rows].
  - by intros [= <- <-].
  - destruct (bool_decide (entry_item_id x = [])); [done|].
    unfold insert_entry_row. simpl. destruct (existsb _ (entries db)); simpl; [by eauto|].
    destruct (existsb _ (generations db)); simpl; [|done]. intros Hi.
    apply IH in Hi; [done|]. intros e [He|[<-|[]]]%in_app_iff; [by apply Hw|]. by exists x.
Qed.

Lemma recover_servers_entries held l : forall db,
  entries (recover_servers held db l).1 = entries db.
Proof.
  induction l as [|s l IH]; intros db; simpl; [done|].
  destruct (held s) as [[]|]; [done| |done]. by rewrite IH.
Qed.

Lemma open_once_entries held t db : entries (open_once held t db).1 = entries db.
Proof.
  unfold open_once. destruct (migrate db t) as [db1|] eqn:E; [|done].
  assert (H1 : entries db1 = entries db).
  { revert E. unfold migrate, result_bind, ok_or. destruct (index_meta db !! _) as [v|].
    2: { by intros [= <-]. }
    destruct (parse_i64 v) as [z|]; [|done]. bool_cases; intros [= <-]; [| |done];
      unfold migrate_schema_3_to_4; simpl;
      match goal with |- context [fold_left _ ?l ?d] =>
        destruct (migrate_server_tables t l d) as (_ & -> & _) end; done. }
  rewrite <- H1. set (db2 := set_meta db1 _). change (entries db1) with (entries db2).
  bool_cases; cbn [fst]; try done; apply recover_servers_entries.
Qed.

Lemma rows_written_db_exec db op : wf db -> rows_written db -> rows_written (db_exec db op).
Proof.
  intros W Hw. destruct op as [| | |s o src t|s e t|s g new| | | |s g| | |s cursor [[sd ba] bg]|held t q];
    simpl.
  - unfold enroll. by destruct (_ !! server).
  - unfold set_auto_refresh. by destruct (_ !! server).
  - done.
  - destruct (start_generation_spec db s o src t W) as [(g & -> & _)|(e & ->)]; simpl;
      unfold enroll; by destruct (_ !! s).
  - unfold record_failed_attempt. destruct (next_generation db s); [|done].
    unfold insert_generation. by destruct (existsb _ _).
  - unfold insert_entries, i64_try_from. destruct (g <=? i64_max); [|done].
    destruct (insert_rows db s g new 0) as [[db' m]|] eqn:E; [|done].
    by eapply rows_written_insert_rows.
  - unfold update_progress, i64_try_from, result_bind. by bool_cases.
  - pose proof (promote_spec db server generation completed_at count profile warning W) as Hs.
    destruct (promote_with_profile _ _ _ _ _ _ _) as [db' [|]]; [by destruct Hs as (_ & _ & _ & ->)|].
    by destruct Hs as [-> _].
  - unfold fail_generation, i64_try_from. by destruct (_ <=? _).
  - unfold discard_empty_generation, i64_try_from. destruct (g <=? i64_max); [|done].
    eapply rows_written_subset; [|exact Hw]. by intros e [He _]%In_delete_where.
  - eapply rows_written_subset; [|exact Hw]. by intros e [He _]%In_delete_where.
  - eapply rows_written_subset; [|exact Hw]. by intros e [He _]%In_delete_where.
  - eapply rows_written_subset; [|exact Hw].
    apply (pruned_entries_subset s). by apply cleanup_one_batch_pruned.
  - unfold open_db. pose proof (open_once_entries held t db) as H1.
    destruct (open_once held t db) as [db' [|e]]; simpl in H1;
      [by intros x; cbn [fst]; rewrite H1; apply Hw|].
    assert (Hw' : rows_written db') by (intros x; rewrite H1; apply Hw).
    destruct (is_quarantinable_index_error e); [|done]. destruct q as [moved|]; [|done].
    pose proof (open_once_entries held t (if moved then empty_db else db')) as H2.
    destruct (open_once held t _) as [db'' [|]]; cbn [fst] in *; intros x; rewrite H2;
      (destruct moved; [done|apply Hw']).
Qed.

Lemma reachable_rows_written db : reachable db -> rows_written db.
Proof.
  induction 1; [by intros e []|]. apply rows_written_db_exec; [by apply wf_reachable|done].
Qed.

(** C1: every database the gateway can reach, over any sequence of operations,
    failures and restarts, has unique generation and entry keys, at most one active
    generation per server, no entry without its generation, and in every generation
    a search may read full-text rows that list the ItemIDs of the entries in order. *)
Theorem reachable_consistent (db : IndexDb) (Hr : reachable db) :
  NoDup (map g_key (generations db)) /\
  NoDup (map e_key (entries db)) /\
  (forall r1 r2, In r1 (generations db) -> In r2 (generations db) ->
     g_state r1 = Active -> g_state r2 = Active -> g_server r1 = g_server r2 -> r1 = r2) /\
  (forall e, In e (entries db) -> e_item_id e <> [] /\
     exists r, In r (generations db) /\ g_key r = (e_server e, e_generation e)) /\
  (forall r, In r (generations db) -> g_state r = Active \/ g_state r = Staging ->
     fts_item_ids db (g_server r) (g_generation r) = item_ids db (g_server r) (g_generation r)).
Proof.
  pose proof (wf_reachable db Hr) as W. split; [apply W|]. split; [apply W|]. split; [|split].
  - intros r1 r2 H1 H2 A1 A2 Hs. apply (NoDup_map_inj g_key _ _ _ (wf_keys _ W) H1 H2).
    unfold g_key. by rewrite Hs, (wf_active _ W r1 r2 H1 H2 A1 A2 Hs).
  - intros e He. split; by apply W.
  - intros r Hin Hs. apply (wf_sync_ids _ r W Hin). apply not_true_iff_false.
    rewrite is_obsolete_iff. destruct Hs as [-> | ->]; by intros [?|[? _]].
Qed.

(** ** The index searches read

    The view of an active generation: every column of its row but the two that carry
    warnings about it ([last_error], which a restart sets when it finds an interrupted
    build, and [compatibility_fallback], which a schema migration adds), and all of its
    rows in the entry and text tables. *)

Record ActiveIndex := {
  ai_generation : Z;
  ai_organization : string;
  ai_source : string;
  ai_started_at : string;
  ai_completed_at : option string;
  ai_entry_count : Z;
  ai_unique_item_count : Z;
  ai_entries : list EntryRow;
  ai_fts : list FtsRow
}.

Definition view_row (db : IndexDb) (r : Generation) : ActiveIndex :=
  {| ai_generation := g_generation r;
     ai_organization := g_organization r;
     ai_source := g_source r;
     ai_started_at := g_started_at r;
     ai_completed_at := g_completed_at r;
     ai_entry_count := g_entry_count r;
     ai_unique_item_count := g_unique_item_count r;
     ai_entries := List.filter (entry_of (g_server r) (g_generation r)) (entries db);
     ai_fts := List.filter (fts_of (g_server r) (g_generation r)) (entries_fts db) |}.

Definition active_row (s : string) (r : Generation) : bool := of_server s r && is_state Active r.

Definition active_view (db : IndexDb) (s : string) : list ActiveIndex :=
  map (view_row db) (List.filter (active_row s) (generations db)).

(** The operations that may change the index of server [s]: promotion, deletion, the
    replacement of an unreadable file, and an insertion aimed at the active generation
    itself: [insert_entries] takes any generation number and does not look at its state
    (a build inserts into the staging generation it started). *)
Definition touches (s : string) (db : IndexDb) (op : db_op) : Prop :=
  match op with
  | OpPromote s' _ _ _ _ _ | OpClearServer s' | OpDeleteIndex s' => s' = s
  | OpInsertEntries s' g _ =>
      s' = s /\ exists r, In r (generations db) /\ g_key r = (s, g) /\ g_state r = Active
  | OpOpen _ _ q => q = Ok true
  | _ => False
  end.

Lemma active_row_iff s r : active_row s r = true <-> g_server r = s /\ g_state r = Active.
Proof. unfold active_row. by rewrite andb_true_iff, of_server_iff, is_state_iff. Qed.

Lemma active_view_tables db db' s :
  generations db' = generations db -> entries db' = entries db ->
  entries_fts db' = entries_fts db -> active_view db' s = active_view db s.
Proof. unfold active_view, view_row. by intros -> -> ->. Qed.

Lemma active_view_map db h s :
  (forall r, In r (generations db) -> active_row s (h r) = active_row s r) ->
  (forall r, In r (generations db) -> active_row s r = true -> view_row db (h r) = view_row db r) ->
  active_view (set_generations db (map h (generations db))) s = active_view db s.
Proof.
  intros Ha Hv. unfold active_view. simpl.
  change (view_row (set_generations db (map h (generations db)))) with (view_row db).
  induction (generations db) as [|r l IH]; simpl; [done|].
  rewrite (Ha r (or_introl eq_refl)). destruct (active_row s r) eqn:E; simpl.
  - rewrite (Hv r (or_introl eq_refl) E). f_equal. apply IH; intros; [apply Ha; by right|apply Hv; [by right|done]].
  - apply IH; intros; [apply Ha; by right|apply Hv; [by right|done]].
Qed.

(** Updates of rows that are not active, or of columns a search does not read. *)
Lemma active_view_update db p f s :
  (forall r, In r (generations db) -> p r = true -> active_row s (f r) = active_row s r) ->
  (forall r, In r (generations db) -> p r = true -> active_row s r = true ->
     view_row db (f r) = view_row db r) ->
  active_view (set_generations db (update_where p f (generations db))) s = active_view db s.
Proof.
  intros Ha Hv. rewrite update_where_map. apply active_view_map; intros r Hr;
    destruct (p r) eqn:E; auto.
Qed.

Lemma active_view_staging db p f s :
  (forall r, p r = true -> g_state r = Staging) -> (forall r, g_state (f r) <> Active) ->
  active_view (set_generations db (update_where p f (generations db))) s = active_view db s.
Proof.
  intros Hp Hf. apply active_view_update; intros r _ Hr.
  - apply eq_iff_eq_true. rewrite !active_row_iff. rewrite (Hp r Hr). specialize (Hf r).
    split; [tauto|by intros [_ ?]].
  - rewrite active_row_iff, (Hp r Hr). by intros [_ ?].
Qed.

Lemma active_view_new_row db r s :
  g_state r <> Active ->
  active_view (set_generations db (generations db ++ [r])) s = active_view db s.
Proof.
  intros Hr. unfold active_view. simpl. rewrite List.filter_app. simpl.
  destruct (active_row s r) eqn:E; [by apply active_row_iff in E as [_ ?]|].
  rewrite app_nil_r. by apply map_ext.
Qed.

Lemma enroll_active_view db s t s' : active_view (enroll db s t) s' = active_view db s'.
Proof. unfold enroll. destruct (_ !! s); [done|]. by apply active_view_tables. Qed.

(** Rows of another generation appended to the tables. *)
Lemma active_view_add_entry db s g x s' :
  (forall r, In r (generations db) -> g_key r = (s, g) -> g_server r = s' ->
     g_state r <> Active) ->
  active_view (add_entry db s g x) s' = active_view db s'.
Proof.
  intros Hn. unfold active_view. simpl. apply map_ext_in. intros r [Hr Ha]%filter_In.
  apply active_row_iff in Ha as [Hs Ha]. unfold view_row. simpl.
  assert (Hk : ~ (s = g_server r /\ g = g_generation r)).
  { intros [-> ->]. by apply (Hn r Hr). }
  rewrite !List.filter_app. simpl. unfold entry_of at 2, fts_of at 2. simpl.
  destruct (bool_decide_reflect (s = g_server r)), (Z.eqb_spec g (g_generation r));
    simpl; rewrite ?app_nil_r; done || tauto.
Qed.

Lemma active_view_insert_rows new : forall db s g n db' m s',
  (forall r, In r (generations db) -> g_key r = (s, g) -> g_server r = s' ->
     g_state r <> Active) ->
  insert_rows db s g new n = Ok (db', m) -> active_view db' s' = active_view db s'.
Proof.
  induction new as [|x rest IH]; intros db s g n db' m s' Hn; cbn [insert_rows].
  - by intros [= <- <-].
  - destruct (bool_decide_reflect (entry_item_id x = [])) as [|Hx]; [done|].
    unfold insert_entry_row. simpl. destruct (existsb _ (entries db)); simpl; [by eauto|].
    destruct (existsb _ (generations db)); simpl; [|done].
    change (set_fts _ _) with (add_entry db s g x). intros Hi.
    rewrite (IH (add_entry db s g x) s g _ db' m s' Hn Hi). by apply active_view_add_entry.
Qed.

Lemma active_view_recover_server db s s' :
  active_view (recover_server db s) s' = active_view db s'.
Proof.
  unfold recover_server. rewrite active_view_staging.
  - apply active_view_update; done.
  - intros r [_ Hr]%andb_true_iff. by apply is_state_iff.
  - intros r. simpl. by destruct (active_exists _ s).
Qed.

Lemma active_view_recover_servers held l s : forall db,
  active_view (recover_servers held db l).1 s = active_view db s.
Proof.
  induction l as [|s' l IH]; intros db; simpl; [done|].
  destruct (held s') as [[]|]; [done| |done]. rewrite IH. apply active_view_recover_server.
Qed.

Lemma active_view_migrate db t db' s :
  migrate db t = Ok db' -> active_view db' s = active_view db s.
Proof.
  assert (H34 : forall db, active_view (migrate_schema_3_to_4 db t) s = active_view db s).
  { intros d. unfold migrate_schema_3_to_4.
    match goal with |- context [fold_left _ ?l d] =>
      destruct (migrate_server_tables t l d) as (? & ? & ?) end.
    by apply active_view_tables. }
  unfold migrate, result_bind, ok_or. destruct (index_meta db !! _) as [v|].
  2: { by intros [= <-]. }
  destruct (parse_i64 v) as [z|]; [|done]. bool_cases; intros [= <-]; [|done..].
  rewrite H34. unfold migrate_schema_2_to_3.
  transitivity (active_view (set_generations db (generations (migrate_schema_2_to_3 db))) s);
    [by apply active_view_tables|]. by apply active_view_map.
Qed.

Lemma active_view_open_once held t db s :
  active_view (open_once held t db).1 s = active_view db s.
Proof.
  unfold open_once. destruct (migrate db t) as [db1|] eqn:E; [|done].
  rewrite <- (active_view_migrate _ _ _ s E).
  set (db2 := set_meta db1 _). change (active_view db1 s) with (active_view db2 s).
  bool_cases; simpl; try done; apply active_view_recover_servers.
Qed.

Lemma active_view_open_db held t q db s :
  q <> Ok true -> active_view (open_db held t q db).1 s = active_view db s.
Proof.
  intros Hq. unfold open_db. pose proof (active_view_open_once held t db s) as H1.
  destruct (open_once held t db) as [db' [|e]]; [done|]. simpl in H1.
  destruct (is_quarantinable_index_error e); [|done]. destruct q as [[]|]; [done| |done].
  pose proof (active_view_open_once held t db' s) as H2.
  destruct (open_once held t db') as [? [|]]; simpl in *; congruence.
Qed.

Lemma active_view_cleanup db db' server s :
  wf db -> pruned server db db' -> active_view db' s = active_view db s.
Proof.
  intros W Hp.
  assert (Hf : forall (r : Generation), g_state r = Active -> gone_generation db server r = false).
  { intros r Hr. apply not_true_iff_false. rewrite gone_generation_iff, is_obsolete_iff.
    intros [_ [?|[? _]]]; congruence. }
  assert (Hg : List.filter (active_row s) (generations db')
    = List.filter (active_row s) (generations db)).
  { rewrite <- (filter_delete_where _ (gone_generation db server) (generations db')),
      <- (filter_delete_where _ (gone_generation db server) (generations db)),
      (pruned_generations _ _ _ Hp); [done|intros r _ [_ Hr]%active_row_iff; by apply Hf..]. }
  unfold active_view. rewrite Hg. apply map_ext_in. intros r [Hr [_ Ha]%active_row_iff]%filter_In.
  assert (Hno : in_obsolete db (g_server r) (g_generation r) = false).
  { apply not_true_iff_false. rewrite in_obsolete_iff. intros (x & Hx & Hk & Ho).
    rewrite (NoDup_map_inj g_key _ x r (wf_keys _ W) Hx Hr Hk), is_obsolete_iff in Ho.
    destruct Ho as [?|[? _]]; congruence. }
  unfold view_row. f_equal.
  - rewrite <- (filter_delete_where _ (entry_obsolete db server) (entries db')),
      <- (filter_delete_where _ (entry_obsolete db server) (entries db)),
      (pruned_entries _ _ _ Hp); [done|intros e _ [Hs Hgn]%entry_of_iff;
      unfold entry_obsolete; by rewrite Hs, Hgn, Hno, andb_false_r..].
  - rewrite <- (filter_delete_where _ (gone_fts db server) (entries_fts db')),
      <- (filter_delete_where _ (gone_fts db server) (entries_fts db)),
      (pruned_fts _ _ _ Hp); [done|intros f _ [Hs Hgn]%fts_of_iff;
      unfold gone_fts; by rewrite Hs, Hgn, Hno, andb_false_r..].
Qed.

Lemma active_view_promote_other db s g t n prof w s' :
  wf db -> s <> s' ->
  active_view (promote_with_profile db s g t n prof w).1 s' = active_view db s'.
Proof.
  intros W Hne. pose proof (promote_spec db s g t n prof w W) as Hs.
  destruct (promote_with_profile db s g t n prof w) as [db' [|]]; simpl.
  2: { by destruct Hs as [-> _]. }
  destruct Hs as (_ & _ & _ & ->).
  set (act := activate _ _ _ _ _).
  assert (Hid : forall r, g_server r = s' -> promote_row s g act r = r).
  { intros r Hr. unfold promote_row, has_key. destruct (of_server s r) eqn:E; [|done].
    apply of_server_iff in E. congruence. }
  apply active_view_map.
  - intros r _. destruct (decide (g_server r = s')) as [E|E]; [by rewrite Hid|].
    apply eq_iff_eq_true. rewrite !active_row_iff.
    destruct (promote_row_facts s g t n ((fun p => namespace_string p.1) <$> prof)
      ((fun p => source_string p.2) <$> prof) w r) as [Hk _]. fold act in Hk.
    injection Hk as Hks _. rewrite Hks. tauto.
  - intros r _ [Hr _]%active_row_iff. by rewrite Hid.
Qed.

(** Deleting rows of generations of server [s]: the index of another server stays. *)
Lemma active_view_clear_other db s s' :
  s <> s' -> active_view (clear_server db s) s' = active_view db s'.
Proof.
  intros Hne. unfold active_view. simpl. rewrite filter_delete_where.
  2: { intros r _ [Hr _]%active_row_iff. apply not_true_iff_false. rewrite of_server_iff.
       congruence. }
  apply map_ext_in. intros r [_ [Hr _]%active_row_iff]%filter_In. unfold view_row. f_equal.
  - apply filter_delete_where. intros e _ [He _]%entry_of_iff.
    apply not_true_iff_false. rewrite existsb_exists. intros (x & _ & Hx).
    rewrite andb_true_iff, of_server_iff, has_key_iff in Hx. destruct Hx as [Hx Hk].
    injection Hk. congruence.
  - apply filter_delete_where. intros f _ [Hf _]%fts_of_iff.
    apply bool_decide_eq_false. congruence.
Qed.

(** Deleting rows that are not active and hold nothing. *)
Lemma active_view_delete_generations db p s :
  wf db -> (forall r, In r (generations db) -> p r = true -> g_state r <> Active) ->
  active_view (delete_generations p db) s = active_view db s.
Proof.
  intros W Hp. unfold active_view. simpl. rewrite filter_delete_where.
  2: { intros r Hr [_ Ha]%active_row_iff. apply not_true_iff_false. intros Hpr.
       by apply (Hp r). }
  apply map_ext_in. intros r [Hr [_ Ha]%active_row_iff]%filter_In. unfold view_row. f_equal.
  apply filter_delete_where. intros e _ [Hes Heg]%entry_of_iff.
  apply not_true_iff_false. rewrite existsb_exists. intros (x & Hx & Hpx).
  rewrite andb_true_iff, has_key_iff in Hpx. destruct Hpx as [Hpx Hk]. rewrite Hes, Heg in Hk.
  rewrite (NoDup_map_inj g_key _ x r (wf_keys _ W) Hx Hr Hk) in Hpx. by apply (Hp r).
Qed.

Lemma active_view_isolated db op s :
  wf db -> ~ touches s db op -> active_view (db_exec db op) s = active_view db s.
Proof.
  intros W Ht. destruct op as [| | |s' o src t|s' e t|s' g new|s' g p| | |s' g| | |s' cursor [[sd ba] bg]|];
    simpl in *.
  - apply enroll_active_view.
  - unfold set_auto_refresh. destruct (_ !! server); [|done]. by apply active_view_tables.
  - by apply active_view_tables.
  - destruct (start_generation_spec db s' o src t W) as [(g & -> & _)|(e & ->)]; simpl;
      [|apply enroll_active_view].
    rewrite <- (enroll_generations db s' t).
    rewrite active_view_new_row by done. apply enroll_active_view.
  - unfold record_failed_attempt. destruct (next_generation db s'); [|done].
    unfold insert_generation. destruct (existsb _ _); [done|]. by apply active_view_new_row.
  - unfold insert_entries, i64_try_from. destruct (g <=? i64_max); [|done].
    destruct (insert_rows db s' g new 0) as [[db' m]|] eqn:E; [|done]. simpl.
    eapply active_view_insert_rows; [|exact E]. intros r Hr Hk Hs Ha. apply Ht.
    assert (s' = s) as -> by (injection Hk; congruence). eauto.
  - unfold update_progress, i64_try_from, result_bind. bool_cases; try done. simpl.
    apply active_view_update; [done|]. intros r _ Hp [_ Ha]%active_row_iff.
    apply andb_true_iff in Hp as [_ Hp%is_state_iff]. congruence.
  - by apply active_view_promote_other.
  - unfold fail_generation, i64_try_from. destruct (_ <=? i64_max); [|done]. simpl.
    apply active_view_staging; [|done]. intros r [_ Hp]%andb_true_iff. by apply is_state_iff.
  - unfold discard_empty_generation, i64_try_from. destruct (g <=? i64_max); [|done]. simpl.
    apply active_view_delete_generations; [done|]. intros r _ Hp.
    rewrite !andb_true_iff, is_state_iff in Hp. destruct Hp as [[[_ ->] _] _]. done.
  - by apply active_view_clear_other.
  - transitivity (active_view (clear_server db server) s); [by apply active_view_tables|].
    by apply active_view_clear_other.
  - eapply active_view_cleanup; [done|]. by apply cleanup_one_batch_pruned.
  - by apply active_view_open_db.
Qed.

(** C2: the index a search reads is stable. Starting, failing or discarding a build,
    filling any generation but the active one, progress and retry bookkeeping,
    enrollment, cleanup, restart recovery and schema migration, and every operation on
    another server, leave the active generation of a server (number, organization,
    source, start, completion and counts) and all its entries and text rows exactly as
    they were. What remains are the operations [touches] lists: promotion, deletion of
    the index, replacement of an unreadable file, and rows inserted directly into the
    active generation. *)
Theorem active_index_isolated (db : IndexDb) (op : db_op) (s : string)
    (Hr : reachable db) (Ht : ~ touches s db op) :
  active_view (db_exec db op) s = active_view db s.
Proof. apply active_view_isolated; [by apply wf_reachable|done]. Qed.

Lemma filter_active_singleton db s r :
  wf db -> In r (generations db) -> active_row s r = true ->
  List.filter (active_row s) (generations db) = [r].
Proof.
  intros W Hr Ha. pose proof (NoDup_map_filter g_key (active_row s) _ (wf_keys _ W)) as Hnd.
  assert (Hin : In r (List.filter (active_row s) (generations db))) by by apply filter_In.
  assert (Hall : forall x, In x (List.filter (active_row s) (generations db)) -> x = r).
  { intros x [Hx [Hxs Hxa]%active_row_iff]%filter_In. apply active_row_iff in Ha as [Hs Ha].
    eapply (NoDup_map_inj g_key); [apply (wf_keys _ W)|done..|]. unfold g_key.
    rewrite (wf_active _ W x r) by congruence. congruence. }
  destruct (List.filter _ _) as [|x [|y l]]; [done|by rewrite (Hall x (or_introl eq_refl))|].
  assert (x = r) as -> by (apply Hall; by left).
  assert (y = r) as -> by (apply Hall; right; by left).
  simpl in Hnd. apply NoDup_cons in Hnd as [Hnd _]. exfalso. apply Hnd. constructor.
Qed.

(** The index of the server after a promotion. *)
Lemma promoted_view db s g t n prof w db' u :
  wf db -> promote_with_profile db s g t n prof w = (db', Ok u) ->
  exists view, active_view db' s = [view] /\ ai_generation view = g /\
    ai_entry_count view = n /\ ai_completed_at view = Some t /\
    (forall o src, prof = Some (o, src) ->
       ai_organization view = namespace_string o /\ ai_source view = source_string src) /\
    ai_entries view = List.filter (entry_of s g) (entries db) /\
    map f_item_id (ai_fts view) = map e_item_id (ai_entries view).
Proof.
  intros W Hp. pose proof (promote_spec db s g t n prof w W) as Hs.
  pose proof (wf_promote db s g t n prof w W) as W'. rewrite Hp in Hs, W'. cbn [fst] in W'.
  destruct Hs as (_ & _ & (row & Hrow & Hk & Hst) & Hdb').
  set (act := activate t n _ _ w) in Hdb'.
  assert (Hact : promote_row s g act row = act row).
  { unfold promote_row. by rewrite (proj2 (has_key_iff s g row) Hk), (proj2 (is_state_iff _ _) Hst). }
  assert (Hin : In (act row) (generations db'))
    by (rewrite Hdb', <- Hact; simpl; by apply in_map).
  exists (view_row db' (act row)). split.
  - unfold active_view. rewrite (filter_active_singleton db' s (act row) W'); [done|done|].
    apply active_row_iff. injection Hk. done.
  - injection Hk as Hks Hkg. cbn. rewrite Hks, Hkg.
    split; [done|]. split; [done|]. split; [done|]. split; [by intros o src ->|].
    split; [by subst db'|].
    assert (Hob : is_obsolete db' (act row) = false).
      { apply not_true_iff_false. rewrite is_obsolete_iff. by intros [?|[? _]]. }
    pose proof (wf_sync_ids db' (act row) W' Hin Hob) as Hsync. revert Hsync.
    unfold fts_item_ids, item_ids. cbn. by rewrite Hks, Hkg.
Qed.

(** C3: a promotion is atomic. It succeeds exactly when the generation is staging
    (and the numbers fit SQLite's integers), and then the server's index is that
    generation with the rows it has, its counts and its profile; when it fails the
    database is untouched. *)
Theorem promotion_atomic (db : IndexDb) (s : string) (g : Z) (t : string) (n : Z)
    (prof : option (NamespaceOrganization * BrowseSource)) (w : option string)
    (Hr : reachable db) (Hn : 0 <= n <= i64_max) (Hg : 0 <= g <= i64_max) :
  let '(db', r) := promote_with_profile db s g t n prof w in
  match r with
  | Ok _ =>
      (exists row, In row (generations db) /\ g_key row = (s, g) /\ g_state row = Staging) /\
      (exists view, active_view db' s = [view] /\ ai_generation view = g /\
         ai_entry_count view = n /\ ai_completed_at view = Some t /\
         (forall o src, prof = Some (o, src) ->
            ai_organization view = namespace_string o /\ ai_source view = source_string src) /\
         ai_entries view = List.filter (entry_of s g) (entries db) /\
         map f_item_id (ai_fts view) = map e_item_id (ai_entries view)) /\
      entries db' = entries db /\ entries_fts db' = entries_fts db
  | Err _ =>
      db' = db /\
      forall row, In row (generations db) -> g_key row = (s, g) -> g_state row <> Staging
  end.
Proof.
  pose proof (wf_reachable db Hr) as W.
  pose proof (promote_spec db s g t n prof w W) as Hs.
  pose proof (promoted_view db s g t n prof w) as Hv.
  destruct (promote_with_profile db s g t n prof w) as [db' [u|e]].
  - destruct Hs as (_ & _ & Hrow & Hdb'). split; [done|]. split; [by apply (Hv db' u)|].
    by subst db'.
  - destruct Hs as [-> Hs]. split; [done|]. apply Hs; lia.
Qed.

(** ** Entries *)

Lemma item_ids_fresh new : forall db s g,
  item_ids (fold_left (fun db x => add_entry db s g x) (fresh_entries db s g new) db) s g
    = item_ids db s g ++ map entry_item_id (fresh_entries db s g new).
Proof.
  induction new as [|x rest IH]; intros db s g; simpl; [by rewrite app_nil_r|].
  destruct (has_item db s g (entry_item_id x)); [apply IH|]. simpl. rewrite IH.
  rewrite (proj1 (item_ids_add_entry db s g x s g)), bool_decide_eq_true_2, Z.eqb_refl by done.
  simpl. by rewrite <- app_assoc.
Qed.

Lemma item_ids_other new : forall db s g s' g', (s, g) <> (s', g') ->
  item_ids (fold_left (fun db x => add_entry db s g x) new db) s' g' = item_ids db s' g'.
Proof.
  induction new as [|x rest IH]; intros db s g s' g' Hne; simpl; [done|]. rewrite IH by done.
  rewrite (proj1 (item_ids_add_entry db s g x s' g')).
  destruct (bool_decide_reflect (s = s')), (Z.eqb_spec g g'); simpl;
    try apply app_nil_r. congruence.
Qed.

Lemma fresh_entries_set new : forall db s g i,
  In i (item_ids db s g ++ map entry_item_id (fresh_entries db s g new)) <->
  In i (item_ids db s g) \/ In i (map entry_item_id new).
Proof.
  induction new as [|x rest IH]; intros db s g i; simpl; [rewrite app_nil_r; tauto|].
  destruct (has_item db s g (entry_item_id x)) eqn:E.
  - apply has_item_iff in E. rewrite IH. split; [tauto|]. intros [?|[<-|?]]; tauto.
  - specialize (IH (add_entry db s g x) s g i).
    rewrite (proj1 (item_ids_add_entry db s g x s g)), bool_decide_eq_true_2, Z.eqb_refl in IH
      by done. simpl in IH. rewrite <- app_assoc in IH. simpl in *. rewrite IH, in_app_iff.
    simpl. tauto.
Qed.

Lemma fresh_entries_subset new : forall db s g x,
  In x (fresh_entries db s g new) -> In x new.
Proof.
  induction new as [|y rest IH]; intros db s g x; simpl; [done|].
  destruct (has_item db s g (entry_item_id y)); [eauto|]. intros [->|?]; eauto.
Qed.

(** Inserting a batch adds each new ItemID once, in order, to the entries and
    to the full-text rows of the generation, counts exactly the rows added and
    leaves every other generation alone; a batch with an empty ItemID or for a
    generation that does not exist changes nothing. *)
Theorem insert_entries_dedups (db : IndexDb) (s : string) (g : Z) (new : list InventoryEntry)
    (Hr : reachable db) (Hg : 0 <= g <= i64_max)
    (Hlen : Z.of_nat (length new) <= u64_max) :
  let '(db', r) := insert_entries db s g new in
  match r with
  | Ok n =>
      (exists added, n = Z.of_nat (length added) /\
         item_ids db' s g = item_ids db s g ++ added) /\
      NoDup (item_ids db' s g) /\
      (forall i, In i (item_ids db' s g) <->
         In i (item_ids db s g) \/ In i (map entry_item_id new)) /\
      (forall s' g', (s, g) <> (s', g') -> item_ids db' s' g' = item_ids db s' g')
  | Err _ =>
      db' = db /\
      ((exists x, In x new /\ entry_item_id x = []) \/
       (forall row, In row (generations db) -> g_key row <> (s, g)))
  end.
Proof.
  pose proof (wf_reachable db Hr) as W.
  pose proof (wf_insert_entries db s g new W) as W'. unfold insert_entries, i64_try_from in *.
  rewrite (proj2 (Z.leb_le g i64_max)) in * by lia.
  destruct (insert_rows db s g new 0) as [[db' n]|e] eqn:E; cbn [fst] in *.
  - destruct (insert_rows_spec new db s g 0 db' n ltac:(unfold umax; lia) E) as [-> ->].
    rewrite item_ids_fresh. split; [|split; [|split]].
    + exists (map entry_item_id (fresh_entries db s g new)). split; [|done].
      rewrite length_map. assert ((length (fresh_entries db s g new) <= length new)%nat); [|lia].
      clear. revert db. induction new as [|x rest IH]; intros db; simpl; [lia|].
      destruct (has_item db s g (entry_item_id x)); simpl;
        [specialize (IH db)|specialize (IH (add_entry db s g x))]; lia.
    + rewrite <- item_ids_fresh. unfold item_ids.
      apply (NoDup_map_weaken e_key _ _ (NoDup_map_filter _ _ _ (wf_entries _ W'))).
      intros a b [_ [Ha1 Ha2]%entry_of_iff]%filter_In [_ [Hb1 Hb2]%entry_of_iff]%filter_In Hab.
      unfold e_key. congruence.
    + apply fresh_entries_set.
    + intros s' g' Hne. by apply item_ids_other.
  - split; [done|]. destruct (existsb (has_key s g) (generations db)) eqn:Ek.
    + left. clear W' Hlen Hr W. revert db E Ek. generalize 0.
      induction new as [|x rest IH]; intros n db; cbn [insert_rows]; [done|].
      destruct (bool_decide_reflect (entry_item_id x = [])) as [Hx|Hx];
        [intros; exists x; split; [by left|done]|].
      unfold insert_entry_row. simpl.
      destruct (existsb _ (entries db)); simpl; intros E Ek; [|rewrite Ek in E; simpl in E];
        edestruct IH as (y & ? & ?); [exact E|done| |exact E|done|];
        (exists y; split; [by right|done]).
    + right. intros row Hrow Hk. rewrite <- not_true_iff_false, existsb_exists in Ek.
      apply Ek. exists row. by rewrite has_key_iff.
Qed.

(** ** Restart recovery *)

(** What the recovery of the servers [l] does to one generation. *)
Definition recovered (db : IndexDb) (l : list string) (r r' : Generation) : Prop :=
  g_key r' = g_key r /\
  g_state r' =
    (if is_state Staging r && bool_decide (g_server r ∈ l)
     then if active_exists db (g_server r) then Superseded else Failed
     else g_state r).

Lemma recover_server_rows db s :
  Forall2 (recovered db [s]) (generations db) (generations (recover_server db s)) /\
  (forall s', active_exists (recover_server db s) s' = active_exists db s').
Proof.
  unfold recover_server. set (db1 := set_generations db _).
  assert (Hact : forall s', active_exists db1 s' = active_exists db s').
  { intros s'. unfold db1. rewrite update_where_map. apply eq_iff_eq_true.
    rewrite active_exists_map by (intros r; by destruct (_ && _)).
    rewrite active_exists_iff. split; intros (r & Hr & Hs & Ha); exists r;
      (split; [done|split; [done|]]); [by destruct (_ && _) in Ha|by destruct (_ && _)]. }
  rewrite Hact. set (st := if active_exists db s then Superseded else Failed).
  assert (Hst : st <> Active) by (unfold st; by destruct (active_exists db s)).
  split.
  - simpl. unfold update_where. rewrite map_map. apply Forall2_fmap_r, Forall_Forall2_diag.
    apply Forall_forall. intros r _. unfold recovered, compose. cbv beta.
    match goal with |- context [is_state Staging ?x] =>
      lazymatch x with r => fail | _ => set (r1 := x) end end.
    assert (Hr1 : g_key r1 = g_key r /\ g_state r1 = g_state r /\ g_server r1 = g_server r)
      by (unfold r1; by destruct (_ && _)).
    destruct Hr1 as (Hk & Hs & Hsv). unfold of_server at 1 2, is_state at 1 2.
    rewrite Hsv, Hs.
    destruct (bool_decide_reflect (g_server r = s)) as [E|E], (is_state Staging r) eqn:Es;
      unfold is_state in Es; rewrite ?Es; simpl; (split; [done|]).
    + rewrite bool_decide_eq_true_2 by (rewrite E; by left). by rewrite E.
    + done.
    + rewrite bool_decide_eq_false_2; [done|]. by intros ?%list_elem_of_singleton.
    + done.
  - intros s'. rewrite update_where_map. apply eq_iff_eq_true.
    rewrite active_exists_map by (intros r; by destruct (_ && _)).
    rewrite <- Hact, active_exists_iff. split; intros (r & Hr & Hs & Ha); exists r;
      (split; [done|split; [done|]]).
    + destruct (_ && _); [|done]. simpl in Ha. congruence.
    + destruct (of_server s r && is_state Staging r) eqn:E; [|done].
      apply andb_true_iff in E as [_ E%is_state_iff]. congruence.
Qed.

Lemma recover_servers_rows held l : forall db,
  (forall s, s ∈ l -> exists b, held s = Ok b) ->
  (recover_servers held db l).2 = Ok tt /\
  Forall2 (recovered db (List.filter (fun s => match held s with Ok b => negb b | _ => false end) l))
    (generations db) (generations (recover_servers held db l).1).
Proof.
  induction l as [|s l IH]; intros db Hh; simpl.
  - split; [done|]. apply Forall_Forall2_diag, Forall_forall. intros r _. split; [done|].
    rewrite bool_decide_eq_false_2 by apply not_elem_of_nil. by rewrite andb_false_r.
  - destruct (Hh s) as [b Hb]; [by left|]. rewrite Hb.
    assert (Hl : forall s, s ∈ l -> exists b, held s = Ok b) by (intros; apply Hh; by right).
    destruct b; simpl; [by apply IH|].
    destruct (recover_server_rows db s) as [Hrow Hact].
    destruct (IH (recover_server db s) Hl) as [H2 Hrest]. split; [done|].
    eapply Forall2_compose; [|exact Hrow|exact Hrest].
    intros r r' r'' [Hk Hs] [Hk' Hs']. split; [congruence|].
    assert (Hsv : g_server r' = g_server r) by (injection Hk; auto).
    rewrite Hact, Hsv in Hs'. rewrite Hs'. clear Hs'. revert Hs.
    assert (Hin : g_server r ∈ [s] <-> g_server r = s) by apply list_elem_of_singleton.
    destruct (is_state Staging r) eqn:Est; simpl.
    + destruct (bool_decide_reflect (g_server r ∈ [s])) as [E|E]; simpl; intros Hs.
      * rewrite (bool_decide_eq_true_2 (_ ∈ s :: _)) by (apply elem_of_cons; tauto).
        unfold is_state. rewrite Hs. by destruct (active_exists db (g_server r)).
      * unfold is_state. rewrite Hs. apply is_state_iff in Est. rewrite Est. simpl.
        erewrite bool_decide_ext; [done|]. rewrite elem_of_cons. tauto.
    + intros Hs. unfold is_state. rewrite Hs. unfold is_state in Est. by rewrite Est.
Qed.

(** Restart recovery. Opening a database of this schema whose tables are
    consistent succeeds, and every generation keeps its key and its state but the
    interrupted ones: a staging generation whose build no process owns becomes
    superseded where the server still has an active index and failed where it has
    none; those of live builds stay staging. *)
Theorem open_recovers_interrupted (held : string -> result bool string) (t : string) (db : IndexDb)
    (Hv : index_meta db !! "schema_version" = Some "4")
    (Hc : entries db = [] <-> entries_fts db = [])
    (Hh : forall s, exists b, held s = Ok b) :
  let '(db', r) := open_once held t db in
  r = Ok tt /\
  Forall2 (fun before after =>
      g_key after = g_key before /\
      (g_state before <> Staging -> g_state after = g_state before) /\
      (g_state before = Staging -> held (g_server before) = Ok true -> g_state after = Staging) /\
      (g_state before = Staging -> held (g_server before) = Ok false ->
       g_state after = if active_exists db (g_server before) then Superseded else Failed))
    (generations db) (generations db').
Proof.
  assert (Hm : migrate db t = Ok db) by (unfold migrate; by rewrite Hv).
  unfold open_once. rewrite Hm. cbv zeta. set (db1 := set_meta db _).
  change (entries db1) with (entries db). change (entries_fts db1) with (entries_fts db).
  change (staging_servers db1) with (staging_servers db).
  destruct (recover_servers_rows held (staging_servers db) db1 ltac:(intros; apply Hh)) as [Hok Hall].
  assert (Hbranch : (if bool_decide (entries db = []) then
      if bool_decide (entries_fts db = []) then recover_servers held db1 (staging_servers db)
      else (db1, Err "namespace index relational and full-text data are inconsistent")
    else if bool_decide (entries_fts db = [])
      then (db1, Err "namespace index relational and full-text data are inconsistent")
      else recover_servers held db1 (staging_servers db))
    = recover_servers held db1 (staging_servers db)).
  { destruct (bool_decide_reflect (entries db = [])), (bool_decide_reflect (entries_fts db = []));
      tauto. }
  rewrite Hbranch. destruct (recover_servers _ _ _) as [db' r]. simpl in *. split; [done|].
  eapply Forall2_impl_In; [|exact Hall]. intros b a Hb [Hk Hs]. split; [done|].
  assert (Hin : g_state b = Staging -> g_server b ∈ staging_servers db).
  { intros E. unfold staging_servers. apply elem_of_remove_dups, list_elem_of_In, in_map, filter_In.
    by rewrite is_state_iff. }
  repeat split.
  - intros E. rewrite Hs. destruct (is_state Staging b) eqn:Eb; [|done].
    by apply is_state_iff in Eb.
  - intros E Hheld. rewrite Hs, bool_decide_eq_false_2; [by rewrite andb_false_r|].
    rewrite list_elem_of_In, filter_In, Hheld. by intros [_ ?].
  - intros E Hheld. rewrite Hs, (proj2 (is_state_iff _ _) E), bool_decide_eq_true_2; [done|].
    apply list_elem_of_In, filter_In. rewrite Hheld, <- list_elem_of_In. auto.
Qed.

(** ** Retry state and migrations *)

Lemma append_inj p a b : String.append p a = String.append p b -> a = b.
Proof. induction p as [|c p IH]; simpl; [done|]. intros [= H1]. auto. Qed.

(** The retry state written for a server is the one read back, its deadline
    truncated to the millisecond, and no other server's state nor the schema
    version changes. *)
Theorem retry_state_roundtrip (db : IndexDb) (s : string) (retry : option Z) (n : Z) (open : bool)
    (Hretry : forall t, retry = Some t -> 0 <= t <= system_time_max) (Hn : in_uint 32 n) :
  let db' := set_retry_state db s retry n open in
  retry_state db' s = Ok ((fun t => t - t mod nanos_per_milli) <$> retry, n, open) /\
  (forall s', s' <> s -> retry_state db' s' = retry_state db s') /\
  index_meta db' !! "schema_version" = index_meta db !! "schema_version".
Proof.
  cbn zeta. split; [|split].
  - unfold retry_state, set_retry_state. simpl.
    rewrite lookup_insert_ne, lookup_insert_ne, lookup_insert_eq by done.
    rewrite lookup_insert_ne, lookup_insert_eq by done. rewrite lookup_insert_eq. simpl.
    rewrite parse_uint_to_decimal by exact Hn. simpl.
    assert (Ho : bool_decide ((if open then "1" else "0") = "1") = open) by by destruct open.
    rewrite Ho. destruct retry as [t|]; simpl; [|done].
    specialize (Hretry t eq_refl). pose proof (timestamp_parse t Hretry) as Ht.
    unfold system_time_timestamp, duration_since in *.
    rewrite (proj2 (Z.leb_le 0 t)) in * by lia. simpl.
    rewrite bool_decide_eq_false_2 by apply to_decimal_nonempty.
    unfold parse_timestamp in Ht. destruct (parse_uint (umax 128) _) as [m|] eqn:Em; [|done].
    destruct (Z.leb_spec m u64_max); [|done].
    rewrite (parse_uint_smaller _ u64_max _ _ Em) by done. simpl. by rewrite Ht.
  - intros s' Hne. unfold retry_state, set_retry_state. simpl.
    assert (Hk : forall k, k = retry_after_key s' \/ k = failures_key s' \/ k = circuit_key s' ->
      circuit_key s <> k /\ failures_key s <> k /\ retry_after_key s <> k).
    { intros k Hk. unfold circuit_key, failures_key, retry_after_key in *.
      repeat split; intros <-; destruct Hk as [E|[E|E]]; try discriminate E;
        apply append_inj in E; congruence. }
    by rewrite !lookup_insert_ne by (apply Hk; auto).
  - simpl. by rewrite !lookup_insert_ne.
Qed.

Lemma migrate_server_enrolled t l s : forall db,
  enrolled_servers (fold_left (migrate_server t) l db) !! s =
  match enrolled_servers db !! s with
  | Some row => Some row
  | None =>
      if bool_decide (s ∈ l)
      then Some {| auto_refresh_enabled := active_exists db s; enrolled_at := t; updated_at := t |}
      else None
  end.
Proof.
  induction l as [|s' l IH]; intros db; simpl.
  - by destruct (_ !! s).
  - rewrite IH.
    assert (Ha : active_exists (migrate_server t db s') s = active_exists db s)
      by (unfold migrate_server; by destruct (_ !! s')).
    rewrite Ha. unfold migrate_server. destruct (decide (s = s')) as [<-|Hne].
    + rewrite (bool_decide_eq_true_2 (s ∈ s :: l)) by left.
      destruct (enrolled_servers db !! s) eqn:E; simpl; [by rewrite E|by rewrite lookup_insert_eq].
    + assert (He : enrolled_servers (match enrolled_servers db !! s' with
        | Some _ => db
        | None => set_enrolled db (<[s' := {| auto_refresh_enabled := active_exists db s';
            enrolled_at := t; updated_at := t |}]> (enrolled_servers db)) end) !! s
        = enrolled_servers db !! s).
      { destruct (enrolled_servers db !! s'); simpl; [done|]. by rewrite lookup_insert_ne. }
      rewrite He. destruct (enrolled_servers db !! s); [done|].
      erewrite bool_decide_ext; [done|]. rewrite elem_of_cons. tauto.
Qed.

(** Migrating a database of schema 2 or 3 enrolls exactly the servers that have
    generations, with automatic refresh on where a generation is active, keeps an
    enrollment that exists, stamps the new version and changes no index. *)
Theorem migration_enrolls (db db' : IndexDb) (t version : string)
    (Hv : index_meta db !! "schema_version" = Some version)
    (Hold : version = "2" \/ version = "3") (Hm : migrate db t = Ok db') :
  index_meta db' !! "schema_version" = Some "4" /\
  (forall s, enrollment db' s =
     match enrollment db s with
     | Some auto => Some auto
     | None =>
         if existsb (of_server s) (generations db) then Some (active_exists db s) else None
     end) /\
  (forall s, active_view db' s = active_view db s) /\
  map g_key (generations db') = map g_key (generations db) /\
  map g_state (generations db') = map g_state (generations db).
Proof.
  pose proof (fun s => active_view_migrate db t db' s Hm) as Hview.
  assert (H34 : forall d, (forall s, active_exists d s = active_exists db s) ->
    map g_key (generations d) = map g_key (generations db) ->
    map g_state (generations d) = map g_state (generations db) ->
    enrolled_servers d = enrolled_servers db -> db' = migrate_schema_3_to_4 d t ->
    index_meta db' !! "schema_version" = Some "4" /\
    (forall s, enrollment db' s =
       match enrollment db s with
       | Some auto => Some auto
       | None =>
           if existsb (of_server s) (generations db) then Some (active_exists db s) else None
       end) /\
    map g_key (generations db') = map g_key (generations db) /\
    map g_state (generations db') = map g_state (generations db)).
  { intros d Ha Hk Hst He ->. unfold migrate_schema_3_to_4. split; [by simpl; rewrite lookup_insert_eq|].
    set (l := merge_sort name_le (remove_dups (map g_server (generations d)))).
    destruct (migrate_server_tables t l d) as (Hg & _ & _). simpl. rewrite Hg.
    split; [|done]. intros s. unfold enrollment. simpl.
    rewrite migrate_server_enrolled, He, Ha.
    destruct (enrolled_servers db !! s); simpl; [done|].
    assert (Hin : bool_decide (s ∈ l) = existsb (of_server s) (generations db)).
    { apply eq_iff_eq_true. rewrite bool_decide_eq_true, existsb_exists. unfold l.
      rewrite (merge_sort_Permutation name_le), elem_of_remove_dups, list_elem_of_In.
      assert (Hsv : map g_server (generations d) = map g_server (generations db)).
      { change g_server with (fun r => (g_key r).1). rewrite <- !(map_map g_key fst). by rewrite Hk. }
      rewrite Hsv, in_map_iff. setoid_rewrite of_server_iff. split; intros (r & ? & ?); eauto. }
    rewrite Hin. by destruct (existsb _ _). }
  revert Hm. unfold migrate. rewrite Hv. unfold result_bind.
  destruct Hold as [-> | ->]; cbn; intros [= E]; symmetry in E.
  - destruct (H34 (migrate_schema_2_to_3 db)) as (? & ? & ? & ?); auto; try done.
    + intros s. unfold active_exists, migrate_schema_2_to_3. simpl.
      generalize (generations db) as l. clear. induction l as [|r l IH]; simpl; [done|].
      f_equal. exact IH.
    + simpl. by rewrite map_map.
    + simpl. by rewrite map_map.
  - destruct (H34 db) as (? & ? & ? & ?); auto.
Qed.

End Operations.

(** ** Witnesses *)

Lemma demo_reachable : reachable (H := ascii_text) demo_db.
Proof.
  unfold demo_db, demo_build, demo_first, demo_promote.
  apply reachable_insert, reachable_start, reachable_promote, reachable_insert, reachable_start,
    reachable_promote, reachable_insert, reachable_start, reachable_empty.
Qed.

Lemma reachable_consistent_witness : NoDup (map g_key (generations demo_db)).
Proof. apply (reachable_consistent (H := ascii_text) demo_db demo_reachable). Defined.

Lemma active_index_isolated_witness :
  let op := OpInsertEntries "plc" 3 [demo_entry [67] [68]] in
  active_view (db_exec (H := ascii_text) demo_db op) "plc" = active_view demo_db "plc".
Proof.
  apply (active_index_isolated (H := ascii_text) demo_db
    (OpInsertEntries "plc" 3 [demo_entry [67] [68]]) "plc" demo_reachable).
  intros (_ & r & Hr & Hk & Ha). vm_compute in Hr.
  destruct Hr as [<-|[<-|[<-|[]]]]; discriminate.
Defined.

Lemma promotion_atomic_witness :
  let db' := (promote_with_profile demo_db "plc" 3 "5000" 1 None (Some "partial")).1 in
  promote_with_profile demo_db "plc" 3 "5000" 1 None (Some "partial") = (db', Ok tt) /\
  exists view, active_view db' "plc" = [view] /\ ai_generation view = 3.
Proof.
  split; [vm_compute; reflexivity|].
  pose proof (promotion_atomic (H := ascii_text) demo_db "plc" 3 "5000" 1 None (Some "partial")
    demo_reachable ltac:(vm_compute; split; discriminate) ltac:(vm_compute; split; discriminate))
    as Hp.
  destruct (promote_with_profile demo_db "plc" 3 "5000" 1 None (Some "partial")) as [db' [u|e]] eqn:E.
  - destruct Hp as (_ & (view & H1 & H2 & _) & _). exists view. split; [exact H1 | exact H2].
  - exfalso. revert E. vm_compute. discriminate.
Defined.

Definition demo_opened : IndexDb :=
  set_meta demo_db {["schema_version" := "4"]}.

Definition demo_schema_3 : IndexDb :=
  set_enrolled (set_meta demo_db {["schema_version" := "3"]}) ∅.

