(* ===== verification/Query.v ===== *)
(** * Searching an index (index/query.rs)

    The ranking of matches, the exact, prefix, full-text and substring searches of
    one generation, and the cache of search results. SQLite's full-text [MATCH] is
    a parameter; [LIKE], [length] and the comparison of texts are written out. *)
From S2P Require Import Prelude Text TopK Schedule Opc Store StoreWf.

Record IndexedMatch := {
  m_item_id : ustr;
  m_display_name : ustr;
  m_kind : InventoryNodeKind;
  m_breadcrumbs : list ustr
}.

(** [TryFrom<i32> for SearchMode] *)
Inductive SearchMode := ModeUnspecified | ModeExact | ModePrefix | ModeContains.
Definition search_mode (value : Z) : option SearchMode :=
  if value =? 0 then Some ModeUnspecified
  else if value =? 1 then Some ModeExact
  else if value =? 2 then Some ModePrefix
  else if value =? 3 then Some ModeContains
  else None.

(** ** Ranking *)

Record SearchRank := {
  tier : Z;
  display_name_len : Z;
  rank_display_name_norm : ustr;
  rank_item_id_norm : ustr
}.
Record SearchCandidate := {
  rank : SearchRank;
  candidate_item_id : ustr
}.

(** The derived [Ord]: the fields in order. *)
Definition rank_compare (a b : SearchRank) : comparison :=
  then_compare (tier a ?= tier b)
    (then_compare (display_name_len a ?= display_name_len b)
       (then_compare (text_compare (rank_display_name_norm a) (rank_display_name_norm b))
          (text_compare (rank_item_id_norm a) (rank_item_id_norm b)))).
Definition candidate_compare (a b : SearchCandidate) : comparison :=
  then_compare (rank_compare (rank a) (rank b))
    (text_compare (candidate_item_id a) (candidate_item_id b)).

Definition search_rank (query display_name_norm item_id_norm : ustr) : Z :=
  if bool_decide (display_name_norm = query) then 0
  else if bool_decide (item_id_norm = query) then 1
  else if starts_with display_name_norm query then 2
  else if starts_with item_id_norm query then 3
  else if contains display_name_norm query then 4
  else if contains item_id_norm query then 5
  else 6.

Definition new_candidate (query display_name_norm item_id_norm item_id : ustr) : SearchCandidate :=
  {| rank :=
       {| tier := search_rank query display_name_norm item_id_norm;
          display_name_len := Z.of_nat (length display_name_norm);
          rank_display_name_norm := display_name_norm;
          rank_item_id_norm := item_id_norm |};
     candidate_item_id := item_id |}.

(** ** Prefix ranges *)

Definition next_char (value : Z) : option Z :=
  if value =? 1114111 then None
  else if value =? 55295 then Some 57344
  else Some (value + 1).

(** The last character that has a successor is replaced by it; the rest is cut. *)
Fixpoint prefix_upper_bound (prefix : ustr) : option ustr :=
  match prefix with
  | [] => None
  | c :: rest =>
      match prefix_upper_bound rest with
      | Some bound => Some (c :: bound)
      | None => (fun next => [next]) <$> next_char c
      end
  end.

(** ** SQLite functions on texts *)

(** [length(text)]: the characters before the first NUL. *)
Fixpoint sqlite_length (s : ustr) : Z :=
  match s with
  | [] => 0
  | c :: rest => if c =? 0 then 0 else 1 + sqlite_length rest
  end.
(** [substr(text, 1, n)] *)
Definition sqlite_substr (s : ustr) (n : Z) : ustr := take (Z.to_nat n) s.

(** [LIKE pattern ESCAPE '\'], case-insensitive for ASCII letters. *)
Definition fold_case (c : Z) : Z := if (65 <=? c) && (c <=? 90) then c + 32 else c.
Fixpoint like (pattern s : ustr) {struct pattern} : bool :=
  match pattern with
  | [] => bool_decide (s = [])
  | p :: rest =>
      if p =? 37 then
        (fix any (s : ustr) : bool :=
           like rest s || match s with [] => false | _ :: s' => any s' end) s
      else if p =? 92 then
        match rest, s with
        | q :: rest', c :: s' => (fold_case q =? fold_case c) && like rest' s'
        | _, _ => false
        end
      else
        match s with
        | [] => false
        | c :: s' => ((p =? 95) || (fold_case p =? fold_case c)) && like rest s'
        end
  end.

Definition replace_char (c : Z) (by_ s : ustr) : ustr :=
  concat (map (fun d => if d =? c then by_ else [d]) s).
Definition escape_like (value : ustr) : ustr :=
  replace_char 95 [92; 95] (replace_char 37 [92; 37] (replace_char 92 [92; 92] value)).

Definition build_fts_query (query : ustr) : ustr :=
  join [32; 65; 78; 68; 32]
    (map (fun term => [34] ++ replace_char 34 [34; 34] term ++ [34]) (split_whitespace query)).

(** ** Rows to matches *)

Definition parse_indexed_kind (value : Z) : result InventoryNodeKind string :=
  if value =? 1 then Ok InventoryItem
  else if value =? 2 then Ok InventoryBranchAndItem
  else Err "unknown indexed node kind".

Section Search.
Context `{TextLibrary}.

Definition parse_indexed_breadcrumbs (value : ustr) : result (list ustr) string :=
  ok_or (breadcrumbs_from_json value) "invalid breadcrumbs".

Definition row_match (row : EntryRow) : result IndexedMatch string :=
  let? kind := parse_indexed_kind (e_kind row) in
  let? breadcrumbs := parse_indexed_breadcrumbs (e_breadcrumbs row) in
  Ok {| m_item_id := e_item_id row; m_display_name := e_display_name row; m_kind := kind;
        m_breadcrumbs := breadcrumbs |}.

Definition row_candidate (query : ustr) (row : EntryRow) : SearchCandidate :=
  new_candidate query (e_display_name_norm row) (e_item_id_norm row) (e_item_id row).

(** The [row_mapper] closures. *)
Definition map_row (query : ustr) (row : EntryRow) :
    result (SearchCandidate * IndexedMatch) string :=
  let? value := row_match row in
  Ok (row_candidate query row, value).

(** [SELECT .. WHERE .. ORDER BY key LIMIT n] of one generation. *)
Definition select {K : Type} (db : IndexDb) (server : string) (generation : Z)
    (where_ : EntryRow -> bool) (key : EntryRow -> K) (compare : K -> K -> comparison)
    (limit : Z) : list EntryRow :=
  take (Z.to_nat limit)
    (sort_by key compare
       (List.filter (fun r => entry_of server generation r && where_ r) (entries db))).

(** [candidates.entry(item_id).or_insert(..)] on the map by ItemID. *)
Definition or_insert (candidates : list (SearchCandidate * IndexedMatch))
    (c : SearchCandidate * IndexedMatch) : list (SearchCandidate * IndexedMatch) :=
  if existsb (fun x => bool_decide (m_item_id x.2 = m_item_id c.2)) candidates
  then candidates else candidates ++ [c].

(** Sort by rank, keep [limit + 1]. *)
Definition finish_candidates (limit : Z) (candidates : list (SearchCandidate * IndexedMatch)) :
    list IndexedMatch :=
  map snd (take (Z.to_nat (saturating_add 32 limit 1)) (sort_by fst candidate_compare candidates)).

(** *** Exact *)

(** [ORDER BY e.item_id_norm, e.item_id] *)
Definition display_key (r : EntryRow) : ustr * ustr := (e_item_id_norm r, e_item_id r).
Definition display_compare := pair_compare text_compare text_compare.
(** [ORDER BY length(e.display_name_norm), e.display_name_norm, e.item_id_norm, e.item_id] *)
Definition item_key (r : EntryRow) : Z * (ustr * (ustr * ustr)) :=
  (sqlite_length (e_display_name_norm r), (e_display_name_norm r, display_key r)).
Definition item_compare := pair_compare Z.compare (pair_compare text_compare display_compare).

Definition search_exact (db : IndexDb) (server : string) (generation : Z)
    (normalized_query : ustr) (limit : Z) : result (list IndexedMatch) string :=
  let? generation :=
    i64_try_from generation "namespace index generation exceeds SQLite range" in
  let candidate_limit := saturating_add 32 limit 1 in
  let? first :=
    collect (map (map_row normalized_query)
      (select db server generation
         (fun r => bool_decide (e_display_name_norm r = normalized_query))
         display_key display_compare candidate_limit)) in
  let candidates := fold_left or_insert first [] in
  if candidate_limit <=? Z.of_nat (length candidates) then Ok (finish_candidates limit candidates)
  else
    let? second :=
      collect (map (map_row normalized_query)
        (select db server generation
           (fun r => bool_decide (e_item_id_norm r = normalized_query)
                     && negb (bool_decide (e_display_name_norm r = normalized_query)))
           item_key item_compare candidate_limit)) in
    Ok (finish_candidates limit (fold_left or_insert second candidates)).

(** *** Prefix *)

(** The condition that a column starts with the query: a range of the index where the
    prefix has an upper bound, [substr] otherwise. *)
Definition prefix_condition (upper_bound : option ustr) (query column : ustr) : bool :=
  match upper_bound with
  | Some bound => text_le query column && text_lt column bound
  | None => bool_decide (sqlite_substr column (sqlite_length query) = query)
  end.
Definition prefix_range (upper_bound : option ustr) (query column : ustr) : bool :=
  match upper_bound with
  | Some bound => text_le query column && text_lt column bound
  | None => text_le query column
            && bool_decide (sqlite_substr column (sqlite_length query) = query)
  end.

Definition prefix_tier (upper_bound : option ustr) (query : ustr) (r : EntryRow) : Z :=
  if bool_decide (e_display_name_norm r = query) then 0
  else if bool_decide (e_item_id_norm r = query) then 1
  else if prefix_condition upper_bound query (e_display_name_norm r) then 2
  else if prefix_condition upper_bound query (e_item_id_norm r) then 3
  else 6.

(** [ORDER BY CASE .. END, length(..), ..] *)
Definition prefix_key (upper_bound : option ustr) (query : ustr) (r : EntryRow) :=
  (prefix_tier upper_bound query r, item_key r).
Definition prefix_compare := pair_compare Z.compare item_compare.

Definition search_prefix (db : IndexDb) (server : string) (generation : Z)
    (normalized_query : ustr) (limit : Z) : result (list IndexedMatch) string :=
  let? generation :=
    i64_try_from generation "namespace index generation exceeds SQLite range" in
  let candidate_limit := saturating_add 32 limit 1 in
  let upper_bound := prefix_upper_bound normalized_query in
  let rows := fun column =>
    collect (map (map_row normalized_query)
      (select db server generation
         (fun r => prefix_range upper_bound normalized_query (column r))
         (prefix_key upper_bound normalized_query) prefix_compare candidate_limit)) in
  let? first := rows e_display_name_norm in
  let? second := rows e_item_id_norm in
  Ok (finish_candidates limit (fold_left or_insert second (fold_left or_insert first []))).

(** *** Full text *)

(** [fts_matches] is [entries_fts MATCH query]. *)
Definition search_full_text (fts_matches : ustr -> FtsRow -> bool) (db : IndexDb)
    (server : string) (generation : Z) (normalized_query : ustr) (limit : Z) :
    result (list IndexedMatch) string :=
  let? generation :=
    i64_try_from generation "namespace index generation exceeds SQLite range" in
  let fts_query := build_fts_query normalized_query in
  let rows :=
    List.filter (fun f => fts_matches fts_query f && fts_of server generation f)
      (entries_fts db) in
  let capacity := Z.to_nat (saturating_add 32 limit 1) in
  let candidates :=
    fold_left (heap_offer (fun c => c) candidate_compare capacity)
      (map (fun f => new_candidate normalized_query (normalize_query (f_display_name f))
                       (normalize_query (f_item_id f)) (f_item_id f)) rows) [] in
  let lookups :=
    map (fun c =>
           match List.find (fun e => entry_of server generation e
                                     && bool_decide (e_item_id e = candidate_item_id c))
                   (entries db) with
           | None => Ok None
           | Some row => result_map Some (row_match row)
           end)
      (into_sorted_vec (fun c => c) candidate_compare candidates) in
  result_map (omap (fun m => m)) (collect lookups).

(** *** Substring *)

Definition like_tier (query : ustr) (r : EntryRow) : Z :=
  let starts := escape_like query ++ [37] in
  let inside := [37] ++ escape_like query ++ [37] in
  if bool_decide (e_display_name_norm r = query) then 0
  else if bool_decide (e_item_id_norm r = query) then 1
  else if like starts (e_display_name_norm r) then 2
  else if like starts (e_item_id_norm r) then 3
  else if like inside (e_display_name_norm r) then 4
  else if like inside (e_item_id_norm r) then 5
  else 6.
Definition like_key (query : ustr) (r : EntryRow) : Z * (Z * (ustr * ustr)) :=
  (like_tier query r,
   (sqlite_length (e_display_name_norm r), (e_display_name_norm r, e_item_id_norm r))).
Definition like_compare :=
  pair_compare Z.compare (pair_compare Z.compare (pair_compare text_compare text_compare)).

Definition search_like (db : IndexDb) (server : string) (generation : Z)
    (normalized_query : ustr) (limit : Z) : result (list IndexedMatch) string :=
  let pattern := [37] ++ escape_like normalized_query ++ [37] in
  collect (map row_match
    (select db server generation
       (fun r => like pattern (e_display_name_norm r) || like pattern (e_item_id_norm r)
                 || like pattern (e_breadcrumbs r))
       (like_key normalized_query) like_compare (saturating_add 32 limit 1))).

(** *** Dispatch *)

Definition search (fts_matches : ustr -> FtsRow -> bool) (db : IndexDb) (server : string)
    (generation : Z) (query : ustr) (mode limit : Z) : result (list IndexedMatch) string :=
  let normalized_query := normalize_query query in
  if mode =? 1 then search_exact db server generation normalized_query limit
  else if mode =? 2 then search_prefix db server generation normalized_query limit
  else
    let fts_compatible :=
      forallb (fun term : ustr => 3 <=? Z.of_nat (length term))
        (split_whitespace normalized_query) in
    if (3 <=? Z.of_nat (length normalized_query)) && fts_compatible
    then search_full_text fts_matches db server generation normalized_query limit
    else search_like db server generation normalized_query limit.

End Search.
