(* ===== verification/QuerySpec.v ===== *)
(** * What the searches of an index return

    The index ranges of a prefix search select exactly the names with that prefix;
    the bounded, two-query exact and prefix searches and the heap of the full-text
    search return the same matches as sorting every matching entry by rank; a
    [LIKE] pattern built from a query matches the query literally. *)
From S2P Require Import Prelude Text TopK Schedule Opc Store StoreWf StoreSpec Query.

(** ** Prefix ranges *)

Lemma next_char_spec c : scalar_value c ->
  match next_char c with
  | Some d => scalar_value d /\ c < d /\ forall x, scalar_value x -> c < x -> d <= x
  | None => c = 1114111
  end.
Proof.
  unfold scalar_value, next_char. intros Hc. destruct (Z.eqb_spec c 1114111); [done|].
  destruct (Z.eqb_spec c 55295); (split; [lia|split; [lia|intros; lia]]).
Qed.

Lemma text_le_cons c d s t :
  text_le (c :: s) (d :: t) = (c <? d) || ((c =? d) && text_le s t).
Proof.
  unfold text_le. simpl. destruct (Z.compare_spec c d).
  - subst. by rewrite Z.ltb_irrefl, Z.eqb_refl.
  - by rewrite (proj2 (Z.ltb_lt c d)).
  - rewrite (proj2 (Z.ltb_ge c d)) by lia. by rewrite (proj2 (Z.eqb_neq c d)) by lia.
Qed.

Lemma text_lt_cons c d s t :
  text_lt (c :: s) (d :: t) = (c <? d) || ((c =? d) && text_lt s t).
Proof.
  unfold text_lt. simpl. destruct (Z.compare_spec c d).
  - subst. by rewrite Z.ltb_irrefl, Z.eqb_refl.
  - by rewrite (proj2 (Z.ltb_lt c d)).
  - rewrite (proj2 (Z.ltb_ge c d)) by lia. by rewrite (proj2 (Z.eqb_neq c d)) by lia.
Qed.

Lemma text_lt_nil s : text_lt s [] = false.
Proof. by destruct s. Qed.

Lemma upper_bound_spec p : valid_text p ->
  match prefix_upper_bound p with
  | Some bound => valid_text bound /\
      forall s, valid_text s -> starts_with s p = text_le p s && text_lt s bound
  | None => Forall (eq 1114111) p /\
      forall s, valid_text s -> starts_with s p = text_le p s
  end.
Proof.
  induction p as [|c p IH]; simpl; intros Hp.
  - split; [constructor|]. by intros [|].
  - apply Forall_cons in Hp as [Hc Hp]. specialize (IH Hp).
    pose proof (next_char_spec c Hc) as Hn.
    destruct (prefix_upper_bound p) as [b|].
    + destruct IH as [Hb IH]. split; [by constructor|]. intros [|d s] Hs; [done|].
      apply Forall_cons in Hs as [Hd Hs]. rewrite text_le_cons, text_lt_cons. simpl.
      rewrite (IH s Hs).
      destruct (Z.eqb_spec d c), (Z.eqb_spec c d), (Z.ltb_spec c d), (Z.ltb_spec d c);
        simpl; (done || lia).
    + destruct IH as [Hmax IH]. destruct (next_char c) as [d|]; simpl.
      * destruct Hn as (Hd & Hcd & Hleast). split; [by apply Forall_singleton|].
        intros [|x s] Hs; [done|]. apply Forall_cons in Hs as [Hx Hs].
        rewrite text_le_cons, text_lt_cons, text_lt_nil, andb_false_r, orb_false_r. simpl.
        rewrite (IH s Hs). specialize (Hleast x Hx).
        destruct (Z.eqb_spec x c), (Z.eqb_spec c x), (Z.ltb_spec c x), (Z.ltb_spec x d);
          simpl; try lia; try done. by rewrite andb_true_r.
      * subst c. split; [by constructor|]. intros [|x s] Hs; [done|].
        apply Forall_cons in Hs as [Hx Hs]. rewrite text_le_cons. cbn [starts_with]. rewrite (IH s Hs).
        unfold scalar_value in Hx.
        destruct (Z.eqb_spec x 1114111), (Z.eqb_spec 1114111 x), (Z.ltb_spec 1114111 x);
          cbn [andb orb]; (done || lia).
Qed.

Lemma sqlite_length_nonzero s : ~ In 0 s -> sqlite_length s = Z.of_nat (length s).
Proof.
  induction s as [|c s IH]; simpl; [done|]. intros Hn.
  destruct (Z.eqb_spec c 0); [tauto|]. rewrite IH by tauto. lia.
Qed.

Lemma starts_with_take s p : starts_with s p = bool_decide (take (length p) s = p).
Proof.
  apply eq_iff_eq_true. rewrite starts_with_spec, bool_decide_eq_true. split.
  - intros [t ->]. apply take_app_length.
  - intros <-. exists (drop (length p) s). symmetry. apply take_drop.
Qed.

Lemma prefix_condition_spec p s : valid_text p -> valid_text s ->
  prefix_range (prefix_upper_bound p) p s = starts_with s p /\
  prefix_condition (prefix_upper_bound p) p s = starts_with s p.
Proof.
  intros Hp Hs. pose proof (upper_bound_spec p Hp) as Hb. unfold prefix_range, prefix_condition.
  destruct (prefix_upper_bound p) as [b|].
  - destruct Hb as [_ Hb]. by rewrite (Hb s Hs).
  - destruct Hb as [Hmax Hb]. unfold sqlite_substr.
    rewrite sqlite_length_nonzero, Nat2Z.id.
    + rewrite <- starts_with_take, <- (Hb s Hs). by destruct (starts_with s p).
    + intros H0. rewrite Forall_forall in Hmax. specialize (Hmax 0).
      rewrite list_elem_of_In in Hmax. by specialize (Hmax H0).
Qed.

(** The range scan of a prefix search is exact. For any query and name that are
    Unicode texts, the name lies in the index range from the query to its upper
    bound, in the byte order of the index, exactly when it starts with the query;
    a query without an upper bound is tested by [substr], which is as exact. *)
Theorem prefix_range_exact (p s : ustr) (Hp : valid_text p) (Hs : valid_text s) :
  prefix_range (prefix_upper_bound p) p s = starts_with s p /\
  (forall bound, prefix_upper_bound p = Some bound ->
     valid_text bound /\
     (starts_with s p = true <->
      text_compare (utf8 s) (utf8 p) <> Lt /\ text_compare (utf8 s) (utf8 bound) = Lt)).
Proof.
  split; [by apply prefix_condition_spec|]. intros bound Hbound.
  pose proof (upper_bound_spec p Hp) as Hb. rewrite Hbound in Hb. destruct Hb as [Hv Hb].
  split; [done|]. rewrite !utf8_compare by done. rewrite (Hb s Hs), andb_true_iff, text_le_lt.
  unfold text_lt. split.
  - intros [H1 H2]. by destruct (text_compare s p), (text_compare s bound).
  - intros [H1 H2]. rewrite H2. by destruct (text_compare s p).
Qed.

(** ** LIKE *)

Lemma like_percent rest s :
  like (37 :: rest) s = like rest s || match s with [] => false | _ :: s' => like (37 :: rest) s' end.
Proof. by destruct s. Qed.

Definition fold_text (s : ustr) : ustr := map fold_case s.

Lemma escape_like_cons c s :
  escape_like (c :: s) =
    (if (c =? 92) || (c =? 37) || (c =? 95) then [92; c] else [c]) ++ escape_like s.
Proof.
  unfold escape_like, replace_char. cbn [map concat].
  destruct (Z.eqb_spec c 92) as [->|]; [done|].
  destruct (Z.eqb_spec c 37) as [->|]; [done|]. simpl.
  rewrite (proj2 (Z.eqb_neq c 37)) by done. simpl.
  destruct (Z.eqb_spec c 95) as [->|]; done.
Qed.

(** A pattern that starts with an escaped query matches it literally, up to the case of
    ASCII letters, then goes on. *)
Lemma like_escape q rest : forall s,
  like (escape_like q ++ rest) s =
  starts_with (fold_text s) (fold_text q) && like rest (drop (length q) s).
Proof.
  induction q as [|c q IH]; intros s; [by destruct (fold_text s)|].
  rewrite escape_like_cons, <- app_assoc. cbn [length].
  destruct ((c =? 92) || (c =? 37) || (c =? 95)) eqn:E.
  - cbn [app like]. change (92 =? 37) with false. change (92 =? 92) with true. cbn match.
    destruct s as [|d s]; [done|]. rewrite IH. simpl. rewrite (Z.eqb_sym (fold_case c)).
    by rewrite andb_assoc.
  - rewrite !orb_false_iff in E. destruct E as [[E1 E2] E3]. cbn [app like]. rewrite E1, E2, E3.
    destruct s as [|d s]; [done|]. rewrite IH. simpl. rewrite (Z.eqb_sym (fold_case c)).
    by rewrite andb_assoc.
Qed.

Lemma like_any s : like [37] s = true.
Proof. induction s as [|c s IH]; [done|]. rewrite like_percent. by rewrite IH, orb_true_r. Qed.

(** The [LIKE] patterns are literal: whatever characters a query has, [%], [_]
    and [\] included, the substring pattern matches exactly the names that contain
    it and the prefix pattern those that start with it, up to ASCII case. *)
Theorem like_patterns_literal (q s : ustr) :
  like ([37] ++ escape_like q ++ [37]) s = contains (fold_text s) (fold_text q) /\
  like (escape_like q ++ [37]) s = starts_with (fold_text s) (fold_text q).
Proof.
  assert (Hp : forall s, like (escape_like q ++ [37]) s = starts_with (fold_text s) (fold_text q)).
  { intros t. by rewrite like_escape, like_any, andb_true_r. }
  split; [|apply Hp]. cbn [app]. induction s as [|c s IH].
  - rewrite like_percent, Hp. by destruct (fold_text q).
  - rewrite like_percent, Hp, IH. reflexivity.
Qed.

(** ** The reference search *)

#[export] Instance candidate_comparable : Comparable candidate_compare.
Proof.
  set (f := fun c : SearchCandidate =>
    (tier (rank c), (display_name_len (rank c), (rank_display_name_norm (rank c),
      (rank_item_id_norm (rank c), candidate_item_id c))))).
  apply (comparable_ext _ (via_compare f (pair_compare Z.compare (pair_compare Z.compare
    (pair_compare text_compare (pair_compare text_compare text_compare)))))).
  - intros a b. unfold candidate_compare, rank_compare, via_compare, pair_compare, f. cbn [fst snd].
    by rewrite !then_compare_assoc.
  - apply via_comparable; [apply _|].
    intros [[t l d i] c] [[t' l' d' i'] c'] [= -> -> -> -> ->]. done.
Qed.

#[export] Instance display_comparable : Comparable display_compare.
Proof. unfold display_compare. apply _. Qed.
#[export] Instance item_comparable : Comparable item_compare.
Proof. unfold item_compare. apply _. Qed.
#[export] Instance prefix_comparable : Comparable prefix_compare.
Proof. unfold prefix_compare. apply _. Qed.

Section Reference.
Context `{TextLibrary}.

(** Every matching entry of the generation, sorted by rank, one more than the limit. *)
Definition reference_search (db : IndexDb) (server : string) (generation : Z) (query : ustr)
    (matches : EntryRow -> bool) (limit : Z) : list EntryRow :=
  take (Z.to_nat (saturating_add 32 limit 1))
    (sort_by (row_candidate query) candidate_compare
       (List.filter (fun r => entry_of server generation r && matches r) (entries db))).

(** Texts are Unicode and names hold no NUL, where SQLite's [length] stops. *)
Definition clean_row (e : EntryRow) : Prop :=
  valid_text (e_display_name_norm e) /\ valid_text (e_item_id_norm e) /\
  0 ∉ e_display_name_norm e.
Definition clean_texts (db : IndexDb) : Prop := Forall clean_row (entries db).
#[export] Instance clean_texts_dec db : Decision (clean_texts db).
Proof. apply Forall_dec. intros e. unfold clean_row. apply _. Defined.

Lemma clean_entry db e : clean_texts db -> In e (entries db) ->
  valid_text (e_display_name_norm e) /\ valid_text (e_item_id_norm e) /\
  ~ In 0 (e_display_name_norm e).
Proof.
  intros Hc He. rewrite <- list_elem_of_In. apply list_elem_of_In in He.
  exact (proj1 (Forall_forall clean_row (entries db)) Hc e He).
Qed.

(** What a row shows as a match. *)
Definition entry_view (x : InventoryEntry) : IndexedMatch :=
  {| m_item_id := entry_item_id x; m_display_name := entry_display_name x;
     m_kind := entry_kind x; m_breadcrumbs := entry_breadcrumbs x |}.

Lemma row_match_entry s g x : row_match (entry_row s g x) = Ok (entry_view x).
Proof.
  unfold row_match, parse_indexed_breadcrumbs, entry_row. simpl.
  rewrite breadcrumbs_json_roundtrip. destruct x as [d i [] b]; done.
Qed.

Definition row_value (r : EntryRow) : IndexedMatch :=
  match row_match r with
  | Ok m => m
  | Err _ => {| m_item_id := e_item_id r; m_display_name := []; m_kind := InventoryItem;
                m_breadcrumbs := [] |}
  end.

Definition pair_row (query : ustr) (r : EntryRow) : SearchCandidate * IndexedMatch :=
  (row_candidate query r, row_value r).

Lemma row_value_written db r : rows_written db -> In r (entries db) ->
  row_match r = Ok (row_value r) /\ m_item_id (row_value r) = e_item_id r.
Proof.
  intros Hw Hr. destruct (Hw r Hr) as [x Hx]. unfold row_value.
  pose proof (row_match_entry (e_server r) (e_generation r) x) as Hm. rewrite <- Hx in Hm.
  rewrite Hm. split; [done|]. by rewrite Hx.
Qed.

Lemma collect_ok {A B E} (f : A -> result B E) (g : A -> B) l :
  (forall x, In x l -> f x = Ok (g x)) -> collect (map f l) = Ok (map g l).
Proof.
  induction l as [|x l IH]; simpl; [done|]. intros Hf. rewrite (Hf x) by by left.
  rewrite IH by (intros; apply Hf; by right). done.
Qed.

Lemma omap_map_some {A B} (f : A -> B) l :
  omap (fun m => m) (map (fun x => Some (f x)) l) = map f l.
Proof. induction l as [|x l IH]; [done|]. simpl. by rewrite <- IH. Qed.

Section OneGeneration.
Context (db : IndexDb) (server : string) (generation : Z).
Context (Hwf : wf db) (Hwritten : rows_written db).

Definition generation_rows : list EntryRow :=
  List.filter (entry_of server generation) (entries db).

Lemma generation_filter p :
  List.filter (fun r => entry_of server generation r && p r) (entries db)
    = List.filter p generation_rows.
Proof. unfold generation_rows. by rewrite filter_filter. Qed.

Lemma generation_rows_ids : NoDup (map e_item_id generation_rows).
Proof.
  apply (NoDup_map_weaken e_key).
  - by apply NoDup_map_filter, wf_entries.
  - intros x y [_ [Hx1 Hx2]%entry_of_iff]%filter_In [_ [Hy1 Hy2]%entry_of_iff]%filter_In He.
    unfold e_key. congruence.
Qed.

Lemma candidate_ids query l :
  NoDup (map e_item_id l) -> NoDup (map (row_candidate query) l).
Proof.
  intros Hnd. apply (NoDup_map_weaken e_item_id); [done|]. intros x y _ _ [= ? ? ? ? Hi]. done.
Qed.

Lemma taken_rows {K} (key : EntryRow -> K) c p k x :
  In x (take k (sort_by key c (List.filter p generation_rows))) ->
  In x generation_rows /\ p x = true.
Proof.
  intros Hx. apply filter_In. eapply Permutation_in; [apply (sort_by_perm key c)|].
  apply list_elem_of_In. apply list_elem_of_In, elem_of_take in Hx as (i & Hi & _).
  by eapply list_elem_of_lookup_2.
Qed.

Lemma in_generation_rows x : In x generation_rows -> In x (entries db).
Proof. by intros [Hx _]%filter_In. Qed.

(** Collecting the rows of a query. *)
Lemma map_rows query l : (forall x, In x l -> In x generation_rows) ->
  collect (map (map_row query) l) = Ok (map (pair_row query) l).
Proof.
  intros Hl. apply collect_ok. intros x Hx. unfold map_row, pair_row.
  destruct (row_value_written db x Hwritten) as [-> _]; [|done].
  by apply in_generation_rows, Hl.
Qed.

(** Merging the rows of a second query into those of a first. *)
Lemma or_insert_rows query l : forall acc,
  (forall x, In x l -> In x generation_rows) -> (forall x, In x acc -> In x generation_rows) ->
  NoDup (map e_item_id acc) ->
  exists part, fold_left or_insert (map (pair_row query) l) (map (pair_row query) acc)
      = map (pair_row query) part /\
    NoDup (map e_item_id part) /\ (forall x, In x part <-> In x acc \/ In x l).
Proof.
  induction l as [|r l IH]; intros acc Hl Hacc Hnd; simpl.
  - exists acc. split; [done|]. split; [done|]. tauto.
  - assert (Hr : In r generation_rows) by (apply Hl; by left).
    assert (Hl' : forall x, In x l -> In x generation_rows) by (intros; apply Hl; by right).
    assert (Hid : forall x, In x generation_rows -> m_item_id (pair_row query x).2 = e_item_id x).
    { intros x Hx. by apply (row_value_written db x Hwritten), in_generation_rows. }
    unfold or_insert at 2.
    destruct (existsb _ (map (pair_row query) acc)) eqn:E.
    + destruct (IH acc Hl' Hacc Hnd) as (part & -> & Hp & Hin). exists part.
      split; [done|]. split; [done|]. intros x. rewrite Hin.
      apply existsb_exists in E as (? & (y & <- & Hy)%in_map_iff & He).
      apply bool_decide_eq_true in He. rewrite !Hid in He by auto.
      rewrite (NoDup_map_inj _ _ _ _ generation_rows_ids (Hacc y Hy) Hr He) in Hy.
      split; [tauto|]. intros [?|[<-|?]]; tauto.
    + destruct (IH (acc ++ [r]) Hl') as (part & Hpart & Hp & Hin).
      * intros x [?|[<-|[]]]%in_app_iff; auto.
      * rewrite map_app. apply NoDup_app. split; [done|]. split; [|apply NoDup_singleton].
        intros i Hi Hi'. apply list_elem_of_singleton in Hi' as ->.
        apply list_elem_of_In, in_map_iff in Hi as (y & Hy & Hyin).
        rewrite <- not_true_iff_false in E. apply E, existsb_exists.
        exists (pair_row query y). split; [by apply in_map|].
        apply bool_decide_eq_true. rewrite !Hid by auto. done.
      * exists part. rewrite map_app in Hpart. split; [done|]. split; [done|].
        intros x. rewrite Hin, in_app_iff. simpl. tauto.
Qed.

Lemma finish_rows query limit part :
  NoDup (map e_item_id part) ->
  finish_candidates limit (map (pair_row query) part)
    = map row_value (take (Z.to_nat (saturating_add 32 limit 1))
        (sort_by (row_candidate query) candidate_compare part)).
Proof.
  intros Hnd. unfold finish_candidates.
  rewrite (sort_by_map (pair_row query) fst candidate_compare part);
    [|exact (candidate_ids query part Hnd)].
  rewrite firstn_map. by rewrite map_map.
Qed.

(** The second query of a bounded search adds what the first one left. *)
Lemma two_queries query p1 p2 limit :
  let k := Z.to_nat (saturating_add 32 limit 1) in
  let top := fun p => take k (sort_by (row_candidate query) candidate_compare
                                (List.filter p generation_rows)) in
  finish_candidates limit
    (fold_left or_insert (map (pair_row query) (top p2))
       (fold_left or_insert (map (pair_row query) (top p1)) []))
    = map row_value (top (fun r => p1 r || p2 r)).
Proof.
  cbn zeta. set (k := Z.to_nat _).
  set (first := take k (sort_by (row_candidate query) candidate_compare (List.filter p1 generation_rows))).
  set (second := take k (sort_by (row_candidate query) candidate_compare (List.filter p2 generation_rows))).
  destruct (or_insert_rows query first []) as (s1 & E1 & Hnd1 & Hin1).
  { by intros x [Hx _]%taken_rows. }
  { done. }
  { constructor. }
  change (map (pair_row query) []) with (@nil (SearchCandidate * IndexedMatch)) in E1.
  rewrite E1. destruct (or_insert_rows query second s1) as (s2 & E2 & Hnd2 & Hin2).
  { by intros x [Hx _]%taken_rows. }
  { intros x [[]|[Hx _]%taken_rows]%Hin1. done. }
  { done. }
  rewrite E2, finish_rows by done. f_equal. apply topk_cover.
  - apply _.
  - apply candidate_ids, generation_rows_ids.
  - by apply candidate_ids.
  - intros x. rewrite Hin2, Hin1. unfold first, second. simpl. tauto.
Qed.

(** An order that agrees with the ranks of the selected rows selects the same. *)
Lemma select_ranked {K} query p (key : EntryRow -> K) (c : K -> K -> comparison)
    `{Comparable K c} limit :
  (forall a b, In a generation_rows -> In b generation_rows -> p a = true -> p b = true ->
     c (key a) (key b) = candidate_compare (row_candidate query a) (row_candidate query b)) ->
  select db server generation p key c limit =
    take (Z.to_nat limit)
      (sort_by (row_candidate query) candidate_compare (List.filter p generation_rows)).
Proof.
  intros Ha. unfold select. rewrite generation_filter. f_equal. apply sort_by_agree; [done|apply _|..].
  - intros a b [Hx Hp]%filter_In [Hy Hq]%filter_In. by apply Ha.
  - apply candidate_ids. by apply NoDup_map_filter, generation_rows_ids.
Qed.

Lemma candidate_compare_fields query a b :
  candidate_compare (row_candidate query a) (row_candidate query b) =
  then_compare (search_rank query (e_display_name_norm a) (e_item_id_norm a)
                ?= search_rank query (e_display_name_norm b) (e_item_id_norm b))
    (then_compare (Z.of_nat (length (e_display_name_norm a))
                   ?= Z.of_nat (length (e_display_name_norm b)))
       (then_compare (text_compare (e_display_name_norm a) (e_display_name_norm b))
          (then_compare (text_compare (e_item_id_norm a) (e_item_id_norm b))
             (text_compare (e_item_id a) (e_item_id b))))).
Proof. unfold candidate_compare, rank_compare. simpl. by rewrite !then_compare_assoc. Qed.

Lemma item_compare_fields a b :
  ~ In 0 (e_display_name_norm a) -> ~ In 0 (e_display_name_norm b) ->
  item_compare (item_key a) (item_key b) =
  then_compare (Z.of_nat (length (e_display_name_norm a))
                ?= Z.of_nat (length (e_display_name_norm b)))
    (then_compare (text_compare (e_display_name_norm a) (e_display_name_norm b))
       (then_compare (text_compare (e_item_id_norm a) (e_item_id_norm b))
          (text_compare (e_item_id a) (e_item_id b)))).
Proof.
  intros Ha Hb. unfold item_compare, item_key, pair_compare. cbn [fst snd].
  by rewrite !sqlite_length_nonzero.
Qed.

Context (Hclean : clean_texts db).

Definition exact_matches (query : ustr) (r : EntryRow) : bool :=
  bool_decide (e_display_name_norm r = query) || bool_decide (e_item_id_norm r = query).
Definition prefix_matches (query : ustr) (r : EntryRow) : bool :=
  starts_with (e_display_name_norm r) query || starts_with (e_item_id_norm r) query.

Lemma reference_rows query p limit :
  reference_search db server generation query p limit =
    take (Z.to_nat (saturating_add 32 limit 1))
      (sort_by (row_candidate query) candidate_compare (List.filter p generation_rows)).
Proof. unfold reference_search. by rewrite generation_filter. Qed.

Lemma search_prefix_reference query limit :
  generation <= i64_max -> valid_text query ->
  search_prefix db server generation query limit
    = Ok (map row_value (reference_search db server generation query (prefix_matches query) limit)).
Proof.
  intros Hg Hq. unfold search_prefix, i64_try_from. rewrite (proj2 (Z.leb_le _ _)) by done.
  cbn [result_bind]. set (ub := prefix_upper_bound query).
  assert (Hcond : forall r, In r generation_rows ->
    prefix_range ub query (e_display_name_norm r) = starts_with (e_display_name_norm r) query /\
    prefix_range ub query (e_item_id_norm r) = starts_with (e_item_id_norm r) query /\
    prefix_condition ub query (e_display_name_norm r) = starts_with (e_display_name_norm r) query /\
    prefix_condition ub query (e_item_id_norm r) = starts_with (e_item_id_norm r) query).
  { intros r Hr. destruct (clean_entry db r Hclean (in_generation_rows r Hr)) as (H1 & H2 & _).
    pose proof (prefix_condition_spec query _ Hq H1). pose proof (prefix_condition_spec query _ Hq H2).
    unfold ub. tauto. }
  assert (Hsel : forall column : EntryRow -> ustr,
    (forall r, In r generation_rows ->
       prefix_range ub query (column r) = starts_with (column r) query) ->
    (forall r, starts_with (column r) query = true -> prefix_matches query r = true) ->
    select db server generation (fun r => prefix_range ub query (column r)) (prefix_key ub query)
      prefix_compare (saturating_add 32 limit 1) =
    take (Z.to_nat (saturating_add 32 limit 1)) (sort_by (row_candidate query) candidate_compare
      (List.filter (fun r => starts_with (column r) query) generation_rows))).
  { intros column Hr Hm. rewrite (select_ranked query).
    - do 2 f_equal. apply filter_ext_in. intros r Hin. by apply Hr.
    - apply _.
    - intros a b Ha Hb Hpa Hpb. rewrite Hr in Hpa, Hpb by done.
      rewrite candidate_compare_fields. unfold prefix_compare, prefix_key, pair_compare at 1.
      cbn [fst snd].
      destruct (clean_entry db a Hclean (in_generation_rows a Ha)) as (_ & _ & Hza).
      destruct (clean_entry db b Hclean (in_generation_rows b Hb)) as (_ & _ & Hzb).
      rewrite item_compare_fields by done.
      assert (Ht : forall r, In r generation_rows -> prefix_matches query r = true ->
        prefix_tier ub query r = search_rank query (e_display_name_norm r) (e_item_id_norm r)).
      { intros r Hin Hmr. destruct (Hcond r Hin) as (_ & _ & H3 & H4).
        unfold prefix_tier, search_rank. rewrite H3, H4. unfold prefix_matches in Hmr.
        destruct (bool_decide _); [done|]. destruct (bool_decide _); [done|].
        destruct (starts_with (e_display_name_norm r) query); [done|].
        by destruct (starts_with (e_item_id_norm r) query). }
      by rewrite !Ht by auto. }
  rewrite (Hsel e_display_name_norm), (Hsel e_item_id_norm).
  - rewrite !map_rows by (by intros x [Hx _]%taken_rows). cbn [result_bind].
    rewrite (two_queries query). rewrite reference_rows. done.
  - intros r Hr. by apply Hcond.
  - intros r Hr. unfold prefix_matches. by rewrite Hr, orb_true_r.
  - intros r Hr. by apply Hcond.
  - intros r Hr. unfold prefix_matches. by rewrite Hr.
Qed.

(** A full first page leaves no room for matches of a worse tier. *)
Lemma first_page_full query p1 p2 k :
  (forall a b, p1 a = true -> p1 b = false -> p2 b = true ->
     candidate_compare (row_candidate query a) (row_candidate query b) = Lt) ->
  (k <= length (take k (sort_by (row_candidate query) candidate_compare
                  (List.filter p1 generation_rows))))%nat ->
  take k (sort_by (row_candidate query) candidate_compare
            (List.filter (fun r => p1 r || p2 r) generation_rows))
    = take k (sort_by (row_candidate query) candidate_compare (List.filter p1 generation_rows)).
Proof.
  intros Hlt Hfull. symmetry. set (key := row_candidate query) in *.
  assert (Hnd : forall p, NoDup (map key (List.filter p generation_rows))).
  { intros p. apply candidate_ids, NoDup_map_filter, generation_rows_ids. }
  apply topk_part; [apply _|done..| |].
  - intros x [Hx Hp]%filter_In. apply filter_In. by rewrite Hp.
  - intros x Hx. pose proof (taken_rows _ _ _ _ _ Hx) as [Hxr Hp].
    apply filter_In. split; [done|]. destruct (p1 x) eqn:E; [done|exfalso]. simpl in Hp.
    set (first := List.filter p1 generation_rows) in *.
    assert (Hxf : NoDup (map key (x :: first))).
    { simpl. apply NoDup_cons. split; [|apply Hnd]. intros Hk.
      apply list_elem_of_In, in_map_iff in Hk as (y & Hy & [Hyr Hpy]%filter_In).
      rewrite (NoDup_map_inj key generation_rows y x) in Hpy; [congruence| |done..].
      apply candidate_ids, generation_rows_ids. }
    assert (Hin : In x (take k (sort_by key candidate_compare (x :: first)))).
    { eapply topk_mono; [apply _|apply Hnd|done| |exact Hx|by left].
      intros y [<-|[Hyr Hpy]%filter_In]; apply filter_In; rewrite orb_true_iff; auto. }
    rewrite sort_by_snoc in Hin; [|apply _|done|].
    + rewrite length_take in Hfull. rewrite take_app_le in Hin by lia.
      apply (taken_rows key candidate_compare p1 k x) in Hin as [_ Hin]. congruence.
    + intros y [_ Hpy]%filter_In. unfold le_key. by rewrite Hlt.
Qed.

(** The two parts of an exact search: by display name, then by ItemID alone. *)
Definition by_display (query : ustr) (r : EntryRow) : bool :=
  bool_decide (e_display_name_norm r = query).
Definition by_item (query : ustr) (r : EntryRow) : bool :=
  bool_decide (e_item_id_norm r = query) && negb (by_display query r).

Lemma exact_matches_parts query r :
  exact_matches query r = by_display query r || by_item query r.
Proof.
  unfold exact_matches, by_item, by_display.
  by destruct (bool_decide (e_display_name_norm r = query)),
    (bool_decide (e_item_id_norm r = query)).
Qed.

Lemma exact_rank query r :
  (by_display query r = true ->
     search_rank query (e_display_name_norm r) (e_item_id_norm r) = 0) /\
  (by_item query r = true ->
     search_rank query (e_display_name_norm r) (e_item_id_norm r) = 1).
Proof.
  unfold search_rank, by_item, by_display.
  destruct (bool_decide (e_display_name_norm r = query)),
    (bool_decide (e_item_id_norm r = query)); done.
Qed.

Lemma exact_pages query limit :
  select db server generation (by_display query) display_key display_compare limit =
    take (Z.to_nat limit) (sort_by (row_candidate query) candidate_compare
      (List.filter (by_display query) generation_rows)) /\
  select db server generation (by_item query) item_key item_compare limit =
    take (Z.to_nat limit) (sort_by (row_candidate query) candidate_compare
      (List.filter (by_item query) generation_rows)).
Proof.
  split; (apply select_ranked; [apply _|]); intros a b Ha Hb H1 H2;
    rewrite candidate_compare_fields.
  - rewrite !(proj1 (exact_rank _ _)), Z.compare_refl by done.
    unfold by_display in H1, H2. apply bool_decide_eq_true in H1, H2.
    by rewrite H1, H2, Z.compare_refl, text_compare_refl.
  - destruct (clean_entry db a Hclean (in_generation_rows a Ha)) as (_ & _ & Hza).
    destruct (clean_entry db b Hclean (in_generation_rows b Hb)) as (_ & _ & Hzb).
    by rewrite !(proj2 (exact_rank _ _)), Z.compare_refl, item_compare_fields.
Qed.

(** The early return of the exact search: its first query filled the page. *)
Lemma exact_full_page query limit part :
  let k := Z.to_nat (saturating_add 32 limit 1) in
  let first := take k (sort_by (row_candidate query) candidate_compare
                 (List.filter (by_display query) generation_rows)) in
  NoDup (map e_item_id part) -> (forall x, In x part <-> In x first) -> (k <= length part)%nat ->
  take k (sort_by (row_candidate query) candidate_compare part) =
  take k (sort_by (row_candidate query) candidate_compare
    (List.filter (fun r => by_display query r || by_item query r) generation_rows)).
Proof.
  intros k first Hnd Hin Hle.
  assert (Hrows : NoDup (map (row_candidate query)
      (List.filter (by_display query) generation_rows)))
    by apply candidate_ids, NoDup_map_filter, generation_rows_ids.
  assert (Hperm : Permutation part first).
  { apply NoDup_Permutation; [by apply (NoDup_fmap_1 e_item_id)| |].
    - apply (NoDup_fmap_1 e_item_id). unfold first. apply NoDup_take_map.
      rewrite sort_by_perm. apply NoDup_map_filter, generation_rows_ids.
    - intros x. by rewrite !list_elem_of_In. }
  rewrite first_page_full.
  - fold first. rewrite (sort_by_ext (row_candidate query) candidate_compare part first Hperm)
      by by apply candidate_ids.
    unfold first. rewrite sort_by_take; [by rewrite take_take, Nat.min_id|apply _|done].
  - intros a b H1 _ H2. rewrite candidate_compare_fields.
    by rewrite (proj1 (exact_rank query a)), (proj2 (exact_rank query b)).
  - fold first. rewrite <- (Permutation_length Hperm). unfold k in Hle. lia.
Qed.

Lemma search_exact_reference query limit :
  generation <= i64_max ->
  search_exact db server generation query limit
    = Ok (map row_value (reference_search db server generation query (exact_matches query) limit)).
Proof.
  intros Hg. unfold search_exact, i64_try_from. rewrite (proj2 (Z.leb_le _ _)) by done.
  cbn [result_bind]. rewrite reference_rows, (filter_ext _ _ (exact_matches_parts query)).
  change (fun r : EntryRow => bool_decide (e_display_name_norm r = query)) with (by_display query).
  change (fun r : EntryRow => bool_decide (e_item_id_norm r = query)
    && negb (bool_decide (e_display_name_norm r = query))) with (by_item query).
  rewrite (proj1 (exact_pages query _)), (proj2 (exact_pages query _)).
  rewrite !map_rows by (by intros x [Hx _]%taken_rows). cbn [result_bind].
  set (k := Z.to_nat (saturating_add 32 limit 1)).
  set (first := take k (sort_by _ _ (List.filter (by_display query) generation_rows))).
  destruct (or_insert_rows query first []) as (part & Epart & Hnd & Hin).
  { by intros x [Hx _]%taken_rows. }
  { done. }
  { constructor. }
  change (map (pair_row query) []) with (@nil (SearchCandidate * IndexedMatch)) in Epart.
  destruct (Z.leb_spec (saturating_add 32 limit 1)
    (Z.of_nat (length (fold_left or_insert (map (pair_row query) first) [])))) as [Hle|_].
  - rewrite Epart, length_map in Hle. rewrite Epart, finish_rows by done. do 2 f_equal.
    apply exact_full_page; [done| |lia]. intros x. rewrite Hin. simpl. tauto.
  - f_equal. exact (two_queries query (by_display query) (by_item query) limit).
Qed.

(** ** Full text *)

Context (fts_matches : ustr -> FtsRow -> bool).

(** The entries whose full-text row matches the query. *)
Definition fts_selected (query : ustr) (r : EntryRow) : bool :=
  existsb (fun f => fts_matches (build_fts_query query) f && fts_of server generation f
                    && bool_decide (f_item_id f = e_item_id r)) (entries_fts db).

Lemma Forall2_filter {A B} (R : A -> B -> Prop) (p : A -> bool) (q : B -> bool) l k :
  Forall2 R l k -> (forall x y, In x l -> In y k -> R x y -> p x = q y) ->
  Forall2 R (List.filter p l) (List.filter q k).
Proof.
  induction 1 as [|x y l k Hxy Hlk IH]; simpl; intros Hpq; [constructor|].
  assert (IH' : Forall2 R (List.filter p l) (List.filter q k)).
  { apply IH. intros x' y' ? ?. apply Hpq; by right. }
  rewrite (Hpq x y (or_introl eq_refl) (or_introl eq_refl) Hxy).
  destruct (q y); [by constructor|done].
Qed.

Lemma Forall2_map_eq {A B C} (f : A -> C) (g : B -> C) l k :
  map f l = map g k -> Forall2 (fun x y => f x = g y) l k.
Proof.
  revert k. induction l as [|x l IH]; intros [|y k]; simpl; [constructor|done|done|].
  intros [= ? ?]. constructor; auto.
Qed.

Lemma row_candidate_written query r : In r (entries db) ->
  row_candidate query r =
  new_candidate query (normalize_query (e_display_name r)) (normalize_query (e_item_id r))
    (e_item_id r).
Proof. intros Hr. destruct (Hwritten r Hr) as [x Hx]. by rewrite Hx. Qed.

Lemma fts_candidates query :
  fts_names db server generation = entry_names db server generation ->
  map (fun f => new_candidate query (normalize_query (f_display_name f))
                  (normalize_query (f_item_id f)) (f_item_id f))
    (List.filter (fun f => fts_matches (build_fts_query query) f && fts_of server generation f)
       (entries_fts db))
  = map (row_candidate query) (List.filter (fts_selected query) generation_rows).
Proof.
  intros Hsync. apply Forall2_map_eq in Hsync.
  fold generation_rows in Hsync.
  assert (Hids : map f_item_id (List.filter (fts_of server generation) (entries_fts db))
    = map e_item_id generation_rows).
  { clear - Hsync. induction Hsync as [|f e l k He Hlk IH]; simpl; [done|].
    injection He as -> _. by rewrite IH. }
  assert (Hf : Forall2 (fun f e => (f_item_id f, f_display_name f) = (e_item_id e, e_display_name e))
    (List.filter (fts_matches (build_fts_query query))
       (List.filter (fts_of server generation) (entries_fts db)))
    (List.filter (fts_selected query) generation_rows)).
  { apply Forall2_filter; [exact Hsync|]. intros f e Hf He [= Hi _].
    unfold fts_selected. apply eq_iff_eq_true. rewrite existsb_exists. split.
    - intros Hm. apply filter_In in Hf as [Hf1 Hf2]. exists f. split; [done|].
      by rewrite Hm, Hf2, bool_decide_eq_true_2.
    - intros (f' & Hf' & Hm). rewrite !andb_true_iff, bool_decide_eq_true in Hm.
      destruct Hm as [[Hm Hk] Hi'].
      rewrite (NoDup_map_inj f_item_id
        (List.filter (fts_of server generation) (entries_fts db)) f f'); [done|..].
      + rewrite Hids. apply generation_rows_ids.
      + done.
      + by apply filter_In.
      + congruence. }
  rewrite filter_filter in Hf.
  rewrite (filter_ext (fun f => fts_matches (build_fts_query query) f && fts_of server generation f)
    (fun f => fts_of server generation f && fts_matches (build_fts_query query) f))
    by (intros; apply andb_comm).
  revert Hf. generalize (List.filter (fun x => fts_of server generation x &&
    fts_matches (build_fts_query query) x) (entries_fts db)). intros l.
  assert (Hin : forall r, In r (List.filter (fts_selected query) generation_rows) ->
    In r (entries db)) by (intros r [Hr _]%filter_In; by apply in_generation_rows).
  revert Hin. generalize (List.filter (fts_selected query) generation_rows). intros k Hin Hlk.
  induction Hlk as [|f e l k [= Hi Hd] Hlk IH]; simpl; [done|].
  rewrite IH by (intros; apply Hin; by right).
  rewrite (row_candidate_written query e) by (apply Hin; by left). by rewrite Hi, Hd.
Qed.

(** Looking the candidates up again finds their rows. *)
Lemma fts_lookups query part : (forall r, In r part -> In r generation_rows) ->
  collect (map (fun c =>
      match List.find (fun e => entry_of server generation e
                                && bool_decide (e_item_id e = candidate_item_id c))
              (entries db) with
      | None => Ok None
      | Some row => result_map Some (row_match row)
      end) (map (row_candidate query) part)) = Ok (map (fun r => Some (row_value r)) part).
Proof.
  intros Hp. rewrite map_map. apply collect_ok. intros r Hr. specialize (Hp r Hr).
  destruct (List.find _ (entries db)) as [row|] eqn:E.
  - apply find_some in E as [Hin Hm]. rewrite andb_true_iff, bool_decide_eq_true in Hm.
    destruct Hm as [Hk Hi]. assert (row = r) as ->.
    { eapply NoDup_map_inj; [apply generation_rows_ids|by apply filter_In|done|exact Hi]. }
    by rewrite (proj1 (row_value_written db r Hwritten Hin)).
  - exfalso. apply filter_In in Hp as [Hin Hk]. pose proof (find_none _ _ E r Hin) as Hn.
    cbv beta in Hn. rewrite Hk, bool_decide_eq_true_2 in Hn by done. done.
Qed.

Lemma search_full_text_reference query limit :
  generation <= i64_max -> 0 <= limit ->
  fts_names db server generation = entry_names db server generation ->
  search_full_text fts_matches db server generation query limit
    = Ok (map row_value (reference_search db server generation query (fts_selected query) limit)).
Proof.
  intros Hg Hl Hsync. unfold search_full_text, i64_try_from.
  rewrite (proj2 (Z.leb_le _ _)) by done. cbn [result_bind].
  rewrite (fts_candidates query Hsync), reference_rows.
  set (k := Z.to_nat (saturating_add 32 limit 1)).
  set (sel := List.filter (fts_selected query) generation_rows).
  assert (Hnd : NoDup (map (row_candidate query) sel))
    by (apply candidate_ids, NoDup_map_filter, generation_rows_ids).
  assert (Hk : (0 < k)%nat) by (unfold k, saturating_add, umax; lia).
  rewrite (heap_topk (fun c => c) candidate_compare k) by (done || by rewrite map_id).
  rewrite (sort_by_map (row_candidate query) (fun c => c) candidate_compare sel) by done.
  rewrite firstn_map, fts_lookups.
  - cbn [result_map]. by rewrite omap_map_some.
  - intros r [Hr _]%taken_rows. done.
Qed.

End OneGeneration.

(** What each mode of a search matches. Full text stands for the substring mode when the
    query and each of its terms has three characters, the trigrams of the index. *)
Definition full_text_query (query : ustr) : bool :=
  (3 <=? Z.of_nat (length query))
  && forallb (fun term : ustr => 3 <=? Z.of_nat (length term)) (split_whitespace query).

Definition mode_matches (fts_matches : ustr -> FtsRow -> bool) (db : IndexDb) (server : string)
    (generation : Z) (query : ustr) (mode : Z) : EntryRow -> bool :=
  if mode =? 1 then exact_matches query
  else if mode =? 2 then prefix_matches query
  else fts_selected db server generation fts_matches query.

(** The generation exists and is active, staging, or failed with nothing to replace it. *)
Definition live_generation (db : IndexDb) (server : string) (generation : Z) : bool :=
  existsb (fun r => has_key server generation r && negb (is_obsolete db r)) (generations db).

(** C4: searching is sorting. In every state the index reaches, for a generation that
    cleanup may not touch, an exact search, a prefix search and a full-text search
    return precisely the first [limit + 1] matching entries in the order of their
    ranks, each read back as it was stored: the two bounded queries merged by
    ItemID, the early return of the exact search, the index ranges and the bounded
    heap lose no match and reorder none. *)
Theorem search_reference (fts_matches : ustr -> FtsRow -> bool) (db : IndexDb)
    (server : string) (generation : Z) (query : ustr) (mode limit : Z)
    (Hreach : reachable db) (Hlive : live_generation db server generation = true)
    (Hclean : clean_texts db) (Hquery : valid_text (normalize_query query))
    (Hlimit : 0 <= limit)
    (Hmode : mode = 1 \/ mode = 2 \/ full_text_query (normalize_query query) = true) :
  search fts_matches db server generation query mode limit
    = Ok (map row_value (reference_search db server generation (normalize_query query)
            (mode_matches fts_matches db server generation (normalize_query query) mode) limit)).
Proof.
  pose proof (wf_reachable db Hreach) as W. pose proof (reachable_rows_written db Hreach) as Hw.
  apply existsb_exists in Hlive as (r & Hr & [Hk Ho]%andb_true_iff).
  apply has_key_iff in Hk as [= <- <-]. apply negb_true_iff in Ho.
  pose proof (wf_numbers db W r Hr) as [_ Hg]. pose proof (wf_fts_sync db W r Hr Ho) as Hsync.
  unfold search, mode_matches. destruct (mode =? 1) eqn:E1; [by apply search_exact_reference|].
  destruct (mode =? 2) eqn:E2; [by apply search_prefix_reference|].
  destruct Hmode as [->|[->|Hm]]; [done..|]. unfold full_text_query in Hm. rewrite Hm.
  by apply search_full_text_reference.
Qed.

End Reference.

(** A trigram match: the text between the quotes occurs in a name. *)
Definition phrase_matches (fts_query : ustr) (f : FtsRow) : bool :=
  let phrase := removelast (tl fts_query) in
  contains (normalize_query (H := ascii_text) (f_display_name f)) phrase.

Lemma search_reference_witness :
  search (H := ascii_text) phrase_matches demo_db "plc" 2 [80] 2 10
  = Ok [{| m_item_id := [65; 49]; m_display_name := [80; 86]; m_kind := InventoryItem;
           m_breadcrumbs := [] |}].
Proof.
  rewrite (search_reference (H := ascii_text) phrase_matches demo_db "plc" 2 [80] 2 10
    demo_reachable).
  - vm_compute. reflexivity.
  - vm_compute. reflexivity.
  - apply (bool_decide_unpack _). vm_compute. reflexivity.
  - apply (bool_decide_unpack _). vm_compute. reflexivity.
  - done.
  - right. left. done.
Defined.
