(* ===== verification/Cache.v ===== *)
(** * The cache of search results (index/query.rs)

    [QueryCache] keeps its values in a hash map and their keys in a queue, oldest
    first. It implements a bounded list of pairs in order of their last use. *)
From S2P Require Import Prelude Text Bounded.

Record CacheKey := {
  k_server : string;
  k_generation : Z;  (* u64 *)
  k_query : ustr;
  k_mode : Z;        (* i32 *)
  k_limit : Z        (* u32 *)
}.
#[export] Instance CacheKey_eq_dec : EqDecision CacheKey.
Proof. solve_decision. Defined.
#[export] Program Instance CacheKey_countable : Countable CacheKey :=
  inj_countable' (fun k => (k_server k, k_generation k, k_query k, k_mode k, k_limit k))
    (fun '(s, g, q, m, l) => {| k_server := s; k_generation := g; k_query := q; k_mode := m;
                                k_limit := l |}) _.
Next Obligation. by intros []. Qed.

Section Cache.
(** The cached search results. *)
Context {V : Type}.

Record QueryCache := mk_cache {
  values : gmap CacheKey V;
  order : list CacheKey;
  capacity : Z               (* usize *)
}.

Definition other_key (key existing : CacheKey) : bool := negb (bool_decide (existing = key)).
Definition other_server (server : string) (key : CacheKey) : bool :=
  negb (bool_decide (k_server key = server)).

(** [VecDeque::retain(|existing| existing != key)] *)
Definition retain_other (key : CacheKey) (l : list CacheKey) : list CacheKey :=
  List.filter (other_key key) l.

Definition get (self : QueryCache) (key : CacheKey) : QueryCache * option V :=
  match values self !! key with
  | None => (self, None)
  | Some value =>
      (mk_cache (values self) (retain_other key (order self) ++ [key]) (capacity self), Some value)
  end.

Definition insert (self : QueryCache) (key : CacheKey) (value : V) : QueryCache :=
  let '(vs, o) := evict (capacity self) (<[key := value]> (values self))
                    (retain_other key (order self) ++ [key]) in
  mk_cache vs o (capacity self).

Definition clear_server (self : QueryCache) (server : string) : QueryCache :=
  mk_cache (filter (fun '(k, _) => k_server k <> server) (values self))
    (List.filter (other_server server) (order self))
    (capacity self).

(** ** The specification: a bounded list in order of use *)

Inductive CacheOp := CacheGet (key : CacheKey) | CacheInsert (key : CacheKey) (value : V)
  | CacheClear (server : string).

Definition run_op (self : QueryCache) (op : CacheOp) : QueryCache * option V :=
  match op with
  | CacheGet key => get self key
  | CacheInsert key value => (insert self key value, None)
  | CacheClear server => (clear_server self server, None)
  end.

Definition spec := list (CacheKey * V).
Definition spec_lookup (l : spec) (key : CacheKey) : option V :=
  snd <$> List.find (fun p => bool_decide (p.1 = key)) l.
Definition spec_without (key : CacheKey) (l : spec) : spec :=
  List.filter (fun p => other_key key p.1) l.
Definition spec_op (capacity : Z) (l : spec) (op : CacheOp) : spec * option V :=
  match op with
  | CacheGet key =>
      match spec_lookup l key with
      | Some value => (spec_without key l ++ [(key, value)], Some value)
      | None => (l, None)
      end
  | CacheInsert key value =>
      let l' := spec_without key l ++ [(key, value)] in
      (drop (length l' - Z.to_nat capacity) l', None)
  | CacheClear server => (List.filter (fun p => other_server server p.1) l, None)
  end.

(** The results of a sequence of operations. *)
Fixpoint run_ops (self : QueryCache) (ops : list CacheOp) : list (option V) :=
  match ops with
  | [] => []
  | op :: rest => let '(self', r) := run_op self op in r :: run_ops self' rest
  end.
Fixpoint spec_ops (capacity : Z) (l : spec) (ops : list CacheOp) : list (option V) :=
  match ops with
  | [] => []
  | op :: rest => let '(l', r) := spec_op capacity l op in r :: spec_ops capacity l' rest
  end.

(** A cache holds the pairs of the list: the queue their keys, the map their values. *)
Record represents (self : QueryCache) (l : spec) : Prop := {
  rep_order : order self = map fst l;
  rep_nodup : NoDup (map fst l);
  rep_values : forall k, values self !! k = spec_lookup l k
}.

(** ** Lemmas *)

Lemma spec_lookup_filter (q : CacheKey -> bool) l k :
  spec_lookup (List.filter (fun p => q p.1) l) k = if q k then spec_lookup l k else None.
Proof.
  unfold spec_lookup. induction l as [|[k' v] l IH]; simpl; [by destruct (q k)|].
  destruct (q k') eqn:E; simpl; case_bool_decide; subst; rewrite ?E, ?IH; try done.
  by destruct (q k).
Qed.

Lemma spec_lookup_app l1 l2 k :
  spec_lookup (l1 ++ l2) k =
    match spec_lookup l1 k with Some v => Some v | None => spec_lookup l2 k end.
Proof.
  unfold spec_lookup. induction l1 as [|[k' v] l IH]; simpl; [done|].
  case_bool_decide; [done|]. apply IH.
Qed.

Lemma spec_lookup_none l k : spec_lookup l k = None <-> k ∉ map fst l.
Proof.
  unfold spec_lookup. induction l as [|[k' v] l IH]; simpl.
  - split; [intros _; apply not_elem_of_nil|done].
  - rewrite not_elem_of_cons. case_bool_decide; subst; simpl.
    + split; [done|]. tauto.
    + rewrite IH. split; [intros; split; [congruence|done]|tauto].
Qed.

Lemma map_fst_filter (q : CacheKey -> bool) (l : spec) :
  map fst (List.filter (fun p => q p.1) l) = List.filter q (map fst l).
Proof. induction l as [|[k v] l IH]; simpl; [done|]. destruct (q k); simpl; by rewrite IH. Qed.

Lemma NoDup_list_filter {A} (q : A -> bool) l : NoDup l -> NoDup (List.filter q l).
Proof.
  intros Hn. rewrite <- (map_id l) in Hn. rewrite <- (map_id (List.filter q l)).
  by apply NoDup_map_filter.
Qed.

(** Moving a pair to the end of the queue. *)
Lemma represents_touch vs o cap l key value :
  represents (mk_cache vs o cap) l ->
  represents (mk_cache (<[key := value]> vs) (retain_other key o ++ [key]) cap)
    (spec_without key l ++ [(key, value)]).
Proof.
  intros [Ho Hn Hv]. simpl in *. split; simpl.
  - rewrite map_app, Ho. unfold retain_other, spec_without.
    by rewrite (map_fst_filter (other_key key)).
  - rewrite map_app. apply NoDup_app. split.
    { unfold spec_without. rewrite (map_fst_filter (other_key key)).
      by apply NoDup_list_filter. }
    split; [|apply NoDup_singleton]. intros k Hk ->%list_elem_of_singleton. revert Hk.
    apply spec_lookup_none. unfold spec_without.
    rewrite (spec_lookup_filter (other_key key)).
    unfold other_key. by rewrite bool_decide_eq_true_2.
  - intros k. unfold spec_without.
    rewrite spec_lookup_app, (spec_lookup_filter (other_key key)).
    unfold spec_lookup at 2, other_key. simpl. destruct (decide (k = key)) as [->|Hne].
    + rewrite lookup_insert_eq. by rewrite bool_decide_eq_true_2.
    + rewrite lookup_insert_ne by done. rewrite (bool_decide_eq_false_2 (k = key)) by done.
      rewrite (bool_decide_eq_false_2 (key = k)) by congruence. simpl.
      rewrite Hv. by destruct (spec_lookup l k).
Qed.

Lemma represents_pop vs k o cap v l :
  represents (mk_cache vs (k :: o) cap) ((k, v) :: l) ->
  represents (mk_cache (delete k vs) o cap) l.
Proof.
  intros [Ho Hn Hv]. simpl in *. apply NoDup_cons in Hn as [Hk Hn]. split; simpl; [congruence|done|].
  intros k'. destruct (decide (k' = k)) as [->|Hne].
  - rewrite lookup_delete_eq. symmetry. by apply spec_lookup_none.
  - rewrite lookup_delete_ne by done. rewrite Hv. unfold spec_lookup. simpl.
    by rewrite bool_decide_eq_false_2 by congruence.
Qed.

Lemma represents_evict cap : forall l vs o,
  represents (mk_cache vs o cap) l -> 0 <= cap ->
  represents (mk_cache (evict cap vs o).1 (evict cap vs o).2 cap)
    (drop (length l - Z.to_nat cap) l).
Proof.
  induction l as [|[k v] l IH]; intros vs o Hr Hc.
  - pose proof (rep_order _ _ Hr) as Ho. simpl in Ho. subst o. done.
  - pose proof (rep_order _ _ Hr) as Ho. simpl in Ho. subst o. cbn [evict].
    cbn [length]. rewrite length_map. destruct (Z.ltb_spec cap (Z.of_nat (S (length l)))) as [Hlt|Hge].
    + replace (S (length l) - Z.to_nat cap)%nat with (S (length l - Z.to_nat cap)) by lia.
      cbn [drop]. apply IH; [|done]. by eapply represents_pop.
    + replace (S (length l) - Z.to_nat cap)%nat with 0%nat by lia. done.
Qed.

Lemma represents_op self l op :
  represents self l -> 0 <= capacity self ->
  represents (run_op self op).1 (spec_op (capacity self) l op).1 /\
  (run_op self op).2 = (spec_op (capacity self) l op).2 /\
  capacity (run_op self op).1 = capacity self.
Proof.
  destruct self as [vs o cap]. intros Hr Hc. pose proof (rep_values _ _ Hr) as Hv. simpl in Hv.
  destruct op as [key|key value|server].
  - cbn [run_op spec_op]. unfold get. cbn [values order capacity]. rewrite <- (Hv key).
    destruct (vs !! key) as [value|] eqn:E; [|done]. split; [|done].
    apply (represents_touch _ _ _ _ key value) in Hr. by rewrite insert_id in Hr.
  - cbn [run_op spec_op]. unfold insert. cbn [values order capacity] in *.
    apply (represents_touch _ _ _ _ key value) in Hr.
    apply represents_evict in Hr; [|done]. by destruct (evict _ _ _).
  - split; [|done]. destruct Hr as [Ho Hn _]. split; simpl in *.
    + by rewrite Ho, (map_fst_filter (other_server server)).
    + rewrite (map_fst_filter (other_server server)).
      by apply NoDup_list_filter.
    + intros k. rewrite (spec_lookup_filter (other_server server)).
      rewrite <- Hv. unfold other_server. destruct (decide (k_server k = server)) as [He|He].
      * rewrite bool_decide_eq_true_2 by done. simpl. apply map_lookup_filter_None. right.
        intros v _ Hne. by apply Hne.
      * rewrite bool_decide_eq_false_2 by done. simpl. destruct (vs !! k) as [v|] eqn:E.
        -- by apply map_lookup_filter_Some.
        -- apply map_lookup_filter_None. by left.
Qed.

Lemma run_ops_spec ops : forall self l,
  represents self l -> 0 <= capacity self ->
  run_ops self ops = spec_ops (capacity self) l ops.
Proof.
  induction ops as [|op ops IH]; intros self l Hr Hc; simpl; [done|].
  pose proof (represents_op self l op Hr Hc) as (H1 & H2 & H3).
  destruct (run_op self op) as [self' r], (spec_op (capacity self) l op) as [l' r']. simpl in *.
  subst r'. f_equal. rewrite <- H3. apply IH; [done|by rewrite H3].
Qed.

Definition empty_cache (cap : Z) : QueryCache := mk_cache ∅ [] cap.

Lemma represents_empty cap : represents (empty_cache cap) [].
Proof. split; simpl; [done|constructor|]. intros k. apply lookup_empty. Qed.

(** The result cache is a least-recently-used cache. Starting empty, any sequence of
    lookups, insertions and invalidations answers exactly as the bounded list does:
    a lookup returns the pair's last value and moves it to the recent end, an
    insertion drops the least recently used pairs beyond the capacity, and clearing
    a server forgets its pairs only. *)
Theorem cache_refines_lru (cap : Z) (ops : list CacheOp) (Hcap : 0 <= cap) :
  run_ops (empty_cache cap) ops = spec_ops cap [] ops.
Proof. apply (run_ops_spec ops (empty_cache cap)); [apply represents_empty|done]. Qed.

End Cache.
Arguments QueryCache : clear implicits.
Arguments CacheOp : clear implicits.

Definition demo_key (server : string) (generation : Z) : CacheKey :=
  {| k_server := server; k_generation := generation; k_query := [112]; k_mode := 2; k_limit := 10 |}.

Example cache_run :
  run_ops (empty_cache 2)
    [CacheInsert (demo_key "a" 1) 10; CacheInsert (demo_key "b" 1) 20; CacheGet (demo_key "a" 1);
     CacheInsert (demo_key "a" 2) 30; CacheGet (demo_key "b" 1); CacheGet (demo_key "a" 1);
     CacheClear "a"; CacheGet (demo_key "a" 2)]
  = [None; None; Some 10; None; None; Some 10; None; None].
Proof. reflexivity. Qed.
