(* ===== verification/Status.v ===== *)
(** * Index status (index/status.rs)

    The state of a build at run time, the measurements of foreground operations, and
    the status of an index computed from the database rows, the running build and
    the clock. [now] is [SystemTime::now()], [instant_now] [Instant::now()], both in
    nanoseconds. *)
From S2P Require Import Prelude Text Schedule Controller Opc Store.

Inductive IndexState :=
| NotIndexed | Partial | Ready | Stale | Refreshing | Promoting | IndexFailed | Deleting.
#[export] Instance IndexState_eq_dec : EqDecision IndexState.
Proof. solve_decision. Defined.

Record ForegroundMetrics := {
  fm_active_count : Z;
  fm_operations : Z;
  fm_errors : Z;
  fm_bad_quality : Z;
  fm_latency_p50_ms : option Z;
  fm_latency_p95_ms : option Z;
  fm_latency_max_ms : option Z;
  fm_last_error : bool;
  fm_last_bad_quality : bool
}.
Definition default_metrics : ForegroundMetrics :=
  {| fm_active_count := 0; fm_operations := 0; fm_errors := 0; fm_bad_quality := 0;
     fm_latency_p50_ms := None; fm_latency_p95_ms := None; fm_latency_max_ms := None;
     fm_last_error := false; fm_last_bad_quality := false |}.

Inductive HealthProbeState := Unavailable | Healthy | Unhealthy.

Record HostMetrics := {
  hm_cpu_percent : option f64;
  hm_available_memory_percent : option f64;
  hm_disk_active_percent : option f64;
  hm_disk_queue : option f64;
  hm_process_working_set_bytes : option Z;
  hm_process_private_bytes : option Z;
  hm_process_read_bytes_per_second : option Z;
  hm_process_write_bytes_per_second : option Z;
  hm_disk_free_bytes : option Z
}.
Definition default_host_metrics : HostMetrics :=
  {| hm_cpu_percent := None; hm_available_memory_percent := None; hm_disk_active_percent := None;
     hm_disk_queue := None; hm_process_working_set_bytes := None; hm_process_private_bytes := None;
     hm_process_read_bytes_per_second := None; hm_process_write_bytes_per_second := None;
     hm_disk_free_bytes := None |}.

Record StorageDiagnostics := {
  sd_main_bytes : Z;
  sd_wal_bytes : Z;
  sd_shm_bytes : Z;
  sd_free_bytes : option Z;
  sd_last_commit_latency_ms : option Z
}.
Definition default_storage : StorageDiagnostics :=
  {| sd_main_bytes := 0; sd_wal_bytes := 0; sd_shm_bytes := 0; sd_free_bytes := None;
     sd_last_commit_latency_ms := None |}.

Record SchedulerDiagnostics := {
  next_refresh_at : option string;
  last_attempt_at : option string;
  last_success_at : option string;
  last_success_duration_ms : option Z;
  sched_retry_after : option string;
  sched_consecutive_failures : Z;
  sched_circuit_open : bool
}.
Definition default_scheduler : SchedulerDiagnostics :=
  {| next_refresh_at := None; last_attempt_at := None; last_success_at := None;
     last_success_duration_ms := None; sched_retry_after := None;
     sched_consecutive_failures := 0; sched_circuit_open := false |}.

Record IndexStatus := {
  st_server : string;
  st_state : IndexState;
  st_auto_refresh_enabled : bool;
  st_active_generation : Z;
  st_entry_count : Z;
  st_unique_item_count : Z;
  st_started_at : option string;
  st_completed_at : option string;
  st_last_error : option string;
  st_database_bytes : Z;
  st_organization : NamespaceOrganization;
  st_source : BrowseSource;
  st_progress : option InventoryProgress;
  st_effective_limits : option InventoryLimits;
  st_controller_state : option ControllerState;
  st_pause_reason : option PauseReason;
  st_recovery_deadline : option string;
  st_foreground_metrics : ForegroundMetrics;
  st_host_metrics : HostMetrics;
  st_health : HealthProbeState;
  st_sentinel_configured : bool;
  st_storage : StorageDiagnostics;
  st_scheduler : SchedulerDiagnostics
}.

(** ** Foreground measurements *)

Definition METRIC_WINDOW : Z := 128.

Record ForegroundMetricState := {
  latencies_ms : list Z;
  operations : Z;
  errors : Z;
  bad_quality : Z;
  last_error_flag : bool;
  last_bad_quality_flag : bool;
  last_health_failure_at : option Z;
  last_bad_quality_at : option Z
}.
Definition default_metric_state : ForegroundMetricState :=
  {| latencies_ms := []; operations := 0; errors := 0; bad_quality := 0;
     last_error_flag := false; last_bad_quality_flag := false; last_health_failure_at := None;
     last_bad_quality_at := None |}.

(** [errors] and [bad_quality] are [u64] sums that wrap in the release profile. *)
Definition record_health_at (self : ForegroundMetricState) (now latency_ms : Z)
    (error bad health_failure : bool) : ForegroundMetricState :=
  let latencies := latencies_ms self ++ [latency_ms] in
  {| latencies_ms :=
       if METRIC_WINDOW <? Z.of_nat (length latencies) then tail latencies else latencies;
     operations := saturating_add 64 (operations self) 1;
     errors := (errors self + u64_from error) mod 2 ^ 64;
     bad_quality := (bad_quality self + u64_from bad) mod 2 ^ 64;
     last_error_flag := error;
     last_bad_quality_flag := bad;
     last_health_failure_at :=
       if health_failure then Some now else last_health_failure_at self;
     last_bad_quality_at := if bad then Some now else last_bad_quality_at self |}.

Definition recent_health_failure (self : ForegroundMetricState) (now max_age : Z) : bool :=
  is_some_and (fun recorded => saturating_since now recorded <=? max_age)
    (last_health_failure_at self).

Definition recent_bad_quality (self : ForegroundMetricState) (now max_age : Z) : bool :=
  is_some_and (fun recorded => saturating_since now recorded <=? max_age)
    (last_bad_quality_at self).

(** [usize::div_ceil] *)
Definition div_ceil (a b : Z) : Z := (a + b - 1) / b.

Definition percentile (values : list Z) (percentile : Z) : option Z :=
  match values with
  | [] => None
  | _ =>
      let len := Z.of_nat (length values) in
      let rank := Z.max (div_ceil (len * percentile) 100) 1 in
      values !! Z.to_nat (Z.min (rank - 1) (len - 1))
  end.

Definition snapshot (self : ForegroundMetricState) (active_count : Z) : ForegroundMetrics :=
  let sorted := merge_sort Z.le (latencies_ms self) in
  {| fm_active_count := active_count;
     fm_operations := operations self;
     fm_errors := errors self;
     fm_bad_quality := bad_quality self;
     fm_latency_p50_ms := percentile sorted 50;
     fm_latency_p95_ms := percentile sorted 95;
     fm_latency_max_ms := List.last (map Some sorted) None;
     fm_last_error := last_error_flag self;
     fm_last_bad_quality := last_bad_quality_flag self |}.

Definition foreground_metrics_snapshot (users : gmap string Z)
    (metrics : gmap string ForegroundMetricState) (server : string) : ForegroundMetrics :=
  let active_count := unwrap_or 0 (users !! server) in
  match metrics !! server with
  | Some value => snapshot value active_count
  | None =>
      {| fm_active_count := active_count; fm_operations := 0; fm_errors := 0; fm_bad_quality := 0;
         fm_latency_p50_ms := None; fm_latency_p95_ms := None; fm_latency_max_ms := None;
         fm_last_error := false; fm_last_bad_quality := false |}
  end.

(** ** The build at run time

    [control] identifies the control handle of the inventory, shared with its worker. *)

Record RuntimeBuild := {
  control : option nat;
  progress : option InventoryProgress;
  started_at : string;
  build_foreground_users : Z;
  operator_paused : bool;
  operator_cancelled_until : option Z;
  quiet_until : option Z;
  effective_limits : option InventoryLimits;
  controller_state : option ControllerState;
  pause_reason : option PauseReason;
  recovery_deadline : option Z;
  last_commit_latency_ms : option Z
}.

Record RuntimeState := {
  build : option RuntimeBuild;
  retry_after : option Z;
  last_error : option string;
  consecutive_failures : Z;
  circuit_open : bool;
  health : HealthProbeState;
  sentinel_checked_at : option Z
}.
Definition default_runtime : RuntimeState :=
  {| build := None; retry_after := None; last_error := None; consecutive_failures := 0;
     circuit_open := false; health := Unavailable; sentinel_checked_at := None |}.

(** ** Status of an index *)

Record StatusSettings := {
  refresh_interval_seconds : Z;
  schedule_jitter_seconds : Z
}.

Definition status_from_row (server : string) (row : DbStatus) (state : IndexState)
    (progress : option InventoryProgress) (database_bytes : Z) : IndexStatus :=
  {| st_server := server;
     st_state := state;
     st_auto_refresh_enabled := false;
     st_active_generation := if row_is Active row then row_generation row else 0;
     st_entry_count := row_entry_count row;
     st_unique_item_count := row_unique_item_count row;
     st_started_at := Some (row_started_at row);
     st_completed_at := row_completed_at row;
     st_last_error := row_last_error row;
     st_database_bytes := database_bytes;
     st_organization := row_organization row;
     st_source := row_source row;
     st_progress := progress;
     st_effective_limits := None;
     st_controller_state := None;
     st_pause_reason := None;
     st_recovery_deadline := None;
     st_foreground_metrics := default_metrics;
     st_host_metrics := default_host_metrics;
     st_health := Unavailable;
     st_sentinel_configured := false;
     st_storage := default_storage;
     st_scheduler := default_scheduler |}.

Definition empty_status (server : string) (state : IndexState) : IndexStatus :=
  {| st_server := server;
     st_state := state;
     st_auto_refresh_enabled := false;
     st_active_generation := 0;
     st_entry_count := 0;
     st_unique_item_count := 0;
     st_started_at := None;
     st_completed_at := None;
     st_last_error := None;
     st_database_bytes := 0;
     st_organization := OrgUnspecified;
     st_source := SourceUnspecified;
     st_progress := None;
     st_effective_limits := None;
     st_controller_state := None;
     st_pause_reason := None;
     st_recovery_deadline := None;
     st_foreground_metrics := default_metrics;
     st_host_metrics := default_host_metrics;
     st_health := Unavailable;
     st_sentinel_configured := false;
     st_storage := default_storage;
     st_scheduler := default_scheduler |}.

(** Updates of single fields. *)
Definition set_state (s : IndexStatus) (state : IndexState) (error : option string) : IndexStatus :=
  {| st_server := st_server s; st_state := state;
     st_auto_refresh_enabled := st_auto_refresh_enabled s;
     st_active_generation := st_active_generation s; st_entry_count := st_entry_count s;
     st_unique_item_count := st_unique_item_count s; st_started_at := st_started_at s;
     st_completed_at := st_completed_at s; st_last_error := error;
     st_database_bytes := st_database_bytes s; st_organization := st_organization s;
     st_source := st_source s; st_progress := st_progress s;
     st_effective_limits := st_effective_limits s; st_controller_state := st_controller_state s;
     st_pause_reason := st_pause_reason s; st_recovery_deadline := st_recovery_deadline s;
     st_foreground_metrics := st_foreground_metrics s; st_host_metrics := st_host_metrics s;
     st_health := st_health s; st_sentinel_configured := st_sentinel_configured s;
     st_storage := st_storage s; st_scheduler := st_scheduler s |}.
Definition set_bytes (s : IndexStatus) (bytes : Z) (sentinel : bool) : IndexStatus :=
  {| st_server := st_server s; st_state := st_state s;
     st_auto_refresh_enabled := st_auto_refresh_enabled s;
     st_active_generation := st_active_generation s; st_entry_count := st_entry_count s;
     st_unique_item_count := st_unique_item_count s; st_started_at := st_started_at s;
     st_completed_at := st_completed_at s; st_last_error := st_last_error s;
     st_database_bytes := bytes; st_organization := st_organization s;
     st_source := st_source s; st_progress := st_progress s;
     st_effective_limits := st_effective_limits s; st_controller_state := st_controller_state s;
     st_pause_reason := st_pause_reason s; st_recovery_deadline := st_recovery_deadline s;
     st_foreground_metrics := st_foreground_metrics s; st_host_metrics := st_host_metrics s;
     st_health := st_health s; st_sentinel_configured := sentinel;
     st_storage := st_storage s; st_scheduler := st_scheduler s |}.
Definition set_started (s : IndexStatus) (started : option string) : IndexStatus :=
  {| st_server := st_server s; st_state := st_state s;
     st_auto_refresh_enabled := st_auto_refresh_enabled s;
     st_active_generation := st_active_generation s; st_entry_count := st_entry_count s;
     st_unique_item_count := st_unique_item_count s; st_started_at := started;
     st_completed_at := st_completed_at s; st_last_error := st_last_error s;
     st_database_bytes := st_database_bytes s; st_organization := st_organization s;
     st_source := st_source s; st_progress := st_progress s;
     st_effective_limits := st_effective_limits s; st_controller_state := st_controller_state s;
     st_pause_reason := st_pause_reason s; st_recovery_deadline := st_recovery_deadline s;
     st_foreground_metrics := st_foreground_metrics s; st_host_metrics := st_host_metrics s;
     st_health := st_health s; st_sentinel_configured := st_sentinel_configured s;
     st_storage := st_storage s; st_scheduler := st_scheduler s |}.

Section Status.
(** The settings, and what [SystemTime::now()] and [Instant::now()] say. *)
Context (settings : StatusSettings) (now instant_now : Z).

Definition status_from_runtime_build (server : string) (b : RuntimeBuild) (is_promoting : bool)
    (database_bytes : Z) : IndexStatus :=
  let empty := empty_status server (if is_promoting then Promoting else Partial) in
  {| st_server := server;
     st_state := st_state empty;
     st_auto_refresh_enabled := false;
     st_active_generation := 0;
     st_entry_count := match progress b with None => 0 | Some p => entries_seen p end;
     st_unique_item_count := match progress b with None => 0 | Some p => unique_items p end;
     st_started_at := Some (started_at b);
     st_completed_at := None;
     st_last_error := None;
     st_database_bytes := database_bytes;
     st_organization := OrgUnspecified;
     st_source := SourceUnspecified;
     st_progress := progress b;
     st_effective_limits := effective_limits b;
     st_controller_state := controller_state b;
     st_pause_reason := pause_reason b;
     st_recovery_deadline := instant_timestamp now instant_now <$> recovery_deadline b;
     st_foreground_metrics := default_metrics;
     st_host_metrics := default_host_metrics;
     st_health := Unavailable;
     st_sentinel_configured := false;
     st_storage := default_storage;
     st_scheduler := default_scheduler |}.

Definition status_during_build (server : string) (rows : StatusRows) (b : RuntimeBuild)
    (is_promoting : bool) (database_bytes : Z) : IndexStatus :=
  match option_or (rows_active rows) (option_or (rows_staging rows) (rows_failed rows)) with
  | Some row =>
      let state :=
        if is_promoting then Promoting
        else if is_some (rows_active rows) then Refreshing
        else if is_some (rows_staging rows) then Partial
        else IndexFailed in
      set_started (status_from_row server row state (progress b) database_bytes)
        (Some (started_at b))
  | None => status_from_runtime_build server b is_promoting database_bytes
  end.

Definition is_stale (row : DbStatus) : bool :=
  is_some_and
    (fun completed =>
       from_secs (refresh_interval_seconds settings) <? unwrap_or 0 (duration_since now completed))
    (value ← row_completed_at row; parse_timestamp value).

Definition status_from_active_row (server : string) (rows : StatusRows) (row : DbStatus)
    (database_bytes : Z) : IndexStatus :=
  let state :=
    if is_some (rows_failed_after_active rows) then IndexFailed
    else if is_stale row then Stale
    else Ready in
  let status := status_from_row server row state None database_bytes in
  match rows_failed_after_active rows with
  | Some failed => set_state status (st_state status) (row_last_error failed)
  | None => status
  end.

Definition status_without_build (server : string) (rows : StatusRows) (database_bytes : Z)
    (sentinel_configured : bool) : IndexStatus :=
  match rows_active rows, rows_staging rows, rows_failed rows with
  | Some row, _, _ => status_from_active_row server rows row database_bytes
  | None, Some row, _ => status_from_row server row Partial None database_bytes
  | None, None, Some row => status_from_row server row IndexFailed None database_bytes
  | None, None, None => set_bytes (empty_status server NotIndexed) database_bytes sentinel_configured
  end.

Definition base_status (server : string) (rows : StatusRows) (b : option RuntimeBuild)
    (is_promoting : bool) (database_bytes : Z) (sentinel_configured : bool) : IndexStatus :=
  match b with
  | Some b => status_during_build server rows b is_promoting database_bytes
  | None => status_without_build server rows database_bytes sentinel_configured
  end.

Definition apply_status_errors (status : IndexStatus) (build_active : bool)
    (runtime_error promotion_read_error : option string) : IndexStatus :=
  let status :=
    match runtime_error with
    | Some error => if build_active then status else set_state status IndexFailed (Some error)
    | None => status
    end in
  match promotion_read_error with
  | Some error => set_state status (st_state status) (Some error)
  | None => status
  end.

Definition status_duration_ms (row : DbStatus) : option Z :=
  completed ← (value ← row_completed_at row; parse_timestamp value);
  started ← parse_timestamp (row_started_at row);
  duration ← duration_since completed started;
  Some (truncate_max 64 (as_millis duration)).

Definition scheduled_interval (server : string) : Z :=
  duration_saturating_add (from_secs (Z.max (refresh_interval_seconds settings) 1))
    (deterministic_jitter server (schedule_jitter_seconds settings)).

Definition next_refresh (server : string) (completed : option string) : option string :=
  completed ← (value ← completed; parse_timestamp value);
  next ← system_time_checked_add completed (scheduled_interval server);
  Some (system_time_timestamp next).

Definition scheduler_diagnostics (server : string) (rows : StatusRows) (runtime : RuntimeState)
    (usable_index : bool) : SchedulerDiagnostics :=
  let last_success := row ← rows_active rows; row_completed_at row in
  {| next_refresh_at :=
       if usable_index then
         next ← (value ← next_refresh server last_success; parse_timestamp value);
         Some (system_time_timestamp
                 (match retry_after runtime with
                  | None => next
                  | Some retry => Z.max retry next
                  end))
       else None;
     last_attempt_at :=
       option_or (started_at <$> build runtime)
         (option_or (row_started_at <$> rows_failed rows) (row_started_at <$> rows_active rows));
     last_success_at := last_success;
     last_success_duration_ms := row ← rows_active rows; status_duration_ms row;
     sched_retry_after := system_time_timestamp <$> retry_after runtime;
     sched_consecutive_failures := consecutive_failures runtime;
     sched_circuit_open := circuit_open runtime |}.

(** [load_persisted_retry_state]: while no build runs, the later deadline wins and the
    circuit closes with it. *)
Definition load_persisted_retry_state (state : RuntimeState) (persisted : option Z * Z * bool) :
    RuntimeState :=
  let '(persisted_after, failures, open) := persisted in
  match build state with
  | Some _ => state
  | None =>
      let after :=
        match retry_after state, persisted_after with
        | Some a, Some b => Some (Z.max a b)
        | Some a, None => Some a
        | None, b => b
        end in
      {| build := build state; retry_after := after; last_error := last_error state;
         consecutive_failures := failures;
         circuit_open := open && is_some_and (fun retry => now <? retry) after;
         health := health state; sentinel_checked_at := sentinel_checked_at state |}
  end.

(** What [status] reads besides the database: the registries of the manager. While a
    promotion runs, the database file is read through a connection of its own; a read
    that fails then gives no rows and its error. *)
Record StatusReads := {
  is_deleting : bool;
  deletion_error : option string;
  is_promoting : bool;
  is_memory : bool;                                   (* database_path = ":memory:" *)
  enrollment_read : result (option bool) string;      (* auto_refresh_enabled *)
  rows_read : result (list DbStatus) string;
  persisted_retry : result (option Z * Z * bool) string;
  runtime_state : option RuntimeState;
  foreground_snapshot : ForegroundMetrics;
  latest_host_metrics : HostMetrics;
  storage : StorageDiagnostics;
  sentinel_configured : bool
}.

Definition database_bytes_of (s : StorageDiagnostics) : Z :=
  saturating_add 64 (saturating_add 64 (sd_main_bytes s) (sd_wal_bytes s)) (sd_shm_bytes s).

Definition deletion_failed (status : IndexStatus) (error : option string) : IndexStatus :=
  match error with
  | None => status
  | Some error =>
      set_state status IndexFailed
        (Some (String.append "namespace index deletion failed: " error))
  end.

(** The read of the enrollment and of the rows, tolerant during a promotion. *)
Definition tolerant_read {A} (reads : StatusReads) (read : result A string) (default : A) :
    result (A * option string) string :=
  match read with
  | Ok value => Ok (value, None)
  | Err error =>
      if is_promoting reads && negb (is_memory reads) then Ok (default, Some error) else Err error
  end.

(** The run-time state, with the persisted retry state unless a promotion runs. *)
Definition loaded_runtime (reads : StatusReads) : result RuntimeState string :=
  let state := unwrap_or default_runtime (runtime_state reads) in
  if is_promoting reads then Ok state
  else result_map (load_persisted_retry_state state) (persisted_retry reads).

(** The last step of [status]: the measurements and the scheduler's diagnostics. *)
Definition complete_status (status : IndexStatus) (reads : StatusReads) (runtime : RuntimeState)
    (rows : StatusRows) (auto_refresh usable_index : bool) : IndexStatus :=
  let b := build runtime in
  {| st_server := st_server status;
     st_state := st_state status;
     st_auto_refresh_enabled := auto_refresh;
     st_active_generation := st_active_generation status;
     st_entry_count := st_entry_count status;
     st_unique_item_count := st_unique_item_count status;
     st_started_at := st_started_at status;
     st_completed_at := st_completed_at status;
     st_last_error := st_last_error status;
     st_database_bytes := st_database_bytes status;
     st_organization := st_organization status;
     st_source := st_source status;
     st_progress := st_progress status;
     st_effective_limits :=
       match b with Some b => effective_limits b | None => st_effective_limits status end;
     st_controller_state :=
       match b with Some b => controller_state b | None => st_controller_state status end;
     st_pause_reason := match b with Some b => pause_reason b | None => st_pause_reason status end;
     st_recovery_deadline :=
       match b with
       | Some b => instant_timestamp now instant_now <$> recovery_deadline b
       | None => st_recovery_deadline status
       end;
     st_foreground_metrics := foreground_snapshot reads;
     st_host_metrics := latest_host_metrics reads;
     st_health := health runtime;
     st_sentinel_configured := sentinel_configured reads;
     st_storage :=
       {| sd_main_bytes := sd_main_bytes (storage reads);
          sd_wal_bytes := sd_wal_bytes (storage reads);
          sd_shm_bytes := sd_shm_bytes (storage reads);
          sd_free_bytes := sd_free_bytes (storage reads);
          sd_last_commit_latency_ms :=
            match b with
            | Some b => last_commit_latency_ms b
            | None => sd_last_commit_latency_ms (storage reads)
            end |};
     st_scheduler := scheduler_diagnostics (st_server status) rows runtime usable_index |}.

Definition status (server : string) (reads : StatusReads) : result IndexStatus string :=
  if is_deleting reads
  then Ok (set_bytes (empty_status server Deleting) (database_bytes_of (storage reads))
             (sentinel_configured reads))
  else
    let? (enrollment, enrollment_error) :=
      tolerant_read reads (enrollment_read reads) (Some false) in
    match enrollment with
    | None =>
        Ok (deletion_failed
              (set_bytes (empty_status server NotIndexed) 0 (sentinel_configured reads))
              (deletion_error reads))
    | Some auto_refresh =>
        let? (row_list, rows_error) := tolerant_read reads (rows_read reads) [] in
        let promotion_read_error := option_or rows_error enrollment_error in
        let rows := from_rows row_list in
        let? runtime := loaded_runtime reads in
        let status :=
          base_status server rows (build runtime) (is_promoting reads)
            (database_bytes_of (storage reads)) (sentinel_configured reads) in
        let status :=
          apply_status_errors status (is_some (build runtime)) (last_error runtime)
            promotion_read_error in
        let status := deletion_failed status (deletion_error reads) in
        Ok (complete_status status reads runtime rows auto_refresh
              (auto_refresh && (0 <? st_active_generation status)
               && negb (is_some promotion_read_error) && negb (is_some (deletion_error reads))))
    end.

(** ** Automatic refreshes (index/scheduler.rs) *)

Definition automatic_refresh_allowed (windows : list string) (hour minute : Z)
    (status : IndexStatus) : bool :=
  st_auto_refresh_enabled status
  && (0 <? st_active_generation status)
  && is_some (next_refresh_at (st_scheduler status))
  && match st_state status with Ready | Stale | IndexFailed => true | _ => false end
  && is_none_or (fun deadline => deadline <=? now)
       (value ← sched_retry_after (st_scheduler status); parse_timestamp value)
  && (match windows with [] => true | _ => false end || maintenance_window_is_open windows hour minute).

Definition persisted_refresh_retry_delay (state : option RuntimeState) : option Z :=
  retry ← (state ← state; retry_after state);
  remaining ← duration_since retry now;
  Some (Z.max remaining (from_secs 1)).

Definition ready_refresh_delay (windows : list string) (hour minute : Z) (server : string)
    (status : IndexStatus) : Z :=
  if match st_state status with Stale => true | _ => false end
     && negb (maintenance_window_is_open windows hour minute)
  then match windows with [] => from_secs 1 | _ => from_secs 60 end
  else
    unwrap_or (from_secs 1)
      (completed ← (value ← st_completed_at status; parse_timestamp value);
       elapsed ← duration_since now completed;
       Some (saturating_sub (scheduled_interval server) elapsed)).

Definition refresh_delay_for_status (circuit_open_seconds : Z) (windows : list string)
    (hour minute : Z) (server : string) (status : IndexStatus) : Z :=
  match st_state status with
  | Ready | Stale => ready_refresh_delay windows hour minute server status
  | Refreshing | Partial => from_secs 30
  | Promoting => from_secs 1
  | IndexFailed => retry_delay server 1 false circuit_open_seconds
  | NotIndexed => from_secs 3600
  | Deleting => from_secs 30
  end.

End Status.
