(* ===== verification/StatusSpec.v ===== *)
(** * What a status says

    The active generation of a status is the one searches use; automatic refreshes
    respect enrollment, deadlines and running builds; the percentiles of foreground
    latencies are nearest-rank percentiles of the last observations. *)
From S2P Require Import Prelude Text Schedule Controller Opc Store StoreWf Cleanup StoreSpec Status.

#[local] Arguments row_is : simpl never.

(** ** The rows of a status *)

Lemma status_rows_in db server row :
  In row (status_rows db server) <->
  exists r, In r (generations db) /\ g_server r = server /\ g_state r <> Superseded /\
            row = db_status r.
Proof.
  unfold status_rows. rewrite in_map_iff. split.
  - intros (r & <- & Hr). exists r. apply list_elem_of_In in Hr.
    rewrite merge_sort_Permutation, list_elem_of_In, filter_In, andb_true_iff, of_server_iff,
      negb_true_iff in Hr. destruct Hr as (H1 & H2 & H3). split; [done|]. split; [done|].
    split; [|done]. intros H4. by rewrite <- is_state_iff, H3 in H4.
  - intros (r & H1 & H2 & H3 & ->). exists r. split; [done|]. apply list_elem_of_In.
    rewrite merge_sort_Permutation, list_elem_of_In, filter_In, andb_true_iff, of_server_iff,
      negb_true_iff. split; [done|]. split; [done|].
    rewrite <- not_true_iff_false, is_state_iff. done.
Qed.

Lemma active_row_of_status db server :
  wf db ->
  match rows_active (from_rows (status_rows db server)) with
  | Some row => exists r, In r (generations db) /\ g_key r = (server, row_generation row) /\
      g_state r = Active /\ row = db_status r
  | None => active_exists db server = false
  end.
Proof.
  intros W. unfold from_rows. cbn [rows_active].
  destruct (List.find (row_is Active) (status_rows db server)) as [row|] eqn:E.
  - apply find_some in E as [Hin Hs]. apply status_rows_in in Hin as (r & H1 & H2 & H3 & ->).
    unfold row_is in Hs. apply bool_decide_eq_true in Hs. simpl in Hs. exists r.
    split; [done|]. split; [|done]. unfold g_key. simpl. f_equal; [done|].
    pose proof (wf_numbers db W r H1). unfold as_u64. rewrite Z.mod_small; [done|].
    unfold umax in *. lia.
  - apply not_true_iff_false. rewrite active_exists_iff. intros (r & H1 & H2 & H3).
    assert (Hin : In (db_status r) (status_rows db server)).
    { apply status_rows_in. exists r. split; [done|]. split; [done|]. by rewrite H3. }
    pose proof (find_none _ _ E _ Hin) as Hn. unfold row_is in Hn.
    by rewrite bool_decide_eq_true_2 in Hn.
Qed.

(** The rows of the other states are not active ones. *)
Lemma other_rows l row :
  rows_staging (from_rows l) = Some row \/ rows_failed (from_rows l) = Some row ->
  row_is Active row = false.
Proof.
  unfold from_rows. cbn [rows_staging rows_failed].
  intros [[_ Hs]%find_some|[_ Hs]%find_some]; unfold row_is in *;
    apply bool_decide_eq_true in Hs; by rewrite Hs.
Qed.

Section Status.
Context (settings : StatusSettings) (now instant_now : Z).

Lemma base_active_generation server l b promoting bytes sentinel :
  st_active_generation
    (base_status settings now instant_now server (from_rows l) b promoting bytes sentinel) =
  match rows_active (from_rows l) with
  | Some row => row_generation row
  | None => 0
  end.
Proof.
  pose proof (other_rows l) as Hother.
  assert (Hact : forall row, rows_active (from_rows l) = Some row -> row_is Active row = true)
    by (intros row [_ Hs]%find_some; done).
  set (rows := from_rows l) in *. clearbody rows.
  destruct b as [b|]; cbn [base_status].
  - unfold status_during_build.
    destruct (rows_active rows) as [row|] eqn:E1; cbn;
      [destruct promoting; cbn; by rewrite (Hact row eq_refl)|].
    destruct (rows_staging rows) as [row|] eqn:E2; cbn; [by rewrite (Hother row) by auto|].
    destruct (rows_failed rows) as [row|] eqn:E3; cbn; [by rewrite (Hother row) by auto|done].
  - unfold status_without_build. destruct (rows_active rows) as [row|] eqn:E1.
    { unfold status_from_active_row. destruct (rows_failed_after_active rows); simpl;
        by rewrite (Hact row). }
    destruct (rows_staging rows) as [row|] eqn:E2; cbn; [by rewrite (Hother row) by auto|].
    destruct (rows_failed rows) as [row|] eqn:E3; cbn; [by rewrite (Hother row) by auto|done].
Qed.

Lemma errors_generation s active e1 e2 :
  st_active_generation (apply_status_errors s active e1 e2) = st_active_generation s.
Proof. unfold apply_status_errors. by destruct e1, e2, active. Qed.
Lemma deletion_generation s e :
  st_active_generation (deletion_failed s e) = st_active_generation s.
Proof. by destruct e. Qed.

(** A status reports the index that searches use. In every state the database
    reaches, the status of an enrolled server whose rows could be read names
    generation [g] as active exactly when [g] is the server's active generation,
    whatever builds, failures, promotions or deletion errors there are. *)
Theorem status_active_generation (db : IndexDb) (server : string) (reads : StatusReads)
    (auto : bool) (s : IndexStatus) (g : Z) `{TextLibrary} (Hr : reachable db)
    (Hdel : is_deleting reads = false) (Henr : enrollment_read reads = Ok (Some auto))
    (Hrows : rows_read reads = Ok (status_rows db server))
    (Hs : status settings now instant_now server reads = Ok s) (Hg : 0 < g) :
  st_active_generation s = g <->
  exists r, In r (generations db) /\ g_key r = (server, g) /\ g_state r = Active.
Proof.
  pose proof (wf_reachable db Hr) as W. revert Hs. unfold status, tolerant_read.
  rewrite Hdel, Henr, Hrows. cbn [result_bind].
  destruct (loaded_runtime now reads) as [runtime|e]; [|done].
  cbn [result_bind]. intros <-%ok_inj. cbn [st_active_generation complete_status].
  rewrite deletion_generation, errors_generation, base_active_generation.
  pose proof (active_row_of_status db server W) as Ha.
  destruct (rows_active (from_rows (status_rows db server))) as [row|].
  - destruct Ha as (r & H1 & H2 & H3 & _). split.
    + intros <-. by exists r.
    + intros (r' & H4 & H5 & H6). injection H2 as H2s H2g. injection H5 as H5s H5g.
      rewrite <- H2g, <- H5g. by apply (wf_active db W); [..|congruence].
  - split; [lia|]. intros (r & H1 & [= H2 _] & H3). exfalso.
    rewrite <- not_true_iff_false, active_exists_iff in Ha. apply Ha. by exists r.
Qed.

(** The state shown during a build is not one that lets a refresh start. *)
Lemma build_state server l b promoting bytes :
  0 < st_active_generation
        (status_during_build now instant_now server (from_rows l) b promoting bytes) ->
  st_state (status_during_build now instant_now server (from_rows l) b promoting bytes)
    = Promoting \/
  st_state (status_during_build now instant_now server (from_rows l) b promoting bytes)
    = Refreshing.
Proof.
  intros Hg. pose proof (base_active_generation server l (Some b) promoting bytes false) as Hb.
  cbn [base_status] in Hb. rewrite Hb in Hg. clear Hb. unfold status_during_build.
  destruct (rows_active (from_rows l)) as [row|] eqn:E; [|lia].
  cbn [option_or is_some is_some_and]. destruct promoting; cbn; auto.
Qed.

(** Automatic refreshes are gated. When the status of a server allows one, the server
    is enrolled with automatic refresh, has an active index, is not being deleted, has
    no build and no failed deletion; its retry deadline has passed, to the millisecond,
    and a maintenance window is open if any is configured. *)
Theorem automatic_refresh_gated (server : string) (reads : StatusReads) (s : IndexStatus)
    (windows : list string) (hour minute : Z)
    (Hs : status settings now instant_now server reads = Ok s)
    (Hallowed : automatic_refresh_allowed now windows hour minute s = true) :
  exists runtime, loaded_runtime now reads = Ok runtime /\
  is_deleting reads = false /\ deletion_error reads = None /\
  (exists e, tolerant_read reads (enrollment_read reads) (Some false) = Ok (Some true, e)) /\
  build runtime = None /\ 0 < st_active_generation s /\
  (forall retry, retry_after runtime = Some retry -> 0 <= retry <= system_time_max ->
     retry - retry mod nanos_per_milli <= now) /\
  (windows = [] \/ maintenance_window_is_open windows hour minute = true).
Proof.
  unfold automatic_refresh_allowed in Hallowed. rewrite !andb_true_iff in Hallowed.
  destruct Hallowed as (((((Hauto & Hgen) & Hnext) & Hstate) & Hretry) & Hwindow).
  apply Z.ltb_lt in Hgen. revert Hs. unfold status.
  destruct (is_deleting reads); [intros <-%ok_inj; done|].
  destruct (tolerant_read reads (enrollment_read reads) (Some false)) as [[[auto|] e]|]; [| |done];
    cbn [result_bind].
  2: { intros <-%ok_inj. by destruct (deletion_error reads). }
  destruct (tolerant_read reads (rows_read reads) []) as [[l e']|]; [|done]. cbn [result_bind].
  destruct (loaded_runtime now reads) as [runtime|]; [|done]. cbn [result_bind].
  set (base := base_status _ _ _ _ _ _ _ _ _).
  set (errors := apply_status_errors base _ _ _).
  intros <-%ok_inj. exists runtime. split; [done|]. split; [done|].
  destruct (deletion_error reads) as [de|].
  { exfalso. simpl in Hnext. by rewrite !andb_false_r in Hnext. }
  cbn [deletion_failed] in *. split; [done|]. simpl in Hauto. subst auto.
  split; [by eexists|]. split; [|split; [done|split]].
  - destruct (build runtime) as [b|] eqn:Eb; [|done]. exfalso. cbn in Hstate, Hgen.
    assert (Hsame : st_state errors = st_state base /\
                    st_active_generation errors = st_active_generation base).
    { unfold errors, apply_status_errors. cbn.
      destruct (last_error runtime), (option_or e' e); done. }
    destruct Hsame as [H1 H2]. rewrite H1 in Hstate. rewrite H2 in Hgen.
    destruct (build_state server l b (is_promoting reads) (database_bytes_of (storage reads)) Hgen)
      as [H3|H3]; unfold base in Hstate; cbn [base_status] in Hstate; by rewrite H3 in Hstate.
  - intros retry Hr Hrange. cbn in Hretry. rewrite Hr in Hretry. cbn in Hretry.
    rewrite timestamp_parse in Hretry by done. cbn in Hretry. by apply Z.leb_le.
  - apply orb_true_iff in Hwindow as [Hw|Hw]; [left|by right]. by destruct windows.
Qed.

Lemma scheduled_interval_spec server :
  0 <= refresh_interval_seconds settings -> 0 <= schedule_jitter_seconds settings ->
  from_secs (Z.max (refresh_interval_seconds settings) 1) <= scheduled_interval settings server \/
  scheduled_interval settings server = duration_max.
Proof.
  intros Hi Hj. unfold scheduled_interval, duration_saturating_add.
  pose proof (deterministic_jitter_bounds server (schedule_jitter_seconds settings)). lia.
Qed.

Definition to_milli (t : Z) : Z := t - t mod nanos_per_milli.

Lemma to_milli_eq t : to_milli t = from_millis (as_millis t).
Proof.
  unfold to_milli, from_millis, as_millis. pose proof (Z.div_mod t nanos_per_milli ltac:(done)). lia.
Qed.
Lemma to_milli_mono a b : a <= b -> to_milli a <= to_milli b.
Proof.
  intros Hab. rewrite !to_milli_eq. unfold from_millis, as_millis.
  pose proof (Z.div_le_mono a b nanos_per_milli ltac:(done) Hab). unfold nanos_per_milli in *. lia.
Qed.
Lemma to_milli_millis m : to_milli (from_millis m) = from_millis m.
Proof. rewrite to_milli_eq. unfold as_millis, from_millis. by rewrite Z.div_mul. Qed.
Lemma to_milli_idem t : to_milli (to_milli t) = to_milli t.
Proof. rewrite (to_milli_eq t). apply to_milli_millis. Qed.
Lemma to_milli_nonneg t : 0 <= t -> 0 <= to_milli t <= t.
Proof.
  intros Ht. rewrite to_milli_eq. unfold from_millis, as_millis.
  pose proof (Z.div_pos t nanos_per_milli Ht ltac:(done)).
  pose proof (Z.mul_div_le t nanos_per_milli ltac:(done)). unfold nanos_per_milli in *. lia.
Qed.

Lemma parse_timestamp_spec text t :
  parse_timestamp text = Some t -> 0 <= t <= system_time_max /\ to_milli t = t.
Proof.
  unfold parse_timestamp. destruct (parse_uint (umax 128) text) as [m|] eqn:E; [|done].
  apply parse_uint_bounds in E; [|done]. destruct (m <=? u64_max); [|done].
  unfold system_time_checked_add. destruct (Z.leb_spec (0 + from_millis m) system_time_max);
    [|done]. intros [= <-]. rewrite !Z.add_0_l in *. split; [|apply to_milli_millis].
  unfold from_millis, nanos_per_milli in *. lia.
Qed.

(** A refresh is never scheduled early. The next refresh a status announces is at
    least the refresh interval (a second at least) after the last completed build,
    and not before the retry deadline, to the millisecond. *)
Theorem next_refresh_not_early (server : string) (rows : StatusRows) (runtime : RuntimeState)
    (usable : bool) (text : string)
    (Hi : 0 <= refresh_interval_seconds settings) (Hj : 0 <= schedule_jitter_seconds settings)
    (Hretry : forall retry, retry_after runtime = Some retry -> 0 <= retry <= system_time_max)
    (Hnext : next_refresh_at (scheduler_diagnostics settings server rows runtime usable)
             = Some text) :
  exists completed t,
    (value ← last_success_at (scheduler_diagnostics settings server rows runtime usable);
     parse_timestamp value) = Some completed /\
    parse_timestamp text = Some t /\
    completed + from_secs (Z.max (refresh_interval_seconds settings) 1) <= t /\
    (forall retry, retry_after runtime = Some retry -> to_milli retry <= t).
Proof.
  revert Hnext. cbn [next_refresh_at last_success_at scheduler_diagnostics].
  set (last := row ← rows_active rows; row_completed_at row). destruct usable; [|done].
  unfold next_refresh. destruct (value ← last; parse_timestamp value) as [completed|] eqn:Ec;
    [|done]. cbn [mbind option_bind].
  assert (Hc : 0 <= completed <= system_time_max /\ to_milli completed = completed).
  { destruct last as [value|]; [|done]. by apply (parse_timestamp_spec value). }
  destruct Hc as [Hc Hcm]. unfold system_time_checked_add.
  destruct (Z.leb_spec (completed + scheduled_interval settings server) system_time_max)
    as [Hmax|]; [|done]. cbn [mbind option_bind].
  set (interval := from_secs (Z.max (refresh_interval_seconds settings) 1)).
  assert (Hsched : interval <= scheduled_interval settings server).
  { destruct (scheduled_interval_spec server Hi Hj) as [?|Heq]; [done|].
    assert (system_time_max < duration_max) by (vm_compute; done). lia. }
  assert (Hint : 0 <= interval) by (unfold interval, from_secs, nanos_per_sec; lia).
  rewrite timestamp_parse by lia. cbn [mbind option_bind]. intros [= <-].
  set (next := completed + scheduled_interval settings server) in *.
  change (next - next mod nanos_per_milli) with (to_milli next).
  assert (Hstart : completed + interval <= to_milli next).
  { assert (Hm : to_milli (completed + interval) = completed + interval).
    { assert (Heq : completed + interval
        = from_millis (as_millis completed + 1000 * Z.max (refresh_interval_seconds settings) 1)).
      { rewrite <- Hcm, to_milli_eq at 1. unfold interval, from_secs, from_millis, nanos_per_sec,
          nanos_per_milli. lia. }
      rewrite Heq. apply to_milli_millis. }
    rewrite <- Hm. apply to_milli_mono. unfold next. lia. }
  pose proof (to_milli_nonneg next ltac:(lia)) as Hn.
  exists completed. destruct (retry_after runtime) as [retry|] eqn:Er.
  - specialize (Hretry retry eq_refl). exists (to_milli (Z.max retry (to_milli next))).
    split; [done|]. split; [by rewrite timestamp_parse by lia|]. split.
    + transitivity (to_milli next); [done|]. rewrite <- to_milli_idem at 1.
      apply to_milli_mono. lia.
    + intros r [= <-]. apply to_milli_mono. lia.
  - exists (to_milli next). split; [done|]. split; [|by split].
    rewrite timestamp_parse by lia. change (Some (to_milli (to_milli next)) = Some (to_milli next)).
    by rewrite to_milli_idem.
Qed.

End Status.

(** ** Percentiles *)

Definition count (p : Z -> bool) (l : list Z) : Z := Z.of_nat (length (List.filter p l)).

(** The nearest-rank percentile: at least [p] percent of the values are at most [v], and
    less than [p] percent are smaller. *)
Definition nearest_rank (p : Z) (l : list Z) (v : Z) : Prop :=
  In v l /\ p * Z.of_nat (length l) <= 100 * count (fun x => x <=? v) l /\
  100 * count (fun x => x <? v) l < p * Z.of_nat (length l).

Lemma count_perm p l k : Permutation l k -> count p l = count p k.
Proof.
  intros Hp. unfold count. f_equal.
  induction Hp as [|x l k Hp IH|x y l|l k m _ IH1 _ IH2]; simpl; [done| | |congruence].
  - destruct (p x); simpl; by rewrite IH.
  - by destruct (p x), (p y).
Qed.

Lemma count_cons p x l : count p (x :: l) = (if p x then 1 else 0) + count p l.
Proof. unfold count. simpl. destruct (p x); simpl; lia. Qed.
Lemma count_nonneg p l : 0 <= count p l.
Proof. unfold count. lia. Qed.

Lemma none_below v l : (forall x, x ∈ l -> v <= x) -> List.filter (fun x => x <? v) l = [].
Proof.
  induction l as [|y l IH]; simpl; intros Hl; [done|].
  rewrite (proj2 (Z.ltb_ge y v)) by (apply Hl; by left). apply IH. intros. apply Hl. by right.
Qed.

Lemma sorted_counts l : StronglySorted Z.le l -> forall i v, l !! i = Some v ->
  Z.of_nat i + 1 <= count (fun x => x <=? v) l /\ count (fun x => x <? v) l <= Z.of_nat i.
Proof.
  induction 1 as [|x l Hs IH Hx]; intros i v; [by rewrite lookup_nil|].
  rewrite Forall_forall in Hx. rewrite !count_cons. destruct i as [|i]; simpl.
  - intros [= ->]. rewrite Z.leb_refl, Z.ltb_irrefl.
    pose proof (count_nonneg (fun x => x <=? v) l).
    assert (count (fun x => x <? v) l = 0) as ->; [|lia]. unfold count.
    by rewrite none_below.
  - intros Hi. destruct (IH i v Hi) as [H1 H2].
    pose proof (Hx v ltac:(by eapply list_elem_of_lookup_2)) as Hxv.
    rewrite (proj2 (Z.leb_le x v)) by done. destruct (x <? v); lia.
Qed.

Lemma percentile_nearest p l :
  StronglySorted Z.le l -> 0 < p <= 100 -> l <> [] ->
  exists v, percentile l p = Some v /\ nearest_rank p l v.
Proof.
  intros Hs Hp Hl. unfold percentile, div_ceil.
  set (len := Z.of_nat (length l)). assert (Hlen : 0 < len) by (destruct l; [done|unfold len; simpl; lia]).
  set (rank := Z.max ((len * p + 100 - 1) / 100) 1).
  assert (Hrank : 1 <= rank <= len /\ p * len <= 100 * rank /\ 100 * (rank - 1) < p * len).
  { unfold rank. pose proof (Z.div_mod (len * p + 100 - 1) 100 ltac:(done)).
    pose proof (Z.mod_pos_bound (len * p + 100 - 1) 100 ltac:(done)). nia. }
  destruct Hrank as (Hr & Hr1 & Hr2).
  replace (Z.min (rank - 1) (len - 1)) with (rank - 1) by lia.
  destruct (l !! Z.to_nat (rank - 1)) as [v|] eqn:E.
  2: { apply lookup_ge_None in E. lia. }
  exists v. split; [by destruct l|]. destruct (sorted_counts l Hs _ _ E) as [H1 H2].
  split; [by eapply list_elem_of_In, list_elem_of_lookup_2|]. fold len. lia.
Qed.

(** ** The window of observations *)

Record Observation := {
  o_now : Z; o_latency : Z; o_error : bool; o_bad : bool; o_failure : bool
}.
Definition record_all (obs : list Observation) : ForegroundMetricState :=
  fold_left (fun s o => record_health_at s (o_now o) (o_latency o) (o_error o) (o_bad o)
                          (o_failure o)) obs default_metric_state.

Lemma record_all_snoc obs o :
  record_all (obs ++ [o]) =
  record_health_at (record_all obs) (o_now o) (o_latency o) (o_error o) (o_bad o) (o_failure o).
Proof. unfold record_all. by rewrite fold_left_app. Qed.

Lemma record_all_window obs :
  latencies_ms (record_all obs) = drop (length obs - 128) (map o_latency obs).
Proof.
  induction obs as [|o obs IH] using rev_ind; [done|].
  rewrite record_all_snoc, map_app, length_app. cbn [latencies_ms record_health_at map length].
  rewrite IH. set (lat := map o_latency obs).
  assert (Hlat : length lat = length obs) by apply length_map.
  rewrite length_app, length_drop, Hlat. cbn [length]. unfold METRIC_WINDOW.
  destruct (Z.ltb_spec 128 (Z.of_nat (length obs - (length obs - 128) + 1))).
  - replace (length obs + 1 - 128)%nat with (S (length obs - 128)) by lia.
    rewrite <- drop_app_le by lia. generalize (lat ++ [o_latency o]). intros m.
    rewrite <- (Nat.add_1_r (length obs - 128)), <- drop_drop. by destruct (drop _ m).
  - replace (length obs + 1 - 128)%nat with 0%nat by lia.
    replace (length obs - 128)%nat with 0%nat by lia. done.
Qed.

(** The latencies a status shows are those of the last 128 foreground operations:
    their nearest-rank 50th and 95th percentiles and their maximum. *)
Theorem foreground_percentiles (obs : list Observation) (active : Z) (Hobs : obs <> []) :
  let window := drop (length obs - 128) (map o_latency obs) in
  let metrics := snapshot (record_all obs) active in
  exists p50 p95 high,
    fm_latency_p50_ms metrics = Some p50 /\ nearest_rank 50 window p50 /\
    fm_latency_p95_ms metrics = Some p95 /\ nearest_rank 95 window p95 /\
    fm_latency_max_ms metrics = Some high /\ In high window /\
    (forall x, In x window -> x <= high).
Proof.
  intros window metrics.
  assert (Hw : window <> []).
  { unfold window. intros Hn. apply (f_equal length) in Hn. rewrite length_drop, length_map in Hn.
    destruct obs; simpl in Hn; [done|lia]. }
  unfold metrics, snapshot. cbn [fm_latency_p50_ms fm_latency_p95_ms fm_latency_max_ms].
  rewrite record_all_window. fold window. set (sorted := merge_sort Z.le window).
  assert (Hperm : Permutation sorted window) by apply merge_sort_Permutation.
  assert (Hs : StronglySorted Z.le sorted).
  { apply StronglySorted_merge_sort; [intros ? ? ?; lia|intros x y; lia]. }
  assert (Hne : sorted <> []).
  { intros Hn. rewrite Hn in Hperm. by apply Permutation_nil_l in Hperm. }
  assert (Hrank : forall p v, nearest_rank p sorted v -> nearest_rank p window v).
  { intros p v (H1 & H2 & H3). unfold nearest_rank.
    rewrite <- !(count_perm _ _ _ Hperm), <- (Permutation_length Hperm).
    split; [by eapply Permutation_in|done]. }
  destruct (percentile_nearest 50 sorted Hs ltac:(lia) Hne) as (p50 & E50 & R50).
  destruct (percentile_nearest 95 sorted Hs ltac:(lia) Hne) as (p95 & E95 & R95).
  destruct (exists_last Hne) as (front & high & Efront).
  exists p50, p95, high. split; [done|]. split; [by apply Hrank|]. split; [done|].
  split; [by apply Hrank|]. rewrite Efront in *. split.
  { rewrite map_app. simpl. apply last_last. }
  assert (Hin : forall x, In x window <-> In x (front ++ [high])).
  { intros x. split; intros Hx; (eapply Permutation_in; [|exact Hx]); [by symmetry|done]. }
  split; [apply Hin, in_app_iff; right; by left|]. intros x Hx. apply Hin in Hx.
  apply in_app_iff in Hx as [Hx|[<-|[]]]; [|lia].
  apply StronglySorted_app in Hs as (Hle & _ & _). eapply Hle; [by apply list_elem_of_In|].
  by apply list_elem_of_singleton.
Qed.

(** *** Witnesses *)

Definition demo_settings : StatusSettings :=
  {| refresh_interval_seconds := 3600; schedule_jitter_seconds := 0 |}.
Definition demo_reads : StatusReads :=
  {| is_deleting := false; deletion_error := None; is_promoting := false; is_memory := false;
     enrollment_read := Ok (Some true); rows_read := Ok (status_rows demo_db "plc");
     persisted_retry := Ok (None, 0, false); runtime_state := None;
     foreground_snapshot := default_metrics; latest_host_metrics := default_host_metrics;
     storage := default_storage; sentinel_configured := false |}.
Definition demo_status : IndexStatus :=
  match status demo_settings (from_secs 7200) 0 "plc" demo_reads with
  | Ok s => s
  | Err _ => empty_status "" NotIndexed
  end.

Lemma active_check db server g :
  existsb (fun r => has_key server g r && is_state Active r) (generations db) = true ->
  exists r, In r (generations db) /\ g_key r = (server, g) /\ g_state r = Active.
Proof.
  intros (r & H1 & [H2 H3]%andb_true_iff)%existsb_exists. exists r.
  by rewrite has_key_iff in H2; rewrite is_state_iff in H3.
Qed.

