(* ===== verification/Build.v ===== *)
(** * The build of one generation (index/traversal.rs)

    [run_build] drains the inventory stream of a server into a staging generation
    and promotes, fails or discards it. The model follows it turn by turn: a turn
    of the loop commits what is due, waits until the build may go on, takes one
    event of the stream and handles it. What the surroundings answer is an input
    of the turn: clock readings, the outcome of waits, the event itself, and for
    every database write the writes other tasks commit before it and whether it
    fails as a whole. What the build does to the registries of the manager and to
    the inventory control is recorded as a list of effects in program order. *)
From S2P Require Import Prelude Text Schedule Controller Config Opc Store StoreWf Cleanup StoreSpec.
From S2P Require Import Status.

(** ** Effects *)

Inductive Effect :=
| SetPauseOverlay (maintenance health : option bool)       (* set_pause_overlay *)
| UpdateHealthState (health : HealthProbeState) (now : Z)  (* update_health_state *)
| UpdateRuntimeController (limits : InventoryLimits) (state : ControllerState)
    (recovery_deadline : option Z)                         (* update_runtime_controller *)
| UpdateRuntimeProgress (progress : InventoryProgress)     (* update_runtime_progress *)
| RecordCommitLatency (elapsed_ms now : Z)                 (* commit_pending_entries *)
| SetPacing (pacing : InventoryPacing) | PauseControl | ResumeControl | CancelControl
| MarkPromoting | ClearPromoting | ClearServerCache | ScheduleCleanup
| FinishBuild (error : option string)                      (* finish_build_for_control_owned *)
| FinishInterrupted (error : string).

(** ** Pacing *)

Definition pacing_for_limits (limits : InventoryLimits) : InventoryPacing :=
  {| min_interval := 0;
     pacing_item_rate_per_second :=
       then_some (0 <? item_rate_per_second limits) (item_rate_per_second limits);
     pacing_batch_size := Some (clamp 1 MAX_NATIVE_INVENTORY_BATCH_SIZE (batch_size limits)) |}.

(** [Duration::as_secs_f64] and binary64 arithmetic. *)
Definition f64_add : f64 -> f64 -> f64 := SFadd 53 1024.
Definition f64_sub : f64 -> f64 -> f64 := SFsub 53 1024.
Definition f64_mul : f64 -> f64 -> f64 := SFmul 53 1024.
Definition f64_div : f64 -> f64 -> f64 := SFdiv 53 1024.
Definition f64_min (a b : f64) : f64 := if f64_le a b then a else b.
Definition as_secs_f64 (d : Z) : f64 :=
  f64_add (f64_of_Z (d / nanos_per_sec))
    (f64_div (f64_of_Z (d mod nanos_per_sec)) (f64_of_Z nanos_per_sec)).

(** The token bucket of received entries. *)
Record ItemRateLimiter := {
  rate : f64;
  capacity : f64;
  tokens : f64;
  last_refill : Z
}.

Definition new_rate_limiter (rate burst_size now : Z) : ItemRateLimiter :=
  let capacity := f64_of_Z (Z.max burst_size 1) in
  {| rate := f64_of_Z rate; capacity := capacity; tokens := capacity; last_refill := now |}.

(** One pass of the loop of [acquire]: the refilled bucket, less a token when one is
    granted. *)
Definition refill (self : ItemRateLimiter) (now : Z) : ItemRateLimiter * bool :=
  let elapsed := as_secs_f64 (saturating_since now (last_refill self)) in
  let filled :=
    f64_min (f64_add (tokens self) (f64_mul elapsed (rate self))) (capacity self) in
  let granted := f64_ge filled (f64_of_Z 1) in
  ({| rate := rate self; capacity := capacity self;
      tokens := if granted then f64_sub filled (f64_of_Z 1) else filled;
      last_refill := now |}, granted).

(** A pass finds the control cancelled or not, reads the clock and waits; the wait
    ends with [false] when the control is cancelled. *)
Record WaitTurn := { turn_cancelled : bool; turn_now : Z; turn_wait : bool }.

(** [None]: still waiting after the given passes. *)
Fixpoint acquire_loop (self : ItemRateLimiter) (turns : list WaitTurn) :
    option (ItemRateLimiter * bool) :=
  match turns with
  | [] => None
  | t :: rest =>
      if turn_cancelled t then Some (self, false)
      else
        let '(self, granted) := refill self (turn_now t) in
        if granted then Some (self, true)
        else if turn_wait t then acquire_loop self rest
        else Some (self, false)
  end.

Definition acquire (self : ItemRateLimiter) (turns : list WaitTurn) :
    option (ItemRateLimiter * bool) :=
  if f64_le (rate self) (f64_of_Z 0)
  then match turns with [] => None | t :: _ => Some (self, negb (turn_cancelled t)) end
  else acquire_loop self turns.

(** ** Telemetry *)

Definition wrapping_add (w a b : Z) : Z := (a + b) mod 2 ^ w.
Definition COMMIT_LATENCY_SAMPLES : nat := Z.to_nat 256.

Record BuildTelemetry := mk_telemetry {
  slice_count : Z;
  slice_nodes : Z;
  slice_operations : Z;
  slice_elapsed : Z;
  slice_elapsed_max_ms : Z;
  slice_entries_delta : Z;
  slice_entries_delta_max : Z;
  slice_unique_items_delta : Z;
  da2_slices : Z;
  da3_slices : Z;
  last_slice_entries_seen : Z;
  last_slice_unique_items : Z;
  progress_events : Z;
  item_entries : Z;
  branch_and_item_entries : Z;
  commit_attempts : Z;
  commit_failures : Z;
  committed_entries : Z;
  commit_elapsed_ms : Z;
  commit_elapsed_max_ms : Z;
  commit_latency_samples_ms : list Z;
  terminal_event_ms : option Z
}.

Definition default_telemetry : BuildTelemetry :=
  mk_telemetry 0 0 0 0 0 0 0 0 0 0 0 0 0 0 0 0 0 0 0 0 [] None.

Definition elapsed_ms (started now : Z) : Z := truncate_max 64 (as_millis (saturating_since now started)).

Definition record_entry (self : BuildTelemetry) (kind : InventoryNodeKind) : BuildTelemetry :=
  let '(mk_telemetry a b c d e f g h i j k l m items both n o p q r s t) := self in
  match kind with
  | InventoryItem => mk_telemetry a b c d e f g h i j k l m (wrapping_add 64 items 1) both n o p q r s t
  | InventoryBranchAndItem =>
      mk_telemetry a b c d e f g h i j k l m items (wrapping_add 64 both 1) n o p q r s t
  end.

Definition record_progress (self : BuildTelemetry) : BuildTelemetry :=
  let '(mk_telemetry a b c d e f g h i j k l m items both n o p q r s t) := self in
  mk_telemetry a b c d e f g h i j k l (wrapping_add 64 m 1) items both n o p q r s t.

Definition record_slice (self : BuildTelemetry) (slice : InventorySliceObservation) :
    BuildTelemetry :=
  let entries_delta := saturating_sub (slice_entries_seen slice) (last_slice_entries_seen self) in
  let unique_items_delta :=
    saturating_sub (slice_unique_items slice) (last_slice_unique_items self) in
  {| slice_count := wrapping_add 64 (slice_count self) 1;
     slice_nodes := wrapping_add 64 (slice_nodes self) (slice_nodes_returned slice);
     slice_operations := wrapping_add 64 (slice_operations self) (slice_native_operations slice);
     slice_elapsed := wrapping_add 64 (slice_elapsed self) (slice_elapsed_ms slice);
     slice_elapsed_max_ms := Z.max (slice_elapsed_max_ms self) (slice_elapsed_ms slice);
     slice_entries_delta := wrapping_add 64 (slice_entries_delta self) entries_delta;
     slice_entries_delta_max := Z.max (slice_entries_delta_max self) entries_delta;
     slice_unique_items_delta :=
       wrapping_add 64 (slice_unique_items_delta self) unique_items_delta;
     da2_slices :=
       match slice_backend slice with
       | SliceDa2 => wrapping_add 64 (da2_slices self) 1
       | SliceDa3 => da2_slices self
       end;
     da3_slices :=
       match slice_backend slice with
       | SliceDa2 => da3_slices self
       | SliceDa3 => wrapping_add 64 (da3_slices self) 1
       end;
     last_slice_entries_seen := slice_entries_seen slice;
     last_slice_unique_items := slice_unique_items slice;
     progress_events := progress_events self;
     item_entries := item_entries self;
     branch_and_item_entries := branch_and_item_entries self;
     commit_attempts := commit_attempts self;
     commit_failures := commit_failures self;
     committed_entries := committed_entries self;
     commit_elapsed_ms := commit_elapsed_ms self;
     commit_elapsed_max_ms := commit_elapsed_max_ms self;
     commit_latency_samples_ms := commit_latency_samples_ms self;
     terminal_event_ms := terminal_event_ms self |}.

Definition record_commit (self : BuildTelemetry) (inserted elapsed_ms : Z) (failed : bool) :
    BuildTelemetry :=
  let '(mk_telemetry a b c d e f g h i j k l m items both n o p q r s t) := self in
  mk_telemetry a b c d e f g h i j k l m items both
    (wrapping_add 64 n 1)
    (wrapping_add 64 o (u64_from failed))
    (wrapping_add 64 p inserted)
    (saturating_add 64 q elapsed_ms)
    (Z.max r elapsed_ms)
    ((if bool_decide (length s = COMMIT_LATENCY_SAMPLES) then tail s else s) ++ [elapsed_ms])
    t.

Definition commit_latency_percentile (self : BuildTelemetry) (percentile_value : Z) : option Z :=
  percentile (merge_sort Z.le (commit_latency_samples_ms self)) percentile_value.

Definition record_terminal_event (self : BuildTelemetry) (elapsed_ms : Z) : BuildTelemetry :=
  let '(mk_telemetry a b c d e f g h i j k l m items both n o p q r s _) := self in
  mk_telemetry a b c d e f g h i j k l m items both n o p q r s (Some elapsed_ms).

(** ** The state of a running build *)

Record BuildRunState := {
  pending : list InventoryEntry;
  last_progress : InventoryProgress;
  telemetry : BuildTelemetry;
  completed : bool;
  cancelled : bool;
  failed : option string;
  completion_warning : option string;
  completion_profile : option (NamespaceOrganization * BrowseSource);
  terminal : bool;
  accounted_active_time_ms : Z;
  persisted_item_count : Z;
  drained_event_count : Z;
  received_entry_count : Z;
  rate_limiter : ItemRateLimiter;
  controller : option Adaptive.AdaptiveIndexController;
  effective_duty_cycle_percent : Z;
  last_commit_at : Z;
  next_health_probe : Z;
  health_backoff : Z
}.

Definition zero_inventory_progress : InventoryProgress :=
  {| branches_visited := 0; entries_seen := 0; unique_items := 0; active_time_ms := 0;
     paused_time_ms := 0; items_per_second := f64_of_Z 0; estimated_remaining_ms := None |}.

Definition new_run_state (settings : ResolvedIndexConfig)
    (controller : option Adaptive.AdaptiveIndexController) (now : Z) : BuildRunState :=
  {| pending := [];
     last_progress := zero_inventory_progress;
     telemetry := default_telemetry;
     completed := false;
     cancelled := false;
     failed := None;
     completion_warning := None;
     completion_profile := None;
     terminal := false;
     accounted_active_time_ms := 0;
     persisted_item_count := 0;
     drained_event_count := 0;
     received_entry_count := 0;
     rate_limiter := new_rate_limiter (cfg_item_rate_limit settings) (cfg_burst_size settings) now;
     controller := controller;
     effective_duty_cycle_percent := cfg_duty_cycle_percent settings;
     last_commit_at := now;
     next_health_probe := now;
     health_backoff := from_secs 1 |}.

Definition with_pending (s : BuildRunState) (pending' : list InventoryEntry)
    (telemetry' : BuildTelemetry) : BuildRunState :=
  {| pending := pending'; last_progress := last_progress s; telemetry := telemetry';
     completed := completed s; cancelled := cancelled s; failed := failed s;
     completion_warning := completion_warning s; completion_profile := completion_profile s;
     terminal := terminal s; accounted_active_time_ms := accounted_active_time_ms s;
     persisted_item_count := persisted_item_count s;
     drained_event_count := drained_event_count s;
     received_entry_count := received_entry_count s; rate_limiter := rate_limiter s;
     controller := controller s; effective_duty_cycle_percent := effective_duty_cycle_percent s;
     last_commit_at := last_commit_at s; next_health_probe := next_health_probe s;
     health_backoff := health_backoff s |}.

Definition with_persisted (s : BuildRunState) (inserted : Z) (last_commit_at' : Z) :
    BuildRunState :=
  {| pending := pending s; last_progress := last_progress s; telemetry := telemetry s;
     completed := completed s; cancelled := cancelled s; failed := failed s;
     completion_warning := completion_warning s; completion_profile := completion_profile s;
     terminal := terminal s; accounted_active_time_ms := accounted_active_time_ms s;
     persisted_item_count := saturating_add 64 (persisted_item_count s) inserted;
     drained_event_count := drained_event_count s;
     received_entry_count := received_entry_count s; rate_limiter := rate_limiter s;
     controller := controller s; effective_duty_cycle_percent := effective_duty_cycle_percent s;
     last_commit_at := last_commit_at'; next_health_probe := next_health_probe s;
     health_backoff := health_backoff s |}.

(** [drained_event_count], [received_entry_count], the telemetry and the token bucket. *)
Definition with_received (s : BuildRunState) (drained received : Z) (telemetry' : BuildTelemetry)
    (limiter : ItemRateLimiter) : BuildRunState :=
  {| pending := pending s; last_progress := last_progress s; telemetry := telemetry';
     completed := completed s; cancelled := cancelled s; failed := failed s;
     completion_warning := completion_warning s; completion_profile := completion_profile s;
     terminal := terminal s; accounted_active_time_ms := accounted_active_time_ms s;
     persisted_item_count := persisted_item_count s; drained_event_count := drained;
     received_entry_count := received; rate_limiter := limiter;
     controller := controller s; effective_duty_cycle_percent := effective_duty_cycle_percent s;
     last_commit_at := last_commit_at s; next_health_probe := next_health_probe s;
     health_backoff := health_backoff s |}.

Definition with_progress (s : BuildRunState) (progress : InventoryProgress) : BuildRunState :=
  {| pending := pending s; last_progress := progress; telemetry := telemetry s;
     completed := completed s; cancelled := cancelled s; failed := failed s;
     completion_warning := completion_warning s; completion_profile := completion_profile s;
     terminal := terminal s; accounted_active_time_ms := active_time_ms progress;
     persisted_item_count := persisted_item_count s;
     drained_event_count := drained_event_count s;
     received_entry_count := received_entry_count s; rate_limiter := rate_limiter s;
     controller := controller s; effective_duty_cycle_percent := effective_duty_cycle_percent s;
     last_commit_at := last_commit_at s; next_health_probe := next_health_probe s;
     health_backoff := health_backoff s |}.

Definition with_control (s : BuildRunState)
    (controller' : option Adaptive.AdaptiveIndexController) (duty : Z)
    (next_probe backoff : Z) : BuildRunState :=
  {| pending := pending s; last_progress := last_progress s; telemetry := telemetry s;
     completed := completed s; cancelled := cancelled s; failed := failed s;
     completion_warning := completion_warning s; completion_profile := completion_profile s;
     terminal := terminal s; accounted_active_time_ms := accounted_active_time_ms s;
     persisted_item_count := persisted_item_count s;
     drained_event_count := drained_event_count s;
     received_entry_count := received_entry_count s; rate_limiter := rate_limiter s;
     controller := controller'; effective_duty_cycle_percent := duty;
     last_commit_at := last_commit_at s; next_health_probe := next_probe;
     health_backoff := backoff |}.

Definition with_outcome (s : BuildRunState) (cancelled' : bool) (failed' : option string) :
    BuildRunState :=
  {| pending := pending s; last_progress := last_progress s; telemetry := telemetry s;
     completed := completed s; cancelled := cancelled'; failed := failed';
     completion_warning := completion_warning s; completion_profile := completion_profile s;
     terminal := terminal s; accounted_active_time_ms := accounted_active_time_ms s;
     persisted_item_count := persisted_item_count s;
     drained_event_count := drained_event_count s;
     received_entry_count := received_entry_count s; rate_limiter := rate_limiter s;
     controller := controller s; effective_duty_cycle_percent := effective_duty_cycle_percent s;
     last_commit_at := last_commit_at s; next_health_probe := next_health_probe s;
     health_backoff := health_backoff s |}.

Definition record_completion (s : BuildRunState) (result : InventoryCompleted) (elapsed_ms : Z) :
    BuildRunState :=
  {| pending := pending s; last_progress := last_progress s;
     telemetry := record_terminal_event (telemetry s) elapsed_ms;
     completed := completed_complete result;
     cancelled := completed_cancelled result;
     failed :=
       if completed_truncated result
       then Some (unwrap_or "inventory was truncated" (completed_warning result))
       else failed s;
     completion_warning :=
       if completed_truncated result then completion_warning s else completed_warning result;
     completion_profile := Some (completed_organization result, completed_source result);
     terminal := true;
     accounted_active_time_ms := accounted_active_time_ms s;
     persisted_item_count := persisted_item_count s;
     drained_event_count := drained_event_count s;
     received_entry_count := received_entry_count s; rate_limiter := rate_limiter s;
     controller := controller s; effective_duty_cycle_percent := effective_duty_cycle_percent s;
     last_commit_at := last_commit_at s; next_health_probe := next_health_probe s;
     health_backoff := health_backoff s |}.

Record TerminalBuildCounts := {
  last_progress_entries_seen : Z;
  last_progress_unique_items : Z;
  persisted_items : Z;
  drained_events : Z;
  received_entry_events : Z;
  pending_entries : Z;
  pending_unique_items : Z
}.

Definition terminal_counts (s : BuildRunState) : TerminalBuildCounts :=
  {| last_progress_entries_seen := entries_seen (last_progress s);
     last_progress_unique_items := unique_items (last_progress s);
     persisted_items := persisted_item_count s;
     drained_events := drained_event_count s;
     received_entry_events := received_entry_count s;
     pending_entries := Z.of_nat (length (pending s));
     pending_unique_items :=
       Z.of_nat (size (list_to_set (C := gset ustr) (entry_item_id <$> pending s))) |}.

(** ** Waiting until the build may go on *)

Section Readiness.
Context (settings : ResolvedIndexConfig).

(** [wait_for_maintenance]: readings of the local clock, each with the outcome of the
    one-second wait that follows it outside every window. *)
Fixpoint wait_for_maintenance (windows : list MaintenanceWindow)
    (readings : list (Z * Z * bool)) : option (list Effect * bool) :=
  match readings with
  | [] => None
  | (hour, minute, waited) :: rest =>
      let outside_window :=
        negb (bool_decide (length windows = 0%nat))
        && negb (maintenance_window_active windows hour minute) in
      let overlay := SetPauseOverlay (Some outside_window) None in
      if outside_window then
        if waited then
          '(effects, ok) ← wait_for_maintenance windows rest; Some (overlay :: effects, ok)
        else Some ([overlay], false)
      else Some ([overlay], true)
  end.

Record HealthProbeObservation := {
  probe_healthy : bool;
  failure_reason : string;
  probe_sentinel_configured : bool
}.
Record HealthSentinelObservation := {
  sentinel_healthy : bool;
  sentinel_failure_reason : option string
}.
Inductive HealthProbeAction := ProbeReady | ProbeWait (delay : Z) | Probe.

(** [qualities]: those of the values read for the sentinel tag. *)
Definition read_health_sentinel (qualities : result (list string) string) :
    option HealthSentinelObservation :=
  _ ← cfg_sentinel_tag settings;
  Some match qualities with
       | Ok [quality] =>
           let healthy := bool_decide (to_ascii_lowercase quality = "good") in
           {| sentinel_healthy := healthy;
              sentinel_failure_reason := then_some (negb healthy) "sentinel quality is not Good" |}
       | Ok _ =>
           {| sentinel_healthy := false;
              sentinel_failure_reason := Some "sentinel read returned no value" |}
       | Err error => {| sentinel_healthy := false; sentinel_failure_reason := Some error |}
       end.

Definition probe_health (capability : result unit string) (elapsed : Z)
    (qualities : result (list string) string) : HealthProbeObservation :=
  let sentinel := read_health_sentinel qualities in
  let healthy :=
    is_ok capability && (elapsed <=? from_millis (cfg_health_latency_threshold_ms settings))
    && is_none_or sentinel_healthy sentinel in
  let unhealthy_sentinel :=
    s ← sentinel; then_some (negb (sentinel_healthy s)) s in
  {| probe_healthy := healthy;
     failure_reason :=
       match capability, unhealthy_sentinel with
       | Err error, _ => String.append "health probe failed: " error
       | Ok _, Some s => unwrap_or "sentinel read was unhealthy" (sentinel_failure_reason s)
       | Ok _, None => "health probe exceeded"
       end;
     probe_sentinel_configured := is_some (cfg_sentinel_tag settings) |}.

Definition health_state (observation : HealthProbeObservation) : HealthProbeState :=
  if probe_sentinel_configured observation
  then if probe_healthy observation then Healthy else Unhealthy
  else Unavailable.

(** [checked] is [sentinel_checked_at] of the server's run-time state. *)
Definition sentinel_probe_due (checked : option Z) (now : Z) : bool :=
  is_some (cfg_sentinel_tag settings)
  && is_none_or
       (fun checked =>
          from_secs (cfg_sentinel_probe_interval_seconds settings) <=? saturating_since now checked)
       checked.

Definition health_probe_action (checked : option Z) (health_overlay : bool)
    (next_probe now : Z) : HealthProbeAction :=
  if (next_probe <=? now) || sentinel_probe_due checked now then Probe
  else if health_overlay then ProbeWait (saturating_since next_probe now)
  else ProbeReady.

Definition next_health_backoff (backoff : Z) : Z :=
  Z.min (unwrap_or (from_secs 300) (duration_checked_mul backoff 2)) (from_secs 300).

(** A pass of [wait_for_health]: what it reads, what the probe finds and how long it
    takes, and the outcome of the wait it may end with. *)
Record HealthTurn := {
  ht_cancelled : bool;
  ht_now : Z;
  ht_checked : option Z;
  ht_overlay : bool;
  ht_capability : result unit string;
  ht_elapsed : Z;
  ht_qualities : result (list string) string;
  ht_probed : Z;
  ht_wait : bool
}.

Fixpoint wait_for_health (next_probe backoff : Z) (turns : list HealthTurn) :
    option (list Effect * Z * Z * bool) :=
  match turns with
  | [] => None
  | t :: rest =>
      let stop := SetPauseOverlay None (Some false) in
      if ht_cancelled t then Some ([stop], next_probe, backoff, false)
      else
        match health_probe_action (ht_checked t) (ht_overlay t) next_probe (ht_now t) with
        | ProbeReady => Some ([], next_probe, backoff, true)
        | ProbeWait delay =>
            if ht_wait t then wait_for_health next_probe backoff rest
            else Some ([stop], next_probe, backoff, false)
        | Probe =>
            let observation := probe_health (ht_capability t) (ht_elapsed t) (ht_qualities t) in
            let probed :=
              [SetPauseOverlay None (Some true);
               UpdateHealthState (health_state observation) (ht_probed t)] in
            if probe_healthy observation then
              Some (probed ++ [stop],
                    ht_probed t + from_secs (Z.max (cfg_health_probe_interval_seconds settings) 1),
                    from_secs 1, true)
            else
              let delay := Z.min backoff (from_secs 300) in
              let backoff := next_health_backoff backoff in
              let next_probe := ht_probed t + delay in
              if ht_wait t then
                '(effects, next_probe, backoff, ok) ← wait_for_health next_probe backoff rest;
                Some (probed ++ effects, next_probe, backoff, ok)
              else Some (probed ++ [stop], next_probe, backoff, false)
        end
  end.

(** A pass of [wait_for_controller_recovery]; [rt_pacing] is the answer of the control
    to the new pacing. *)
Record RecoveryTurn := {
  rt_cancelled : bool;
  rt_wait : bool;
  rt_now : Z;
  rt_observation : Adaptive.ControllerObservation;
  rt_pacing : result unit string
}.

Definition controller_effects (d : Adaptive.ControllerDecision) : list Effect :=
  [UpdateRuntimeController (Adaptive.decision_limits d) (Adaptive.decision_state d)
     (Adaptive.decision_recovery_at d);
   SetPacing (pacing_for_limits (Adaptive.decision_limits d))].

Fixpoint wait_for_controller_recovery (controller : Adaptive.AdaptiveIndexController)
    (turns : list RecoveryTurn) :
    option (list Effect * Adaptive.AdaptiveIndexController * result bool string) :=
  if negb (is_paused (Adaptive.state controller)) then Some ([], controller, Ok true)
  else
    match turns with
    | [] => None
    | t :: rest =>
        if rt_cancelled t then Some ([], controller, Ok false)
        else if negb (rt_wait t) then Some ([], controller, Ok false)
        else
          let '(controller, decision) :=
            Adaptive.observe controller (rt_now t) (rt_observation t) in
          match rt_pacing t with
          | Err error =>
              Some (controller_effects decision, controller,
                    Err (String.append "unable to update inventory pacing while recovering: "
                           error))
          | Ok _ =>
              '(effects, controller, result) ← wait_for_controller_recovery controller rest;
              Some (controller_effects decision ++ effects, controller, result)
          end
    end.

Inductive BuildReadiness := ReadyToBuild | ReadyCancelled | ReadyFailed (error : string).

Record ReadyTurns := {
  maintenance_turns : list (Z * Z * bool);
  health_turns : list HealthTurn;
  recovery_turns : list RecoveryTurn
}.

Definition wait_for_build_readiness (windows : list MaintenanceWindow) (state : BuildRunState)
    (turns : ReadyTurns) : option (BuildRunState * list Effect * BuildReadiness) :=
  '(maintenance, ok) ← wait_for_maintenance windows (maintenance_turns turns);
  if negb ok then Some (state, maintenance, ReadyCancelled)
  else
    '(health, next_probe, backoff, ok) ←
      wait_for_health (next_health_probe state) (health_backoff state) (health_turns turns);
    let state' :=
      with_control state (controller state) (effective_duty_cycle_percent state)
        next_probe backoff in
    if negb ok then Some (state', maintenance ++ health, ReadyCancelled)
    else
      match controller state with
      | None => Some (state', maintenance ++ health, ReadyToBuild)
      | Some controller =>
          '(recovery, controller, result) ←
            wait_for_controller_recovery controller (recovery_turns turns);
          let state' :=
            with_control state (Some controller) (effective_duty_cycle_percent state)
              next_probe backoff in
          let effects := maintenance ++ health ++ recovery in
          match result with
          | Ok true => Some (state', effects, ReadyToBuild)
          | Ok false => Some (state', effects, ReadyCancelled)
          | Err error => Some (state', effects ++ [CancelControl], ReadyFailed error)
          end
      end.

End Readiness.

(** ** The loop *)

Section Loop.
Context `{TextLibrary}.
Context (settings : ResolvedIndexConfig) (server : string) (generation : Z).

(** A database write: the operations other tasks commit before it, and the error of a
    write that fails as a whole (a lock timeout, a full disk). *)
Record WriteEnv := { others : list db_op; io_error : option string }.

Definition with_database_write {A} (env : WriteEnv)
    (operation : IndexDb -> IndexDb * result A string) (db : IndexDb) :
    IndexDb * result A string :=
  let db := fold_left db_exec (others env) db in
  match io_error env with
  | Some error => (db, Err error)
  | None => operation db
  end.

Record CommitEnv := { commit_write : WriteEnv; commit_started : Z; commit_now : Z }.

Definition commit_pending_entries (env : CommitEnv) (db : IndexDb)
    (pending : list InventoryEntry) :
    IndexDb * list InventoryEntry * list Effect * result Z string :=
  match pending with
  | [] => (db, [], [], Ok 0)
  | _ =>
      let '(db, result) :=
        with_database_write (commit_write env)
          (fun db => insert_entries db server generation pending) db in
      (db, if is_ok result then [] else pending,
       [RecordCommitLatency (elapsed_ms (commit_started env) (commit_now env)) (commit_now env)],
       result)
  end.

Definition commit_pending_entries_with_telemetry (env : CommitEnv) (db : IndexDb)
    (state : BuildRunState) : IndexDb * BuildRunState * list Effect * result Z string :=
  let '(db, pending', effects, result) := commit_pending_entries env db (pending state) in
  let inserted := match result with Ok n => n | Err _ => 0 end in
  (db,
   with_pending state pending'
     (record_commit (telemetry state) inserted
        (elapsed_ms (commit_started env) (commit_now env)) (negb (is_ok result))),
   effects, result).

(** [Err] ends the loop with that failure. *)
Definition commit_pending_if_due (now : Z) (env : CommitEnv) (db : IndexDb)
    (state : BuildRunState) : IndexDb * BuildRunState * list Effect * result unit string :=
  if bool_decide (pending state = [])
     || (saturating_since now (last_commit_at state)
           <? from_millis (Z.max (cfg_commit_interval_ms settings) 1))
  then (db, state, [], Ok tt)
  else
    let '(db, state, effects, result) := commit_pending_entries_with_telemetry env db state in
    match result with
    | Ok inserted => (db, with_persisted state inserted (commit_now env), effects, Ok tt)
    | Err error => (db, state, effects, Err error)
    end.

Inductive BuildEventOutcome := EventContinue | EventStop | EventCancelled | EventFailed (error : string).

(** The answers the handling of one event needs. *)
Record EventEnv := {
  acquire_turns : list WaitTurn;
  event_commit : CommitEnv;
  progress_write : WriteEnv;
  can_pause : bool;                    (* build_can_resume before the duty-cycle wait *)
  still_running : bool;                (* the duty-cycle wait *)
  can_resume : bool;                   (* build_can_resume after it *)
  control_cancelled : bool;
  slice_now : Z;
  slice_observation : Adaptive.ControllerObservation;
  slice_pacing : result unit string;
  elapsed_since_start : Z
}.

Definition handle_entry_event (env : EventEnv) (db : IndexDb) (state : BuildRunState)
    (entry : InventoryEntry) :
    option (IndexDb * BuildRunState * list Effect * BuildEventOutcome) :=
  '(limiter, granted) ← acquire (rate_limiter state) (acquire_turns env);
  let state :=
    with_received state (drained_event_count state) (received_entry_count state)
      (telemetry state) limiter in
  if negb granted then Some (db, state, [], EventCancelled)
  else
    let state := with_pending state (pending state ++ [entry]) (telemetry state) in
    if Z.of_nat (length (pending state)) <? cfg_commit_batch_size settings
    then Some (db, state, [], EventContinue)
    else
      let '(db, state, effects, result) :=
        commit_pending_entries_with_telemetry (event_commit env) db state in
      match result with
      | Ok inserted =>
          Some (db, with_persisted state inserted (commit_now (event_commit env)), effects,
                EventContinue)
      | Err error => Some (db, state, effects, EventFailed error)
      end.

(** The length of the wait is not modelled, its outcome is. *)
Definition enforce_duty_cycle (env : EventEnv) (duty_cycle_percent : Z) : list Effect * bool :=
  if 100 <=? clamp 1 100 duty_cycle_percent then ([], negb (control_cancelled env))
  else
    ((if can_pause env then [PauseControl] else [])
     ++ (if can_pause env && still_running env && can_resume env then [ResumeControl] else []),
     still_running env).

Definition handle_progress_event (env : EventEnv) (db : IndexDb) (state : BuildRunState)
    (progress : InventoryProgress) : IndexDb * BuildRunState * list Effect * BuildEventOutcome :=
  let active_time_delta_ms :=
    saturating_sub (active_time_ms progress) (accounted_active_time_ms state) in
  let state := with_progress state progress in
  let '(db, result) :=
    with_database_write (progress_write env)
      (fun db => update_progress db server generation progress) db in
  match result with
  | Err error => (db, state, [], EventFailed error)
  | Ok _ =>
      if 0 <? active_time_delta_ms then
        let '(effects, running) := enforce_duty_cycle env (effective_duty_cycle_percent state) in
        (db, state, UpdateRuntimeProgress progress :: effects,
         if running then EventContinue else EventCancelled)
      else (db, state, [UpdateRuntimeProgress progress], EventContinue)
  end.

Definition handle_slice_event (env : EventEnv) (db : IndexDb) (state : BuildRunState)
    (slice : InventorySliceObservation) :
    IndexDb * BuildRunState * list Effect * BuildEventOutcome :=
  let state :=
    with_received state (drained_event_count state) (received_entry_count state)
      (record_slice (telemetry state) slice) (rate_limiter state) in
  match controller state with
  | None => (db, state, [], EventContinue)
  | Some controller =>
      let '(controller, decision) :=
        Adaptive.observe controller (slice_now env) (slice_observation env) in
      let state :=
        with_control state (Some controller)
          (duty_cycle_percent (Adaptive.decision_limits decision))
          (next_health_probe state) (health_backoff state) in
      match slice_pacing env with
      | Ok _ => (db, state, controller_effects decision, EventContinue)
      | Err error =>
          (db, state, controller_effects decision ++ [CancelControl],
           EventFailed
             (String.append "unable to update adaptive inventory pacing after slice: " error))
      end
  end.

Definition handle_inventory_event (env : EventEnv) (db : IndexDb) (state : BuildRunState)
    (event : result InventoryEvent string) :
    option (IndexDb * BuildRunState * list Effect * BuildEventOutcome) :=
  match event with
  | Ok (Entry entry) =>
      let state :=
        with_received state (drained_event_count state)
          (saturating_add 64 (received_entry_count state) 1)
          (record_entry (telemetry state) (entry_kind entry)) (rate_limiter state) in
      handle_entry_event env db state entry
  | Ok (Progress progress) =>
      let state :=
        with_received state (drained_event_count state) (received_entry_count state)
          (record_progress (telemetry state)) (rate_limiter state) in
      Some (handle_progress_event env db state progress)
  | Ok (Slice slice) => Some (handle_slice_event env db state slice)
  | Ok (Completed result) =>
      Some (db, record_completion state result (elapsed_since_start env), [], EventStop)
  | Err error => Some (db, state, [], EventFailed error)
  end.

(** What the stream answers within the operation timeout. *)
Inductive StreamAnswer :=
| TimedOut
| StreamEnded
| StreamEvent (event : result InventoryEvent string).

Record LoopTurn := {
  lt_now : Z;
  lt_commit : CommitEnv;
  lt_ready : ReadyTurns;
  lt_answer : StreamAnswer;
  lt_event : EventEnv
}.

(** One turn: the state after it and whether the loop goes on; [None] while a wait of
    the turn has not ended. *)
Definition loop_turn (windows : list MaintenanceWindow) (turn : LoopTurn) (db : IndexDb)
    (state : BuildRunState) : option (IndexDb * BuildRunState * list Effect * bool) :=
  let '(db, state, effects, due) := commit_pending_if_due (lt_now turn) (lt_commit turn) db state in
  match due with
  | Err error => Some (db, with_outcome state (cancelled state) (Some error), effects, false)
  | Ok _ =>
      '(state, ready_effects, readiness) ←
        wait_for_build_readiness settings windows state (lt_ready turn);
      let effects := effects ++ ready_effects in
      match readiness with
      | ReadyCancelled => Some (db, with_outcome state true (failed state), effects, false)
      | ReadyFailed error =>
          Some (db, with_outcome state (cancelled state) (Some error), effects, false)
      | ReadyToBuild =>
          match lt_answer turn with
          | TimedOut =>
              Some (db, with_outcome state (cancelled state)
                          (Some "inventory event timed out"), effects ++ [CancelControl], false)
          | StreamEnded => Some (db, state, effects, false)
          | StreamEvent event =>
              let state :=
                with_received state (saturating_add 64 (drained_event_count state) 1)
                  (received_entry_count state) (telemetry state) (rate_limiter state) in
              '(db, state, event_effects, outcome) ←
                handle_inventory_event (lt_event turn) db state event;
              let effects := effects ++ event_effects in
              match outcome with
              | EventContinue => Some (db, state, effects, true)
              | EventStop => Some (db, state, effects, false)
              | EventCancelled => Some (db, with_outcome state true (failed state), effects, false)
              | EventFailed error =>
                  Some (db, with_outcome state (cancelled state) (Some error), effects, false)
              end
          end
      end
  end.

(** [None]: the loop is still running after the given turns. *)
Fixpoint run_turns (windows : list MaintenanceWindow) (turns : list LoopTurn) (db : IndexDb)
    (state : BuildRunState) : option (IndexDb * BuildRunState * list Effect) :=
  match turns with
  | [] => None
  | turn :: rest =>
      '(db, state, effects, continue) ← loop_turn windows turn db state;
      if (continue : bool) then
        '(db, state, more) ← run_turns windows rest db state;
        Some (db, state, effects ++ more)
      else Some (db, state, effects)
  end.

Inductive BuildLoopOutcome := Finished | InterruptedByShutdown | LoopFailed (error : string).

(** What the end of [run_build_loop] reads: the shutdown flag, whether an operator
    cancelled this build, how the stream shuts down, and the last commit. *)
Record LoopEnd := {
  gateway_shutting_down : bool;
  operator_cancelled_build : result bool string;
  stream_shutdown : result unit string;
  last_commit : CommitEnv
}.

(** After the loop: an end of the stream without a completion is a cancellation, a
    shutdown or a failure. The flag is [interrupted_by_shutdown]. *)
Definition settle_build_loop (e : LoopEnd) (state : BuildRunState) : bool * BuildRunState :=
  let unsettled := fun state => negb (terminal state) && negb (is_some (failed state)) in
  let '(operator_cancelled, state) :=
    if unsettled state then
      match operator_cancelled_build e with
      | Ok cancelled => (cancelled, state)
      | Err error =>
          (false,
           with_outcome state (cancelled state)
             (Some (String.append "unable to classify inventory stream termination: " error)))
      end
    else (false, state) in
  let state :=
    match stream_shutdown e with
    | Ok _ => state
    | Err error =>
        if is_some (failed state) then state
        else with_outcome state (cancelled state)
               (Some (String.append "inventory worker shutdown failed: " error))
    end in
  if unsettled state then
    if operator_cancelled then (false, with_outcome state true (failed state))
    else if gateway_shutting_down e then (true, state)
    else
      (false,
       with_outcome state (cancelled state)
         (Some "inventory stream ended unexpectedly before completion"))
  else (false, state).

Definition end_build_loop (e : LoopEnd) (db : IndexDb) (state : BuildRunState) :
    IndexDb * BuildRunState * list Effect * BuildLoopOutcome :=
  let '(interrupted_by_shutdown, state) := settle_build_loop e state in
  let '(db, state, effects) :=
    if negb (bool_decide (pending state = [])) && negb (is_some (failed state))
       && negb (cancelled state) && negb interrupted_by_shutdown
    then
      let '(db, state, effects, result) :=
        commit_pending_entries_with_telemetry (last_commit e) db state in
      match result with
      | Ok inserted => (db, with_persisted state inserted (last_commit_at state), effects)
      | Err error => (db, with_outcome state (cancelled state) (Some error), effects)
      end
    else (db, state, []) in
  if interrupted_by_shutdown then (db, state, effects, InterruptedByShutdown)
  else
    match failed state with
    | Some error => (db, with_outcome state (cancelled state) None, effects, LoopFailed error)
    | None => (db, state, effects, Finished)
    end.

Definition run_build_loop (windows : list MaintenanceWindow) (turns : list LoopTurn)
    (e : LoopEnd) (db : IndexDb) (state : BuildRunState) :
    option (IndexDb * BuildRunState * list Effect * BuildLoopOutcome) :=
  '(db, state, effects) ← run_turns windows turns db state;
  let '(db, state, more, outcome) := end_build_loop e db state in
  Some (db, state, effects ++ more, outcome).

(** ** The end of a build *)

Definition fail_generation_and_schedule_cleanup (env : WriteEnv) (error : string) (db : IndexDb) :
    IndexDb * list Effect :=
  let '(db, result) :=
    with_database_write env (fun db => fail_generation db server generation error) db in
  (db, if is_ok result then [ScheduleCleanup] else []).

Definition abandon_generation (discard fail : WriteEnv) (reason : string) (db : IndexDb) :
    IndexDb * list Effect :=
  let '(db, result) :=
    with_database_write discard (fun db => discard_empty_generation db server generation) db in
  match result with
  | Ok true => (db, [])
  | Ok false => fail_generation_and_schedule_cleanup fail reason db
  | Err _ => (db, [])
  end.

Definition build_interrupted : string := "namespace index build interrupted by gateway shutdown".

(** The writes of the finalization and the clock of the promotion. *)
Record FinalEnv := { first_write : WriteEnv; second_write : WriteEnv; final_now : Z }.

Definition promote_completed_build (env : FinalEnv) (db : IndexDb) (state : BuildRunState) :
    IndexDb * list Effect * result unit string :=
  let '(db, result) :=
    with_database_write (first_write env)
      (fun db =>
         promote_with_profile db server generation (timestamp_now (final_now env))
           (persisted_item_count state) (completion_profile state) (completion_warning state)) db in
  (db, [MarkPromoting; ClearPromoting], result).

Definition finish_completed_build (env : FinalEnv) (db : IndexDb) (state : BuildRunState) :
    IndexDb * list Effect :=
  let '(db, effects, result) := promote_completed_build env db state in
  match result with
  | Ok _ => (db, effects ++ [ScheduleCleanup; ClearServerCache; FinishBuild None])
  | Err error =>
      let '(db, failing) := fail_generation_and_schedule_cleanup (second_write env) error db in
      (db, effects ++ failing ++ [FinishBuild (Some error)])
  end.

Definition finalize_build (env : FinalEnv) (control_was_cancelled_before_cleanup : bool)
    (db : IndexDb) (state : BuildRunState) (outcome : BuildLoopOutcome) :
    IndexDb * list Effect :=
  let completed :=
    completed state && negb (cancelled state) && negb control_was_cancelled_before_cleanup in
  match outcome with
  | LoopFailed error =>
      let '(db, effects) := fail_generation_and_schedule_cleanup (first_write env) error db in
      (db, effects ++ [FinishBuild (Some error)])
  | InterruptedByShutdown =>
      let '(db, effects) :=
        fail_generation_and_schedule_cleanup (first_write env) build_interrupted db in
      (db, effects ++ [FinishInterrupted build_interrupted])
  | Finished =>
      if completed then finish_completed_build env db state
      else
        let '(db, effects) :=
          abandon_generation (first_write env) (second_write env)
            "namespace index build cancelled" db in
        (db, effects ++ [FinishBuild None])
  end.

(** The drop of the finalization guard when the build task unwinds. *)
Definition finalization_guard_drop (env : WriteEnv) (armed : bool) (db : IndexDb) :
    IndexDb * list Effect :=
  if armed then
    let unwound := "namespace index build unwound unexpectedly" in
    let '(db, effects) := fail_generation_and_schedule_cleanup env unwound db in
    (db, CancelControl :: effects ++ [FinishBuild (Some unwound)])
  else (db, []).

(** The inputs of one build. *)
Record BuildRun := {
  build_started : Z;
  run_turns_of : list LoopTurn;
  run_end : LoopEnd;
  control_was_cancelled : bool;
  run_final : FinalEnv
}.

Definition run_build (run : BuildRun) (db : IndexDb) : option (IndexDb * list Effect) :=
  match parse_maintenance_windows (cfg_maintenance_windows settings) with
  | Err error =>
      let '(db, effects) :=
        fail_generation_and_schedule_cleanup (first_write (run_final run)) error db in
      Some (db, CancelControl :: effects ++ [FinishBuild (Some error)])
  | Ok windows =>
      let controller :=
        then_some (cfg_adaptive settings)
          (Adaptive.new (controller_config settings) (build_started run)) in
      let state := new_run_state settings controller (build_started run) in
      let started :=
        match controller with
        | Some c => [UpdateRuntimeController (Adaptive.limits c) (Adaptive.state c) None]
        | None => []
        end in
      '(db, state, effects, outcome) ←
        run_build_loop windows (run_turns_of run) (run_end run) db state;
      let '(db, final) :=
        finalize_build (run_final run) (control_was_cancelled run) db state outcome in
      Some (db, started ++ effects ++ final)
  end.

End Loop.
