(* ===== verification/BuildSpec.v ===== *)
(** * What a build promises

    A build publishes a complete inventory or nothing: in every run, with every
    interleaving of the writes of other tasks and every failure, the index that
    searches read either stays exactly as it was or becomes the staging generation
    with the first occurrence of every entry the inventory delivered. *)
From S2P Require Import Prelude Text Schedule Controller Config Opc Store StoreWf Cleanup StoreSpec.
From S2P Require Import Status Build.

Section BuildSpec.
Context `{TextLibrary}.
Context (settings : ResolvedIndexConfig) (server : string) (generation : Z).

(** ** The writes of other tasks *)

(** Builds, deletions and clearings of other servers, and the bookkeeping and cleanup
    of every server. A server's own builds and deletion exclude each other by the
    build lock. *)
Definition foreign (op : db_op) : Prop :=
  match op with
  | OpEnroll _ _ | OpSetAutoRefresh _ _ _ | OpSetRetryState _ _ _ _ | OpCleanupBatch _ _ _ => True
  | OpStartGeneration s _ _ _ | OpRecordFailedAttempt s _ _ | OpInsertEntries s _ _
  | OpUpdateProgress s _ _ | OpPromote s _ _ _ _ _ | OpFailGeneration s _ _
  | OpDiscardEmptyGeneration s _ | OpClearServer s | OpDeleteIndex s => s <> server
  | OpOpen _ _ _ => False
  end.

Definition generation_rows (db : IndexDb) : list EntryRow :=
  List.filter (entry_of server generation) (entries db).

Definition is_staging (db : IndexDb) : Prop :=
  exists row, In row (generations db) /\ g_key row = (server, generation) /\ g_state row = Staging.

(** What the build relies on: its generation, the rows of it and the index. *)
Record kept (db db' : IndexDb) : Prop := {
  kept_wf : wf db';
  kept_row : forall r, In r (generations db) -> g_server r = server -> g_state r = Staging ->
    In r (generations db');
  kept_rows : generation_rows db' = generation_rows db;
  kept_view : active_view db' server = active_view db server
}.

Lemma kept_refl db : wf db -> kept db db.
Proof. by split. Qed.

Lemma kept_trans db1 db2 db3 : kept db1 db2 -> kept db2 db3 -> kept db1 db3.
Proof. intros [] []. split; [done|eauto|congruence|congruence]. Qed.

Lemma kept_staging db db' : kept db db' -> is_staging db -> is_staging db'.
Proof.
  intros K (r & Hr & Hk & Hs). exists r. split; [|done]. apply (kept_row _ _ K); try done.
  by injection Hk.
Qed.

(** ** Rows under the operations of other tasks *)

Lemma rows_other_key db s g x :
  s <> server -> generation_rows (add_entry db s g x) = generation_rows db.
Proof.
  intros Hne. unfold generation_rows. simpl. rewrite List.filter_app. simpl.
  unfold entry_of at 2. simpl. rewrite bool_decide_eq_false_2 by done. simpl. apply app_nil_r.
Qed.

Lemma insert_rows_other new : forall db s g n db' m, s <> server ->
  insert_rows db s g new n = Ok (db', m) ->
  generations db' = generations db /\ generation_rows db' = generation_rows db.
Proof.
  induction new as [|x rest IH]; intros db s g n db' m Hne; cbn [insert_rows].
  - by intros [= <- <-].
  - destruct (bool_decide_reflect (entry_item_id x = [])); [done|].
    unfold insert_entry_row. simpl. destruct (existsb _ (entries db)); simpl; [by eauto|].
    destruct (existsb _ (generations db)); simpl; [|done].
    change (set_fts _ _) with (add_entry db s g x). intros Hi.
    destruct (IH _ _ _ _ _ _ Hne Hi) as [-> ->]. split; [done|by apply rows_other_key].
Qed.

Lemma rows_delete_other db p :
  (forall r, In r (generations db) -> p r = true -> g_server r <> server) ->
  generation_rows (delete_generations p db) = generation_rows db.
Proof.
  intros Hp. unfold generation_rows. simpl. apply filter_delete_where.
  intros e He [Hs Hg]%entry_of_iff. apply not_true_iff_false. rewrite existsb_exists.
  intros (r & Hr & [Hpr Hk]%andb_true_iff). apply has_key_iff in Hk. apply (Hp r Hr Hpr).
  injection Hk. congruence.
Qed.

Lemma rows_cleanup db db' s :
  wf db -> is_staging db -> pruned s db db' -> generation_rows db' = generation_rows db.
Proof.
  intros W (r & Hr & Hk & Hs) Hp. unfold generation_rows.
  rewrite <- (filter_delete_where _ (entry_obsolete db s) (entries db')),
    <- (filter_delete_where _ (entry_obsolete db s) (entries db)), (pruned_entries _ _ _ Hp);
    [done|..]; intros e _ [He1 He2]%entry_of_iff; apply not_true_iff_false;
    rewrite entry_obsolete_iff, in_obsolete_iff; intros [_ (x & Hx & Hkx & Ho)];
    rewrite He1, He2, <- Hk in Hkx;
    rewrite (NoDup_map_inj g_key _ x r (wf_keys _ W) Hx Hr Hkx), is_obsolete_iff in Ho;
    destruct Ho as [?|[? _]]; congruence.
Qed.

(** The staging row of the build and its entries under one foreign operation. *)
Lemma foreign_rows db op : wf db -> is_staging db -> foreign op ->
  (forall r, In r (generations db) -> g_server r = server -> g_state r = Staging ->
     In r (generations (db_exec db op))) /\
  generation_rows (db_exec db op) = generation_rows db.
Proof.
  intros W Hst Hf.
  assert (Hu : forall (p : Generation -> bool) f r, In r (generations db) -> p r = false ->
    In r (update_where p f (generations db))).
  { intros p f r Hr Hp. apply in_map_iff. exists r. by rewrite Hp. }
  assert (Hk : forall s g r, s <> server -> g_server r = server -> has_key s g r = false).
  { intros s g r Hne Hr. apply not_true_iff_false. rewrite has_key_iff. intros [= ? ?]. congruence. }
  destruct op as [s t|s b t|s r n c|s o src t|s e t|s g new|s g p|s g t n p w|s g e|s g|s|s|s c [[sd ba] bg]|held t q];
    simpl in *.
  - unfold enroll. by destruct (_ !! s).
  - unfold set_auto_refresh. by destruct (_ !! s).
  - done.
  - destruct (start_generation_spec db s o src t W) as [(g & -> & _)|(e & ->)]; simpl;
      rewrite ?enroll_generations; unfold enroll; destruct (_ !! s); simpl;
      (split; [|done]); intros; try done; apply in_app_iff; by left.
  - unfold record_failed_attempt. destruct (next_generation db s); [|done].
    unfold insert_generation. destruct (existsb _ _); [done|]. split; [|done].
    intros. apply in_app_iff. by left.
  - unfold insert_entries, i64_try_from. destruct (g <=? i64_max); [|done].
    destruct (insert_rows db s g new 0) as [[db' m]|] eqn:E; [|done]. simpl.
    by destruct (insert_rows_other _ _ _ _ _ _ _ Hf E) as [-> ->].
  - unfold update_progress, i64_try_from, result_bind. bool_cases; try done. simpl.
    split; [|done]. intros. apply Hu; [done|]. by rewrite Hk.
  - pose proof (promote_spec db s g t n p w W) as Hp.
    destruct (promote_with_profile db s g t n p w) as [db' [|]]; simpl; [|by destruct Hp as [-> _]].
    destruct Hp as (_ & _ & _ & ->). split; [|done]. intros r Hr Hs _. simpl. apply in_map_iff.
    exists r. split; [|done]. unfold promote_row. rewrite Hk by done. simpl.
    destruct (of_server s r) eqn:E; [|done]. apply of_server_iff in E. congruence.
  - unfold fail_generation, i64_try_from. destruct (_ <=? i64_max); [|done]. simpl.
    split; [|done]. intros. apply Hu; [done|]. by rewrite Hk.
  - unfold discard_empty_generation, i64_try_from. destruct (g <=? i64_max); [|done]. simpl.
    split.
    + intros r Hr Hs _. apply In_delete_where. split; [done|]. by rewrite Hk.
    + apply rows_delete_other. intros r _ Hp Hs. rewrite !andb_true_iff, has_key_iff in Hp.
      destruct Hp as [[[[= ? ?] _] _] _]. congruence.
  - assert (Ho : forall r, g_server r = server -> of_server s r = false).
    { intros r Hr. apply not_true_iff_false. rewrite of_server_iff. congruence. }
    split; [intros r Hr Hs _; apply In_delete_where; auto|].
    apply (rows_delete_other (set_fts db _)). intros r _ Hr%of_server_iff. congruence.
  - assert (Ho : forall r, g_server r = server -> of_server s r = false).
    { intros r Hr. apply not_true_iff_false. rewrite of_server_iff. congruence. }
    split; [intros r Hr Hs _; apply In_delete_where; auto|].
    apply (rows_delete_other (set_fts db _)). intros r _ Hr%of_server_iff. congruence.
  - pose proof (cleanup_one_batch_pruned db s c sd ba bg W) as Hp. split.
    + intros r Hr _ Hs. apply (pruned_kept Hp); [done|]. apply not_true_iff_false.
      rewrite gone_generation_iff, is_obsolete_iff. intros [_ [?|[? _]]]; congruence.
    + by eapply rows_cleanup.
  - done.
Qed.

Lemma foreign_kept db op : wf db -> is_staging db -> foreign op -> kept db (db_exec db op).
Proof.
  intros W Hst Hf. destruct (foreign_rows db op W Hst Hf) as [Hr He].
  split; [by apply wf_db_exec|done|done|]. apply active_view_isolated; [done|].
  destruct op; simpl in *; try tauto; congruence.
Qed.

Lemma others_kept l : forall db, wf db -> is_staging db -> Forall foreign l ->
  kept db (fold_left db_exec l db).
Proof.
  induction l as [|op l IH]; intros db W Hst Hl; simpl; [by apply kept_refl|].
  apply Forall_cons in Hl as [Hop Hl]. pose proof (foreign_kept db op W Hst Hop) as K.
  eapply kept_trans; [exact K|]. apply IH; [apply K|by eapply kept_staging|done].
Qed.

(** A write of the build: the writes before it keep what the build relies on. *)
Lemma write_kept {A} (env : WriteEnv) (op : IndexDb -> IndexDb * result A string) db :
  wf db -> is_staging db -> Forall foreign (others env) ->
  exists db0, kept db db0 /\
    (with_database_write env op db = op db0 \/
     exists e, with_database_write env op db = (db0, Err e)).
Proof.
  intros W Hst Hf. exists (fold_left db_exec (others env) db). split; [by apply others_kept|].
  unfold with_database_write. destruct (io_error env); eauto.
Qed.

(** ** The writes of the build *)

(** The first entry of every ItemID, in order. *)
Fixpoint distinct_from (seen : list ustr) (l : list InventoryEntry) : list InventoryEntry :=
  match l with
  | [] => []
  | x :: rest =>
      if bool_decide (entry_item_id x ∈ seen) then distinct_from seen rest
      else x :: distinct_from (entry_item_id x :: seen) rest
  end.
Definition distinct_entries : list InventoryEntry -> list InventoryEntry := distinct_from [].

Lemma distinct_from_ext l : forall s1 s2, (forall i, i ∈ s1 <-> i ∈ s2) ->
  distinct_from s1 l = distinct_from s2 l.
Proof.
  induction l as [|x l IH]; intros s1 s2 Hs; simpl; [done|].
  rewrite (bool_decide_ext (entry_item_id x ∈ s1) (entry_item_id x ∈ s2)) by apply Hs.
  case_bool_decide; [by apply IH|]. f_equal. apply IH. intros i. rewrite !elem_of_cons, Hs. tauto.
Qed.

Lemma distinct_from_app l1 l2 : forall seen,
  distinct_from seen (l1 ++ l2) =
    distinct_from seen l1 ++ distinct_from (map entry_item_id l1 ++ seen) l2.
Proof.
  induction l1 as [|x l1 IH]; intros seen; simpl; [done|].
  case_bool_decide as E; rewrite IH; simpl.
  - f_equal. apply distinct_from_ext. intros i. rewrite !elem_of_cons, !elem_of_app. split; [tauto|].
    intros [->|?]; tauto.
  - do 2 f_equal. apply distinct_from_ext. intros i.
    rewrite !elem_of_cons, !elem_of_app, !elem_of_cons. tauto.
Qed.

Lemma distinct_ids l : forall seen i,
  i ∈ map entry_item_id (distinct_from seen l) ++ seen <-> i ∈ map entry_item_id l ++ seen.
Proof.
  induction l as [|x l IH]; intros seen i; simpl; [done|]. case_bool_decide as E; simpl.
  - rewrite IH, elem_of_cons, !elem_of_app. split; [tauto|]. intros [->|?]; tauto.
  - specialize (IH (entry_item_id x :: seen) i).
    rewrite !elem_of_cons, !elem_of_app, !elem_of_cons in *. tauto.
Qed.

(** The new entries of a batch are those with ItemIDs the generation does not hold. *)
Lemma fresh_distinct new : forall db,
  fresh_entries db server generation new = distinct_from (item_ids db server generation) new.
Proof.
  induction new as [|x rest IH]; intros db; simpl; [done|].
  destruct (has_item db server generation (entry_item_id x)) eqn:E.
  - apply has_item_iff in E. rewrite bool_decide_eq_true_2 by by apply list_elem_of_In.
    apply IH.
  - rewrite bool_decide_eq_false_2 by (rewrite list_elem_of_In, <- has_item_iff, E; done).
    rewrite IH. f_equal. apply distinct_from_ext. intros i.
    rewrite (proj1 (item_ids_add_entry db server generation x server generation)).
    rewrite bool_decide_eq_true_2, Z.eqb_refl by done. simpl.
    set_solver.
Qed.

Lemma rows_added l : forall db,
  let db' := fold_left (fun db x => add_entry db server generation x) l db in
  generations db' = generations db /\
  generation_rows db' = generation_rows db ++ map (entry_row server generation) l.
Proof.
  induction l as [|x l IH]; intros db; simpl; [by rewrite app_nil_r|].
  destruct (IH (add_entry db server generation x)) as [-> ->]. split; [done|].
  unfold generation_rows. simpl. rewrite List.filter_app. simpl.
  assert (entry_of server generation (entry_row server generation x) = true) as ->
    by by apply entry_of_iff.
  by rewrite <- app_assoc.
Qed.

(** ** The invariant of the loop *)

Section Invariant.
Context (view0 : list ActiveIndex).

(** What holds in every state of a build that has not been promoted. *)
Record build_base (db : IndexDb) : Prop := {
  base_wf : wf db;
  base_staging : is_staging db;
  base_view : active_view db server = view0
}.

(** [committed] are the received entries that have been committed. *)
Record accounted (committed received : list InventoryEntry) (db : IndexDb)
    (state : BuildRunState) : Prop := {
  acc_received : received = committed ++ pending state;
  acc_rows : generation_rows db = map (entry_row server generation) (distinct_entries committed);
  acc_count :
    persisted_item_count state = Z.min (Z.of_nat (length (distinct_entries committed))) u64_max
}.

Definition build_inv (received : list InventoryEntry) (db : IndexDb) (state : BuildRunState) : Prop :=
  build_base db /\ exists committed, accounted committed received db state.

(** The fields the end of the stream decides. *)
Definition flags (s : BuildRunState) :=
  (completed s, cancelled s, failed s, completion_warning s, completion_profile s, terminal s).

Lemma base_kept db db' : kept db db' -> build_base db -> build_base db'.
Proof.
  intros K []. split; [apply K|by eapply kept_staging|]. by rewrite (kept_view _ _ K).
Qed.

Lemma accounted_kept c r db db' st : kept db db' -> accounted c r db st -> accounted c r db' st.
Proof. intros K []. split; [done| |done]. by rewrite (kept_rows _ _ K). Qed.

Lemma build_inv_state r db st st' :
  pending st' = pending st -> persisted_item_count st' = persisted_item_count st ->
  build_inv r db st -> build_inv r db st'.
Proof. intros Hp Hc [Hb (c & [])]. split; [done|]. exists c. split; congruence. Qed.

Lemma own_row_staging db r : build_base db -> In r (generations db) ->
  g_key r = (server, generation) -> g_state r = Staging.
Proof.
  intros [W (x & Hx & Hkx & Hs) _] Hr Hk.
  by rewrite (NoDup_map_inj g_key _ r x (wf_keys _ W) Hr Hx) by congruence.
Qed.

(** A batch that is written adds exactly the new ItemIDs of the pending entries. *)
Lemma insert_accounted db committed pend db' n :
  build_base db ->
  generation_rows db = map (entry_row server generation) (distinct_entries committed) ->
  insert_entries db server generation pend = (db', Ok n) ->
  build_base db' /\
  generation_rows db' =
    map (entry_row server generation) (distinct_entries (committed ++ pend)) /\
  Z.min (Z.min (Z.of_nat (length (distinct_entries committed))) u64_max + n) u64_max =
    Z.min (Z.of_nat (length (distinct_entries (committed ++ pend)))) u64_max.
Proof.
  intros B Hrows. pose proof (own_row_staging db) as Hown. destruct B as [W Hst Hv] eqn:EB.
  pose proof (wf_insert_entries db server generation pend W) as W'.
  unfold insert_entries, i64_try_from in *. destruct (generation <=? i64_max); [|done].
  destruct (insert_rows db server generation pend 0) as [[db1 m]|] eqn:E; [|done].
  intros [= <- <-]. cbn [fst] in W'.
  pose proof (active_view_insert_rows pend db server generation 0 db1 m server) as Hview.
  apply insert_rows_spec in E as Hspec; [|unfold umax; lia]. destruct Hspec as [Hdb Hm].
  destruct (rows_added (fresh_entries db server generation pend) db) as [Hg Hr].
  rewrite <- Hdb in Hg, Hr. rewrite Hr, Hrows, <- map_app, fresh_distinct in *.
  assert (Hd : distinct_entries committed ++ distinct_from (item_ids db server generation) pend =
    distinct_entries (committed ++ pend)).
  { unfold distinct_entries at 2. rewrite distinct_from_app. f_equal.
    apply distinct_from_ext. intros i.
    change (item_ids db server generation) with (map e_item_id (generation_rows db)).
    rewrite Hrows, map_map. change (map _ (distinct_entries committed)) with
      (map entry_item_id (distinct_entries committed)).
    pose proof (distinct_ids committed [] i) as Hi. rewrite !app_nil_r in *. apply Hi. }
  split; [|split; [by rewrite <- Hd|]].
  - split; [done| |].
    + destruct Hst as (r & Hr0 & Hk). exists r. by rewrite Hg.
    + rewrite Hview; [done| |done]. intros r Hr0 Hk _. by rewrite (Hown r B Hr0 Hk).
  - rewrite <- Hd, length_app. unfold umax in *. lia.
Qed.

(** *** Commits *)

Definition commit_foreign (env : CommitEnv) : Prop := Forall foreign (others (commit_write env)).

Lemma commit_pending_ok env db st db' st' eff r received :
  commit_foreign env -> build_inv received db st ->
  commit_pending_entries_with_telemetry server generation env db st = (db', st', eff, r) ->
  flags st' = flags st /\
  match r with
  | Ok n => pending st' = [] /\ forall t, build_inv received db' (with_persisted st' n t)
  | Err _ => build_inv received db' st'
  end.
Proof.
  intros Hf [B (c & A)]. unfold commit_pending_entries_with_telemetry, commit_pending_entries.
  destruct (pending st) as [|x l] eqn:Ep.
  - intros [= <- <- _ <-]. split; [done|]. split; [done|]. intros t. split; [done|].
    exists c. destruct A as [Ar Arows Ac]. split; [by rewrite Ar, Ep|done|]. simpl.
    unfold saturating_add. lia.
  - destruct (with_database_write _ _ db) as [db1 r1] eqn:Ew. intros [= <- <- _ <-].
    split; [done|].
    destruct (write_kept (commit_write env)
      (fun db => insert_entries db server generation (x :: l)) db (base_wf _ B)
      (base_staging _ B) Hf) as (db0 & K & [Hop|[e Hop]]); rewrite Hop in Ew.
    2: { injection Ew as <- <-. simpl. split; [by eapply base_kept|]. exists c.
         destruct (accounted_kept _ _ _ _ _ K A). by split; simpl; rewrite <- ?Ep. }
    pose proof (base_kept _ _ K B) as B0. destruct (accounted_kept _ _ _ _ _ K A) as [Ar Arows Ac].
    destruct r1 as [n|e]; simpl.
    + split; [done|]. intros t.
      destruct (insert_accounted db0 c (x :: l) db1 n B0 Arows Ew) as (B1 & R1 & N1).
      split; [done|]. exists (c ++ x :: l). split; simpl; [by rewrite app_nil_r, Ar, Ep|done|].
      unfold saturating_add. by rewrite Ac, N1.
    + assert (db1 = db0) as ->.
      { revert Ew. unfold insert_entries. destruct (i64_try_from _ _); [|by intros [=]].
        destruct (insert_rows _ _ _ _ _) as [[]|]; [done|by intros [=]]. }
      split; [done|]. exists c. by split; simpl; rewrite <- ?Ep.
Qed.

Lemma commit_due_ok now env db st db' st' eff r received :
  commit_foreign env -> build_inv received db st ->
  commit_pending_if_due settings server generation now env db st = (db', st', eff, r) ->
  flags st' = flags st /\ build_inv received db' st'.
Proof.
  intros Hf HI. unfold commit_pending_if_due. destruct (_ || _); [by intros [= <- <- _ _]|].
  destruct (commit_pending_entries_with_telemetry _ _ _ _ _) as [[[db1 st1] eff1] r1] eqn:E.
  destruct (commit_pending_ok _ _ _ _ _ _ _ _ Hf HI E) as [Hfl Hr]. destruct r1; intros [= <- <- _ _].
  - split; [done|]. apply Hr.
  - done.
Qed.

(** *** Events *)

Definition event_foreign (env : EventEnv) : Prop :=
  commit_foreign (event_commit env) /\ Forall foreign (others (progress_write env)).

Lemma entry_ok env db st entry db' st' eff out received :
  event_foreign env -> build_inv received db st ->
  handle_entry_event settings server generation env db st entry = Some (db', st', eff, out) ->
  flags st' = flags st /\ (exists r, build_inv r db' st') /\ out <> EventStop /\
  (out = EventContinue -> build_inv (received ++ [entry]) db' st').
Proof.
  intros [Hf _] HI He. unfold handle_entry_event in He.
  apply bind_Some in He as ([limiter granted] & _ & He).
  destruct granted; cbn [negb] in He.
  2: { injection He as <- <- _ <-. split; [done|]. split; [|done]. exists received.
       by apply (build_inv_state _ _ st). }
  set (st1 := with_pending _ _ _) in He.
  assert (HI1 : build_inv (received ++ [entry]) db st1).
  { destruct HI as [B (c & [Ar Arows Ac])]. split; [done|]. exists c. split; simpl; [|done|done].
    by rewrite Ar, <- app_assoc. }
  assert (Hfl : flags st1 = flags st) by done. clearbody st1.
  destruct (_ <? _); [injection He as <- <- _ <-; by eauto|].
  destruct (commit_pending_entries_with_telemetry _ _ _ _ _) as [[[db1 st2] eff1] r1] eqn:E.
  destruct (commit_pending_ok _ _ _ _ _ _ _ _ Hf HI1 E) as [Hfl2 Hr].
  destruct r1; injection He as <- <- _ <-; (split; [by rewrite <- Hfl, <- Hfl2|]).
  - destruct Hr as [_ Hr]. split; [eauto|]. split; [done|]. intros _. apply Hr.
  - split; [eauto|]. done.
Qed.

Lemma own_progress db p :
  build_base db ->
  build_base (update_progress db server generation p).1 /\
  generation_rows (update_progress db server generation p).1 = generation_rows db.
Proof.
  intros [W Hst Hv]. split.
  - split; [by apply wf_update_progress| |].
    + destruct Hst as (r & Hr & Hk & Hs). unfold update_progress, i64_try_from, result_bind.
      bool_cases; try by exists r. exists (Store.with_counts (entries_seen p) (unique_items p) r).
      split; [|done]. simpl. apply in_map_iff. exists r. split; [|done].
      rewrite (proj2 (has_key_iff _ _ _) Hk). unfold is_state. by rewrite Hs.
    + rewrite <- Hv. apply (active_view_isolated db (OpUpdateProgress server generation p) server);
        [done|by intros []].
  - unfold update_progress, i64_try_from, result_bind. by bool_cases.
Qed.

Lemma progress_ok env db st p db' st' eff out received :
  event_foreign env -> build_inv received db st ->
  handle_progress_event server generation env db st p = (db', st', eff, out) ->
  flags st' = flags st /\ build_inv received db' st' /\ out <> EventStop.
Proof.
  intros [_ Hf] [B (c & A)]. unfold handle_progress_event.
  destruct (with_database_write _ _ db) as [db1 r1] eqn:Ew.
  assert (HI : build_inv received db1 (with_progress st p)).
  { destruct (write_kept (progress_write env) (fun db => update_progress db server generation p)
      db (base_wf _ B) (base_staging _ B) Hf) as (db0 & K & Hop). rewrite Ew in Hop.
    pose proof (base_kept _ _ K B) as B0. destruct (accounted_kept _ _ _ _ _ K A) as [Ar Arows Ac].
    destruct Hop as [Hop|[e Hop]].
    - destruct (own_progress db0 p B0) as [B1 R1]. rewrite <- Hop in B1, R1.
      cbn [fst] in B1, R1. split; [done|].
      exists c. split; simpl; [done| |done]. by rewrite R1.
    - injection Hop as -> _. split; [done|]. by exists c. }
  destruct r1; [|by intros [= <- <- _ <-]].
  destruct (_ <? _); [|by intros [= <- <- _ <-]].
  destruct (enforce_duty_cycle _ _) as [eff' running].
  intros [= <- <- _ <-]. split; [done|]. split; [done|]. by destruct running.
Qed.

Lemma slice_ok env db st slice db' st' eff out received :
  build_inv received db st -> handle_slice_event env db st slice = (db', st', eff, out) ->
  flags st' = flags st /\ build_inv received db' st' /\ out <> EventStop.
Proof.
  intros HI. unfold handle_slice_event. cbn [controller with_received].
  destruct (controller st) as [c|]; [|intros [= <- <- _ <-]; split; [done|]; split; [|done];
    by apply (build_inv_state _ _ st)].
  destruct (Adaptive.observe _ _ _) as [c' d].
  destruct (slice_pacing env); intros [= <- <- _ <-]; (split; [done|]); (split; [|done]);
    by apply (build_inv_state _ _ st).
Qed.

Definition answer_entries (a : StreamAnswer) : list InventoryEntry :=
  match a with StreamEvent (Ok (Entry entry)) => [entry] | _ => [] end.
Definition answer_completion (a : StreamAnswer) : option InventoryCompleted :=
  match a with StreamEvent (Ok (Completed c)) => Some c | _ => None end.

(** What an event makes of the state. *)
Lemma event_ok env db st event db' st' eff out received :
  event_foreign env -> build_inv received db st ->
  handle_inventory_event settings server generation env db st event = Some (db', st', eff, out) ->
  (exists r, build_inv r db' st') /\
  match answer_completion (StreamEvent event) with
  | Some c =>
      out = EventStop /\ build_inv received db' st' /\
      exists ms, st' = record_completion st c ms
  | None =>
      out <> EventStop /\ flags st' = flags st /\
      (out = EventContinue -> build_inv (received ++ answer_entries (StreamEvent event)) db' st')
  end.
Proof.
  intros Hf HI He. destruct event as [[entry|p|slice|c]|e]; cbn [handle_inventory_event] in He;
    cbn [answer_completion answer_entries]; rewrite ?app_nil_r.
  - set (st1 := with_received _ _ _ _ _) in He.
    assert (HI1 : build_inv received db st1) by by apply (build_inv_state _ _ st).
    destruct (entry_ok _ _ _ _ _ _ _ _ received Hf HI1 He) as (Hfl & B & Hs & Hc).
    by rewrite Hfl.
  - set (st1 := with_received _ _ _ _ _) in He.
    assert (HI1 : build_inv received db st1) by by apply (build_inv_state _ _ st).
    injection He as He. destruct (progress_ok _ _ _ _ _ _ _ _ received Hf HI1 He) as (Hfl & HI' & Hs).
    split; [by eexists|]. split; [done|]. split; [by rewrite Hfl|done].
  - injection He as He. destruct (slice_ok _ _ _ _ _ _ _ _ received HI He) as (Hfl & HI' & Hs).
    split; [by eexists|]. split; [done|]. split; [by rewrite Hfl|done].
  - injection He as <- <- _ <-.
    assert (HI' : build_inv received db (record_completion st c (elapsed_since_start env)))
      by by apply (build_inv_state _ _ st).
    split; [by eexists|]. split; [done|]. split; [done|]. by eexists.
  - injection He as <- <- _ <-. split; [by eexists|]. done.
Qed.

(** *** Turns *)

Lemma ready_ok windows st turns st' eff r :
  wait_for_build_readiness settings windows st turns = Some (st', eff, r) ->
  flags st' = flags st /\ pending st' = pending st /\
  persisted_item_count st' = persisted_item_count st.
Proof.
  unfold wait_for_build_readiness. intros ([eff1 ok] & _ & Hw)%bind_Some.
  destruct ok; cbn [negb] in Hw; [|by injection Hw as <- _ _].
  apply bind_Some in Hw as ([[[eff2 next] backoff] ok] & _ & Hw).
  destruct ok; cbn [negb] in Hw; [|by injection Hw as <- _ _].
  destruct (controller st) as [c|]; [|by injection Hw as <- _ _].
  apply bind_Some in Hw as ([[eff3 c'] res] & _ & Hw).
  by destruct res as [[]|]; injection Hw as <- _ _.
Qed.

Definition turn_foreign (turn : LoopTurn) : Prop :=
  commit_foreign (lt_commit turn) /\ event_foreign (lt_event turn).

(** How a loop that found the end of its inventory leaves the state. *)
Definition completed_with (c : InventoryCompleted) (st0 st : BuildRunState) : Prop :=
  exists st1 ms, st = record_completion st1 c ms /\ flags st1 = flags st0.

Lemma turn_ok windows turn db st db' st' eff cont received :
  turn_foreign turn -> build_inv received db st ->
  loop_turn settings server generation windows turn db st = Some (db', st', eff, cont) ->
  (exists r, build_inv r db' st') /\
  if cont then
    build_inv (received ++ answer_entries (lt_answer turn)) db' st' /\ flags st' = flags st /\
    answer_completion (lt_answer turn) = None
  else
    completed st' = completed st \/
    exists c, answer_completion (lt_answer turn) = Some c /\ build_inv received db' st' /\
      completed_with c st st'.
Proof.
  intros [Hf1 Hf2] HI. unfold loop_turn.
  destruct (commit_pending_if_due _ _ _ _ _ _ _) as [[[db1 st1] eff1] due] eqn:Ed.
  destruct (commit_due_ok _ _ _ _ _ _ _ _ _ Hf1 HI Ed) as [Hfl1 HI1].
  assert (Hstop : forall s b e, flags s = flags st -> build_inv received db1 s ->
    (exists r, build_inv r db1 (with_outcome s b e)) /\ completed (with_outcome s b e) = completed st).
  { intros s b e Hfl HIs. split; [exists received; by apply (build_inv_state _ _ s)|].
    simpl. by injection Hfl. }
  destruct due as [u|e].
  2: { intros [= <- <- _ <-]. destruct (Hstop st1 (cancelled st1) (Some e) Hfl1 HI1). tauto. }
  intros ([[st2 eff2] ready] & Hr & Ht)%bind_Some.
  destruct (ready_ok _ _ _ _ _ _ Hr) as (Hfl2 & Hp & Hc).
  assert (HI2 : build_inv received db1 st2) by by apply (build_inv_state _ _ st1).
  rewrite Hfl1 in Hfl2. clear Hr Hp Hc Hfl1 HI1 Ed.
  destruct ready as [| |e].
  2: { injection Ht as <- <- _ <-. destruct (Hstop st2 true (failed st2) Hfl2 HI2). tauto. }
  2: { injection Ht as <- <- _ <-. destruct (Hstop st2 (cancelled st2) (Some e) Hfl2 HI2). tauto. }
  destruct (lt_answer turn) as [| |event].
  - injection Ht as <- <- _ <-.
    destruct (Hstop st2 (cancelled st2) (Some "inventory event timed out"%string) Hfl2 HI2). tauto.
  - injection Ht as <- <- _ <-. split; [by eexists|]. left. by injection Hfl2.
  - apply bind_Some in Ht as ([[[db2 st3] eff3] out] & He & Ht).
    set (st2' := with_received st2 _ _ _ _) in He.
    assert (HI2' : build_inv received db1 st2') by by apply (build_inv_state _ _ st2).
    assert (Hfl2' : flags st2' = flags st) by done. clearbody st2'.
    destruct (event_ok _ _ _ _ _ _ _ _ _ Hf2 HI2' He) as [[r HIr] Hev].
    assert (Hout : forall b e, exists r, build_inv r db2 (with_outcome st3 b e))
      by (intros; exists r; by apply (build_inv_state _ _ st3)).
    destruct (answer_completion _) as [c|] eqn:Ec.
    + destruct Hev as (-> & HI3 & ms & ->). injection Ht as <- <- _ <-.
      split; [by eexists|]. right. exists c. split; [done|]. split; [done|]. by exists st2', ms.
    + destruct Hev as (Hs & Hfl3 & Hcont). rewrite Hfl2' in Hfl3.
      assert (Hcomp : completed st3 = completed st) by by injection Hfl3.
      destruct out as [| | |e]; [|done|..]; injection Ht as <- <- _ <-.
      * split; [by eexists|]. split; [by apply Hcont|]. done.
      * split; [apply Hout|]. by left.
      * split; [apply Hout|]. by left.
Qed.

(** The entries before the inventory's end, and its end. *)
Fixpoint stream_entries (turns : list LoopTurn) : list InventoryEntry :=
  match turns with
  | [] => []
  | t :: rest =>
      match answer_completion (lt_answer t) with
      | Some _ => []
      | None => answer_entries (lt_answer t) ++ stream_entries rest
      end
  end.
Fixpoint stream_completion (turns : list LoopTurn) : option InventoryCompleted :=
  match turns with
  | [] => None
  | t :: rest => option_or (answer_completion (lt_answer t)) (stream_completion rest)
  end.

Lemma run_ok windows turns : forall db st db' st' eff received,
  Forall turn_foreign turns -> build_inv received db st -> completed st = false ->
  run_turns settings server generation windows turns db st = Some (db', st', eff) ->
  (exists r, build_inv r db' st') /\
  (completed st' = false \/
   exists c, stream_completion turns = Some c /\
     build_inv (received ++ stream_entries turns) db' st' /\ completed_with c st st').
Proof.
  induction turns as [|t rest IH]; intros db st db' st' eff received Hf HI Hc; [done|].
  apply Forall_cons in Hf as [Hf1 Hf2]. cbn [run_turns stream_entries stream_completion].
  intros ([[[db1 st1] eff1] cont] & Ht & Hr)%bind_Some.
  destruct (turn_ok _ _ _ _ _ _ _ _ _ Hf1 HI Ht) as [Hex Hcase]. destruct cont.
  - destruct Hcase as (HI1 & Hfl & ->). apply bind_Some in Hr as ([[db2 st2] eff2] & Hr & [= <- <- <-]).
    rewrite app_assoc. assert (Hc1 : completed st1 = false) by (injection Hfl; congruence).
    destruct (IH _ _ _ _ _ _ Hf2 HI1 Hc1 Hr) as [Hex2 [Hn|(c & Hs & HI2 & st0 & ms & -> & Hfl2)]];
      (split; [done|]); [by left|right].
    exists c. split; [done|]. split; [done|]. exists st0, ms. by rewrite Hfl2.
  - injection Hr as <- <- <-. split; [done|]. destruct Hcase as [Hcase|(c & Ha & HI1 & Hw)].
    + left. congruence.
    + right. exists c. rewrite Ha, app_nil_r. done.
Qed.

(** *** The end of the loop *)

Lemma settle_ok e st interrupted st' :
  settle_build_loop e st = (interrupted, st') ->
  (exists b f, st' = with_outcome st b f) /\
  (terminal st = true -> interrupted = false /\ cancelled st' = cancelled st /\
     (failed st' = None -> failed st = None)).
Proof.
  unfold settle_build_loop. assert (Hid : st = with_outcome st (cancelled st) (failed st)) by by destruct st.
  destruct (terminal st) eqn:Et, (failed st) as [e0|] eqn:Ef, (operator_cancelled_build e) as [oc|e1],
    (stream_shutdown e) as [u|e2]; try destruct oc; destruct (gateway_shutting_down e);
    do 3 (cbn; rewrite ?Et, ?Ef);
    intros [<- <-]%pair_inj; (split; [by eauto|]); try done; by intros _; cbn; rewrite ?Ef.
Qed.

Lemma end_ok e db st db' st' eff out received :
  commit_foreign (last_commit e) -> build_inv received db st ->
  end_build_loop server generation e db st = (db', st', eff, out) ->
  build_base db' /\ completed st' = completed st /\
  (terminal st = true -> out = Finished -> cancelled st' = false ->
     failed st = None /\ cancelled st = false /\ completion_warning st' = completion_warning st /\
     completion_profile st' = completion_profile st /\ pending st' = [] /\
     build_inv received db' st').
Proof.
  intros Hf HI. unfold end_build_loop.
  destruct (settle_build_loop e st) as [interrupted st1] eqn:Es.
  destruct (settle_ok _ _ _ _ Es) as [(b & f & Hst1) Hterm].
  assert (HI1 : build_inv received db st1) by (subst st1; by apply (build_inv_state _ _ st)).
  assert (Hsame : completed st1 = completed st /\ completion_warning st1 = completion_warning st /\
    completion_profile st1 = completion_profile st) by by subst st1.
  clear Es Hst1 HI. destruct Hsame as (Hs1 & Hs2 & Hs3).
  destruct (negb _ && _ && _ && _) eqn:Ec.
  - destruct (commit_pending_entries_with_telemetry _ _ _ _ _) as [[[db1 st2] eff1] r1] eqn:E.
    destruct (commit_pending_ok _ _ _ _ _ _ _ _ Hf HI1 E) as [Hfl Hr].
    rewrite !andb_true_iff, !negb_true_iff in Ec. destruct Ec as [[[_ Ec1] Ec2] ->].
    injection Hfl as F1 F2 F3 F4 F5 F6.
    assert (Hn : failed st1 = None) by by destruct (failed st1).
    destruct r1 as [n|err]; cbn [failed with_persisted with_outcome].
    + rewrite F3, Hn. intros [= <- <- _ <-]. destruct Hr as [Hp Hr].
      split; [apply (Hr 0)|]. split; [cbn; congruence|]. intros Ht _ _.
      destruct (Hterm Ht) as (_ & Hcan & Hfail). cbn. split; [by apply Hfail|].
      split; [congruence|]. split; [congruence|]. split; [congruence|]. split; [done|]. apply Hr.
    + intros [= <- <- _ <-]. split; [apply Hr|]. split; [cbn; congruence|]. done.
  - destruct interrupted; [intros [= <- <- _ <-]; split; [apply HI1|]; by split|].
    destruct (failed st1) eqn:Ef; intros [= <- <- _ <-]; (split; [apply HI1|]); (split; [done|]);
      [done|]. intros Ht _ Hcan. destruct (Hterm Ht) as (_ & Hcan' & Hfail).
    split; [by apply Hfail|]. split; [congruence|]. split; [done|]. split; [done|].
    split; [|done]. rewrite Hcan in Ec. cbn in Ec. rewrite !andb_true_r in Ec.
    apply negb_false_iff in Ec. by apply bool_decide_eq_true in Ec.
Qed.

End Invariant.

(** ** Finalization *)

Lemma others_view l : forall db, wf db -> Forall foreign l ->
  wf (fold_left db_exec l db) /\
  active_view (fold_left db_exec l db) server = active_view db server.
Proof.
  induction l as [|op l IH]; intros db W Hl; simpl; [done|]. apply Forall_cons in Hl as [Hop Hl].
  destruct (IH (db_exec db op) (wf_db_exec _ _ W) Hl) as [W' ->]. split; [done|].
  apply active_view_isolated; [done|]. destruct op; simpl in *; try tauto; congruence.
Qed.

(** A failed, cancelled or interrupted build leaves the index. *)
Lemma fail_view env error db db' eff :
  wf db -> Forall foreign (others env) ->
  fail_generation_and_schedule_cleanup server generation env error db = (db', eff) ->
  active_view db' server = active_view db server.
Proof.
  intros W Hf. destruct (others_view _ db W Hf) as [W0 <-].
  unfold fail_generation_and_schedule_cleanup, with_database_write.
  destruct (io_error env); [by intros [= <- _]|].
  pose proof (active_view_isolated _ (OpFailGeneration server generation error) server W0
    ltac:(by intros [])) as Hv. simpl in Hv.
  destruct (fail_generation _ _ _ _) as [db1 r]. by intros [= <- _].
Qed.

Lemma abandon_view discard fail reason db db' eff :
  wf db -> Forall foreign (others discard) -> Forall foreign (others fail) ->
  abandon_generation server generation discard fail reason db = (db', eff) ->
  active_view db' server = active_view db server.
Proof.
  intros W Hd Hf. destruct (others_view _ db W Hd) as [W0 <-].
  unfold abandon_generation, with_database_write.
  destruct (io_error discard); [by intros [= <- _]|].
  pose proof (active_view_isolated _ (OpDiscardEmptyGeneration server generation) server W0
    ltac:(by intros [])) as Hv.
  pose proof (wf_discard_empty_generation _ server generation W0) as W1. simpl in Hv.
  destruct (discard_empty_generation _ _ _) as [db1 [[]|]]; simpl in *; try by intros [= <- _].
  intros Hfail. rewrite <- Hv. by eapply fail_view.
Qed.

Definition run_foreign (run : BuildRun) : Prop :=
  Forall turn_foreign (run_turns_of run) /\ commit_foreign (last_commit (run_end run)) /\
  Forall foreign (others (first_write (run_final run))) /\
  Forall foreign (others (second_write (run_final run))).

(** The published index: what the inventory of [c] delivered as [received]. *)
Definition published (c : InventoryCompleted) (received : list InventoryEntry) (view : ActiveIndex) :
    Prop :=
  let entries := distinct_entries received in
  ai_generation view = generation /\
  ai_entries view = map (entry_row server generation) entries /\
  map f_item_id (ai_fts view) = map entry_item_id entries /\
  ai_entry_count view = Z.of_nat (length entries) /\
  ai_organization view = namespace_string (completed_organization c) /\
  ai_source view = source_string (completed_source c).

Lemma promote_published view0 env db st received c db' eff r :
  build_inv view0 received db st -> pending st = [] ->
  completion_profile st = Some (completed_organization c, completed_source c) ->
  Forall foreign (others (first_write env)) ->
  promote_completed_build server generation env db st = (db', eff, r) ->
  match r with
  | Ok _ => exists view, active_view db' server = [view] /\ published c received view
  | Err _ => build_base view0 db'
  end.
Proof.
  intros [B (com & A)] Hp Hprof Hf. unfold promote_completed_build.
  destruct (with_database_write _ _ db) as [db1 r1] eqn:Ew. intros [= <- _ <-].
  destruct (write_kept (first_write env) (fun db => promote_with_profile db server generation
    (timestamp_now (final_now env)) (persisted_item_count st) (completion_profile st)
    (completion_warning st)) db (base_wf _ _ B) (base_staging _ _ B) Hf) as (db0 & K & Hop).
  rewrite Ew in Hop. pose proof (base_kept _ _ _ K B) as B0.
  destruct (accounted_kept _ _ _ _ _ K A) as [Ar Arows Ac]. rewrite Hp, app_nil_r in Ar. subst com.
  destruct Hop as [Hop|[e Hop]]; [|by injection Hop as -> ->].
  pose proof (promote_spec db0 server generation (timestamp_now (final_now env))
    (persisted_item_count st) (completion_profile st) (completion_warning st) (base_wf _ _ B0)) as Hs.
  rewrite <- Hop in Hs. destruct r1 as [u|e]; [|by destruct Hs as [-> _]]. destruct Hs as [Hle _].
  destruct (promoted_view _ _ _ _ _ _ _ _ u (base_wf _ _ B0) (eq_sym Hop))
    as (v & Hv & Hg & Hn & _ & Hprof' & He & Hfts).
  exists v. split; [done|]. destruct (Hprof' _ _ Hprof) as [Ho Hsrc].
  unfold generation_rows in Arows. rewrite Arows in He.
  split; [done|]. split; [done|]. split; [by rewrite Hfts, He, map_map|].
  split; [|done]. rewrite Hn, Ac. unfold umax in *. lia.
Qed.

Lemma new_state_inv db controller now :
  reachable db -> is_staging db -> item_ids db server generation = [] ->
  build_inv (active_view db server) [] db (new_run_state settings controller now).
Proof.
  intros Hr Hs He. split; [split; [by apply wf_reachable|done|done]|]. exists [].
  split; [done| |done]. simpl. by apply map_eq_nil in He.
Qed.

(** ** The effects of a build *)

Definition is_release (e : Effect) : bool :=
  match e with FinishBuild _ | FinishInterrupted _ => true | _ => false end.
Definition quiet (l : list Effect) : Prop := Forall (fun e => is_release e = false) l.

Lemma quiet_app l1 l2 : quiet l1 -> quiet l2 -> quiet (l1 ++ l2).
Proof. intros. by apply Forall_app. Qed.
Lemma quiet_cons e l : is_release e = false -> quiet l -> quiet (e :: l).
Proof. by constructor. Qed.
Lemma quiet_nil : quiet [].
Proof. constructor. Qed.
#[local] Hint Resolve quiet_app quiet_cons quiet_nil : core.
Lemma controller_quiet d : quiet (controller_effects d).
Proof. unfold controller_effects. auto. Qed.
#[local] Hint Resolve controller_quiet : core.

Lemma maintenance_quiet windows readings : forall eff ok,
  wait_for_maintenance windows readings = Some (eff, ok) -> quiet eff.
Proof.
  induction readings as [|[[h m] w] rest IH]; intros eff ok; simpl; [done|].
  destruct (negb _ && _); [|intros [= <- _]; auto]. destruct w; [|intros [= <- _]; auto].
  intros ([eff' ok'] & Hw & [= <- _])%bind_Some. eauto.
Qed.

Lemma health_quiet turns : forall next backoff eff n' b' ok,
  wait_for_health settings next backoff turns = Some (eff, n', b', ok) -> quiet eff.
Proof.
  induction turns as [|t rest IH]; intros next backoff eff n' b' ok; [done|].
  cbn [wait_for_health].
  destruct (ht_cancelled t); [intros [= <- _ _ _]; auto|].
  destruct (health_probe_action _ _ _ _); [intros [= <- _ _ _]; auto| |].
  - destruct (ht_wait t); [by eauto|intros [= <- _ _ _]; auto].
  - destruct (probe_healthy _); [intros [= <- _ _ _]; auto|].
    destruct (ht_wait t); [|intros [= <- _ _ _]; auto].
    intros ([[[eff' n1] b1] ok1] & Hw & [= <- _ _ _])%bind_Some. eauto.
Qed.

Lemma recovery_quiet turns : forall c eff c' r,
  wait_for_controller_recovery c turns = Some (eff, c', r) -> quiet eff.
Proof.
  induction turns as [|t rest IH]; intros c eff c' r; cbn [wait_for_controller_recovery];
    (destruct (is_paused _); cbn [negb]; [|intros [= <- _ _]; auto]); [done|].
  destruct (rt_cancelled t); [intros [= <- _ _]; auto|].
  destruct (rt_wait t); cbn [negb]; [|intros [= <- _ _]; auto].
  destruct (Adaptive.observe _ _ _) as [c1 d]. destruct (rt_pacing t).
  - intros ([[eff' c2] r2] & Hw & [= <- _ _])%bind_Some. do 2 (apply quiet_cons; [done|]). by eauto.
  - intros [= <- _ _]. auto.
Qed.

Lemma ready_quiet windows st turns st' eff r :
  wait_for_build_readiness settings windows st turns = Some (st', eff, r) -> quiet eff.
Proof.
  unfold wait_for_build_readiness. intros ([eff1 ok] & H1%maintenance_quiet & Hw)%bind_Some.
  destruct ok; cbn [negb] in Hw; [|by injection Hw as _ <- _].
  apply bind_Some in Hw as ([[[eff2 next] backoff] ok] & H2%health_quiet & Hw).
  destruct ok; cbn [negb] in Hw; [|injection Hw as _ <- _; auto].
  destruct (controller st) as [c|]; [|injection Hw as _ <- _; auto].
  apply bind_Some in Hw as ([[eff3 c'] res] & H3%recovery_quiet & Hw).
  destruct res as [[]|]; injection Hw as _ <- _; auto 6.
Qed.

Lemma commit_quiet env db st db' st' eff r :
  commit_pending_entries_with_telemetry server generation env db st = (db', st', eff, r) -> quiet eff.
Proof.
  unfold commit_pending_entries_with_telemetry, commit_pending_entries.
  destruct (pending st); [intros [= _ _ <- _]; auto|].
  destruct (with_database_write _ _ _). intros [= _ _ <- _]. auto.
Qed.

Lemma event_quiet env db st event db' st' eff out :
  handle_inventory_event settings server generation env db st event = Some (db', st', eff, out) ->
  quiet eff.
Proof.
  destruct event as [[entry|p|slice|c]|e]; cbn [handle_inventory_event];
    [| | |intros [= _ _ <- _]; auto..].
  - unfold handle_entry_event. intros ([lim granted] & _ & He)%bind_Some.
    destruct granted; cbn [negb] in He; [|injection He as _ _ <- _; auto].
    destruct (_ <? _); [injection He as _ _ <- _; auto|].
    destruct (commit_pending_entries_with_telemetry _ _ _ _ _) as [[[? ?] eff1] r1] eqn:E.
    apply commit_quiet in E. by destruct r1; injection He as _ _ <- _.
  - unfold handle_progress_event, enforce_duty_cycle.
    destruct (with_database_write _ _ _) as [? []]; [|intros [= _ _ <- _]; auto].
    destruct (_ <? _); [|intros [= _ _ <- _]; auto].
    destruct (_ <=? _); [intros [= _ _ <- _]; auto|].
    destruct (can_pause env), (still_running env), (can_resume env); intros [= _ _ <- _]; simpl; auto.
  - unfold handle_slice_event. destruct (controller _); [|intros [= _ _ <- _]; auto].
    destruct (Adaptive.observe _ _ _). destruct (slice_pacing env); intros [= _ _ <- _]; auto 6.
Qed.

Lemma turn_quiet windows turn db st db' st' eff cont :
  loop_turn settings server generation windows turn db st = Some (db', st', eff, cont) -> quiet eff.
Proof.
  unfold loop_turn, commit_pending_if_due.
  assert (Hc : forall b, exists db1 st1 eff1 due,
    (if b : bool then (db, st, [], Ok tt) else
     let '(db, state, effects, result) :=
       commit_pending_entries_with_telemetry server generation (lt_commit turn) db st in
     match result with
     | Ok inserted => (db, with_persisted state inserted (commit_now (lt_commit turn)), effects, Ok tt)
     | Err error => (db, state, effects, Err error)
     end) = (db1, st1, eff1, due) /\ quiet eff1).
  { intros []; [by eauto 10|].
    destruct (commit_pending_entries_with_telemetry _ _ _ _ _) as [[[? ?] eff1] r1] eqn:E.
    apply commit_quiet in E. destruct r1; eauto 10. }
  destruct (Hc (bool_decide (pending st = []) ||
     (saturating_since (lt_now turn) (last_commit_at st)
           <? from_millis (Z.max (cfg_commit_interval_ms settings) 1))))
    as (db1 & st1 & eff1 & due & -> & Q1).
  destruct due; [|by intros [= _ _ <- _]].
  intros ([[st2 eff2] ready] & Q2%ready_quiet & Ht)%bind_Some.
  destruct ready; [|injection Ht as _ _ <- _; auto..].
  destruct (lt_answer turn); [injection Ht as _ _ <- _; auto 6..|].
  apply bind_Some in Ht as ([[[db2 st3] eff3] out] & Q3%event_quiet & Ht).
  destruct out; injection Ht as _ _ <- _; auto.
Qed.

Lemma run_quiet windows turns : forall db st db' st' eff,
  run_turns settings server generation windows turns db st = Some (db', st', eff) -> quiet eff.
Proof.
  induction turns as [|t rest IH]; intros db st db' st' eff; [done|]. cbn [run_turns].
  intros ([[[db1 st1] eff1] cont] & Q%turn_quiet & Hr)%bind_Some. destruct cont.
  - apply bind_Some in Hr as ([[db2 st2] eff2] & Hr & [= <- <- <-]). eauto.
  - by injection Hr as _ _ <-.
Qed.

Lemma end_quiet e db st db' st' eff out :
  end_build_loop server generation e db st = (db', st', eff, out) -> quiet eff.
Proof.
  unfold end_build_loop. destruct (settle_build_loop e st) as [interrupted st1].
  destruct (negb _ && _ && _ && _).
  - destruct (commit_pending_entries_with_telemetry _ _ _ _ _) as [[[? ?] eff1] r1] eqn:E.
    apply commit_quiet in E. destruct r1; (destruct interrupted; [by intros [= _ _ <- _]|]);
      [destruct (failed (with_persisted _ _ _))|]; by intros [= _ _ <- _].
  - destruct interrupted; [intros [= _ _ <- _]; auto|].
    destruct (failed st1); intros [= _ _ <- _]; auto.
Qed.

(** ** The two halves of a run *)

(** Every run is a quiet part that leaves the index alone, followed by the
    finalization; a completed outcome has the whole inventory in the staging rows. *)
Lemma run_build_split run db db' effects :
  reachable db -> is_staging db -> item_ids db server generation = [] -> run_foreign run ->
  run_build settings server generation run db = Some (db', effects) ->
  exists db1 st out before final,
    effects = before ++ final /\ quiet before /\ build_base (active_view db server) db1 /\
    finalize_build server generation (run_final run) (control_was_cancelled run) db1 st out
      = (db', final) /\
    (out = Finished -> cancelled st = false -> completed st = true ->
     exists c, stream_completion (run_turns_of run) = Some c /\ completed_complete c = true /\
       completed_cancelled c = false /\ completed_truncated c = false /\
       completion_profile st = Some (completed_organization c, completed_source c) /\
       pending st = [] /\
       build_inv (active_view db server) (stream_entries (run_turns_of run)) db1 st).
Proof.
  intros Hr Hs He (Hft & Hfl & Hf1 & Hf2) Hrun. unfold run_build in Hrun.
  destruct (parse_maintenance_windows _) as [windows|error].
  2: { destruct (fail_generation_and_schedule_cleanup _ _ _ _ _) as [db1 eff] eqn:E.
       exists db, (new_run_state settings None 0), (LoopFailed error), [CancelControl],
         (eff ++ [FinishBuild (Some error)]).
       injection Hrun as <- <-. split; [done|]. split; [auto|].
       split; [by apply (new_state_inv db None 0)|]. split; [|done]. cbn. by rewrite E. }
  set (ctl := then_some (cfg_adaptive settings) _) in Hrun. cbv zeta in Hrun.
  pose proof (new_state_inv db ctl (build_started run) Hr Hs He) as HI.
  set (st0 := new_run_state settings ctl (build_started run)) in *.
  assert (Hc0 : completed st0 = false) by done. clearbody st0.
  apply bind_Some in Hrun as ([[[db2 st2] eff2] out] & Hloop & Hfin).
  unfold run_build_loop in Hloop. apply bind_Some in Hloop as ([[db1 st1] eff1] & Hturns & Hend).
  destruct (run_ok _ _ _ _ _ _ _ _ _ Hft HI Hc0 Hturns) as [[rcv HI1] Hcase].
  destruct (end_build_loop _ _ _ _ _) as [[[db2' st2'] eff2'] out'] eqn:Ee.
  injection Hend as -> -> <- ->. destruct (end_ok _ _ _ _ _ _ _ _ _ Hfl HI1 Ee) as (B2 & Hcomp & _).
  destruct (finalize_build _ _ _ _ _ _ _) as [db3 eff3] eqn:Ef. injection Hfin as -> <-.
  exists db2, st2, out, ((match ctl with
    | Some c => [UpdateRuntimeController (Adaptive.limits c) (Adaptive.state c) None]
    | None => [] end) ++ eff1 ++ eff2'), eff3.
  split; [by rewrite <- !app_assoc|]. split.
  { apply run_quiet in Hturns. apply end_quiet in Ee. destruct ctl; simpl; auto. }
  split; [done|]. split; [done|]. intros -> Hcan Hdone.
  destruct Hcase as [Hn|(c & Hsc & HI1' & st & ms & -> & Hflags)]; [congruence|].
  destruct (end_ok _ _ _ _ _ _ _ _ _ Hfl HI1' Ee) as (_ & _ & Hok).
  destruct (Hok eq_refl eq_refl Hcan) as (Hfailed & Hcan' & _ & Hprof & Hpend & HI2).
  cbn in Hfailed, Hcan', Hcomp, Hprof. exists c. destruct (completed_truncated c); [done|].
  split; [done|]. split; [congruence|]. done.
Qed.

(** C6: a build publishes a complete inventory or nothing. In every run, whatever other
    tasks write meanwhile and whichever wait, event, write or shutdown fails, the
    index that searches of the server read is either exactly the one before the
    build, or the stream ended with a completion that is complete, neither cancelled
    nor truncated, the build was not cancelled, and the index is the build's
    generation holding the first entry of every ItemID the stream delivered, in
    order, in both tables, with that number as its count and the completion's
    profile. *)
Theorem build_publishes_inventory (run : BuildRun) (db db' : IndexDb) (effects : list Effect)
    (Hr : reachable db) (Hs : is_staging db) (He : item_ids db server generation = [])
    (Hf : run_foreign run) (Hrun : run_build settings server generation run db = Some (db', effects)) :
  active_view db' server = active_view db server \/
  exists c view, stream_completion (run_turns_of run) = Some c /\ completed_complete c = true /\
    completed_cancelled c = false /\ completed_truncated c = false /\
    control_was_cancelled run = false /\ active_view db' server = [view] /\
    published c (stream_entries (run_turns_of run)) view.
Proof.
  destruct (run_build_split _ _ _ _ Hr Hs He Hf Hrun)
    as (db1 & st & out & before & final & _ & _ & B & Ef & Hdone).
  destruct Hf as (_ & _ & Hf1 & Hf2). rewrite <- (base_view _ _ B). pose proof (base_wf _ _ B) as W.
  unfold finalize_build in Ef. destruct out as [| |error].
  - destruct (completed st && negb (cancelled st) && negb (control_was_cancelled run)) eqn:Ec.
    + rewrite !andb_true_iff, !negb_true_iff in Ec. destruct Ec as [[Ec1 Ec2] Ec3].
      destruct (Hdone eq_refl Ec2 Ec1) as (c & H1 & H2 & H3 & H4 & Hprof & Hpend & HI).
      unfold finish_completed_build in Ef.
      destruct (promote_completed_build _ _ _ _ _) as [[db2 eff2] r2] eqn:Ep.
      pose proof (promote_published _ _ _ _ _ c _ _ _ HI Hpend Hprof Hf1 Ep) as Hpub.
      destruct r2 as [u|e].
      * injection Ef as <- _. right. destruct Hpub as (view & Hv & Hpub). by exists c, view.
      * left. destruct (fail_generation_and_schedule_cleanup _ _ _ _ _) as [db3 eff3] eqn:E3.
        injection Ef as <- _. rewrite (base_view _ _ B), <- (base_view _ _ Hpub).
        exact (fail_view _ _ _ _ _ (base_wf _ _ Hpub) Hf2 E3).
    + left. destruct (abandon_generation _ _ _ _ _ _) as [db2 eff2] eqn:Ea.
      injection Ef as <- _. exact (abandon_view _ _ _ _ _ _ W Hf1 Hf2 Ea).
  - left. destruct (fail_generation_and_schedule_cleanup _ _ _ _ _) as [db2 eff2] eqn:Ea.
    injection Ef as <- _. exact (fail_view _ _ _ _ _ W Hf1 Ea).
  - left. destruct (fail_generation_and_schedule_cleanup _ _ _ _ _) as [db2 eff2] eqn:Ea.
    injection Ef as <- _. exact (fail_view _ _ _ _ _ W Hf1 Ea).
Qed.

(** ** No staging generation stays behind *)

Definition settled (db : IndexDb) : Prop :=
  forall row, In row (generations db) -> g_key row = (server, generation) -> g_state row <> Staging.

Lemma fail_settled env error db db' eff :
  generation <= i64_max -> io_error env = None ->
  fail_generation_and_schedule_cleanup server generation env error db = (db', eff) -> settled db'.
Proof.
  intros Hg Hio. unfold fail_generation_and_schedule_cleanup, with_database_write. rewrite Hio.
  unfold fail_generation, i64_try_from. rewrite (proj2 (Z.leb_le _ _) Hg). intros [= <- _].
  intros row Hrow Hk Hs. simpl in Hrow. apply in_map_iff in Hrow as (r & <- & _).
  destruct (has_key server generation r && is_state Staging r) eqn:E; [done|].
  rewrite (proj2 (has_key_iff _ _ _) Hk), (proj2 (is_state_iff _ _) Hs) in E. done.
Qed.

Lemma abandon_settled discard fail reason db db' eff :
  wf db -> generation <= i64_max -> Forall foreign (others discard) ->
  io_error discard = None -> io_error fail = None ->
  abandon_generation server generation discard fail reason db = (db', eff) -> settled db'.
Proof.
  intros W Hg Hd Hio1 Hio2. destruct (others_view _ db W Hd) as [W0 _].
  unfold abandon_generation, with_database_write at 1. rewrite Hio1.
  unfold discard_empty_generation, i64_try_from. rewrite (proj2 (Z.leb_le _ _) Hg).
  set (db0 := fold_left db_exec (others discard) db) in *. cbv zeta.
  set (p := fun r => _ && _ && negb _ && negb _).
  destruct (Z.eqb_spec (count_where p (generations db0)) 1) as [Hc|_];
    [|by apply (fail_settled fail reason)].
  intros [= <- _] row Hrow Hk Hs.
  destruct (proj1 (count_where_pos p (generations db0)) ltac:(lia)) as (x & Hx & Hp).
  simpl in Hrow. apply In_delete_where in Hrow as [Hrow Hn].
  assert (Hkx : g_key x = (server, generation)).
  { apply has_key_iff. unfold p in Hp. rewrite !andb_true_iff in Hp. tauto. }
  rewrite (NoDup_map_inj g_key _ row x (wf_keys _ W0) Hrow Hx) in Hn by congruence. congruence.
Qed.

Lemma promote_settled env db st db' eff u :
  wf db -> Forall foreign (others (first_write env)) ->
  promote_completed_build server generation env db st = (db', eff, Ok u) -> settled db'.
Proof.
  intros W Hf. destruct (others_view _ db W Hf) as [W0 _].
  unfold promote_completed_build, with_database_write. destruct (io_error _); [done|].
  set (db0 := fold_left db_exec _ db) in *.
  pose proof (promote_spec db0 server generation (timestamp_now (final_now env))
    (persisted_item_count st) (completion_profile st) (completion_warning st) W0) as Hs.
  destruct (promote_with_profile _ _ _ _ _ _ _) as [db1 [u1|]]; [|done].
  destruct Hs as (_ & _ & _ & ->). intros [= <- _ _] row Hrow Hk Hst. simpl in Hrow.
  apply in_map_iff in Hrow as (r & <- & _). unfold promote_row in Hk, Hst.
  destruct (has_key server generation r && is_state Staging r) eqn:E; [done|].
  destruct (of_server server r && is_state Active r); [done|].
  rewrite (proj2 (has_key_iff _ _ _) Hk), (proj2 (is_state_iff _ _) Hst) in E. done.
Qed.

Lemma fail_quiet env error db db' eff :
  fail_generation_and_schedule_cleanup server generation env error db = (db', eff) -> quiet eff.
Proof.
  unfold fail_generation_and_schedule_cleanup. destruct (with_database_write _ _ _) as [? r].
  intros [= _ <-]. destruct (is_ok r); auto.
Qed.

Lemma finalize_release env ctl db st out db' final :
  finalize_build server generation env ctl db st out = (db', final) ->
  exists before release, final = before ++ [release] /\ is_release release = true /\ quiet before.
Proof.
  unfold finalize_build, finish_completed_build, promote_completed_build, abandon_generation.
  destruct out as [| |error].
  - destruct (_ && _ && _).
    + destruct (with_database_write _ _ _) as [db1 [u|e]].
      * intros [= _ <-]. exists [MarkPromoting; ClearPromoting; ScheduleCleanup; ClearServerCache],
          (FinishBuild None). auto 7.
      * destruct (fail_generation_and_schedule_cleanup _ _ _ _ _) as [db2 eff] eqn:E.
        apply fail_quiet in E. intros [= _ <-].
        exists (MarkPromoting :: ClearPromoting :: eff), (FinishBuild (Some e)). auto.
    + destruct (with_database_write _ _ _) as [db1 [[]|]]; try (intros [= _ <-]; exists [], (FinishBuild None); by auto).
      destruct (fail_generation_and_schedule_cleanup _ _ _ _ _) as [db2 eff] eqn:E.
      apply fail_quiet in E. intros [= _ <-]. eauto.
  - destruct (fail_generation_and_schedule_cleanup _ _ _ _ _) as [db2 eff] eqn:E.
    apply fail_quiet in E. intros [= _ <-]. eauto.
  - destruct (fail_generation_and_schedule_cleanup _ _ _ _ _) as [db2 eff] eqn:E.
    apply fail_quiet in E. intros [= _ <-]. eauto.
Qed.

Lemma finalize_settled env ctl db st out db' final :
  wf db -> generation <= i64_max -> Forall foreign (others (first_write env)) ->
  io_error (first_write env) = None -> io_error (second_write env) = None ->
  finalize_build server generation env ctl db st out = (db', final) -> settled db'.
Proof.
  intros W Hg Hf Hio1 Hio2. unfold finalize_build, finish_completed_build.
  destruct out as [| |error].
  - destruct (_ && _ && _).
    + destruct (promote_completed_build _ _ _ _ _) as [[db1 eff1] [u|e]] eqn:Ep.
      * intros [= <- _]. by eapply promote_settled.
      * destruct (fail_generation_and_schedule_cleanup _ _ _ _ _) as [db2 eff] eqn:E.
        intros [= <- _]. exact (fail_settled _ _ _ _ _ Hg Hio2 E).
    + destruct (abandon_generation _ _ _ _ _ _) as [db2 eff] eqn:E.
      intros [= <- _]. exact (abandon_settled _ _ _ _ _ _ W Hg Hf Hio1 Hio2 E).
  - destruct (fail_generation_and_schedule_cleanup _ _ _ _ _) as [db2 eff] eqn:E.
    intros [= <- _]. exact (fail_settled _ _ _ _ _ Hg Hio1 E).
  - destruct (fail_generation_and_schedule_cleanup _ _ _ _ _) as [db2 eff] eqn:E.
    intros [= <- _]. exact (fail_settled _ _ _ _ _ Hg Hio1 E).
Qed.

(** C7: a build leaves nothing behind. When the writes of its finalization go through,
    no run leaves the generation staging: it is promoted, failed or deleted. And in
    every run the release of the build, which lets the next one start, is the last
    thing the build does and happens once. *)
Theorem build_settles (run : BuildRun) (db db' : IndexDb) (effects : list Effect)
    (Hr : reachable db) (Hs : is_staging db) (He : item_ids db server generation = [])
    (Hf : run_foreign run) (Hrun : run_build settings server generation run db = Some (db', effects)) :
  (io_error (first_write (run_final run)) = None ->
   io_error (second_write (run_final run)) = None ->
   forall row, In row (generations db') -> g_key row = (server, generation) ->
     g_state row <> Staging) /\
  exists before release, effects = before ++ [release] /\ is_release release = true /\
    Forall (fun e => is_release e = false) before.
Proof.
  destruct (run_build_split _ _ _ _ Hr Hs He Hf Hrun)
    as (db1 & st & out & before & final & -> & Hq & B & Ef & _).
  destruct Hf as (_ & _ & Hf1 & _). split.
  - intros Hio1 Hio2. refine (finalize_settled _ _ _ _ _ _ _ (base_wf _ _ B) _ Hf1 Hio1 Hio2 Ef).
    destruct Hs as (r & Hin & Hk & _). pose proof (wf_numbers _ (wf_reachable _ Hr) r Hin).
    injection Hk as _ Hk. lia.
  - destruct (finalize_release _ _ _ _ _ _ _ Ef) as (q & e & -> & Hrel & Hq').
    exists (before ++ q), e. rewrite app_assoc.
    split; [done|]. split; [done|]. by apply quiet_app.
Qed.

End BuildSpec.

(** ** Witnesses *)

Definition demo_settings : ResolvedIndexConfig := resolve_index_config None default_index_config.
Definition demo_started : IndexDb := (start_generation demo_db "line" OrgHierarchical SourceDa3 "7000").1.
Definition demo_env (others : list db_op) : WriteEnv := {| others := others; io_error := None |}.
Definition demo_commit (others : list db_op) : CommitEnv :=
  {| commit_write := demo_env others; commit_started := 0; commit_now := 0 |}.

(** A healthy turn with one event; meanwhile another server's index is deleted. *)
Definition demo_turn (event : InventoryEvent) : LoopTurn :=
  {| lt_now := 0;
     lt_commit := demo_commit [];
     lt_ready :=
       {| maintenance_turns := [(0, 0, true)];
          health_turns :=
            [{| ht_cancelled := false; ht_now := 0; ht_checked := None; ht_overlay := false;
                ht_capability := Ok tt; ht_elapsed := 0; ht_qualities := Ok []; ht_probed := 0;
                ht_wait := true |}];
          recovery_turns := [] |};
     lt_answer := StreamEvent (Ok event);
     lt_event :=
       {| acquire_turns := [{| turn_cancelled := false; turn_now := 0; turn_wait := true |}];
          event_commit := demo_commit [];
          progress_write := demo_env [];
          can_pause := true; still_running := true; can_resume := true; control_cancelled := false;
          slice_now := 0;
          slice_observation :=
            Adaptive.mk_observation false false false None None false None None None None None false;
          slice_pacing := Ok tt;
          elapsed_since_start := 0 |} |}.

Definition demo_completed : InventoryCompleted :=
  {| completed_complete := true; completed_cancelled := false; completed_truncated := false;
     completed_warning := None; completed_organization := OrgHierarchical;
     completed_source := SourceDa3 |}.
Definition demo_run : BuildRun :=
  {| build_started := 0;
     run_turns_of :=
       [demo_turn (Entry (demo_entry [65] [66])); demo_turn (Entry (demo_entry [65] [67]));
        demo_turn (Entry (demo_entry [68] [69])); demo_turn (Completed demo_completed)];
     run_end :=
       {| gateway_shutting_down := false; operator_cancelled_build := Ok false;
          stream_shutdown := Ok tt; last_commit := demo_commit [OpDeleteIndex "plc"] |};
     control_was_cancelled := false;
     run_final :=
       {| first_write := demo_env [OpEnroll "plc" "1"]; second_write := demo_env [];
          final_now := 0 |} |}.

Definition demo_build_result : IndexDb * list Effect :=
  match run_build (H := ascii_text) demo_settings "line" 1 demo_run demo_started with
  | Some r => r
  | None => (demo_started, [])
  end.

Lemma demo_build_runs :
  run_build (H := ascii_text) demo_settings "line" 1 demo_run demo_started
    = Some (demo_build_result.1, demo_build_result.2).
Proof. vm_compute. reflexivity. Qed.

Lemma demo_started_reachable : reachable (H := ascii_text) demo_started.
Proof. apply (reachable_start (H := ascii_text)), demo_reachable. Qed.

Lemma demo_started_staging : is_staging "line" 1 demo_started.
Proof.
  assert (Hb : existsb (fun r => has_key "line" 1 r && is_state Staging r) (generations demo_started)
    = true) by (vm_compute; reflexivity).
  apply existsb_exists in Hb as (r & Hr & [Hk Hs]%andb_true_iff). exists r.
  split; [exact Hr|]. split; [apply has_key_iff, Hk|apply is_state_iff, Hs].
Qed.

Lemma demo_started_empty : item_ids demo_started "line" 1 = [].
Proof. vm_compute. reflexivity. Qed.

Lemma demo_run_foreign : run_foreign "line" demo_run.
Proof. by repeat (constructor || split). Qed.

Lemma build_publishes_inventory_witness :
  exists view, active_view demo_build_result.1 "line" = [view] /\
    map e_item_id (ai_entries view) = [[65]; [68]].
Proof.
  destruct (build_publishes_inventory (H := ascii_text) demo_settings "line" 1 demo_run demo_started
    demo_build_result.1 demo_build_result.2 demo_started_reachable demo_started_staging
    demo_started_empty demo_run_foreign demo_build_runs)
    as [Hv|(c & view & _ & _ & _ & _ & _ & Hv & _ & He & _)].
  - exfalso. assert (Hl : length (active_view demo_build_result.1 "line") =
      length (active_view demo_started "line")) by by rewrite Hv.
    vm_compute in Hl. discriminate.
  - exists view. split; [exact Hv|]. rewrite He. vm_compute. reflexivity.
Defined.

Lemma build_settles_witness :
  Forall (fun row => g_key row = ("line"%string, 1) -> g_state row <> Staging)
    (generations demo_build_result.1).
Proof.
  apply List.Forall_forall.
  apply (build_settles (H := ascii_text) demo_settings "line" 1 demo_run demo_started
    demo_build_result.1 demo_build_result.2 demo_started_reachable demo_started_staging
    demo_started_empty demo_run_foreign demo_build_runs); reflexivity.
Defined.
