(* ===== verification/Coordinated.v ===== *)
(** * The coordinated inventory (index/traversal.rs)

    With several workers per build, the roots of a hierarchical namespace are
    shared out: every worker takes a root from a queue, opens the native inventory
    below it, registers its control with the coordinated control and forwards the
    events of the stream to a coordinator, which merges them into one stream for the
    build. The control calls of the build (pause, resume, cancel, pacing) reach the
    registered workers through a snapshot of the registry, so they interleave with
    registrations; the model takes each atomic read or write as a step, except that a
    message and the flag its sender writes right after it are one. *)
From S2P Require Import Prelude Text TopK Opc Controller.

(** ** The plan *)

Record InventoryRootPlan := {
  root_entries : list InventoryEntry;
  worker_roots : list ustr;
  plan_organization : NamespaceOrganization;
  plan_source : BrowseSource
}.

Definition root_entry (node : BrowseNode) (item_id : ustr) (kind : InventoryNodeKind) :
    InventoryEntry :=
  {| entry_display_name := node_display_name node; entry_item_id := item_id;
     entry_kind := kind; entry_breadcrumbs := [] |}.

(** One node of the root page: the entry it is, the root it gives. *)
Definition plan_node (plan : list InventoryEntry * list ustr) (node : BrowseNode) :
    list InventoryEntry * list ustr :=
  let '(entries, roots) := plan in
  match node_item_id node with
  | None => plan
  | Some item_id =>
      match node_kind node with
      | NodeItem => (entries ++ [root_entry node item_id InventoryItem], roots)
      | NodeBranchAndItem =>
          (entries ++ [root_entry node item_id InventoryBranchAndItem], roots ++ [item_id])
      | NodeBranch => (entries, roots ++ [item_id])
      end
  end.

(** [dedup]: of equal neighbours the first stays. *)
Fixpoint dedup (l : list ustr) : list ustr :=
  match l with
  | a :: ((b :: _) as rest) => if bool_decide (a = b) then dedup rest else a :: dedup rest
  | _ => l
  end.

#[local] Instance text_le_dec a b : Decision (text_le a b = true).
Proof. apply _. Defined.

(** [None]: the namespace is not worth sharing out. *)
Definition plan_inventory_roots (page : BrowsePage) : option InventoryRootPlan :=
  let '(entries, roots) := fold_left plan_node (page_nodes page) ([], []) in
  let roots := dedup (merge_sort (fun a b => text_le a b = true) roots) in
  if (length roots <? 2)%nat then None
  else Some {| root_entries := entries; worker_roots := roots;
               plan_organization := page_organization page; plan_source := page_source page |}.

(** The answers of the client to the four calls of the discovery; the session is closed
    whatever the page was, and its error comes second. *)
Definition discover_inventory_roots (capabilities : result BrowseCapabilities string)
    (session : result string string) (page : result BrowsePage string)
    (close : result unit string) : result (option InventoryRootPlan) string :=
  let? capabilities := capabilities in
  if negb (bool_decide (cap_organization capabilities = OrgHierarchical))
     || negb (cap_supports_browse_sessions capabilities)
  then Ok None
  else
    let? _ := session in
    let? page := page in
    let? _ := close in
    if negb (page_complete page) || is_some (page_next_page_token page)
    then Err "inventory root browse returned a continuation page"
    else Ok (plan_inventory_roots page).

(** The page size the discovery asks for. *)
Definition root_page_size (capabilities : BrowseCapabilities) : Z :=
  clamp 1 MAX_NATIVE_INVENTORY_BATCH_SIZE (cap_max_page_size capabilities).

(** ** Progress *)

Definition secs_f64_of_millis (ms : Z) : f64 :=
  SFadd 53 1024 (f64_of_Z (ms / 1000))
    (SFdiv 53 1024 (f64_of_Z (ms mod 1000 * nanos_per_milli)) (f64_of_Z nanos_per_sec)).
Definition rate_of (items active_time_ms : Z) : f64 :=
  if active_time_ms =? 0 then f64_of_Z 0
  else SFdiv 53 1024 (f64_of_Z items) (secs_f64_of_millis active_time_ms).

Definition zero_progress : InventoryProgress :=
  {| branches_visited := 0; entries_seen := 0; unique_items := 0; active_time_ms := 0;
     paused_time_ms := 0; items_per_second := f64_of_Z 0; estimated_remaining_ms := None |}.

Definition accumulate_inventory_progress (cumulative : InventoryProgress)
    (previous : option InventoryProgress) (progress : InventoryProgress) : InventoryProgress :=
  let previous := unwrap_or zero_progress previous in
  let advance := fun field : InventoryProgress -> Z =>
    saturating_add 64 (field cumulative) (saturating_sub (field progress) (field previous)) in
  {| branches_visited := advance branches_visited;
     entries_seen := advance entries_seen;
     unique_items := advance unique_items;
     active_time_ms := advance active_time_ms;
     paused_time_ms := advance paused_time_ms;
     items_per_second := rate_of (advance unique_items) (advance active_time_ms);
     estimated_remaining_ms := estimated_remaining_ms progress |}.

(** The sums wrap in the release profile; the order of the workers does not matter. *)
Definition aggregate_inventory_progress (progress_by_worker : gmap nat InventoryProgress)
    (unique : Z) : InventoryProgress :=
  let workers := map snd (map_to_list progress_by_worker) in
  let sum := fun field : InventoryProgress -> Z =>
    fold_right (fun p total => (field p + total) mod 2 ^ 64) 0 workers in
  {| branches_visited := sum branches_visited;
     entries_seen := sum entries_seen;
     unique_items := unique;
     active_time_ms := sum active_time_ms;
     paused_time_ms := sum paused_time_ms;
     items_per_second := rate_of unique (sum active_time_ms);
     estimated_remaining_ms :=
       match omap estimated_remaining_ms workers with
       | [] => None
       | ms :: rest => Some (fold_left Z.max rest ms)
       end |}.

(** ** The coordinated control *)

(** The control of one native inventory; a handle is its identity. *)
Record Native := mk_native {
  native_cancelled : bool;
  native_paused : bool;
  native_pacing : InventoryPacing
}.
Definition new_native : Native := mk_native false false pacing_default.
Definition cancel_native (n : Native) : Native := mk_native true (native_paused n) (native_pacing n).
Definition pause_native (paused : bool) (n : Native) : Native :=
  mk_native (native_cancelled n) paused (native_pacing n).
Definition pace_native (p : InventoryPacing) (n : Native) : Native :=
  mk_native (native_cancelled n) (native_paused n) p.

(** A call whose flag is written and whose snapshot is still to be taken. *)
Inductive ControlCall := CallPause | CallResume | CallCancel | CallSetPacing (p : InventoryPacing).
#[export] Instance InventoryPacing_eq_dec : EqDecision InventoryPacing.
Proof. solve_decision. Defined.
#[export] Instance ControlCall_eq_dec : EqDecision ControlCall.
Proof. solve_decision. Defined.

Record Control := mk_control {
  controls : gmap nat nat;              (* worker -> handle *)
  natives : gmap nat Native;            (* the controls themselves *)
  cancelled : bool;
  worker_stop_requested : bool;
  paused : bool;
  pacing : InventoryPacing;
  in_flight : list ControlCall
}.

Definition new_control (initial_pacing : InventoryPacing) : Control :=
  mk_control ∅ ∅ false false false initial_pacing [].

Definition should_stop_workers (c : Control) : bool := cancelled c || worker_stop_requested c.

Definition with_natives (c : Control) (n : gmap nat Native) : Control :=
  mk_control (controls c) n (cancelled c) (worker_stop_requested c) (paused c) (pacing c)
    (in_flight c).
Definition alter_native (f : Native -> Native) (h : nat) (c : Control) : Control :=
  with_natives c (alter f h (natives c)).
Definition with_controls (c : Control) (m : gmap nat nat) : Control :=
  mk_control m (natives c) (cancelled c) (worker_stop_requested c) (paused c) (pacing c)
    (in_flight c).
Definition unregister (w : nat) (c : Control) : Control := with_controls c (delete w (controls c)).

(** [pause_all], [resume_all], [cancel] and [set_pacing] up to the snapshot. *)
Definition begin_call (call : ControlCall) (c : Control) : Control :=
  mk_control (controls c) (natives c)
    (match call with CallCancel => true | _ => cancelled c end)
    (match call with CallCancel => true | _ => worker_stop_requested c end)
    (match call with CallPause => true | CallResume => false | _ => paused c end)
    (match call with CallSetPacing p => p | _ => pacing c end)
    (call :: in_flight c).

Definition snapshot_controls (c : Control) : list nat := map snd (map_to_list (controls c)).

(** The rest of a call: the snapshot and the call on each control in it. [accepted] are
    the controls that take a new pacing; a refusal cancels everything. *)
Definition remove_call (call : ControlCall) (l : list ControlCall) : list ControlCall :=
  match list_find (fun c => c = call) l with
  | Some (i, _) => delete i l
  | None => l
  end.

Definition end_call (call : ControlCall) (accepted : list nat) (c : Control) : Control :=
  let c :=
    mk_control (controls c) (natives c) (cancelled c) (worker_stop_requested c) (paused c)
      (pacing c) (remove_call call (in_flight c)) in
  let handles := snapshot_controls c in
  match call with
  | CallPause => fold_right (alter_native (pause_native true)) c handles
  | CallResume => fold_right (alter_native (pause_native false)) c handles
  | CallCancel => fold_right (alter_native cancel_native) c handles
  | CallSetPacing p =>
      let c := fold_right (alter_native (pace_native p)) c
                 (List.filter (fun h => bool_decide (h ∈ accepted)) handles) in
      if forallb (fun h => bool_decide (h ∈ accepted)) handles then c else begin_call CallCancel c
  end.

(** [stop_workers]. *)
Definition stop_workers (c : Control) : Control :=
  let c :=
    mk_control (controls c) (natives c) (cancelled c) true (paused c) (pacing c) (in_flight c) in
  fold_right (alter_native cancel_native) c (snapshot_controls c).

(** ** Messages of the workers *)

Inductive WorkerInventoryMessage :=
| Started (worker_id : nat)
| WorkerEntry (entry : InventoryEntry)
| WorkerProgress (worker_id : nat) (progress : InventoryProgress)
| WorkerSlice (slice : InventorySliceObservation)
| WorkerCompleted (worker_id : nat) (result : InventoryCompleted)
| WorkerFailed (worker_id : nat) (error : string)
| WorkerFinished (worker_id : nat).

Inductive WorkerEventAction := ActionContinue | ActionCompleted | ActionStop.

(** What an event of a worker's stream sends, whether it cancels the inventory, and
    what the worker does next. The receiver outlives the workers, so that no send
    fails. *)
Definition forward_inventory_event (event : result InventoryEvent string) (worker_id : nat)
    (stopping : bool) : list WorkerInventoryMessage * bool * WorkerEventAction :=
  match event with
  | Ok (Entry entry) => ([WorkerEntry entry], false, ActionContinue)
  | Ok (Progress progress) => ([WorkerProgress worker_id progress], false, ActionContinue)
  | Ok (Slice slice) => ([WorkerSlice slice], false, ActionContinue)
  | Ok (Completed result) => ([WorkerCompleted worker_id result], false, ActionCompleted)
  | Err error =>
      if stopping then ([], false, ActionStop)
      else ([WorkerFailed worker_id error], true, ActionStop)
  end.

(** ** The coordinator *)

Record Merge := mk_merge {
  seen : gset ustr;
  worker_progress : gmap nat InventoryProgress;
  worker_last_progress : gmap nat InventoryProgress;
  next_slice_sequence : Z
}.
Definition new_merge : Merge := mk_merge ∅ ∅ ∅ 0.

(** An answer of [emit_coordinated_entry]: the events sent, and whether a send found the
    stream dropped. [open]: the stream is not dropped. *)
Definition emit_coordinated_entry (open : bool) (entry : InventoryEntry) (m : Merge) :
    Merge * list (result InventoryEvent string) * bool :=
  if bool_decide (entry_item_id entry ∈ seen m) then (m, [], false)
  else
    let m := mk_merge ({[entry_item_id entry]} ∪ seen m) (worker_progress m)
               (worker_last_progress m) (next_slice_sequence m) in
    if open then (m, [Ok (Entry entry)], false) else (m, [], true).

(** The root entries; a failed send cancels and ends the loop. *)
Fixpoint emit_root_entries (open : bool) (entries : list InventoryEntry) (m : Merge) :
    Merge * list (result InventoryEvent string) * bool :=
  match entries with
  | [] => (m, [], false)
  | entry :: rest =>
      let '(m, sent, closed) := emit_coordinated_entry open entry m in
      if closed then (m, sent, true)
      else
        let '(m, more, closed) := emit_root_entries open rest m in
        (m, sent ++ more, closed)
  end.

(** Sending to the build's stream. *)
Definition send (open : bool) (event : result InventoryEvent string) :
    list (result InventoryEvent string) := if open then [event] else [].

(** One message: the merged state, the events sent, whether the inventory is cancelled,
    and whether the coordinator gives up. *)
Definition handle_worker_message (open : bool) (message : WorkerInventoryMessage) (m : Merge) :
    Merge * list (result InventoryEvent string) * bool * bool :=
  match message with
  | Started worker_id =>
      (mk_merge (seen m)
         (match worker_progress m !! worker_id with
          | Some _ => worker_progress m
          | None => <[worker_id := zero_progress]> (worker_progress m)
          end)
         (delete worker_id (worker_last_progress m)) (next_slice_sequence m), [], false, false)
  | WorkerEntry entry =>
      let '(m, sent, closed) := emit_coordinated_entry open entry m in (m, sent, closed, false)
  | WorkerProgress worker_id progress =>
      let cumulative :=
        accumulate_inventory_progress
          (unwrap_or zero_progress (worker_progress m !! worker_id))
          (worker_last_progress m !! worker_id) progress in
      let progresses := <[worker_id := cumulative]> (worker_progress m) in
      let aggregate := aggregate_inventory_progress progresses (Z.of_nat (size (seen m))) in
      (mk_merge (seen m) progresses (<[worker_id := progress]> (worker_last_progress m))
         (next_slice_sequence m), send open (Ok (Progress aggregate)), false, false)
  | WorkerSlice slice =>
      let aggregate :=
        {| slice_sequence := next_slice_sequence m;
           slice_backend := slice_backend slice;
           slice_nodes_returned := slice_nodes_returned slice;
           slice_has_more := slice_has_more slice;
           slice_native_operations := slice_native_operations slice;
           slice_elapsed_ms := slice_elapsed_ms slice;
           slice_entries_seen := slice_entries_seen slice;
           slice_unique_items := Z.of_nat (size (seen m)) |} in
      (mk_merge (seen m) (worker_progress m) (worker_last_progress m)
         (saturating_add 64 (next_slice_sequence m) 1),
       send open (Ok (Slice aggregate)), false, false)
  | WorkerCompleted worker_id result =>
      if negb (completed_complete result) && negb (completed_cancelled result)
         && negb (completed_truncated result)
      then (m, send open (Err "inventory worker ended before completion"), true, true)
      else (m, [], false, false)
  | WorkerFailed worker_id error =>
      (m, send open (Err (String.append "inventory worker failed: " error)), true, true)
  | WorkerFinished _ => (m, [], false, false)
  end.

(** [finish_coordinated_inventory_after_channel_close], when every worker task ended. *)
Definition coordinated_completion (plan : InventoryRootPlan) (was_cancelled : bool) :
    InventoryCompleted :=
  {| completed_complete := negb was_cancelled;
     completed_cancelled := was_cancelled;
     completed_truncated := false;
     completed_warning := then_some was_cancelled "inventory cancelled";
     completed_organization := plan_organization plan;
     completed_source := plan_source plan |}.

(** ** Workers, coordinator and build as interleaved steps *)

Inductive WorkerPc :=
| AtTop                                       (* should_stop_workers? *)
| AtPop                                       (* pop_inventory_root *)
| AtStart (root : ustr)                       (* start_inventory_at_root *)
| AtRegister (root : ustr) (handle : nat)     (* register: the first check *)
| AtPacing (root : ustr) (handle : nat)       (* register: the pacing *)
| AtPaused (root : ustr) (handle : nat)       (* register: the paused flag *)
| AtInsert (root : ustr) (handle : nat)       (* register: under the registry's lock *)
| AtStarted (root : ustr) (handle : nat)      (* the Started message *)
| AtForward (root : ustr) (handle : nat)      (* forward_inventory_worker_stream *)
| AtClose (root : ustr) (handle : nat) (completed : bool)  (* shutdown, unregister *)
| AtEnd (root : ustr) (completed : bool)      (* the check after a root *)
| AtDrop                                      (* WorkerFinishedGuard::drop *)
| AtDone.
#[export] Instance WorkerPc_eq_dec : EqDecision WorkerPc.
Proof. solve_decision. Defined.

Inductive CoordinatorPc := Emitting | Receiving | GivingUp | Completing | CoordinatorDone.

(** [log] records, for the theorems, what the stream of each root answered. *)
Record World := mk_world {
  control : Control;
  queue : list ustr;
  channel : list WorkerInventoryMessage;
  workers : gmap nat WorkerPc;
  coordinator : CoordinatorPc;
  merge : Merge;
  output : list (result InventoryEvent string);
  stream_open : bool;
  log : list (ustr * option (result InventoryEvent string))
}.

(** The number of workers: [settings.worker_count.max(1).min(worker_roots.len())]. *)
Definition coordinated_worker_count (configured : Z) (plan : InventoryRootPlan) : nat :=
  Nat.min (Z.to_nat (Z.max 1 configured)) (length (worker_roots plan)).

Definition initial (plan : InventoryRootPlan) (worker_count : nat) (p : InventoryPacing) : World :=
  mk_world (new_control p) (worker_roots plan) []
    (list_to_map (map (fun w => (w, AtTop)) (seq 0 worker_count))) Emitting new_merge [] true [].

(** The worker's part of the world. *)
Definition at_worker (w : nat) (pc : WorkerPc) (c : Control) (sent : list WorkerInventoryMessage)
    (s : World) : World :=
  mk_world c (queue s) (channel s ++ sent) (<[w := pc]> (workers s)) (coordinator s) (merge s)
    (output s) (stream_open s) (log s).
Definition pop_inventory_root (w : nat) (s : World) : World :=
  match queue s with
  | [] => at_worker w AtDrop (control s) [] s
  | root :: rest =>
      mk_world (control s) rest (channel s) (<[w := AtStart root]> (workers s)) (coordinator s)
        (merge s) (output s) (stream_open s) (log s)
  end.
Definition logged (root : ustr) (answer : option (result InventoryEvent string)) (s : World) : World :=
  mk_world (control s) (queue s) (channel s) (workers s) (coordinator s) (merge s) (output s)
    (stream_open s) (log s ++ [(root, answer)]).

(** A failure of worker [w]: its message, and the cancellation, whose snapshot follows. *)
Definition fail_worker (w : nat) (error : string) (s : World) : World :=
  at_worker w AtDrop (begin_call CallCancel (control s)) [WorkerFailed w error] s.

(** One atomic action of worker [w] at [pc]. *)
Inductive worker_step (w : nat) (s : World) : WorkerPc -> World -> Prop :=
| step_top :
    worker_step w s AtTop
      (at_worker w (if should_stop_workers (control s) then AtDrop else AtPop) (control s) [] s)
| step_pop : worker_step w s AtPop (pop_inventory_root w s)
| step_start_ok root handle :
    natives (control s) !! handle = None ->
    worker_step w s (AtStart root)
      (at_worker w (AtRegister root handle)
         (with_natives (control s) (<[handle := new_native]> (natives (control s)))) [] s)
| step_start_err root error :
    worker_step w s (AtStart root)
      (if should_stop_workers (control s) then at_worker w AtDrop (control s) [] s
       else fail_worker w error s)
| step_register root handle :
    worker_step w s (AtRegister root handle)
      (if should_stop_workers (control s)
       then at_worker w AtDrop (alter_native cancel_native handle (control s)) [] s
       else at_worker w (AtPacing root handle) (control s) [] s)
| step_pacing root handle :
    worker_step w s (AtPacing root handle)
      (at_worker w (AtPaused root handle)
         (alter_native (pace_native (pacing (control s))) handle (control s)) [] s)
| step_pacing_err root handle error :
    worker_step w s (AtPacing root handle)
      (if should_stop_workers (control s) then at_worker w AtDrop (control s) [] s
       else fail_worker w error s)
| step_paused root handle :
    worker_step w s (AtPaused root handle)
      (at_worker w (AtInsert root handle)
         (if paused (control s) then alter_native (pause_native true) handle (control s)
          else control s) [] s)
| step_insert root handle :
    worker_step w s (AtInsert root handle)
      (if should_stop_workers (control s)
       then at_worker w AtDrop (alter_native cancel_native handle (control s)) [] s
       else at_worker w (AtStarted root handle)
              (with_controls (control s) (<[w := handle]> (controls (control s)))) [] s)
| step_started root handle :
    worker_step w s (AtStarted root handle)
      (at_worker w (AtForward root handle) (control s) [Started w] s)
| step_event root handle event :
    worker_step w s (AtForward root handle)
      (let '(sent, cancels, action) :=
         forward_inventory_event event w (should_stop_workers (control s)) in
       logged root (Some event)
         (at_worker w
            (match action with
             | ActionContinue => AtForward root handle
             | ActionCompleted => AtClose root handle true
             | ActionStop => AtClose root handle false
             end)
            (if cancels then begin_call CallCancel (control s) else control s) sent s))
| step_stream_end root handle :
    worker_step w s (AtForward root handle)
      (logged root None (at_worker w (AtClose root handle false) (control s) [] s))
| step_close root handle completed :
    worker_step w s (AtClose root handle completed)
      (at_worker w (AtEnd root completed) (unregister w (control s)) [] s)
| step_end root (completed : bool) :
    worker_step w s (AtEnd root completed)
      (if completed || should_stop_workers (control s) then
         at_worker w AtTop (control s) [] s
       else fail_worker w "inventory worker stream ended before completion" s)
| step_drop :
    worker_step w s AtDrop (at_worker w AtDone (control s) [WorkerFinished w] s).

(** The coordinator's part. *)
Definition at_coordinator (pc : CoordinatorPc) (c : Control) (m : Merge)
    (rest : list WorkerInventoryMessage) (sent : list (result InventoryEvent string)) (s : World) :
    World :=
  mk_world c (queue s) rest (workers s) pc m (output s ++ sent) (stream_open s) (log s).

Definition all_done (s : World) : Prop := map_Forall (fun _ pc => pc = AtDone) (workers s).

Inductive coordinator_step (plan : InventoryRootPlan) (s : World) : World -> Prop :=
| step_emit :
    coordinator s = Emitting ->
    coordinator_step plan s
      (let '(m, sent, closed) := emit_root_entries (stream_open s) (root_entries plan) (merge s) in
       at_coordinator Receiving
         (if closed then begin_call CallCancel (control s) else control s) m (channel s) sent s)
| step_receive message rest :
    coordinator s = Receiving -> channel s = message :: rest ->
    coordinator_step plan s
      (let '(m, sent, cancels, gives_up) :=
         handle_worker_message (stream_open s) message (merge s) in
       at_coordinator (if gives_up then GivingUp else Receiving)
         (if cancels then begin_call CallCancel (control s) else control s) m rest sent s)
| step_give_up :
    coordinator s = GivingUp -> all_done s ->
    coordinator_step plan s (at_coordinator CoordinatorDone (control s) (merge s) (channel s) [] s)
| step_channel_closed :
    coordinator s = Receiving -> channel s = [] -> all_done s ->
    coordinator_step plan s
      (at_coordinator Completing (stop_workers (control s)) (merge s) (channel s) [] s)
| step_complete :
    coordinator s = Completing ->
    coordinator_step plan s
      (at_coordinator CoordinatorDone (control s) (merge s) (channel s)
         (send (stream_open s) (Ok (Completed (coordinated_completion plan (cancelled (control s))))))
         s).

Definition with_control (c : Control) (open : bool) (s : World) : World :=
  mk_world c (queue s) (channel s) (workers s) (coordinator s) (merge s) (output s) open (log s).

Inductive step (plan : InventoryRootPlan) (s : World) : World -> Prop :=
| step_worker w pc s' : workers s !! w = Some pc -> worker_step w s pc s' -> step plan s s'
| step_coordinator s' : coordinator_step plan s s' -> step plan s s'
| step_begin_call call : step plan s (with_control (begin_call call (control s)) (stream_open s) s)
| step_end_call call accepted :
    call ∈ in_flight (control s) ->
    step plan s (with_control (end_call call accepted (control s)) (stream_open s) s)
(** the build drops its stream *)
| step_drop_stream : step plan s (with_control (begin_call CallCancel (control s)) false s).

Inductive reachable (plan : InventoryRootPlan) (worker_count : nat) (p : InventoryPacing) :
    World -> Prop :=
| reachable_initial : reachable plan worker_count p (initial plan worker_count p)
| reachable_step s s' :
    reachable plan worker_count p s -> step plan s s' -> reachable plan worker_count p s'.
