(* ===== verification/CoordinatedSpec.v ===== *)
(** * Properties of the coordinated inventory

    What a complete coordinated inventory delivered, whatever the interleaving of its
    workers, its coordinator and the control calls of the build; that a cancellation
    reaches every worker; and a pause a registering worker can miss. *)
From S2P Require Import Prelude Text TopK Opc Controller Coordinated.

(** ** Vocabulary *)

(** The entries of a list of events. *)
Definition entries_of (events : list (result InventoryEvent string)) : list InventoryEntry :=
  omap (fun e => match e with Ok (Entry entry) => Some entry | _ => None end) events.
Definition ids_of (events : list (result InventoryEvent string)) : list ustr :=
  map entry_item_id (entries_of events).

(** An answer of a root's stream that the coordinator accepts as its end. *)
Definition ended (r : InventoryCompleted) : bool :=
  completed_complete r || completed_cancelled r || completed_truncated r.
Definition answered (s : World) (root : ustr) (event : InventoryEvent) : Prop :=
  (root, Some (Ok event)) ∈ log s.

(** The root a worker has taken and not brought to its end. *)
Definition holds_root (pc : WorkerPc) : option ustr :=
  match pc with
  | AtStart root | AtRegister root _ | AtPacing root _ | AtPaused root _ | AtInsert root _
  | AtStarted root _ | AtForward root _ | AtClose root _ false | AtEnd root false => Some root
  | _ => None
  end.
Definition leaving (pc : WorkerPc) : Prop := pc = AtDrop \/ pc = AtDone.

Definition is_completed (event : result InventoryEvent string) : bool :=
  match event with Ok (Completed _) => true | _ => false end.

(** ** Events and entries *)

Lemma entries_of_app a b : entries_of (a ++ b) = entries_of a ++ entries_of b.
Proof. apply omap_app. Qed.
Lemma ids_of_app a b : ids_of (a ++ b) = ids_of a ++ ids_of b.
Proof. unfold ids_of. by rewrite entries_of_app, map_app. Qed.
Lemma elem_of_entries events entry : entry ∈ entries_of events <-> Ok (Entry entry) ∈ events.
Proof.
  unfold entries_of. rewrite list_elem_of_omap. split.
  - intros (event & Hin & He). destruct event as [[]|]; simplify_eq; done.
  - intros Hin. eexists. split; [exact Hin|done].
Qed.
Lemma elem_of_ids events id :
  id ∈ ids_of events <-> exists entry, Ok (Entry entry) ∈ events /\ entry_item_id entry = id.
Proof.
  unfold ids_of. rewrite list_elem_of_fmap. split.
  - intros (entry & -> & Hin%elem_of_entries). eauto.
  - intros (entry & Hin & <-). exists entry. by rewrite elem_of_entries.
Qed.

(** ** What a step of a worker does *)

Record worker_effect (w : nat) (s : World) (pc : WorkerPc) (s' : World) (pc' : WorkerPc)
    (sent : list WorkerInventoryMessage)
    (answers : list (ustr * option (result InventoryEvent string))) : Prop := {
  effect_workers : workers s' = <[w := pc']> (workers s);
  effect_channel : channel s' = channel s ++ sent;
  effect_log : log s' = log s ++ answers;
  effect_coordinator : coordinator s' = coordinator s;
  effect_merge : merge s' = merge s;
  effect_output : output s' = output s;
  effect_open : stream_open s' = stream_open s;
  effect_cancelled : cancelled (control s) = true -> cancelled (control s') = true;
  effect_stop : cancelled (control s') = false ->
    worker_stop_requested (control s') = worker_stop_requested (control s);
  effect_entries entry : WorkerEntry entry ∈ sent <->
    exists root, (root, Some (Ok (Entry entry))) ∈ answers;
  effect_completed root r : (root, Some (Ok (Completed r))) ∈ answers ->
    WorkerCompleted w r ∈ sent;
  effect_alive : pc <> AtDone;
  effect_roots : should_stop_workers (control s) = false -> cancelled (control s') = false ->
    (queue s' = queue s /\
      (holds_root pc' = holds_root pc \/
       exists root r, holds_root pc = Some root /\ (root, Some (Ok (Completed r))) ∈ answers)) \/
    (exists root, queue s = root :: queue s' /\ holds_root pc = None /\ holds_root pc' = Some root);
  effect_leaving : should_stop_workers (control s) = false -> cancelled (control s') = false ->
    leaving pc' -> leaving pc \/ queue s = []
}.

(** A step without an answer of a stream. *)
Lemma effect_at_worker w s pc pc' c sent :
  pc <> AtDone ->
  (cancelled (control s) = true -> cancelled c = true) ->
  (cancelled c = false -> worker_stop_requested c = worker_stop_requested (control s)) ->
  (forall entry, WorkerEntry entry ∉ sent) ->
  (should_stop_workers (control s) = false -> cancelled c = false ->
    holds_root pc' = holds_root pc /\ (leaving pc' -> leaving pc)) ->
  worker_effect w s pc (at_worker w pc' c sent s) pc' sent [].
Proof.
  intros Hpc Hc Hstop Hsent Hroot. split; simpl; try done.
  - by rewrite app_nil_r.
  - intros entry. split; [intros H; by apply Hsent in H | intros (? & H); by apply not_elem_of_nil in H].
  - intros root r H. by apply not_elem_of_nil in H.
  - intros H1 H2. left. split; [done|]. left. by apply Hroot.
  - intros H1 H2 H3. left. by apply Hroot.
Qed.

(** A step with one. *)
Lemma effect_logged w s pc pc' c sent root answer :
  pc <> AtDone ->
  (cancelled (control s) = true -> cancelled c = true) ->
  (cancelled c = false -> worker_stop_requested c = worker_stop_requested (control s)) ->
  holds_root pc = Some root -> ~ leaving pc' ->
  (forall entry, WorkerEntry entry ∈ sent <-> answer = Some (Ok (Entry entry))) ->
  (forall r, answer = Some (Ok (Completed r)) -> WorkerCompleted w r ∈ sent) ->
  (should_stop_workers (control s) = false -> cancelled c = false ->
    holds_root pc' = Some root \/ exists r, answer = Some (Ok (Completed r))) ->
  worker_effect w s pc (logged root answer (at_worker w pc' c sent s)) pc' sent [(root, answer)].
Proof.
  intros Hpc Hc Hstop Hroot Hleave Hentry Hcompleted Hnext. split; simpl; try done.
  - intros entry. rewrite Hentry. split; [intros ->; exists root; by apply list_elem_of_here |].
    intros (? & [= _ ->]%list_elem_of_singleton). done.
  - intros root' r [= -> <-]%list_elem_of_singleton. by apply Hcompleted.
  - intros H1 H2. left. split; [done|]. destruct (Hnext H1 H2) as [->|(r & ->)]; [by left|].
    right. exists root, r. split; [done|]. apply list_elem_of_here.
Qed.

Lemma begin_call_cancelled c : cancelled (begin_call CallCancel c) = true.
Proof. done. Qed.

Ltac effect_side :=
  first
    [ done
    | intros; done
    | intros ? [[=]|[]%not_elem_of_nil]%elem_of_cons
    | intros ? []%not_elem_of_nil
    | intros _ _; split; [done|]; by intros [[=]|[=]]
    | intros _ _; split; [done|intros _; by left]
    | by intros [[=]|[=]]
    | intros; congruence ].

Lemma fail_worker_effect w error s pc :
  pc <> AtDone -> worker_effect w s pc (fail_worker w error s) AtDrop [WorkerFailed w error] [].
Proof. intros Hpc. apply effect_at_worker; effect_side. Qed.

Lemma event_effect w s root handle event s' :
  s' = (let '(sent, cancels, action) :=
          forward_inventory_event event w (should_stop_workers (control s)) in
        logged root (Some event)
          (at_worker w
             (match action with
              | ActionContinue => AtForward root handle
              | ActionCompleted => AtClose root handle true
              | ActionStop => AtClose root handle false
              end)
             (if cancels then begin_call CallCancel (control s) else control s) sent s)) ->
  exists pc' sent answers, worker_effect w s (AtForward root handle) s' pc' sent answers.
Proof.
  intros ->. destruct event as [event|error]; [|simpl; destruct (should_stop_workers _)].
  - destruct event; simpl; eexists _, _, _; apply effect_logged; try effect_side.
    all: try (intros entry'; rewrite list_elem_of_singleton; split; congruence).
    all: try (intros r [= <-]; apply list_elem_of_here).
    all: intros _ _; first [by left | right; by eexists].
  - eexists _, _, _. apply effect_logged; try effect_side.
    + intros entry. split; [intros []%not_elem_of_nil|done].
    + intros _ _. by left.
  - eexists _, _, _. apply effect_logged; try effect_side.
    intros entry. rewrite list_elem_of_singleton. split; congruence.
Qed.

Lemma worker_step_effect w s pc s' :
  worker_step w s pc s' -> exists pc' sent answers, worker_effect w s pc s' pc' sent answers.
Proof.
  destruct 1; try by eapply event_effect.
  - destruct (should_stop_workers (control s)) eqn:Hstop;
      (eexists _, _, []; apply effect_at_worker; effect_side).
  - unfold pop_inventory_root. destruct (queue s) as [|root rest] eqn:Hq.
    + exists AtDrop, [], []. split; simpl; rewrite ?app_nil_r; try done.
      * intros entry. split; [intros []%not_elem_of_nil | intros (? & []%not_elem_of_nil)].
      * intros ? ? []%not_elem_of_nil.
      * intros _ _. left. split; [done|by left].
      * intros _ _ _. by right.
    + exists (AtStart root), [], []. split; simpl; rewrite ?app_nil_r; try done.
      * intros entry. split; [intros []%not_elem_of_nil | intros (? & []%not_elem_of_nil)].
      * intros ? ? []%not_elem_of_nil.
      * intros _ _. right. by exists root.
      * by intros _ _ [[=]|[=]].
  - eexists _, _, []. apply effect_at_worker; effect_side.
  - destruct (should_stop_workers (control s)) eqn:Hstop; eexists _, _, [].
    + apply effect_at_worker; effect_side.
    + by apply fail_worker_effect.
  - destruct (should_stop_workers (control s)) eqn:Hstop;
      (eexists _, _, []; apply effect_at_worker; effect_side).
  - eexists _, _, []. apply effect_at_worker; effect_side.
  - destruct (should_stop_workers (control s)) eqn:Hstop; eexists _, _, [].
    + apply effect_at_worker; effect_side.
    + by apply fail_worker_effect.
  - destruct (paused (control s)); (eexists _, _, []; apply effect_at_worker; effect_side).
  - destruct (should_stop_workers (control s)) eqn:Hstop;
      (eexists _, _, []; apply effect_at_worker; effect_side).
  - eexists _, _, []. apply effect_at_worker; effect_side.
  - eexists _, _, _. apply effect_logged; try effect_side.
    + intros entry. split; [intros []%not_elem_of_nil|done].
    + intros _ _. by left.
  - destruct completed; (eexists _, _, []; apply effect_at_worker; effect_side).
  - destruct completed; simpl; [|destruct (should_stop_workers (control s)) eqn:Hstop]; eexists _, _, [].
    + apply effect_at_worker; effect_side.
    + apply effect_at_worker; effect_side.
    + by apply fail_worker_effect.
  - eexists _, _, []. apply effect_at_worker; effect_side.
Qed.

(** ** What the coordinator emits *)

(** From [m], entries of [source] were emitted with the events [sent]; [cancels]: the
    inventory is cancelled by it. *)
Record emits (open : bool) (source : list InventoryEntry) (m : Merge)
    (sent : list (result InventoryEvent string)) (cancels : bool) (m' : Merge) : Prop := {
  emits_mono id : id ∈ seen m -> id ∈ seen m';
  emits_fresh : NoDup (ids_of sent);
  emits_new id : id ∈ ids_of sent -> id ∉ seen m /\ id ∈ seen m';
  emits_sound entry : Ok (Entry entry) ∈ sent -> entry ∈ source;
  emits_incomplete completed : Ok (Completed completed) ∉ sent;
  emits_no_error error : cancels = false -> Err error ∉ sent;
  emits_seen id : open = true -> id ∈ seen m' -> id ∈ seen m \/ id ∈ ids_of sent;
  emits_all entry : cancels = false -> entry ∈ source -> entry_item_id entry ∈ seen m'
}.

Lemma emits_quiet open source m m' sent cancels :
  seen m' = seen m -> ids_of sent = [] -> (forall completed, Ok (Completed completed) ∉ sent) ->
  (forall error, cancels = false -> Err error ∉ sent) -> source = [] ->
  emits open source m sent cancels m'.
Proof.
  intros Hs Hids Hc He ->. split; rewrite ?Hs, ?Hids; auto.
  - constructor.
  - intros id []%not_elem_of_nil.
  - intros entry Hin. assert (H : entry_item_id entry ∈ ids_of sent) by (apply elem_of_ids; eauto).
    rewrite Hids in H. by apply not_elem_of_nil in H.
  - intros entry _ []%not_elem_of_nil.
Qed.

Lemma emit_entry_emits open entry m m' sent closed :
  emit_coordinated_entry open entry m = (m', sent, closed) -> emits open [entry] m sent closed m'.
Proof.
  unfold emit_coordinated_entry. case_bool_decide as Hseen; [|destruct open].
  - intros [= <- <- <-]. split; try done; try (by constructor); auto.
    + intros id []%not_elem_of_nil.
    + intros e []%not_elem_of_nil.
    + by intros c []%not_elem_of_nil.
    + by intros error _ []%not_elem_of_nil.
    + by intros e _ ->%list_elem_of_singleton.
  - intros [= <- <- <-]. split; simpl;
      try change (ids_of [Ok (Entry entry)]) with [entry_item_id entry]; try done.
    + set_solver.
    + apply NoDup_singleton.
    + intros id ->%list_elem_of_singleton. set_solver.
    + intros e [= ->]%list_elem_of_singleton. apply list_elem_of_here.
    + by intros c [=]%list_elem_of_singleton.
    + by intros error _ [=]%list_elem_of_singleton.
    + intros id _. rewrite elem_of_union, elem_of_singleton, list_elem_of_singleton. tauto.
    + intros e _ ->%list_elem_of_singleton. set_solver.
  - intros [= <- <- <-]. split; simpl; try done.
    + set_solver.
    + constructor.
    + intros id []%not_elem_of_nil.
    + intros e []%not_elem_of_nil.
    + by intros c []%not_elem_of_nil.
Qed.

Lemma emits_trans open source1 source2 m1 m2 m3 sent1 sent2 cancels :
  emits open source1 m1 sent1 false m2 -> emits open source2 m2 sent2 cancels m3 ->
  emits open (source1 ++ source2) m1 (sent1 ++ sent2) cancels m3.
Proof.
  intros [M1 F1 N1 S1 C1 E1 O1 A1] [M2 F2 N2 S2 C2 E2 O2 A2].
  split; rewrite ?ids_of_app.
  - auto.
  - apply NoDup_app. split_and!; try done. intros id H1 H2. by apply (N2 id); [|apply N1].
  - intros id [H|H]%elem_of_app; [apply N1 in H as []; auto|].
    apply N2 in H as [H H']. split; [|done]. intros ?. by apply H, M1.
  - intros entry [H|H]%elem_of_app; apply elem_of_app; auto.
  - intros c [H|H]%elem_of_app; [by apply C1 in H|by apply C2 in H].
  - intros error Hc [H|H]%elem_of_app; [by apply E1 in H|by apply E2 in H].
  - intros id Ho H. rewrite elem_of_app. destruct (O2 id Ho H) as [H'|H']; [|tauto].
    destruct (O1 id Ho H'); tauto.
  - intros entry Hc [H|H]%elem_of_app; auto.
Qed.

Lemma emit_roots_emits open entries : forall m m' sent closed,
  emit_root_entries open entries m = (m', sent, closed) -> emits open entries m sent closed m'.
Proof.
  induction entries as [|entry entries IH]; simpl; intros m m' sent closed.
  - intros [= <- <- <-]. apply emits_quiet; try done; intros; apply not_elem_of_nil.
  - destruct (emit_coordinated_entry open entry m) as [[m1 sent1] [|]] eqn:H1.
    + intros [= <- <- <-]. apply emit_entry_emits in H1 as [M1 F1 N1 S1 C1 E1 O1 A1].
      split; try done. intros e He%S1. set_solver.
    + destruct (emit_root_entries open entries m1) as [[m2 sent2] closed2] eqn:H2.
      intros [= <- <- <-]. apply emit_entry_emits in H1. apply IH in H2.
      exact (emits_trans _ _ _ _ _ _ _ _ _ H1 H2).
Qed.

Definition message_entries (message : WorkerInventoryMessage) : list InventoryEntry :=
  match message with WorkerEntry entry => [entry] | _ => [] end.

Lemma handle_message_emits open message m m' sent cancels gives_up :
  handle_worker_message open message m = (m', sent, cancels, gives_up) ->
  emits open (message_entries message) m sent cancels m' /\
  (gives_up = true -> cancels = true) /\
  (cancels = false -> forall w r, message = WorkerCompleted w r -> ended r = true).
Proof.
  assert (Hsend : forall event completed,
    is_completed event = false -> Ok (Completed completed) ∉ send open event).
  { intros event c He. destruct open; simpl; [intros <-%list_elem_of_singleton; done|].
    apply not_elem_of_nil. }
  assert (Hsend' : forall event error, Err error ∉ send open (Ok event)).
  { intros event error. destruct open; simpl; [by intros [=]%list_elem_of_singleton|].
    apply not_elem_of_nil. }
  assert (Hids : forall event, entries_of [event] = [] -> ids_of (send open event) = []).
  { intros event He. destruct open; [|done]. unfold ids_of. cbn [send]. by rewrite He. }
  destruct message as [w|entry|w progress|slice|w r0|w error|w]; simpl.
  - intros [= <- <- <- <-]. split_and!; try done. apply emits_quiet; try done; intros; apply not_elem_of_nil.
  - destruct (emit_coordinated_entry open entry m) as [[m1 sent1] closed] eqn:H1.
    intros [= <- <- <- <-]. split_and!; try done. by apply emit_entry_emits.
  - intros [= <- <- <- <-]. split_and!; try done. apply emits_quiet; auto.
  - intros [= <- <- <- <-]. split_and!; try done. apply emits_quiet; auto.
  - destruct (completed_complete r0) eqn:Hr, (completed_cancelled r0) eqn:Hr',
      (completed_truncated r0) eqn:Hr''; simpl; intros [= <- <- <- <-];
      (split_and!; [apply emits_quiet; auto; intros; first [done | apply not_elem_of_nil] | done |]).
    all: intros Hc w' r [= <- <-]; unfold ended; by rewrite Hr, Hr', Hr''.
  - intros [= <- <- <- <-]. split_and!; try done. apply emits_quiet; auto; done.
  - intros [= <- <- <- <-]. split_and!; try done. apply emits_quiet; try done; intros; apply not_elem_of_nil.
Qed.

(** ** The invariant *)

(** What the finished stream holds. *)
Record delivered (plan : InventoryRootPlan) (s : World) : Prop := {
  delivered_roots root : root ∈ worker_roots plan ->
    exists r, answered s root (Completed r) /\ ended r = true;
  delivered_once : NoDup (ids_of (output s));
  delivered_ids id : id ∈ ids_of (output s) <->
    (exists entry, entry ∈ root_entries plan /\ entry_item_id entry = id) \/
    (exists root entry, answered s root (Entry entry) /\ entry_item_id entry = id);
  delivered_last : exists events completed, output s = events ++ [Ok (Completed completed)] /\
    Forall (fun event => is_ok event = true /\ is_completed event = false) events
}.

Record live_inv (plan : InventoryRootPlan) (s : World) : Prop := {
  live_open : stream_open s = true;
  live_receiving : coordinator s <> GivingUp;
  live_seen id : id ∈ seen (merge s) -> id ∈ ids_of (output s);
  live_roots entry : coordinator s <> Emitting -> entry ∈ root_entries plan ->
    entry_item_id entry ∈ seen (merge s);
  live_entries root entry : answered s root (Entry entry) ->
    entry_item_id entry ∈ seen (merge s) \/ WorkerEntry entry ∈ channel s;
  live_completed root r : answered s root (Completed r) ->
    ended r = true \/ exists w, WorkerCompleted w r ∈ channel s;
  live_errors error : Err error ∉ output s;
  live_covered root : root ∈ worker_roots plan ->
    root ∈ queue s \/
    (exists w pc, workers s !! w = Some pc /\ holds_root pc = Some root) \/
    exists r, answered s root (Completed r);
  live_queue w pc : workers s !! w = Some pc -> leaving pc -> queue s = []
}.

Record inv (plan : InventoryRootPlan) (s : World) : Prop := {
  inv_stop : worker_stop_requested (control s) = true ->
    cancelled (control s) = true \/ coordinator s = Completing \/ coordinator s = CoordinatorDone;
  inv_done : coordinator s = Completing \/ coordinator s = CoordinatorDone -> all_done s;
  inv_channel : coordinator s = Completing -> channel s = [];
  inv_some : is_Some (workers s !! 0%nat);
  inv_once : NoDup (ids_of (output s));
  inv_seen id : id ∈ ids_of (output s) -> id ∈ seen (merge s);
  inv_source entry : Ok (Entry entry) ∈ output s \/ WorkerEntry entry ∈ channel s ->
    entry ∈ root_entries plan \/ exists root, answered s root (Entry entry);
  inv_unfinished completed : coordinator s <> CoordinatorDone -> Ok (Completed completed) ∉ output s;
  inv_live : cancelled (control s) = false -> coordinator s <> CoordinatorDone -> live_inv plan s;
  inv_final completed : Ok (Completed completed) ∈ output s -> completed_complete completed = true ->
    delivered plan s
}.

Lemma inv_working plan s w pc :
  inv plan s -> workers s !! w = Some pc -> pc <> AtDone ->
  coordinator s <> Completing /\ coordinator s <> CoordinatorDone /\
  (cancelled (control s) = false -> should_stop_workers (control s) = false).
Proof.
  intros Hinv Hw Hpc. assert (H : ~ (coordinator s = Completing \/ coordinator s = CoordinatorDone)).
  { intros Hc%(inv_done _ _ Hinv). by apply Hpc, (Hc w pc). }
  split_and!; [tauto|tauto|]. intros Hc. unfold should_stop_workers. rewrite Hc. simpl.
  destruct (worker_stop_requested (control s)) eqn:Hs; [|done].
  apply (inv_stop _ _ Hinv) in Hs as [?|?]; [congruence|tauto].
Qed.

(** *** Steps of the workers *)

Section worker_step.
Context (plan : InventoryRootPlan) (w : nat) (s s' : World) (pc pc' : WorkerPc).
Context (sent : list WorkerInventoryMessage)
  (answers : list (ustr * option (result InventoryEvent string))).
Context (Heff : worker_effect w s pc s' pc' sent answers).
Context (Hw : workers s !! w = Some pc).

Lemma answered_grows root event : answered s root event -> answered s' root event.
Proof. unfold answered. rewrite (effect_log _ _ _ _ _ _ _ Heff), elem_of_app. tauto. Qed.

Lemma answered_step root event :
  answered s' root event -> answered s root event \/ (root, Some (Ok event)) ∈ answers.
Proof. unfold answered. by rewrite (effect_log _ _ _ _ _ _ _ Heff), elem_of_app. Qed.

Lemma worker_covered root :
  inv plan s -> cancelled (control s') = false -> live_inv plan s -> root ∈ worker_roots plan ->
  root ∈ queue s' \/
  (exists w pc, workers s' !! w = Some pc /\ holds_root pc = Some root) \/
  exists r, answered s' root (Completed r).
Proof.
  intros Hinv Hc Hlive Hroot.
  assert (Hc0 : cancelled (control s) = false).
  { destruct (cancelled (control s)) eqn:H; [|done].
    apply (effect_cancelled _ _ _ _ _ _ _ Heff) in H. congruence. }
  pose proof (effect_alive _ _ _ _ _ _ _ Heff) as Halive.
  destruct (inv_working _ _ _ _ Hinv Hw Halive) as (_ & _ & Hstop).
  pose proof (effect_roots _ _ _ _ _ _ _ Heff (Hstop Hc0) Hc) as Hcases.
  rewrite (effect_workers _ _ _ _ _ _ _ Heff).
  destruct (live_covered _ _ Hlive root Hroot) as [Hq|[(v & pcv & Hv & Hh)|(r & Hr)]].
  - destruct Hcases as [[-> _]|(root' & Hq' & _ & Hh')]; [by left|].
    rewrite Hq' in Hq. apply elem_of_cons in Hq as [->|Hq]; [|by left].
    right; left. exists w, pc'. by rewrite lookup_insert_eq.
  - destruct (decide (v = w)) as [->|Hne].
    + simplify_eq. destruct Hcases as [[_ [Hh'|(root' & r & Hh' & Hr)]]|(root' & _ & Hn & _)].
      * right; left. exists w, pc'. rewrite lookup_insert_eq. split; [done|congruence].
      * right; right. exists r. unfold answered.
        rewrite (effect_log _ _ _ _ _ _ _ Heff), elem_of_app. right. congruence.
      * congruence.
    + right; left. exists v, pcv. by rewrite lookup_insert_ne.
  - right; right. exists r. by apply answered_grows.
Qed.

Lemma worker_live :
  inv plan s -> cancelled (control s') = false -> coordinator s <> CoordinatorDone ->
  live_inv plan s'.
Proof.
  intros Hinv Hc Hd.
  assert (Hc0 : cancelled (control s) = false).
  { destruct (cancelled (control s)) eqn:H; [|done].
    apply (effect_cancelled _ _ _ _ _ _ _ Heff) in H. congruence. }
  pose proof (inv_live _ _ Hinv Hc0 Hd) as Hlive.
  pose proof (effect_alive _ _ _ _ _ _ _ Heff) as Halive.
  destruct (inv_working _ _ _ _ Hinv Hw Halive) as (_ & _ & Hstop).
  pose proof (worker_covered) as Hcovered.
  pose proof (effect_roots _ _ _ _ _ _ _ Heff (Hstop Hc0) Hc) as Hcases.
  destruct Heff as [Hws Hch Hlog Hco Hme Hout Hopen _ _ Hentries Hcompleted _ _ Hleaving].
  split; rewrite ?Hco, ?Hme, ?Hout, ?Hopen; try apply Hlive.
  - intros root entry [H|H]%answered_step.
    + apply (live_entries _ _ Hlive) in H as [H|H]; [by left|].
      right. rewrite Hch. apply elem_of_app. by left.
    + right. rewrite Hch. apply elem_of_app. right. apply Hentries. eauto.
  - intros root r [H|H]%answered_step.
    + apply (live_completed _ _ Hlive) in H as [H|(v & H)]; [by left|].
      right. exists v. rewrite Hch. apply elem_of_app. by left.
    + right. exists w. rewrite Hch. apply elem_of_app. right. by eapply Hcompleted.
  - intros root Hroot. by apply Hcovered.
  - intros v pcv Hv Hl. rewrite Hws in Hv.
    assert (Hq : queue s = []).
    { destruct (decide (v = w)) as [->|Hne].
      - rewrite lookup_insert_eq in Hv. simplify_eq.
        destruct (Hleaving (Hstop Hc0) Hc Hl) as [H|H]; [|done].
        exact (live_queue _ _ Hlive _ _ Hw H).
      - rewrite lookup_insert_ne in Hv by done. exact (live_queue _ _ Hlive _ _ Hv Hl). }
    destruct Hcases as [[-> _]|(root & H & _)]; [done|]. by rewrite H in Hq.
Qed.

Lemma worker_inv : inv plan s -> inv plan s'.
Proof.
  intros Hinv. pose proof (effect_alive _ _ _ _ _ _ _ Heff) as Halive.
  destruct (inv_working _ _ _ _ Hinv Hw Halive) as (Hn1 & Hn2 & _).
  pose proof worker_live as Hlive. pose proof answered_grows as Hgrows.
  destruct Heff as [Hws Hch Hlog Hco Hme Hout _ Hcan Hstop Hentries _ _ _ _].
  split; rewrite ?Hco, ?Hme, ?Hout; try apply Hinv; try tauto.
  - intros H. destruct (cancelled (control s')) eqn:Hc; [by left|].
    rewrite Hstop in H by done. apply (inv_stop _ _ Hinv) in H as [H|H]; [|by right].
    apply Hcan in H. congruence.
  - rewrite Hws. destruct (decide (w = 0%nat)) as [->|]; [by rewrite lookup_insert_eq|].
    rewrite lookup_insert_ne by done. apply Hinv.
  - intros entry H.
    assert (Hor : (Ok (Entry entry) ∈ output s \/ WorkerEntry entry ∈ channel s) \/
      WorkerEntry entry ∈ sent).
    { rewrite Hch, elem_of_app in H. tauto. }
    destruct Hor as [[H'|(root & H')]%(inv_source _ _ Hinv)|(root & H')%Hentries]; [by left| |].
    + right. exists root. by apply Hgrows.
    + right. exists root. unfold answered. rewrite Hlog. apply elem_of_app. by right.
  - intros c H. by apply (inv_unfinished _ _ Hinv) in H.
Qed.
End worker_step.

(** *** Steps of the coordinator *)

(** A step that emits: the root entries, or the entry of the received message. *)
Lemma coordinator_emits_inv plan s source m sent cancels pc rest :
  inv plan s -> coordinator s = Emitting \/ coordinator s = Receiving ->
  emits (stream_open s) source (merge s) sent cancels m ->
  (pc = Receiving \/ pc = GivingUp /\ cancels = true) ->
  (exists read, channel s = read ++ rest /\
    (forall entry, WorkerEntry entry ∈ read -> entry ∈ source) /\
    (cancels = false -> forall w r, WorkerCompleted w r ∈ read -> ended r = true)) ->
  (forall entry, entry ∈ source -> entry ∈ root_entries plan \/ WorkerEntry entry ∈ channel s) ->
  (coordinator s = Emitting -> source = root_entries plan) ->
  inv plan (at_coordinator pc (if cancels then begin_call CallCancel (control s) else control s)
              m rest sent s).
Proof.
  intros Hinv Hco Hem Hpc (read & Hch & Hread & Hend) Hsource Hroots.
  assert (Hnd : coordinator s <> Completing /\ coordinator s <> CoordinatorDone)
    by (destruct Hco as [-> | ->]; done).
  assert (Hnc : forall completed, Ok (Completed completed) ∉ output s ++ sent).
  { intros c [H|H]%elem_of_app; [exact (inv_unfinished _ _ Hinv c (proj2 Hnd) H)|].
    by apply (emits_incomplete _ _ _ _ _ _ Hem) in H. }
  split; simpl.
  - destruct cancels; simpl; [by left|]. intros H. apply (inv_stop _ _ Hinv) in H. tauto.
  - destruct Hpc as [->|[-> _]]; intros [|]; done.
  - destruct Hpc as [->|[-> _]]; done.
  - apply Hinv.
  - rewrite ids_of_app. apply NoDup_app. split_and!; [apply Hinv| |apply Hem].
    intros id H1%(inv_seen _ _ Hinv) H2. by apply (emits_new _ _ _ _ _ _ Hem) in H2 as [].
  - intros id. rewrite ids_of_app. intros [H|H]%elem_of_app.
    + apply Hem. by apply (inv_seen _ _ Hinv).
    + by apply (emits_new _ _ _ _ _ _ Hem) in H as [].
  - intros entry H. change (answered _ ?r ?e) with (answered s r e).
    assert (Hor : (Ok (Entry entry) ∈ output s \/ WorkerEntry entry ∈ channel s) \/
      entry ∈ root_entries plan).
    { destruct H as [[H|H]%elem_of_app|H].
      - tauto.
      - apply (emits_sound _ _ _ _ _ _ Hem) in H. apply Hsource in H. tauto.
      - left; right. rewrite Hch. apply elem_of_app. by right. }
    destruct Hor as [H'|H']; [by apply (inv_source _ _ Hinv)|by left].
  - intros c _. apply Hnc.
  - intros Hc _. destruct cancels; [done|]. destruct Hpc as [->|[_ ?]]; [|done].
    pose proof (inv_live _ _ Hinv Hc (proj2 Hnd)) as Hlive.
    split; simpl; try apply Hlive; try done.
    + intros id H. rewrite ids_of_app, elem_of_app.
      destruct (emits_seen _ _ _ _ _ _ Hem id (live_open _ _ Hlive) H) as [H'|H']; [|by right].
      left. by apply (live_seen _ _ Hlive).
    + intros entry _ He. destruct Hco as [Hemit|Hn].
      * apply (emits_all _ _ _ _ _ _ Hem); [done|]. by rewrite Hroots.
      * apply Hem. apply (live_roots _ _ Hlive); [by rewrite Hn|done].
    + intros root entry H. apply (live_entries _ _ Hlive) in H as [H|H].
      * left. by apply Hem.
      * rewrite Hch in H. apply elem_of_app in H as [H|H]; [|by right].
        left. apply (emits_all _ _ _ _ _ _ Hem); [done|]. by apply Hread.
    + intros root r H. apply (live_completed _ _ Hlive) in H as [H|(w & H)]; [by left|].
      rewrite Hch in H. apply elem_of_app in H as [H|H]; [|right; by eexists].
      left. by apply (Hend eq_refl w).
    + intros error [H|H]%elem_of_app; [by apply (live_errors _ _ Hlive) in H|].
      by apply (emits_no_error _ _ _ _ _ _ Hem) in H.
  - intros c H. by apply Hnc in H.
Qed.

Lemma stop_workers_flags c :
  cancelled (stop_workers c) = cancelled c /\ worker_stop_requested (stop_workers c) = true.
Proof.
  unfold stop_workers.
  set (c' := mk_control _ _ _ _ _ _ _).
  assert (H : forall handles, cancelled (fold_right (alter_native cancel_native) c' handles) = cancelled c /\
    worker_stop_requested (fold_right (alter_native cancel_native) c' handles) = true)
    by (induction handles; done).
  apply H.
Qed.

(** No root is left when every worker is done. *)
Lemma all_done_covered plan s root :
  inv plan s -> live_inv plan s -> all_done s -> root ∈ worker_roots plan ->
  exists r, answered s root (Completed r).
Proof.
  intros Hinv Hlive Hdone Hroot. destruct (inv_some _ _ Hinv) as [pc0 H0].
  destruct (live_covered _ _ Hlive root Hroot) as [H|[(w & pc & Hw & Hh)|H]]; [| |done].
  - pose proof (Hdone _ _ H0) as ->. rewrite (live_queue _ _ Hlive _ _ H0) in H by (by right).
    by apply not_elem_of_nil in H.
  - pose proof (Hdone _ _ Hw) as ->. done.
Qed.

Lemma completing_inv plan s :
  inv plan s -> coordinator s = Completing ->
  inv plan (at_coordinator CoordinatorDone (control s) (merge s) (channel s)
    (send (stream_open s) (Ok (Completed (coordinated_completion plan (cancelled (control s)))))) s).
Proof.
  intros Hinv Hco. pose proof (inv_done _ _ Hinv (or_introl Hco)) as Hdone.
  pose proof (inv_channel _ _ Hinv Hco) as Hch.
  set (final := coordinated_completion plan (cancelled (control s))).
  assert (Hids : ids_of (output s ++ send (stream_open s) (Ok (Completed final))) = ids_of (output s)).
  { rewrite ids_of_app. destruct (stream_open s); apply app_nil_r. }
  assert (Hin : forall event, event ∈ output s ++ send (stream_open s) (Ok (Completed final)) ->
    event ∈ output s \/ event = Ok (Completed final)).
  { intros event [H|H]%elem_of_app; [by left|]. right. destruct (stream_open s).
    - by apply list_elem_of_singleton in H.
    - by apply not_elem_of_nil in H. }
  split; simpl; rewrite ?Hids; try apply Hinv; try done.
  - tauto.
  - intros entry [H|H]; apply (inv_source _ _ Hinv); [|by right].
    left. by destruct (Hin _ H).
  - intros c [H|[= ->]]%Hin Hc; [by apply (inv_unfinished _ _ Hinv) in H; [|rewrite Hco]|].
    assert (Hc0 : cancelled (control s) = false).
    { unfold final, coordinated_completion in Hc. simpl in Hc. by apply negb_true_iff in Hc. }
    assert (Hnd : coordinator s <> CoordinatorDone) by (by rewrite Hco).
    pose proof (inv_live _ _ Hinv Hc0 Hnd) as Hlive.
    split; simpl; rewrite ?Hids; [ |apply Hinv| |].
    + intros root Hroot. destruct (all_done_covered _ _ _ Hinv Hlive Hdone Hroot) as [r Hr].
      exists r. split; [done|]. apply (live_completed _ _ Hlive) in Hr as [?|(w & H)]; [done|].
      rewrite Hch in H. by apply not_elem_of_nil in H.
    + intros id. split.
      * intros (entry & H & <-)%elem_of_ids.
        destruct (inv_source _ _ Hinv entry (or_introl H)) as [H'|(root & H')]; [left|right]; eauto.
      * intros [(entry & H & <-)|(root & entry & H & <-)]; apply (live_seen _ _ Hlive).
        -- apply (live_roots _ _ Hlive); [by rewrite Hco|done].
        -- apply (live_entries _ _ Hlive) in H as [H|H]; [done|].
           rewrite Hch in H. by apply not_elem_of_nil in H.
    + exists (output s), final. rewrite (live_open _ _ Hlive). split; [done|].
      apply Forall_forall. intros event He. destruct event as [event|error].
      * split; [done|]. destruct event; try done.
        by apply (inv_unfinished _ _ Hinv) in He.
      * by apply (live_errors _ _ Hlive) in He.
Qed.

Lemma coordinator_inv plan s s' : inv plan s -> coordinator_step plan s s' -> inv plan s'.
Proof.
  intros Hinv. destruct 1 as [Hco|message rest Hco Hch|Hco Hdone|Hco Hch Hdone|Hco].
  - destruct (emit_root_entries _ _ _) as [[m sent] closed] eqn:He. apply emit_roots_emits in He.
    apply (coordinator_emits_inv plan s (root_entries plan)); try done; auto.
    exists []. split_and!; [done|intros entry []%not_elem_of_nil|intros _ w r []%not_elem_of_nil].
  - destruct (handle_worker_message _ _ _) as [[[m sent] cancels] gives_up] eqn:He.
    apply handle_message_emits in He as (He & Hgive & Hend).
    apply (coordinator_emits_inv plan s (message_entries message)); try done; auto.
    + destruct gives_up; [right; split; [done|by apply Hgive]|by left].
    + exists [message]. split_and!; [done| |].
      * intros entry <-%list_elem_of_singleton. apply list_elem_of_here.
      * intros Hc w r H%list_elem_of_singleton. by apply (Hend Hc w).
    + intros entry H. right. rewrite Hch. destruct message; try by apply not_elem_of_nil in H.
      apply list_elem_of_singleton in H as ->. apply list_elem_of_here.
    + by rewrite Hco.
  - assert (Hnd : coordinator s <> CoordinatorDone) by (by rewrite Hco).
    split; simpl; rewrite ?app_nil_r; try apply Hinv; try done; [by right; right|].
    intros c H. by apply (inv_unfinished _ _ Hinv c Hnd) in H.
  - destruct (stop_workers_flags (control s)) as [Hc Hs].
    assert (Hnd : coordinator s <> CoordinatorDone) by (by rewrite Hco).
    split; simpl; rewrite ?app_nil_r, ?Hc; try apply Hinv; try done; try tauto.
    + intros c _. exact (inv_unfinished _ _ Hinv c Hnd).
    + intros Hc0 _. pose proof (inv_live _ _ Hinv Hc0 Hnd) as Hlive.
      split; simpl; rewrite ?app_nil_r; try apply Hlive; try done.
      intros entry _. apply (live_roots _ _ Hlive). by rewrite Hco.
    + intros c H. by apply (inv_unfinished _ _ Hinv c Hnd) in H.
  - by apply completing_inv.
Qed.

(** *** Control calls *)

Lemma with_control_inv plan s c open :
  inv plan s ->
  (cancelled (control s) = true -> cancelled c = true) ->
  (cancelled c = false ->
    worker_stop_requested c = worker_stop_requested (control s) /\ open = stream_open s) ->
  inv plan (with_control c open s).
Proof.
  intros Hinv Hc Hs. split; simpl; try apply Hinv.
  - intros H. destruct (cancelled c) eqn:E; [by left|]. destruct (Hs eq_refl) as [H' _].
    rewrite H' in H. apply (inv_stop _ _ Hinv) in H as [H|H]; [|by right]. apply Hc in H. congruence.
  - intros E Hd. destruct (Hs E) as [_ ->].
    assert (Hlive : live_inv plan s).
    { apply (inv_live _ _ Hinv); [|done]. destruct (cancelled (control s)); [by rewrite Hc in E|done]. }
    split; simpl; apply Hlive.
  - intros completed H Hcomplete. pose proof (inv_final _ _ Hinv _ H Hcomplete) as [? ? ? ?]. by split.
Qed.

Lemma fold_natives_flags f handles c :
  let c' := fold_right (alter_native f) c handles in
  cancelled c' = cancelled c /\ worker_stop_requested c' = worker_stop_requested c /\
  controls c' = controls c /\ in_flight c' = in_flight c.
Proof. by induction handles. Qed.

Lemma end_call_flags call accepted c :
  (cancelled c = true -> cancelled (end_call call accepted c) = true) /\
  (cancelled (end_call call accepted c) = false ->
    worker_stop_requested (end_call call accepted c) = worker_stop_requested c).
Proof.
  destruct call; simpl; bool_cases; simpl;
    repeat match goal with
    | |- context [fold_right (alter_native ?f) ?c ?h] =>
        destruct (fold_natives_flags f h c) as (-> & -> & _)
    end; simpl; split; done.
Qed.

Lemma coordinated_step_inv plan s s' : inv plan s -> step plan s s' -> inv plan s'.
Proof.
  intros Hinv. destruct 1 as [w pc s' Hw Hs|s' Hs|call|call accepted Hin|].
  - destruct (worker_step_effect _ _ _ _ Hs) as (pc' & sent & answers & Heff).
    exact (worker_inv _ _ _ _ _ _ _ _ Heff Hw Hinv).
  - exact (coordinator_inv _ _ _ Hinv Hs).
  - apply with_control_inv; [done| |]; destruct call; simpl; try done; auto.
  - destruct (end_call_flags call accepted (control s)). apply with_control_inv; auto.
  - by apply with_control_inv.
Qed.

Lemma initial_workers n w pc : workers (initial n w pc) = list_to_map (map (fun v => (v, AtTop)) (seq 0 w)).
Proof. done. Qed.

Lemma initial_at_top plan count p w pc : workers (initial plan count p) !! w = Some pc -> pc = AtTop.
Proof.
  simpl. intros H%elem_of_list_to_map_2. apply list_elem_of_fmap in H as (v & [= -> ->] & _). done.
Qed.

Lemma coordinated_initial_inv plan count p : (0 < count)%nat -> inv plan (initial plan count p).
Proof.
  intros Hn. split; simpl; try done.
  - by intros [|].
  - destruct count; [lia|]. simpl. rewrite lookup_insert_eq. eauto.
  - constructor.
  - intros id []%not_elem_of_nil.
  - intros entry [[]%not_elem_of_nil|[]%not_elem_of_nil].
  - intros c _ []%not_elem_of_nil.
  - intros _ _. split; simpl; try done.
    + intros root entry []%not_elem_of_nil.
    + intros root r []%not_elem_of_nil.
    + intros error []%not_elem_of_nil.
    + intros root H. by left.
    + intros w pc H%(initial_at_top plan count p). subst. by intros [|].
  - intros c []%not_elem_of_nil.
Qed.

Lemma coordinated_reachable_inv plan count p s : (0 < count)%nat -> reachable plan count p s -> inv plan s.
Proof. intros Hn. induction 1; [by apply coordinated_initial_inv|by eapply coordinated_step_inv]. Qed.

(** ** The plan *)

Lemma elem_of_dedup x l : x ∈ dedup l <-> x ∈ l.
Proof.
  induction l as [|a [|b l] IH]; [done|done|].
  cbn [dedup]. case_bool_decide as Hab.
  - subst. rewrite IH, !elem_of_cons. tauto.
  - rewrite elem_of_cons, IH, (elem_of_cons (b :: l)). tauto.
Qed.

Lemma plan_node_spec node entries roots entries' roots' :
  plan_node (entries, roots) node = (entries', roots') ->
  (forall id, (exists entry, entry ∈ entries' /\ entry_item_id entry = id) <->
    (exists entry, entry ∈ entries /\ entry_item_id entry = id) \/
    (node_item_id node = Some id /\ node_kind node <> NodeBranch)) /\
  (forall id, id ∈ roots' <-> id ∈ roots \/
    (node_item_id node = Some id /\ node_kind node <> NodeItem)).
Proof.
  unfold plan_node. destruct (node_item_id node) as [item|].
  2: { intros [= <- <-]. split; intros id; split; [by left|by intros [H|[[=] _]]|by left|by intros [H|[[=] _]]]. }
  assert (Hone : forall kind id, (exists entry, entry ∈ entries ++ [root_entry node item kind] /\
      entry_item_id entry = id) <->
    (exists entry, entry ∈ entries /\ entry_item_id entry = id) \/ Some item = Some id).
  { intros kind id. setoid_rewrite elem_of_app. setoid_rewrite list_elem_of_singleton. split.
    - intros (entry & [H|H] & <-); [left; eauto|right; by subst].
    - intros [(entry & H & <-)|[= ->]]; [eauto|]. eexists. split; [by right|done]. }
  assert (Hroot : forall id, id ∈ roots ++ [item] <-> id ∈ roots \/ Some item = Some id).
  { intros id. rewrite elem_of_app, list_elem_of_singleton. split; intros [H|H]; eauto; right; congruence. }
  destruct (node_kind node); intros [= <- <-]; split; intros id; rewrite ?Hone, ?Hroot.
  all: split; [first [by left | (intros [H|H]; [by left|by right; split])] | intros [H|[H1 H2]]; [by (left || exact H)|by (right || done)]].
Qed.

Lemma fold_plan_spec nodes : forall entries roots entries' roots',
  fold_left plan_node nodes (entries, roots) = (entries', roots') ->
  (forall id, (exists entry, entry ∈ entries' /\ entry_item_id entry = id) <->
    (exists entry, entry ∈ entries /\ entry_item_id entry = id) \/
    (exists node, node ∈ nodes /\ node_item_id node = Some id /\ node_kind node <> NodeBranch)) /\
  (forall id, id ∈ roots' <-> id ∈ roots \/
    (exists node, node ∈ nodes /\ node_item_id node = Some id /\ node_kind node <> NodeItem)).
Proof.
  induction nodes as [|node nodes IH]; cbn [fold_left]; intros entries roots entries' roots'.
  - intros [= <- <-]. split; intros id; (split; [by left|]);
      intros [H|(node & []%not_elem_of_nil & _)]; done.
  - destruct (plan_node (entries, roots) node) as [entries1 roots1] eqn:Hnode.
    intros [He Hr]%IH. apply plan_node_spec in Hnode as [He1 Hr1].
    split; intros id; [rewrite He, He1|rewrite Hr, Hr1]; setoid_rewrite elem_of_cons.
    + split.
      * intros [[?|?]|(n & ? & ?)]; [tauto|right; exists node; tauto|right; exists n; tauto].
      * intros [?|(n & [->|?] & ?)]; [tauto|tauto|right; exists n; tauto].
    + split.
      * intros [[?|?]|(n & ? & ?)]; [tauto|right; exists node; tauto|right; exists n; tauto].
      * intros [?|(n & [->|?] & ?)]; [tauto|tauto|right; exists n; tauto].
Qed.

Lemma plan_spec page plan :
  plan_inventory_roots page = Some plan ->
  (2 <= length (worker_roots plan))%nat /\
  (forall id, (exists entry, entry ∈ root_entries plan /\ entry_item_id entry = id) <->
    exists node, node ∈ page_nodes page /\ node_item_id node = Some id /\ node_kind node <> NodeBranch) /\
  (forall id, id ∈ worker_roots plan <->
    exists node, node ∈ page_nodes page /\ node_item_id node = Some id /\ node_kind node <> NodeItem).
Proof.
  unfold plan_inventory_roots.
  destruct (fold_left plan_node (page_nodes page) ([], [])) as [entries roots] eqn:Hf.
  destruct (_ <? 2)%nat eqn:Hlen; [done|]. intros [= <-]. simpl.
  apply fold_plan_spec in Hf as [He Hr]. apply Nat.ltb_ge in Hlen.
  split_and!; [done| |].
  - intros id. rewrite He. split; [|tauto]. intros [(e & []%not_elem_of_nil & _)|H]; done.
  - intros id. rewrite elem_of_dedup, (merge_sort_Permutation (fun a b => text_le a b = true)), Hr.
    split; [|tauto]. intros [[]%not_elem_of_nil|H]; done.
Qed.

(** C12: whatever the interleaving of the workers, the coordinator and the control calls: when the
    coordinated inventory says it is complete, every branch of the root page was inventoried to an
    end its worker accepted, the stream gave each ItemID once, exactly the ItemIDs of the root
    page and of the workers' entries, and nothing but events before the completion, which is
    the last. *)
Theorem coordinated_complete page plan configured p s completed :
  plan_inventory_roots page = Some plan ->
  reachable plan (coordinated_worker_count configured plan) p s ->
  Ok (Completed completed) ∈ output s -> completed_complete completed = true ->
  (forall node id, node ∈ page_nodes page -> node_item_id node = Some id ->
    node_kind node <> NodeItem -> exists r, answered s id (Completed r) /\ ended r = true) /\
  NoDup (ids_of (output s)) /\
  (forall id, id ∈ ids_of (output s) <->
    (exists node, node ∈ page_nodes page /\ node_item_id node = Some id /\
      node_kind node <> NodeBranch) \/
    (exists root entry, answered s root (Entry entry) /\ entry_item_id entry = id)) /\
  exists events, output s = events ++ [Ok (Completed completed)] /\
    Forall (fun event => is_ok event = true /\ is_completed event = false) events.
Proof.
  intros (Hlen & Hentries & Hroots)%plan_spec Hreach Hin Hcomplete.
  assert (Hcount : (0 < coordinated_worker_count configured plan)%nat)
    by (unfold coordinated_worker_count; lia).
  pose proof (coordinated_reachable_inv _ _ _ _ Hcount Hreach) as Hinv.
  pose proof (inv_final _ _ Hinv _ Hin Hcomplete) as [Hall Honce Hids (events & last & Hout & Hev)].
  split_and!; [|done| |].
  - intros node id H1 H2 H3. apply Hall, Hroots. eauto.
  - intros id. by rewrite Hids, Hentries.
  - exists events. split; [|done]. rewrite Hout in *. apply elem_of_app in Hin as [Hin|Hin].
    + rewrite Forall_forall in Hev. by apply Hev in Hin as [_ ?].
    + apply list_elem_of_singleton in Hin as [= ->]. done.
Qed.

(** ** Cancellation *)

(** The native inventory of a worker, and whether it is registered. *)
Definition holds_native (pc : WorkerPc) : option nat :=
  match pc with
  | AtRegister _ h | AtPacing _ h | AtPaused _ h | AtInsert _ h
  | AtStarted _ h | AtForward _ h | AtClose _ h _ => Some h
  | _ => None
  end.
Definition registered (pc : WorkerPc) : option nat :=
  match pc with
  | AtStarted _ h | AtForward _ h | AtClose _ h _ => Some h
  | _ => None
  end.
Definition is_cancelled_native (c : Control) (h : nat) : Prop :=
  exists n, natives c !! h = Some n /\ native_cancelled n = true.

Record native_inv (s : World) : Prop := {
  native_exists w pc h : workers s !! w = Some pc -> holds_native pc = Some h ->
    is_Some (natives (control s) !! h);
  native_registered w pc h : workers s !! w = Some pc -> registered pc = Some h ->
    controls (control s) !! w = Some h;
  native_reached w pc h : cancelled (control s) = true -> CallCancel ∉ in_flight (control s) ->
    workers s !! w = Some pc -> registered pc = Some h -> is_cancelled_native (control s) h
}.

Lemma registered_holds pc h : registered pc = Some h -> holds_native pc = Some h.
Proof. by destruct pc. Qed.

(** Changes of native controls that keep those there are, and the cancelled ones so. *)
Definition natives_grow (c c' : Control) : Prop :=
  (forall h, is_Some (natives c !! h) -> is_Some (natives c' !! h)) /\
  (forall h, is_cancelled_native c h -> is_cancelled_native c' h).

Lemma natives_grow_refl c c' : natives c' = natives c -> natives_grow c c'.
Proof. intros H. unfold natives_grow, is_cancelled_native. by rewrite H. Qed.

Lemma natives_grow_trans c1 c2 c3 :
  natives_grow c1 c2 -> natives_grow c2 c3 -> natives_grow c1 c3.
Proof. unfold natives_grow. intros [H1 H2] [H3 H4]. split; auto. Qed.

Lemma alter_native_grow f h c :
  (forall n, native_cancelled n = true -> native_cancelled (f n) = true) ->
  natives_grow c (alter_native f h c).
Proof.
  intros Hf. split; intros k; unfold is_cancelled_native; simpl; (destruct (decide (h = k)) as [->|];
    [rewrite lookup_alter_eq | by rewrite lookup_alter_ne]).
  - intros [n ->]. by eexists.
  - intros (n & -> & Hn). exists (f n). split; [done|auto].
Qed.

Lemma fold_natives_grow f handles c :
  (forall n, native_cancelled n = true -> native_cancelled (f n) = true) ->
  natives_grow c (fold_right (alter_native f) c handles).
Proof.
  intros Hf. induction handles as [|h handles IH]; simpl; [by apply natives_grow_refl|].
  eapply natives_grow_trans; [exact IH|]. by apply alter_native_grow.
Qed.

Lemma fold_cancel_native handles c h :
  h ∈ handles -> is_Some (natives c !! h) ->
  is_cancelled_native (fold_right (alter_native cancel_native) c handles) h.
Proof.
  intros Hin Hsome. induction Hin as [h handles|h g handles Hin IH]; simpl.
  - destruct (fold_natives_grow cancel_native handles c ltac:(done)) as [H _].
    apply H in Hsome as [n Hn]. exists (cancel_native n).
    split; [|done]. simpl. by rewrite lookup_alter_eq, Hn.
  - destruct (alter_native_grow cancel_native g
      (fold_right (alter_native cancel_native) c handles) ltac:(done)) as [_ H]. auto.
Qed.

Lemma elem_of_snapshot c w h : controls c !! w = Some h -> h ∈ snapshot_controls c.
Proof.
  intros H. unfold snapshot_controls. apply list_elem_of_fmap. exists (w, h).
  split; [done|]. by apply elem_of_map_to_list.
Qed.

(** A step that leaves the registry alone: it keeps the invariant if the cancelled flag
    is not newly set without a call in flight. *)
Lemma native_inv_keep s s' :
  native_inv s ->
  natives_grow (control s) (control s') ->
  controls (control s') = controls (control s) ->
  (forall w pc h, workers s' !! w = Some pc -> holds_native pc = Some h ->
    (exists pc0, workers s !! w = Some pc0 /\ holds_native pc0 = Some h /\
      (registered pc = Some h -> registered pc0 = Some h)) \/
    (registered pc = None /\ is_Some (natives (control s') !! h))) ->
  (cancelled (control s') = true -> CallCancel ∉ in_flight (control s') ->
    cancelled (control s) = true /\ CallCancel ∉ in_flight (control s)) ->
  native_inv s'.
Proof.
  intros [He Hr Hc] [Hg1 Hg2] Hcontrols Hpc Hflag. split.
  - intros w pc h Hw Hh. destruct (Hpc w pc h Hw Hh) as [(pc0 & H1 & H2 & _)|[_ H]]; [|done].
    apply Hg1. by eapply He.
  - intros w pc h Hw Hh. rewrite Hcontrols.
    destruct (Hpc w pc h Hw (registered_holds _ _ Hh)) as [(pc0 & H1 & _ & H2)|[H _]]; [|congruence].
    eapply Hr; eauto.
  - intros w pc h Hca Hin Hw Hh. destruct (Hflag Hca Hin) as [Hca0 Hin0].
    destruct (Hpc w pc h Hw (registered_holds _ _ Hh)) as [(pc0 & H1 & _ & H2)|[H _]]; [|congruence].
    apply Hg2. eapply Hc; eauto.
Qed.

(** The same, for a step of worker [w] to [pc']. *)
Lemma native_inv_worker s s' w pc pc' :
  native_inv s -> workers s !! w = Some pc -> workers s' = <[w := pc']> (workers s) ->
  natives_grow (control s) (control s') ->
  controls (control s') = controls (control s) ->
  (holds_native pc' = None \/
   (holds_native pc' = holds_native pc /\ (registered pc' = None \/ registered pc' = registered pc)) \/
   (registered pc' = None /\ forall h, holds_native pc' = Some h -> is_Some (natives (control s') !! h))) ->
  (cancelled (control s') = true -> CallCancel ∉ in_flight (control s') ->
    cancelled (control s) = true /\ CallCancel ∉ in_flight (control s)) ->
  native_inv s'.
Proof.
  intros Hinv Hw Hws Hg Hcontrols Hpc Hflag. apply (native_inv_keep s); try done.
  intros v pcv h Hv Hh. rewrite Hws in Hv. destruct (decide (v = w)) as [->|Hne].
  - rewrite lookup_insert_eq in Hv. simplify_eq. destruct Hpc as [Hn|[[He Hr]|[Hr Hs]]]; [congruence| |].
    + left. exists pc. rewrite <-He. split_and!; [done|done|]. by destruct Hr as [-> | ->].
    + right. split; [done|by apply Hs].
  - rewrite lookup_insert_ne in Hv by done. left. exists pcv. done.
Qed.

Lemma native_inv_flag_same (c c' : Control) :
  cancelled c' = cancelled c -> in_flight c' = in_flight c ->
  cancelled c' = true -> CallCancel ∉ in_flight c' ->
  cancelled c = true /\ CallCancel ∉ in_flight c.
Proof. by intros -> ->. Qed.

Lemma native_inv_flag_call (c c' : Control) :
  in_flight c' = CallCancel :: in_flight c ->
  cancelled c' = true -> CallCancel ∉ in_flight c' ->
  cancelled c = true /\ CallCancel ∉ in_flight c.
Proof. intros -> _ H. by destruct H; apply list_elem_of_here. Qed.

Lemma worker_native_inv w s pc s' :
  native_inv s -> workers s !! w = Some pc -> worker_step w s pc s' -> native_inv s'.
Proof.
  intros Hinv Hw Hs.
  assert (Hquiet : forall pc' c sent,
    natives_grow (control s) c -> controls c = controls (control s) ->
    (holds_native pc' = None \/
     (holds_native pc' = holds_native pc /\ (registered pc' = None \/ registered pc' = registered pc)) \/
     (registered pc' = None /\ forall h, holds_native pc' = Some h -> is_Some (natives c !! h))) ->
    (cancelled c = cancelled (control s) /\ in_flight c = in_flight (control s) \/
     in_flight c = CallCancel :: in_flight (control s)) ->
    native_inv (at_worker w pc' c sent s)).
  { intros pc' c sent Hg Hc Hh Hf. apply (native_inv_worker s _ w pc pc'); try done; simpl.
    destruct Hf as [[??]|?]; [by apply native_inv_flag_same|by apply native_inv_flag_call]. }
  assert (Hfail : forall error, native_inv (fail_worker w error s)).
  { intros error. apply Hquiet; [by apply natives_grow_refl|done|by left|by right]. }
  assert (Hidle : forall pc' sent, holds_native pc' = None \/
     (holds_native pc' = holds_native pc /\ (registered pc' = None \/ registered pc' = registered pc)) ->
     native_inv (at_worker w pc' (control s) sent s)).
  { intros pc' sent H. apply Hquiet; [by apply natives_grow_refl|done|tauto|by left]. }
  destruct Hs.
  - apply Hidle. left. by destruct (should_stop_workers _).
  - unfold pop_inventory_root. destruct (queue s); [apply Hidle; by left|].
    apply (native_inv_worker s _ w AtPop (AtStart l)); try done; by left.
  - apply Hquiet; simpl; [|done| |by left].
    + split; intros h; unfold is_cancelled_native; simpl.
      * intros Hh. apply lookup_insert_is_Some'. by right.
      * intros (n & Hn & Hc). exists n. by rewrite lookup_insert_ne by congruence.
    + right; right. split; [done|]. intros h [= <-]. by rewrite lookup_insert_eq.
  - destruct (should_stop_workers _); [apply Hidle; by left|done].
  - destruct (should_stop_workers _); [|apply Hidle; right; by split; [|left]].
    apply Hquiet; [by apply alter_native_grow|done|by left|by left].
  - apply Hquiet; [by apply alter_native_grow|done|right; left; by split; [|left]|by left].
  - destruct (should_stop_workers _); [apply Hidle; by left|done].
  - apply Hquiet; [|by destruct (paused _)|right; left; by split; [|left]|left; by destruct (paused _)].
    destruct (paused _); [by apply alter_native_grow|by apply natives_grow_refl].
  - destruct (should_stop_workers (control s)) eqn:Hstop.
    { apply Hquiet; [by apply alter_native_grow|done|by left|by left]. }
    apply orb_false_iff in Hstop as [Hcan _]. destruct Hinv as [He Hr Hc]. split; simpl.
    + intros v pcv h Hv Hh. destruct (decide (v = w)) as [->|Hne].
      * rewrite lookup_insert_eq in Hv. simplify_eq. by eapply He.
      * rewrite lookup_insert_ne in Hv by done. by eapply He.
    + intros v pcv h Hv Hh. destruct (decide (v = w)) as [->|Hne].
      * rewrite lookup_insert_eq in Hv. simplify_eq. simpl in Hh. by rewrite lookup_insert_eq.
      * rewrite !lookup_insert_ne in * by done. by eapply Hr.
    + intros v pcv h H. congruence.
  - apply Hidle. right. by split; [|right].
  - destruct (forward_inventory_event _ _ _) as [[sent cancels] action] eqn:Hev.
    assert (H : native_inv (at_worker w
      (match action with
       | ActionContinue => AtForward root handle
       | ActionCompleted => AtClose root handle true
       | ActionStop => AtClose root handle false
       end) (if cancels then begin_call CallCancel (control s) else control s) sent s)).
    { apply Hquiet.
      - by destruct cancels; apply natives_grow_refl.
      - by destruct cancels.
      - right; left. split; [by destruct action|right; by destruct action].
      - destruct cancels; [by right|by left]. }
    destruct H as [H1 H2 H3]. by split.
  - assert (H : native_inv (at_worker w (AtClose root handle false) (control s) [] s))
      by (apply Hidle; right; by split; [|right]).
    destruct H as [H1 H2 H3]. by split.
  - destruct Hinv as [He Hr Hc]. split; simpl; intros v pcv h.
    + intros Hv Hh. destruct (decide (v = w)) as [->|Hne].
      * rewrite lookup_insert_eq in Hv. by simplify_eq.
      * rewrite lookup_insert_ne in Hv by done. by eapply He.
    + intros Hv Hh. destruct (decide (v = w)) as [->|Hne].
      * rewrite lookup_insert_eq in Hv. by simplify_eq.
      * rewrite lookup_insert_ne in Hv by done. rewrite lookup_delete_ne by done. by eapply Hr.
    + intros Hca Hin Hv Hh. destruct (decide (v = w)) as [->|Hne].
      * rewrite lookup_insert_eq in Hv. by simplify_eq.
      * rewrite lookup_insert_ne in Hv by done. by eapply (Hc v pcv).
  - destruct (_ || _); [apply Hidle; by left|done].
  - apply Hidle. by left.
Qed.

Lemma remove_call_other call c l : c <> call -> c ∈ l -> c ∈ remove_call call l.
Proof.
  intros Hne Hin. unfold remove_call. destruct (list_find _ l) as [[i d]|] eqn:Hf; [|done].
  apply list_find_Some in Hf as (Hi & -> & _). apply list_elem_of_lookup in Hin as [j Hj].
  destruct (decide (i = j)) as [->|Hij]; [congruence|].
  apply list_elem_of_lookup. destruct (decide (j < i)%nat).
  - exists j. by rewrite list_lookup_delete_lt.
  - exists (pred j). rewrite list_lookup_delete_ge by lia. by replace (S (pred j)) with j by lia.
Qed.

Lemma fold_natives_in_flight f handles c c0 :
  in_flight (fold_right (alter_native f) c0 handles) = in_flight c -> in_flight c0 = in_flight c.
Proof. by destruct (fold_natives_flags f handles c0) as (_ & _ & _ & ->). Qed.

(** A call that only writes flags and natives. *)
Lemma control_native_inv s s' :
  native_inv s -> workers s' = workers s ->
  natives_grow (control s) (control s') -> controls (control s') = controls (control s) ->
  (cancelled (control s') = true -> CallCancel ∉ in_flight (control s') ->
    cancelled (control s) = true /\ CallCancel ∉ in_flight (control s)) ->
  native_inv s'.
Proof.
  intros Hinv Hws Hg Hc Hf. apply (native_inv_keep s); try done.
  intros w pc h Hw Hh. left. exists pc. by rewrite <-Hws.
Qed.

Lemma end_call_native_inv s call accepted open :
  native_inv s -> native_inv (with_control (end_call call accepted (control s)) open s).
Proof.
  intros Hinv.
  set (c0 := mk_control (controls (control s)) (natives (control s)) (cancelled (control s))
    (worker_stop_requested (control s)) (paused (control s)) (pacing (control s))
    (remove_call call (in_flight (control s)))).
  assert (Hother : forall f handles,
    call <> CallCancel ->
    (forall n, native_cancelled n = true -> native_cancelled (f n) = true) ->
    native_inv (with_control (fold_right (alter_native f) c0 handles) open s)).
  { intros f handles Hne Hf. destruct (fold_natives_flags f handles c0) as (F1 & F2 & F3 & F4).
    apply (control_native_inv s); simpl; try done.
    - eapply natives_grow_trans; [|by apply fold_natives_grow]. by apply natives_grow_refl.
    - rewrite F1, F4. simpl. intros Hc Hin. split; [done|]. contradict Hin.
      by apply remove_call_other. }
  destruct call; try (by apply Hother).
  - simpl. change (mk_control _ _ _ _ _ _ _) with c0.
    destruct (fold_natives_flags cancel_native (snapshot_controls c0) c0) as (F1 & F2 & F3 & F4).
    destruct (fold_natives_grow cancel_native (snapshot_controls c0) c0 ltac:(done)) as [G1 G2].
    destruct Hinv as [He Hr Hc]. split; simpl.
    + intros w pc h Hw Hh. apply G1. by eapply He.
    + rewrite F3. apply Hr.
    + intros w pc h _ _ Hw Hh. apply fold_cancel_native.
      * apply (elem_of_snapshot c0 w). by eapply Hr.
      * eapply (He w pc); [done|]. by apply registered_holds.
  - cbn [end_call]. change (mk_control _ _ _ _ _ _ _) with c0. cbv zeta.
    destruct (forallb _ _); [by apply Hother|].
    set (c1 := fold_right _ _ _). destruct (fold_natives_flags (pace_native p)
      (List.filter (fun h => bool_decide (h ∈ accepted)) (snapshot_controls c0)) c0)
      as (F1 & F2 & F3 & F4). fold c1 in F1, F2, F3, F4.
    apply (control_native_inv s); simpl; try done.
    + apply (natives_grow_trans _ c1); [|by apply natives_grow_refl].
      eapply natives_grow_trans; [|by apply fold_natives_grow]. by apply natives_grow_refl.
    + intros _ H. destruct H. apply list_elem_of_here.
Qed.

Lemma coordinator_native_inv plan s s' : native_inv s -> coordinator_step plan s s' -> native_inv s'.
Proof.
  intros Hinv.
  assert (Hsame : forall pc (cancels : bool) m rest sent,
    native_inv (at_coordinator pc (if cancels then begin_call CallCancel (control s) else control s)
      m rest sent s)).
  { intros pc cancels m rest sent. apply (control_native_inv s); try done; destruct cancels; try done.
    by apply native_inv_flag_call. }
  destruct 1.
  - destruct (emit_root_entries _ _ _) as [[m sent] closed]. apply Hsame.
  - destruct (handle_worker_message _ _ _) as [[[m sent] cancels] gives_up]. apply Hsame.
  - apply (Hsame _ false).
  - set (c0 := mk_control (controls (control s)) (natives (control s)) (cancelled (control s)) true
      (paused (control s)) (pacing (control s)) (in_flight (control s))).
    destruct (fold_natives_flags cancel_native (snapshot_controls (control s)) c0) as (F1 & F2 & F3 & F4).
    apply (control_native_inv s); try done.
    + eapply natives_grow_trans; [|by apply fold_natives_grow]. by apply natives_grow_refl.
    + by apply native_inv_flag_same.
  - apply (Hsame _ false).
Qed.

Lemma reachable_native_inv plan count p s : reachable plan count p s -> native_inv s.
Proof.
  induction 1 as [|s s' _ IH Hs].
  - split; intros w pc h; [intros Hw|intros Hw|intros _ _ Hw];
      apply (initial_at_top plan count p) in Hw; by subst.
  - destruct Hs as [w pc s' Hw Hs|s' Hs|call|call accepted Hin|].
    + by eapply worker_native_inv.
    + by eapply coordinator_native_inv.
    + apply (control_native_inv s); try done; destruct call; try done.
      * simpl. intros H1 H2. split; [done|]. contradict H2. by right.
      * simpl. intros H1 H2. split; [done|]. contradict H2. by right.
      * by apply native_inv_flag_call.
      * simpl. intros H1 H2. split; [done|]. contradict H2. by right.
    + by apply end_call_native_inv.
    + apply (control_native_inv s); try done. by apply native_inv_flag_call.
Qed.

(** C13: a cancellation reaches every worker, also one that registers while it is under way: once
    no cancelling call is in flight, every worker that has started its stream has the native
    inventory of that stream cancelled, and no worker that is not yet registered will register. *)
Theorem cancellation_reaches_workers plan count p s w pc :
  reachable plan count p s ->
  cancelled (control s) = true -> CallCancel ∉ in_flight (control s) ->
  workers s !! w = Some pc ->
  (forall h, registered pc = Some h ->
    controls (control s) !! w = Some h /\ is_cancelled_native (control s) h) /\
  (forall s' pc', registered pc = None -> worker_step w s pc s' ->
    workers s' !! w = Some pc' -> registered pc' = None).
Proof.
  intros Hreach Hc Hin Hw. apply reachable_native_inv in Hreach as [He Hr Hca]. split.
  - intros h Hh. split; [by eapply Hr|by eapply Hca].
  - assert (Hstop : should_stop_workers (control s) = true)
      by (unfold should_stop_workers; by rewrite Hc).
    intros s' pc' Hpc Hs Hw'.
    destruct Hs; rewrite ?Hstop in Hw'; try done; unfold pop_inventory_root in Hw';
      repeat case_match; simpl in Hw'; rewrite lookup_insert_eq in Hw'; by simplify_eq.
Qed.

(** ** Running a schedule

    A schedule is a list of moves; [move_step] shows that each is a step. *)

Inductive Move :=
| MoveWorker (w : nat)                                         (* the next action of a worker *)
| MoveStart (w handle : nat)                                   (* its start, answered with a control *)
| MoveEvent (w : nat) (event : result InventoryEvent string)   (* the next event of its stream *)
| MoveCoordinator
| MoveBegin (call : ControlCall)
| MoveEnd (call : ControlCall) (accepted : list nat).

Definition worker_action (w : nat) (pc : WorkerPc) (s : World) : option World :=
  match pc with
  | AtTop =>
      Some (at_worker w (if should_stop_workers (control s) then AtDrop else AtPop) (control s) [] s)
  | AtPop => Some (pop_inventory_root w s)
  | AtRegister root handle =>
      Some (if should_stop_workers (control s)
            then at_worker w AtDrop (alter_native cancel_native handle (control s)) [] s
            else at_worker w (AtPacing root handle) (control s) [] s)
  | AtPacing root handle =>
      Some (at_worker w (AtPaused root handle)
              (alter_native (pace_native (pacing (control s))) handle (control s)) [] s)
  | AtPaused root handle =>
      Some (at_worker w (AtInsert root handle)
              (if paused (control s) then alter_native (pause_native true) handle (control s)
               else control s) [] s)
  | AtInsert root handle =>
      Some (if should_stop_workers (control s)
            then at_worker w AtDrop (alter_native cancel_native handle (control s)) [] s
            else at_worker w (AtStarted root handle)
                   (with_controls (control s) (<[w := handle]> (controls (control s)))) [] s)
  | AtStarted root handle => Some (at_worker w (AtForward root handle) (control s) [Started w] s)
  | AtClose root handle completed =>
      Some (at_worker w (AtEnd root completed) (unregister w (control s)) [] s)
  | AtEnd root completed =>
      Some (if completed || should_stop_workers (control s)
            then at_worker w AtTop (control s) [] s
            else fail_worker w "inventory worker stream ended before completion" s)
  | AtDrop => Some (at_worker w AtDone (control s) [WorkerFinished w] s)
  | AtStart _ | AtForward _ _ | AtDone => None
  end.

Definition coordinator_action (plan : InventoryRootPlan) (s : World) : option World :=
  match coordinator s with
  | Emitting =>
      Some (let '(m, sent, closed) := emit_root_entries (stream_open s) (root_entries plan) (merge s) in
            at_coordinator Receiving
              (if closed then begin_call CallCancel (control s) else control s) m (channel s) sent s)
  | Receiving =>
      match channel s with
      | message :: rest =>
          Some (let '(m, sent, cancels, gives_up) :=
                  handle_worker_message (stream_open s) message (merge s) in
                at_coordinator (if gives_up then GivingUp else Receiving)
                  (if cancels then begin_call CallCancel (control s) else control s) m rest sent s)
      | [] =>
          if bool_decide (map_Forall (fun _ pc => pc = AtDone) (workers s))
          then Some (at_coordinator Completing (stop_workers (control s)) (merge s) (channel s) [] s)
          else None
      end
  | Completing =>
      Some (at_coordinator CoordinatorDone (control s) (merge s) (channel s)
        (send (stream_open s) (Ok (Completed (coordinated_completion plan (cancelled (control s))))))
        s)
  | GivingUp | CoordinatorDone => None
  end.

Definition move (plan : InventoryRootPlan) (s : World) (m : Move) : option World :=
  match m with
  | MoveWorker w => workers s !! w ≫= fun pc => worker_action w pc s
  | MoveStart w handle =>
      match workers s !! w, natives (control s) !! handle with
      | Some (AtStart root), None =>
          Some (at_worker w (AtRegister root handle)
            (with_natives (control s) (<[handle := new_native]> (natives (control s)))) [] s)
      | _, _ => None
      end
  | MoveEvent w event =>
      match workers s !! w with
      | Some (AtForward root handle) =>
          Some (let '(sent, cancels, action) :=
                  forward_inventory_event event w (should_stop_workers (control s)) in
                logged root (Some event)
                  (at_worker w
                     (match action with
                      | ActionContinue => AtForward root handle
                      | ActionCompleted => AtClose root handle true
                      | ActionStop => AtClose root handle false
                      end)
                     (if cancels then begin_call CallCancel (control s) else control s) sent s))
      | _ => None
      end
  | MoveCoordinator => coordinator_action plan s
  | MoveBegin call => Some (with_control (begin_call call (control s)) (stream_open s) s)
  | MoveEnd call accepted =>
      if bool_decide (call ∈ in_flight (control s))
      then Some (with_control (end_call call accepted (control s)) (stream_open s) s)
      else None
  end.

Fixpoint run_moves (plan : InventoryRootPlan) (s : World) (moves : list Move) : option World :=
  match moves with
  | [] => Some s
  | m :: rest => move plan s m ≫= fun s => run_moves plan s rest
  end.

Lemma move_step plan s m s' : move plan s m = Some s' -> step plan s s'.
Proof.
  destruct m as [w|w handle|w event| |call|call accepted]; unfold move.
  - destruct (workers s !! w) as [pc|] eqn:Hw; simpl; [|done]. intros Ha.
    apply (step_worker _ _ w pc); [done|]. destruct pc; simpl in Ha; simplify_eq; constructor.
  - destruct (workers s !! w) as [pc|] eqn:Hw; [|done]. destruct pc; try done.
    destruct (natives (control s) !! handle) eqn:Hn; [done|]. intros [= <-].
    apply (step_worker _ _ w _ _ Hw). by constructor.
  - destruct (workers s !! w) as [pc|] eqn:Hw; [|done]. destruct pc; try done.
    intros [= <-]. apply (step_worker _ _ w _ _ Hw). constructor.
  - unfold coordinator_action. intros Ha. apply step_coordinator.
    destruct (coordinator s) eqn:Hco; try done.
    + injection Ha as <-. by apply step_emit.
    + destruct (channel s) as [|message rest] eqn:Hch.
      * case_bool_decide; [|done]. injection Ha as <-. rewrite <-Hch. by apply step_channel_closed.
      * injection Ha as <-. by apply step_receive.
    + injection Ha as <-. by apply step_complete.
  - intros [= <-]. apply step_begin_call.
  - case_bool_decide; [|done]. intros [= <-]. by apply step_end_call.
Qed.

Lemma run_moves_reachable plan count p moves : forall s s',
  reachable plan count p s -> run_moves plan s moves = Some s' -> reachable plan count p s'.
Proof.
  induction moves as [|m moves IH]; simpl; intros s s' Hs; [by intros [= <-]|].
  destruct (move plan s m) as [s1|] eqn:Hm; simpl; [|done]. apply IH.
  eapply reachable_step; [done|]. by apply move_step in Hm.
Qed.

(** ** Demonstrations *)

Definition ustr_of (text : string) : ustr :=
  map (fun a => Z.of_N (Ascii.N_of_ascii a)) (String.list_ascii_of_string text).
Definition demo_node (name : string) (kind : BrowseNodeKind) (item : option string) : BrowseNode :=
  {| node_key := name; node_display_name := ustr_of name; node_kind := kind;
     node_item_id := option_map ustr_of item |}.
Definition demo_root_page : BrowsePage :=
  {| page_nodes :=
       [ demo_node "b" NodeBranch (Some "b"); demo_node "x" NodeItem (Some "x");
         demo_node "a" NodeBranchAndItem (Some "a"); demo_node "n" NodeBranch None ];
     page_next_page_token := None; page_complete := true;
     page_organization := OrgHierarchical; page_source := SourceDa3; page_warning := None |}.

Definition demo_plan : InventoryRootPlan :=
  unwrap_or {| root_entries := []; worker_roots := []; plan_organization := OrgFlat;
               plan_source := SourceFlat |} (plan_inventory_roots demo_root_page).
Definition demo_world : World :=
  initial demo_plan (coordinated_worker_count 4 demo_plan) pacing_default.

Definition demo_entry_named (name : string) : InventoryEntry :=
  {| entry_display_name := ustr_of name; entry_item_id := ustr_of name;
     entry_kind := InventoryItem; entry_breadcrumbs := [] |}.
Definition demo_end (truncated : bool) : InventoryCompleted :=
  {| completed_complete := negb truncated; completed_cancelled := false;
     completed_truncated := truncated; completed_warning := then_some truncated "limit reached";
     completed_organization := OrgHierarchical; completed_source := SourceDa3 |}.

(** Worker [w] takes a root and registers the control [handle] for it. *)
Definition demo_open (w handle : nat) : list Move :=
  [MoveWorker w; MoveWorker w; MoveStart w handle] ++ replicate 5 (MoveWorker w).
Definition demo_inventory (w : nat) (name : string) (truncated : bool) : list Move :=
  [MoveEvent w (Ok (Entry (demo_entry_named name)));
   MoveEvent w (Ok (Completed (demo_end truncated))); MoveWorker w; MoveWorker w].
Definition demo_finish (w : nat) : list Move := replicate 3 (MoveWorker w).

(** Both workers inventory a root; the second finds an item the root page also has. *)
Definition demo_schedule (truncated : bool) : list Move :=
  [MoveCoordinator] ++ demo_open 0 7 ++ demo_open 1 8 ++ demo_inventory 1 "x" truncated ++
  demo_inventory 0 "y" false ++ demo_finish 0 ++ demo_finish 1 ++ replicate 10 MoveCoordinator.

Definition demo_run_world (moves : list Move) : World := unwrap_or demo_world (run_moves demo_plan demo_world moves).

Lemma demo_run_reachable moves :
  is_some (run_moves demo_plan demo_world moves) = true ->
  reachable demo_plan (coordinated_worker_count 4 demo_plan) pacing_default (demo_run_world moves).
Proof.
  unfold demo_run_world. destruct (run_moves _ _ _) as [s|] eqn:Hs; [|done]. intros _.
  eapply run_moves_reachable; [apply reachable_initial|exact Hs].
Qed.

Definition completions (s : World) : list InventoryCompleted :=
  omap (fun e => match e with Ok (Completed c) => Some c | _ => None end) (output s).
Lemma completions_in s c : c ∈ completions s -> Ok (Completed c) ∈ output s.
Proof.
  unfold completions. intros (event & Hin & He)%list_elem_of_omap.
  destruct event as [[]|]; by simplify_eq.
Qed.

Lemma coordinated_complete_witness :
  exists s completed, plan_inventory_roots demo_root_page = Some demo_plan /\
    completed_complete completed = true /\
    output s <> [] /\ NoDup (ids_of (output s)) /\
    ids_of (output s) = map ustr_of ["x"; "a"; "y"].
Proof.
  set (s := demo_run_world (demo_schedule false)).
  set (c := coordinated_completion demo_plan false).
  assert (Hr : reachable demo_plan (coordinated_worker_count 4 demo_plan) pacing_default s)
    by (apply demo_run_reachable; vm_compute; reflexivity).
  assert (Hin : Ok (Completed c) ∈ output s).
  { apply completions_in. assert (H : completions s = [c]) by (vm_compute; reflexivity).
    rewrite H. apply list_elem_of_here. }
  assert (Hids : ids_of (output s) = map ustr_of ["x"; "a"; "y"]) by (vm_compute; reflexivity).
  assert (Hplan : plan_inventory_roots demo_root_page = Some demo_plan) by (vm_compute; reflexivity).
  assert (Hc : completed_complete c = true) by reflexivity.
  clearbody s c. exists s, c. split; [exact Hplan|]. split; [exact Hc|].
  pose proof (coordinated_complete demo_root_page demo_plan 4 pacing_default s c Hplan) as Hall.
  destruct (Hall Hr Hin Hc) as (_ & Hnd & _ & events & Hout & _).
  split; [rewrite Hout; by destruct events|]. split; [exact Hnd|exact Hids].
Defined.

Definition demo_cancelled : World :=
  demo_run_world (demo_open 0 7 ++ [MoveBegin CallCancel; MoveEnd CallCancel []]).

Lemma cancellation_reaches_workers_witness :
  exists s, workers s !! 0%nat = Some (AtForward (ustr_of "a") 7) /\
    is_cancelled_native (control s) 7.
Proof.
  set (s := demo_cancelled).
  assert (Hw : workers s !! 0%nat = Some (AtForward (ustr_of "a") 7)) by (vm_compute; reflexivity).
  assert (Hc : cancelled (control s) = true) by (vm_compute; reflexivity).
  assert (Hin : CallCancel ∉ in_flight (control s)).
  { assert (H : in_flight (control s) = []) by (vm_compute; reflexivity).
    rewrite H. apply not_elem_of_nil. }
  assert (Hr : reachable demo_plan (coordinated_worker_count 4 demo_plan) pacing_default s)
    by (apply demo_run_reachable; vm_compute; reflexivity).
  clearbody s. exists s. split; [exact Hw|].
  destruct (cancellation_reaches_workers demo_plan _ pacing_default s 0 _ Hr Hc Hin Hw) as [H _].
  exact (proj2 (H 7%nat eq_refl)).
Defined.

(** The coordinator drops what a worker's end says about its subtree: a worker whose stream ended
    truncated, with a warning, still leads to a completion that is complete, not truncated
    and without warning. *)
Lemma truncated_subtree_completes :
  exists s root r completed,
    reachable demo_plan (coordinated_worker_count 4 demo_plan) pacing_default s /\
    answered s root (Completed r) /\ completed_complete r = false /\ completed_truncated r = true /\
    completed_warning r = Some "limit reached" /\
    Ok (Completed completed) ∈ output s /\ completed_complete completed = true /\
    completed_truncated completed = false /\ completed_warning completed = None.
Proof.
  exists (demo_run_world (demo_schedule true)), (ustr_of "b"), (demo_end true),
    (coordinated_completion demo_plan false).
  split; [apply demo_run_reachable; vm_compute; reflexivity|].
  split; [|split_and!; try done].
  - assert (H : log (demo_run_world (demo_schedule true)) !! 1%nat
      = Some (ustr_of "b", Some (Ok (Completed (demo_end true))))) by (vm_compute; reflexivity).
    by eapply list_elem_of_lookup_2.
  - apply completions_in.
    assert (H : completions (demo_run_world (demo_schedule true)) =
      [coordinated_completion demo_plan false]) by (vm_compute; reflexivity).
    rewrite H. apply list_elem_of_here.
Qed.

(** A pause between a worker's read of the paused flag and its registration is missed: the
    inventory is paused, no call is in flight, and the worker forwards a stream that is not
    paused. *)
Lemma pause_can_be_missed :
  exists s w root h n,
    reachable demo_plan (coordinated_worker_count 4 demo_plan) pacing_default s /\
    paused (control s) = true /\ in_flight (control s) = [] /\
    workers s !! w = Some (AtForward root h) /\ controls (control s) !! w = Some h /\
    natives (control s) !! h = Some n /\ native_paused n = false.
Proof.
  set (schedule := [MoveWorker 0; MoveWorker 0; MoveStart 0 7; MoveWorker 0; MoveWorker 0;
    MoveWorker 0; MoveBegin CallPause; MoveEnd CallPause []; MoveWorker 0; MoveWorker 0]).
  exists (demo_run_world schedule), 0%nat, (ustr_of "a"), 7%nat, new_native.
  split; [apply demo_run_reachable; vm_compute; reflexivity|].
  split_and!; vm_compute; reflexivity.
Qed.
