(* ===== verification/Manager.v ===== *)
(** * The registries of the index manager (index/enrollment.rs, scheduler.rs, status.rs,
    traversal.rs)

    The manager keeps, per server, a runtime state with the running build, and
    registries of builds, owners, locks, cancellations, deletions, foreground users and
    pause overlays, each behind a lock of its own. Every definition here is one critical
    section, or a sequence of them where the code composes them without a wait;
    [Lifecycle] interleaves them. The Arc identities of the code (controls, ownership
    tokens) are numbers. *)
From S2P Require Import Prelude Text TopK Schedule Controller Config Opc Store StoreSpec Status.

Record PauseOverlayState := { maintenance : bool; overlay_health : bool }.
Definition no_overlay : PauseOverlayState := {| maintenance := false; overlay_health := false |}.

(** What the manager does to the control of an inventory. *)
Record ControlState := { control_cancelled : bool; control_paused : bool }.

Record Manager := mk_manager {
  database : IndexDb;
  runtime : gmap string RuntimeState;
  active_builds : gset string;
  build_owners : gmap string nat;
  build_locks : gset string;
  pending_cancels : gset string;
  deleting : gset string;
  deletion_errors : gmap string string;
  foreground_users : gmap string Z;
  pause_overlays : gmap string PauseOverlayState;
  build_controls : gmap nat ControlState;
  shutting_down : bool
}.

Definition set_database m d := mk_manager d (runtime m) (active_builds m) (build_owners m)
  (build_locks m) (pending_cancels m) (deleting m) (deletion_errors m) (foreground_users m)
  (pause_overlays m) (build_controls m) (shutting_down m).
Definition set_runtime m r := mk_manager (database m) r (active_builds m) (build_owners m)
  (build_locks m) (pending_cancels m) (deleting m) (deletion_errors m) (foreground_users m)
  (pause_overlays m) (build_controls m) (shutting_down m).
Definition set_builds m active owners locks := mk_manager (database m) (runtime m) active owners
  locks (pending_cancels m) (deleting m) (deletion_errors m) (foreground_users m)
  (pause_overlays m) (build_controls m) (shutting_down m).
Definition set_pending_cancels m p := mk_manager (database m) (runtime m) (active_builds m)
  (build_owners m) (build_locks m) p (deleting m) (deletion_errors m) (foreground_users m)
  (pause_overlays m) (build_controls m) (shutting_down m).
Definition set_deletions m d e := mk_manager (database m) (runtime m) (active_builds m)
  (build_owners m) (build_locks m) (pending_cancels m) d e (foreground_users m)
  (pause_overlays m) (build_controls m) (shutting_down m).
Definition set_foreground_users m f := mk_manager (database m) (runtime m) (active_builds m)
  (build_owners m) (build_locks m) (pending_cancels m) (deleting m) (deletion_errors m) f
  (pause_overlays m) (build_controls m) (shutting_down m).
Definition set_pause_overlays m o := mk_manager (database m) (runtime m) (active_builds m)
  (build_owners m) (build_locks m) (pending_cancels m) (deleting m) (deletion_errors m)
  (foreground_users m) o (build_controls m) (shutting_down m).
Definition set_build_controls m c := mk_manager (database m) (runtime m) (active_builds m)
  (build_owners m) (build_locks m) (pending_cancels m) (deleting m) (deletion_errors m)
  (foreground_users m) (pause_overlays m) c (shutting_down m).
Definition set_shutting_down m b := mk_manager (database m) (runtime m) (active_builds m)
  (build_owners m) (build_locks m) (pending_cancels m) (deleting m) (deletion_errors m)
  (foreground_users m) (pause_overlays m) (build_controls m) b.

Definition set_build (s : RuntimeState) (b : option RuntimeBuild) : RuntimeState :=
  {| build := b; retry_after := retry_after s; last_error := last_error s;
     consecutive_failures := consecutive_failures s; circuit_open := circuit_open s;
     health := health s; sentinel_checked_at := sentinel_checked_at s |}.
Definition set_error (s : RuntimeState) (e : option string) : RuntimeState :=
  {| build := build s; retry_after := retry_after s; last_error := e;
     consecutive_failures := consecutive_failures s; circuit_open := circuit_open s;
     health := health s; sentinel_checked_at := sentinel_checked_at s |}.
Definition set_retry (s : RuntimeState) (after : option Z) (failures : Z) (open : bool) :
    RuntimeState :=
  {| build := build s; retry_after := after; last_error := last_error s;
     consecutive_failures := failures; circuit_open := open;
     health := health s; sentinel_checked_at := sentinel_checked_at s |}.

Definition with_control_of (b : RuntimeBuild) (c : option nat) : RuntimeBuild :=
  {| control := c; progress := progress b; started_at := started_at b;
     build_foreground_users := build_foreground_users b; operator_paused := operator_paused b;
     operator_cancelled_until := operator_cancelled_until b; quiet_until := quiet_until b;
     effective_limits := effective_limits b; controller_state := controller_state b;
     pause_reason := pause_reason b; recovery_deadline := recovery_deadline b;
     last_commit_latency_ms := last_commit_latency_ms b |}.
Definition with_operator (b : RuntimeBuild) (paused : bool) (cancelled_until : option Z) :
    RuntimeBuild :=
  {| control := control b; progress := progress b; started_at := started_at b;
     build_foreground_users := build_foreground_users b; operator_paused := paused;
     operator_cancelled_until := cancelled_until; quiet_until := quiet_until b;
     effective_limits := effective_limits b; controller_state := controller_state b;
     pause_reason := pause_reason b; recovery_deadline := recovery_deadline b;
     last_commit_latency_ms := last_commit_latency_ms b |}.
Definition with_foreground (b : RuntimeBuild) (users : Z) (quiet : option Z) : RuntimeBuild :=
  {| control := control b; progress := progress b; started_at := started_at b;
     build_foreground_users := users; operator_paused := operator_paused b;
     operator_cancelled_until := operator_cancelled_until b; quiet_until := quiet;
     effective_limits := effective_limits b; controller_state := controller_state b;
     pause_reason := pause_reason b; recovery_deadline := recovery_deadline b;
     last_commit_latency_ms := last_commit_latency_ms b |}.
Definition with_pause_reason (b : RuntimeBuild) (reason : option PauseReason) : RuntimeBuild :=
  {| control := control b; progress := progress b; started_at := started_at b;
     build_foreground_users := build_foreground_users b; operator_paused := operator_paused b;
     operator_cancelled_until := operator_cancelled_until b; quiet_until := quiet_until b;
     effective_limits := effective_limits b; controller_state := controller_state b;
     pause_reason := reason; recovery_deadline := recovery_deadline b;
     last_commit_latency_ms := last_commit_latency_ms b |}.
Definition with_controller_state (b : RuntimeBuild) (limits : InventoryLimits)
    (state : ControllerState) (deadline : option Z) : RuntimeBuild :=
  {| control := control b; progress := progress b; started_at := started_at b;
     build_foreground_users := build_foreground_users b; operator_paused := operator_paused b;
     operator_cancelled_until := operator_cancelled_until b; quiet_until := quiet_until b;
     effective_limits := Some limits; controller_state := Some state;
     pause_reason := pause_reason b; recovery_deadline := deadline;
     last_commit_latency_ms := last_commit_latency_ms b |}.

(** [runtime.get(server).and_then(|state| state.build.as_ref())] *)
Definition running_build (m : Manager) (server : string) : option RuntimeBuild :=
  state ← runtime m !! server; build state.

(** [runtime.get_mut(server)] *)
Definition alter_runtime (f : RuntimeState -> RuntimeState) (server : string) (m : Manager) :
    Manager := set_runtime m (alter f server (runtime m)).
(** [runtime.get_mut(server).and_then(|state| state.build.as_mut())] *)
Definition alter_build (f : RuntimeBuild -> RuntimeBuild) (server : string) (m : Manager) :
    Manager := alter_runtime (fun s => set_build s (f <$> build s)) server m.

Definition alter_control (f : ControlState -> ControlState) (c : nat) (m : Manager) : Manager :=
  set_build_controls m (alter f c (build_controls m)).
Definition cancel_control : nat -> Manager -> Manager :=
  alter_control (fun s => {| control_cancelled := true; control_paused := control_paused s |}).
Definition pause_control (paused : bool) : nat -> Manager -> Manager :=
  alter_control (fun s => {| control_cancelled := control_cancelled s; control_paused := paused |}).
Definition is_cancelled (m : Manager) (c : nat) : bool :=
  match build_controls m !! c with
  | Some s => control_cancelled s
  | None => false
  end.

Section Manager.
Context `{TextLibrary}.
Context (settings : ResolvedIndexConfig).

(** [RuntimeBuild] of a reservation. *)
Definition reserved_build (started : string) (foreground : Z) : RuntimeBuild :=
  {| control := None; progress := None; started_at := started;
     build_foreground_users := foreground; operator_paused := false;
     operator_cancelled_until := None; quiet_until := None; effective_limits := None;
     controller_state := None; pause_reason := None; recovery_deadline := None;
     last_commit_latency_ms := None |}.

(** [load_persisted_retry_state], which enters the server into the runtime. *)
Definition load_retry_state (server : string) (now : Z) (m : Manager) : Manager :=
  match retry_state (database m) server with
  | Err _ => m
  | Ok persisted =>
      set_runtime m
        (<[server := load_persisted_retry_state now
                       (unwrap_or default_runtime (runtime m !! server)) persisted]> (runtime m))
  end.

(** ** Reservation of a build

    [reserve_refresh_build] in three critical sections, all under the lock of
    [deleting]: the checks and the persisted retry state; the foreground users; the
    registration under the lock of [runtime]. [free] is the free space of the disk. *)

Definition required_space : Z :=
  saturating_add 64 (cfg_minimum_free_space_bytes settings) (cfg_storage_headroom_bytes settings).

(** [Ok false]: nothing to reserve. *)
Definition reserve_check (server : string) (automatic : bool) (free : option Z) (now : Z)
    (m : Manager) : Manager * result bool string :=
  let enrollment := enrollment (database m) server in
  if shutting_down m then (m, Ok false)
  else if bool_decide (server ∈ deleting m)
       || negb (is_some enrollment)
       || (automatic && is_some_and negb enrollment)
  then (m, Ok false)
  else if is_some_and (fun free => free <? required_space) free
  then (m, Err "insufficient free space for namespace index")
  else
    match retry_state (database m) server with
    | Err error => (m, Err error)
    | Ok _ => (load_retry_state server now m, Ok true)
    end.

Definition foreground_count (m : Manager) (server : string) : Z :=
  unwrap_or 0 (foreground_users m !! server).

Definition concurrency_limit : Z := Z.max 1 (cfg_concurrency settings).
Definition limit_reached (m : Manager) : bool :=
  concurrency_limit <=? Z.of_nat (size (active_builds m)).

(** [lock] is the answer of [BuildFileLock::acquire], [token] the new ownership;
    [Ok false]: a build runs, or the retry deadline or the circuit holds. *)
Definition reserve_commit (server : string) (force : bool) (foreground now : Z)
    (lock : result unit string) (token : nat) (m : Manager) : Manager * result bool string :=
  let state := unwrap_or default_runtime (runtime m !! server) in
  let m := set_runtime m (<[server := state]> (runtime m)) in
  let backing_off := negb force && is_some_and (fun retry => now <? retry) (retry_after state) in
  let circuit_open := negb force && circuit_open state in
  if is_some (build state) || backing_off || circuit_open then (m, Ok false)
  else if limit_reached m then (m, Err "namespace index build concurrency limit reached")
  else if bool_decide (server ∈ build_locks m)
  then (m, Err "namespace index build lock is already held in this process")
  else
    match lock with
    | Err error => (m, Err error)
    | Ok _ =>
        if is_some (build_owners m !! server)
        then (m, Err "index build owner is already registered in this process")
        else if limit_reached m then (m, Err "namespace index build concurrency limit reached")
        else
          let m :=
            set_builds m ({[server]} ∪ active_builds m) (<[server := token]> (build_owners m))
              ({[server]} ∪ build_locks m) in
          (alter_runtime
             (fun s => set_error (set_build s (Some (reserved_build (timestamp_now now) foreground)))
                         None)
             server m,
           Ok true)
    end.

(** ** Cancellation *)

(** [pending_cancels.remove(server)] and whether it was there. *)
Definition take_pending_cancel (server : string) (m : Manager) : Manager * bool :=
  (set_pending_cancels m (pending_cancels m ∖ {[server]}),
   bool_decide (server ∈ pending_cancels m)).
Definition clear_pending_cancel (server : string) (m : Manager) : Manager :=
  (take_pending_cancel server m).1.

Definition cancel_build (server : string) (b : RuntimeBuild) (m : Manager) : Manager :=
  match control b with
  | Some c => cancel_control c m
  | None => set_pending_cancels m ({[server]} ∪ pending_cancels m)
  end.

Definition cancel_active_build (server : string) (m : Manager) : Manager :=
  match running_build m server with
  | Some b => cancel_build server b m
  | None => m
  end.

(** ** Control actions *)

Inductive IndexControlAction :=
| Pause | Resume | Cancel | EnableAutoRefresh | DisableAutoRefresh | DeleteIndex.

Definition resume_build (instant_now : Z) (b : RuntimeBuild) : RuntimeBuild :=
  let b := with_operator b false (operator_cancelled_until b) in
  if (build_foreground_users b =? 0)
     && is_some_and (fun deadline => deadline <=? instant_now) (quiet_until b)
  then with_foreground b (build_foreground_users b) None
  else b.

(** The deadline of a cancellation by the operator. *)
Definition cancellation_deadline (server : string) (now : Z) : result Z string :=
  ok_or
    (system_time_checked_add now
       (duration_saturating_add (from_secs (Z.max 1 (cfg_refresh_interval_seconds settings)))
          (deterministic_jitter server (cfg_schedule_jitter_seconds settings))))
    "operator cancellation deadline overflow".

(** [write_error] is the error of a database write that fails as a whole. *)
Definition apply_control_action (server : string) (action : IndexControlAction)
    (now instant_now : Z) (write_error : option string) (m : Manager) :
    Manager * result unit string :=
  match runtime m !! server with
  | None => (m, Ok tt)
  | Some state =>
      match build state with
      | None => (m, Ok tt)
      | Some b =>
          match action with
          | Pause =>
              (alter_build (fun b => with_operator b true (operator_cancelled_until b)) server m, Ok tt)
          | Resume => (alter_build (resume_build instant_now) server m, Ok tt)
          | Cancel =>
              match
                match operator_cancelled_until b with
                | Some deadline => Ok deadline
                | None => cancellation_deadline server now
                end
              with
              | Err error => (m, Err error)
              | Ok deadline =>
                  let m := cancel_build server b m in
                  let retry :=
                    match retry_after state with
                    | Some retry => Z.max retry deadline
                    | None => deadline
                    end in
                  let m :=
                    alter_runtime
                      (fun s =>
                         set_retry
                           (set_build s (Some (with_operator b (operator_paused b) (Some deadline))))
                           (Some retry) (consecutive_failures s) (circuit_open s))
                      server m in
                  match write_error with
                  | Some error => (m, Err error)
                  | None =>
                      (set_database m
                         (set_retry_state (database m) server (Some retry)
                            (consecutive_failures state) (circuit_open state)),
                       Ok tt)
                  end
              end
          | EnableAutoRefresh | DisableAutoRefresh | DeleteIndex => (m, Ok tt)
          end
      end
  end.

(** ** Requests

    The admission of [refresh] and [control]; [IndexOperationError] is what the service
    maps to a status code. [db_error] is the error of the database access of the
    request, when it fails. *)

Inductive IndexOperationError :=
| UnknownServer (server : string)
| NotEnrolled (server : string)
| IsDeleting (server : string)
| Internal (error : string).

Definition reject_if_deleting (server : string) (m : Manager) : result unit IndexOperationError :=
  if bool_decide (server ∈ deleting m) then Err (IsDeleting server) else Ok tt.

Definition database_access {A} (db_error : option string) (a : A) : result A IndexOperationError :=
  match db_error with
  | Some error => Err (Internal error)
  | None => Ok a
  end.

Definition require_enrollment (server : string) (db_error : option string) (m : Manager) :
    result unit IndexOperationError :=
  let? _ := reject_if_deleting server m in
  let? enrolled := database_access db_error (is_enrolled (database m) server) in
  if enrolled : bool then Ok tt else Err (NotEnrolled server).

(** [listed] is the client's answer to [list_servers]. *)
Definition validate_server_for_enrollment (server : string) (listed : result (list string) string) :
    result unit IndexOperationError :=
  match listed with
  | Err error => Err (Internal error)
  | Ok servers =>
      if bool_decide (server ∈ servers) then Ok tt else Err (UnknownServer server)
  end.

(** [refresh] up to [refresh_enrolled]. *)
Definition refresh_admission (server : string) (listed : result (list string) string) (now : Z)
    (db_error : option string) (m : Manager) : Manager * result unit IndexOperationError :=
  match reject_if_deleting server m with
  | Err error => (m, Err error)
  | Ok _ =>
      match database_access db_error (is_enrolled (database m) server) with
      | Err error => (m, Err error)
      | Ok true => (m, Ok tt)
      | Ok false =>
          match validate_server_for_enrollment server listed with
          | Err error => (m, Err error)
          | Ok _ => (set_database m (enroll (database m) server (timestamp_now now)), Ok tt)
          end
      end
  end.

Definition change_auto_refresh (server : string) (enabled : bool) (now : Z)
    (db_error : option string) (m : Manager) : Manager * result unit IndexOperationError :=
  match reject_if_deleting server m with
  | Err error => (m, Err error)
  | Ok _ =>
      match db_error with
      | Some error => (m, Err (Internal error))
      | None =>
          let '(db, changed) := set_auto_refresh (database m) server enabled (timestamp_now now) in
          if changed then (set_database m db, Ok tt) else (m, Err (NotEnrolled server))
      end
  end.

Definition reserve_deletion (server : string) (m : Manager) :
    Manager * result unit IndexOperationError :=
  if bool_decide (server ∈ deleting m) then (m, Err (IsDeleting server))
  else (set_deletions m ({[server]} ∪ deleting m) (deletion_errors m), Ok tt).
Definition release_deletion (server : string) (m : Manager) : Manager :=
  set_deletions m (deleting m ∖ {[server]}) (deletion_errors m).

(** The errors cleared and the task spawned, unless the gateway shuts down. *)
Definition spawn_deletion (server : string) (m : Manager) : Manager * result bool IndexOperationError :=
  let m := set_deletions m (deleting m) (delete server (deletion_errors m)) in
  if shutting_down m then (release_deletion server m, Err (Internal "gateway is shutting down"))
  else (m, Ok true).

(** [delete_index] up to the task it spawns: [Ok false] when there is nothing to delete. *)
Definition delete_admission (server : string) (db_error : option string) (m : Manager) :
    Manager * result bool IndexOperationError :=
  match reject_if_deleting server m with
  | Err error => (m, Err error)
  | Ok _ =>
      match database_access db_error (is_enrolled (database m) server) with
      | Err error => (m, Err error)
      | Ok false => (m, Ok false)
      | Ok true =>
          match reserve_deletion server m with
          | (m, Err error) => (m, Err error)
          | (m, Ok _) => spawn_deletion server m
          end
      end
  end.

(** The end of the task. *)
Definition finish_deletion (server : string) (outcome : result unit string) (m : Manager) : Manager :=
  let m :=
    match outcome with
    | Ok _ => m
    | Err error => set_deletions m (deleting m) (<[server := error]> (deletion_errors m))
    end in
  release_deletion server m.

(** ** The end of a build *)

(** [build_completion_is_current], for an owner; a missing runtime or build does not
    contradict the control. *)
Definition build_completion_is_current (server : string) (c : option nat) (ownership : nat)
    (m : Manager) : bool :=
  bool_decide (build_owners m !! server = Some ownership) &&
  match c with
  | None => true
  | Some c =>
      match runtime m !! server with
      | None => true
      | Some state =>
          match build state with
          | None => true
          | Some b => bool_decide (control b = Some c)
          end
      end
  end.

Definition update_runtime_after_build (server : string) (error : option string) (now : Z)
    (s : RuntimeState) : RuntimeState :=
  let deadline := b ← build s; operator_cancelled_until b in
  let s := set_error s error in
  match error with
  | Some _ =>
      let failures := saturating_add 32 (consecutive_failures s) 1 in
      let open := cfg_circuit_failure_threshold settings <=? failures in
      let retry :=
        now + retry_delay server failures open (cfg_circuit_open_seconds settings) in
      set_retry s (Some match deadline with Some d => Z.max retry d | None => retry end)
        failures open
  | None =>
      match deadline with
      | Some d => set_retry s (Some d) (consecutive_failures s) (circuit_open s)
      | None => set_retry s None 0 false
      end
  end.

(** The critical section of [finish_build_inner_with_retry_policy]: whether the caller
    owns the build. *)
Definition finish_update (server : string) (c : option nat) (ownership : nat)
    (error : option string) (preserve_retry_state : bool) (now : Z) (m : Manager) :
    Manager * bool :=
  if build_completion_is_current server c ownership m then
    (alter_runtime
       (if preserve_retry_state then fun s => set_error s error
        else update_runtime_after_build server error now)
       server m, true)
  else (m, false).

(** [persist_retry_state]; a failed write becomes the last error. *)
Definition persisted_retry (m : Manager) (server : string) : option Z * Z * bool :=
  match runtime m !! server with
  | Some s => (retry_after s, consecutive_failures s, circuit_open s)
  | None => (None, 0, false)
  end.
Definition persist_retry_state (server : string) (write_error : option string) (m : Manager) :
    Manager :=
  let '(retry, failures, open) := persisted_retry m server in
  match write_error with
  | None => set_database m (set_retry_state (database m) server retry failures open)
  | Some error =>
      alter_runtime
        (fun s => set_error s
           (Some (String.append "unable to persist index scheduling deadline: " error)))
        server m
  end.

Definition clear_pause_overlays (server : string) (m : Manager) : Manager :=
  set_pause_overlays m (delete server (pause_overlays m)).
Definition remove_build_owner (server : string) (ownership : nat) (m : Manager) : Manager :=
  set_builds m (active_builds m)
    (if bool_decide (build_owners m !! server = Some ownership)
     then delete server (build_owners m) else build_owners m)
    (build_locks m).
Definition clear_active_build (server : string) (m : Manager) : Manager :=
  set_builds m (active_builds m ∖ {[server]}) (build_owners m) (build_locks m).
Definition clear_build_lock (server : string) (m : Manager) : Manager :=
  set_builds m (active_builds m) (build_owners m) (build_locks m ∖ {[server]}).
Definition take_build (server : string) (m : Manager) : Manager :=
  alter_runtime (fun s => set_build s None) server m.

(** ** Pauses and foreground users *)

Definition get_overlay (m : Manager) (server : string) : PauseOverlayState :=
  unwrap_or no_overlay (pause_overlays m !! server).

(** The reason a build is paused for: the operator before the foreground, maintenance,
    health and the controller. *)
Definition pause_reason_of (b : RuntimeBuild) (overlay : PauseOverlayState) (now : Z) :
    option PauseReason :=
  let foreground :=
    (0 <? build_foreground_users b) || is_some_and (fun deadline => now <? deadline) (quiet_until b) in
  if operator_paused b then Some Operator
  else if foreground then Some Foreground
  else if maintenance overlay then Some Maintenance
  else if overlay_health overlay then Some OpcHealth
  else
    match controller_state b with
    | Some (Paused reason) => Some reason
    | _ => None
    end.

(** [reconcile_pause_state] in its three critical sections: the overlay is read, the
    reason is stored, and the control is told after the lock is released. *)
Definition reconcile_build (server : string) (overlay : PauseOverlayState) (now : Z) (m : Manager) :
    Manager * option (nat * bool) :=
  match running_build m server with
  | None => (m, None)
  | Some b =>
      let reason := pause_reason_of b overlay now in
      (alter_build (fun b => with_pause_reason b reason) server m,
       c ← control b; Some (c, is_some reason))
  end.
Definition tell_control (call : option (nat * bool)) (m : Manager) : Manager :=
  match call with
  | Some (c, paused) => pause_control paused c m
  | None => m
  end.
Definition reconcile_pause_state (server : string) (now : Z) (m : Manager) : Manager :=
  let '(m, call) := reconcile_build server (get_overlay m server) now m in
  tell_control call m.

Definition update_pause_overlay (server : string) (maintenance' health' : option bool) (m : Manager) :
    Manager :=
  let old := get_overlay m server in
  let overlay :=
    {| maintenance := unwrap_or (maintenance old) maintenance';
       overlay_health := unwrap_or (overlay_health old) health' |} in
  set_pause_overlays m
    (if negb (maintenance overlay) && negb (overlay_health overlay)
     then delete server (pause_overlays m) else <[server := overlay]> (pause_overlays m)).
Definition set_pause_overlay (server : string) (maintenance' health' : option bool) (now : Z)
    (m : Manager) : Manager :=
  reconcile_pause_state server now (update_pause_overlay server maintenance' health' m).

(** A [usize] of the gateway's 64-bit platform. *)
Definition increment_foreground_users (server : string) (m : Manager) : Manager * Z :=
  let users := saturating_add 64 (foreground_count m server) 1 in
  (set_foreground_users m (<[server := users]> (foreground_users m)), users).
Definition foreground_guard (server : string) (now : Z) (m : Manager) : Manager :=
  let '(m, users) := increment_foreground_users server m in
  let m := alter_build (fun b => with_foreground b users None) server m in
  reconcile_pause_state server now m.

Definition decrement_foreground_users (server : string) (m : Manager) : Manager :=
  let remaining := saturating_sub (foreground_count m server) 1 in
  set_foreground_users m
    (if remaining =? 0 then delete server (foreground_users m)
     else <[server := remaining]> (foreground_users m)).
Definition quiet_period : Z := from_secs (cfg_quiet_period_seconds settings).
Definition update_runtime_after_foreground_end (server : string) (now : Z) (m : Manager) : Manager :=
  let users := foreground_count m server in
  alter_build
    (fun b => with_foreground b users (if users =? 0 then Some (now + quiet_period) else quiet_until b))
    server m.
(** Up to the timer of the quiet period. *)
Definition foreground_end (server : string) (now : Z) (m : Manager) : Manager :=
  reconcile_pause_state server now
    (update_runtime_after_foreground_end server now (decrement_foreground_users server m)).

Definition quiet_expired (now : Z) (b : RuntimeBuild) : bool :=
  (build_foreground_users b =? 0) && is_some_and (fun deadline => deadline <=? now) (quiet_until b).
Definition clear_expired_foreground_quiet_period (server : string) (now : Z) (m : Manager) :
    Manager * bool :=
  match running_build m server with
  | Some b =>
      if quiet_expired now b
      then (alter_build (fun b => with_foreground b (build_foreground_users b) None) server m, true)
      else (m, false)
  | None => (m, false)
  end.
(** The timer. *)
Definition quiet_timer (server : string) (now : Z) (m : Manager) : Manager :=
  let '(m, expired) := clear_expired_foreground_quiet_period server now m in
  if expired then reconcile_pause_state server now m else m.

Definition update_runtime_controller (server : string) (limits : InventoryLimits)
    (state : ControllerState) (deadline : option Z) (now : Z) (m : Manager) : Manager :=
  match running_build m server with
  | Some _ =>
      reconcile_pause_state server now
        (alter_build (fun b => with_controller_state b limits state deadline) server m)
  | None => m
  end.

(** [apply_control_action] with the reconciliation [control] adds. *)
Definition control_action (server : string) (action : IndexControlAction) (now instant_now : Z)
    (write_error : option string) (m : Manager) : Manager * result unit string :=
  match apply_control_action server action now instant_now write_error m with
  | (m, Err error) => (m, Err error)
  | (m, Ok _) =>
      (match action with
       | Cancel => m
       | _ => reconcile_pause_state server instant_now m
       end, Ok tt)
  end.

(** The conditional invalidation of [refresh_after_profile_change]: the index is cleared
    unless the build was cancelled, the server is no longer enrolled for automatic
    refreshes, or the index is not the one that was inspected any more. *)
Definition still_active (server : string) (generation : Z) (completed : option string)
    (m : Manager) : bool :=
  existsb
    (fun row => row_is Active row && (row_generation row =? generation)
       && bool_decide (row_completed_at row = completed))
    (status_rows (database m) server).
Definition may_invalidate (server : string) (generation : Z) (completed : option string)
    (m : Manager) : bool :=
  negb (bool_decide (server ∈ pending_cancels m))
  && is_some_and id (enrollment (database m) server)
  && still_active server generation completed m.

(** [update_runtime_progress], [update_health_state] *)
Definition update_runtime_progress (server : string) (progress' : InventoryProgress) (m : Manager) :
    Manager :=
  alter_build
    (fun b =>
       {| control := control b; progress := Some progress'; started_at := started_at b;
          build_foreground_users := build_foreground_users b; operator_paused := operator_paused b;
          operator_cancelled_until := operator_cancelled_until b; quiet_until := quiet_until b;
          effective_limits := effective_limits b; controller_state := controller_state b;
          pause_reason := pause_reason b; recovery_deadline := recovery_deadline b;
          last_commit_latency_ms := last_commit_latency_ms b |})
    server m.
Definition update_health_state (server : string) (health' : HealthProbeState) (now : Z)
    (m : Manager) : Manager :=
  alter_runtime
    (fun s =>
       {| build := build s; retry_after := retry_after s; last_error := last_error s;
          consecutive_failures := consecutive_failures s; circuit_open := circuit_open s;
          health := health'; sentinel_checked_at := Some now |})
    server m.

(** [shutdown_background_indexing]: the flag, and the cancellation of the builds. *)
Definition cancel_builds (m : Manager) : Manager :=
  fold_right
    (fun '(_, state) m =>
       match b ← build state; control b with
       | Some c => cancel_control c m
       | None => m
       end)
    m (map_to_list (runtime m)).

Definition build_can_resume (b : RuntimeBuild) (overlay : PauseOverlayState) (now : Z) : bool :=
  (build_foreground_users b =? 0) && negb (operator_paused b)
  && is_none_or (fun deadline => deadline <=? now) (quiet_until b)
  && negb (maintenance overlay) && negb (overlay_health overlay)
  && negb (match controller_state b with Some (Paused _) => true | _ => false end).
End Manager.
