(* ===== verification/Lifecycle.v ===== *)
(** * The life of builds and deletions (index/enrollment.rs, traversal.rs, scheduler.rs)

    A refresh reserves the build of a server, starts its inventory, creates its
    generation and launches the build, which ends with the release of its
    registrations; a deletion waits for the build and removes the index. The tasks of
    all servers, the requests of clients and the shutdown interleave: one step is one
    critical section of [Manager], labelled with the database write it commits. Answers
    of the client, of the operating system (file locks, disk space), clocks and failures of the
    database are inputs of the steps. *)
From S2P Require Import Prelude Text TopK Schedule Controller Config Opc Store StoreSpec Status Manager.

(** The stages of [finish_build_inner] and [finalize_owned_build]. *)
Inductive FinishStage :=
| Update | Persist | Overlays | Owner | ActiveBuild | BuildLock | TakeBuild | PendingCancel.

Inductive Pc :=
(* reserve_refresh_build; Counting and Reserving hold the lock of [deleting] *)
| Checking (force automatic : bool) (profile_change : option (Z * option string))
| Counting (force : bool) (profile_change : option (Z * option string))
| Reserving (force : bool) (profile_change : option (Z * option string)) (foreground : Z)
(* refresh_after_profile_change *)
| Invalidating (generation : Z) (completed : option string)
(* start_refresh_inventory *)
| Starting
| StartFailed (error : string)
| Recording (error : string)
(* attach_refresh_control *)
| Pacing (c : nat)
| PacingFailed (c : nat) (before : bool) (error : string)
| Attaching (c : nat) (before : bool)
| AttachFailed (c : nat) (before : bool)
| TakingCancel (c : nat) (before : bool)
| Attached (c : nat) (before : bool)
(* start_refresh_generation *)
| Probing (c : nat) (before : bool)
| StartRefused (c : nat) (before : bool) (error : string)
| Generating (c : nat) (before : bool) (organization : NamespaceOrganization) (source : BrowseSource)
(* launch_refresh_build *)
| Launching (c : nat) (before : bool) (generation : Z)
| Launched (c : nat) (before : bool) (generation : Z)
| Readying (c : nat) (generation : Z)
| Spawning (c : nat) (generation : Z)
(* abandon_generation *)
| Discarding (generation : Z) (reason : string) (c : option nat) (error : option string)
| FailingGeneration (generation : Z) (reason : string) (c : option nat) (error : option string)
(* run_build *)
| Building (c : nat) (generation : Z)
| Finishing (stage : FinishStage) (c : option nat) (error : option string) (preserve : bool)
(* delete_index and its task *)
| DeleteAdmitted
| DeleteReserving
| DeleteSpawning
| DeleteCancelling
| DeleteWaiting
| DeleteLocking
| DeleteWriting
| DeleteRuntime
| DeletePending
| DeleteFinishing (outcome : result unit string)
| Ended.

Record Task := mk_task { task_server : string; task_pc : Pc }.

Record Lifecycle := mk_lifecycle {
  manager : Manager;
  tasks : gmap nat Task;
  deleting_lock : option nat
}.

Definition disappeared : string := "index build disappeared before start".

(** The writes of a running build. *)
Definition build_op (server : string) (generation : Z) (op : db_op) : Prop :=
  match op with
  | OpInsertEntries s g _ | OpUpdateProgress s g _ | OpPromote s g _ _ _ _
  | OpFailGeneration s g _ | OpDiscardEmptyGeneration s g => s = server /\ g = generation
  | _ => False
  end.

Section Lifecycle.
Context `{TextLibrary}.
Context (settings : ResolvedIndexConfig).

Definition exec (op : option db_op) (m : Manager) : Manager :=
  match op with
  | Some op => set_database m (db_exec (database m) op)
  | None => m
  end.

(** A write that fails as a whole commits nothing. *)
Definition write (failed : bool) (op : db_op) : option db_op := if failed then None else Some op.

(** After a failed start: a cancellation that came meanwhile ends the build without an
    error. *)
Definition after_take (cancelled : bool) (refused : Pc) : Pc :=
  if cancelled then Finishing Update None None false else refused.

(** The stages after the first. *)
Definition finish_stage (t : nat) (server : string) (stage : FinishStage)
    (write_error : option string) (m : Manager) : Manager * option FinishStage :=
  match stage with
  | Update => (m, None)
  | Persist => (persist_retry_state server write_error m, Some Overlays)
  | Overlays => (clear_pause_overlays server m, Some Owner)
  | Owner => (remove_build_owner server t m, Some ActiveBuild)
  | ActiveBuild => (clear_active_build server m, Some BuildLock)
  | BuildLock => (clear_build_lock server m, Some TakeBuild)
  | TakeBuild => (take_build server m, Some PendingCancel)
  | PendingCancel => (clear_pending_cancel server m, None)
  end.
Definition finish_op (server : string) (stage : FinishStage) (write_error : option string)
    (m : Manager) : option db_op :=
  match stage, write_error with
  | Persist, None =>
      let '(retry, failures, open) := persisted_retry m server in
      Some (OpSetRetryState server retry failures open)
  | _, _ => None
  end.

(** One critical section of task [t] for [server]: from the manager and the holder of
    the lock of [deleting], with the write it commits. *)
Inductive task_step (t : nat) (server : string) (m : Manager) :
    option nat -> Pc -> Manager -> option nat -> Pc -> option db_op -> Prop :=
| step_check_error force automatic profile :
    task_step t server m None (Checking force automatic profile) m None Ended None
| step_check force automatic profile free now m' r :
    reserve_check settings server automatic free now m = (m', r) ->
    task_step t server m None (Checking force automatic profile) m'
      (match r with Ok true => Some t | _ => None end)
      (match r with Ok true => Counting force profile | _ => Ended end) None
| step_count force profile lock :
    task_step t server m lock (Counting force profile) m lock
      (Reserving force profile (foreground_count m server)) None
| step_reserve force profile foreground now answer lock m' r :
    reserve_commit settings server force foreground now answer t m = (m', r) ->
    task_step t server m lock (Reserving force profile foreground) m' None
      (match r with
       | Ok true =>
           match profile with
           | Some (generation, completed) => Invalidating generation completed
           | None => Starting
           end
       | _ => Ended
       end) None
| step_invalidate generation completed lock :
    task_step t server m lock (Invalidating generation completed)
      (exec (if may_invalidate server generation completed m then Some (OpClearServer server) else None) m)
      lock
      (if may_invalidate server generation completed m then Starting
       else Finishing Update None None false)
      (if may_invalidate server generation completed m then Some (OpClearServer server) else None)
| step_invalidate_error generation completed error lock :
    task_step t server m lock (Invalidating generation completed) m lock (Recording error) None
| step_start_ok c cancelled lock :
    build_controls m !! c = None ->
    task_step t server m lock Starting
      (set_build_controls m
         (<[c := {| control_cancelled := cancelled; control_paused := false |}]> (build_controls m)))
      lock (Pacing c) None
| step_start_error error lock :
    task_step t server m lock Starting m lock (StartFailed error) None
| step_start_failed error lock :
    task_step t server m lock (StartFailed error) (take_pending_cancel server m).1 lock
      (after_take (take_pending_cancel server m).2 (Recording error)) None
| step_record error now failed lock :
    task_step t server m lock (Recording error)
      (exec (write failed (OpRecordFailedAttempt server error (timestamp_now now))) m) lock
      (Finishing Update None (Some error) false)
      (write failed (OpRecordFailedAttempt server error (timestamp_now now)))
| step_pace c lock :
    task_step t server m lock (Pacing c) m lock (Attaching c (is_cancelled m c)) None
| step_pace_error c error lock :
    task_step t server m lock (Pacing c) m lock (PacingFailed c (is_cancelled m c) error) None
| step_pacing_failed c before error lock :
    task_step t server m lock (PacingFailed c before error)
      (cancel_control c (take_pending_cancel server m).1) lock
      (after_take ((take_pending_cancel server m).2 || (negb before && is_cancelled m c))
         (Recording (String.append "unable to apply initial inventory pacing: " error))) None
| step_attach c before lock :
    task_step t server m lock (Attaching c before)
      (alter_build (fun b => with_control_of b (Some c)) server m) lock
      (if is_some (running_build m server) then TakingCancel c before else AttachFailed c before) None
| step_attach_failed c before lock :
    task_step t server m lock (AttachFailed c before)
      (cancel_control c (take_pending_cancel server m).1) lock
      (after_take ((take_pending_cancel server m).2 || (negb before && is_cancelled m c))
         (Finishing Update None (Some disappeared) false)) None
| step_take_cancel c before lock :
    task_step t server m lock (TakingCancel c before)
      (if (take_pending_cancel server m).2 then cancel_control c (take_pending_cancel server m).1
       else (take_pending_cancel server m).1) lock
      (if (take_pending_cancel server m).2 then Finishing Update (Some c) None false
       else Attached c before) None
| step_attached c before lock :
    task_step t server m lock (Attached c before)
      (if shutting_down m then cancel_control c m else m) lock
      (if shutting_down m then Finishing Update None None false else Probing c before) None
| step_probe c before organization source lock :
    task_step t server m lock (Probing c before) m lock (Generating c before organization source) None
| step_probe_error c before error lock :
    task_step t server m lock (Probing c before) m lock (StartRefused c before error) None
| step_start_refused c before error lock :
    task_step t server m lock (StartRefused c before error) (cancel_control c m) lock
      (if negb before && is_cancelled m c then Finishing Update (Some c) None false
       else Recording error) None
| step_generate c before organization source now generation lock :
    (start_generation (database m) server organization source (timestamp_now now)).2 = Ok generation ->
    task_step t server m lock (Generating c before organization source)
      (exec (Some (OpStartGeneration server organization source (timestamp_now now))) m) lock
      (Launching c before generation)
      (Some (OpStartGeneration server organization source (timestamp_now now)))
| step_generate_error c before organization source error lock :
    task_step t server m lock (Generating c before organization source) m lock
      (StartRefused c before error) None
| step_launch c before generation lock :
    (b ← running_build m server; control b) = Some c ->
    task_step t server m lock (Launching c before generation) m lock (Launched c before generation) None
| step_launch_lost c before generation lock :
    (b ← running_build m server; control b) <> Some c ->
    task_step t server m lock (Launching c before generation) (cancel_control c m) lock
      (Discarding generation disappeared None
         (if is_cancelled m c then None else Some disappeared)) None
| step_launched c before generation now lock :
    task_step t server m lock (Launched c before generation)
      (if negb before && is_cancelled m c then cancel_control c m
       else reconcile_pause_state server now m) lock
      (if negb before && is_cancelled m c
       then Discarding generation "index build cancelled during startup" (Some c) None
       else Readying c generation) None
| step_ready c generation lock :
    task_step t server m lock (Readying c generation)
      (if shutting_down m then cancel_control c m else m) lock
      (if shutting_down m
       then Discarding generation "gateway shutdown before index build" None None
       else Spawning c generation) None
| step_spawn_build c generation lock :
    task_step t server m lock (Spawning c generation)
      (if shutting_down m then cancel_control c m else m) lock
      (if shutting_down m then Discarding generation "index build task was not started" (Some c) None
       else Building c generation) None
| step_discard generation reason c error failed lock :
    task_step t server m lock (Discarding generation reason c error)
      (exec (write failed (OpDiscardEmptyGeneration server generation)) m) lock
      (match failed, (discard_empty_generation (database m) server generation).2 with
       | false, Ok false => FailingGeneration generation reason c error
       | _, _ => Finishing Update c error false
       end)
      (write failed (OpDiscardEmptyGeneration server generation))
| step_fail_generation generation reason c error failed lock :
    task_step t server m lock (FailingGeneration generation reason c error)
      (exec (write failed (OpFailGeneration server generation reason)) m) lock
      (Finishing Update c error false)
      (write failed (OpFailGeneration server generation reason))
| step_build_write c generation op lock :
    build_op server generation op ->
    task_step t server m lock (Building c generation) (exec (Some op) m) lock
      (Building c generation) (Some op)
| step_build_end c generation error preserve lock :
    task_step t server m lock (Building c generation) m lock
      (Finishing Update (Some c) error preserve) None
| step_finish_update c error preserve now lock m' owns :
    finish_update settings server c t error preserve now m = (m', owns) ->
    task_step t server m lock (Finishing Update c error preserve) m' lock
      (if owns then Finishing Persist c error preserve else Ended) None
| step_finish_stage stage c error preserve write_error lock m' next :
    stage <> Update ->
    finish_stage t server stage write_error m = (m', next) ->
    task_step t server m lock (Finishing stage c error preserve) m' lock
      (match next with Some stage => Finishing stage c error preserve | None => Ended end)
      (finish_op server stage write_error m)
| step_delete_admitted enrolled :
    task_step t server m None DeleteAdmitted m None
      (if bool_decide (server ∈ deleting m) || negb enrolled then Ended else DeleteReserving) None
| step_delete_reserve :
    task_step t server m None DeleteReserving (reserve_deletion server m).1 None
      (if is_ok (reserve_deletion server m).2 then DeleteSpawning else Ended) None
| step_delete_spawn :
    task_step t server m None DeleteSpawning (spawn_deletion server m).1 None
      (if is_ok (spawn_deletion server m).2 then DeleteCancelling else Ended) None
| step_delete_cancel lock :
    task_step t server m lock DeleteCancelling (cancel_active_build server m) lock DeleteWaiting None
| step_delete_wait lock :
    server ∉ active_builds m ->
    task_step t server m lock DeleteWaiting m lock DeleteLocking None
| step_delete_lock answer lock :
    task_step t server m lock DeleteLocking m lock
      (match answer : result unit string with
       | Ok _ => DeleteWriting
       | Err error => DeleteFinishing (Err error)
       end) None
| step_delete_write write_error lock :
    task_step t server m lock DeleteWriting
      (exec (write (is_some write_error) (OpDeleteIndex server)) m) lock
      (match write_error with
       | None => DeleteRuntime
       | Some error => DeleteFinishing (Err error)
       end)
      (write (is_some write_error) (OpDeleteIndex server))
| step_delete_runtime lock :
    task_step t server m lock DeleteRuntime (set_runtime m (delete server (runtime m))) lock
      DeletePending None
| step_delete_pending lock :
    task_step t server m lock DeletePending (clear_pending_cancel server m) lock
      (DeleteFinishing (Ok tt)) None
| step_delete_finish outcome :
    task_step t server m None (DeleteFinishing outcome) (finish_deletion server outcome m) None Ended None.

(** Critical sections of requests, timers and the build's own reports, for any server. *)
Inductive request_step (m : Manager) : Manager -> option db_op -> Prop :=
| request_enroll server now :
    request_step m (exec (Some (OpEnroll server (timestamp_now now))) m)
      (Some (OpEnroll server (timestamp_now now)))
| request_auto_refresh server enabled now :
    request_step m (exec (Some (OpSetAutoRefresh server enabled (timestamp_now now))) m)
      (Some (OpSetAutoRefresh server enabled (timestamp_now now)))
| request_action server action now instant_now write_error :
    request_step m (apply_control_action settings server action now instant_now write_error m).1
      (match
         action, write_error, b ← running_build m server; Some b,
         (apply_control_action settings server action now instant_now write_error m).2
       with
       | Cancel, None, Some _, Ok _ =>
           let '(retry, failures, open) :=
             persisted_retry (apply_control_action settings server action now instant_now write_error m).1
               server in
           Some (OpSetRetryState server retry failures open)
       | _, _, _, _ => None
       end)
| request_cleanup server cursor flags :
    request_step m (exec (Some (OpCleanupBatch server cursor flags)) m)
      (Some (OpCleanupBatch server cursor flags))
| request_load server now : request_step m (load_retry_state server now m) None
| request_reconcile server overlay now :
    request_step m (reconcile_build server overlay now m).1 None
| request_tell call : request_step m (tell_control call m) None
| request_overlay server maintenance health :
    request_step m (update_pause_overlay server maintenance health m) None
| request_foreground_count server : request_step m (increment_foreground_users server m).1 None
| request_foreground_begin server users :
    request_step m (alter_build (fun b => with_foreground b users None) server m) None
| request_foreground_decrement server : request_step m (decrement_foreground_users server m) None
| request_foreground_end server now :
    request_step m (update_runtime_after_foreground_end settings server now m) None
| request_quiet server now :
    request_step m (clear_expired_foreground_quiet_period server now m).1 None
| request_controller server limits state deadline :
    request_step m (alter_build (fun b => with_controller_state b limits state deadline) server m) None
| request_progress server progress : request_step m (update_runtime_progress server progress m) None
| request_health server health now : request_step m (update_health_state server health now m) None
| request_shutdown : request_step m (set_shutting_down m true) None
| request_cancel_builds : request_step m (cancel_builds m) None.

Definition initial_pc (pc : Pc) : Prop :=
  match pc with
  | Checking _ _ _ | DeleteAdmitted => True
  | _ => False
  end.

(** The label: the task of the step, if it is one, and the write. *)
Inductive step (w : Lifecycle) : option nat -> option db_op -> Lifecycle -> Prop :=
| step_new t server pc :
    tasks w !! t = None -> initial_pc pc ->
    step w None None
      (mk_lifecycle (manager w) (<[t := mk_task server pc]> (tasks w)) (deleting_lock w))
| step_task t server pc m lock pc' op :
    tasks w !! t = Some (mk_task server pc) ->
    task_step t server (manager w) (deleting_lock w) pc m lock pc' op ->
    step w (Some t) op (mk_lifecycle m (<[t := mk_task server pc']> (tasks w)) lock)
| step_request m op :
    request_step (manager w) m op ->
    step w None op (mk_lifecycle m (tasks w) (deleting_lock w)).

Definition new_manager (db : IndexDb) : Manager :=
  mk_manager db ∅ ∅ ∅ ∅ ∅ ∅ ∅ ∅ ∅ ∅ false.

Inductive reachable (db : IndexDb) : Lifecycle -> Prop :=
| reachable_initial : reachable db (mk_lifecycle (new_manager db) ∅ None)
| reachable_next w t op w' : reachable db w -> step w t op w' -> reachable db w'.
End Lifecycle.
