(* ===== verification/LifecycleSpec.v ===== *)
(** * Properties of builds and deletions

    The registries of the manager follow the tasks: a server has at most one build, no build runs
    while its index is deleted, the number of builds is bounded, the writes of others leave a
    running build alone, and nothing stays registered when the tasks have ended. *)
From S2P Require Import Prelude Text TopK Schedule Controller Config Opc Store StoreSpec Status Build BuildSpec Manager Lifecycle.

(** ** What a task holds *)

(** Between the reservation and a stage of the end. *)
Definition reserved_until (last : FinishStage -> bool) (pc : Pc) : bool :=
  match pc with
  | Invalidating _ _ | Starting | StartFailed _ | Recording _ | Pacing _ | PacingFailed _ _ _
  | Attaching _ _ | AttachFailed _ _ | TakingCancel _ _ | Attached _ _ | Probing _ _
  | StartRefused _ _ _ | Generating _ _ _ _ | Launching _ _ _ | Launched _ _ _ | Readying _ _
  | Spawning _ _ | Discarding _ _ _ _ | FailingGeneration _ _ _ _ | Building _ _ => true
  | Finishing stage _ _ _ => last stage
  | _ => false
  end.
Definition stage_number (stage : FinishStage) : nat :=
  match stage with
  | Update => 0 | Persist => 1 | Overlays => 2 | Owner => 3 | ActiveBuild => 4 | BuildLock => 5
  | TakeBuild => 6 | PendingCancel => 7
  end.
Definition up_to (last stage : FinishStage) : bool := (stage_number stage <=? stage_number last)%nat.

Definition owns_build : Pc -> bool := reserved_until (up_to Owner).
Definition is_active : Pc -> bool := reserved_until (up_to ActiveBuild).
Definition holds_lock : Pc -> bool := reserved_until (up_to BuildLock).
Definition has_record : Pc -> bool := reserved_until (up_to TakeBuild).
Definition is_live : Pc -> bool := reserved_until (up_to PendingCancel).

(** The control a task has attached and still needs registered. *)
Definition attached (pc : Pc) : option nat :=
  match pc with
  | TakingCancel c _ | Attached c _ | Probing c _ | StartRefused c _ _ | Generating c _ _ _
  | Launching c _ _ | Launched c _ _ | Readying c _ | Spawning c _ | Building c _ => Some c
  | Discarding _ _ c _ | FailingGeneration _ _ c _ | Finishing Update c _ _ => c
  | _ => None
  end.

Definition deletes (pc : Pc) : bool :=
  match pc with
  | DeleteSpawning | DeleteCancelling | DeleteWaiting | DeleteLocking | DeleteWriting
  | DeleteRuntime | DeletePending | DeleteFinishing _ => true
  | _ => false
  end.
(** After the wait for the build. *)
Definition deletes_alone (pc : Pc) : bool :=
  match pc with
  | DeleteLocking | DeleteWriting | DeleteRuntime | DeletePending | DeleteFinishing _ => true
  | _ => false
  end.
Definition reserves (pc : Pc) : bool :=
  match pc with
  | Counting _ _ | Reserving _ _ _ => true
  | _ => false
  end.

Definition profile (pc : Pc) : bool * bool * bool * bool * bool * bool * bool * bool :=
  (owns_build pc, is_active pc, holds_lock pc, has_record pc, is_live pc, deletes pc,
   deletes_alone pc, reserves pc).

Lemma reserved_mono f g pc :
  (forall stage, f stage = true -> g stage = true) ->
  reserved_until f pc = true -> reserved_until g pc = true.
Proof. intros Hfg. destruct pc; simpl; auto. Qed.
Ltac stages := apply reserved_mono; by intros [].
Lemma owns_is_active pc : owns_build pc = true -> is_active pc = true.
Proof. stages. Qed.
Lemma active_holds_lock pc : is_active pc = true -> holds_lock pc = true.
Proof. stages. Qed.
Lemma lock_has_record pc : holds_lock pc = true -> has_record pc = true.
Proof. stages. Qed.
Lemma record_is_live pc : has_record pc = true -> is_live pc = true.
Proof. stages. Qed.
Lemma attached_holds_lock pc c : attached pc = Some c -> owns_build pc = true.
Proof. destruct pc; try done. by destruct stage. Qed.

(** ** The tasks of a server *)

Definition at_task (w : Lifecycle) (t : nat) (s : string) (pc : Pc) : Prop :=
  tasks w !! t = Some (mk_task s pc).
Definition holders (f : Pc -> bool) (w : Lifecycle) (s : string) (t : nat) : Prop :=
  exists pc, at_task w t s pc /\ f pc = true.

Lemma holders_mono f g w s t :
  (forall pc, f pc = true -> g pc = true) -> holders f w s t -> holders g w s t.
Proof. intros Hfg (pc & Hpc & Hf). exists pc. auto. Qed.

(** The world after task [t] of server [s] moves to [pc']. *)
Definition moved (w : Lifecycle) (t : nat) (s : string) (pc' : Pc) (m : Manager) (lock : option nat) :
    Lifecycle := mk_lifecycle m (<[t := mk_task s pc']> (tasks w)) lock.

Section moved.
Context (w : Lifecycle) (t : nat) (s : string) (pc pc' : Pc) (m : Manager) (lock : option nat).
Context (Ht : at_task w t s pc).

Lemma at_task_moved t' s' pc'' :
  at_task (moved w t s pc' m lock) t' s' pc'' <->
  (t' = t /\ s' = s /\ pc'' = pc') \/ (t' <> t /\ at_task w t' s' pc'').
Proof.
  clear Ht. unfold at_task, moved. simpl. destruct (decide (t' = t)) as [->|Hne].
  - rewrite lookup_insert_eq. split; [intros [= -> ->]; by left|]. intros [(_ & -> & ->)|[? _]]; done.
  - rewrite lookup_insert_ne by done. split; [by right|]. intros [(? & _)|[_ ?]]; done.
Qed.

Lemma holders_moved f s' t' :
  holders f (moved w t s pc' m lock) s' t' <->
  (t' = t /\ s' = s /\ f pc' = true) \/ (t' <> t /\ holders f w s' t').
Proof.
  clear Ht. unfold holders. setoid_rewrite at_task_moved. split.
  - intros (pc0 & [(-> & -> & ->)|[? ?]] & Hf); eauto 10.
  - intros [(-> & -> & Hf)|[? (pc0 & ? & ?)]]; eauto 10.
Qed.

Lemma holders_self f s' : holders f w s' t <-> s' = s /\ f pc = true.
Proof.
  unfold holders, at_task in *. rewrite Ht. split.
  - by intros (pc0 & [= <- <-] & Hf).
  - intros [-> Hf]. by exists pc.
Qed.

Lemma holders_same f s' t' :
  f pc' = f pc -> holders f (moved w t s pc' m lock) s' t' <-> holders f w s' t'.
Proof.
  intros Hf. rewrite holders_moved, Hf. destruct (decide (t' = t)) as [->|Hne].
  - rewrite holders_self. split; [intros [?|[? _]]; tauto|]. intros [-> H]. by left.
  - split; [intros [(? & _)|[_ ?]]; done|]. by right.
Qed.
End moved.

(** ** The invariant *)

Section Lifecycle.
Context `{TextLibrary}.
Context (settings : ResolvedIndexConfig).

Record inv (w : Lifecycle) : Prop := {
  inv_owner s t : build_owners (manager w) !! s = Some t <-> holders owns_build w s t;
  inv_active s : s ∈ active_builds (manager w) <-> exists t, holders is_active w s t;
  inv_locks s : s ∈ build_locks (manager w) <-> exists t, holders holds_lock w s t;
  inv_one s t1 t2 : holders holds_lock w s t1 -> holders holds_lock w s t2 -> t1 = t2;
  inv_record s b : running_build (manager w) s = Some b -> exists t, holders has_record w s t;
  inv_pending s : s ∈ pending_cancels (manager w) -> exists t, holders is_live w s t;
  inv_attached s t pc c b : at_task w t s pc -> attached pc = Some c ->
    running_build (manager w) s = Some b -> control b = Some c;
  inv_deleting s : s ∈ deleting (manager w) <-> exists t, holders deletes w s t;
  inv_deleting_one s t1 t2 : holders deletes w s t1 -> holders deletes w s t2 -> t1 = t2;
  inv_alone s t : holders deletes_alone w s t -> s ∉ active_builds (manager w);
  inv_lock t : deleting_lock w = Some t <-> exists s, holders reserves w s t;
  inv_reserving s t : holders reserves w s t -> s ∉ deleting (manager w);
  inv_size : Z.of_nat (size (active_builds (manager w))) <= concurrency_limit settings
}.

(** A change of the manager that keeps the registries, and the control of every running
    build. *)
Record quiet (m m' : Manager) : Prop := {
  quiet_active : active_builds m' = active_builds m;
  quiet_owners : build_owners m' = build_owners m;
  quiet_locks : build_locks m' = build_locks m;
  quiet_deleting : deleting m' = deleting m;
  quiet_build s b' : running_build m' s = Some b' ->
    exists b, running_build m s = Some b /\ control b' = control b;
  quiet_pending s : s ∈ pending_cancels m' ->
    s ∈ pending_cancels m \/ is_Some (running_build m s)
}.

Lemma quiet_refl m : quiet m m.
Proof. split; eauto. Qed.

Lemma quiet_trans m1 m2 m3 : quiet m1 m2 -> quiet m2 m3 -> quiet m1 m3.
Proof.
  intros [A1 O1 L1 D1 B1 P1] [A2 O2 L2 D2 B2 P2]. split; try congruence.
  - intros s b3 (b2 & H2 & E2)%B2. apply B1 in H2 as (b1 & H1 & E1). exists b1. split; [done|congruence].
  - intros s [Hp|[b Hb]]%P2; [auto|]. apply B1 in Hb as (b1 & H1 & _). right. eauto.
Qed.

(** Registries, builds and pending cancellations untouched. *)
Lemma quiet_same m m' :
  active_builds m' = active_builds m -> build_owners m' = build_owners m ->
  build_locks m' = build_locks m -> deleting m' = deleting m -> runtime m' = runtime m ->
  pending_cancels m' ⊆ pending_cancels m -> quiet m m'.
Proof.
  intros A O L D R P. split; try done.
  - unfold running_build. rewrite R. eauto.
  - intros s Hs. left. by apply P.
Qed.

Lemma running_alter_runtime f m s s' :
  running_build (alter_runtime f s m) s' =
  if bool_decide (s = s') then state ← runtime m !! s; build (f state) else running_build m s'.
Proof.
  unfold running_build, alter_runtime. simpl. case_bool_decide as Hs.
  - subst. rewrite lookup_alter_eq. by destruct (runtime m !! s').
  - by rewrite lookup_alter_ne.
Qed.

Lemma quiet_alter_runtime f m s :
  (forall state b', build (f state) = Some b' ->
    exists b, build state = Some b /\ control b' = control b) ->
  quiet m (alter_runtime f s m).
Proof.
  intros Hf. split; try done; [|by left]. intros s' b'. rewrite running_alter_runtime.
  case_bool_decide as Hs; [|eauto]. subst. unfold running_build.
  destruct (runtime m !! s') as [state|]; simpl; [|done]. by intros Hb%Hf.
Qed.

Lemma quiet_alter_build f m s :
  (forall b, control (f b) = control b) -> quiet m (alter_build f s m).
Proof.
  intros Hf. apply quiet_alter_runtime. intros state b'. simpl.
  destruct (build state) as [b|]; simpl; [|done]. intros [= <-]. eauto.
Qed.

Lemma quiet_insert_runtime m s state :
  build state = (running_build m s) -> quiet m (set_runtime m (<[s := state]> (runtime m))).
Proof.
  intros Hb. split; try done; [|by left]. intros s' b'. unfold running_build at 1. simpl.
  destruct (decide (s' = s)) as [->|Hne].
  - rewrite lookup_insert_eq. simpl. rewrite Hb. eauto.
  - rewrite lookup_insert_ne by done. fold (running_build m s'). eauto.
Qed.

Lemma quiet_load m s now : quiet m (load_retry_state s now m).
Proof.
  unfold load_retry_state. destruct (retry_state _ _) as [[[after failures] open]|]; [|apply quiet_refl].
  apply quiet_insert_runtime. unfold running_build, load_persisted_retry_state.
  destruct (runtime m !! s) as [state|]; simpl; [|done].
  by destruct (build state) eqn:Hb; simpl; rewrite ?Hb.
Qed.

Lemma quiet_exec m op : quiet m (exec op m).
Proof. destruct op; [|apply quiet_refl]. by apply quiet_same. Qed.

Lemma quiet_cancel_build s b m : running_build m s = Some b -> quiet m (cancel_build s b m).
Proof.
  intros Hb. unfold cancel_build. destruct (control b) as [c|]; [by (apply quiet_same; try done; simpl; set_solver)|].
  split; try done; [eauto|]. simpl. intros s' [->%elem_of_singleton|?]%elem_of_union; [right; eauto|by left].
Qed.

Lemma quiet_take_pending m s : quiet m (take_pending_cancel s m).1.
Proof. apply quiet_same; try done. simpl. set_solver. Qed.

Lemma quiet_cancel_control m c : quiet m (cancel_control c m).
Proof. by apply quiet_same. Qed.

#[local] Hint Resolve quiet_refl quiet_load quiet_exec quiet_take_pending quiet_cancel_control : bridge.

(** *** Components that a move keeps *)

Section keep.
Context (w : Lifecycle) (t : nat) (s : string) (pc pc' : Pc) (m : Manager) (lock : option nat).
Context (Hinv : inv w) (Ht : at_task w t s pc).

Lemma exists_same f s' : f pc' = f pc ->
  (exists t', holders f (moved w t s pc' m lock) s' t') <-> (exists t', holders f w s' t').
Proof. intros Hf. split; intros [t' H']; exists t'; revert H'; by rewrite (holders_same w t s pc). Qed.

Lemma keep_owner : owns_build pc' = owns_build pc -> build_owners m = build_owners (manager w) ->
  forall s' t', build_owners m !! s' = Some t' <-> holders owns_build (moved w t s pc' m lock) s' t'.
Proof. intros Hf -> s' t'. rewrite (holders_same w t s pc) by done. apply Hinv. Qed.

Lemma keep_active : is_active pc' = is_active pc -> active_builds m = active_builds (manager w) ->
  forall s', s' ∈ active_builds m <-> exists t', holders is_active (moved w t s pc' m lock) s' t'.
Proof. intros Hf -> s'. rewrite exists_same by done. apply Hinv. Qed.

Lemma keep_locks : holds_lock pc' = holds_lock pc -> build_locks m = build_locks (manager w) ->
  forall s', s' ∈ build_locks m <-> exists t', holders holds_lock (moved w t s pc' m lock) s' t'.
Proof. intros Hf -> s'. rewrite exists_same by done. apply Hinv. Qed.

Lemma keep_one : holds_lock pc' = holds_lock pc -> forall s' t1 t2,
  holders holds_lock (moved w t s pc' m lock) s' t1 ->
  holders holds_lock (moved w t s pc' m lock) s' t2 -> t1 = t2.
Proof. intros Hf s' t1 t2. rewrite !(holders_same w t s pc) by done. apply (inv_one _ Hinv). Qed.

Lemma keep_record : has_record pc' = has_record pc ->
  (forall s' b, running_build m s' = Some b -> is_Some (running_build (manager w) s')) ->
  forall s' b, running_build m s' = Some b ->
  exists t', holders has_record (moved w t s pc' m lock) s' t'.
Proof.
  intros Hf Hb s' b [b' Hb']%Hb. rewrite exists_same by done. by eapply (inv_record _ Hinv).
Qed.

Lemma keep_pending : is_live pc' = is_live pc ->
  (forall s', s' ∈ pending_cancels m ->
    s' ∈ pending_cancels (manager w) \/ is_Some (running_build (manager w) s')) ->
  forall s', s' ∈ pending_cancels m ->
  exists t', holders is_live (moved w t s pc' m lock) s' t'.
Proof.
  intros Hf Hp s' Hs. rewrite exists_same by done.
  apply Hp in Hs as [Hs|[b Hb]]; [by apply (inv_pending _ Hinv)|].
  destruct (inv_record _ Hinv _ _ Hb) as [t' Ht']. exists t'.
  eapply holders_mono, Ht'. apply record_is_live.
Qed.

Lemma keep_attached : attached pc' = None \/ attached pc' = attached pc ->
  (forall s' b', running_build m s' = Some b' ->
    exists b, running_build (manager w) s' = Some b /\ control b' = control b) ->
  forall s' t' pc0 c b, at_task (moved w t s pc' m lock) t' s' pc0 -> attached pc0 = Some c ->
  running_build m s' = Some b -> control b = Some c.
Proof.
  intros Ha Hq s' t' pc0 c b' Hpc Hc (b & Hb & ->)%Hq.
  apply at_task_moved in Hpc as [(-> & -> & ->)|[_ Hpc]]; [|by eapply (inv_attached _ Hinv)].
  destruct Ha as [Hn|Hs]; [congruence|]. rewrite Hs in Hc. by eapply (inv_attached _ Hinv).
Qed.

Lemma keep_deleting : deletes pc' = deletes pc -> deleting m = deleting (manager w) ->
  forall s', s' ∈ deleting m <-> exists t', holders deletes (moved w t s pc' m lock) s' t'.
Proof. intros Hf -> s'. rewrite exists_same by done. apply Hinv. Qed.

Lemma keep_deleting_one : deletes pc' = deletes pc -> forall s' t1 t2,
  holders deletes (moved w t s pc' m lock) s' t1 ->
  holders deletes (moved w t s pc' m lock) s' t2 -> t1 = t2.
Proof. intros Hf s' t1 t2. rewrite !(holders_same w t s pc) by done. apply (inv_deleting_one _ Hinv). Qed.

Lemma keep_alone_sub : deletes_alone pc' = deletes_alone pc ->
  active_builds m ⊆ active_builds (manager w) -> forall s' t',
  holders deletes_alone (moved w t s pc' m lock) s' t' -> s' ∉ active_builds m.
Proof.
  intros Hf Hsub s' t'. rewrite (holders_same w t s pc) by done. intros Hd Hs.
  eapply (inv_alone _ Hinv); [done|by apply Hsub].
Qed.

Lemma keep_alone : deletes_alone pc' = deletes_alone pc ->
  active_builds m = active_builds (manager w) -> forall s' t',
  holders deletes_alone (moved w t s pc' m lock) s' t' -> s' ∉ active_builds m.
Proof. intros Hf Ha. apply keep_alone_sub; [done|by rewrite Ha]. Qed.

Lemma keep_lock : reserves pc' = reserves pc -> lock = deleting_lock w -> forall t',
  lock = Some t' <-> exists s', holders reserves (moved w t s pc' m lock) s' t'.
Proof.
  intros Hf -> t'. rewrite (inv_lock _ Hinv). split; intros [s' Hs]; exists s'; revert Hs;
    by rewrite (holders_same w t s pc).
Qed.

Lemma keep_reserving_sub : reserves pc' = reserves pc -> deleting m ⊆ deleting (manager w) ->
  forall s' t', holders reserves (moved w t s pc' m lock) s' t' -> s' ∉ deleting m.
Proof.
  intros Hf Hsub s' t'. rewrite (holders_same w t s pc) by done. intros Hd Hs.
  eapply (inv_reserving _ Hinv); [done|by apply Hsub].
Qed.

Lemma keep_reserving : reserves pc' = reserves pc -> deleting m = deleting (manager w) ->
  forall s' t', holders reserves (moved w t s pc' m lock) s' t' -> s' ∉ deleting m.
Proof. intros Hf Hd. apply keep_reserving_sub; [done|by rewrite Hd]. Qed.

Lemma keep_size_sub : active_builds m ⊆ active_builds (manager w) ->
  Z.of_nat (size (active_builds m)) <= concurrency_limit settings.
Proof. intros Hs%subseteq_size. pose proof (inv_size _ Hinv). lia. Qed.

Lemma keep_size : active_builds m = active_builds (manager w) ->
  Z.of_nat (size (active_builds m)) <= concurrency_limit settings.
Proof. intros ->. apply Hinv. Qed.

Lemma keep_record_quiet : has_record pc' = has_record pc -> quiet (manager w) m ->
  forall s' b, running_build m s' = Some b ->
  exists t', holders has_record (moved w t s pc' m lock) s' t'.
Proof. intros Hf Hq. apply keep_record; [done|]. intros s' b (b' & Hb & _)%(quiet_build _ _ Hq). by exists b'. Qed.

Lemma keep_pending_quiet : is_live pc' = is_live pc -> quiet (manager w) m ->
  forall s', s' ∈ pending_cancels m ->
  exists t', holders is_live (moved w t s pc' m lock) s' t'.
Proof. intros Hf Hq. apply keep_pending; [done|]. apply Hq. Qed.

Lemma keep_attached_quiet : attached pc' = None \/ attached pc' = attached pc -> quiet (manager w) m ->
  forall s' t' pc0 c b, at_task (moved w t s pc' m lock) t' s' pc0 -> attached pc0 = Some c ->
  running_build m s' = Some b -> control b = Some c.
Proof. intros Ha Hq. apply keep_attached; [done|]. apply Hq. Qed.

(** A move that keeps them all. *)
Lemma quiet_move_inv : quiet (manager w) m -> profile pc' = profile pc -> lock = deleting_lock w ->
  attached pc' = None \/ attached pc' = attached pc -> inv (moved w t s pc' m lock).
Proof.
  intros [QA QO QL QD QB QP] Hp Hl Ha. unfold profile in Hp.
  injection Hp as E1 E2 E3 E4 E5 E6 E7 E8. split; simpl.
  - by apply keep_owner.
  - by apply keep_active.
  - by apply keep_locks.
  - by apply keep_one.
  - apply keep_record; [done|]. intros s' b (b' & Hb & _)%QB. by exists b'.
  - by apply keep_pending.
  - by apply keep_attached.
  - by apply keep_deleting.
  - by apply keep_deleting_one.
  - by apply keep_alone.
  - by apply keep_lock.
  - by apply keep_reserving.
  - by apply keep_size.
Qed.
End keep.

Lemma quiet_request_inv w m : inv w -> quiet (manager w) m -> inv (mk_lifecycle m (tasks w) (deleting_lock w)).
Proof.
  intros Hinv [QA QO QL QD QB QP].
  split; simpl; rewrite ?QA, ?QO, ?QL, ?QD; try apply Hinv.
  - intros s b' (b & Hb & _)%QB. by eapply (inv_record _ Hinv).
  - intros s [Hs|[b Hb]]%QP; [by apply (inv_pending _ Hinv)|].
    destruct (inv_record _ Hinv _ _ Hb) as [t' Ht']. exists t'.
    eapply holders_mono, Ht'. apply record_is_live.
  - intros s t pc c b' Hpc Hc Hb. apply QB in Hb as (b & Hb & ->). by eapply (inv_attached _ Hinv).
Qed.

(** *** Moves that change a registry *)

(** Solves the components of the invariant that the move [pc] to [pc'] keeps. *)
Ltac keeps Hinv Ht :=
  first
    [ by apply (keep_owner _ _ _ _ _ _ _ Hinv Ht)
    | by apply (keep_active _ _ _ _ _ _ _ Hinv Ht)
    | by apply (keep_locks _ _ _ _ _ _ _ Hinv Ht)
    | by apply (keep_one _ _ _ _ _ _ _ Hinv Ht)
    | by apply (keep_record_quiet _ _ _ _ _ _ _ Hinv Ht)
    | by apply (keep_pending_quiet _ _ _ _ _ _ _ Hinv Ht)
    | apply (keep_attached_quiet _ _ _ _ _ _ _ Hinv Ht); [by (left + right)|done]
    | by apply (keep_deleting _ _ _ _ _ _ _ Hinv Ht)
    | by apply (keep_deleting_one _ _ _ _ _ _ _ Hinv Ht)
    | by apply (keep_alone _ _ _ _ _ _ _ Hinv Ht)
    | by apply (keep_lock _ _ _ _ _ _ _ Hinv Ht)
    | by apply (keep_reserving _ _ _ _ _ _ _ Hinv Ht)
    | by apply (keep_size _ _ Hinv) ].

Lemma holder_moved_other w t s pc' m lock f s' t' :
  f pc' = false -> holders f (moved w t s pc' m lock) s' t' -> t' <> t /\ holders f w s' t'.
Proof. intros Hf [(_ & _ & ?)|?]%holders_moved; [congruence|done]. Qed.

Lemma holder_lock w s t : inv w -> holders reserves w s t -> deleting_lock w = Some t.
Proof. intros Hinv Hr. apply (inv_lock _ Hinv). by exists s. Qed.

(** The checks of a reservation take the lock of [deleting]. *)
Lemma check_inv w t s force automatic profile m :
  inv w -> at_task w t s (Checking force automatic profile) -> quiet (manager w) m ->
  deleting_lock w = None -> s ∉ deleting (manager w) ->
  inv (moved w t s (Counting force profile) m (Some t)).
Proof.
  intros Hinv Ht Hq Hlock Hdel. pose proof Hq as [QA QO QL QD _ _].
  split; simpl; try keeps Hinv Ht.
  - intros t'. setoid_rewrite holders_moved. split.
    + intros [= <-]. exists s. by left.
    + intros (s' & [(-> & _)|[_ Hr%holder_lock]]); [done|congruence|done].
  - intros s' t'. rewrite QD, holders_moved. intros [(_ & -> & _)|[_ Hr]]; [done|].
    by eapply (inv_reserving _ Hinv).
Qed.

(** A reservation that finds nothing to reserve gives the lock back. *)
Lemma reserve_nothing_inv w t s pc m :
  inv w -> at_task w t s pc -> reserves pc = true -> quiet (manager w) m ->
  inv (moved w t s Ended m None).
Proof.
  intros Hinv Ht Hr Hq. pose proof Hq as [QA QO QL QD _ _].
  assert (Hlock : deleting_lock w = Some t) by (eapply holder_lock; [done|by exists pc]).
  destruct pc; try done; (split; simpl; try keeps Hinv Ht).
  all: try (intros s' t' [_ Hr']%holder_moved_other; [|done]; rewrite QD; by eapply (inv_reserving _ Hinv)).
  all: intros t'; split; [done|]; intros [s' [Hne Hr'%holder_lock]%holder_moved_other]; done || congruence.
Qed.

(** A reservation. *)
Lemma reserved_inv w t s force profile foreground pc' m b :
  inv w -> at_task w t s (Reserving force profile foreground) ->
  (pc' = Starting \/ exists generation completed, pc' = Invalidating generation completed) ->
  s ∉ build_locks (manager w) -> limit_reached settings (manager w) = false ->
  active_builds m = {[s]} ∪ active_builds (manager w) ->
  build_owners m = <[s := t]> (build_owners (manager w)) ->
  build_locks m = {[s]} ∪ build_locks (manager w) ->
  deleting m = deleting (manager w) ->
  pending_cancels m = pending_cancels (manager w) ->
  (forall s', running_build m s' = if bool_decide (s' = s) then Some b else running_build (manager w) s') ->
  inv (moved w t s pc' m None).
Proof.
  intros Hinv Ht Hpc Hlocks Hlimit QA QO QL QD QP QB.
  assert (Hlock : deleting_lock w = Some t) by (apply (inv_lock _ Hinv); exists s; by eexists).
  assert (Hnone : forall f t', (forall pc, f pc = true -> holds_lock pc = true) -> ~ holders f w s t').
  { intros f t' Hf Hh. apply Hlocks, (inv_locks _ Hinv). exists t'. by eapply holders_mono. }
  assert (Hdel : s ∉ deleting (manager w)).
  { apply (inv_reserving _ Hinv s t). by eexists. }
  assert (Hold : forall f s', f (Reserving force profile foreground) = false -> ~ holders f w s' t).
  { intros f s' Hf Hh. apply (holders_self w t s _ Ht) in Hh as [_ Hh]. congruence. }
  assert (Hnew : Lifecycle.Starting = pc' \/ pc' <> Lifecycle.Starting) by (destruct Hpc as [->|(?&?&->)]; auto).
  assert (Hf : owns_build pc' = true /\ is_active pc' = true /\ holds_lock pc' = true /\
    has_record pc' = true /\ is_live pc' = true /\ deletes pc' = false /\
    deletes_alone pc' = false /\ reserves pc' = false /\ attached pc' = None).
  { by destruct Hpc as [->|(generation & completed & ->)]. }
  destruct Hf as (F1 & F2 & F3 & F4 & F5 & F6 & F7 & F8 & F9).
  split; simpl; rewrite ?QA, ?QO, ?QL, ?QD, ?QP.
  - intros s' t'. rewrite holders_moved. destruct (decide (s' = s)) as [->|Hne].
    + rewrite lookup_insert_eq. split; [intros [= <-]; by left|].
      intros [(-> & _)|[_ Hh]]; [done|]. exfalso. revert Hh. apply Hnone.
      intros pc Hpc'. by apply active_holds_lock, owns_is_active.
    + rewrite lookup_insert_ne by done. rewrite (inv_owner _ Hinv). split.
      * intros Hh. right. split; [|done]. intros ->. by apply (Hold owns_build s').
      * intros [(_ & ? & _)|[_ ?]]; done.
  - intros s'. rewrite elem_of_union, elem_of_singleton, (inv_active _ Hinv). setoid_rewrite holders_moved.
    split.
    + intros [->|[t' Ht']]; [exists t; by left|]. exists t'. right. split; [|done].
      intros ->. by apply (Hold is_active s').
    + intros (t' & [(_ & -> & _)|[_ Hh]]); [by left|right; eauto].
  - intros s'. rewrite elem_of_union, elem_of_singleton, (inv_locks _ Hinv). setoid_rewrite holders_moved.
    split.
    + intros [->|[t' Ht']]; [exists t; by left|]. exists t'. right. split; [|done].
      intros ->. by apply (Hold holds_lock s').
    + intros (t' & [(_ & -> & _)|[_ Hh]]); [by left|right; eauto].
  - intros s' t1 t2. rewrite !holders_moved.
    intros [(-> & -> & _)|[_ H1]] [(-> & E & _)|[_ H2]]; [done| | |by eapply (inv_one _ Hinv)].
    + exfalso. by apply (Hnone holds_lock t2).
    + subst. exfalso. by apply (Hnone holds_lock t1).
  - intros s' b'. rewrite QB. case_bool_decide as Hs.
    + subst. intros _. exists t. apply holders_moved. by left.
    + intros [t' Ht']%(inv_record _ Hinv). exists t'. apply holders_moved. right. split; [|done].
      intros ->. by apply (Hold has_record s').
  - intros s' [t' Ht']%(inv_pending _ Hinv). exists t'. apply holders_moved. right. split; [|done].
    intros ->. by apply (Hold is_live s').
  - intros s' t' pc0 c b' Hpc0 Hc. rewrite QB.
    apply at_task_moved in Hpc0 as [(-> & -> & ->)|[_ Hpc0]]; [congruence|].
    case_bool_decide as Hs; [|by eapply (inv_attached _ Hinv)].
    subst. exfalso. apply (Hnone owns_build t').
    + intros pc Hpc'. by apply active_holds_lock, owns_is_active.
    + exists pc0. split; [done|]. by eapply attached_holds_lock.
  - intros s'. rewrite (inv_deleting _ Hinv). split; intros [t' Ht']; exists t'.
    + apply holders_moved. right. split; [|done]. intros ->. by apply (Hold deletes s').
    + apply holders_moved in Ht' as [(_ & _ & ?)|[_ ?]]; [congruence|done].
  - intros s' t1 t2. rewrite !holders_moved.
    intros [(_ & _ & ?)|[_ H1]] [(_ & _ & ?)|[_ H2]]; [congruence|congruence|congruence|].
    by eapply (inv_deleting_one _ Hinv).
  - intros s' t'. rewrite holders_moved. intros [(_ & _ & ?)|[_ Hh]]; [congruence|].
    rewrite elem_of_union, elem_of_singleton. intros [->|Hs]; [|by eapply (inv_alone _ Hinv)].
    apply Hdel, (inv_deleting _ Hinv). exists t'. eapply holders_mono, Hh. by intros [].
  - intros t'. split; [done|]. setoid_rewrite holders_moved.
    intros (s' & [(_ & _ & ?)|[Hne Hr']]); [congruence|].
    assert (Hl : deleting_lock w = Some t') by (apply (inv_lock _ Hinv); by exists s'). congruence.
  - intros s' t'. rewrite holders_moved. intros [(_ & _ & Hr')|[_ Hr']]; [congruence|].
    by eapply (inv_reserving _ Hinv).
  - apply Z.leb_gt in Hlimit. rewrite size_union_alt, size_singleton.
    assert (Hsub : active_builds (manager w) ∖ {[s]} ⊆ active_builds (manager w)) by set_solver.
    apply subseteq_size in Hsub. lia.
Qed.

(** The control of the build is registered. *)
Lemma attach_inv w t s c before pc' m :
  inv w -> at_task w t s (Attaching c before) ->
  (pc' = TakingCancel c before \/ pc' = AttachFailed c before) ->
  m = alter_build (fun b => with_control_of b (Some c)) s (manager w) ->
  inv (moved w t s pc' m (deleting_lock w)).
Proof.
  intros Hinv Ht Hpc ->. set (m := alter_build _ _ _).
  assert (HB : forall s' b', running_build m s' = Some b' ->
    exists b, running_build (manager w) s' = Some b /\
      (s' = s /\ control b' = Some c \/ s' <> s /\ b' = b)).
  { intros s' b'. unfold m, alter_build. rewrite running_alter_runtime. case_bool_decide as Hs.
    - subst. unfold running_build. destruct (runtime (manager w) !! s') as [state|]; simpl; [|done].
      destruct (build state) as [b|]; simpl; [|done]. intros [= <-]. eauto.
    - intros Hb. exists b'. auto. }
  assert (HL : holders holds_lock w s t) by (by eexists).
  assert (QA : active_builds m = active_builds (manager w)) by done.
  assert (QO : build_owners m = build_owners (manager w)) by done.
  assert (QL : build_locks m = build_locks (manager w)) by done.
  assert (QD : deleting m = deleting (manager w)) by done.
  assert (QP : pending_cancels m = pending_cancels (manager w)) by done.
  clearbody m.
  destruct Hpc as [-> | ->]; (split; simpl; try keeps Hinv Ht).
  all: try (apply (keep_pending _ _ _ _ _ _ _ Hinv Ht); [done|rewrite QP; by left]).
  all: try (apply (keep_record _ _ _ _ _ _ _ Hinv Ht); [done|]; intros s' b (b' & Hb & _)%HB; by exists b').
  all: intros s' t' pc0 c' b' [(-> & -> & ->)|[Hnt Hpc0]]%at_task_moved Hc
    (b & Hb & [[Hs Hcb]|[Hne ->]])%HB; simpl in Hc; try done; try congruence;
    try (by eapply (inv_attached _ Hinv)).
  all: exfalso; apply Hnt, (inv_one _ Hinv s); [|done]; subst s'; exists pc0; split; [done|];
    by apply active_holds_lock, owns_is_active, (attached_holds_lock _ c').
Qed.

(** The stages of the end. *)
Lemma owner_inv w t s c error preserve :
  inv w -> at_task w t s (Finishing Owner c error preserve) ->
  inv (moved w t s (Finishing ActiveBuild c error preserve) (remove_build_owner s t (manager w))
         (deleting_lock w)).
Proof.
  intros Hinv Ht.
  assert (Ho : build_owners (manager w) !! s = Some t) by (apply (inv_owner _ Hinv); by eexists).
  assert (Hq : runtime (remove_build_owner s t (manager w)) = runtime (manager w)) by done.
  assert (HB : forall s', running_build (remove_build_owner s t (manager w)) s' =
    running_build (manager w) s') by done.
  split; try keeps Hinv Ht.
  - intros s' t'. simpl. rewrite bool_decide_true by done. rewrite holders_moved.
    destruct (decide (s' = s)) as [->|Hne].
    + rewrite lookup_delete_eq. split; [done|]. intros [(_ & _ & ?)|[Hnt Hh]]; [done|].
      apply (inv_owner _ Hinv) in Hh. congruence.
    + rewrite lookup_delete_ne by done. rewrite (inv_owner _ Hinv). split.
      * intros Hh. right. split; [|done]. intros ->.
        by apply (holders_self w t s _ Ht) in Hh as [? _].
      * intros [(_ & ? & _)|[_ ?]]; done.
  - apply (keep_record _ _ _ _ _ _ _ Hinv Ht); [done|]. intros s' b Hb. by exists b.
  - apply (keep_pending _ _ _ _ _ _ _ Hinv Ht); [done|by left].
  - apply (keep_attached _ _ _ _ _ _ _ Hinv Ht); [by left|]. intros s' b Hb. by exists b.
Qed.

(** The last holder of the lock of a server leaves. *)
Lemma others_hold w t s pc f t' :
  inv w -> at_task w t s pc -> holds_lock pc = true ->
  (forall pc, f pc = true -> holds_lock pc = true) -> holders f w s t' -> t' = t.
Proof.
  intros Hinv Ht Hpc Hf Hh. apply (inv_one _ Hinv s); [by eapply holders_mono|by exists pc].
Qed.

Lemma active_build_inv w t s c error preserve :
  inv w -> at_task w t s (Finishing ActiveBuild c error preserve) ->
  inv (moved w t s (Finishing BuildLock c error preserve) (clear_active_build s (manager w))
         (deleting_lock w)).
Proof.
  intros Hinv Ht. split; try keeps Hinv Ht.
  - intros s'. simpl. rewrite elem_of_difference, elem_of_singleton, (inv_active _ Hinv).
    setoid_rewrite holders_moved. split.
    + intros [[t' Hh] Hne]. exists t'. right. split; [|done]. intros ->.
      by apply (holders_self w t s _ Ht) in Hh as [? _].
    + intros (t' & [(_ & _ & ?)|[Hnt Hh]]); [done|]. split; [by eexists|]. intros ->.
      apply Hnt, (others_hold w t s _ is_active t' Hinv Ht); [done|apply active_holds_lock|done].
  - apply (keep_record _ _ _ _ _ _ _ Hinv Ht); [done|]. intros s' b Hb. by exists b.
  - apply (keep_pending _ _ _ _ _ _ _ Hinv Ht); [done|by left].
  - apply (keep_attached _ _ _ _ _ _ _ Hinv Ht); [by left|]. intros s' b Hb. by exists b.
  - apply (keep_alone_sub _ _ _ _ _ _ _ Hinv Ht); [done|]. simpl. set_solver.
  - apply (keep_size_sub w _ Hinv). simpl. set_solver.
Qed.

Lemma build_lock_inv w t s c error preserve :
  inv w -> at_task w t s (Finishing BuildLock c error preserve) ->
  inv (moved w t s (Finishing TakeBuild c error preserve) (clear_build_lock s (manager w))
         (deleting_lock w)).
Proof.
  intros Hinv Ht. split; try keeps Hinv Ht.
  - intros s'. simpl. rewrite elem_of_difference, elem_of_singleton, (inv_locks _ Hinv).
    setoid_rewrite holders_moved. split.
    + intros [[t' Hh] Hne]. exists t'. right. split; [|done]. intros ->.
      by apply (holders_self w t s _ Ht) in Hh as [? _].
    + intros (t' & [(_ & _ & ?)|[Hnt Hh]]); [done|]. split; [by eexists|]. intros ->.
      by apply Hnt, (others_hold w t s _ holds_lock t' Hinv Ht).
  - intros s' t1 t2 [_ H1]%holder_moved_other [_ H2]%holder_moved_other; [|done..].
    by eapply (inv_one _ Hinv).
  - apply (keep_record _ _ _ _ _ _ _ Hinv Ht); [done|]. intros s' b Hb. by exists b.
  - apply (keep_pending _ _ _ _ _ _ _ Hinv Ht); [done|by left].
  - apply (keep_attached _ _ _ _ _ _ _ Hinv Ht); [by left|]. intros s' b Hb. by exists b.
Qed.

Lemma take_build_inv w t s c error preserve :
  inv w -> at_task w t s (Finishing TakeBuild c error preserve) ->
  inv (moved w t s (Finishing PendingCancel c error preserve) (take_build s (manager w))
         (deleting_lock w)).
Proof.
  intros Hinv Ht.
  assert (HB : forall s' b, running_build (take_build s (manager w)) s' = Some b ->
    s' <> s /\ running_build (manager w) s' = Some b).
  { intros s' b. unfold take_build. rewrite running_alter_runtime. case_bool_decide; [|done].
    by destruct (runtime (manager w) !! s). }
  split; try keeps Hinv Ht.
  - intros s' b [Hne Hb]%HB. destruct (inv_record _ Hinv _ _ Hb) as [t' Hh]. exists t'.
    apply holders_moved. right. split; [|done]. intros ->.
    by apply (holders_self w t s _ Ht) in Hh as [? _].
  - apply (keep_pending _ _ _ _ _ _ _ Hinv Ht); [done|by left].
  - apply (keep_attached _ _ _ _ _ _ _ Hinv Ht); [by left|]. intros s' b [_ Hb]%HB. by exists b.
Qed.

Lemma pending_cancel_inv w t s c error preserve :
  inv w -> at_task w t s (Finishing PendingCancel c error preserve) ->
  inv (moved w t s Ended (clear_pending_cancel s (manager w)) (deleting_lock w)).
Proof.
  intros Hinv Ht. split; try keeps Hinv Ht.
  - apply (keep_record _ _ _ _ _ _ _ Hinv Ht); [done|]. intros s' b Hb. by exists b.
  - intros s'. simpl. intros [Hs Hne]%elem_of_difference.
    apply (inv_pending _ Hinv) in Hs as [t' Hh]. exists t'. apply holders_moved. right.
    split; [|done]. intros ->. apply (holders_self w t s _ Ht) in Hh as [-> _]. set_solver.
  - apply (keep_attached _ _ _ _ _ _ _ Hinv Ht); [by left|]. intros s' b Hb. by exists b.
Qed.

(** The stages of a deletion. *)
Lemma reserve_deletion_inv w t s :
  inv w -> at_task w t s DeleteReserving -> deleting_lock w = None -> s ∉ deleting (manager w) ->
  inv (moved w t s DeleteSpawning
    (set_deletions (manager w) ({[s]} ∪ deleting (manager w)) (deletion_errors (manager w))) None).
Proof.
  intros Hinv Ht Hlock Hs.
  assert (Hnone : forall t', ~ holders deletes w s t').
  { intros t' Hh. apply Hs, (inv_deleting _ Hinv). by exists t'. }
  split; try keeps Hinv Ht.
  - apply (keep_record _ _ _ _ _ _ _ Hinv Ht); [done|]. intros s' b Hb. by exists b.
  - apply (keep_pending _ _ _ _ _ _ _ Hinv Ht); [done|by left].
  - apply (keep_attached _ _ _ _ _ _ _ Hinv Ht); [by left|]. intros s' b Hb. by exists b.
  - intros s'. simpl. rewrite elem_of_union, elem_of_singleton, (inv_deleting _ Hinv).
    setoid_rewrite holders_moved. split.
    + intros [->|[t' Hh]]; [exists t; by left|]. exists t'. right. split; [|done]. intros ->.
      by apply (holders_self w t s _ Ht) in Hh as [_ ?].
    + intros (t' & [(_ & -> & _)|[_ Hh]]); [by left|right; by eexists].
  - intros s' t1 t2 [(-> & -> & _)|[_ H1]]%holders_moved [(-> & E & _)|[_ H2]]%holders_moved.
    + done.
    + by apply Hnone in H2.
    + subst. by apply Hnone in H1.
    + by eapply (inv_deleting_one _ Hinv).
  - intros s' t' [_ Hr%holder_lock]%holder_moved_other; [congruence|done|done].
Qed.

Lemma release_deletion_inv w t s pc errors :
  inv w -> at_task w t s pc -> deletes pc = true -> deleting_lock w = None ->
  inv (moved w t s Ended
    (set_deletions (manager w) (deleting (manager w) ∖ {[s]}) errors) None).
Proof.
  intros Hinv Ht Hpc Hlock. destruct pc; try done; (split; try keeps Hinv Ht).
  all: try (apply (keep_record _ _ _ _ _ _ _ Hinv Ht); [done|]; intros s' b Hb; by exists b).
  all: try (apply (keep_pending _ _ _ _ _ _ _ Hinv Ht); [done|by left]).
  all: try (apply (keep_attached _ _ _ _ _ _ _ Hinv Ht); [by left|]; intros s' b Hb; by exists b).
  all: try (intros s' t1 t2 [_ H1]%holder_moved_other [_ H2]%holder_moved_other; [|done..];
    by eapply (inv_deleting_one _ Hinv)).
  all: try (intros s' t' [_ H1]%holder_moved_other; [|done]; by eapply (inv_alone _ Hinv)).
  all: try (intros s' t' [_ Hr%holder_lock]%holder_moved_other; [congruence|done|done]).
  all: intros s'; simpl; rewrite elem_of_difference, elem_of_singleton, (inv_deleting _ Hinv);
    setoid_rewrite holders_moved; split;
    [ intros [[t' Hh] Hne]; exists t'; right; split; [|done]; intros ->;
      apply Hne; by apply (holders_self w t s _ Ht) in Hh as [? _]
    | intros (t' & [(_ & _ & ?)|[Hnt Hh]]); [done|]; split; [by eexists|]; intros ->;
      apply Hnt; apply (inv_deleting_one _ Hinv s); [done|by eexists] ].
Qed.

Lemma delete_wait_inv w t s :
  inv w -> at_task w t s DeleteWaiting -> s ∉ active_builds (manager w) ->
  inv (moved w t s DeleteLocking (manager w) (deleting_lock w)).
Proof.
  intros Hinv Ht Hs. pose proof (quiet_refl (manager w)) as Hq. split; try keeps Hinv Ht.
  intros s' t' [(_ & -> & _)|[_ Hh]]%holders_moved; [done|by eapply (inv_alone _ Hinv)].
Qed.

(** *** The end of a build finds its registrations *)

Lemma finish_update_owns w t s c error preserve :
  inv w -> at_task w t s (Finishing Update c error preserve) ->
  build_completion_is_current s c t (manager w) = true.
Proof.
  intros Hinv Ht. unfold build_completion_is_current.
  rewrite bool_decide_true by (apply (inv_owner _ Hinv); by eexists). simpl.
  destruct c as [c|]; [|done]. destruct (runtime (manager w) !! s) as [state|] eqn:Hs; [|done].
  destruct (build state) as [b|] eqn:Hb; [|done]. apply bool_decide_eq_true.
  apply (inv_attached _ Hinv s t (Finishing Update (Some c) error preserve)); [done|done|].
  unfold running_build. by rewrite Hs.
Qed.

Lemma build_update server error now state :
  build (update_runtime_after_build settings server error now state) = build state.
Proof.
  unfold update_runtime_after_build. destruct error; [done|].
  by destruct (b ← build state; operator_cancelled_until b).
Qed.

Lemma quiet_finish_update m server c t error preserve now :
  quiet m (finish_update settings server c t error preserve now m).1.
Proof.
  unfold finish_update. destruct (build_completion_is_current _ _ _ _); [|apply quiet_refl].
  apply quiet_alter_runtime. intros state b'. destruct preserve; [by eauto|].
  rewrite build_update. eauto.
Qed.

Lemma quiet_persist m server error : quiet m (persist_retry_state server error m).
Proof.
  unfold persist_retry_state. destruct (persisted_retry m server) as [[retry failures] open].
  destruct error; [apply quiet_alter_runtime; eauto|]. by apply quiet_same.
Qed.

Lemma quiet_tell m call : quiet m (tell_control call m).
Proof. destruct call as [[c paused]|]; [by apply quiet_same|apply quiet_refl]. Qed.

Lemma quiet_reconcile_build m server overlay now : quiet m (reconcile_build server overlay now m).1.
Proof.
  unfold reconcile_build. destruct (running_build m server); [by apply quiet_alter_build|apply quiet_refl].
Qed.

Lemma quiet_reconcile m server now : quiet m (reconcile_pause_state server now m).
Proof.
  unfold reconcile_pause_state. pose proof (quiet_reconcile_build m server (get_overlay m server) now) as Hq.
  destruct (reconcile_build _ _ _ _) as [m' call]. eapply quiet_trans; [exact Hq|apply quiet_tell].
Qed.

Lemma quiet_cancel_builds m : quiet m (cancel_builds m).
Proof.
  unfold cancel_builds. generalize (map_to_list (runtime m)). intros l.
  induction l as [|[s state] l IH]; simpl; [apply quiet_refl|].
  destruct (b ← build state; control b); [|done].
  eapply quiet_trans; [exact IH|apply quiet_cancel_control].
Qed.

Lemma running_cancel_build m server b s : running_build (cancel_build server b m) s = running_build m s.
Proof. unfold cancel_build. by destruct (control b). Qed.

Lemma quiet_action m server action now instant_now error :
  quiet m (apply_control_action settings server action now instant_now error m).1.
Proof.
  unfold apply_control_action. destruct (runtime m !! server) as [state|] eqn:Hs; [|apply quiet_refl].
  destruct (build state) as [b|] eqn:Hb; [|apply quiet_refl].
  assert (Hr : running_build m server = Some b) by (unfold running_build; by rewrite Hs).
  destruct action; try apply quiet_refl.
  - by apply quiet_alter_build.
  - apply quiet_alter_build. intros b'. unfold resume_build. by destruct (_ && _).
  - destruct (match operator_cancelled_until b with Some _ => _ | None => _ end) as [deadline|]; [|apply quiet_refl].
    match goal with |- quiet m (match error with Some _ => (?m2, _) | None => _ end).1 => set (m1 := m2) end.
    assert (Hq : quiet m m1).
    { eapply quiet_trans; [exact (quiet_cancel_build _ _ _ Hr)|]. unfold m1.
      destruct (quiet_refl m) as [_ _ _ _ _ _]. split; try done; [|by left].
      intros s b'. rewrite running_alter_runtime. case_bool_decide as E; [|eauto].
      subst. rewrite running_cancel_build, Hr.
      destruct (runtime (cancel_build s b m) !! s); simpl; [|done]. intros [= <-]. eauto. }
    destruct error; [done|]. eapply quiet_trans; [exact Hq|by apply quiet_same].
Qed.

Lemma quiet_request m m' op : request_step settings m m' op -> quiet m m'.
Proof.
  destruct 1; auto with bridge; try (by apply quiet_same); try (by apply quiet_alter_build).
  - apply quiet_action.
  - apply quiet_reconcile_build.
  - apply quiet_tell.
  - unfold clear_expired_foreground_quiet_period. destruct (running_build m server) as [b|]; [|apply quiet_refl].
    destruct (quiet_expired now b); [by apply quiet_alter_build|apply quiet_refl].
  - apply quiet_alter_runtime. eauto.
  - apply quiet_cancel_builds.
Qed.

Lemma new_task_inv w t s pc :
  inv w -> tasks w !! t = None -> initial_pc pc ->
  inv (mk_lifecycle (manager w) (<[t := mk_task s pc]> (tasks w)) (deleting_lock w)).
Proof.
  intros Hinv Ht Hpc.
  assert (Hp : profile pc = profile Ended /\ attached pc = None) by (by destruct pc).
  destruct Hp as [Hp Ha]. unfold profile in Hp. injection Hp as E1 E2 E3 E4 E5 E6 E7 E8.
  assert (Hh : forall f s' t', f pc = false ->
    holders f (moved w t s pc (manager w) (deleting_lock w)) s' t' <-> holders f w s' t').
  { intros f s' t' Hf. rewrite holders_moved. split; [intros [(_ & _ & ?)|[_ ?]]; [congruence|done]|].
    intros Hh. right. split; [|done]. intros ->. destruct Hh as (pc0 & Hpc0 & _).
    unfold at_task in Hpc0. congruence. }
  assert (Hex : forall f s', f pc = false ->
    (exists t', holders f (moved w t s pc (manager w) (deleting_lock w)) s' t') <->
    exists t', holders f w s' t').
  { intros f s' Hf. split; intros [t' H']; exists t'; revert H'; by rewrite Hh. }
  change (inv (moved w t s pc (manager w) (deleting_lock w))). split; simpl.
  - intros s' t'. rewrite Hh by done. apply Hinv.
  - intros s'. rewrite Hex by done. apply Hinv.
  - intros s'. rewrite Hex by done. apply Hinv.
  - intros s' t1 t2. rewrite !Hh by done. apply (inv_one _ Hinv).
  - intros s' b. rewrite Hex by done. apply (inv_record _ Hinv).
  - intros s'. rewrite Hex by done. apply (inv_pending _ Hinv).
  - intros s' t' pc0 c b [(-> & -> & ->)|[_ Hpc0]]%at_task_moved; [congruence|].
    by apply (inv_attached _ Hinv _ _ _ _ _ Hpc0).
  - intros s'. rewrite Hex by done. apply Hinv.
  - intros s' t1 t2. rewrite !Hh by done. apply (inv_deleting_one _ Hinv).
  - intros s' t'. rewrite Hh by done. apply (inv_alone _ Hinv).
  - intros t'. rewrite (inv_lock _ Hinv). split; intros [s' H']; exists s'; revert H'; by rewrite Hh.
  - intros s' t'. rewrite Hh by done. apply (inv_reserving _ Hinv).
  - apply Hinv.
Qed.

Lemma reserve_commit_spec server force foreground now lock t m m' r :
  reserve_commit settings server force foreground now lock t m = (m', r) ->
  (r <> Ok true /\ quiet m m') \/
  (r = Ok true /\ server ∉ build_locks m /\ limit_reached settings m = false /\
   active_builds m' = {[server]} ∪ active_builds m /\
   build_owners m' = <[server := t]> (build_owners m) /\
   build_locks m' = {[server]} ∪ build_locks m /\ deleting m' = deleting m /\
   pending_cancels m' = pending_cancels m /\ database m' = database m /\
   forall s', running_build m' s' =
     if bool_decide (s' = server) then Some (reserved_build (timestamp_now now) foreground)
     else running_build m s').
Proof.
  unfold reserve_commit. set (state := unwrap_or default_runtime (runtime m !! server)).
  set (m1 := set_runtime m (<[server := state]> (runtime m))).
  assert (Hq : quiet m m1).
  { apply quiet_insert_runtime. unfold running_build, state. by destruct (runtime m !! server). }
  destruct (_ || _); [intros [= <- <-]; by left|].
  destruct (limit_reached settings m1) eqn:Hlimit; [intros [= <- <-]; by left|].
  case_bool_decide as Hlocks; [intros [= <- <-]; by left|].
  destruct lock; [|intros [= <- <-]; by left].
  destruct (is_some (build_owners m1 !! server)); [intros [= <- <-]; by left|].
  intros [= <- <-]. right. split_and!; try done.
  intros s'. rewrite running_alter_runtime. unfold m1, running_build. simpl.
  case_bool_decide as E1; case_bool_decide as E2; subst; try done.
  - by rewrite lookup_insert_eq.
  - by rewrite lookup_insert_ne.
Qed.

Lemma reserve_check_spec server automatic free now m m' r :
  reserve_check settings server automatic free now m = (m', r) ->
  quiet m m' /\ (r = Ok true -> server ∉ deleting m) /\ database m' = database m.
Proof.
  unfold reserve_check. destruct (shutting_down m); [by intros [= <- <-]; split_and!; auto with bridge|].
  case_bool_decide as Hd; simpl; [by intros [= <- <-]; split_and!; auto with bridge|].
  destruct (_ || _); [by intros [= <- <-]; split_and!; auto with bridge|].
  destruct (is_some_and _ free); [by intros [= <- <-]; split_and!; auto with bridge|].
  destruct (retry_state (database m) server) as [p|] eqn:Hr; intros [= <- <-].
  - split_and!; auto with bridge. unfold load_retry_state. by rewrite Hr.
  - by split_and!; auto with bridge.
Qed.

Lemma is_ok_reserve_deletion server m :
  is_ok (reserve_deletion server m).2 = negb (bool_decide (server ∈ deleting m)).
Proof. unfold reserve_deletion. by case_bool_decide. Qed.

Lemma quiet_cancel_active m server : quiet m (cancel_active_build server m).
Proof.
  unfold cancel_active_build. destruct (running_build m server) eqn:Hb; [|apply quiet_refl].
  by apply quiet_cancel_build.
Qed.

Lemma quiet_take_cancel m server c : quiet m (cancel_control c (take_pending_cancel server m).1).
Proof. eapply quiet_trans; [apply quiet_take_pending|apply quiet_cancel_control]. Qed.
Lemma quiet_new_control m c n :
  quiet m (set_build_controls m (<[c := n]> (build_controls m))).
Proof. by apply quiet_same. Qed.
#[local] Hint Resolve quiet_take_cancel quiet_reconcile quiet_new_control quiet_cancel_active : bridge.

(** A quiet move, on every branch of the tests the step makes. *)
Ltac quiet_branches Hquiet :=
  unfold after_take;
  repeat match goal with
  | |- context [if ?b then _ else _] => destruct b eqn:?
  end;
  (apply Hquiet; [done|auto with bridge|done|first [by left|by right]]).

(** Every critical section of a task keeps the invariant. *)
Lemma lifecycle_task_inv w t s pc m lock pc' op :
  inv w -> at_task w t s pc ->
  task_step settings t s (manager w) (deleting_lock w) pc m lock pc' op ->
  inv (moved w t s pc' m lock).
Proof.
  intros Hinv Ht Hs. remember (deleting_lock w) as lock0 eqn:Hlock0.
  assert (Hquiet : lock = deleting_lock w -> quiet (manager w) m -> profile pc' = profile pc ->
    attached pc' = None \/ attached pc' = attached pc -> inv (moved w t s pc' m lock)).
  { intros Hl Hq Hp Ha. by apply (quiet_move_inv w t s pc). }
  destruct Hs; subst.
  all: try (by apply Hquiet; [done|auto with bridge|done|first [by left|by right]]).
  - apply reserve_check_spec in H0 as (Hq & Hok & _).
    destruct r as [[|]|error]; [|by apply Hquiet; [done|done|done|left]..].
    by apply (check_inv w t s force automatic profile0); [..|apply Hok].
  - apply reserve_commit_spec in H0 as [[Hr Hq]|(-> & Hl & Hlim & QA & QO & QL & QD & QP & _ & QB)].
    + assert (E : inv (moved w t s Ended m' None)) by (by apply (reserve_nothing_inv w t s (Reserving force profile0 foreground))).
      by destruct r as [[|]|error].
    + apply (reserved_inv w t s force profile0 foreground _ m' (reserved_build (timestamp_now now) foreground));
        try done. destruct profile0 as [[generation completed]|]; [right; eauto|by left].
  - quiet_branches Hquiet.
  - quiet_branches Hquiet.
  - quiet_branches Hquiet.
  - apply (attach_inv w t s c before); try done. destruct (is_some _); [by left|by right].
  - quiet_branches Hquiet.
  - quiet_branches Hquiet.
  - quiet_branches Hquiet.
  - quiet_branches Hquiet.
  - quiet_branches Hquiet.
  - quiet_branches Hquiet.
  - quiet_branches Hquiet.
  - destruct failed; [quiet_branches Hquiet|].
    destruct (discard_empty_generation _ _ _).2 as [[|]|]; quiet_branches Hquiet.
  - pose proof (quiet_finish_update (manager w) s c t error preserve now) as Hq.
    assert (Ho : owns = true).
    { unfold finish_update in H0. rewrite (finish_update_owns w t s c error preserve Hinv Ht) in H0.
      by simplify_eq. }
    rewrite H0 in Hq. subst owns. by apply Hquiet; [..|left].
  - destruct stage; simpl in H1; simplify_eq.
    + apply Hquiet; [done|apply quiet_persist|done|by left].
    + apply Hquiet; [done|by apply quiet_same|done|by left].
    + by apply owner_inv.
    + by apply active_build_inv.
    + by apply build_lock_inv.
    + by apply take_build_inv.
    + by eapply pending_cancel_inv.
  - quiet_branches Hquiet.
  - unfold reserve_deletion. case_bool_decide as Hd; simpl; [|by apply reserve_deletion_inv].
    apply (quiet_move_inv w t s DeleteReserving); auto with bridge.
  - unfold spawn_deletion. simpl. destruct (shutting_down (manager w)) eqn:Hsd; simpl.
    + apply (release_deletion_inv w t s DeleteSpawning); done.
    + apply (quiet_move_inv w t s DeleteSpawning); [done|done|by apply quiet_same|done|done|by left].
  - by apply delete_wait_inv.
  - destruct answer; quiet_branches Hquiet.
  - destruct write_error; quiet_branches Hquiet.
  - apply Hquiet; [done| |done|by left]. split; try done; [|by left].
    intros s' b'. unfold running_build at 1. simpl. destruct (decide (s' = s)) as [->|Hne].
    + by rewrite lookup_delete_eq.
    + rewrite lookup_delete_ne by done. fold (running_build (manager w) s'). eauto.
  - apply Hquiet; [done|apply quiet_take_pending|done|by left].
  - unfold finish_deletion. destruct outcome; by eapply release_deletion_inv.
Qed.

Lemma lifecycle_step_inv w t op w' : inv w -> step settings w t op w' -> inv w'.
Proof.
  intros Hinv. destruct 1.
  - by apply new_task_inv.
  - by eapply lifecycle_task_inv.
  - apply quiet_request_inv; [done|by eapply quiet_request].
Qed.

Lemma lifecycle_initial_inv db : inv (mk_lifecycle (new_manager db) ∅ None).
Proof.
  assert (Hn : forall f s t, ~ holders f (mk_lifecycle (new_manager db) ∅ None) s t).
  { intros f s t (pc & Hpc & _). unfold at_task in Hpc. simpl in Hpc. by rewrite lookup_empty in Hpc. }
  split; simpl.
  - intros s t. rewrite lookup_empty. split; [done|by intros ?%Hn].
  - intros s. split; [set_solver|by intros [t ?%Hn]].
  - intros s. split; [set_solver|by intros [t ?%Hn]].
  - by intros s t1 t2 ?%Hn.
  - intros s b. unfold running_build. simpl. by rewrite lookup_empty.
  - set_solver.
  - intros s t pc c b Hpc. unfold at_task in Hpc. simpl in Hpc. by rewrite lookup_empty in Hpc.
  - intros s. split; [set_solver|by intros [t ?%Hn]].
  - by intros s t1 t2 ?%Hn.
  - by intros s t ?%Hn.
  - intros t. split; [done|by intros [s ?%Hn]].
  - by intros s t ?%Hn.
  - apply Z.le_trans with 0; [done|unfold concurrency_limit; lia].
Qed.

Lemma lifecycle_reachable_inv db w : reachable settings db w -> inv w.
Proof. induction 1; [apply lifecycle_initial_inv|by eapply lifecycle_step_inv]. Qed.

(** *** The database follows the labels *)

Lemma cancel_builds_database m : database (cancel_builds m) = database m.
Proof.
  unfold cancel_builds. generalize (map_to_list (runtime m)). intros l.
  induction l as [|[s' state] l IH]; simpl; [done|].
  by destruct (b ← build state; control b).
Qed.

Lemma request_database m m' op :
  request_step settings m m' op -> database m' = database (exec op m).
Proof.
  destruct 1; try done.
  - unfold apply_control_action, running_build.
    destruct (runtime m !! server) as [state|] eqn:Hs; simpl; [|by destruct action, write_error].
    destruct (build state) as [b|] eqn:Hb; simpl; [|by destruct action, write_error].
    destruct action; simpl; try done.
    assert (Hd : database (cancel_build server b m) = database m)
      by (unfold cancel_build; by destruct (control b)).
    assert (Hr : runtime (cancel_build server b m) = runtime m)
      by (unfold cancel_build; by destruct (control b)).
    destruct (match operator_cancelled_until b with Some _ => _ | None => _ end) as [deadline|error];
      destruct write_error; simpl; try done.
    unfold persisted_retry. simpl. rewrite Hr, Hd, lookup_alter_eq, Hs. simpl. done.
  - unfold load_retry_state. by destruct (retry_state _ _).
  - unfold reconcile_build. by destruct (running_build m server).
  - by destruct call as [[]|].
  - unfold clear_expired_foreground_quiet_period. destruct (running_build m server) as [b|]; [|done].
    by destruct (quiet_expired now b).
  - apply cancel_builds_database.
Qed.

Lemma reserve_commit_database server force foreground now lock t m :
  database (reserve_commit settings server force foreground now lock t m).1 = database m.
Proof. unfold reserve_commit. by repeat case_match. Qed.

Lemma reconcile_database server now m : database (reconcile_pause_state server now m) = database m.
Proof.
  unfold reconcile_pause_state, reconcile_build. destruct (running_build m server) as [b|]; [|done].
  simpl. by destruct (control b).
Qed.

Lemma finish_update_database server c t error preserve now m :
  database (finish_update settings server c t error preserve now m).1 = database m.
Proof. unfold finish_update. by destruct (build_completion_is_current _ _ _ _). Qed.

Lemma finish_stage_database t server stage error m :
  database (finish_stage t server stage error m).1 = database (exec (finish_op server stage error m) m).
Proof.
  destruct stage; simpl; try (by destruct error). unfold persist_retry_state.
  destruct (persisted_retry m server) as [[retry failures] open]. by destruct error.
Qed.

Lemma task_database t s m lock pc m' lock' pc' op :
  task_step settings t s m lock pc m' lock' pc' op -> database m' = database (exec op m).
Proof.
  destruct 1; try done; try (by repeat case_match);
    try match goal with
    | Hc : reserve_check _ _ _ _ _ _ = _ |- _ => by apply reserve_check_spec in Hc as (_ & _ & ->)
    | Hc : reserve_commit _ _ _ _ _ _ _ _ = (_, ?r) |- _ =>
        pose proof (reserve_commit_database s force foreground now answer t m) as Hd; by rewrite Hc in Hd
    | Hc : finish_update _ _ _ _ _ _ _ _ = _ |- _ =>
        pose proof (finish_update_database s c t error preserve now m) as Hd; by rewrite Hc in Hd
    | Hc : finish_stage _ _ _ _ _ = _ |- _ =>
        pose proof (finish_stage_database t s stage write_error m) as Hd; by rewrite Hc in Hd
    end.
  - case_match; [done|apply reconcile_database].
  - unfold reserve_deletion. by case_bool_decide.
  - unfold spawn_deletion. by repeat case_match.
  - unfold cancel_active_build, cancel_build. by repeat case_match.
  - unfold finish_deletion. by destruct outcome.
Qed.

Lemma step_database w t op w' :
  step settings w t op w' -> database (manager w') = database (exec op (manager w)).
Proof. destruct 1; [done|by eapply task_database|by eapply request_database]. Qed.

(** *** The writes of others *)

(** A write to the index of a server that others would notice comes from a task that holds the
    server's lock, or deletes the index after the wait for its build. *)
Lemma task_writes t s m lock pc m' lock' pc' op :
  task_step settings t s m lock pc m' lock' pc' (Some op) ->
  holds_lock pc = true \/ deletes_alone pc = true \/ forall s', foreign s' op.
Proof. inversion 1; subst; try (by left); try (by right; left). destruct stage; by left. Qed.

Lemma task_writes_own t s m lock pc m' lock' pc' op s' :
  task_step settings t s m lock pc m' lock' pc' (Some op) -> s' <> s -> foreign s' op.
Proof.
  inversion 1; subst; intros Hne; repeat match goal with
  | H : (if ?b then _ else _) = Some _ |- _ => destruct b; simplify_eq
  | H : write ?b _ = Some _ |- _ => destruct b; simpl in H; simplify_eq
  end; simpl; try done.
  - match goal with Hop : build_op _ _ _ |- _ => destruct op; try done; by destruct Hop as [-> _] end.
  - unfold finish_op in *. destruct stage; try done. destruct write_error; [done|].
    destruct (persisted_retry m s) as [[? ?] ?]. by simplify_eq.
Qed.

Lemma request_writes m m' op s : request_step settings m m' (Some op) -> foreign s op.
Proof.
  inversion 1; subst; try done. destruct action, write_error; try done.
  destruct (running_build m server); [|done]. simpl in *.
  destruct (apply_control_action _ _ _ _ _ _ _) as [m1 [|]]; [|done]. simpl in *.
  destruct (persisted_retry m1 server) as [[? ?] ?]. by simplify_eq.
Qed.

(** ** The theorems *)

(** C9: in every interleaving of refreshes, builds, deletions, requests and the shutdown: a server
    has at most one build, the registry of active builds holds exactly the servers with one and
    never more than the configured number, no build runs while the index of its server is being
    deleted, and the end of a build always finds its registrations current. *)
Theorem lifecycle_exclusive db w :
  reachable settings db w ->
  (forall s t1 t2, holders holds_lock w s t1 -> holders holds_lock w s t2 -> t1 = t2) /\
  (forall s, s ∈ active_builds (manager w) <-> exists t, holders is_active w s t) /\
  Z.of_nat (size (active_builds (manager w))) <= concurrency_limit settings /\
  (forall s t1 t2, holders is_active w s t1 -> ~ holders deletes_alone w s t2) /\
  (forall s t c error preserve, at_task w t s (Finishing Update c error preserve) ->
    build_completion_is_current s c t (manager w) = true).
Proof.
  intros Hinv%lifecycle_reachable_inv. split_and!.
  - apply (inv_one _ Hinv).
  - apply (inv_active _ Hinv).
  - apply Hinv.
  - intros s t1 t2 H1 H2. apply (inv_alone _ Hinv s t2 H2), (inv_active _ Hinv). by exists t1.
  - intros s t c error preserve. by apply finish_update_owns.
Qed.

(** C10: while a build of a server is registered, every database write of another task or request
    is one the build tolerates (no other writes to the generations of that server): the premise
    under which the build publishes its inventory. *)
Theorem lifecycle_writes_foreign db w s t t' op w' :
  reachable settings db w -> holders is_active w s t ->
  step settings w t' (Some op) w' -> t' <> Some t ->
  foreign s op /\ database (manager w') = db_exec (database (manager w)) op.
Proof.
  intros Hinv%lifecycle_reachable_inv Hact Hs Hne. split; [|by apply step_database in Hs].
  inversion Hs as [|t2 s2 pc m lock pc' op' Ht Htask|m op' Hr]; subst; [|by eapply request_writes].
  destruct (decide (s = s2)) as [->|Hs2]; [|by eapply task_writes_own].
  destruct (task_writes _ _ _ _ _ _ _ _ _ Htask) as [Hl|[Hd|Hf]]; [| |apply Hf].
  - exfalso. apply Hne. f_equal. apply (inv_one _ Hinv s2); [by eexists|].
    eapply holders_mono, Hact. apply active_holds_lock.
  - exfalso. apply (inv_alone _ Hinv s2 t2); [by eexists|]. apply (inv_active _ Hinv). by exists t.
Qed.

(** C11: nothing leaks: when every task has ended, no build, owner, lock, running record, pending
    cancellation or deletion is registered for any server. *)
Theorem lifecycle_settles db w :
  reachable settings db w -> (forall t task, tasks w !! t = Some task -> task_pc task = Ended) ->
  active_builds (manager w) = ∅ /\ build_owners (manager w) = ∅ /\ build_locks (manager w) = ∅ /\
  pending_cancels (manager w) = ∅ /\ deleting (manager w) = ∅ /\ deleting_lock w = None /\
  forall s, running_build (manager w) s = None.
Proof.
  intros Hinv%lifecycle_reachable_inv Hend.
  assert (Hn : forall f s t, f Ended = false -> ~ holders f w s t).
  { intros f s t Hf (pc & Hpc & Hfp). apply Hend in Hpc. simpl in Hpc. congruence. }
  split_and!.
  - apply set_eq. intros s. rewrite (inv_active _ Hinv). split; [by intros [t ?%Hn]|set_solver].
  - apply map_eq. intros s. rewrite lookup_empty. destruct (build_owners (manager w) !! s) eqn:E; [|done].
    by apply (inv_owner _ Hinv), Hn in E.
  - apply set_eq. intros s. rewrite (inv_locks _ Hinv). split; [by intros [t ?%Hn]|set_solver].
  - apply set_eq. intros s. split; [intros Hs|set_solver].
    by apply (inv_pending _ Hinv) in Hs as [t ?%Hn].
  - apply set_eq. intros s. rewrite (inv_deleting _ Hinv). split; [by intros [t ?%Hn]|set_solver].
  - destruct (deleting_lock w) eqn:E; [|done]. apply (inv_lock _ Hinv) in E as [s ?%Hn]; done.
  - intros s. destruct (running_build (manager w) s) eqn:E; [|done].
    by apply (inv_record _ Hinv) in E as [t ?%Hn].
Qed.

(** ** Running tasks

    [advance] is the next critical section of a task when nothing fails; [advance_step]
    shows that it is a step. *)

Definition advance_task (t : nat) (server : string) (m : Manager) (lock : option nat) (pc : Pc) :
    option (Manager * option nat * Pc * option db_op) :=
  match pc, lock with
  | Checking force automatic profile, None =>
      match reserve_check settings server automatic None 0 m with
      | (m, Ok true) => Some (m, Some t, Counting force profile, None)
      | (m, _) => Some (m, None, Ended, None)
      end
  | Counting force profile, _ => Some (m, lock, Reserving force profile (foreground_count m server), None)
  | Reserving force None foreground, _ =>
      match reserve_commit settings server force foreground 0 (Ok tt) t m with
      | (m, Ok true) => Some (m, None, Starting, None)
      | (m, _) => Some (m, None, Ended, None)
      end
  | Starting, _ =>
      match build_controls m !! t with
      | None =>
          Some (set_build_controls m
                  (<[t := {| control_cancelled := false; control_paused := false |}]> (build_controls m)),
                lock, Pacing t, None)
      | Some _ => None
      end
  | Pacing c, _ => Some (m, lock, Attaching c (is_cancelled m c), None)
  | Attaching c before, _ =>
      Some (alter_build (fun b => with_control_of b (Some c)) server m, lock,
            if is_some (running_build m server) then TakingCancel c before else AttachFailed c before, None)
  | TakingCancel c before, _ =>
      Some (if (take_pending_cancel server m).2 then cancel_control c (take_pending_cancel server m).1
            else (take_pending_cancel server m).1, lock,
            if (take_pending_cancel server m).2 then Finishing Update (Some c) None false
            else Attached c before, None)
  | Attached c before, _ =>
      Some (if shutting_down m then cancel_control c m else m, lock,
            if shutting_down m then Finishing Update None None false else Probing c before, None)
  | Probing c before, _ => Some (m, lock, Generating c before OrgHierarchical SourceDa3, None)
  | Generating c before organization source, _ =>
      match (start_generation (database m) server organization source (timestamp_now 0)).2 with
      | Ok generation =>
          let op := OpStartGeneration server organization source (timestamp_now 0) in
          Some (exec (Some op) m, lock, Launching c before generation, Some op)
      | Err _ => None
      end
  | Launching c before generation, _ =>
      if bool_decide ((b ← running_build m server; control b) = Some c)
      then Some (m, lock, Launched c before generation, None) else None
  | Launched c before generation, _ =>
      Some (if negb before && is_cancelled m c then cancel_control c m
            else reconcile_pause_state server 0 m, lock,
            if negb before && is_cancelled m c
            then Discarding generation "index build cancelled during startup" (Some c) None
            else Readying c generation, None)
  | Readying c generation, _ =>
      Some (if shutting_down m then cancel_control c m else m, lock,
            if shutting_down m
            then Discarding generation "gateway shutdown before index build" None None
            else Spawning c generation, None)
  | Spawning c generation, _ =>
      Some (if shutting_down m then cancel_control c m else m, lock,
            if shutting_down m then Discarding generation "index build task was not started" (Some c) None
            else Building c generation, None)
  | Building c generation, _ => Some (m, lock, Finishing Update (Some c) None false, None)
  | Finishing Update c error preserve, _ =>
      match finish_update settings server c t error preserve 0 m with
      | (m, owns) => Some (m, lock, if owns then Finishing Persist c error preserve else Ended, None)
      end
  | Finishing stage c error preserve, _ =>
      Some ((finish_stage t server stage None m).1, lock,
            match (finish_stage t server stage None m).2 with
            | Some stage => Finishing stage c error preserve
            | None => Ended
            end, finish_op server stage None m)
  | DeleteAdmitted, None =>
      Some (m, None, if bool_decide (server ∈ deleting m) || negb true then Ended else DeleteReserving, None)
  | DeleteReserving, None =>
      Some ((reserve_deletion server m).1, None,
            if is_ok (reserve_deletion server m).2 then DeleteSpawning else Ended, None)
  | DeleteSpawning, None =>
      Some ((spawn_deletion server m).1, None,
            if is_ok (spawn_deletion server m).2 then DeleteCancelling else Ended, None)
  | DeleteCancelling, _ => Some (cancel_active_build server m, lock, DeleteWaiting, None)
  | DeleteWaiting, _ =>
      if bool_decide (server ∉ active_builds m) then Some (m, lock, DeleteLocking, None) else None
  | DeleteLocking, _ => Some (m, lock, DeleteWriting, None)
  | DeleteWriting, _ =>
      Some (exec (Some (OpDeleteIndex server)) m, lock, DeleteRuntime, Some (OpDeleteIndex server))
  | DeleteRuntime, _ => Some (set_runtime m (delete server (runtime m)), lock, DeletePending, None)
  | DeletePending, _ => Some (clear_pending_cancel server m, lock, DeleteFinishing (Ok tt), None)
  | DeleteFinishing outcome, None => Some (finish_deletion server outcome m, None, Ended, None)
  | _, _ => None
  end.

Lemma advance_task_step t server m lock pc m' lock' pc' op :
  advance_task t server m lock pc = Some (m', lock', pc', op) ->
  task_step settings t server m lock pc m' lock' pc' op.
Proof.
  destruct pc; simpl; try done.
  - destruct lock; [done|].
    destruct (reserve_check _ _ _ _ _ _) as [m1 [[|]|error]] eqn:Hr; intros [= <- <- <- <-];
      exact (step_check settings t server m force automatic profile_change None 0 m1 _ Hr).
  - intros [= <- <- <- <-]. constructor.
  - destruct profile_change; [done|].
    destruct (reserve_commit _ _ _ _ _ _ _ _) as [m1 [[|]|error]] eqn:Hr; intros [= <- <- <- <-];
      exact (step_reserve settings t server m force None foreground 0 (Ok tt) lock m1 _ Hr).
  - destruct (build_controls m !! t) eqn:Hc; [done|]. intros [= <- <- <- <-]. by constructor.
  - intros [= <- <- <- <-]. constructor.
  - intros [= <- <- <- <-]. constructor.
  - intros [= <- <- <- <-]. constructor.
  - intros [= <- <- <- <-]. constructor.
  - intros [= <- <- <- <-]. constructor.
  - destruct (start_generation _ _ _ _ _).2 eqn:Hg; [|done]. intros [= <- <- <- <-]. by constructor.
  - case_bool_decide; [|done]. intros [= <- <- <- <-]. by constructor.
  - intros [= <- <- <- <-]. constructor.
  - intros [= <- <- <- <-]. constructor.
  - intros [= <- <- <- <-]. constructor.
  - intros [= <- <- <- <-]. constructor.
  - destruct stage; [destruct (finish_update _ _ _ _ _ _ _ _) as [m1 owns] eqn:Hf;
      intros [= <- <- <- <-]; exact (step_finish_update _ _ _ _ _ _ _ _ _ _ _ Hf)|..].
    all: intros [= <- <- <- <-]; match goal with
      | |- task_step _ _ _ _ _ (Finishing ?stage _ _ _) _ _ _ _ =>
          assert (Hne : stage <> Update) by done;
          exact (step_finish_stage settings t server m stage c error preserve None lock _ _ Hne eq_refl)
      end.
  - destruct lock; [done|]. intros [= <- <- <- <-]. apply (step_delete_admitted settings t server m true).
  - destruct lock; [done|]. intros [= <- <- <- <-]. constructor.
  - destruct lock; [done|]. intros [= <- <- <- <-]. constructor.
  - intros [= <- <- <- <-]. constructor.
  - case_bool_decide; [|done]. intros [= <- <- <- <-]. by constructor.
  - intros [= <- <- <- <-]. apply (step_delete_lock settings t server m (Ok tt)).
  - intros [= <- <- <- <-]. apply (step_delete_write settings t server m None).
  - intros [= <- <- <- <-]. constructor.
  - intros [= <- <- <- <-]. constructor.
  - destruct lock; [done|]. intros [= <- <- <- <-]. constructor.
Qed.

Inductive Act :=
| ActNew (t : nat) (server : string) (delete : bool)
| ActAdvance (t : nat)
| ActEnroll (server : string)
| ActCancel (server : string).

Definition act (w : Lifecycle) (a : Act) : option Lifecycle :=
  match a with
  | ActNew t server delete =>
      match tasks w !! t with
      | None =>
          Some (mk_lifecycle (manager w)
                  (<[t := mk_task server (if delete then DeleteAdmitted else Checking true false None)]>
                     (tasks w)) (deleting_lock w))
      | Some _ => None
      end
  | ActAdvance t =>
      match tasks w !! t with
      | Some (mk_task server pc) =>
          match advance_task t server (manager w) (deleting_lock w) pc with
          | Some (m, lock, pc, op) => Some (mk_lifecycle m (<[t := mk_task server pc]> (tasks w)) lock)
          | None => None
          end
      | None => None
      end
  | ActEnroll server =>
      Some (mk_lifecycle (exec (Some (OpEnroll server (timestamp_now 0))) (manager w)) (tasks w)
              (deleting_lock w))
  | ActCancel server =>
      Some (mk_lifecycle (apply_control_action settings server Cancel 0 0 None (manager w)).1 (tasks w)
              (deleting_lock w))
  end.

Fixpoint run_acts (w : Lifecycle) (acts : list Act) : option Lifecycle :=
  match acts with
  | [] => Some w
  | a :: rest => act w a ≫= fun w => run_acts w rest
  end.

Lemma act_step w a w' : act w a = Some w' -> exists t op, step settings w t op w'.
Proof.
  destruct a as [t server del|t|server|server]; simpl.
  - destruct (tasks w !! t) eqn:Ht; [done|]. intros [= <-]. exists None, None.
    apply step_new; [done|]. by destruct del.
  - destruct (tasks w !! t) as [[server pc]|] eqn:Ht; [|done].
    destruct (advance_task _ _ _ _ _) as [[[[m lock] pc'] op]|] eqn:Ha; [|done]. intros [= <-].
    exists (Some t), op. apply (step_task settings w t server pc); [done|]. by apply advance_task_step.
  - intros [= <-]. eexists None, _. apply step_request, (request_enroll settings _ server 0).
  - intros [= <-]. eexists None, _. apply step_request, (request_action settings _ server Cancel 0 0 None).
Qed.

Lemma run_acts_reachable db acts : forall w w',
  reachable settings db w -> run_acts w acts = Some w' -> reachable settings db w'.
Proof.
  induction acts as [|a acts IH]; simpl; intros w w' Hw; [by intros [= <-]|].
  destruct (act w a) as [w1|] eqn:Ha; simpl; [|done]. apply IH.
  apply act_step in Ha as (t & op & Hs). by eapply reachable_next.
Qed.
End Lifecycle.

(** ** Demonstrations *)

Definition demo_initial : Lifecycle := mk_lifecycle (new_manager empty_db) ∅ None.
Definition demo_after (acts : list Act) : Lifecycle :=
  unwrap_or demo_initial (run_acts (H := ascii_text) demo_settings demo_initial acts).

Lemma demo_after_reachable acts :
  is_some (run_acts (H := ascii_text) demo_settings demo_initial acts) = true ->
  reachable (H := ascii_text) demo_settings empty_db (demo_after acts).
Proof.
  unfold demo_after. destruct (run_acts _ _ _) as [w|] eqn:Hw; [|done]. intros _.
  eapply run_acts_reachable; [apply reachable_initial|exact Hw].
Qed.

(** A refresh up to its running build, and to its end. *)
Definition demo_building : list Act :=
  ActEnroll "plc" :: ActNew 1 "plc" false :: replicate 14 (ActAdvance 1).
Definition demo_ended : list Act := demo_building ++ replicate 9 (ActAdvance 1).


Lemma demo_building_task : tasks (demo_after demo_building) !! 1%nat = Some (mk_task "plc" (Building 1 1)).
Proof. vm_compute. reflexivity. Qed.
Lemma demo_building_reachable : reachable (H := ascii_text) demo_settings empty_db (demo_after demo_building).
Proof. apply demo_after_reachable. vm_compute. reflexivity. Qed.
Lemma demo_building_holds : holders is_active (demo_after demo_building) "plc" 1.
Proof. eexists. split; [exact demo_building_task|reflexivity]. Qed.

Lemma lifecycle_exclusive_witness :
  holders is_active (demo_after demo_building) "plc" 1 /\
  "plc" ∈ active_builds (manager (demo_after demo_building)).
Proof.
  split; [exact demo_building_holds|].
  apply (proj1 (proj2 (lifecycle_exclusive (H := ascii_text) demo_settings empty_db
    (demo_after demo_building) demo_building_reachable)) "plc").
  exists 1%nat. exact demo_building_holds.
Defined.

Lemma lifecycle_writes_foreign_witness :
  exists op, foreign "plc" op /\ op = OpEnroll "other" (timestamp_now 0).
Proof.
  set (w := demo_after demo_building).
  pose proof (lifecycle_writes_foreign (H := ascii_text) demo_settings empty_db w "plc" 1 None
    (OpEnroll "other" (timestamp_now 0))
    (mk_lifecycle (exec (H := ascii_text) (Some (OpEnroll "other" (timestamp_now 0))) (manager w)) (tasks w)
       (deleting_lock w))
    demo_building_reachable demo_building_holds
    (step_request (H := ascii_text) demo_settings w _ _
       (request_enroll (H := ascii_text) demo_settings (manager w) "other" 0))) as Hf.
  eexists. split; [|reflexivity]. exact (proj1 (Hf ltac:(discriminate))).
Defined.

Lemma demo_ended_tasks :
  forall t task, tasks (demo_after demo_ended) !! t = Some task -> task_pc task = Ended.
Proof.
  assert (Hl : forallb (fun p : nat * Task => match task_pc p.2 with Ended => true | _ => false end)
    (map_to_list (tasks (demo_after demo_ended))) = true) by (vm_compute; reflexivity).
  intros t task Ht%elem_of_map_to_list. rewrite forallb_forall in Hl.
  apply list_elem_of_In, Hl in Ht. simpl in Ht. by destruct (task_pc task).
Qed.

Lemma lifecycle_settles_witness :
  active_builds (manager (demo_after demo_ended)) = ∅ /\
  running_build (manager (demo_after demo_ended)) "plc" = None.
Proof.
  assert (Hr : reachable (H := ascii_text) demo_settings empty_db (demo_after demo_ended))
    by (apply demo_after_reachable; vm_compute; reflexivity).
  destruct (lifecycle_settles (H := ascii_text) demo_settings empty_db (demo_after demo_ended) Hr
    demo_ended_tasks) as (Ha & _ & _ & _ & _ & _ & Hb).
  split; [exact Ha|exact (Hb "plc")].
Defined.

(** ** Two races of the end of a build

    The end of a build takes the runtime record, and clears the pending cancellation, after it
    gave up the lock: a new build of the server may be registered in between. *)

(** A deletion and a new refresh between the release of the lock and the removal of the record: the
    new build loses its record. *)
Definition record_lost : list Act :=
  demo_building ++ replicate 7 (ActAdvance 1) ++ [ActNew 2 "plc" true] ++ replicate 10 (ActAdvance 2) ++
  [ActEnroll "plc"; ActNew 3 "plc" false] ++ replicate 3 (ActAdvance 3) ++ [ActAdvance 1].

Lemma build_record_can_be_lost :
  exists w, reachable (H := ascii_text) demo_settings empty_db w /\
    tasks w !! 3%nat = Some (mk_task "plc" Starting) /\
    "plc" ∈ active_builds (manager w) /\ running_build (manager w) "plc" = None.
Proof.
  exists (demo_after record_lost).
  split; [apply demo_after_reachable; vm_compute; reflexivity|].
  split; [vm_compute; reflexivity|]. split; [|vm_compute; reflexivity].
  assert (Hb : bool_decide ("plc" ∈ active_builds (manager (demo_after record_lost))) = true)
    by (vm_compute; reflexivity).
  exact (bool_decide_eq_true_1 _ Hb).
Qed.

(** A new build reserved before the pending cancellation is cleared: the operator's cancellation of
    the new build is lost, and the build runs on, marked as cancelled. *)
Definition cancel_lost : list Act :=
  demo_building ++ replicate 8 (ActAdvance 1) ++ [ActNew 3 "plc" false] ++ replicate 3 (ActAdvance 3) ++
  [ActCancel "plc"; ActAdvance 1] ++ replicate 11 (ActAdvance 3).

Lemma cancellation_can_be_lost :
  exists w b, reachable (H := ascii_text) demo_settings empty_db w /\
    tasks w !! 3%nat = Some (mk_task "plc" (Building 3 2)) /\
    running_build (manager w) "plc" = Some b /\ is_some (operator_cancelled_until b) = true /\
    control b = Some 3%nat /\ is_cancelled (manager w) 3 = false.
Proof.
  exists (demo_after cancel_lost),
    (unwrap_or (reserved_build "" 0) (running_build (manager (demo_after cancel_lost)) "plc")).
  split; [apply demo_after_reachable; vm_compute; reflexivity|].
  split_and!; vm_compute; reflexivity.
Qed.
