(* ===== verification/PauseSpec.v ===== *)
(** * Pauses of a build

    Foreground use, the operator, maintenance windows, health probes and the adaptive controller
    pause a build. The reasons are kept a second time, from the events alone; whatever the sequence
    of events, the manager knows them, and the control of the build is paused exactly when one of
    them asked for it when they were last weighed. A reservation that reads the foreground users
    too early breaks it. *)
From S2P Require Import Prelude Text TopK Schedule Controller Config Opc Store Status Manager.

Inductive PauseEvent :=
| ForegroundBegins | ForegroundEnds | QuietTimer
| OverlayChanges (maintenance health : option bool)
| ControllerChanges (limits : InventoryLimits) (state : ControllerState) (deadline : option Z)
| OperatorActs (action : IndexControlAction) (wall_now : Z) (write_error : option string).

Section Pause.
Context (settings : ResolvedIndexConfig) (server : string).

(** One event at the instant [now]. *)
Definition pause_event (now : Z) (event : PauseEvent) (m : Manager) : Manager :=
  match event with
  | ForegroundBegins => foreground_guard server now m
  | ForegroundEnds => foreground_end settings server now m
  | QuietTimer => quiet_timer server now m
  | OverlayChanges maintenance health => set_pause_overlay server maintenance health now m
  | ControllerChanges limits state deadline =>
      update_runtime_controller server limits state deadline now m
  | OperatorActs action wall_now write_error =>
      (control_action settings server action wall_now now write_error m).1
  end.
Definition pause_events (events : list (Z * PauseEvent)) (m : Manager) : Manager :=
  fold_left (fun m '(now, event) => pause_event now event m) events m.

(** ** The reasons, read off the events alone

    Who wants the build to pause, kept from event to event without the registries of the manager,
    and the instant the reasons were last weighed. *)
Record Reasons := mk_reasons {
  r_users : Z;
  r_quiet : option Z;
  r_operator : bool;
  r_maintenance : bool;
  r_health : bool;
  r_controller : option ControllerState;
  r_weighed : Z
}.
Definition quiet_over (now : Z) (r : Reasons) : bool :=
  match r_quiet r with Some deadline => (r_users r =? 0) && (deadline <=? now) | None => false end.
(** Every event weighs the reasons anew, but a cancellation and a timer that finds the quiet period
    extended or foreground users back. *)
Definition reasons_step (now : Z) (event : PauseEvent) (r : Reasons) : Reasons :=
  let '(mk_reasons users quiet operator maint health' controller weighed) := r in
  match event with
  | ForegroundBegins => mk_reasons (Z.min (users + 1) (2 ^ 64 - 1)) None operator maint health' controller now
  | ForegroundEnds =>
      let users := Z.max (users - 1) 0 in
      mk_reasons users (if users =? 0 then Some (now + quiet_period settings) else quiet)
        operator maint health' controller now
  | QuietTimer =>
      if quiet_over now r then mk_reasons users None operator maint health' controller now else r
  | OverlayChanges maintenance' overlay' =>
      mk_reasons users quiet operator (unwrap_or maint maintenance') (unwrap_or health' overlay')
        controller now
  | ControllerChanges _ state _ => mk_reasons users quiet operator maint health' (Some state) now
  | OperatorActs Pause _ _ => mk_reasons users quiet true maint health' controller now
  | OperatorActs Resume _ _ =>
      mk_reasons users (if quiet_over now r then None else quiet) false maint health' controller now
  | OperatorActs Cancel _ _ => r
  | OperatorActs _ _ _ => mk_reasons users quiet operator maint health' controller now
  end.
Definition reasons_after (events : list (Z * PauseEvent)) (r : Reasons) : Reasons :=
  fold_left (fun r '(now, event) => reasons_step now event r) events r.

(** Who asks for a pause when the reasons are weighed, and what for. *)
Inductive PauseSource := ByOperator | ByForeground | ByMaintenance | ByHealth | ByController.
Definition rank (source : PauseSource) : Z :=
  match source with
  | ByOperator => 0 | ByForeground => 1 | ByMaintenance => 2 | ByHealth => 3 | ByController => 4
  end.
Inductive because (r : Reasons) : PauseSource -> PauseReason -> Prop :=
| because_operator : r_operator r = true -> because r ByOperator Operator
| because_users : 0 < r_users r -> because r ByForeground Foreground
| because_quiet deadline : r_quiet r = Some deadline -> r_weighed r < deadline ->
    because r ByForeground Foreground
| because_maintenance : r_maintenance r = true -> because r ByMaintenance Maintenance
| because_health : r_health r = true -> because r ByHealth OpcHealth
| because_controller reason : r_controller r = Some (Paused reason) -> because r ByController reason.
Definition asked (r : Reasons) : Prop := exists source reason, because r source reason.
(** The reason shown is the one that comes first. *)
Definition shown (r : Reasons) (reported : option PauseReason) : Prop :=
  match reported with
  | None => ~ asked r
  | Some reason => exists source, because r source reason /\
      forall source' reason', because r source' reason' -> rank source <= rank source'
  end.

(** The manager knows the reasons, ... *)
Record knows (r : Reasons) (m : Manager) (b : RuntimeBuild) : Prop := {
  knows_running : running_build m server = Some b;
  knows_users : build_foreground_users b = r_users r;
  knows_count : foreground_count m server = r_users r;
  knows_quiet : quiet_until b = r_quiet r;
  knows_operator : operator_paused b = r_operator r;
  knows_maintenance : maintenance (get_overlay m server) = r_maintenance r;
  knows_health : overlay_health (get_overlay m server) = r_health r;
  knows_controller : controller_state b = r_controller r
}.
(** ... and the build and its control follow them. *)
Record follows (r : Reasons) (m : Manager) (b : RuntimeBuild) : Prop := {
  follows_knows : knows r m b;
  follows_reason : shown r (pause_reason b);
  follows_control c state : control b = Some c -> build_controls m !! c = Some state ->
    (control_paused state = true <-> asked r)
}.

(** ** Lemmas *)

Lemma running_alter_build f m :
  running_build (alter_build f server m) server = f <$> running_build m server.
Proof.
  unfold alter_build, alter_runtime, running_build. simpl. rewrite lookup_alter_eq.
  by destruct (runtime m !! server).
Qed.

Lemma shown_first r source reason :
  because r source reason ->
  (forall source' reason', because r source' reason' -> rank source <= rank source') ->
  shown r (Some reason).
Proof. intros Hb Hf. by exists source. Qed.

(** The code weighs the reasons as they are. *)
Lemma weighed r m b : knows r m b -> shown r (pause_reason_of b (get_overlay m server) (r_weighed r)).
Proof.
  intros [_ Hu _ Hq Ho Hm Hh Hc]. unfold pause_reason_of. rewrite Hu, Hq, Ho, Hm, Hh, Hc.
  destruct (r_operator r) eqn:Eo.
  { eapply shown_first; [by constructor|]. by intros ? ? []. }
  destruct ((0 <? r_users r) || _) eqn:Ef.
  { eapply (shown_first r ByForeground).
    - apply orb_true_iff in Ef as [Ef%Z.ltb_lt|Ef]; [by constructor|].
      destruct (r_quiet r) as [deadline|] eqn:Eq; [|done]. eapply because_quiet; [done|by apply Z.ltb_lt].
    - intros ? ? []; simpl; done || congruence. }
  apply orb_false_iff in Ef as [Eu%Z.ltb_ge Eq].
  assert (Hnf : forall reason, ~ because r ByForeground reason).
  { intros reason Hb. inversion Hb as [|H|deadline H Hd| | |]; subst; [lia|]. rewrite H in Eq. simpl in Eq.
    apply Z.ltb_ge in Eq. lia. }
  destruct (r_maintenance r) eqn:Em.
  { eapply shown_first; [by constructor|]. intros ? ? Hb. destruct Hb; simpl; try done; [congruence|..];
      exfalso; eapply Hnf; by econstructor. }
  destruct (r_health r) eqn:Eh.
  { eapply shown_first; [by constructor|]. intros ? ? Hb. destruct Hb; simpl; try done;
      [congruence|exfalso; eapply Hnf; by econstructor..|congruence]. }
  assert (Hno : (forall reason, r_controller r <> Some (Paused reason)) -> ~ asked r).
  { intros Hn (source & reason & Hb). destruct Hb; try congruence; try (by eapply Hn);
      eapply Hnf; by econstructor. }
  destruct (r_controller r) as [[| | |reason]|] eqn:Ec; try (by apply Hno).
  eapply shown_first; [by constructor|]. intros ? ? Hb. destruct Hb; simpl; try done; try congruence;
    exfalso; eapply Hnf; by econstructor.
Qed.
Lemma shown_asked r reported : shown r reported -> is_some reported = true <-> asked r.
Proof.
  destruct reported as [reason|]; simpl; [|by split].
  intros (source & Hb & _). split; [|done]. intros _. by exists source, reason.
Qed.

(** A reconciliation tells the build and its control. *)
Lemma reconcile_follows r m b :
  knows r m b -> exists b', follows r (reconcile_pause_state server (r_weighed r) m) b'.
Proof.
  intros Hk. pose proof (weighed r m b Hk) as Hw. pose proof (knows_running _ _ _ Hk) as Hb.
  unfold reconcile_pause_state, reconcile_build. rewrite Hb.
  set (reason := pause_reason_of b (get_overlay m server) (r_weighed r)) in *.
  set (m1 := alter_build (fun b => with_pause_reason b reason) server m).
  assert (Hk1 : knows r m1 (with_pause_reason b reason)).
  { destruct Hk. split; try done. unfold m1. by rewrite running_alter_build, Hb. }
  exists (with_pause_reason b reason). destruct (control b) as [c|] eqn:Hc; simpl.
  - split; [by destruct Hk1; split|done|]. intros c' state. simpl. rewrite Hc. intros [= <-].
    rewrite lookup_alter_eq. destruct (build_controls m !! c); simpl; [|done]. intros [= <-].
    by apply shown_asked.
  - split; [done..|]. intros c' state. simpl. by rewrite Hc.
Qed.

Lemma knows_alter f m b r :
  running_build m server = Some b ->
  build_foreground_users (f b) = r_users r -> foreground_count m server = r_users r ->
  quiet_until (f b) = r_quiet r -> operator_paused (f b) = r_operator r ->
  maintenance (get_overlay m server) = r_maintenance r ->
  overlay_health (get_overlay m server) = r_health r ->
  controller_state (f b) = r_controller r -> knows r (alter_build f server m) (f b).
Proof. intros Hb; intros. split; try done. by rewrite running_alter_build, Hb. Qed.

(** A change of the build that no reason reads. *)
Lemma cancel_follows r now wall error m b :
  follows r m b ->
  exists b', follows r (apply_control_action settings server Cancel wall now error m).1 b'.
Proof.
  intros Hf. unfold apply_control_action. pose proof (knows_running _ _ _ (follows_knows _ _ _ Hf)) as Hr.
  unfold running_build in Hr. destruct (runtime m !! server) as [state|] eqn:Hs; [|done]. simpl in Hr.
  rewrite Hr.
  destruct (match operator_cancelled_until b with Some _ => _ | None => _ end) as [deadline|]; [|by exists b].
  set (b' := with_operator b (operator_paused b) (Some deadline)).
  assert (Hgoal : forall m', runtime m' = runtime m -> foreground_users m' = foreground_users m ->
    pause_overlays m' = pause_overlays m ->
    (forall c s', build_controls m' !! c = Some s' -> exists s, build_controls m !! c = Some s /\
      control_paused s' = control_paused s) ->
    forall retry, follows r (alter_runtime (fun s => set_retry
      (set_build s (Some b')) retry (consecutive_failures s) (circuit_open s)) server m') b').
  { intros m' R F O C retry. destruct Hf as [[] Hreason Hcontrol]. split; [split|done|]; try done.
    - unfold running_build. simpl. by rewrite lookup_alter_eq, R, Hs.
    - unfold foreground_count in *. simpl. by rewrite F.
    - unfold get_overlay in *. simpl. by rewrite O.
    - unfold get_overlay in *. simpl. by rewrite O.
    - intros c s' Hc H'. simpl in *. apply C in H' as (s0 & H0 & ->). by eapply Hcontrol. }
  assert (Hm : forall retry, follows r (alter_runtime (fun s => set_retry
      (set_build s (Some b')) retry (consecutive_failures s) (circuit_open s)) server
      (cancel_build server b m)) b').
  { intros retry. unfold cancel_build. destruct (control b) as [c|]; apply Hgoal; try done; simpl; eauto.
    intros c' s'. destruct (decide (c' = c)) as [->|Hne].
    - rewrite lookup_alter_eq. destruct (build_controls m !! c); simpl; [|done]. intros [= <-]. eauto.
    - rewrite lookup_alter_ne by done. eauto. }
  exists b'. destruct error; simpl; [apply Hm|].
  match goal with |- context [set_retry_state _ _ ?retry _ _] => destruct (Hm retry) as [[] ? ?] end.
  by split.
Qed.

Lemma quiet_expired_over now r m b : knows r m b -> quiet_expired now b = quiet_over now r.
Proof.
  intros [_ Hu _ Hq _ _ _ _]. unfold quiet_expired, quiet_over. rewrite Hu, Hq.
  destruct (r_quiet r); simpl; [done|by rewrite andb_false_r].
Qed.
Lemma overlay_update maintenance' health' m :
  get_overlay (update_pause_overlay server maintenance' health' m) server =
  {| maintenance := unwrap_or (maintenance (get_overlay m server)) maintenance';
     overlay_health := unwrap_or (overlay_health (get_overlay m server)) health' |}.
Proof.
  unfold update_pause_overlay. set (o := get_overlay m server). unfold get_overlay. simpl.
  destruct (unwrap_or (maintenance o) maintenance') eqn:E1, (unwrap_or (overlay_health o) health') eqn:E2;
    simpl; by rewrite ?lookup_insert_eq, ?lookup_delete_eq.
Qed.
Lemma count_decremented m :
  foreground_count (decrement_foreground_users server m) server = Z.max (foreground_count m server - 1) 0.
Proof.
  unfold decrement_foreground_users. set (n := foreground_count m server). unfold foreground_count. simpl.
  unfold saturating_sub. destruct (Z.eqb_spec (Z.max (n - 1) 0) 0) as [->|];
    by rewrite ?lookup_delete_eq, ?lookup_insert_eq.
Qed.

Lemma event_follows r now event m b :
  follows r m b -> exists b', follows (reasons_step now event r) (pause_event now event m) b'.
Proof.
  intros Hf. pose proof (follows_knows _ _ _ Hf) as Hk. pose proof (quiet_expired_over now r m b Hk) as Hqo.
  pose proof Hk as [Hb Hu Hn Hq Ho Hm Hh Hc].
  assert (Hset : forall r' m' b', knows r' m' b' -> r_weighed r' = now ->
    exists b'', follows r' (reconcile_pause_state server now m') b'').
  { intros r' m' b' H <-. by eapply reconcile_follows. }
  destruct r as [users quiet operator maint health' controller weighed'].
  cbn [r_users r_quiet r_operator r_maintenance r_health r_controller r_weighed] in *.
  destruct event as [| | |maintenance' overlay'|limits state deadline|action wall error];
    cbn [pause_event reasons_step].
  - unfold foreground_guard, increment_foreground_users. eapply Hset; [|done]. apply knows_alter; try done.
    + simpl. by rewrite Hn.
    + unfold foreground_count at 1. simpl. by rewrite lookup_insert_eq, Hn.
  - unfold foreground_end, update_runtime_after_foreground_end. rewrite count_decremented, Hn.
    eapply Hset; [|done]. apply knows_alter; try done.
    + by rewrite count_decremented, Hn.
    + simpl. by rewrite Hq.
  - unfold quiet_timer, clear_expired_foreground_quiet_period. rewrite Hb, Hqo.
    destruct (quiet_over now _); [|by exists b]. eapply Hset; [|done]. by apply knows_alter.
  - unfold set_pause_overlay. eapply (Hset _ _ b); [|done].
    split; try done; simpl; rewrite overlay_update; simpl; congruence.
  - unfold update_runtime_controller. rewrite Hb. eapply Hset; [|done]. by apply knows_alter.
  - assert (Hr : exists s, runtime m !! server = Some s /\ build s = Some b).
    { unfold running_build in Hb. destruct (runtime m !! server); [eauto|done]. }
    destruct Hr as (s & Hs & Hbs). unfold control_action.
    destruct action; try (unfold apply_control_action; rewrite Hs, Hbs; eapply Hset; [|done]; by split).
    + unfold apply_control_action. rewrite Hs, Hbs. eapply Hset; [|done]. by apply knows_alter.
    + unfold apply_control_action. rewrite Hs, Hbs. eapply Hset; [|done].
      unfold quiet_expired in Hqo.
      apply knows_alter; try done; unfold resume_build; simpl; rewrite Hqo; by destruct (quiet_over now _).
    + destruct (cancel_follows _ now wall error m b Hf) as [b' Hb'].
      destruct (apply_control_action _ _ _ _ _ _ _) as [m' [|]]; by exists b'.
Qed.

Lemma events_follow events : forall r m b, follows r m b ->
  exists b', follows (reasons_after events r) (pause_events events m) b'.
Proof.
  induction events as [|[now event] events IH]; intros r m b Hf; [by exists b|].
  destruct (event_follows r now event m b Hf) as [b1 H1]. by apply (IH _ _ b1).
Qed.

End Pause.

(** ** Demonstrations *)

Definition demo_manager : Manager :=
  mk_manager (enroll empty_db "plc" "0")
    {["plc" := set_build default_runtime (Some (with_control_of (reserved_build "0" 0) (Some 1%nat)))]}
    {["plc"]} {["plc" := 1%nat]} {["plc"]} ∅ ∅ ∅ ∅ ∅
    {[1%nat := {| control_cancelled := false; control_paused := false |}]} false.
Definition demo_pause_settings : ResolvedIndexConfig := resolve_index_config None default_index_config.

Definition demo_events : list (Z * PauseEvent) :=
  [(5, ForegroundBegins); (6, OverlayChanges (Some true) None); (7, ForegroundEnds);
   (8, OverlayChanges (Some false) None)].

Definition demo_reasons : Reasons := mk_reasons 0 None false false false None 0.


(** A foreground call that ends between the reservation's read of the foreground users and the
    registration of the build: the build keeps a count of one user, although there is none, and
    stays paused for the foreground, whatever the time, the timer and the reconciliations. *)
Definition stale_manager : Manager :=
  let m := foreground_guard "plc" 0 (mk_manager (enroll empty_db "plc" "0") ∅ ∅ ∅ ∅ ∅ ∅ ∅ ∅ ∅ ∅ false) in
  let users := foreground_count m "plc" in
  let m := foreground_end demo_pause_settings "plc" 0 m in
  let m := (reserve_commit demo_pause_settings "plc" true users 0 (Ok tt) 1 m).1 in
  let m := set_build_controls m {[1%nat := {| control_cancelled := false; control_paused := false |}]} in
  alter_build (fun b => with_control_of b (Some 1%nat)) "plc" m.

Lemma foreground_count_can_be_stale :
  foreground_count stale_manager "plc" = 0 /\
  forall now,
    let m := reconcile_pause_state "plc" now (quiet_timer "plc" now stale_manager) in
    pause_reason <$> running_build m "plc" = Some (Some Foreground) /\
    control_paused <$> build_controls m !! 1%nat = Some true.
Proof.
  split; [vm_compute; reflexivity|]. intros now.
  assert (Hb : running_build stale_manager "plc" = Some (with_control_of (reserved_build "0" 1) (Some 1%nat)))
    by (vm_compute; reflexivity).
  assert (Hc : build_controls stale_manager !! 1%nat =
    Some {| control_cancelled := false; control_paused := false |}) by (vm_compute; reflexivity).
  assert (Ht : quiet_timer "plc" now stale_manager = stale_manager).
  { unfold quiet_timer, clear_expired_foreground_quiet_period. by rewrite Hb. }
  set (m := stale_manager) in *. clearbody m. cbv zeta. rewrite Ht.
  unfold reconcile_pause_state, reconcile_build. rewrite Hb. simpl. split.
  - change (running_build (pause_control _ _ ?m2) "plc") with (running_build m2 "plc").
    by rewrite running_alter_build, Hb.
  - rewrite lookup_alter_eq, Hc. done.
Qed.
