(* ===== verification/Wire.v ===== *)
(** * From the gateway's values to messages (gateway/src/server/map.rs)

    The messages the service builds from browse pages, index statuses and matches, and
    what the client's conversions make of them. *)
From S2P Require Import Prelude Text Rpc Controller Opc Browse Schedule Store Query Status Proto Api Compat.

Definition resolve_host (host : string) : string :=
  if String.eqb host "" then "localhost" else host.

Definition map_namespace_organization (value : Opc.NamespaceOrganization) : Proto.NamespaceOrganization :=
  match value with
  | OrgUnspecified => NAMESPACE_ORGANIZATION_UNSPECIFIED
  | OrgFlat => NAMESPACE_ORGANIZATION_FLAT
  | OrgHierarchical => NAMESPACE_ORGANIZATION_HIERARCHICAL
  end.

Definition map_browse_source (value : Opc.BrowseSource) : Proto.BrowseSource :=
  match value with
  | SourceUnspecified => BROWSE_SOURCE_UNSPECIFIED
  | SourceDa3 => BROWSE_SOURCE_DA3
  | SourceDa2 => BROWSE_SOURCE_DA2
  | SourceFlat => BROWSE_SOURCE_FLAT
  | SourceDerived => BROWSE_SOURCE_DERIVED
  end.

(** A branch never carries an ItemID. *)
Definition map_browse_node (node : Opc.BrowseNode) : Proto.BrowseNode :=
  let item_id :=
    match Opc.node_kind node with
    | NodeBranch => None
    | NodeItem | NodeBranchAndItem => Opc.node_item_id node
    end in
  {| Proto.node_key := Opc.node_key node;
     Proto.node_display_name := Opc.node_display_name node;
     Proto.node_kind :=
       i32_of_browse_node_kind
         match Opc.node_kind node with
         | NodeBranch => BROWSE_NODE_KIND_BRANCH
         | NodeItem => BROWSE_NODE_KIND_ITEM
         | NodeBranchAndItem => BROWSE_NODE_KIND_BRANCH_AND_ITEM
         end;
     Proto.node_item_id := item_id |}.

Definition map_browse_page (session_id : string) (page : Opc.BrowsePage) : Proto.BrowsePage :=
  {| Proto.page_session_id := session_id;
     Proto.page_nodes := map map_browse_node (Opc.page_nodes page);
     Proto.page_next_page_token := Opc.page_next_page_token page;
     Proto.page_complete := Opc.page_complete page;
     Proto.page_organization :=
       i32_of_namespace_organization (map_namespace_organization (Opc.page_organization page));
     Proto.page_source := i32_of_browse_source (map_browse_source (Opc.page_source page));
     Proto.page_warning := Opc.page_warning page |}.

Definition map_index_state (state : IndexState) : Proto.SearchIndexState :=
  match state with
  | NotIndexed => SEARCH_INDEX_STATE_NOT_INDEXED
  | Partial => SEARCH_INDEX_STATE_PARTIAL
  | Ready => SEARCH_INDEX_STATE_READY
  | Stale => SEARCH_INDEX_STATE_STALE
  | Refreshing => SEARCH_INDEX_STATE_REFRESHING
  | Promoting => SEARCH_INDEX_STATE_REFRESHING
  | IndexFailed => SEARCH_INDEX_STATE_FAILED
  | Deleting => SEARCH_INDEX_STATE_DELETING
  end.

Definition is_promoting_state (state : IndexState) : bool :=
  match state with Promoting => true | _ => false end.

(** [None] where the [expect] on the catalog would panic. *)
Definition gateway_release_line : option ReleaseLine := release_line_for gateway_package_version.

Definition map_capabilities_for_release_line (capabilities : BrowseCapabilities)
    (index_status : IndexStatus) (max_indexed_search_results : Z) (line : ReleaseLine) :
    GetCapabilitiesResponse :=
  {| Proto.cap_application_version := gateway_package_version;
     Proto.cap_protocol_version := to_decimal (namespace_protocol line);
     Proto.cap_max_page_size := Z.min (Opc.cap_max_page_size capabilities) MAX_PAGE_SIZE;
     Proto.cap_supports_browse_sessions := Opc.cap_supports_browse_sessions capabilities;
     Proto.cap_supports_search := Opc.cap_supports_search capabilities;
     Proto.cap_organization :=
       i32_of_namespace_organization (map_namespace_organization (Opc.cap_organization capabilities));
     Proto.cap_source := i32_of_browse_source (map_browse_source (Opc.cap_source capabilities));
     Proto.cap_supports_indexed_search := 0 <? indexed_search_protocol line;
     Proto.cap_indexed_search_protocol_version :=
       if indexed_search_protocol line =? 0 then ""
       else to_decimal (indexed_search_protocol line);
     Proto.cap_max_indexed_search_results := max_indexed_search_results;
     Proto.cap_search_index_state :=
       i32_of_search_index_state (map_index_state (st_state index_status));
     Proto.cap_search_index_promoting := is_promoting_state (st_state index_status) |}.

Definition map_capabilities (capabilities : BrowseCapabilities) (index_status : IndexStatus)
    (max_indexed_search_results : Z) : option GetCapabilitiesResponse :=
  map_capabilities_for_release_line capabilities index_status max_indexed_search_results
    <$> gateway_release_line.

Definition gateway_info : option GetGatewayInfoResponse :=
  line ← gateway_release_line;
  Some
    {| info_application_version := gateway_package_version;
       info_compatibility_schema_version := SCHEMA_VERSION;
       info_features :=
         [ {| feature_kind := i32_of_protocol_feature_kind PROTOCOL_FEATURE_KIND_CORE;
              feature_min_version := core_protocol line;
              feature_max_version := core_protocol line |};
           {| feature_kind := i32_of_protocol_feature_kind PROTOCOL_FEATURE_KIND_NAMESPACE;
              feature_min_version := namespace_protocol line;
              feature_max_version := namespace_protocol line |};
           {| feature_kind := i32_of_protocol_feature_kind PROTOCOL_FEATURE_KIND_INDEXED_SEARCH;
              feature_min_version := indexed_search_protocol line;
              feature_max_version := indexed_search_protocol line |} ] |}.

(** ** The status of an index *)

Definition map_inventory_progress (value : Opc.InventoryProgress) : Proto.IndexedSearchProgress :=
  {| Proto.progress_branches_visited := Opc.branches_visited value;
     Proto.progress_entries_seen := Opc.entries_seen value;
     Proto.progress_unique_items := Opc.unique_items value;
     Proto.progress_active_time_ms := Opc.active_time_ms value;
     Proto.progress_paused_time_ms := Opc.paused_time_ms value;
     Proto.progress_items_per_second := Opc.items_per_second value;
     Proto.progress_estimated_remaining_ms := Opc.estimated_remaining_ms value |}.

Definition map_limits (value : InventoryLimits) : Proto.IndexInventoryLimits :=
  {| Proto.limits_item_rate_per_second := Controller.item_rate_per_second value;
     Proto.limits_batch_size := Controller.batch_size value;
     Proto.limits_duty_cycle_percent := Controller.duty_cycle_percent value |}.

Definition map_foreground (value : ForegroundMetrics) : Proto.IndexForegroundDiagnostics :=
  {| Proto.foreground_active_count := fm_active_count value;
     Proto.foreground_operations := fm_operations value;
     Proto.foreground_errors := fm_errors value;
     Proto.foreground_bad_quality := fm_bad_quality value;
     Proto.foreground_latency_p50_ms := fm_latency_p50_ms value;
     Proto.foreground_latency_p95_ms := fm_latency_p95_ms value;
     Proto.foreground_latency_max_ms := fm_latency_max_ms value;
     Proto.foreground_last_error := fm_last_error value;
     Proto.foreground_last_bad_quality := fm_last_bad_quality value |}.

Definition map_host (value : HostMetrics) : Proto.IndexHostDiagnostics :=
  {| Proto.host_cpu_percent := hm_cpu_percent value;
     Proto.host_available_memory_percent := hm_available_memory_percent value;
     Proto.host_disk_active_percent := hm_disk_active_percent value;
     Proto.host_disk_queue := hm_disk_queue value;
     Proto.host_process_working_set_bytes := hm_process_working_set_bytes value;
     Proto.host_process_private_bytes := hm_process_private_bytes value;
     Proto.host_process_read_bytes_per_second := hm_process_read_bytes_per_second value;
     Proto.host_process_write_bytes_per_second := hm_process_write_bytes_per_second value;
     Proto.host_disk_free_bytes := hm_disk_free_bytes value |}.

Definition map_storage (value : StorageDiagnostics) : Proto.IndexStorageDiagnostics :=
  {| Proto.storage_main_bytes := sd_main_bytes value;
     Proto.storage_wal_bytes := sd_wal_bytes value;
     Proto.storage_shm_bytes := sd_shm_bytes value;
     Proto.storage_free_bytes := sd_free_bytes value;
     Proto.storage_last_commit_latency_ms := sd_last_commit_latency_ms value |}.

Definition map_scheduler (value : SchedulerDiagnostics) : Proto.IndexSchedulerDiagnostics :=
  {| Proto.scheduler_next_refresh_at := Status.next_refresh_at value;
     Proto.scheduler_last_attempt_at := Status.last_attempt_at value;
     Proto.scheduler_last_success_at := Status.last_success_at value;
     Proto.scheduler_last_success_duration_ms := Status.last_success_duration_ms value;
     Proto.scheduler_retry_after := sched_retry_after value;
     Proto.scheduler_consecutive_failures := sched_consecutive_failures value;
     Proto.scheduler_circuit_open := sched_circuit_open value |}.

Definition map_controller_state (state : option ControllerState) : Proto.IndexControllerState :=
  match state with
  | None => INDEX_CONTROLLER_STATE_UNSPECIFIED
  | Some Ramping => INDEX_CONTROLLER_STATE_RAMPING
  | Some Steady => INDEX_CONTROLLER_STATE_STEADY
  | Some Throttled => INDEX_CONTROLLER_STATE_THROTTLED
  | Some (Paused _) => INDEX_CONTROLLER_STATE_PAUSED
  end.

(** A maintenance pause has no number: only its detail travels. *)
Definition map_pause_reason (reason : PauseReason) : option Proto.IndexPauseReason :=
  match reason with
  | Foreground => Some INDEX_PAUSE_REASON_FOREGROUND
  | OpcHealth => Some INDEX_PAUSE_REASON_OPC_HEALTH
  | HostCpu => Some INDEX_PAUSE_REASON_HOST_CPU
  | Memory => Some INDEX_PAUSE_REASON_MEMORY
  | Disk => Some INDEX_PAUSE_REASON_DISK
  | Database => Some INDEX_PAUSE_REASON_DATABASE
  | Operator => Some INDEX_PAUSE_REASON_OPERATOR
  | Circuit => Some INDEX_PAUSE_REASON_CIRCUIT
  | Maintenance => None
  end.

Definition map_health (health : HealthProbeState) : Proto.IndexHealthState :=
  match health with
  | Unavailable => INDEX_HEALTH_STATE_UNAVAILABLE
  | Healthy => INDEX_HEALTH_STATE_HEALTHY
  | Unhealthy => INDEX_HEALTH_STATE_UNHEALTHY
  end.

Definition map_index_status (status : IndexStatus) : Proto.SearchIndexStatus :=
  {| Proto.status_server := st_server status;
     Proto.status_state :=
       i32_of_search_index_state (map_index_state (st_state status));
     Proto.status_configured := st_auto_refresh_enabled status;
     Proto.status_active_generation := st_active_generation status;
     Proto.status_entry_count := st_entry_count status;
     Proto.status_unique_item_count := st_unique_item_count status;
     Proto.status_started_at := st_started_at status;
     Proto.status_completed_at := st_completed_at status;
     Proto.status_last_error := st_last_error status;
     Proto.status_database_bytes := st_database_bytes status;
     Proto.status_organization :=
       i32_of_namespace_organization (map_namespace_organization (st_organization status));
     Proto.status_source := i32_of_browse_source (map_browse_source (st_source status));
     Proto.status_progress := map_inventory_progress <$> st_progress status;
     Proto.status_effective_limits := map_limits <$> st_effective_limits status;
     Proto.status_controller_state :=
       i32_of_index_controller_state (map_controller_state (st_controller_state status));
     Proto.status_pause_reason :=
       i32_of_index_pause_reason <$> (st_pause_reason status ≫= map_pause_reason);
     Proto.status_recovery_deadline := st_recovery_deadline status;
     Proto.status_foreground := Some (map_foreground (st_foreground_metrics status));
     Proto.status_host := Some (map_host (st_host_metrics status));
     Proto.status_storage := Some (map_storage (st_storage status));
     Proto.status_scheduler := Some (map_scheduler (st_scheduler status));
     Proto.status_health :=
       Some {| Proto.health_state := i32_of_index_health_state (map_health (st_health status));
               Proto.health_sentinel_configured := st_sentinel_configured status |};
     Proto.status_promoting := is_promoting_state (st_state status);
     Proto.status_pause_reason_detail := as_str <$> st_pause_reason status |}.

(** ** Matches, values and writes *)

Definition map_index_match (value : IndexedMatch) : Proto.IndexedSearchMatch :=
  {| Proto.indexed_item_id := m_item_id value;
     Proto.indexed_display_name := m_display_name value;
     Proto.indexed_kind :=
       i32_of_browse_node_kind
         match m_kind value with
         | InventoryItem => BROWSE_NODE_KIND_ITEM
         | InventoryBranchAndItem => BROWSE_NODE_KIND_BRANCH_AND_ITEM
         end;
     Proto.indexed_breadcrumbs := m_breadcrumbs value |}.

(** The answer to [search_index]. *)
Definition map_search_result (matches : list IndexedMatch) (has_more : bool) (status : IndexStatus) :
    Proto.SearchIndexResponse :=
  {| Proto.response_matches := map map_index_match matches;
     Proto.response_has_more := has_more;
     Proto.response_status := Some (map_index_status status) |}.
