(* ===== verification/WireSpec.v ===== *)
(** * What the client reads of the gateway's messages

    A status of an index reaches the client without loss (up to the controller's own
    reason for a pause), with the client's value for each of the gateway's, and a browse page the gateway accepted from the OPC client is a
    page the client accepts, with the same nodes. *)
From S2P Require Import Prelude Text Rpc Controller Opc Browse Schedule Store Query Status Proto Api Compat Wire.

(** ** Statuses *)

Definition pause_reason_named (detail : string) : option PauseReason :=
  List.find (fun reason => String.eqb (as_str reason) detail)
    [Foreground; OpcHealth; HostCpu; Memory; Disk; Database; Operator; Circuit; Maintenance].

Lemma pause_reason_named_as_str reason : pause_reason_named (as_str reason) = Some reason.
Proof. by destruct reason. Qed.

Definition organization_of (value : Api.NamespaceOrganization) : Opc.NamespaceOrganization :=
  match value with
  | UnspecifiedOrganization => OrgUnspecified
  | FlatOrganization => OrgFlat
  | HierarchicalOrganization => OrgHierarchical
  end.
Definition source_of (value : Api.BrowseSource) : Opc.BrowseSource :=
  match value with
  | UnspecifiedSource => SourceUnspecified
  | Da3Source => SourceDa3
  | Da2Source => SourceDa2
  | FlatSource => SourceFlat
  | DerivedSource => SourceDerived
  end.
Definition state_of (value : Api.SearchIndexState) (promoting : bool) : IndexState :=
  match value with
  | UnspecifiedState | NotIndexedState => NotIndexed
  | PartialState => Partial
  | ReadyState => Ready
  | StaleState => Stale
  | RefreshingState | PromotingState => if promoting then Promoting else Refreshing
  | FailedState => IndexFailed
  | DeletingState => Deleting
  end.
Definition controller_of (value : Api.IndexControllerState) (reason : option PauseReason) :
    option ControllerState :=
  match value with
  | UnspecifiedController => None
  | RampingController => Some Ramping
  | SteadyController => Some Steady
  | ThrottledController => Some Throttled
  | PausedController => Some (Paused (unwrap_or Foreground reason))
  end.
Definition health_of (value : Api.IndexHealthState) : HealthProbeState :=
  match value with
  | HealthyProbe => Healthy
  | UnhealthyProbe => Unhealthy
  | UnspecifiedProbe | UnavailableProbe => Unavailable
  end.

Definition progress_of (value : Api.IndexedSearchProgress) : Opc.InventoryProgress :=
  {| Opc.branches_visited := Api.progress_branches_visited value;
     Opc.entries_seen := Api.progress_entries_seen value;
     Opc.unique_items := Api.progress_unique_items value;
     Opc.active_time_ms := Api.progress_active_time_ms value;
     Opc.paused_time_ms := Api.progress_paused_time_ms value;
     Opc.items_per_second := Api.progress_items_per_second value;
     Opc.estimated_remaining_ms := Api.progress_estimated_remaining_ms value |}.
Definition limits_of (value : Api.IndexInventoryLimits) : InventoryLimits :=
  {| Controller.item_rate_per_second := Api.limits_item_rate_per_second value;
     Controller.batch_size := Api.limits_batch_size value;
     Controller.duty_cycle_percent := Api.limits_duty_cycle_percent value |}.
Definition foreground_of (value : Api.IndexForegroundDiagnostics) : ForegroundMetrics :=
  {| fm_active_count := Api.foreground_active_count value;
     fm_operations := Api.foreground_operations value;
     fm_errors := Api.foreground_errors value;
     fm_bad_quality := Api.foreground_bad_quality value;
     fm_latency_p50_ms := Api.foreground_latency_p50_ms value;
     fm_latency_p95_ms := Api.foreground_latency_p95_ms value;
     fm_latency_max_ms := Api.foreground_latency_max_ms value;
     fm_last_error := Api.foreground_last_error value;
     fm_last_bad_quality := Api.foreground_last_bad_quality value |}.
Definition host_of (value : Api.IndexHostDiagnostics) : HostMetrics :=
  {| hm_cpu_percent := Api.host_cpu_percent value;
     hm_available_memory_percent := Api.host_available_memory_percent value;
     hm_disk_active_percent := Api.host_disk_active_percent value;
     hm_disk_queue := Api.host_disk_queue value;
     hm_process_working_set_bytes := Api.host_process_working_set_bytes value;
     hm_process_private_bytes := Api.host_process_private_bytes value;
     hm_process_read_bytes_per_second := Api.host_process_read_bytes_per_second value;
     hm_process_write_bytes_per_second := Api.host_process_write_bytes_per_second value;
     hm_disk_free_bytes := Api.host_disk_free_bytes value |}.
Definition storage_of (value : Api.IndexStorageDiagnostics) : StorageDiagnostics :=
  {| sd_main_bytes := Api.storage_main_bytes value;
     sd_wal_bytes := Api.storage_wal_bytes value;
     sd_shm_bytes := Api.storage_shm_bytes value;
     sd_free_bytes := Api.storage_free_bytes value;
     sd_last_commit_latency_ms := Api.storage_last_commit_latency_ms value |}.
Definition scheduler_of (value : Api.IndexSchedulerDiagnostics) : SchedulerDiagnostics :=
  {| Status.next_refresh_at := Api.scheduler_next_refresh_at value;
     Status.last_attempt_at := Api.scheduler_last_attempt_at value;
     Status.last_success_at := Api.scheduler_last_success_at value;
     Status.last_success_duration_ms := Api.scheduler_last_success_duration_ms value;
     sched_retry_after := Api.scheduler_retry_after value;
     sched_consecutive_failures := Api.scheduler_consecutive_failures value;
     sched_circuit_open := Api.scheduler_circuit_open value |}.

(** The gateway's status, read back from the client's. *)
Definition status_of (v : Api.SearchIndexStatus) : IndexStatus :=
  let reason := status_pause_reason_detail v ≫= pause_reason_named in
  {| st_server := Api.status_server v;
     st_state := state_of (status_state v) (status_promoting v);
     st_auto_refresh_enabled := Api.status_auto_refresh_enabled v;
     st_active_generation := Api.status_active_generation v;
     st_entry_count := Api.status_entry_count v;
     st_unique_item_count := Api.status_unique_item_count v;
     st_started_at := Api.status_started_at v;
     st_completed_at := Api.status_completed_at v;
     st_last_error := Api.status_last_error v;
     st_database_bytes := Api.status_database_bytes v;
     st_organization := organization_of (status_organization v);
     st_source := source_of (status_source v);
     st_progress := progress_of <$> status_progress v;
     st_effective_limits := limits_of <$> status_effective_limits v;
     st_controller_state := controller_of (status_controller_state v) reason;
     st_pause_reason := reason;
     st_recovery_deadline := Api.status_recovery_deadline v;
     st_foreground_metrics := foreground_of (status_foreground v);
     st_host_metrics := host_of (status_host v);
     st_health := health_of (health_state (status_health v));
     st_sentinel_configured := health_sentinel_configured (status_health v);
     st_storage := storage_of (status_storage v);
     st_scheduler := scheduler_of (status_scheduler v) |}.

(** What a status shows of the controller: of its own pauses only that it pauses, for
    the reason the status reports. *)
Definition shown (s : IndexStatus) : IndexStatus :=
  {| st_server := st_server s;
     st_state := st_state s;
     st_auto_refresh_enabled := st_auto_refresh_enabled s;
     st_active_generation := st_active_generation s;
     st_entry_count := st_entry_count s;
     st_unique_item_count := st_unique_item_count s;
     st_started_at := st_started_at s;
     st_completed_at := st_completed_at s;
     st_last_error := st_last_error s;
     st_database_bytes := st_database_bytes s;
     st_organization := st_organization s;
     st_source := st_source s;
     st_progress := st_progress s;
     st_effective_limits := st_effective_limits s;
     st_controller_state := match st_controller_state s with
       | Some (Paused _) => Some (Paused (unwrap_or Foreground (st_pause_reason s)))
       | state => state
       end;
     st_pause_reason := st_pause_reason s;
     st_recovery_deadline := st_recovery_deadline s;
     st_foreground_metrics := st_foreground_metrics s;
     st_host_metrics := st_host_metrics s;
     st_health := st_health s;
     st_sentinel_configured := st_sentinel_configured s;
     st_storage := st_storage s;
     st_scheduler := st_scheduler s |}.

(** The values of the client for the states, origins and reasons of the gateway. *)
Definition state_shown (state : IndexState) : Api.SearchIndexState * bool :=
  match state with
  | NotIndexed => (NotIndexedState, false)
  | Partial => (PartialState, false)
  | Ready => (ReadyState, false)
  | Stale => (StaleState, false)
  | Refreshing => (RefreshingState, false)
  | Promoting => (RefreshingState, true)
  | IndexFailed => (FailedState, false)
  | Deleting => (DeletingState, false)
  end.
Definition organization_shown (value : Opc.NamespaceOrganization) : Api.NamespaceOrganization :=
  match value with
  | OrgUnspecified => UnspecifiedOrganization
  | OrgFlat => FlatOrganization
  | OrgHierarchical => HierarchicalOrganization
  end.
Definition source_shown (value : Opc.BrowseSource) : Api.BrowseSource :=
  match value with
  | SourceUnspecified => UnspecifiedSource
  | SourceDa3 => Da3Source
  | SourceDa2 => Da2Source
  | SourceFlat => FlatSource
  | SourceDerived => DerivedSource
  end.
Definition controller_shown (state : option ControllerState) : Api.IndexControllerState :=
  match state with
  | None => UnspecifiedController
  | Some Ramping => RampingController
  | Some Steady => SteadyController
  | Some Throttled => ThrottledController
  | Some (Paused _) => PausedController
  end.
Definition health_shown (state : HealthProbeState) : Api.IndexHealthState :=
  match state with
  | Unavailable => UnavailableProbe
  | Healthy => HealthyProbe
  | Unhealthy => UnhealthyProbe
  end.
(** A maintenance pause has a text, and no value of its own. *)
Definition reason_shown (reason : PauseReason) : option Api.IndexPauseReason * string :=
  match reason with
  | Foreground => (Some ForegroundReason, "foreground")
  | OpcHealth => (Some OpcHealthReason, "opc_health")
  | HostCpu => (Some HostCpuReason, "host_cpu")
  | Memory => (Some MemoryReason, "memory")
  | Disk => (Some DiskReason, "disk")
  | Database => (Some DatabaseReason, "database")
  | Operator => (Some OperatorReason, "operator")
  | Circuit => (Some CircuitReason, "circuit")
  | Maintenance => (None, "maintenance")
  end.
Record values_shown (s : IndexStatus) (v : Api.SearchIndexStatus) : Prop := {
  shown_state : (status_state v, status_promoting v) = state_shown (st_state s);
  shown_organization : status_organization v = organization_shown (st_organization s);
  shown_source : status_source v = source_shown (st_source s);
  shown_controller : status_controller_state v = controller_shown (st_controller_state s);
  shown_health : health_state (status_health v) = health_shown (st_health s);
  shown_reason : status_pause_reason v = (st_pause_reason s ≫= fun reason => (reason_shown reason).1);
  shown_detail : status_pause_reason_detail v = snd ∘ reason_shown <$> st_pause_reason s
}.

Lemma organization_reaches o :
  organization (i32_of_namespace_organization (map_namespace_organization o)) = Ok (organization_shown o) /\
  organization_of (organization_shown o) = o.
Proof. by destruct o. Qed.
Lemma source_reaches o :
  source (i32_of_browse_source (map_browse_source o)) = Ok (source_shown o) /\ source_of (source_shown o) = o.
Proof. by destruct o. Qed.
Lemma state_reaches o :
  search_index_state (i32_of_search_index_state (map_index_state o)) = Ok (state_shown o).1 /\
  is_promoting_state o = (state_shown o).2 /\ state_of (state_shown o).1 (state_shown o).2 = o.
Proof. by destruct o. Qed.
Lemma controller_reaches o reason :
  index_controller_state (i32_of_index_controller_state (map_controller_state o)) = Ok (controller_shown o) /\
  controller_of (controller_shown o) reason =
    match o with Some (Paused _) => Some (Paused (unwrap_or Foreground reason)) | _ => o end.
Proof. by destruct o as [[]|]. Qed.
Lemma health_reaches o :
  index_health_state (i32_of_index_health_state (map_health o)) = Ok (health_shown o) /\
  health_of (health_shown o) = o.
Proof. by destruct o. Qed.
Lemma pause_reason_reaches o :
  transpose (index_pause_reason <$> (i32_of_index_pause_reason <$> (o ≫= map_pause_reason))) =
    Ok (o ≫= fun reason => (reason_shown reason).1) /\
  as_str <$> o = snd ∘ reason_shown <$> o.
Proof. by destruct o as [[]|]. Qed.
Lemma detail_reaches o : ((as_str <$> o) ≫= pause_reason_named) = o.
Proof. by destruct o as [[]|]. Qed.

Lemma progress_reaches p : progress_of (indexed_search_progress (map_inventory_progress p)) = p.
Proof. by destruct p. Qed.
Lemma limits_reach p : limits_of (inventory_limits (map_limits p)) = p.
Proof. by destruct p. Qed.
Lemma foreground_reaches p : foreground_of (foreground_diagnostics (map_foreground p)) = p.
Proof. by destruct p. Qed.
Lemma host_reaches p : host_of (host_diagnostics (map_host p)) = p.
Proof. by destruct p. Qed.
Lemma storage_reaches p : storage_of (storage_diagnostics (map_storage p)) = p.
Proof. by destruct p. Qed.
Lemma scheduler_reaches p : scheduler_of (scheduler_diagnostics (map_scheduler p)) = p.
Proof. by destruct p. Qed.
Lemma fmap_reaches {A B C} (f : A -> B) (g : B -> C) (h : C -> A) (o : option A) :
  (forall a, h (g (f a)) = a) -> h <$> (g <$> (f <$> o)) = o.
Proof. intros H. destruct o; simpl; [by rewrite H|done]. Qed.

Lemma status_reaches (s : IndexStatus) :
  exists v, search_index_status (map_index_status s) = Ok v /\ values_shown s v /\ status_of v = shown s.
Proof.
  unfold search_index_status, map_index_status. simpl.
  destruct (state_reaches (st_state s)) as (-> & -> & Hstate).
  destruct (organization_reaches (st_organization s)) as (-> & Horg).
  destruct (source_reaches (st_source s)) as (-> & Hsrc).
  destruct (controller_reaches (st_controller_state s) (st_pause_reason s)) as (-> & Hc).
  destruct (pause_reason_reaches (st_pause_reason s)) as (-> & Hdetail).
  unfold health_diagnostics. simpl.
  destruct (health_reaches (st_health s)) as (-> & Hh). simpl.
  eexists. split; [reflexivity|]. split; [by split; simpl; try destruct (state_shown _)|].
  unfold status_of, shown. simpl.
  rewrite detail_reaches, Hstate, Horg, Hsrc, Hc, Hh, foreground_reaches, host_reaches,
    storage_reaches, scheduler_reaches, (fmap_reaches _ _ _ _ progress_reaches),
    (fmap_reaches _ _ _ _ limits_reach).
  by destruct (st_controller_state s) as [[]|].
Qed.

(** C36: every status of the gateway is a message the client accepts, with exactly the state (and
    the promotion behind [Refreshing]), the organization, source, controller state, health and reason for a
    pause the tables above give, number and text; and everything else the gateway says in it
    is read back from the client's value as it was: names, counts, times, absent and present diagnostics. Only the
    controller's own reason for a pause is lost, when another reason is reported. *)
Theorem status_reaches_client (s : IndexStatus) :
  exists v, search_index_status (map_index_status s) = Ok v /\ values_shown s v /\ status_of v = shown s.
Proof. apply status_reaches. Qed.

(** ** Browse pages *)

(** A selectable node of the OPC client has an ItemID. *)
Definition selectable_named (node : Opc.BrowseNode) : bool :=
  match Opc.node_kind node with
  | NodeBranch => true
  | NodeItem | NodeBranchAndItem => is_some (Opc.node_item_id node)
  end.

(** The client's node for a node of the OPC client and the token the gateway gave it. *)
Definition client_node (token : string) (node : Opc.BrowseNode) : Api.BrowseNode :=
  {| Api.node_key := token;
     Api.node_display_name := Opc.node_display_name node;
     Api.node_kind :=
       match Opc.node_kind node with
       | NodeBranch => BranchKind
       | NodeItem => ItemKind
       | NodeBranchAndItem => BranchAndItemKind
       end;
     Api.node_item_id :=
       match Opc.node_kind node with NodeBranch => None | _ => Opc.node_item_id node end |}.

Lemma browse_node_reaches token node :
  browse_node (map_browse_node (public_node token node)) =
  if selectable_named node then Ok (client_node token node)
  else Err (ProtocolError "gateway returned a selectable browse node without an ItemID").
Proof. destruct node as [key name [] [item|]]; reflexivity. Qed.

Lemma client_node_typed token node :
  selectable_named node = true ->
  is_some (Api.node_item_id (client_node token node)) = is_item (Api.node_kind (client_node token node)).
Proof. by destruct node as [key name [] [item|]]. Qed.

Lemma browse_nodes_reach named :
  collect (map browse_node (map map_browse_node (map (fun '(token, node) => public_node token node) named))) =
  if forallb (fun '(_, node) => selectable_named node) named
  then Ok (map (fun '(token, node) => client_node token node) named)
  else Err (ProtocolError "gateway returned a selectable browse node without an ItemID").
Proof.
  induction named as [|[token node] named IH]; [done|].
  cbn [map collect forallb]. rewrite browse_node_reaches, IH.
  destruct (selectable_named node); [|done]. by destruct (forallb _ named).
Qed.

Lemma browse_commit_page sessions session_id key native now node_tokens page_token sessions' page :
  browse_commit sessions session_id key native now node_tokens page_token = (sessions', Ok page) ->
  page =
  {| Opc.page_nodes := map (fun '(token, node) => public_node token node)
                         (combine node_tokens (Opc.page_nodes native));
     Opc.page_next_page_token := (fun _ => page_token) <$> Opc.page_next_page_token native;
     Opc.page_complete := Opc.page_complete native;
     Opc.page_organization := Opc.page_organization native;
     Opc.page_source := Opc.page_source native;
     Opc.page_warning := Opc.page_warning native |}.
Proof.
  unfold browse_commit. destruct (sessions !! session_id); [|done].
  bool_cases; [done|]. by intros [_ <-%ok_inj]%pair_inj.
Qed.

Lemma validate_page_token native :
  validate_page native = Ok tt ->
  Opc.page_complete native = negb (is_some (Opc.page_next_page_token native)).
Proof.
  unfold validate_page. destruct (Opc.page_complete native), (Opc.page_next_page_token native); done.
Qed.

Lemma forallb_combine {A B} (p : B -> bool) (l : list A) (k : list B) :
  length l = length k -> forallb (fun '(_, y) => p y) (combine l k) = forallb p k.
Proof.
  revert k. induction l as [|x l IH]; intros [|y k]; simpl; intros [=]; [done|]. by rewrite IH.
Qed.

Lemma map_combine {A B C} (f : A -> B -> C) l k :
  map (fun '(x, y) => f x y) (combine l k) = zip_with f l k.
Proof. revert k. induction l as [|x l IH]; intros [|y k]; simpl; [done..|]. by rewrite IH. Qed.

Lemma clients_typed tokens nodes :
  forallb selectable_named nodes = true ->
  Forall (fun node => is_some (Api.node_item_id node) = is_item (Api.node_kind node))
    (zip_with client_node tokens nodes).
Proof.
  revert nodes. induction tokens as [|t tokens IH]; intros [|n nodes]; simpl; try constructor.
  - apply client_node_typed. by bool_to_prop.
  - apply IH. by bool_to_prop.
Qed.

(** C37: the page the gateway makes of a native page it accepted is accepted by the client
    exactly when every selectable node of the native page has an ItemID; the client then
    has the nodes in order under the gateway's tokens, without the ItemIDs of branches, and
    its page satisfies the types' invariants: exactly the selectable nodes have an ItemID,
    and the page is complete exactly when it has no continuation token. *)
Theorem browse_page_typed sessions session_id key native now node_tokens page_token sessions' page
    (Hvalid : validate_page native = Ok tt)
    (Htokens : length node_tokens = length (Opc.page_nodes native))
    (Hpage : browse_commit sessions session_id key native now node_tokens page_token
             = (sessions', Ok page)) :
  let answer := browse_page (map_browse_page session_id page) in
  ((exists v, answer = Ok v) <-> Forall (fun node => selectable_named node = true) (Opc.page_nodes native)) /\
  forall v, answer = Ok v ->
    Api.page_nodes v = zip_with client_node node_tokens (Opc.page_nodes native) /\
    Forall (fun node => is_some (Api.node_item_id node) = is_item (Api.node_kind node)) (Api.page_nodes v) /\
    Api.page_complete v = Opc.page_complete native /\
    Api.page_complete v = negb (is_some (Api.page_next_page_token v)) /\
    Api.page_session_id v = session_id /\
    organization_of (Api.page_organization v) = Opc.page_organization native /\
    source_of (Api.page_source v) = Opc.page_source native.
Proof.
  intros answer. pose proof (validate_page_token _ Hvalid) as Hc.
  assert (Ha : answer =
    if forallb selectable_named (Opc.page_nodes native)
    then
      let? org := organization (i32_of_namespace_organization
                                  (map_namespace_organization (Opc.page_organization native))) in
      let? src := source (i32_of_browse_source (map_browse_source (Opc.page_source native))) in
      Ok {| Api.page_session_id := session_id;
            Api.page_nodes := zip_with client_node node_tokens (Opc.page_nodes native);
            Api.page_next_page_token := (fun _ => page_token) <$> Opc.page_next_page_token native;
            Api.page_complete := Opc.page_complete native;
            Api.page_organization := org; Api.page_source := src;
            Api.page_warning := Opc.page_warning native |}
    else Err (ProtocolError "gateway returned a selectable browse node without an ItemID")).
  { unfold answer, browse_page, map_browse_page. rewrite (browse_commit_page _ _ _ _ _ _ _ _ _ Hpage).
    cbn -[map collect]. rewrite browse_nodes_reach, forallb_combine, map_combine, Hc by done.
    destruct (Opc.page_next_page_token native); simpl; by destruct (forallb _ _). }
  clearbody answer. subst answer.
  destruct (organization_reaches (Opc.page_organization native)) as (-> & Horg).
  destruct (source_reaches (Opc.page_source native)) as (-> & Hsrc). simpl.
  destruct (forallb selectable_named (Opc.page_nodes native)) eqn:Hf; (split; [|intros v [= <-]; simpl]).
  - split; [intros _; by apply Forall_forall; intros n Hn%list_elem_of_In;
            apply (proj1 (forallb_forall _ _) Hf) | by eexists].
  - split_and!; try done; [by apply clients_typed|].
    rewrite Hc. by destruct (Opc.page_next_page_token native).
  - split; [by intros []|]. intros H. exfalso.
    enough (forallb selectable_named (Opc.page_nodes native) = true) by congruence.
    apply forallb_forall. intros n Hn. by apply (proj1 (Forall_forall _ _) H), list_elem_of_In.
Qed.

(** A page with a branch and an item, and a continuation. *)
Definition demo_native : Opc.BrowsePage :=
  {| Opc.page_nodes :=
       [ {| Opc.node_key := "x"; Opc.node_display_name := [65]; Opc.node_kind := NodeBranch;
            Opc.node_item_id := Some [88] |};
         {| Opc.node_key := "y"; Opc.node_display_name := [66]; Opc.node_kind := NodeItem;
            Opc.node_item_id := Some [89] |} ];
     Opc.page_next_page_token := Some "more"%string; Opc.page_complete := false;
     Opc.page_organization := OrgHierarchical; Opc.page_source := SourceDa2;
     Opc.page_warning := None |}.
Definition demo_key : PageKey := {| key_parent := None; key_token := None; key_size := 2 |}.
Definition demo_sessions : Sessions := {[ "s"%string := new_session "plc" "n" 0 ]}.
Definition demo_committed := browse_commit demo_sessions "s" demo_key demo_native 5 ["t1"; "t2"]%string "p".

Lemma browse_page_typed_witness :
  exists page v,
    demo_committed.2 = Ok page /\ browse_page (map_browse_page "s" page) = Ok v /\
    map Api.node_item_id (Api.page_nodes v) = [None; Some [89]] /\ Api.page_complete v = false.
Proof.
  assert (Hc : exists page, demo_committed = (demo_committed.1, Ok page)).
  { eexists. vm_compute. reflexivity. }
  destruct Hc as [page Hc].
  destruct (browse_page_typed demo_sessions "s" demo_key demo_native 5 ["t1"; "t2"]%string "p"
              demo_committed.1 page eq_refl eq_refl Hc) as [Hok Hv].
  destruct (proj2 Hok) as [v E]; [repeat constructor|].
  exists page, v. destruct (Hv v E) as (Hn & _ & Hcomplete & _).
  rewrite Hc, Hn, Hcomplete. by split_and!.
Defined.
