(* ===== verification/LiveSearch.v ===== *)
(** * Live namespace search (gateway/src/server/search.rs)

    A breadth-first search of the namespace through browse requests, streamed as
    events. The answers of the browse manager are the input list of a run, consumed in the
    order of the requests; a run that asks for more answers than it has ends waiting.
    The receiver of the stream accepts every event, or a number of them before it is
    dropped. *)
From S2P Require Import Prelude Text Rpc Opc Browse Proto Schedule Store Query Status Api Compat Wire.

Definition DEFAULT_SEARCH_RESULTS : Z := 200.
Definition MAX_SEARCH_RESULTS : Z := 1000.
Definition MAX_SEARCH_VISITED : Z := 50000.

Section Validate.
Context `{TextLibrary}.

Definition search_mode (mode : Z) : result Proto.SearchMatchMode Status :=
  let? mode := ok_or (search_match_mode_of_i32 mode)
                 (mk_status InvalidArgument "unknown search match mode") in
  match mode with
  | SEARCH_MATCH_MODE_UNSPECIFIED => Ok SEARCH_MATCH_MODE_CONTAINS
  | mode => Ok mode
  end.

Definition validate_search (request : Proto.SearchRequest) :
    result (Proto.SearchMatchMode * Z) Status :=
  match normalize_query (Proto.request_query request) with
  | [] => Err (mk_status InvalidArgument "search query must not be empty")
  | _ =>
      let? mode := search_mode (Proto.request_match_mode request) in
      if match mode with SEARCH_MATCH_MODE_CONTAINS => true | _ => false end
         && (Z.of_nat (length (Proto.request_query request)) <? 2)
      then Err (mk_status InvalidArgument "contains searches require at least two characters")
      else
        let max_results :=
          if Proto.request_max_results request =? 0 then DEFAULT_SEARCH_RESULTS
          else Proto.request_max_results request in
        if MAX_SEARCH_RESULTS <? max_results
        then Err (mk_status InvalidArgument "max_results must not exceed 1000")
        else Ok (mode, max_results)
  end.
End Validate.

Definition search_matches (node : Opc.BrowseNode) (query : ustr) (mode : Proto.SearchMatchMode) : bool :=
  let matches (value : ustr) :=
    match mode with
    | SEARCH_MATCH_MODE_EXACT => bool_decide (value = query)
    | SEARCH_MATCH_MODE_PREFIX => starts_with value query
    | SEARCH_MATCH_MODE_CONTAINS | SEARCH_MATCH_MODE_UNSPECIFIED => contains value query
    end in
  matches (Opc.node_display_name node) || is_some_and matches (Opc.node_item_id node).

Definition is_expandable (kind : Opc.BrowseNodeKind) : bool :=
  match kind with NodeBranch | NodeBranchAndItem => true | NodeItem => false end.

(** ** The event stream

    [room] is the number of events the receiver still takes, [None] when it takes all. *)

Record Channel := mk_channel {
  sent : list (result Proto.SearchEvent Status);
  room : option nat
}.

Definition send (event : result Proto.SearchEvent Status) (tx : Channel) : Channel * bool :=
  match room tx with
  | Some O => (tx, false)
  | Some (S n) => (mk_channel (sent tx ++ [event]) (Some n), true)
  | None => (mk_channel (sent tx ++ [event]) None, true)
  end.

Definition send_search_event (event : Event) (tx : Channel) : Channel * bool :=
  send (Ok (Proto.mk_search_event (Some event))) tx.

Definition send_search_completion (complete truncated : bool) (warning : option string)
    (tx : Channel) : Channel * result unit Status :=
  let '(tx, accepted) :=
    send_search_event
      (EventCompleted
         {| Proto.done_complete := complete; Proto.done_cancelled := false;
            Proto.done_truncated := truncated; Proto.done_warning := warning |}) tx in
  (tx, if accepted then Ok tt else Err (mk_status CancelledCode "search stream closed")).

(** ** Scopes, state and steps *)

Record SearchScope := {
  parent_node_key : option string;
  breadcrumbs : list Proto.BrowseBreadcrumb;
  refresh : bool
}.

Record SearchState := mk_state {
  matched_item_ids : list ustr;  (* a set *)
  visited_nodes : Z;
  matches : Z
}.
Definition default_state : SearchState := mk_state [] 0 0.

Inductive SearchStep := Continue | Stop.

Record Context := mk_context {
  state : SearchState;
  scopes : list SearchScope;
  tx : Channel
}.

(** A request to the browse manager. *)
Record BrowseCall := {
  call_server : string;
  call_session : string;
  call_parent : option string;
  call_token : option string;
  call_size : Z;
  call_refresh : bool
}.

Definition crumb (node : Opc.BrowseNode) : Proto.BrowseBreadcrumb :=
  {| Proto.crumb_node_key := Opc.node_key node;
     Proto.crumb_display_name := Opc.node_display_name node |}.

Definition initial_search_scopes (request : Proto.SearchRequest) : list SearchScope :=
  [ {| parent_node_key := Proto.request_scope_node_key request;
       breadcrumbs :=
         match Proto.request_scope_node_key request with
         | Some node_key =>
             [{| Proto.crumb_node_key := node_key; Proto.crumb_display_name := [] |}]
         | None => []
         end;
       refresh := Proto.request_refresh request |} ].

Definition child_search_scope (node : Opc.BrowseNode) (crumbs : list Proto.BrowseBreadcrumb) :
    option SearchScope :=
  if is_expandable (Opc.node_kind node)
  then
    Some {| parent_node_key := Some (Opc.node_key node);
            breadcrumbs := crumbs ++ [crumb node];
            refresh := false |}
  else None.

Section Search.
Context (server session_id : string) (request : Proto.SearchRequest).
Context (mode : Proto.SearchMatchMode) (max_results : Z).

Definition match_node (self : SearchState) (node : Opc.BrowseNode)
    (crumbs : list Proto.BrowseBreadcrumb) : SearchState * option Proto.SearchMatch :=
  let item_match := search_matches node (Proto.request_query request) mode in
  let branch_match := Proto.request_include_branches request && item_match in
  let has_new_item :=
    is_none_or (fun item_id => negb (bool_decide (item_id ∈ matched_item_ids self)))
      (Opc.node_item_id node) in
  if negb (item_match && has_new_item && (is_some (Opc.node_item_id node) || branch_match))
  then (self, None)
  else
    (mk_state
       (match Opc.node_item_id node with
        | Some item_id => item_id :: matched_item_ids self
        | None => matched_item_ids self
        end)
       (visited_nodes self) (saturating_add 32 (matches self) 1),
     Some {| Proto.match_node := Some (map_browse_node node);
             Proto.match_breadcrumbs := crumbs ++ [crumb node] |}).

(** The end of [process_node]: the node's own scope and the visit limit. *)
Definition expand_node (self : Context) (node : Opc.BrowseNode)
    (crumbs : list Proto.BrowseBreadcrumb) : Context * result SearchStep Status :=
  let self :=
    match child_search_scope node crumbs with
    | Some scope => mk_context (state self) (scopes self ++ [scope]) (tx self)
    | None => self
    end in
  if MAX_SEARCH_VISITED <=? visited_nodes (state self)
  then
    let '(tx, r) :=
      send_search_completion false true (Some "search visit limit reached"%string) (tx self) in
    (mk_context (state self) (scopes self) tx, let? _ := r in Ok Stop)
  else (self, Ok Continue).

Definition process_node (self : Context) (node : Opc.BrowseNode)
    (crumbs : list Proto.BrowseBreadcrumb) : Context * result SearchStep Status :=
  let state :=
    mk_state (matched_item_ids (state self)) (saturating_add 32 (visited_nodes (state self)) 1)
      (matches (state self)) in
  match match_node state node crumbs with
  | (state, None) => expand_node (mk_context state (scopes self) (tx self)) node crumbs
  | (state, Some found) =>
      let '(tx, accepted) := send_search_event (EventMatch found) (tx self) in
      let self := mk_context state (scopes self) tx in
      if negb accepted then (self, Ok Stop)
      else if max_results <=? matches state
      then
        let '(tx, r) :=
          send_search_completion false true (Some "search result limit reached"%string) tx in
        (mk_context state (scopes self) tx, let? _ := r in Ok Stop)
      else expand_node self node crumbs
  end.

Fixpoint process_nodes (self : Context) (nodes : list Opc.BrowseNode)
    (crumbs : list Proto.BrowseBreadcrumb) : Context * result SearchStep Status :=
  match nodes with
  | [] => (self, Ok Continue)
  | node :: nodes =>
      match process_node self node crumbs with
      | (self, Ok Continue) => process_nodes self nodes crumbs
      | (self, r) => (self, r)
      end
  end.

Definition process_page (self : Context) (nodes : list Opc.BrowseNode) (partial : bool)
    (crumbs : list Proto.BrowseBreadcrumb) : Context * result SearchStep Status :=
  match process_nodes self nodes crumbs with
  | (self, Ok Continue) =>
      let '(tx, accepted) :=
        send_search_event
          (EventProgress
             {| Proto.search_visited_nodes := visited_nodes (state self);
                Proto.search_matches := matches (state self);
                Proto.search_partial := partial |}) (tx self) in
      (mk_context (state self) (scopes self) tx, Ok (if accepted then Continue else Stop))
  | (self, r) => (self, r)
  end.

(** ** A run *)

Record SearchRun := mk_run {
  run_calls : list BrowseCall;
  run_context : Context;
  run_outcome : option (result unit Status)  (* [None]: the last call has no answer yet *)
}.

Definition log_call (call : BrowseCall) (run : SearchRun) : SearchRun :=
  mk_run (call :: run_calls run) (run_context run) (run_outcome run).

Definition page_call (scope : SearchScope) (page_token : option string) (first_page : bool) :
    BrowseCall :=
  {| call_server := server; call_session := session_id;
     call_parent := parent_node_key scope; call_token := page_token;
     call_size := DEFAULT_PAGE_SIZE; call_refresh := refresh scope && first_page |}.

(** The loop of [process_scope], followed by the other scopes of the queue. *)
Fixpoint run_scopes (answers : list (result Opc.BrowsePage Status)) (self : Context)
    (scope : SearchScope) (page_token : option string) (first_page : bool) : SearchRun :=
  log_call (page_call scope page_token first_page)
    match answers with
    | [] => mk_run [] self None
    | Err error :: _ => mk_run [] self (Some (Err error))
    | Ok page :: answers =>
        match
          process_page self (Opc.page_nodes page) (is_some (Opc.page_next_page_token page))
            (breadcrumbs scope)
        with
        | (self, Err error) => mk_run [] self (Some (Err error))
        | (self, Ok Stop) => mk_run [] self (Some (Ok tt))
        | (self, Ok Continue) =>
            match Opc.page_next_page_token page with
            | Some token => run_scopes answers self scope (Some token) false
            | None =>
                match scopes self with
                | next :: rest =>
                    run_scopes answers (mk_context (state self) rest (tx self)) next None true
                | [] =>
                    let '(tx, r) := send_search_completion true false None (tx self) in
                    mk_run [] (mk_context (state self) [] tx) (Some r)
                end
            end
        end
    end.

Definition run_search_inner (answers : list (result Opc.BrowsePage Status)) (tx : Channel) :
    SearchRun :=
  let '(tx, accepted) :=
    send_search_event
      (EventProgress
         {| Proto.search_visited_nodes := 0; Proto.search_matches := 0;
            Proto.search_partial := false |}) tx in
  if negb accepted then mk_run [] (mk_context default_state [] tx) (Some (Ok tt))
  else
    match initial_search_scopes request with
    | scope :: rest => run_scopes answers (mk_context default_state rest tx) scope None true
    | [] => mk_run [] (mk_context default_state [] tx) (Some (Ok tt))
    end.

(** [run_search]: the error of the search is its last event, and a temporary session is
    closed when the search returned. *)
Definition run_search (temporary_session : bool) (answers : list (result Opc.BrowsePage Status))
    (channel : Channel) : SearchRun * option string :=
  let run := run_search_inner answers channel in
  match run_outcome run with
  | None => (run, None)
  | Some r =>
      let ctx := run_context run in
      let tx := match r with
                | Err error => (send (Err error) (tx ctx)).1
                | Ok _ => tx ctx
                end in
      (mk_run (run_calls run) (mk_context (state ctx) (scopes ctx) tx) (Some r),
       if temporary_session then Some session_id else None)
  end.
End Search.
