(* ===== verification/LiveSearchSpec.v ===== *)
(** * A live search is a filtered breadth-first traversal

    What a search with a receiver that takes every event sends and asks, against the
    traversal of the answered pages without limits. *)
From S2P Require Import Prelude Text Rpc Opc Browse Proto Schedule Store Query Status Api Compat Wire LiveSearch.

(** ** The reference *)

Abbreviation found := (list Proto.BrowseBreadcrumb * Opc.BrowseNode)%type.

(** The nodes of the answered pages, page by page: the pages of the current scope, then
    those of the scopes of the expandable nodes, first found first. *)
Fixpoint traversal (answers : list (result Opc.BrowsePage Status)) (scope : SearchScope)
    (queue : list SearchScope) : list found :=
  match answers with
  | Ok page :: answers =>
      let here := map (pair (breadcrumbs scope)) (Opc.page_nodes page) in
      let queue :=
        queue ++ omap (fun node => child_search_scope node (breadcrumbs scope)) (Opc.page_nodes page) in
      here ++
      match Opc.page_next_page_token page, queue with
      | Some _, _ => traversal answers scope queue
      | None, next :: rest => traversal answers next rest
      | None, [] => []
      end
  | _ => []
  end.

(** The first of the nodes with an ItemID, for each ItemID; every node without one. *)
Fixpoint first_per_item (seen : list ustr) (l : list found) : list found :=
  match l with
  | [] => []
  | x :: l =>
      match Opc.node_item_id x.2 with
      | None => x :: first_per_item seen l
      | Some item_id =>
          if bool_decide (item_id ∈ seen) then first_per_item seen l
          else x :: first_per_item (item_id :: seen) l
      end
  end.

Definition items (l : list found) : list ustr := omap (fun x => Opc.node_item_id x.2) l.

Lemma first_per_item_app seen l k :
  first_per_item seen (l ++ k) =
  first_per_item seen l ++ first_per_item (rev (items (first_per_item seen l)) ++ seen) k.
Proof.
  revert seen. induction l as [|x l IH]; intros seen; simpl; [done|].
  destruct (Opc.node_item_id x.2) as [i|] eqn:Hi.
  - case_bool_decide; [apply IH|]. unfold items. simpl. rewrite Hi. simpl. rewrite IH.
    unfold items. by rewrite <- app_assoc.
  - unfold items. simpl. rewrite Hi, IH. done.
Qed.

(** Every ItemID of the list is that of exactly one node kept. *)
Lemma first_per_item_spec seen l :
  NoDup (items (first_per_item seen l)) /\
  (forall i, i ∈ items (first_per_item seen l) <-> i ∈ items l /\ i ∉ seen).
Proof.
  revert seen. induction l as [|x l IH]; intros seen.
  { simpl. split; [constructor|]. set_solver. }
  unfold items in *. simpl. destruct (Opc.node_item_id x.2) as [i|] eqn:Hi; [|simpl; rewrite Hi; apply IH].
  case_bool_decide as Hs; simpl.
  - destruct (IH seen) as [H1 H2]. split; [done|]. intros j. rewrite H2. set_solver.
  - rewrite Hi. destruct (IH (i :: seen)) as [H1 H2]. split.
    + apply NoDup_cons. split; [rewrite H2; set_solver|done].
    + intros j. rewrite elem_of_cons, H2, elem_of_cons, elem_of_cons.
      destruct (decide (j = i)); naive_solver.
Qed.

Section Reference.
Context (request : Proto.SearchRequest) (mode : Proto.SearchMatchMode).

(** The nodes a search looks for. *)
Definition wanted (x : found) : bool :=
  search_matches x.2 (Proto.request_query request) mode
  && (is_some (Opc.node_item_id x.2) || Proto.request_include_branches request).

Definition hits (l : list found) : list found := first_per_item [] (List.filter wanted l).

Definition hit_event (x : found) : Proto.SearchMatch :=
  {| Proto.match_node := Some (map_browse_node x.2);
     Proto.match_breadcrumbs := x.1 ++ [crumb x.2] |}.
End Reference.

(** The matches among the events sent, and the completion. *)
Definition match_of (event : result Proto.SearchEvent Status) : option Proto.SearchMatch :=
  match event with
  | Ok e => match Proto.event e with Some (EventMatch found) => Some found | _ => None end
  | Err _ => None
  end.
Definition completion_of (event : result Proto.SearchEvent Status) :
    option (result Proto.SearchCompleted Status) :=
  match event with
  | Ok e => match Proto.event e with Some (EventCompleted c) => Some (Ok c) | _ => None end
  | Err error => Some (Err error)
  end.
Definition first_page (call : BrowseCall) : bool := negb (is_some (call_token call)).

(** ** The run against the reference *)

Section Run.
Context (server session_id : string) (request : Proto.SearchRequest).
Context (mode : Proto.SearchMatchMode) (max_results : Z).
Context (Hmax : 0 < max_results <= 1000).

Abbreviation hits := (hits request mode).
Abbreviation wanted := (wanted request mode).
Abbreviation process_node := (process_node request mode max_results).
Abbreviation process_nodes := (process_nodes request mode max_results).
Abbreviation process_page := (process_page request mode max_results).
Abbreviation run_scopes := (run_scopes server session_id request mode max_results).

(** Why a search that examined [l] goes no further. *)
Definition stop_reason (l : list found) : option string :=
  if max_results <=? Z.of_nat (length (hits l)) then Some "search result limit reached"%string
  else if MAX_SEARCH_VISITED <=? Z.of_nat (length l) then Some "search visit limit reached"%string
  else None.

Definition state_after (l : list found) : SearchState :=
  mk_state (rev (items (hits l))) (Z.of_nat (length l)) (Z.of_nat (length (hits l))).

Definition truncated (warning : string) : result Proto.SearchCompleted Status :=
  Ok {| Proto.done_complete := false; Proto.done_cancelled := false; Proto.done_truncated := true;
        Proto.done_warning := Some warning |}.
Definition completed : result Proto.SearchCompleted Status :=
  Ok {| Proto.done_complete := true; Proto.done_cancelled := false; Proto.done_truncated := false;
        Proto.done_warning := None |}.

(** The context after [l] was examined and [completions] were sent. *)
Record examined (self : Context) (l : list found)
    (completions : list (result Proto.SearchCompleted Status)) : Prop := {
  examined_state : state self = state_after l;
  examined_room : room (tx self) = None;
  examined_matches : omap match_of (sent (tx self)) = map hit_event (hits l);
  examined_completions : omap completion_of (sent (tx self)) = completions
}.

Definition is_hit (l : list found) (x : found) : bool :=
  wanted x && is_none_or (fun i => negb (bool_decide (i ∈ rev (items (hits l))))) (Opc.node_item_id x.2).

Lemma hits_snoc l x : hits (l ++ [x]) = hits l ++ (if is_hit l x then [x] else []).
Proof.
  unfold is_hit, LiveSearchSpec.hits. rewrite List.filter_app, first_per_item_app, app_nil_r. f_equal.
  simpl. destruct (wanted x); simpl; [|done].
  destruct (Opc.node_item_id x.2); simpl; [|done]. by case_bool_decide.
Qed.

Lemma items_app l k : items (l ++ k) = items l ++ items k.
Proof. apply omap_app. Qed.

Lemma send_open event self :
  room self = None ->
  send_search_event event self = (mk_channel (sent self ++ [Ok (Proto.mk_search_event (Some event))]) None, true).
Proof. unfold send_search_event, send. by intros ->. Qed.

Lemma send_search_completion_open complete was_truncated warning self :
  room self = None ->
  send_search_completion complete was_truncated warning self =
  (mk_channel (sent self ++
     [Ok (Proto.mk_search_event
            (Some (EventCompleted {| Proto.done_complete := complete; Proto.done_cancelled := false;
                                     Proto.done_truncated := was_truncated;
                                     Proto.done_warning := warning |})))]) None, Ok tt).
Proof. intros Hr. unfold send_search_completion. by rewrite send_open. Qed.

Lemma match_node_examined l x v :
  Z.of_nat (length (hits l)) <= 1000 ->
  match_node request mode (mk_state (rev (items (hits l))) v (Z.of_nat (length (hits l)))) x.2 x.1 =
  (mk_state (rev (items (hits (l ++ [x])))) v (Z.of_nat (length (hits (l ++ [x])))),
   if is_hit l x then Some (hit_event x) else None).
Proof.
  intros Hl. unfold match_node. rewrite hits_snoc. cbn [matched_item_ids visited_nodes matches].
  replace (search_matches x.2 (Proto.request_query request) mode
           && is_none_or (fun i => negb (bool_decide (i ∈ rev (items (hits l))))) (Opc.node_item_id x.2)
           && (is_some (Opc.node_item_id x.2)
               || Proto.request_include_branches request && search_matches x.2 (Proto.request_query request) mode))
    with (is_hit l x).
  2:{ unfold is_hit, LiveSearchSpec.wanted. by destruct (search_matches _ _ _), (is_none_or _ _),
        (is_some _), (Proto.request_include_branches request). }
  destruct (is_hit l x); simpl; [|by rewrite app_nil_r].
  rewrite items_app, rev_app_distr, length_app. unfold items at 3. simpl.
  unfold saturating_add, umax. rewrite Z.min_l by lia.
  by destruct (Opc.node_item_id x.2); simpl; rewrite Nat2Z.inj_add.
Qed.

(** The completion a stop sends. *)
Definition stop_completions (l : list found) : list (result Proto.SearchCompleted Status) :=
  match stop_reason l with Some w => [truncated w] | None => [] end.
Definition step_of (l : list found) : SearchStep :=
  match stop_reason l with Some _ => Stop | None => Continue end.

Lemma stop_reason_none l :
  stop_reason l = None ->
  Z.of_nat (length (hits l)) < max_results /\ Z.of_nat (length l) < MAX_SEARCH_VISITED.
Proof. unfold stop_reason. bool_cases; intros; try done; lia. Qed.

Lemma stop_reason_nil : stop_reason [] = None.
Proof using Hmax.
  unfold stop_reason. by rewrite (proj2 (Z.leb_gt max_results (Z.of_nat (length (hits [])))) ltac:(cbn; lia)).
Qed.

Lemma expand_node_examined self l x :
  examined self l [] -> Z.of_nat (length (hits l)) < max_results ->
  let '(self', r) := expand_node self x.2 x.1 in
  examined self' l (stop_completions l) /\ r = Ok (step_of l) /\
  scopes self' = scopes self ++ option_list (child_search_scope x.2 x.1).
Proof.
  intros [Hs Hr Hm Hc] Hhits. unfold expand_node.
  set (self' := match child_search_scope x.2 x.1 with
                | Some scope => mk_context (state self) (scopes self ++ [scope]) (tx self)
                | None => self
                end).
  assert (Hself : state self' = state self /\ tx self' = tx self /\
                  scopes self' = scopes self ++ option_list (child_search_scope x.2 x.1)).
  { unfold self'. destruct (child_search_scope x.2 x.1); simpl; by rewrite ?app_nil_r. }
  clearbody self'. destruct Hself as (E1 & E2 & E3). rewrite E1, E2, Hs. cbn [visited_nodes state_after].
  unfold stop_completions, step_of, stop_reason.
  destruct (max_results <=? Z.of_nat (length (hits l))) eqn:H1; [lia|].
  destruct (MAX_SEARCH_VISITED <=? Z.of_nat (length l)); simpl.
  - rewrite send_search_completion_open by done. split_and!; [|done..].
    split; simpl; [done|done| |]; rewrite omap_app; simpl; by rewrite ?app_nil_r, ?Hc.
  - split_and!; [|done..]. split; simpl; congruence.
Qed.

Lemma process_node_examined self l x :
  examined self l [] -> stop_reason l = None ->
  let '(self', r) := process_node self x.2 x.1 in
  let l' := l ++ [x] in
  examined self' l' (stop_completions l') /\ r = Ok (step_of l') /\
  (stop_reason l' = None -> scopes self' = scopes self ++ option_list (child_search_scope x.2 x.1)).
Proof.
  intros [Hs Hr Hm Hc] [Hh Hv]%stop_reason_none. unfold MAX_SEARCH_VISITED in Hv.
  unfold LiveSearch.process_node.
  rewrite Hs. cbn [matched_item_ids visited_nodes matches state_after].
  rewrite match_node_examined by lia.
  assert (Hlen : saturating_add 32 (Z.of_nat (length l)) 1 = Z.of_nat (length (l ++ [x]))).
  { rewrite length_app. simpl. unfold saturating_add, umax. lia. }
  rewrite Hlen. fold (state_after (l ++ [x])).
  pose proof (hits_snoc l x) as Hsnoc.
  destruct (is_hit l x) eqn:Hhit.
  - rewrite send_open by done. simpl negb. cbv iota.
    set (self' := mk_context _ _ _).
    assert (Hex : examined self' (l ++ [x]) []).
    { split; simpl; [done|done| |]; rewrite omap_app; simpl; [|by rewrite Hc].
      by rewrite Hm, Hsnoc, map_app. }
    cbn [matches state_after].
    destruct (max_results <=? Z.of_nat (length (hits (l ++ [x])))) eqn:Hlimit.
    + rewrite send_search_completion_open by done. simpl.
      unfold step_of, stop_completions, stop_reason. rewrite Hlimit. split_and!; [|done..].
      destruct Hex as [_ _ Hm' Hc']. simpl in Hm', Hc'.
      split; simpl; [done|done| |]; rewrite omap_app; simpl; by rewrite ?app_nil_r, ?Hm', ?Hc'.
    + pose proof (expand_node_examined self' (l ++ [x]) x Hex ltac:(lia)) as H.
      destruct (expand_node self' x.2 x.1) as [self'' r]. naive_solver.
  - rewrite app_nil_r in Hsnoc.
    set (self' := mk_context _ _ _).
    assert (Hex : examined self' (l ++ [x]) []).
    { split; simpl; [done|done| |done]. by rewrite Hm, Hsnoc. }
    pose proof (expand_node_examined self' (l ++ [x]) x Hex ltac:(rewrite Hsnoc; lia)) as H.
    destruct (expand_node self' x.2 x.1) as [self'' r]. naive_solver.
Qed.

(** How far a search gets in [t] after [l]: [k] nodes, and no limit before. *)
Definition stops_at (l t : list found) (k : nat) : Prop :=
  (k <= length t)%nat /\ (forall j, (j < k)%nat -> stop_reason (l ++ take j t) = None) /\
  (stop_reason (l ++ take k t) = None -> k = length t).

Lemma stops_at_nil l : stops_at l [] 0.
Proof. split_and!; [done|intros j Hj; lia|done]. Qed.

Lemma stops_at_cons l x t k :
  stop_reason l = None -> stop_reason (l ++ [x]) = None -> stops_at (l ++ [x]) t k ->
  stops_at l (x :: t) (S k).
Proof.
  intros Hl Hx (H1 & H2 & H3). split_and!; simpl; [lia| |].
  - intros [|j] Hj; simpl; [by rewrite app_nil_r|].
    replace (l ++ x :: take j t) with ((l ++ [x]) ++ take j t) by by rewrite <- app_assoc.
    apply H2. lia.
  - replace (l ++ x :: take k t) with ((l ++ [x]) ++ take k t) by by rewrite <- app_assoc.
    intros H. by rewrite (H3 H).
Qed.

Lemma stops_at_app l t u k :
  stop_reason l = None -> stops_at l t (length t) -> stop_reason (l ++ t) = None ->
  stops_at (l ++ t) u k -> stops_at l (t ++ u) (length t + k).
Proof.
  intros Hl. revert l Hl. induction t as [|x t IH]; intros l Hl (H1 & H2 & H3) Ht Hu; simpl.
  { by rewrite app_nil_r in *. }
  assert (Hx : stop_reason (l ++ [x]) = None).
  { destruct t as [|y t]; [done|]. apply (H2 1%nat). simpl. lia. }
  apply stops_at_cons; [done..|]. apply IH; [done| |by rewrite <- app_assoc|by rewrite <- app_assoc].
  split_and!; [done| |done]. intros j Hj. rewrite <- app_assoc. apply (H2 (S j)). simpl. lia.
Qed.

Lemma process_nodes_examined crumbs nodes : forall self l,
  examined self l [] -> stop_reason l = None ->
  let '(self', r) := process_nodes self nodes crumbs in
  let t := map (pair crumbs) nodes in
  exists k, stops_at l t k /\
  let l' := l ++ take k t in
  examined self' l' (stop_completions l') /\ r = Ok (step_of l') /\
  (stop_reason l' = None ->
   scopes self' = scopes self ++ omap (fun node => child_search_scope node crumbs) nodes).
Proof.
  induction nodes as [|node nodes IH]; intros self l Hex Hl.
  - simpl. exists O. simpl. rewrite !app_nil_r. unfold stop_completions, step_of. rewrite Hl.
    split_and!; try done. split_and!; [done| |done]. intros j Hj. lia.
  - pose proof (process_node_examined self l (crumbs, node) Hex Hl) as H. simpl in H. simpl.
    destruct (process_node self node crumbs) as [self1 r1]. destruct H as (Hex1 & -> & Hsc).
    unfold step_of in *. destruct (stop_reason (l ++ [(crumbs, node)])) as [w|] eqn:Hstop.
    + exists 1%nat. simpl. rewrite take_0, Hstop. split_and!; try done.
      split_and!; simpl; [lia| |].
      * intros [|j] Hj; [simpl; by rewrite app_nil_r|lia].
      * by rewrite take_0, Hstop.
    + unfold stop_completions in Hex1. rewrite Hstop in Hex1.
      specialize (IH self1 (l ++ [(crumbs, node)]) Hex1 Hstop).
      destruct (process_nodes self1 nodes crumbs) as [self2 r2].
      destruct IH as (k & Hk & Hex2 & -> & Hsc2). exists (S k). simpl.
      rewrite <- (app_assoc l [(crumbs, node)]) in *. simpl in *. split; [by apply stops_at_cons|].
      split_and!; [done..|]. intros Hn. rewrite (Hsc2 Hn), (Hsc eq_refl), <- app_assoc.
      by destruct (child_search_scope node crumbs).
Qed.

Lemma process_page_examined self l nodes partial crumbs :
  examined self l [] -> stop_reason l = None ->
  let '(self', r) := process_page self nodes partial crumbs in
  let t := map (pair crumbs) nodes in
  exists k, stops_at l t k /\
  let l' := l ++ take k t in
  examined self' l' (stop_completions l') /\ r = Ok (step_of l') /\
  (stop_reason l' = None ->
   scopes self' = scopes self ++ omap (fun node => child_search_scope node crumbs) nodes).
Proof.
  intros Hex Hl. pose proof (process_nodes_examined crumbs nodes self l Hex Hl) as H.
  unfold LiveSearch.process_page. destruct (process_nodes self nodes crumbs) as [self1 r1].
  destruct H as (k & Hk & Hex1 & -> & Hsc). unfold step_of in *.
  destruct (stop_reason (l ++ take k (map (pair crumbs) nodes))) eqn:Hstop.
  - exists k. by rewrite Hstop.
  - rewrite send_open by apply Hex1. exists k. rewrite Hstop. split; [done|].
    destruct Hex1 as [E1 E2 E3 E4]. split_and!; [|done|done].
    split; simpl; [done|done| |]; rewrite omap_app; simpl; by rewrite app_nil_r.
Qed.

Lemma stops_at_prefix l t u k :
  stops_at l t k -> stop_reason (l ++ take k t) <> None -> stops_at l (t ++ u) k.
Proof.
  intros (H1 & H2 & H3) Hs. split_and!; [rewrite length_app; lia| |].
  - intros j Hj. rewrite take_app_le by lia. by apply H2.
  - rewrite take_app_le by lia. by intros.
Qed.

Definition expandable (l : list found) : list Opc.BrowseNode :=
  List.filter (fun node => is_expandable (Opc.node_kind node)) (map snd l).

Lemma children_parents crumbs nodes :
  map parent_node_key (omap (fun node => child_search_scope node crumbs) nodes) =
  map (fun node => Some (Opc.node_key node)) (expandable (map (pair crumbs) nodes)).
Proof.
  unfold expandable. rewrite map_map. simpl. rewrite map_id.
  induction nodes as [|node nodes IH]; simpl; [done|]. unfold child_search_scope at 1.
  destruct (is_expandable (Opc.node_kind node)); simpl; [by f_equal|done].
Qed.

Lemma expandable_app l k : expandable (l ++ k) = expandable l ++ expandable k.
Proof. unfold expandable. by rewrite map_app, List.filter_app. Qed.

(** The scopes whose first page was asked for. *)
Definition asked_parents (calls : list BrowseCall) : list (option string) :=
  map call_parent (List.filter first_page calls).

(** A page that names a continuation has a node. *)
Definition progresses (answer : result Opc.BrowsePage Status) : Prop :=
  match answer with
  | Ok page => is_some (Opc.page_next_page_token page) = true -> Opc.page_nodes page <> []
  | Err _ => True
  end.

(** How a run ends that examined [l'] of [t] and sent [completions], when [parents] and
    the expandable nodes of [t] are what it has to ask for, and [queue] scopes wait. *)
Definition ends (answers : list (result Opc.BrowsePage Status)) (run : SearchRun) (l' t : list found)
    (parents : list (option string)) (queue : nat)
    (completions : list (result Proto.SearchCompleted Status)) : Prop :=
  match run_outcome run with
  | None =>
      stop_reason l' = None /\ completions = [] /\ forallb is_ok answers = true /\
      length (run_calls run) = S (length answers) /\
      (Forall progresses answers ->
       (length answers <= length t + length (expandable t) + queue)%nat)
  | Some (Err error) => stop_reason l' = None /\ completions = [] /\ In (Err error) answers
  | Some (Ok _) =>
      match stop_reason l' with
      | Some w => completions = [truncated w]
      | None =>
          completions = [completed] /\
          asked_parents (run_calls run) =
          parents ++ map (fun node => Some (Opc.node_key node)) (expandable t)
      end
  end.

(** The parent a request asks for, when it asks for a first page. *)
Definition asked (scope : SearchScope) (page_token : option string) : list (option string) :=
  if is_some page_token then [] else [parent_node_key scope].

Lemma asked_log scope page_token first_page run :
  asked_parents (run_calls (log_call (page_call server session_id scope page_token first_page) run)) =
  asked scope page_token ++ asked_parents (run_calls run).
Proof. by destruct page_token. Qed.

Lemma ends_next page answers run l here t k parents children queue queue' scope page_token first_page
    completions :
  children = map (fun node => Some (Opc.node_key node)) (expandable here) ->
  (progresses (Ok page) -> (S queue' <= length here + length (expandable here) + queue)%nat) ->
  ends answers run ((l ++ here) ++ take k t) t (parents ++ children) queue' completions ->
  ends (Ok page :: answers) (log_call (page_call server session_id scope page_token first_page) run)
    (l ++ take (length here + k) (here ++ t)) (here ++ t) (asked scope page_token ++ parents) queue
    completions.
Proof.
  intros Hch Hq. rewrite take_app_add, app_assoc. unfold ends. rewrite asked_log.
  cbn [log_call run_outcome run_calls length]. rewrite expandable_app, map_app, !length_app.
  destruct (run_outcome run) as [[[]|error]|].
  - destruct (stop_reason _); [done|]. intros [H1 ->]. split; [done|].
    by rewrite Hch, <- !app_assoc.
  - intros (H1 & H2 & H3). split_and!; [done..|by right].
  - intros (H1 & H2 & H3 & H4 & H5). split_and!; [done|done|done|by rewrite H4|].
    intros [Hp Hps]%Forall_cons. specialize (H5 Hps). specialize (Hq Hp). lia.
Qed.

Lemma stops_at_all l t k : stops_at l t k -> stop_reason (l ++ take k t) = None -> take k t = t.
Proof. intros (_ & _ & H) Hs. rewrite (H Hs). apply firstn_all. Qed.

Lemma run_scopes_examined answers : forall self scope page_token l,
  examined self l [] -> stop_reason l = None ->
  let run := run_scopes answers self scope page_token (negb (is_some page_token)) in
  let t := traversal answers scope (scopes self) in
  exists k, stops_at l t k /\
  exists completions, examined (run_context run) (l ++ take k t) completions /\
    ends answers run (l ++ take k t) t (asked scope page_token ++ map parent_node_key (scopes self))
      (length (scopes self)) completions.
Proof.
  induction answers as [|[page|error] answers IH]; intros self scope page_token l Hex Hl; simpl.
  - exists O. simpl. rewrite app_nil_r. split; [apply stops_at_nil|].
    exists []. split_and!; try done. unfold ends. simpl. split_and!; try done. intros _. lia.
  - pose proof (process_page_examined self l (Opc.page_nodes page)
                  (is_some (Opc.page_next_page_token page)) (breadcrumbs scope) Hex Hl) as Hp.
    destruct (process_page self _ _ _) as [self1 r1]. destruct Hp as (k & Hk & Hex1 & -> & Hsc).
    pose proof (children_parents (breadcrumbs scope) (Opc.page_nodes page)) as Hch.
    assert (Hhere : length (map (pair (breadcrumbs scope)) (Opc.page_nodes page)) = length (Opc.page_nodes page))
      by apply length_map.
    set (here := map (pair (breadcrumbs scope)) (Opc.page_nodes page)) in *.
    unfold step_of, stop_completions in *. destruct (stop_reason (l ++ take k here)) as [w|] eqn:Hstop.
    + exists k. set (u := match Opc.page_next_page_token page with Some _ => _ | None => _ end).
      pose proof (stops_at_prefix l here u k Hk ltac:(by rewrite Hstop)) as Hk'.
      destruct Hk as (Hk & _). split; [exact Hk'|]. exists [truncated w].
      rewrite take_app_le by done. split; [done|]. unfold ends. simpl. by rewrite Hstop.
    + pose proof (stops_at_all _ _ _ Hk Hstop) as Hall.
      destruct Hk as (Hk1 & Hk2 & Hk3). pose proof (Hk3 Hstop) as ->.
      rewrite Hall in *. rewrite <- (Hsc eq_refl).
      assert (Hsplit : forall u k', stops_at (l ++ here) u k' -> stops_at l (here ++ u) (length here + k')).
      { intros u k' Hu. apply stops_at_app; [done|by split_and!|done|done]. }
      assert (Hparents : map parent_node_key (scopes self1) =
                         map parent_node_key (scopes self) ++
                         map (fun node => Some (Opc.node_key node)) (expandable here)).
      { by rewrite (Hsc eq_refl), map_app, Hch. }
      assert (Hlen : length (scopes self1) = (length (scopes self) + length (expandable here))%nat).
      { rewrite <- (length_map parent_node_key), Hparents, length_app, !length_map. done. }
      assert (Hnext : forall k' t,
        (l ++ here) ++ take k' t = l ++ take (length here + k') (here ++ t)).
      { intros. by rewrite take_app_add, app_assoc. }
      destruct (Opc.page_next_page_token page) as [token|] eqn:Htoken.
      * destruct (IH self1 scope (Some token) (l ++ here) Hex1 Hstop)
          as (k' & Hk' & completions & Hex2 & Hends).
        exists (length here + k')%nat. split; [by apply Hsplit|]. exists completions.
        split; [by rewrite <- Hnext|].
        eapply ends_next; [reflexivity| |simpl asked in Hends; rewrite Hparents in Hends; exact Hends].
        intros Hp. simpl in Hp. rewrite Htoken in Hp. specialize (Hp eq_refl).
        rewrite Hlen, Hhere. destruct (Opc.page_nodes page); [done|simpl; lia].
      * destruct (scopes self1) as [|next rest] eqn:Hqueue.
        -- rewrite (send_search_completion_open true false None _ (examined_room _ _ _ Hex1)).
           exists (length here + 0)%nat. split; [by apply Hsplit, stops_at_nil|]. exists [completed].
           rewrite <- Hnext. simpl take. rewrite app_nil_r. split.
           ++ destruct Hex1 as [E1 E2 E3 E4].
              split; simpl; [done|done| |]; rewrite omap_app; simpl; [by rewrite app_nil_r|by rewrite E4].
           ++ unfold ends. rewrite asked_log. simpl. rewrite Hstop. split; [done|].
              simpl in Hparents. symmetry in Hparents. apply app_nil in Hparents as [P1 P2].
              by rewrite (app_nil_r here), P1, P2, !app_nil_r.
        -- destruct (IH (mk_context (state self1) rest (tx self1)) next None (l ++ here)
                       ltac:(by destruct Hex1; split) Hstop) as (k' & Hk' & completions & Hex2 & Hends).
           exists (length here + k')%nat. split; [by apply Hsplit|]. exists completions.
           split; [by rewrite <- Hnext|].
           eapply ends_next; [reflexivity| |rewrite <- Hparents; exact Hends].
           intros _. simpl in Hlen |- *. lia.
  - exists O. simpl. rewrite app_nil_r. split; [apply stops_at_nil|].
    exists []. split_and!; try done. unfold ends. simpl. split_and!; try done. by left.
Qed.
End Run.

Lemma validated `{TextLibrary} request mode max_results :
  0 <= Proto.request_max_results request ->
  validate_search request = Ok (mode, max_results) -> 0 < max_results <= 1000.
Proof.
  unfold validate_search, DEFAULT_SEARCH_RESULTS, MAX_SEARCH_RESULTS. intros H0.
  destruct (normalize_query _); [done|]. destruct (search_mode _) as [m|]; simpl; [|done].
  bool_cases; intros; simplify_eq; lia.
Qed.

Definition root_scope (request : Proto.SearchRequest) : SearchScope :=
  {| parent_node_key := Proto.request_scope_node_key request;
     breadcrumbs :=
       match Proto.request_scope_node_key request with
       | Some node_key => [{| Proto.crumb_node_key := node_key; Proto.crumb_display_name := [] |}]
       | None => []
       end;
     refresh := Proto.request_refresh request |}.

(** C29: a validated search whose receiver takes every event examines a prefix of the
    breadth-first traversal of the answered pages, and stops exactly at the first node that
    reaches the result or the visit limit (50,000). The matches it sends are the nodes of
    that prefix that satisfy the query, the first for each ItemID, in order and with
    their path. It ends with a truncated completion at a limit, with the error of the
    browse request that failed, or with a complete one; then every expandable node it
    examined was asked for, in order and after the scope of the request. A search that
    still waits has examined every answered page and, when pages with a continuation are
    not empty, asked for fewer than 100,000. A temporary session is closed exactly when the
    search returned. *)
Theorem live_search_reference `{TextLibrary} server session_id request mode max_results temporary answers
    (Hrequest : in_uint 32 (Proto.request_max_results request))
    (Hvalid : validate_search request = Ok (mode, max_results)) :
  let t := traversal answers (root_scope request) [] in
  let '(run, closed) :=
    run_search server session_id request mode max_results temporary answers (mk_channel [] None) in
  let events := sent (tx (run_context run)) in
  exists k,
    let l := take k t in
    (k <= length t)%nat /\
    visited_nodes (state (run_context run)) = Z.of_nat k /\
    omap match_of events = map hit_event (hits request mode l) /\
    (forall j, (j < k)%nat -> stop_reason request mode max_results (take j t) = None) /\
    match run_outcome run with
    | None =>
        k = length t /\ stop_reason request mode max_results l = None /\
        omap completion_of events = [] /\ closed = None /\
        length (run_calls run) = S (length answers) /\ forallb is_ok answers = true /\
        (Forall progresses answers -> Z.of_nat (length answers) < 100000)
    | Some r =>
        closed = (if temporary then Some session_id else None) /\
        match r with
        | Err error =>
            k = length t /\ stop_reason request mode max_results l = None /\
            omap completion_of events = [Err error] /\ In (Err error) answers
        | Ok _ =>
            match stop_reason request mode max_results l with
            | Some warning => omap completion_of events = [truncated warning]
            | None =>
                k = length t /\ omap completion_of events = [completed] /\
                asked_parents (run_calls run) =
                Proto.request_scope_node_key request
                :: map (fun node => Some (Opc.node_key node)) (expandable t)
            end
        end
    end.
Proof.
  pose proof (validated _ _ _ (proj1 Hrequest) Hvalid) as Hmax. intros t.
  unfold run_search, run_search_inner. rewrite send_open by done. simpl negb. cbv iota.
  change (initial_search_scopes request) with [root_scope request]. cbv iota.
  set (self := mk_context default_state [] _).
  pose proof (stop_reason_nil request mode max_results Hmax) as Hnil.
  destruct (run_scopes_examined server session_id request mode max_results Hmax answers self
              (root_scope request) None [] ltac:(by split) Hnil)
    as (k & (Hk & Hbefore & Hafter) & completions & [E1 E2 E3 E4] & Hends).
  change (scopes self) with (@nil SearchScope) in *. simpl in Hends.
  fold t in Hk, Hbefore, Hafter, E1, E3, Hends.
  set (run := run_scopes _ _ _ _ _ _ _ _ _ _) in *. simpl app in *.
  assert (Hbound : stop_reason request mode max_results (take k t) = None -> Z.of_nat (length t) < 50000).
  { intros Hs. pose proof (Hafter Hs). subst k.
    apply stop_reason_none in Hs as [_ Hs]. by rewrite firstn_all in Hs. }
  assert (Hexp : (length (expandable t) <= length t)%nat).
  { unfold expandable. etransitivity; [apply List.filter_length_le|by rewrite length_map]. }
  clearbody run t. unfold ends in Hends.
  destruct (run_outcome run) as [[[]|error]|] eqn:Hout; cbn [run_context state tx run_outcome run_calls];
    exists k; rewrite E1; (split; [done|]);
    (split; [unfold state_after; cbn [visited_nodes]; rewrite length_take; lia|]).
  - split; [done|]. split; [done|]. split; [done|]. rewrite E4.
    destruct (stop_reason _ _ _ (take k t)) eqn:Hs; [by rewrite Hends|]. destruct Hends as [-> Hc].
    split_and!; [by apply Hafter|done|done].
  - destruct Hends as (Hs & -> & Hin). unfold send. rewrite E2. cbn [fst sent].
    rewrite !omap_app, E3, E4. simpl. rewrite app_nil_r.
    split_and!; first [done|by apply Hafter].
  - destruct Hends as (Hs & -> & Hok & Hcalls & Hlen).
    rewrite Hout. split_and!; try first [done|by apply Hafter]. intros Hp.
    specialize (Hbound Hs). specialize (Hlen Hp). simpl in Hlen. lia.
Qed.

(** ** A search in a namespace of two levels *)

Definition demo_request : Proto.SearchRequest :=
  {| Proto.request_server := "plc"; Proto.request_query := [80; 86]; Proto.request_match_mode := 2;
     Proto.request_session_id := None; Proto.request_scope_node_key := None;
     Proto.request_max_results := 0; Proto.request_include_branches := false;
     Proto.request_refresh := true |}.
Definition demo_node (key : string) (name : ustr) (kind : Opc.BrowseNodeKind) (item : option ustr) :
    Opc.BrowseNode :=
  {| Opc.node_key := key; Opc.node_display_name := name; Opc.node_kind := kind; Opc.node_item_id := item |}.
Definition demo_answer (nodes : list Opc.BrowseNode) (token : option string) :
    result Opc.BrowsePage Status :=
  Ok {| Opc.page_nodes := nodes; Opc.page_next_page_token := token;
        Opc.page_complete := negb (is_some token); Opc.page_organization := OrgHierarchical;
        Opc.page_source := SourceDa3; Opc.page_warning := None |}.
Definition demo_answers : list (result Opc.BrowsePage Status) :=
  [ demo_answer [demo_node "a" [65] NodeBranch None; demo_node "x" [80; 86] NodeItem (Some [1])]
      (Some "more"%string);
    demo_answer [demo_node "y" [80; 86; 49] NodeItem (Some [2])] None;
    demo_answer [demo_node "z" [80; 86; 50] NodeItem (Some [1]); demo_node "w" [80; 86; 51] NodeItem (Some [3])]
      None ].

Lemma live_search_reference_witness :
  let '(run, closed) :=
    run_search "plc" "s" demo_request SEARCH_MATCH_MODE_PREFIX 200 true demo_answers (mk_channel [] None) in
  omap (fun m => Proto.match_node m ≫= Proto.node_item_id) (omap match_of (sent (tx (run_context run)))) =
  [[1]; [2]; [3]] /\
  asked_parents (run_calls run) = [None; Some "a"%string] /\ closed = Some "s"%string.
Proof.
  pose proof (live_search_reference (H := ascii_text) "plc" "s" demo_request SEARCH_MATCH_MODE_PREFIX 200
                true demo_answers ltac:(by vm_compute) ltac:(vm_compute; reflexivity)) as Hthm.
  cbv zeta in Hthm. revert Hthm.
  destruct (run_search _ _ _ _ _ _ _ _) as [run closed] eqn:E. intros (k & Hk & _ & Hm & Hstop & Hend).
  assert (Hout : run_outcome run = Some (Ok tt)).
  { change (run_outcome (run, closed).1 = Some (Ok tt)). rewrite <- E. vm_compute. reflexivity. }
  rewrite Hout in Hend. destruct Hend as [Hclosed Hend].
  destruct (stop_reason _ _ _ _) eqn:Hs.
  - exfalso. revert Hs. change (k <= 5)%nat in Hk.
    do 6 (destruct k as [|k]; [vm_compute; discriminate|]). lia.
  - destruct Hend as (-> & Hc & Ha). rewrite Hm, Ha, Hclosed. split_and!; vm_compute; reflexivity.
Defined.
