(* ===== verification/Service.v ===== *)
(** * Requests for the index and their errors (server/service.rs, server/map.rs, client.rs)

    The handlers of [control_search_index] and [refresh_search_index] with the manager's
    admission, the statuses they answer with, and the errors the client library makes of
    them. [debug] is the [Debug] format of a server name, the same function in both
    programs. The answers of the client of the gateway, failures of the database and the
    status read at the end are inputs. *)
From S2P Require Import Prelude Text Rpc Proto Api Compat TopK Schedule Controller Config Opc Store StoreSpec Browse Query Status Wire Manager.

Section Service.
Context `{TextLibrary}.
Context (settings : ResolvedIndexConfig).
Context (debug : string -> string).

Definition about_server (before server after : string) : string :=
  String.append before (String.append (debug server) after).

Definition internal (error : string) : Rpc.Status := mk_status Rpc.Internal error.

Definition index_error (error : IndexOperationError) : Rpc.Status :=
  match error with
  | UnknownServer server =>
      mk_status InvalidArgument (about_server "OPC DA server " server " is not registered")
  | NotEnrolled server =>
      mk_status NotFound (about_server "namespace index for OPC DA server " server " is not enrolled")
  | IsDeleting server =>
      mk_status FailedPrecondition
        (about_server "namespace index for OPC DA server " server " is being deleted")
  | Manager.Internal error => internal error
  end.

(** ** [IndexManager::control] and [refresh] *)

Definition with_status (status_read : result IndexStatus string) (m : Manager)
    (r : result unit IndexOperationError) : Manager * result IndexStatus IndexOperationError :=
  (m, let? _ := r in map_err Manager.Internal status_read).

Definition control (server : string) (action : IndexControlAction) (now instant_now : Z)
    (db_error write_error : option string) (status_read : result IndexStatus string) (m : Manager) :
    Manager * result IndexStatus IndexOperationError :=
  match action with
  | EnableAutoRefresh =>
      let '(m, r) := change_auto_refresh server true now db_error m in with_status status_read m r
  | DisableAutoRefresh =>
      let '(m, r) := change_auto_refresh server false now db_error m in with_status status_read m r
  | DeleteIndex =>
      let '(m, r) := delete_admission server db_error m in
      with_status status_read m (let? _ := r in Ok tt)
  | Pause | Resume | Cancel =>
      match let? _ := reject_if_deleting server m in require_enrollment server db_error m with
      | Err error => (m, Err error)
      | Ok _ =>
          let '(m, r) := control_action settings server action now instant_now write_error m in
          with_status status_read m (map_err Manager.Internal r)
      end
  end.

(** [refreshed] is the outcome of [refresh_enrolled]. *)
Definition refresh_request (server : string) (listed : result (list string) string) (now : Z)
    (db_error : option string) (refreshed : result IndexStatus string) (m : Manager) :
    Manager * result IndexStatus IndexOperationError :=
  let '(m, r) := refresh_admission server listed now db_error m in
  with_status refreshed m r.

(** ** The handlers *)

Definition control_action_of (action : Proto.SearchIndexControlAction) : option IndexControlAction :=
  match action with
  | SEARCH_INDEX_CONTROL_ACTION_PAUSE => Some Pause
  | SEARCH_INDEX_CONTROL_ACTION_RESUME => Some Resume
  | SEARCH_INDEX_CONTROL_ACTION_CANCEL => Some Cancel
  | SEARCH_INDEX_CONTROL_ACTION_ENABLE_AUTO_REFRESH => Some EnableAutoRefresh
  | SEARCH_INDEX_CONTROL_ACTION_DISABLE_AUTO_REFRESH => Some DisableAutoRefresh
  | SEARCH_INDEX_CONTROL_ACTION_DELETE => Some DeleteIndex
  | SEARCH_INDEX_CONTROL_ACTION_UNSPECIFIED => None
  end.

Definition control_search_index (server : string) (number : Z) (now instant_now : Z)
    (db_error write_error : option string) (status_read status_again : result IndexStatus string)
    (m : Manager) : Manager * result Proto.SearchIndexStatus Rpc.Status :=
  match search_index_control_action_of_i32 number with
  | None => (m, Err (mk_status InvalidArgument "unknown index control action"))
  | Some action =>
      match control_action_of action with
      | None => (m, Err (mk_status InvalidArgument "index control action is required"))
      | Some action =>
          let '(m, r) := control server action now instant_now db_error write_error status_read m in
          (m,
           let? _ := map_err index_error r in
           let? status := map_err internal status_again in
           Ok (map_index_status status))
      end
  end.

Definition refresh_search_index (server : string) (listed : result (list string) string) (now : Z)
    (db_error : option string) (refreshed : result IndexStatus string) (m : Manager) :
    Manager * result Proto.SearchIndexStatus Rpc.Status :=
  let '(m, r) := refresh_request server listed now db_error refreshed m in
  (m, let? status := map_err index_error r in Ok (map_index_status status)).

(** ** The client *)

Definition feature_error (operation : string) (status : Rpc.Status) : Error :=
  match code status with
  | Unimplemented => IncompatibleGateway operation
  | _ => RpcError status
  end.

Definition index_operation_error (operation server : string) (status : Rpc.Status) : Error :=
  match code status with
  | Unimplemented => IncompatibleGateway operation
  | InvalidArgument => UnknownIndexServer server
  | NotFound => IndexNotEnrolled server
  | FailedPrecondition =>
      if String.eqb (message status)
           (about_server "namespace index for OPC DA server " server " is being deleted")
      then IndexDeleting server else RpcError status
  | _ => RpcError status
  end.

(** [Client::control_search_index] and [refresh_search_index], given the gateway's answer. *)
Definition client_answer (operation server : string) (answer : result Proto.SearchIndexStatus Rpc.Status) :
    result Api.SearchIndexStatus Error :=
  let? status := map_err (index_operation_error operation server) answer in
  search_index_status status.

(** ** Validation of [search_index] *)

Definition mode_name (mode : SearchMode) : string :=
  match mode with
  | ModeUnspecified => "Unspecified"
  | ModeExact => "Exact"
  | ModePrefix => "Prefix"
  | ModeContains => "Contains"
  end.

Definition validate_search_index (match_mode : Z) (query : ustr) : result SearchMode Rpc.Status :=
  let? mode := ok_or (search_mode match_mode) (mk_status InvalidArgument "unknown search match mode") in
  let mode := match mode with ModeUnspecified => ModeContains | mode => mode end in
  match normalize_query query with
  | [] => Err (mk_status InvalidArgument "search query must not be empty")
  | normalized =>
      let minimum := match mode with ModeExact | ModePrefix => 2 | _ => 3 end in
      if Z.of_nat (length normalized) <? minimum
      then
        Err (mk_status InvalidArgument
               (String.append "indexed "
                  (String.append (mode_name mode)
                     (String.append " searches require at least "
                        (String.append (to_decimal minimum) " characters")))))
      else Ok mode
  end.

(** ** The handlers that pass a call on, given the answer of the part they ask *)

(** [search_index], with the answers of [IndexManager::search] in each mode *)
Definition search_index (match_mode : Z) (query : ustr)
    (found : SearchMode -> result (list IndexedMatch * bool * IndexStatus) string) :
    result Proto.SearchIndexResponse Rpc.Status :=
  let? mode := validate_search_index match_mode query in
  let? result := map_err internal (found mode) in
  let '(matches, has_more, status) := result in
  Ok (map_search_result matches has_more status).
Definition get_search_index_status (status : result IndexStatus string) :
    result Proto.SearchIndexStatus Rpc.Status :=
  let? status := map_err internal status in Ok (map_index_status status).
(** [list_servers], with the answers of the OPC client for each host *)
Definition list_servers (host : string) (listed : string -> result (list string) string) :
    result (list string) Rpc.Status :=
  map_err internal (listed (resolve_host host)).
(** The handler [close_browse_session] of the service *)
Definition close_session_reply (closed : result unit Rpc.Status) : result unit Rpc.Status :=
  let? _ := closed in Ok tt.
End Service.
