(* ===== verification/ServiceSpec.v ===== *)
(** * What a client learns of a failed index request

    Each refusal of the manager reaches the client library as the error that means it, the
    manager is then unchanged, and every other failure is an internal error with its
    cause. *)
From S2P Require Import Prelude Text Rpc Proto Api Compat TopK Schedule Controller Config Opc Store StoreSpec Browse Query Status Wire WireSpec Manager Service.

Section Errors.
Context `{TextLibrary}.
Context (settings : ResolvedIndexConfig).
Context (debug : string -> string).

(** ** The refusals *)

Definition enrolled (server : string) (m : Manager) : bool := is_enrolled (database m) server.

Definition control_refusal (server : string) (action : IndexControlAction) (db_error : option string)
    (m : Manager) : option IndexOperationError :=
  if bool_decide (server ∈ deleting m) then Some (IsDeleting server)
  else
    match db_error, action with
    | Some _, _ | None, DeleteIndex => None
    | None, _ => if enrolled server m then None else Some (NotEnrolled server)
    end.

Definition refresh_refusal (server : string) (listed : result (list string) string)
    (db_error : option string) (m : Manager) : option IndexOperationError :=
  if bool_decide (server ∈ deleting m) then Some (IsDeleting server)
  else
    match db_error, listed with
    | None, Ok servers =>
        if enrolled server m || bool_decide (server ∈ servers) then None
        else Some (UnknownServer server)
    | _, _ => None
    end.

(** The client's error for a refusal. *)
Definition refusal_error (error : IndexOperationError) : Error :=
  match error with
  | UnknownServer server => UnknownIndexServer server
  | NotEnrolled server => IndexNotEnrolled server
  | IsDeleting server => IndexDeleting server
  | Manager.Internal error => RpcError (mk_status Rpc.Internal error)
  end.

Definition cause {A} (r : result A string) : list string :=
  match r with Err error => [error] | Ok _ => [] end.

(** ** The way of an error *)

Definition names (server : string) (error : IndexOperationError) : Prop :=
  match error with
  | UnknownServer s | NotEnrolled s | IsDeleting s => s = server
  | Manager.Internal _ => True
  end.

Lemma error_reaches_client operation server error :
  names server error ->
  index_operation_error debug operation server (index_error debug error) = refusal_error error.
Proof.
  destruct error; simpl; intros; subst; try done.
  unfold index_operation_error. simpl. by rewrite String.eqb_refl.
Qed.

Lemma auto_refresh_changed db server enabled now :
  (set_auto_refresh db server enabled now).2 = is_enrolled db server.
Proof.
  unfold set_auto_refresh, is_enrolled, enrollment. by destruct (enrolled_servers db !! server).
Qed.

(** The outcome of a request of the manager: its refusal and nothing changed, or an
    internal error with one of the causes, or the status read. *)
Definition outcome (m m' : Manager) (refusal : option IndexOperationError) (causes : list string)
    (status_read : result IndexStatus string) (r : result IndexStatus IndexOperationError) : Prop :=
  match refusal with
  | Some error => r = Err error /\ m' = m
  | None =>
      match r with
      | Err error => exists message, error = Manager.Internal message /\ In message (causes ++ cause status_read)
      | Ok s => status_read = Ok s
      end
  end.

Lemma status_outcome m m' causes status_read :
  outcome m m' None causes status_read (map_err Manager.Internal status_read).
Proof.
  destruct status_read as [s|error]; [done|]. exists error. split; [done|].
  apply in_or_app. right. by left.
Qed.

Definition overflow : string := "operator cancellation deadline overflow".
Definition shutting_down_error : string := "gateway is shutting down".

Lemma control_action_error server action now instant_now write_error m m' error :
  control_action settings server action now instant_now write_error m = (m', Err error) ->
  In error (overflow :: option_list write_error).
Proof.
  unfold control_action, apply_control_action, cancellation_deadline.
  destruct (runtime m !! server) as [state|]; [|by destruct action].
  destruct (build state) as [b|]; [|by destruct action].
  destruct action; try done.
  destruct (operator_cancelled_until b); simpl.
  - destruct write_error; [|done]. intros [= _ <-]. right. by left.
  - destruct (system_time_checked_add _ _); simpl; [|intros [= _ <-]; by left].
    destruct write_error; [|done]. intros [= _ <-]. right. by left.
Qed.

Lemma control_outcome server action now instant_now db_error write_error status_read m :
  let '(m', r) := control settings server action now instant_now db_error write_error status_read m in
  outcome m m' (control_refusal server action db_error m)
    (option_list db_error ++ overflow :: option_list write_error ++ [shutting_down_error]) status_read r.
Proof.
  set (causes := option_list db_error ++ _).
  assert (Hdb : forall error, db_error = Some error -> In error causes) by (intros ? ->; by left).
  assert (Hcauses : forall error, In error (overflow :: option_list write_error ++ [shutting_down_error]) -> In error causes).
  { intros. apply in_or_app. by right. }
  clearbody causes.
  destruct action; simpl.
  1-3: unfold require_enrollment, reject_if_deleting, control_refusal, database_access, enrolled;
    case_bool_decide; [done|]; simpl; destruct db_error as [error|]; simpl;
    [exists error; split; [done|apply in_or_app; auto]|];
    destruct (is_enrolled (database m) server); simpl; [|done];
    destruct (control_action _ _ _ _ _ _ _) as [m' [[]|error]] eqn:E;
    [apply (status_outcome m m)|exists error; split; [done|]; apply in_or_app; left];
    apply Hcauses; apply control_action_error in E as [<-|E]; [by left|right; apply in_or_app; by left].
  1-2: unfold change_auto_refresh, reject_if_deleting, control_refusal, enrolled;
    case_bool_decide; [done|]; simpl; destruct db_error as [error|];
    [exists error; split; [done|apply in_or_app; auto]|];
    match goal with |- context [set_auto_refresh _ _ ?e _] =>
      rewrite <- (auto_refresh_changed (database m) server e (timestamp_now now)) end;
    destruct (set_auto_refresh _ _ _ _) as [db []]; simpl; [apply (status_outcome m m)|done].
  unfold delete_admission, reject_if_deleting, control_refusal, database_access, reserve_deletion,
    spawn_deletion. case_bool_decide; [done|]. simpl.
  destruct db_error as [error|]; [exists error; split; [done|apply in_or_app; auto]|].
  destruct (is_enrolled (database m) server); [|apply (status_outcome m m)].
  cbn [shutting_down set_deletions]. destruct (shutting_down m); simpl.
  - exists shutting_down_error. split; [done|]. apply in_or_app. left. apply Hcauses.
    right. apply in_or_app. right. by left.
  - apply (status_outcome m m).
Qed.

Lemma refresh_outcome server listed now db_error refreshed m :
  let '(m', r) := refresh_request server listed now db_error refreshed m in
  outcome m m' (refresh_refusal server listed db_error m) (option_list db_error ++ cause listed) refreshed r.
Proof.
  set (causes := option_list db_error ++ _).
  assert (Hdb : forall error, db_error = Some error -> In error causes) by (intros ? ->; by left).
  assert (Hlisted : forall error, listed = Err error -> In error causes).
  { intros ? ->. apply in_or_app. right. by left. }
  clearbody causes.
  unfold refresh_request, refresh_admission, refresh_refusal, reject_if_deleting, enrolled.
  case_bool_decide; [done|]. simpl. destruct db_error as [error|]; simpl.
  { exists error. split; [done|]. apply in_or_app. auto. }
  destruct (is_enrolled (database m) server); simpl.
  { destruct listed; apply (status_outcome m m). }
  destruct listed as [servers|error]; simpl.
  - case_bool_decide; simpl; [apply (status_outcome m m)|done].
  - exists error. split; [done|]. apply in_or_app. auto.
Qed.

Lemma refusal_names server action db_error m error :
  control_refusal server action db_error m = Some error -> names server error.
Proof.
  unfold control_refusal. case_bool_decide; [by intros [= <-]|].
  destruct db_error, action; try done; destruct (enrolled server m); by intros [= <-].
Qed.

Lemma refresh_refusal_names server listed db_error m error :
  refresh_refusal server listed db_error m = Some error -> names server error.
Proof.
  unfold refresh_refusal. case_bool_decide; [by intros [= <-]|].
  destruct db_error, listed; try done. destruct (_ || _); by intros [= <-].
Qed.

Lemma action_number_read action :
  search_index_control_action_of_i32 (action_number action) =
  Some match action with
       | PauseAction => SEARCH_INDEX_CONTROL_ACTION_PAUSE
       | ResumeAction => SEARCH_INDEX_CONTROL_ACTION_RESUME
       | CancelAction => SEARCH_INDEX_CONTROL_ACTION_CANCEL
       | EnableAutoRefreshAction => SEARCH_INDEX_CONTROL_ACTION_ENABLE_AUTO_REFRESH
       | DisableAutoRefreshAction => SEARCH_INDEX_CONTROL_ACTION_DISABLE_AUTO_REFRESH
       | DeleteAction => SEARCH_INDEX_CONTROL_ACTION_DELETE
       end.
Proof. by destruct action. Qed.

(** What the client reports, and that a refused request changed nothing. *)
Definition reported (m m' : Manager) (refusal : option IndexOperationError) (causes : list string)
    (status_read : result IndexStatus string) (reply : result Api.SearchIndexStatus Error) : Prop :=
  match refusal with
  | Some error => reply = Err (refusal_error error) /\ m' = m
  | None =>
      match reply with
      | Err error =>
          exists message, error = RpcError (mk_status Rpc.Internal message) /\ In message causes
      | Ok v => exists s, status_read = Ok s /\ status_of v = shown s
      end
  end.

Lemma outcome_reported operation server m m' refusal causes status_read status_again r :
  outcome m m' refusal causes status_read r ->
  (forall error, refusal = Some error -> names server error) ->
  let answer :=
    let? _ := map_err (index_error debug) r in
    let? status := map_err internal status_again in
    Ok (map_index_status status) in
  reported m m' refusal (causes ++ cause status_read ++ cause status_again) status_again
    (client_answer debug operation server answer).
Proof.
  intros Ho Hn. unfold reported, client_answer. destruct refusal as [error|]; simpl in Ho.
  - destruct Ho as [-> ->]. simpl. by rewrite error_reaches_client by auto.
  - destruct r as [s|error]; simpl.
    + destruct status_again as [s'|error]; simpl.
      * destruct (status_reaches s') as (v & -> & _ & Hv). eauto.
      * exists error. split; [done|]. rewrite !in_app_iff. simpl. auto.
    + destruct Ho as (message & -> & Hin). simpl. exists message. split; [done|].
      rewrite app_assoc. apply in_or_app. by left.
Qed.

(** A control request or a refresh is refused exactly when the index is being
    deleted, the server is not enrolled (unless it is to be deleted), or, for the first
    refresh, the OPC client does not list the server; the client library then reports
    precisely that ([IndexDeleting], [IndexNotEnrolled], [UnknownIndexServer], with the
    name it asked for) and the manager is unchanged. Every other failure is an internal
    error with the message of its cause, and a success is the status the gateway read. *)
Theorem index_errors_reach_client operation server action listed now instant_now db_error write_error
    status_read status_again m :
  (let '(m', answer) :=
     control_search_index settings debug server (action_number action) now instant_now db_error
       write_error status_read status_again m in
   exists manager_action,
     search_index_control_action_of_i32 (action_number action) ≫= control_action_of = Some manager_action /\
     reported m m' (control_refusal server manager_action db_error m)
       ((option_list db_error ++ overflow :: option_list write_error ++ [shutting_down_error])
        ++ cause status_read ++ cause status_again)
       status_again (client_answer debug operation server answer)) /\
  (let '(m', answer) := refresh_search_index debug server listed now db_error status_again m in
   reported m m' (refresh_refusal server listed db_error m)
     (option_list db_error ++ cause listed ++ cause status_again) status_again
     (client_answer debug operation server answer)).
Proof.
  split.
  - unfold control_search_index. rewrite action_number_read.
    destruct (control_action_of _) as [manager_action|] eqn:Ha; [|by destruct action].
    pose proof (control_outcome server manager_action now instant_now db_error write_error status_read m) as Ho.
    destruct (control _ _ _ _ _ _ _ _ _) as [m' r]. exists manager_action. split; [done|].
    eapply outcome_reported; [exact Ho|]. intros. by eapply refusal_names.
  - pose proof (refresh_outcome server listed now db_error status_again m) as Ho.
    unfold refresh_search_index. destruct (refresh_request _ _ _ _ _ _) as [m' r].
    unfold outcome in Ho. unfold reported, client_answer.
    destruct (refresh_refusal server listed db_error m) as [error|] eqn:Hr.
    + destruct Ho as [-> ->]. simpl. by rewrite error_reaches_client by by eapply refresh_refusal_names.
    + destruct r as [s|error]; simpl.
      * destruct (status_reaches s) as (v & -> & _ & Hv). eauto.
      * destruct Ho as (message & -> & Hin). simpl. exists message. split; [done|].
        by rewrite <- app_assoc in Hin.
Qed.
End Errors.
