(* ===== verification/CleanupWorker.v ===== *)
(** * The cleanup worker and the background tasks (index/scheduler.rs)

    A request for the cleanup of a server enters a registry and starts the one worker of
    the database when none is active; the worker serves one server until nothing asks for
    it again, and its guard starts the next. Requests, workers, other background tasks
    and the shutdown interleave: one step is one critical section or one access of the
    flag. The outcome of an attempt (finished, deferred, failed) and the wake-up of a
    deferred one are inputs; [asked] is a ghost: the servers asked for since the last attempt
    for them began. A request made inside a background task is a thread of its own, which
    allows more orders than the code has. *)
From S2P Require Import Prelude Text Store StoreWf Cleanup.

Inductive Pc :=
(* schedule_cleanup *)
| Requesting (server : string)
| CheckingShutdown
(* spawn_cleanup_worker_if_idle *)
| Swapping
| Picking
| Releasing
| Launching (server : string)
| Rejected
(* run_scheduled_cleanup *)
| ShouldRun (server : string) (failures : Z)
| Removing (server : string)
| Attempting (server : string) (failures : Z)
| Deferring (server : string) (failures : Z)
| WaitingForBuilds (server : string) (failures : Z)
| Clearing (server : string)
(* the drop of CleanupWorkerGuard, up to spawn_cleanup_worker_if_idle *)
| Dropping
(* another background task; the drop of BackgroundTaskGuard *)
| Background
| Unguarding
| Ended.

(** A thread of control; [guarded] when it is a background task. *)
Record Thread := mk_thread { guarded : bool; pc : Pc }.

Record World := mk_world {
  registry : gmap string CleanupTaskState;
  worker_active : bool;
  shutting_down : bool;
  running_tasks : Z;                        (* BackgroundTaskState::active *)
  threads : gmap nat Thread;
  asked : gset string
}.

Definition initial : World := mk_world ∅ false false 0 ∅ ∅.

Definition set_registry (w : World) (r : gmap string CleanupTaskState) : World :=
  mk_world r (worker_active w) (shutting_down w) (running_tasks w) (threads w) (asked w).
Definition set_active (w : World) (a : bool) : World :=
  mk_world (registry w) a (shutting_down w) (running_tasks w) (threads w) (asked w).
Definition set_running_tasks (w : World) (n : Z) : World :=
  mk_world (registry w) (worker_active w) (shutting_down w) n (threads w) (asked w).
Definition set_asked (w : World) (s : gset string) : World :=
  mk_world (registry w) (worker_active w) (shutting_down w) (running_tasks w) (threads w) s.
Definition set_thread (w : World) (t : nat) (x : Thread) : World :=
  mk_world (registry w) (worker_active w) (shutting_down w) (running_tasks w) (<[t := x]> (threads w))
    (asked w).

Definition task_of (r : gmap string CleanupTaskState) (server : string) : CleanupTaskState :=
  unwrap_or {| running := false; requested := false |} (r !! server).

(** The end of [spawn_cleanup_worker_if_idle] and [schedule_cleanup]: a background task
    still has its guard. *)
Definition leave (g : bool) : Pc := if g then Unguarding else Ended.

(** The registry after a request, and whether a worker should be spawned. *)
Definition request_cleanup (r : gmap string CleanupTaskState) (server : string) :
    gmap string CleanupTaskState * bool :=
  let task := task_of r server in
  (<[server := {| running := running task; requested := true |}]> r, negb (running task)).

(** [BackgroundTasks::spawn]: refused during the shutdown. *)
Definition spawn_task (w : World) (t : nat) (p : Pc) : World * bool :=
  if shutting_down w then (w, false)
  else (set_thread (set_running_tasks w (saturating_add 64 (running_tasks w) 1)) t (mk_thread true p), true).

(** What an attempt ended with. *)
Inductive Outcome := Finished | Deferred | Failed.

(** One step of thread [t] with guard [g], in the program [p], to a world and the next
    program. *)
Inductive thread_step (t : nat) (g : bool) (w : World) : Pc -> World -> Pc -> Prop :=
| step_request server r spawn :
    request_cleanup (registry w) server = (r, spawn) ->
    thread_step t g w (Requesting server)
      (set_asked (set_registry w r) ({[server]} ∪ asked w))
      (if spawn then CheckingShutdown else leave g)
| step_check :
    thread_step t g w CheckingShutdown w (if shutting_down w then leave g else Swapping)
| step_swap :
    thread_step t g w Swapping (set_active w true) (if worker_active w then leave g else Picking)
| step_pick server task :
    registry w !! server = Some task -> requested task = true ->
    thread_step t g w Picking
      (set_registry w (<[server := {| running := true; requested := requested task |}]> (registry w)))
      (Launching server)
| step_pick_none :
    (forall server task, registry w !! server = Some task -> requested task = false) ->
    thread_step t g w Picking w Releasing
| step_release : thread_step t g w Releasing (set_active w false) (leave g)
| step_launch server t' w' :
    t' <> t -> threads w !! t' = None -> spawn_task w t' (ShouldRun server 0) = (w', true) ->
    thread_step t g w (Launching server) w' (leave g)
| step_launch_rejected server t' :
    spawn_task w t' (ShouldRun server 0) = (w, false) ->
    thread_step t g w (Launching server) w Rejected
| step_reject :
    thread_step t g w Rejected
      (set_active (set_registry w (filter (fun kv => running kv.2 = false) (registry w))) false) (leave g)
| step_should_run server failures r go :
    cleanup_task_should_run (registry w) server (shutting_down w) = (r, go) ->
    thread_step t g w (ShouldRun server failures)
      (set_asked (set_registry w r) (asked w ∖ {[server]}))
      (if go then Attempting server failures else Removing server)
| step_remove server :
    thread_step t g w (Removing server) (set_registry w (delete server (registry w))) Dropping
| step_attempt server failures outcome :
    thread_step t g w (Attempting server failures) w
      (match outcome with
       | Finished => Clearing server
       | Deferred => Deferring server failures
       | Failed =>
           match retry_cleanup_after_failure failures (shutting_down w) with
           | (failures, Some _) => ShouldRun server failures
           | (_, None) => Clearing server
           end
       end)
| step_defer server failures :
    thread_step t g w (Deferring server failures)
      (set_registry w
         (alter (fun task => {| running := running task; requested := true |}) server (registry w)))
      (WaitingForBuilds server failures)
| step_retry server failures :
    thread_step t g w (WaitingForBuilds server failures) w (ShouldRun server failures)
| step_return server failures :
    shutting_down w = true ->
    thread_step t g w (WaitingForBuilds server failures) w Dropping
| step_clear server r rerun :
    clear_finished_cleanup_task (registry w) server (shutting_down w) = (r, rerun) ->
    thread_step t g w (Clearing server) (set_registry w r)
      (if rerun then ShouldRun server 0 else Dropping)
| step_drop : thread_step t g w Dropping (set_active w false) Swapping
| step_background : thread_step t g w Background w Unguarding
| step_unguard :
    thread_step t g w Unguarding (set_running_tasks w (saturating_sub (running_tasks w) 1)) Ended.

Inductive step (w : World) : World -> Prop :=
| step_new t server :
    threads w !! t = None -> step w (set_thread w t (mk_thread false (Requesting server)))
| step_spawn t w' ok :
    threads w !! t = None -> spawn_task w t Background = (w', ok) -> step w w'
| step_shutdown :
    step w (mk_world (registry w) (worker_active w) true (running_tasks w) (threads w) (asked w))
| step_thread t g p w' p' :
    threads w !! t = Some (mk_thread g p) -> thread_step t g w p w' p' ->
    step w (set_thread w' t (mk_thread g p')).

Inductive reachable : World -> Prop :=
| reachable_initial : reachable initial
| reachable_step w w' : reachable w -> step w w' -> reachable w'.

(** ** The steps of a run *)

Inductive steps (w : World) : World -> Prop :=
| steps_refl : steps w w
| steps_next w1 w2 : steps w w1 -> step w1 w2 -> steps w w2.

Lemma reachable_steps w w' : reachable w -> steps w w' -> reachable w'.
Proof. induction 2; [done|]. econstructor; eauto. Qed.

(** ** Who holds the worker *)

(** Between the swap of the flag and its release. *)
Definition working (p : Pc) : bool :=
  match p with
  | Picking | Releasing | Launching _ | Rejected | ShouldRun _ _ | Removing _ | Attempting _ _
  | Deferring _ _ | WaitingForBuilds _ _ | Clearing _ | Dropping => true
  | _ => false
  end.

(** The server a worker serves while its entry is marked running. *)
Definition serving (p : Pc) : option string :=
  match p with
  | Launching s | ShouldRun s _ | Attempting s _ | Deferring s _ | WaitingForBuilds s _
  | Clearing s => Some s
  | _ => None
  end.

(** The programs only a background task runs. *)
Definition task_only (p : Pc) : bool :=
  match p with
  | ShouldRun _ _ | Removing _ | Attempting _ _ | Deferring _ _ | WaitingForBuilds _ _ | Clearing _
  | Dropping | Background | Unguarding => true
  | _ => false
  end.

Definition ended (p : Pc) : bool := match p with Ended => true | _ => false end.

(** A background task that still has its guard. *)
Definition live (x : Thread) : bool := guarded x && negb (ended (pc x)).

Definition at_work (m : gmap nat Thread) (t : nat) : Prop :=
  exists x, m !! t = Some x /\ working (pc x) = true.

Definition live_tasks (m : gmap nat Thread) : gmap nat Thread := those live m.

Lemma at_work_insert m t x t' :
  at_work (<[t := x]> m) t' <-> (t' = t /\ working (pc x) = true) \/ (t' <> t /\ at_work m t').
Proof.
  unfold at_work. destruct (decide (t' = t)) as [->|Hne].
  - rewrite lookup_insert_eq. split; [intros (y & [= <-] & ?); auto|].
    intros [[_ ?]|[? _]]; [eauto|done].
  - rewrite lookup_insert_ne by done. naive_solver.
Qed.

(** At most one thread is at work, and the flag tells whether there is one. *)
Definition holder (active : bool) (m : gmap nat Thread) : Prop :=
  exists o : option nat, active = is_some o /\ forall t, at_work m t <-> o = Some t.

Section Holder.
Context (m : gmap nat Thread) (t : nat) (x : Thread).

Lemma holder_same a :
  (at_work m t <-> working (pc x) = true) -> holder a m -> holder a (<[t := x]> m).
Proof.
  intros Hx (o & -> & Ho). exists o. split; [done|]. intros t'. rewrite at_work_insert.
  destruct (decide (t' = t)) as [->|Hne]; rewrite <- Ho; naive_solver.
Qed.

Lemma holder_take :
  working (pc x) = true -> holder false m -> holder true (<[t := x]> m).
Proof.
  intros Hx (o & Hn & Ho). destruct o as [u|]; [done|]. exists (Some t). split; [done|]. intros t'.
  rewrite at_work_insert, Ho. split; [intros [[-> _]|[_ ?]]; done|]. intros [= <-]. auto.
Qed.

Lemma holder_release a :
  at_work m t -> working (pc x) = false -> holder a m -> holder false (<[t := x]> m).
Proof.
  intros Ht Hx (o & _ & Ho). exists None. split; [done|]. intros t'. rewrite at_work_insert.
  apply Ho in Ht as ->. split; [|done]. intros [[_ E]|[Hne [= <-]%Ho]]; [congruence|done].
Qed.

Lemma holder_pass a t' x' :
  at_work m t -> working (pc x) = false -> working (pc x') = true -> t' <> t -> holder a m ->
  holder a (<[t := x]> (<[t' := x']> m)).
Proof.
  intros Ht Hx Hx' Hne (o & -> & Ho). pose proof (proj1 (Ho t) Ht) as ->. exists (Some t').
  split; [done|]. intros u. rewrite !at_work_insert, Ho. split.
  - intros [[_ E]|[Hu [[-> _]|[_ [= <-]]]]]; [congruence|done|done].
  - intros [= <-]. auto.
Qed.
End Holder.

Definition live_opt (o : option Thread) : nat := one_if live o.

Lemma live_tasks_insert m t x :
  (size (live_tasks (<[t := x]> m)) + live_opt (m !! t) = size (live_tasks m) + live_opt (Some x))%nat.
Proof.
  apply those_insert.
Qed.

(** ** The invariants *)

Definition count_exact (w : World) : Prop :=
  Z.of_nat (size (threads w)) <= umax 64 ->
  running_tasks w = Z.of_nat (size (live_tasks (threads w))).

Definition tasks_guarded (w : World) : Prop :=
  map_Forall (fun _ x => task_only (pc x) = true -> guarded x = true) (threads w).

Definition refused (p : Pc) : bool :=
  match p with Rejected | Removing _ => true | _ => false end.

Definition none_refused (w : World) : Prop :=
  map_Forall (fun _ x => refused (pc x) = false) (threads w).

Definition asked_kept (w : World) : Prop :=
  forall s, s ∈ asked w -> exists task, registry w !! s = Some task /\ requested task = true.

Definition running_served (r : gmap string CleanupTaskState) (m : gmap nat Thread) : Prop :=
  forall s task, r !! s = Some task -> running task = true ->
  exists t x, m !! t = Some x /\ serving (pc x) = Some s.

Record Inv (w : World) : Prop := mk_Inv {
  inv_holder : holder (worker_active w) (threads w);
  inv_count : count_exact w;
  inv_guarded : tasks_guarded w;
  inv_refused : shutting_down w = false -> none_refused w;
  inv_asked : shutting_down w = false -> asked_kept w;
  inv_running : shutting_down w = false -> running_served (registry w) (threads w)
}.

Lemma spawn_task_cases w t p w' ok :
  spawn_task w t p = (w', ok) ->
  (shutting_down w = true /\ w' = w /\ ok = false) \/
  (shutting_down w = false /\ ok = true /\
   w' = set_thread (set_running_tasks w (saturating_add 64 (running_tasks w) 1)) t (mk_thread true p)).
Proof. unfold spawn_task. destruct (shutting_down w); intros [= <- <-]; auto. Qed.

Lemma leave_idle g : working (leave g) = false.
Proof. by destruct g. Qed.

Ltac step_cases H :=
  let Hst := fresh "Hst" in
  destruct H as [t server Hfree | t w1 ok Hfree Hspawn | | t g p w1 p' Ht Hst];
  [ | apply spawn_task_cases in Hspawn as [(_ & -> & _) | (? & -> & ->)] | | destruct Hst ].

Lemma at_work_pc m t g p :
  m !! t = Some (mk_thread g p) -> at_work m t <-> working p = true.
Proof. intros Ht. unfold at_work. rewrite Ht. split; [by intros (x & [= <-] & ?)|]. intros ?. by eexists. Qed.

Lemma at_work_free m t : m !! t = None -> ~ at_work m t.
Proof. intros Ht (x & Hx & _). congruence. Qed.

Ltac world_cbn :=
  cbn [registry worker_active shutting_down running_tasks threads asked set_thread set_running_tasks
    set_asked set_registry set_active pc guarded working serving task_only] in *.

Lemma holder_step w w' :
  holder (worker_active w) (threads w) -> step w w' -> holder (worker_active w') (threads w').
Proof.
  intros H Hs. step_cases Hs; world_cbn; try done.
  1,2: apply holder_same; [|done]; split; [by intros ?%at_work_free|done].
  all: pose proof (at_work_pc _ _ _ _ Ht) as Hw; world_cbn.
  all: try match goal with Hs : spawn_task _ _ _ = (_, true) |- _ =>
    apply spawn_task_cases in Hs as [(_ & _ & ?)|(Hup & _ & ->)]; [done|]; world_cbn;
    apply holder_pass; [by apply Hw|apply leave_idle|done|done|done] end.
  all: try (eapply holder_release; [by apply Hw|apply leave_idle || done|done]).
  all: try (destruct outcome; [..|destruct retry_cleanup_after_failure as [? []]]).
  all: try (destruct (worker_active w) eqn:?; [|by apply holder_take]).
  all: apply holder_same; [|done]; rewrite Hw; bool_cases; world_cbn; rewrite ?leave_idle; done.
Qed.

Ltac spawned :=
  try match goal with Hs : spawn_task _ _ _ = (_, true) |- _ =>
    apply spawn_task_cases in Hs as [(_ & _ & ?)|(? & _ & ->)]; [done|] end;
  try match goal with Hs : spawn_task _ _ _ = (_, false) |- _ =>
    apply spawn_task_cases in Hs as [(? & _ & _)|(_ & ? & _)]; [|done] end;
  world_cbn.

Lemma tasks_guarded_step w w' : tasks_guarded w -> step w w' -> tasks_guarded w'.
Proof.
  unfold tasks_guarded. intros H Hs. step_cases Hs; world_cbn; try done; spawned.
  1,2: by apply map_Forall_insert_2.
  all: pose proof (H _ _ Ht) as Hg; world_cbn; try specialize (Hg eq_refl); try subst g.
  all: repeat (apply map_Forall_insert_2; world_cbn; [|done || by apply map_Forall_insert_2]); try done.
  all: clear H; destruct g; bool_cases; by cbn.
Qed.

Lemma none_refused_step w w' :
  shutting_down w' = false -> none_refused w -> step w w' -> none_refused w'.
Proof.
  unfold none_refused. intros Hdown H Hs. step_cases Hs; world_cbn; try done; spawned.
  all: try congruence.
  all: repeat (apply map_Forall_insert_2; world_cbn; [|done || by apply map_Forall_insert_2]); try done.
  all: try (clear H; destruct g; bool_cases; by cbn).
  all: try (unfold cleanup_task_should_run in *; rewrite Hdown in *; by simplify_eq/=).
  all: congruence || by repeat case_match.
Qed.

Lemma clear_keeps_requested r server s task r' :
  clear_finished_cleanup_task r server false = (r', false) -> r !! s = Some task ->
  requested task = true -> r' = delete server r /\ s <> server.
Proof.
  unfold clear_finished_cleanup_task. intros [= <- Hrun] Hs Hr. rewrite Hrun. split; [done|].
  intros ->. rewrite Hs in Hrun. cbn in Hrun. by rewrite Hr in Hrun.
Qed.

Lemma asked_kept_step w w' :
  shutting_down w' = false -> none_refused w -> asked_kept w -> step w w' -> asked_kept w'.
Proof.
  unfold asked_kept. intros Hup Hn H Hs. step_cases Hs; world_cbn; try done; spawned; try done.
  all: try by specialize (Hn _ _ Ht).
  all: intros s Hin.
  - unfold request_cleanup in *. simplify_eq. destruct (decide (s = server)) as [->|Hne].
    + rewrite lookup_insert_eq. eauto.
    + rewrite lookup_insert_ne by done. apply H. set_solver.
  - destruct (decide (s = server)) as [->|Hne]; [rewrite lookup_insert_eq; eauto|].
    rewrite lookup_insert_ne by done. auto.
  - unfold cleanup_task_should_run in *. simplify_eq. rewrite lookup_insert_ne by set_solver.
    apply H. set_solver.
  - destruct (H _ Hin) as (task & Htask & Hr). destruct (decide (s = server)) as [->|Hne].
    + rewrite lookup_alter_eq, Htask. cbn. eauto.
    + rewrite lookup_alter_ne by done. eauto.
  - destruct (H _ Hin) as (task & Htask & Hr). destruct rerun.
    + unfold clear_finished_cleanup_task in *. simplify_eq.
      match goal with Hb : is_some_and _ _ = true |- _ => rewrite Hb end. eauto.
    + rewrite Hup in *. edestruct clear_keeps_requested as [-> Hne]; [done..|].
      rewrite lookup_delete_ne by done. eauto.
Qed.

Definition keeps_running (r r' : gmap string CleanupTaskState) : Prop :=
  forall s task, r' !! s = Some task -> running task = true ->
  exists task0, r !! s = Some task0 /\ running task0 = true.

Lemma set_requested_keeps r server b :
  keeps_running r (<[server := {| running := running (task_of r server); requested := b |}]> r).
Proof.
  intros s task. destruct (decide (s = server)) as [->|Hne].
  - rewrite lookup_insert_eq. intros [= <-]. cbn. unfold task_of.
    destruct (r !! server); cbn; [eauto|done].
  - rewrite lookup_insert_ne by done. eauto.
Qed.

Lemma set_deferred_keeps r server :
  keeps_running r (alter (fun task => {| running := running task; requested := true |}) server r).
Proof.
  intros s task. destruct (decide (s = server)) as [->|Hne].
  - rewrite lookup_alter_eq. destruct (r !! server) as [y|]; cbn; [|done]. intros [= <-] ?. eauto.
  - rewrite lookup_alter_ne by done. eauto.
Qed.

(** A thread's step keeps every running entry served when the entries it leaves running
    were so before and are not its own, or are the one it serves next. *)
Lemma served_set r r' m t x x' :
  running_served r m -> m !! t = Some x ->
  (forall s task, r' !! s = Some task -> running task = true ->
    serving (pc x') = Some s \/
    (serving (pc x) <> Some s /\ exists task0, r !! s = Some task0 /\ running task0 = true)) ->
  running_served r' (<[t := x']> m).
Proof.
  intros H Ht Hr s task Hs Hrun. destruct (Hr s task Hs Hrun) as [?|(Hne & task0 & Hs0 & Hrun0)].
  - exists t, x'. by rewrite lookup_insert_eq.
  - destruct (H s task0 Hs0 Hrun0) as (t0 & x0 & Ht0 & Hx0). exists t0, x0. split; [|done].
    rewrite lookup_insert_ne; [done|]. intros ->. congruence.
Qed.

Lemma served_same r r' m t x x' :
  running_served r m -> keeps_running r r' -> m !! t = Some x ->
  serving (pc x') = serving (pc x) \/ serving (pc x) = None -> running_served r' (<[t := x']> m).
Proof.
  intros H Hk Ht Hx. eapply served_set; [done..|]. intros s task Hs Hrun.
  destruct (decide (serving (pc x) = Some s)) as [E|E]; [|right; eauto].
  destruct Hx as [->|?]; [by left|congruence].
Qed.

Lemma served_fresh r m t x : running_served r m -> m !! t = None -> running_served r (<[t := x]> m).
Proof.
  intros H Ht s task Hs Hrun. destruct (H s task Hs Hrun) as (t0 & x0 & Ht0 & Hx0). exists t0, x0.
  rewrite lookup_insert_ne by congruence. done.
Qed.

Lemma served_pass r m t t' x x' y :
  running_served r m -> m !! t = Some x -> m !! t' = None -> t' <> t ->
  serving (pc x') = serving (pc x) -> running_served r (<[t := y]> (<[t' := x']> m)).
Proof.
  intros H Ht Ht' Hne Hx s task Hs Hrun. destruct (H s task Hs Hrun) as (t0 & x0 & Ht0 & Hx0).
  destruct (decide (t0 = t)) as [->|Hn0].
  - exists t', x'. rewrite lookup_insert_ne, lookup_insert_eq by done. split; congruence.
  - exists t0, x0. rewrite !lookup_insert_ne by congruence. done.
Qed.

Lemma running_served_step w w' :
  shutting_down w' = false -> none_refused w -> running_served (registry w) (threads w) ->
  step w w' -> running_served (registry w') (threads w').
Proof.
  intros Hup Hn H Hs. step_cases Hs; world_cbn; try done; spawned; try done.
  all: try by specialize (Hn _ _ Ht).
  all: try congruence.
  1,2: by apply served_fresh.
  all: try (eapply served_same; [done|by intros ? ? ? ?; eauto|done|]; world_cbn; by auto).
  all: try (unfold request_cleanup, cleanup_task_should_run in *; simplify_eq;
    eapply served_same; [done|apply set_requested_keeps|done|]; world_cbn; rewrite ?Hup; by auto).
  - eapply served_set; [done..|]. intros s task' Hs' Hrun. world_cbn.
    destruct (decide (s = server)) as [->|Hne]; [by left|right]. rewrite lookup_insert_ne in Hs' by done.
    eauto.
  - by eapply served_pass.
  - eapply served_same; [done|by intros ? ? ? ?; eauto|done|]; world_cbn.
    by repeat case_match; left.
  - eapply served_same; [done|apply set_deferred_keeps|done|]; by left.
  - eapply served_set; [done..|]. intros s task Hs' Hrun. world_cbn.
    destruct rerun; unfold clear_finished_cleanup_task in *; simplify_eq/=;
      match goal with Hb : is_some_and _ _ = _ |- _ => rewrite Hb in * end.
    + destruct (decide (s = server)) as [->|Hne]; [by left|right]. split; [congruence|eauto].
    + right. apply lookup_delete_Some in Hs' as [Hne Hs']. split; [congruence|eauto].
Qed.

(** ** The count of the running tasks *)

Lemma size_insert_le (m : gmap nat Thread) t x : (size m <= size (<[t := x]> m))%nat.
Proof. rewrite map_size_insert. destruct (m !! t); cbn; lia. Qed.

Lemma size_threads_step w w' : step w w' -> (size (threads w) <= size (threads w'))%nat.
Proof.
  intros Hs. step_cases Hs; world_cbn; spawned; try apply size_insert_le; [done..|].
  etrans; apply size_insert_le.
Qed.

Lemma live_tasks_size m : (size (live_tasks m) <= size m)%nat.
Proof. apply those_size. Qed.

Lemma count_same w w' t x x' :
  count_exact w -> threads w !! t = Some x -> live x' = live x -> running_tasks w' = running_tasks w ->
  threads w' = <[t := x']> (threads w) -> count_exact w'.
Proof.
  unfold count_exact. intros H Ht Hl Hr Ht' Hfit. rewrite Ht' in *. rewrite Hr.
  pose proof (live_tasks_insert (threads w) t x') as He. rewrite Ht in He.
  unfold live_opt, one_if in He; cbn in He. rewrite Hl in He.
  pose proof (size_insert_le (threads w) t x'). rewrite H by lia. lia.
Qed.

Lemma count_new w w' t x' :
  count_exact w -> threads w !! t = None -> threads w' = <[t := x']> (threads w) ->
  running_tasks w' = (if live x' then saturating_add 64 (running_tasks w) 1 else running_tasks w) ->
  count_exact w'.
Proof.
  unfold count_exact. intros H Ht Ht' Hr Hfit. rewrite Ht' in *. rewrite Hr.
  pose proof (live_tasks_insert (threads w) t x') as He. rewrite Ht in He. unfold live_opt, one_if in He; cbn in He.
  rewrite map_size_insert_None in Hfit by done. pose proof (live_tasks_size (threads w)).
  rewrite H by lia. destruct (live x'); [unfold saturating_add|]; lia.
Qed.

Lemma count_exact_step w w' : tasks_guarded w -> count_exact w -> step w w' -> count_exact w'.
Proof.
  intros Hg H Hs. step_cases Hs; world_cbn; try done; spawned.
  1,2: by eapply count_new.
  all: try (eapply count_same; [done|exact Ht| |done|done];
    unfold live; world_cbn; repeat case_match; by destruct g).
  - assert (H' : count_exact (set_thread (set_running_tasks w (saturating_add 64 (running_tasks w) 1)) t'
      (mk_thread true (ShouldRun server 0)))).
    { by apply (count_new w _ t' (mk_thread true (ShouldRun server 0)) H). }
    eapply (count_same _ _ t _ _ H'); [| |done|done]; world_cbn.
    + by rewrite lookup_insert_ne.
    + by destruct g.
  - pose proof (Hg _ _ Ht eq_refl) as Hgt. world_cbn. subst g. unfold count_exact in *. world_cbn.
    intros Hfit. pose proof (live_tasks_insert (threads w) t (mk_thread true Ended)) as He.
    rewrite Ht in He. unfold live_opt, one_if in He; cbn in He.
    pose proof (size_insert_le (threads w) t (mk_thread true Ended)).
    rewrite H by lia. unfold saturating_sub. lia.
Qed.

(** ** The protocol *)

Lemma inv_initial : Inv initial.
Proof.
  constructor; cbn; try done.
  - exists None. split; [done|]. intros t. split; [|done]. by intros (x & ? & _).
Qed.

Lemma inv_step w w' : Inv w -> step w w' -> Inv w'.
Proof.
  intros [Hh Hc Hg Hr Ha Hs] Hst. assert (Hdown : shutting_down w' = false -> shutting_down w = false).
  { clear -Hst. intros E. step_cases Hst; world_cbn; try done; spawned; done. }
  constructor.
  - by eapply holder_step.
  - by eapply count_exact_step.
  - by eapply tasks_guarded_step.
  - intros E. eapply none_refused_step; eauto.
  - intros E. eapply asked_kept_step; eauto.
  - intros E. eapply running_served_step; eauto.
Qed.

Lemma inv_reachable w : reachable w -> Inv w.
Proof. induction 1; [apply inv_initial|by eapply inv_step]. Qed.

(** Shutting down, with every background task ended. *)
Definition drained (w : World) : Prop :=
  shutting_down w = true /\ map_Forall (fun _ x => guarded x = true -> pc x = Ended) (threads w).

Lemma drained_step w w' : drained w -> step w w' -> drained w'.
Proof.
  intros [Hdown H] Hs. step_cases Hs; try congruence; try (split; world_cbn; done).
  1: split; world_cbn; [done|]; by apply map_Forall_insert_2.
  all: pose proof (H _ _ Ht) as Hg; world_cbn; spawned; try congruence.
  all: destruct g; [by specialize (Hg eq_refl)|].
  all: split; world_cbn; [done|]; by apply map_Forall_insert_2.
Qed.

Lemma drained_steps w w' : drained w -> steps w w' -> drained w'.
Proof. induction 2; [done|by eapply drained_step]. Qed.

Lemma zero_drained w :
  Inv w -> Z.of_nat (size (threads w)) <= umax 64 -> shutting_down w = true -> running_tasks w = 0 ->
  drained w.
Proof.
  intros [_ Hc _ _ _ _] Hfit Hdown Hz. split; [done|]. intros t x Ht Hg. rewrite Hc in Hz by done.
  assert (He : live_tasks (threads w) = ∅) by (apply map_size_empty_inv; lia).
  assert (Hn : live_tasks (threads w) !! t = None) by (rewrite He; apply lookup_empty).
  apply map_lookup_filter_None in Hn as [?|Hn]; [congruence|]. specialize (Hn _ Ht).
  unfold live in Hn. cbn [snd] in Hn. rewrite Hg in Hn. by destruct (pc x).
Qed.

(** C21: in every interleaving of requests, workers, other background tasks and the shutdown:
    at most one thread is between taking and releasing the worker flag, which is set
    exactly when there is one; until the shutdown no request is dropped (a server asked for
    after the last attempt for it began stays marked as requested); once every thread has
    ended the flag is free, and no entry is marked running unless a shutdown was requested (a
    worker that is told to stop while it waits leaves its entry as it is); and when the
    shutdown has been requested and the count of running tasks is zero, every background
    task has ended and no cleanup attempt is made by any later step. *)
Theorem cleanup_worker_protocol (w : World) (Hw : reachable w)
    (Hfit : Z.of_nat (size (threads w)) <= umax 64) :
  holder (worker_active w) (threads w) /\
  (shutting_down w = false -> asked_kept w) /\
  ((forall t x, threads w !! t = Some x -> pc x = Ended) ->
    worker_active w = false /\
    (shutting_down w = false -> forall s task, registry w !! s = Some task -> running task = false)) /\
  (shutting_down w = true -> running_tasks w = 0 -> forall w', steps w w' ->
    forall t x, threads w' !! t = Some x ->
      (guarded x = true -> pc x = Ended) /\ forall s failures, pc x <> Attempting s failures).
Proof.
  pose proof (inv_reachable w Hw) as HI. split; [apply HI|]. split; [apply HI|]. split.
  - intros Hend. split.
    + destruct (inv_holder w HI) as (o & -> & Ho). destruct o as [t|]; [|done].
      destruct (proj2 (Ho t) eq_refl) as (x & Hx & Hwork). by rewrite (Hend _ _ Hx) in Hwork.
    + intros Hup s task Hs. destruct (running task) eqn:Hrun; [|done]. exfalso.
      destruct (inv_running w HI Hup s task Hs Hrun) as (t & x & Hx & Hserve).
      by rewrite (Hend _ _ Hx) in Hserve.
  - intros Hdown Hz w' Hs t x Hx.
    destruct (drained_steps w w' (zero_drained w HI Hfit Hdown Hz) Hs) as [_ Hall].
    specialize (Hall t x Hx). split; [done|]. intros s f Hpc.
    pose proof (inv_guarded w' (inv_reachable w' (reachable_steps w w' Hw Hs)) t x Hx) as Hg.
    cbn beta in Hg, Hall. rewrite Hpc in Hg, Hall. specialize (Hall (Hg eq_refl)). done.
Qed.

(** ** A run that loses the start of a worker *)

Ltac ask H t server :=
  eapply reachable_step in H; [|apply (step_new _ t%nat server); reflexivity]; vm_compute in H.
Tactic Notation "run" hyp(H) constr(t) uconstr(c) :=
  eapply reachable_step in H;
    [|eapply (step_thread _ t); [reflexivity|eapply c; solve [done | vm_compute; reflexivity]]];
  vm_compute in H.

Lemma pick_nothing t g w :
  registry w = ∅ -> thread_step t g w Picking w Releasing.
Proof. intros E. apply step_pick_none. rewrite E. intros s task. by rewrite lookup_empty. Qed.

(** One server asked for, its request about to look for the worker. *)
Definition demo_asked : World :=
  mk_world {["a" := {| running := false; requested := true |}]} false false 0
    {[0%nat := mk_thread false CheckingShutdown]} {["a"]}.

Lemma demo_asked_reachable : reachable demo_asked.
Proof.
  assert (H := reachable_initial). ask H 0%nat "a". run H 0%nat step_request. exact H.
Qed.

Lemma cleanup_worker_protocol_witness :
  reachable demo_asked /\ holder false (threads demo_asked) /\ asked_kept demo_asked.
Proof.
  destruct (cleanup_worker_protocol demo_asked demo_asked_reachable) as (Hh & Ha & _);
    [vm_compute; discriminate|].
  split; [apply demo_asked_reachable|]. split; [exact Hh|by apply Ha].
Defined.

(** A request made while the last worker has found nothing to do and not yet released the
    flag starts no worker: every thread ends, the server is still asked for and the flag
    is free. *)
Lemma cleanup_request_can_wait :
  exists w, reachable w /\ shutting_down w = false /\ worker_active w = false /\
    asked w = {["a"]} /\ (forall t x, threads w !! t = Some x -> pc x = Ended).
Proof.
  assert (H := reachable_initial).
  ask H 0%nat "b".
  run H 0%nat step_request. run H 0%nat step_check. run H 0%nat step_swap.
  run H 0%nat (step_pick _ _ _ "b").
  run H 0%nat (step_launch _ _ _ _ 1%nat).
  run H 1%nat step_should_run. run H 1%nat (step_attempt _ _ _ _ _ Finished).
  run H 1%nat step_clear. run H 1%nat step_drop. run H 1%nat step_swap.
  run H 1%nat pick_nothing.
  ask H 2%nat "a". run H 2%nat step_request. run H 2%nat step_check.
  run H 2%nat step_swap. run H 1%nat step_release. run H 1%nat step_unguard.
  eexists. split; [exact H|]. split; [done|]. split; [done|]. split; [vm_compute; reflexivity|].
  match goal with |- forall t x, ?m !! t = Some x -> _ =>
    assert (E : bool_decide (map_Forall (fun _ x => ended (pc x) = true) m) = true) by (vm_compute; reflexivity)
  end.
  apply bool_decide_eq_true in E. intros t x Hx. specialize (E t x Hx). cbn beta in E.
  by destruct (pc x).
Qed.
