(* ===== verification/IndexSearch.v ===== *)
(** * Searching an index through the manager (index/query.rs)

    [IndexManager::search] reads the status of the server, takes the answer from the cache or
    searches the database, and caches what it found. Searches, the writes of other tasks
    and the invalidations of the cache interleave: one step is one critical section, one
    read of the database or one search of it. The registries, clocks and measurements a status reads
    besides the rows of the server are inputs. *)
From S2P Require Import Prelude Text Schedule Opc Store StoreWf Cleanup StoreSpec Query Cache Status.

Record IndexedSearch := mk_indexed_search {
  matches : list IndexedMatch;
  has_more : bool;
  search_status : IndexStatus
}.

(** What a search looks for; [sr_limit] is the limit it works with. *)
Record SearchRequest := mk_request {
  sr_server : string;
  sr_query : ustr;
  sr_mode : Z;        (* i32 *)
  sr_limit : Z        (* u32 *)
}.

Inductive SearchPc :=
| ReadStatus
| ReadGeneration (status : IndexStatus)
| LookCache (status : IndexStatus) (generation : Z)
| RunSearch (status : IndexStatus) (generation : Z)
| CheckDeleting (status : IndexStatus) (generation : Z) (found : list IndexedMatch)
| ReadStatusAgain
| StoreResult (generation : Z) (value : IndexedSearch)
(* what the call returned: without a search, with the result of one, or an error *)
| NothingToSearch (status : IndexStatus)
| Answered (value : IndexedSearch)
| SearchFailed (error : string).

Section Search.
Context `{TextLibrary}.
Context (fts_matches : ustr -> FtsRow -> bool).
Context (settings : StatusSettings) (max_results : Z).

(** The validation of a query, and the limit the search works with. *)
Definition search_request (server : string) (query : ustr) (mode limit : Z) :
    result SearchRequest string :=
  if bool_decide (normalize_query query = []) then Err "search query must not be empty"
  else Ok (mk_request server query mode (Z.min (Z.max limit 1) max_results)).

Definition cache_key (r : SearchRequest) (generation : Z) : CacheKey :=
  {| k_server := sr_server r; k_generation := generation; k_query := normalize_query (sr_query r);
     k_mode := sr_mode r; k_limit := sr_limit r |}.

(** The choice of the generation, after a status. *)
Definition after_status (st : IndexStatus) : SearchPc :=
  if bool_decide (st_state st = Deleting) then NothingToSearch st
  else if 0 <? st_active_generation st then LookCache st (st_active_generation st)
  else if bool_decide (st_state st = Promoting) then NothingToSearch st
  else ReadGeneration st.

Definition after_generation (st : IndexStatus) (generation : option Z) : SearchPc :=
  match generation with
  | None => NothingToSearch st
  | Some generation =>
      if st_active_generation st =? generation then LookCache st generation
      else RunSearch st generation
  end.

Definition after_lookup (st : IndexStatus) (generation : Z) (cached : option IndexedSearch) : SearchPc :=
  match cached with
  | Some value => Answered (mk_indexed_search (matches value) (has_more value) st)
  | None => RunSearch st generation
  end.

(** [matches.len() > limit], and [truncate]. *)
Definition after_check (r : SearchRequest) (st : IndexStatus) (generation : Z)
    (found : list IndexedMatch) : SearchPc :=
  let value :=
    mk_indexed_search (take (Z.to_nat (sr_limit r)) found)
      (sr_limit r <? Z.of_nat (length found)) st in
  if st_active_generation st =? generation then StoreResult generation value else Answered value.

(** ** The searches and their surroundings *)

Record World := mk_world {
  db : IndexDb;
  cache : QueryCache IndexedSearch;
  deleting : gset string;
  searches : gmap nat (SearchRequest * SearchPc);
  clearing : gset string     (* ghost: the rows are gone, the cache is not cleared yet *)
}.

Definition set_db (w : World) (d : IndexDb) : World :=
  mk_world d (cache w) (deleting w) (searches w) (clearing w).
Definition set_cache (w : World) (c : QueryCache IndexedSearch) : World :=
  mk_world (db w) c (deleting w) (searches w) (clearing w).
Definition set_search (w : World) (t : nat) (r : SearchRequest) (p : SearchPc) : World :=
  mk_world (db w) (cache w) (deleting w) (<[t := (r, p)]> (searches w)) (clearing w).

(** A status of [server] read now: its rows are read at one moment, or not at all while a
    promotion runs. *)
Definition status_now (w : World) (server : string) (st : IndexStatus) : Prop :=
  exists now instant_now reads,
    is_deleting reads = bool_decide (server ∈ deleting w) /\
    (rows_read reads = Ok (status_rows (db w) server) \/ exists e, rows_read reads = Err e) /\
    status settings now instant_now server reads = Ok st.

Inductive search_step (w : World) (r : SearchRequest) : SearchPc -> World -> SearchPc -> Prop :=
| step_status st :
    status_now w (sr_server r) st -> search_step w r ReadStatus w (after_status st)
| step_status_error e : search_step w r ReadStatus w (SearchFailed e)
| step_generation st :
    search_step w r (ReadGeneration st) w
      (after_generation st (search_generation (db w) (sr_server r)))
| step_generation_error st e : search_step w r (ReadGeneration st) w (SearchFailed e)
| step_lookup st generation c cached :
    Cache.get (cache w) (cache_key r generation) = (c, cached) ->
    search_step w r (LookCache st generation) (set_cache w c) (after_lookup st generation cached)
| step_search st generation found :
    search fts_matches (db w) (sr_server r) generation (sr_query r) (sr_mode r) (sr_limit r) = Ok found ->
    search_step w r (RunSearch st generation) w (CheckDeleting st generation found)
| step_search_error st generation e : search_step w r (RunSearch st generation) w (SearchFailed e)
| step_check st generation found :
    search_step w r (CheckDeleting st generation found) w
      (if bool_decide (sr_server r ∈ deleting w) then ReadStatusAgain
       else after_check r st generation found)
| step_status_again st :
    status_now w (sr_server r) st -> search_step w r ReadStatusAgain w (NothingToSearch st)
| step_status_again_error e : search_step w r ReadStatusAgain w (SearchFailed e)
| step_store generation value :
    search_step w r (StoreResult generation value)
      (set_cache w (Cache.insert (cache w) (cache_key r generation) value)) (Answered value).

(** A search that has read its status and not returned yet. *)
Definition in_flight (p : SearchPc) : bool :=
  match p with
  | ReadGeneration _ | LookCache _ _ | RunSearch _ _ | CheckDeleting _ _ _ | ReadStatusAgain
  | StoreResult _ _ => true
  | _ => false
  end.

Definition idle (w : World) (server : string) : Prop :=
  forall t r p, searches w !! t = Some (r, p) -> sr_server r = server -> in_flight p = false.

(** The generation the searches of a server read. *)
Definition active (d : IndexDb) (server : string) (generation : Z) : Prop :=
  exists row, In row (generations d) /\ g_key row = (server, generation) /\ g_state row = Active.

(** The steps. A build promotes the newest generation of its server, and not while a
    deletion or an invalidation of the server has not cleared the cache yet: the server is
    reserved until then. With [quiet], the rows of a server are removed only while
    no search of the server is in flight. *)
Inductive step (quiet : bool) (w : World) : World -> Prop :=
| step_begin t server query mode limit r :
    searches w !! t = None -> search_request server query mode limit = Ok r ->
    step quiet w (set_search w t r ReadStatus)
| step_search_task t r p w' p' :
    searches w !! t = Some (r, p) -> search_step w r p w' p' -> step quiet w (set_search w' t r p')
| step_write op :
    (forall server, ~ touches server (db w) op) -> step quiet w (set_db w (db_exec (db w) op))
| step_promote server generation t count profile warning :
    (forall g, active (db w) server g -> g < generation) -> server ∉ clearing w ->
    step quiet w (set_db w (db_exec (db w) (OpPromote server generation t count profile warning)))
| step_remove server op :
    op = OpDeleteIndex server \/ op = OpClearServer server ->
    (quiet = true -> idle w server) ->
    step quiet w
      (mk_world (db_exec (db w) op) (cache w) (deleting w) (searches w) ({[server]} ∪ clearing w))
| step_clear_cache server :
    step quiet w
      (mk_world (db w) (Cache.clear_server (cache w) server) (deleting w) (searches w)
         (clearing w ∖ {[server]}))
| step_deleting s : step quiet w (mk_world (db w) (cache w) s (searches w) (clearing w)).

Inductive reachable (quiet : bool) (capacity : Z) : World -> Prop :=
| reachable_initial d :
    StoreSpec.reachable d -> reachable quiet capacity (mk_world d (empty_cache capacity) ∅ ∅ ∅)
| reachable_step w w' : reachable quiet capacity w -> step quiet w w' -> reachable quiet capacity w'.

(** What a search of a generation of the database returns now. *)
Definition fresh (d : IndexDb) (server : string) (generation : Z) (query : ustr) (mode limit : Z) :
    result (list IndexedMatch * bool) string :=
  result_map
    (fun found => (take (Z.to_nat limit) found, limit <? Z.of_nat (length found)))
    (search fts_matches d server generation query mode limit).

End Search.
