(* ===== verification/IndexSearchSpec.v ===== *)
(** * Cached searches answer as fresh ones

    The cache is transparent: whatever searches, builds, promotions and invalidations
    interleave, a search whose generation is active when it returns gives what a search of the
    database gives at that moment. The rows of a server are to be removed while no search
    of it is in flight; a removal during one can leave a stale answer in the cache. *)
From S2P Require Import Prelude Text Bounded Schedule Opc Store StoreWf Cleanup StoreSpec Query Cache Status StatusSpec IndexSearch.

(** ** A search reads the rows of one generation *)

Lemma find_filter {A} (q p : A -> bool) l :
  List.find (fun x => q x && p x) l = List.find p (List.filter q l).
Proof.
  induction l as [|x l IH]; simpl; [done|]. destruct (q x); simpl; [by rewrite IH|done].
Qed.

Definition same_index (d d' : IndexDb) (s : string) (g : Z) : Prop :=
  List.filter (entry_of s g) (entries d') = List.filter (entry_of s g) (entries d) /\
  List.filter (fts_of s g) (entries_fts d') = List.filter (fts_of s g) (entries_fts d).

Section SearchSpec.
Context `{TextLibrary}.
Context (fts_matches : ustr -> FtsRow -> bool).

Lemma select_same {K} d d' s g where_ (key : EntryRow -> K) compare limit :
  same_index d d' s g ->
  select d' s g where_ key compare limit = select d s g where_ key compare limit.
Proof. intros [He _]. unfold select. by rewrite <- !filter_filter, He. Qed.

Lemma full_text_same d d' s g query limit :
  same_index d d' s g ->
  search_full_text fts_matches d' s g query limit = search_full_text fts_matches d s g query limit.
Proof.
  intros [He Hf]. unfold search_full_text. destruct (i64_try_from _ _) as [z|] eqn:Ez; [|done].
  assert (z = g) as ->. { unfold i64_try_from in Ez. destruct (g <=? i64_max); congruence. }
  cbn [result_bind].
  assert (Hrows : forall d, List.filter (fun f => fts_matches (build_fts_query query) f && fts_of s g f)
      (entries_fts d) =
      List.filter (fun f => fts_matches (build_fts_query query) f) (List.filter (fts_of s g) (entries_fts d))).
  { intros d0. rewrite filter_filter. apply List.filter_ext. intros f. apply andb_comm. }
  rewrite !Hrows, Hf. do 2 f_equal. apply map_ext. intros c. by rewrite !find_filter, He.
Qed.

Lemma search_same d d' s g query mode limit :
  same_index d d' s g ->
  search fts_matches d' s g query mode limit = search fts_matches d s g query mode limit.
Proof.
  intros Hd. unfold search. destruct (mode =? 1); [|destruct (mode =? 2); [|case_match]].
  - unfold search_exact. destruct (i64_try_from _ _) as [z|] eqn:Ez; [|done].
    assert (z = g) as ->. { unfold i64_try_from in Ez. destruct (g <=? i64_max); congruence. }
    cbn [result_bind]. by rewrite !(select_same d d' s g _ _ _ _ Hd).
  - unfold search_prefix. destruct (i64_try_from _ _) as [z|] eqn:Ez; [|done].
    assert (z = g) as ->. { unfold i64_try_from in Ez. destruct (g <=? i64_max); congruence. }
    cbn [result_bind]. by rewrite !(select_same d d' s g _ _ _ _ Hd).
  - by apply full_text_same.
  - unfold search_like. by rewrite (select_same d d' s g _ _ _ _ Hd).
Qed.

(** Only the normalized query matters. *)
Lemma search_normalized d s g q q' mode limit :
  normalize_query q = normalize_query q' ->
  search fts_matches d s g q mode limit = search fts_matches d s g q' mode limit.
Proof. intros Hq. unfold search. by rewrite Hq. Qed.

Lemma fresh_normalized d s g q q' mode limit :
  normalize_query q = normalize_query q' ->
  fresh fts_matches d s g q mode limit = fresh fts_matches d s g q' mode limit.
Proof. intros Hq. unfold fresh. by rewrite (search_normalized d s g q q'). Qed.

(** ** How the index of a server evolves *)

Lemma active_in_view d s g :
  active d s g <-> exists r, In r (generations d) /\ active_row s r = true /\ g_generation r = g.
Proof.
  unfold active, g_key. split.
  - intros (r & Hr & [= Hs Hg] & Ha). exists r. rewrite active_row_iff. auto.
  - intros (r & Hr & [Hs Ha]%active_row_iff & Hg). exists r. split; [done|]. split; congruence.
Qed.

Lemma view_same_active d d' s g :
  active_view d' s = active_view d s -> active d s g -> active d' s g /\ same_index d d' s g.
Proof.
  intros Hv (r & Hr & Ha & Hg)%active_in_view.
  assert (Hin : In (view_row d r) (active_view d' s)).
  { rewrite Hv. apply in_map_iff. exists r. split; [done|]. by apply filter_In. }
  apply in_map_iff in Hin as (r' & Hview & [Hr' Ha']%filter_In).
  apply (f_equal ai_generation) in Hview as Hg'.
  apply (f_equal ai_entries) in Hview as He. apply (f_equal ai_fts) in Hview as Hf.
  cbn in Hg', He, Hf. apply active_row_iff in Ha as [Hs Ha].
  pose proof (proj1 (active_row_iff _ _) Ha') as [Hs' _]. split.
  - apply active_in_view. exists r'. split; [done|]. split; [done|congruence].
  - rewrite Hs, Hs', Hg', Hg in *. by split.
Qed.

Definition evolves (d d' : IndexDb) (s : string) : Prop :=
  forall a, active d s a -> exists a', active d' s a' /\ a <= a' /\ (a' = a -> same_index d d' s a).

Lemma view_evolves d d' s : active_view d' s = active_view d s -> evolves d d' s.
Proof.
  intros Hv a Ha. destruct (view_same_active d d' s a Hv Ha) as [Ha' Hi]. exists a.
  split; [done|]. split; [lia|done].
Qed.

Lemma promote_evolves d s g t n prof w :
  wf d -> (forall a, active d s a -> a < g) ->
  evolves d (promote_with_profile d s g t n prof w).1 s.
Proof.
  intros W Hnew a Ha. pose proof (promote_spec d s g t n prof w W) as Hp.
  destruct (promote_with_profile d s g t n prof w) as [d' [u|e]] eqn:E; cbn [fst].
  - destruct (promoted_view d s g t n prof w d' u W E) as (view & Hview & Hg & _).
    exists g. split.
    + assert (Hin : In view (active_view d' s)) by (rewrite Hview; by left).
      apply in_map_iff in Hin as (r & <- & [Hr Hact]%filter_In). apply active_in_view. by exists r.
    + specialize (Hnew a Ha). split; lia.
  - destruct Hp as [-> _]. exists a. split; [done|]. split; [lia|done].
Qed.

(** ** The invariant *)

(** A result found for generation [g] of [s]: the active generation is [g], and then the
    result is fresh, or a newer one. *)
Definition valid (d : IndexDb) (s : string) (g : Z) (fact : Prop) : Prop :=
  exists a, active d s a /\ g <= a /\ (a = g -> fact).

Lemma valid_evolves d d' s g (P Q : Prop) :
  evolves d d' s -> (active d s g -> same_index d d' s g -> P -> Q) ->
  valid d s g P -> valid d' s g Q.
Proof.
  intros He HPQ (a & Ha & Hle & Hp). destruct (He a Ha) as (a' & Ha' & Hle' & Hi).
  exists a'. split; [done|]. split; [lia|]. intros ->. assert (a = g) as -> by lia.
  apply HPQ; auto.
Qed.

Definition fresh_value (d : IndexDb) (r : SearchRequest) (g : Z) (value : IndexedSearch) : Prop :=
  fresh fts_matches d (sr_server r) g (sr_query r) (sr_mode r) (sr_limit r) =
    Ok (matches value, has_more value).

Definition found_now (d : IndexDb) (r : SearchRequest) (g : Z) (found : list IndexedMatch) : Prop :=
  search fts_matches d (sr_server r) g (sr_query r) (sr_mode r) (sr_limit r) = Ok found.

Definition pc_valid (d : IndexDb) (r : SearchRequest) (p : SearchPc) : Prop :=
  match p with
  | ReadGeneration st => st_active_generation st <= 0
  | LookCache st g => st_active_generation st = g /\ valid d (sr_server r) g True
  | RunSearch st g =>
      (st_active_generation st <= 0 /\ 0 < g) \/ (st_active_generation st = g /\ valid d (sr_server r) g True)
  | CheckDeleting st g found =>
      (st_active_generation st <= 0 /\ 0 < g) \/
      (st_active_generation st = g /\ valid d (sr_server r) g (found_now d r g found))
  | StoreResult g value =>
      st_active_generation (search_status value) = g /\
      valid d (sr_server r) g (fresh_value d r g value)
  | _ => True
  end.

Lemma pc_valid_evolves d d' r p :
  evolves d d' (sr_server r) -> pc_valid d r p -> pc_valid d' r p.
Proof.
  intros He. destruct p as [|st|st g|st g|st g found| |g value| | |]; cbn; try done.
  - intros [? Hv]. split; [done|]. by eapply valid_evolves.
  - intros [?|[? Hv]]; [by left|right; split; [done|]]. by eapply valid_evolves.
  - intros [?|[? Hv]]; [by left|right; split; [done|]]. eapply valid_evolves; [done| |done].
    intros _ Hi. unfold found_now. by rewrite (search_same d d' _ _ _ _ _ Hi).
  - intros [? Hv]. split; [done|]. eapply valid_evolves; [done| |done].
    intros _ Hi. unfold fresh_value, fresh. by rewrite (search_same d d' _ _ _ _ _ Hi).
Qed.

Lemma pc_valid_idle d r p : in_flight p = false -> pc_valid d r p.
Proof. by destruct p. Qed.

Definition coherent (d : IndexDb) (clearing : gset string) (c : QueryCache IndexedSearch) : Prop :=
  forall k v, values c !! k = Some v -> k_server k ∈ clearing \/
    forall q, normalize_query q = k_query k ->
      valid d (k_server k) (k_generation k)
        (fresh fts_matches d (k_server k) (k_generation k) q (k_mode k) (k_limit k) =
          Ok (matches v, has_more v)).

Record Inv (w : World) : Prop := mk_Inv {
  inv_reachable : StoreSpec.reachable (db w);
  inv_coherent : coherent (db w) (clearing w) (cache w);
  inv_removed : forall s a, s ∈ clearing w -> ~ active (db w) s a;
  inv_searches : forall t r p, searches w !! t = Some (r, p) -> pc_valid (db w) r p
}.

Lemma coherent_evolves d d' clearing c :
  (forall s, s ∉ clearing -> evolves d d' s) -> coherent d clearing c -> coherent d' clearing c.
Proof.
  intros He Hc k v Hk. destruct (decide (k_server k ∈ clearing)) as [|Hn]; [by left|].
  destruct (Hc k v Hk) as [|Hv]; [done|right]. intros q Hq.
  eapply valid_evolves; [by apply He| |by apply Hv]. intros _ Hi. unfold fresh.
  by rewrite (search_same d d' _ _ _ _ _ Hi).
Qed.

(** ** The steps of a search *)

Section Steps.
Context (settings : StatusSettings) (max_results capacity : Z).

Abbreviation search_step := (search_step fts_matches settings).
Abbreviation step := (step fts_matches settings max_results).
Abbreviation reachable := (reachable fts_matches settings max_results).

Lemma status_now_active w s st :
  StoreSpec.reachable (db w) -> status_now settings w s st -> 0 < st_active_generation st ->
  active (db w) s (st_active_generation st).
Proof.
  intros Hr (now & instant_now & reads & _ & Hrows & Hst) Hg. revert Hst. unfold status.
  destruct (is_deleting reads); [intros <-%ok_inj; done|].
  destruct (tolerant_read _ _ _) as [[enrollment enrollment_error]|]; [|done]. cbn [result_bind].
  destruct enrollment as [auto|].
  2: { intros <-%ok_inj. rewrite deletion_generation in Hg. done. }
  destruct (tolerant_read reads (rows_read reads) []) as [[l rows_error]|] eqn:El; [|done].
  cbn [result_bind]. destruct (loaded_runtime now reads) as [runtime|]; [|done].
  cbn [result_bind]. intros <-%ok_inj. cbn [st_active_generation complete_status] in *.
  rewrite deletion_generation, errors_generation, base_active_generation in *.
  assert (l = status_rows (db w) s \/ l = []) as [-> | ->]; [|clear El|done].
  { revert El. unfold tolerant_read. destruct Hrows as [-> | [e ->]]; [by intros [<- _]%ok_inj%pair_inj; left|].
    destruct (_ && _); [|done]. intros [<- _]%ok_inj%pair_inj. by right. }
  pose proof (active_row_of_status (db w) s (wf_reachable _ Hr)) as Ha.
  destruct (rows_active _) as [row|]; [|lia]. destruct Ha as (r & H1 & H2 & H3 & _). by exists r.
Qed.

Lemma valid_active d s g : active d s g -> valid d s g True.
Proof. intros Ha. exists g. split; [done|]. split; [lia|done]. Qed.

(** What a generation's search reads as a number is the row's number. *)
Lemma search_generation_positive d s g :
  wf d -> search_generation d s = Some g -> 0 < g.
Proof.
  intros W. unfold search_generation. destruct (merge_sort _ _) as [|r l] eqn:E; [done|].
  intros [= <-]. assert (Hin : In r (generations d)).
  { assert (Hm : r ∈ merge_sort status_order (List.filter (fun r => of_server s r &&
      (is_state Active r || is_state Staging r)) (generations d))) by (rewrite E; by left).
    rewrite merge_sort_Permutation, list_elem_of_In in Hm. by apply filter_In in Hm as [? _]. }
  pose proof (wf_numbers d W r Hin). unfold as_u64. rewrite Z.mod_small; unfold umax in *; lia.
Qed.

Lemma after_status_valid w r st :
  StoreSpec.reachable (db w) -> status_now settings w (sr_server r) st ->
  pc_valid (db w) r (after_status st).
Proof.
  intros Hr Hst. unfold after_status. bool_cases; try done; cbn.
  - split; [done|]. apply valid_active, status_now_active; [done..|]. by apply Z.ltb_lt.
  - by apply Z.ltb_ge.
Qed.

Lemma after_generation_valid w r st :
  StoreSpec.reachable (db w) -> st_active_generation st <= 0 ->
  pc_valid (db w) r (after_generation st (search_generation (db w) (sr_server r))).
Proof.
  intros Hr Hle. unfold after_generation. destruct (search_generation _ _) as [g|] eqn:E; [|done].
  apply search_generation_positive in E; [|by apply wf_reachable].
  destruct (Z.eqb_spec (st_active_generation st) g); [lia|]. left. lia.
Qed.

Lemma after_check_valid d r st g found :
  pc_valid d r (CheckDeleting st g found) -> pc_valid d r (after_check r st g found).
Proof.
  cbn. intros [[Hle Hg]|[Heq Hv]]; unfold after_check.
  - destruct (Z.eqb_spec (st_active_generation st) g); [lia|done].
  - rewrite Heq, Z.eqb_refl. cbn. split; [done|]. eapply valid_evolves; [|by intros _ _ Hf; exact Hf|].
    + by apply view_evolves.
    + destruct Hv as (a & Ha & Hle & Hf). exists a. split; [done|]. split; [done|]. intros ->.
      unfold fresh_value, fresh. by rewrite (Hf eq_refl).
Qed.

(** A search's own step. *)
Lemma get_values (c : QueryCache IndexedSearch) k :
  values (Cache.get c k).1 = values c /\ (Cache.get c k).2 = values c !! k.
Proof. unfold Cache.get. by destruct (values c !! k). Qed.

Lemma evict_lookup cap (queue : list CacheKey) : forall (m : gmap CacheKey IndexedSearch) k v,
  (evict cap m queue).1 !! k = Some v -> m !! k = Some v.
Proof.
  induction queue as [|x queue IH]; intros m k v; cbn [evict]; [done|].
  destruct (cap <? _); [|done]. intros Hk%IH. by apply lookup_delete_Some in Hk as [_ ?].
Qed.

Lemma insert_values (c : QueryCache IndexedSearch) key value k v :
  values (Cache.insert c key value) !! k = Some v ->
  (k = key /\ v = value) \/ values c !! k = Some v.
Proof.
  unfold Cache.insert. pose proof (evict_lookup (Cache.capacity c) (retain_other key (order c) ++ [key])
    (<[key := value]> (values c)) k v) as He.
  destruct (evict _ _ _) as [m o]. cbn in *. intros Hk%He.
  apply lookup_insert_Some in Hk as [[<- <-]|[_ ?]]; auto.
Qed.

Lemma search_step_db w r p w' p' : search_step w r p w' p' ->
  db w' = db w /\ deleting w' = deleting w /\ searches w' = searches w /\ clearing w' = clearing w.
Proof. by destruct 1. Qed.

Lemma search_step_valid w r p w' p' :
  Inv w -> pc_valid (db w) r p -> search_step w r p w' p' ->
  pc_valid (db w) r p' /\ coherent (db w) (clearing w) (cache w').
Proof.
  intros HI Hp Hs. pose proof (inv_coherent w HI) as Hc. pose proof (inv_reachable w HI) as Hr.
  destruct Hs; try (by split; [|done]).
  - split; [|done]. by apply after_status_valid.
  - split; [|done]. by apply after_generation_valid.
  - pose proof (get_values (cache w) (cache_key r generation)) as [Hv Hl].
    match goal with He : Cache.get _ _ = _ |- _ => rewrite He in Hv, Hl end. cbn in Hv, Hl. subst cached.
    split; [|intros k v; cbn; rewrite Hv; apply Hc]. destruct Hp as [Hst Hg]. unfold after_lookup.
    destruct (values _ !! _); cbn; auto.
  - split; [|done]. destruct Hp as [?|[? Hg]]; [by left|right; split; [done|]].
    destruct Hg as (a & Ha & Hle & _). exists a. split; [done|]. split; [done|]. by intros ->.
  - split; [|done]. destruct (bool_decide _); [done|]. by apply after_check_valid.
  - split; [done|]. intros k v [[-> ->]|Hk]%insert_values; [right|by apply Hc].
    intros q Hq. destruct Hp as [_ Hg]. cbn in *. eapply valid_evolves; [| |exact Hg].
    + by apply view_evolves.
    + intros _ _ Hf. unfold fresh_value in Hf. by rewrite (fresh_normalized _ _ _ q (sr_query r)).
Qed.

(** Operations on the database, seen by the searches. *)
Lemma inv_write w op clearing' :
  Inv w -> clearing w ⊆ clearing' ->
  (forall s, s ∉ clearing' -> evolves (db w) (db_exec (db w) op) s) ->
  (forall s a, s ∈ clearing' -> ~ active (db_exec (db w) op) s a) ->
  (forall t r p, searches w !! t = Some (r, p) -> sr_server r ∈ clearing' ->
     evolves (db w) (db_exec (db w) op) (sr_server r) \/ in_flight p = false) ->
  Inv (mk_world (db_exec (db w) op) (cache w) (deleting w) (searches w) clearing').
Proof.
  intros [Hr Hc Hn Hs] Hsub He Ha Hi. constructor; cbn.
  - by apply StoreSpec.reachable_step.
  - apply (coherent_evolves (db w)); [done|]. intros k v Hk. destruct (Hc k v Hk); [left|right]; auto.
  - done.
  - intros t r p Ht. destruct (decide (sr_server r ∈ clearing')) as [Hin|Hout].
    + destruct (Hi t r p Ht Hin) as [?|?]; [eapply pc_valid_evolves; eauto|by apply pc_valid_idle].
    + eapply pc_valid_evolves; eauto.
Qed.

Lemma removed_inactive d s op a :
  op = OpDeleteIndex s \/ op = OpClearServer s -> ~ active (db_exec d op) s a.
Proof.
  intros Hop (r & Hr & [= Hs _] & _). assert (Hin : In r (generations (Store.clear_server d s))).
  { by destruct Hop as [-> | ->]. }
  unfold Store.clear_server, delete_generations in Hin. cbn in Hin. apply In_delete_where in Hin as [_ Hf].
  by rewrite (proj2 (of_server_iff s r) Hs) in Hf.
Qed.

Lemma search_inv_step w w' : Inv w -> step true w w' -> Inv w'.
Proof.
  intros HI Hst. pose proof HI as [Hr Hc Hn Hs]. pose proof (wf_reachable _ Hr) as W.
  assert (Hview : forall op s, ~ touches s (db w) op -> evolves (db w) (db_exec (db w) op) s).
  { intros op s Ht. apply view_evolves. by apply active_view_isolated. }
  assert (Hstay : forall op s a, ~ touches s (db w) op -> active (db_exec (db w) op) s a -> active (db w) s a).
  { intros op s a Ht Ha. pose proof (active_view_isolated (db w) op s W Ht) as Hv.
    by apply (view_same_active _ _ _ _ (eq_sym Hv)) in Ha as [? _]. }
  destruct Hst as [t server query mode limit r Hfree Hreq | t r p w1 p' Ht Hss | op Hop
    | server g t count profile warning Hnew Hclear | server op Hop Hidle | server | s].
  - constructor; cbn; try done. intros t' r' p Hp. apply lookup_insert_Some in Hp as [[_ [= <- <-]]|[_ ?]];
      [done|eauto].
  - destruct (search_step_db _ _ _ _ _ Hss) as (Hd & _ & Hse & Hcl).
    destruct (search_step_valid w r p w1 p' HI (Hs _ _ _ Ht) Hss) as [Hp Hco].
    constructor; cbn; rewrite ?Hd, ?Hse, ?Hcl; try done. intros t' r' p0 Hp0.
    apply lookup_insert_Some in Hp0 as [[_ [= <- <-]]|[_ ?]]; [done|eauto].
  - apply (inv_write w op (clearing w)); [done|done| | |].
    + intros s _. by apply Hview.
    + intros s a Hin Ha. apply (Hn s a Hin). by apply (Hstay op).
    + intros. left. by apply Hview.
  - apply (inv_write w _ (clearing w)); [done|done| | |].
    + intros s _. destruct (decide (server = s)) as [<-|]; [by apply promote_evolves|by apply Hview].
    + intros s a Hin Ha. assert (server <> s) by congruence. apply (Hn s a Hin).
      by apply (Hstay (OpPromote server g t count profile warning)).
    + intros t' r p Ht Hin. left. apply Hview. cbn. congruence.
  - assert (Ht : forall s, s <> server -> ~ touches s (db w) op).
    { intros s Hne. by destruct Hop as [-> | ->]; cbn; congruence. }
    apply (inv_write w op ({[server]} ∪ clearing w)); [done|set_solver| | |].
    + intros s Hin. apply Hview, Ht. set_solver.
    + intros s a Hin Ha. destruct (decide (s = server)) as [->|Hne];
        [by apply (removed_inactive (db w) server op a)|].
      apply (Hn s a); [set_solver|]. by apply (Hstay op); [apply Ht|].
    + intros t' r p Htr _. destruct (decide (sr_server r = server)) as [He|Hne].
      * right. by apply (Hidle eq_refl t' r p).
      * left. by apply Hview, Ht.
  - constructor; cbn; try done.
    + intros k v [Hk Hne]%map_lookup_filter_Some. destruct (Hc k v Hk) as [Hin|Hv]; [left|by right].
      set_solver.
    + intros s a Hin. apply Hn. set_solver.
  - by constructor.
Qed.

Lemma inv_reachable_world w : reachable true capacity w -> Inv w.
Proof.
  induction 1 as [d Hd|w w' _ IH Hs]; [|by eapply search_inv_step].
  constructor; cbn; [done| | |done].
  - intros k v Hk. cbn in Hk. by rewrite lookup_empty in Hk.
  - intros s a Hin. by apply not_elem_of_empty in Hin.
Qed.

Lemma active_unique d s a g : wf d -> active d s a -> active d s g -> a = g.
Proof.
  intros W (r & Hr & [= Hs <-] & Ha) (r' & Hr' & [= Hs' <-] & Ha').
  apply (wf_active d W); congruence.
Qed.

(** A result is valid when it is returned. *)
Lemma answered_valid w w' r p value :
  Inv w -> pc_valid (db w) r p -> search_step w r p w' (Answered value) ->
  0 < st_active_generation (search_status value) ->
  valid (db w) (sr_server r) (st_active_generation (search_status value))
    (fresh_value (db w) r (st_active_generation (search_status value)) value).
Proof.
  intros HI Hp Hs Hpos. remember (Answered value) as p' eqn:Ep'.
  destruct Hs as [st Hst| |st| |st g c cached Hget| | |st g found| | |g v]; cbn in Hp; try done.
  - revert Ep'. unfold after_status. by bool_cases.
  - revert Ep'. unfold after_generation. destruct (search_generation _ _); [|done]. by bool_cases.
  - pose proof (get_values (cache w) (cache_key r g)) as [_ Hl]. rewrite Hget in Hl. cbn in Hl.
    revert Ep'. unfold after_lookup. destruct cached as [v|]; [|done]. intros [= <-]. cbn in *.
    destruct Hp as [-> (a & Ha & _)]. destruct (inv_coherent w HI (cache_key r g) v (eq_sym Hl)) as [Hin|Hv].
    + by destruct (inv_removed w HI _ a Hin).
    + by apply Hv.
  - revert Ep'. destruct (bool_decide _); [done|]. unfold after_check.
    destruct (Z.eqb_spec (st_active_generation st) g) as [|Hne]; [done|]. intros [= <-]. cbn in *.
    destruct Hp as [[? _]|[? _]]; [lia|done].
  - injection Ep' as ->. by destruct Hp as [-> Hv].
Qed.

(** C5: the cache of search results cannot be noticed. Whatever searches, builds, promotions,
    deletions and cache invalidations interleave, as long as the rows of a server are not
    removed while a search of it is in flight: when a search returns a result, from the cache
    or from the database, and the generation it was made on is still the active one, the
    result is what a search of the database gives at that moment, cut to the limit, with
    [has_more] telling whether something was cut. *)
Theorem search_cache_transparent (w w' : World) (t : nat) (r : SearchRequest) (p : SearchPc)
    (value : IndexedSearch)
    (Hw : reachable true capacity w) (Ht : searches w !! t = Some (r, p))
    (Hs : search_step w r p w' (Answered value))
    (Ha : active (db w) (sr_server r) (st_active_generation (search_status value))) :
  exists found,
    search fts_matches (db w) (sr_server r) (st_active_generation (search_status value))
      (sr_query r) (sr_mode r) (sr_limit r) = Ok found /\
    matches value = take (Z.to_nat (sr_limit r)) found /\
    has_more value = (sr_limit r <? Z.of_nat (length found)).
Proof.
  pose proof (inv_reachable_world w Hw) as HI. pose proof (wf_reachable _ (inv_reachable w HI)) as W.
  assert (Hpos : 1 <= st_active_generation (search_status value)).
  { destruct Ha as (row & Hrow & [= _ Hg] & _). pose proof (wf_numbers _ W row Hrow). lia. }
  destruct (answered_valid w w' r p value HI (inv_searches w HI t r p Ht) Hs) as (a & Hact & _ & Hv); [lia|].
  specialize (Hv (active_unique _ _ _ _ W Hact Ha)). revert Hv. unfold fresh_value, fresh.
  destruct (search _ _ _ _ _ _ _) as [found|e]; [|done]. cbn [result_map].
  intros [<- <-]%ok_inj%pair_inj. by exists found.
Qed.

End Steps.
End SearchSpec.

(** ** Demonstrations *)

Section Demo.
Context `{TextLibrary}.
Context (fts_matches : ustr -> FtsRow -> bool) (max_results : Z).

Definition reads_of (w : World) (server : string) : StatusReads :=
  {| is_deleting := bool_decide (server ∈ deleting w); deletion_error := None; is_promoting := false;
     is_memory := false; enrollment_read := Ok (Some true);
     rows_read := Ok (status_rows (db w) server);
     persisted_retry := Ok (None, 0, false); runtime_state := None;
     foreground_snapshot := default_metrics; latest_host_metrics := default_host_metrics;
     storage := default_storage; sentinel_configured := false |}.

(** The next step of a search, statuses being read at time 0. *)
Definition advance (w : World) (r : SearchRequest) (p : SearchPc) : option (World * SearchPc) :=
  match p with
  | ReadStatus =>
      match status demo_settings 0 0 (sr_server r) (reads_of w (sr_server r)) with
      | Ok st => Some (w, after_status st)
      | Err _ => None
      end
  | LookCache st g =>
      let '(c, cached) := Cache.get (cache w) (cache_key r g) in
      Some (set_cache w c, after_lookup st g cached)
  | RunSearch st g =>
      match search fts_matches (db w) (sr_server r) g (sr_query r) (sr_mode r) (sr_limit r) with
      | Ok found => Some (w, CheckDeleting st g found)
      | Err _ => None
      end
  | CheckDeleting st g found =>
      if bool_decide (sr_server r ∈ deleting w) then None else Some (w, after_check r st g found)
  | StoreResult g value =>
      Some (set_cache w (Cache.insert (cache w) (cache_key r g) value), Answered value)
  | _ => None
  end.

Lemma advance_step w r p w' p' :
  advance w r p = Some (w', p') -> search_step fts_matches demo_settings w r p w' p'.
Proof.
  destruct p as [|st|st g|st g|st g found| |g value| | |]; cbn; try done.
  - destruct (status _ _ _ _ _) as [st|e] eqn:E; [|done]. intros [= <- <-]. apply step_status.
    exists 0, 0, (reads_of w (sr_server r)). split; [done|]. split; [by left|done].
  - destruct (Cache.get _ _) as [c cached] eqn:E. intros [= <- <-]. by apply step_lookup.
  - destruct (search _ _ _ _ _ _ _) as [found|e] eqn:E; [|done]. intros [= <- <-]. by apply step_search.
  - destruct (bool_decide _) eqn:E; [done|]. intros [= <- <-].
    pose proof (step_check fts_matches demo_settings w r st g found) as Hc. by rewrite E in Hc.
  - intros [= <- <-]. apply step_store.
Qed.

Inductive Act :=
| ActSearch (t : nat) (r : SearchRequest)
| ActAdvance (t : nat)
| ActBuild (server : string) (entries : list InventoryEntry)   (* generation 1, up to its promotion *)
| ActRemove (server : string)
| ActClearCache (server : string).

Definition has_active (d : IndexDb) (server : string) : bool :=
  existsb (fun r => of_server server r && is_state Active r) (generations d).

Definition act (w : World) (a : Act) : option World :=
  match a with
  | ActSearch t r =>
      if is_some (searches w !! t) || negb (is_ok (search_request max_results (sr_server r)
           (sr_query r) (sr_mode r) (sr_limit r)))
         || negb (sr_limit r =? Z.min (Z.max (sr_limit r) 1) max_results) then None
      else Some (set_search w t r ReadStatus)
  | ActAdvance t =>
      match searches w !! t with
      | Some (r, p) => (fun '(w', p') => set_search w' t r p') <$> advance w r p
      | None => None
      end
  | ActBuild server new =>
      let d1 := db_exec (db w) (OpStartGeneration server OrgFlat SourceFlat "1") in
      let d2 := db_exec d1 (OpInsertEntries server 1 new) in
      if has_active d1 server || has_active d2 server || bool_decide (server ∈ clearing w) then None
      else Some (set_db w (db_exec d2 (OpPromote server 1 "2" (Z.of_nat (length new)) None None)))
  | ActRemove server =>
      Some (mk_world (db_exec (db w) (OpDeleteIndex server)) (cache w) (deleting w) (searches w)
              ({[server]} ∪ clearing w))
  | ActClearCache server =>
      Some (mk_world (db w) (Cache.clear_server (cache w) server) (deleting w) (searches w)
              (clearing w ∖ {[server]}))
  end.

Fixpoint run_acts (w : World) (acts : list Act) : option World :=
  match acts with
  | [] => Some w
  | a :: rest => act w a ≫= fun w => run_acts w rest
  end.

Lemma no_active d s g : has_active d s = false -> ~ active d s g.
Proof.
  unfold has_active. intros Hf (r & Hr & [= Hs _] & Ha). rewrite <- not_true_iff_false, existsb_exists in Hf. apply Hf.
  exists r. split; [done|]. by rewrite (proj2 (of_server_iff s r) Hs), (proj2 (is_state_iff Active r) Ha).
Qed.

Definition quiet_act (a : Act) : bool := match a with ActRemove _ => false | _ => true end.

Lemma act_reachable quiet capacity w a w' :
  quiet = false \/ quiet_act a = true ->
  reachable fts_matches demo_settings max_results quiet capacity w -> act w a = Some w' ->
  reachable fts_matches demo_settings max_results quiet capacity w'.
Proof.
  intros Hq Hw. destruct a as [t r|t|server new|server|server]; cbn [act].
  - destruct (searches w !! t) eqn:Ht; [done|]. cbn [is_some is_some_and orb].
    destruct (search_request _ _ _ _ _) as [r'|e] eqn:Er; [|done]. cbn [is_ok negb orb].
    destruct (Z.eqb_spec (sr_limit r) (Z.min (Z.max (sr_limit r) 1) max_results)) as [El|]; [|done].
    intros [= <-]. eapply reachable_step; [done|]. eapply step_begin; [done|].
    rewrite Er. revert Er. unfold search_request. destruct (bool_decide _); [done|].
    intros <-%ok_inj. rewrite <- El. by destruct r.
  - destruct (searches w !! t) as [[r p]|] eqn:Ht; [|done].
    destruct (advance w r p) as [[w1 p1]|] eqn:Ha; [|done]. cbn. intros [= <-].
    eapply reachable_step; [done|]. eapply step_search_task; [done|]. by apply advance_step.
  - cbv zeta. destruct (has_active _ _) eqn:E1; [done|]. cbn [orb].
    match goal with |- context [has_active ?d ?s] => destruct (has_active d s) eqn:E2 end; [done|].
    cbn [orb]. destruct (bool_decide_reflect (server ∈ clearing w)) as [|E3]; [done|]. intros [= <-].
    set (d1 := db_exec (db w) _) in *. set (d2 := db_exec d1 _) in *.
    assert (H1 : reachable fts_matches demo_settings max_results quiet capacity (set_db w d1)).
    { eapply reachable_step; [done|]. apply (step_write _ _ _ _ w). by intros s []. }
    assert (H2 : reachable fts_matches demo_settings max_results quiet capacity (set_db w d2)).
    { eapply reachable_step; [exact H1|]. apply (step_write _ _ _ _ (set_db w d1)).
      intros s [<- Ha]. by apply (no_active d1 server 1). }
    eapply reachable_step; [exact H2|]. apply (step_promote _ _ _ _ (set_db w d2)); [|done].
    intros g Hg. by destruct (no_active d2 server g).
  - intros [= <-]. eapply reachable_step; [done|]. apply (step_remove _ _ _ _ w server (OpDeleteIndex server)); [by left|].
    intros ->.
    by destruct Hq.
  - intros [= <-]. eapply reachable_step; [done|]. apply step_clear_cache.
Qed.

Lemma search_run_acts_reachable quiet capacity acts : forall w w',
  quiet = false \/ forallb quiet_act acts = true ->
  reachable fts_matches demo_settings max_results quiet capacity w -> run_acts w acts = Some w' ->
  reachable fts_matches demo_settings max_results quiet capacity w'.
Proof.
  induction acts as [|a acts IH]; cbn [run_acts forallb]; intros w w' Hq Hw; [by intros [= <-]|].
  destruct (act w a) as [w1|] eqn:Ha; [|done]. cbn [mbind option_bind].
  rewrite andb_true_iff in Hq. apply IH; [tauto|]. eapply act_reachable; [|done..]. tauto.
Qed.
End Demo.

Definition no_fts : ustr -> FtsRow -> bool := fun _ _ => false.
Definition demo_world : World := mk_world demo_db (empty_cache 8) ∅ ∅ ∅.
Definition demo_after (w : World) (acts : list Act) : World :=
  unwrap_or w (run_acts (H := ascii_text) no_fts 50 w acts).

Lemma search_demo_after_reachable quiet w acts :
  quiet = false \/ forallb quiet_act acts = true ->
  reachable (H := ascii_text) no_fts demo_settings 50 quiet 8 w ->
  reachable (H := ascii_text) no_fts demo_settings 50 quiet 8 (demo_after w acts).
Proof.
  intros Hq Hw. unfold demo_after. destruct (run_acts _ _ _ _) as [w'|] eqn:E; [|done]. cbn.
  by eapply (search_run_acts_reachable (H := ascii_text)).
Qed.

Lemma demo_world_reachable quiet : reachable (H := ascii_text) no_fts demo_settings 50 quiet 8 demo_world.
Proof. apply reachable_initial, demo_reachable. Qed.

(** An exact search of the demonstration database, twice: the second looks in the cache. *)
Definition demo_request : SearchRequest := mk_request "plc" [112; 118] 1 10.
Definition demo_cached : World :=
  demo_after demo_world
    ([ActSearch 1 demo_request] ++ replicate 5 (ActAdvance 1) ++ [ActSearch 2 demo_request; ActAdvance 2]).
Definition pc_of (w : World) (t : nat) : SearchPc :=
  match searches w !! t with Some (_, p) => p | None => ReadStatus end.
Definition answer_of (w : World) (r : SearchRequest) (p : SearchPc) : World * IndexedSearch :=
  match advance (H := ascii_text) no_fts w r p with
  | Some (w', Answered value) => (w', value)
  | _ => (w, mk_indexed_search [] false demo_status)
  end.

Lemma search_cache_transparent_witness :
  pc_of demo_cached 2 = LookCache (search_status (answer_of demo_cached demo_request (pc_of demo_cached 2)).2) 2 /\
  exists found,
    search (H := ascii_text) no_fts (db demo_cached) "plc" 2 [112; 118] 1 10 = Ok found /\
    matches (answer_of demo_cached demo_request (pc_of demo_cached 2)).2 = take 10 found.
Proof.
  split; [vm_compute; reflexivity|].
  destruct (search_cache_transparent (H := ascii_text) no_fts demo_settings 50 8 demo_cached
    (answer_of demo_cached demo_request (pc_of demo_cached 2)).1 2 demo_request (pc_of demo_cached 2)
    (answer_of demo_cached demo_request (pc_of demo_cached 2)).2) as (found & Hf & Hm & _).
  - apply search_demo_after_reachable; [by right|apply demo_world_reachable].
  - vm_compute. reflexivity.
  - apply (advance_step (H := ascii_text)). vm_compute. reflexivity.
  - apply active_check. vm_compute. reflexivity.
  - exists found. split; [exact Hf|exact Hm].
Defined.

(** ** A stale answer *)

Definition demo_item (item : Z) : InventoryEntry :=
  {| entry_display_name := [112; 118]; entry_item_id := [item]; entry_kind := InventoryItem;
     entry_breadcrumbs := [] |}.

(** A search about to store what it found, the index deleted and built again, and a second
    search. *)
Definition demo_stale : World :=
  demo_after (mk_world empty_db (empty_cache 8) ∅ ∅ ∅)
    ([ActBuild "plc" [demo_item 65]; ActSearch 1 demo_request] ++ replicate 4 (ActAdvance 1) ++
     [ActRemove "plc"; ActClearCache "plc"; ActBuild "plc" [demo_item 66]; ActClearCache "plc";
      ActAdvance 1; ActSearch 2 demo_request; ActAdvance 2]).

(** The generations of a deleted index are numbered from one again: a search that stores its
    result after the deletion cleared the cache makes later searches of the new index
    answer with the items of the deleted one. *)
Lemma stale_answer_after_deletion :
  exists (w w' : World) (p : SearchPc) (value : IndexedSearch),
    reachable (H := ascii_text) no_fts demo_settings 50 false 8 w /\
    searches w !! 2%nat = Some (demo_request, p) /\
    search_step (H := ascii_text) no_fts demo_settings w demo_request p w' (Answered value) /\
    active (db w) "plc" (st_active_generation (search_status value)) /\
    map m_item_id (matches value) = [[65]] /\
    result_map (map m_item_id)
      (search (H := ascii_text) no_fts (db w) "plc" (st_active_generation (search_status value))
         [112; 118] 1 10) = Ok [[66]].
Proof.
  exists demo_stale, (answer_of demo_stale demo_request (pc_of demo_stale 2)).1, (pc_of demo_stale 2),
    (answer_of demo_stale demo_request (pc_of demo_stale 2)).2.
  split; [apply search_demo_after_reachable; [by left|apply reachable_initial, reachable_empty]|].
  split; [vm_compute; reflexivity|].
  split; [apply (advance_step (H := ascii_text)); vm_compute; reflexivity|].
  split; [apply active_check; vm_compute; reflexivity|].
  split; vm_compute; reflexivity.
Qed.
