(* ===== verification/Commands.v ===== *)
(** * The commands of the client (opcda-bridge-client/src/config.rs, commands)

    The resolution of settings, the paging of [browse --all], and the validation of the
    search commands. The answers of the gateway are the input list of a command, consumed
    in the order of its requests; a command that asks for more answers than the list has
    ends waiting. What a command prints is its result: the page it shows and the number of
    pages it was made of. *)
From S2P Require Import Prelude Text Rpc Proto Api Manager Service.

(** ** Settings *)

Inductive OutputFormat := TableFormat | JsonFormat.

Record ClientConfig := {
  config_host : option string;
  config_server : option string;
  config_page_size : option Z;
  config_browse_all_limit : option Z;
  config_search_max_results : option Z;
  config_index_search_max_results : option Z;
  config_output : option OutputFormat
}.

Definition DEFAULT_HOST : string := "localhost:7600".
Definition DEFAULT_PAGE_SIZE : Z := 200.
Definition DEFAULT_BROWSE_ALL_LIMIT : Z := 10000.
Definition DEFAULT_SEARCH_MAX_RESULTS : Z := 200.
Definition DEFAULT_INDEX_SEARCH_MAX_RESULTS : Z := 50.

Definition resolve_host (cli : option string) (config : ClientConfig) : string :=
  unwrap_or DEFAULT_HOST (option_or cli (config_host config)).
Definition resolve_server (cli : option string) (config : ClientConfig) : result string string :=
  ok_or (option_or cli (config_server config))
    "no OPC server specified: pass --server or set `server` in the config file".
Definition resolve_page_size (cli : option Z) (config : ClientConfig) : Z :=
  unwrap_or DEFAULT_PAGE_SIZE (option_or cli (config_page_size config)).
Definition resolve_browse_all_limit (cli : option Z) (config : ClientConfig) : Z :=
  unwrap_or DEFAULT_BROWSE_ALL_LIMIT (option_or cli (config_browse_all_limit config)).
Definition resolve_search_max_results (cli : option Z) (config : ClientConfig) : Z :=
  unwrap_or DEFAULT_SEARCH_MAX_RESULTS (option_or cli (config_search_max_results config)).
Definition resolve_index_search_max_results (cli : option Z) (config : ClientConfig) : Z :=
  unwrap_or DEFAULT_INDEX_SEARCH_MAX_RESULTS (option_or cli (config_index_search_max_results config)).
Definition resolve_output (cli : option OutputFormat) (config : ClientConfig) : OutputFormat :=
  unwrap_or TableFormat (option_or cli (config_output config)).
(** [output::resolve_from_cli]: [--json] wins. *)
Definition resolve_from_cli (json : bool) (output : option OutputFormat) : option OutputFormat :=
  if json then Some JsonFormat else output.

(** ** Browsing *)

(** A message of the command itself, or an error of the client library. *)
Inductive CommandError :=
| CommandMessage (message : string)
| ClientError (error : Api.Error).

Record BrowsePageRequest := {
  req_server : string;
  req_session_id : option string;
  req_parent_node_key : option string;
  req_page_token : option string;
  req_page_size : Z;
  req_refresh : bool
}.

(** [BrowsePageRequest::next] *)
Definition next_request (server session : string) (parent : option string) (token : string)
    (page_size : Z) : BrowsePageRequest :=
  {| req_server := server; req_session_id := Some session; req_parent_node_key := parent;
     req_page_token := Some token; req_page_size := page_size; req_refresh := false |}.

(** [From<BrowsePageRequest> for proto::BrowseRequest] *)
Definition browse_request (value : BrowsePageRequest) : Proto.BrowseRequest :=
  {| browse_server := req_server value;
     browse_session_id := req_session_id value;
     browse_parent_node_key := req_parent_node_key value;
     browse_page_token := req_page_token value;
     browse_page_size := req_page_size value;
     browse_refresh := req_refresh value |}.

(** [Client::browse_page], given the gateway's answer. *)
Definition client_browse_page (answer : result Proto.BrowsePage Rpc.Status) : result Api.BrowsePage Error :=
  let? page := map_err (feature_error "paged browse") answer in
  Api.browse_page page.

Definition node_count (page : Api.BrowsePage) : Z := Z.of_nat (length (Api.page_nodes page)).

Definition ensure_page_bound (page : Api.BrowsePage) (requested : Z) : result unit CommandError :=
  if requested <? node_count page then
    Err (CommandMessage
           (String.append "gateway returned "
              (String.append (to_decimal (node_count page))
                 (String.append " nodes for a requested page size of " (to_decimal requested)))))
  else if negb (Api.page_complete page) && (node_count page =? 0) then
    Err (CommandMessage "gateway returned an empty incomplete browse page")
  else Ok tt.

Definition merge_warnings (existing next : option string) : option string :=
  match existing, next with
  | Some existing, Some next => Some (String.append existing (String.append "; " next))
  | Some existing, None => Some existing
  | None, Some next => Some next
  | None, None => None
  end.

Definition should_fetch_browse_page (all complete : bool) (nodes max_results : Z) : bool :=
  all && negb complete && (nodes <? max_results).
Definition stopped_at_browse_safety_cap (all complete : bool) (nodes max_results : Z) : bool :=
  all && negb complete && (max_results <=? nodes).
Definition next_browse_page_count (pages : Z) : Z := (pages + 1) mod 2 ^ 32.

Definition NamespaceOrganization_eq (a b : Api.NamespaceOrganization) : bool :=
  match a, b with
  | UnspecifiedOrganization, UnspecifiedOrganization | FlatOrganization, FlatOrganization
  | HierarchicalOrganization, HierarchicalOrganization => true
  | _, _ => false
  end.
Definition BrowseSource_eq (a b : Api.BrowseSource) : bool :=
  match a, b with
  | UnspecifiedSource, UnspecifiedSource | Da3Source, Da3Source | Da2Source, Da2Source
  | FlatSource, FlatSource | DerivedSource, DerivedSource => true
  | _, _ => false
  end.

(** One turn of the loop, with the gateway's answer. *)
Definition append_page (combined : Api.BrowsePage) (request_size : Z)
    (answer : result Proto.BrowsePage Rpc.Status) : result Api.BrowsePage CommandError :=
  let? page := map_err ClientError (client_browse_page answer) in
  let? _ := ensure_page_bound page request_size in
  if negb (String.eqb (Api.page_session_id page) (Api.page_session_id combined)) then
    Err (CommandMessage "gateway changed browse session ID while paging")
  else if negb (NamespaceOrganization_eq (Api.page_organization page) (Api.page_organization combined))
          || negb (BrowseSource_eq (Api.page_source page) (Api.page_source combined)) then
    Err (CommandMessage "gateway changed namespace metadata while paging")
  else
    Ok {| Api.page_session_id := Api.page_session_id combined;
          Api.page_nodes := Api.page_nodes combined ++ Api.page_nodes page;
          Api.page_next_page_token := Api.page_next_page_token page;
          Api.page_complete := Api.page_complete page;
          Api.page_organization := Api.page_organization combined;
          Api.page_source := Api.page_source combined;
          Api.page_warning := merge_warnings (Api.page_warning combined) (Api.page_warning page) |}.

Definition with_warning (page : Api.BrowsePage) (warning : option string) : Api.BrowsePage :=
  {| Api.page_session_id := Api.page_session_id page;
     Api.page_nodes := Api.page_nodes page;
     Api.page_next_page_token := Api.page_next_page_token page;
     Api.page_complete := Api.page_complete page;
     Api.page_organization := Api.page_organization page;
     Api.page_source := Api.page_source page;
     Api.page_warning := warning |}.

Inductive BrowseOutcome :=
| Waiting
| BrowseFailed (error : CommandError)
| Shown (page : Api.BrowsePage) (pages : Z).

Section Browse.
Context (server : string) (parent_node_key : option string) (page_size : Z) (all : bool)
  (max_results : Z).

Definition cap_warning : string :=
  String.append "stopped at the --all safety cap of "
    (String.append (to_decimal max_results) " results; more children are available").

Definition show (combined : Api.BrowsePage) (pages : Z) : BrowseOutcome :=
  Shown
    (if stopped_at_browse_safety_cap all (Api.page_complete combined) (node_count combined) max_results
     then with_warning combined (merge_warnings (Api.page_warning combined) (Some cap_warning))
     else combined)
    pages.

(** [page_size.min(max_results - combined.nodes.len() as u32)] *)
Definition request_size (combined : Api.BrowsePage) : Z :=
  Z.min page_size ((max_results - node_count combined mod 2 ^ 32) mod 2 ^ 32).

(** The loop: the requests it sends, and how it ends. *)
Fixpoint fetch_pages (answers : list (result Proto.BrowsePage Rpc.Status)) (combined : Api.BrowsePage)
    (pages : Z) : list Proto.BrowseRequest * BrowseOutcome :=
  if should_fetch_browse_page all (Api.page_complete combined) (node_count combined) max_results then
    let size := request_size combined in
    let request :=
      browse_request
        (next_request server (Api.page_session_id combined) parent_node_key
           (unwrap_or "" (Api.page_next_page_token combined)) size) in
    match answers with
    | [] => ([request], Waiting)
    | answer :: rest =>
        match append_page combined size answer with
        | Err error => ([request], BrowseFailed error)
        | Ok combined =>
            let '(requests, outcome) := fetch_pages rest combined (next_browse_page_count pages) in
            (request :: requests, outcome)
        end
    end
  else ([], show combined pages).

Definition first_size : Z := if all then Z.min page_size max_results else page_size.

Definition cmd_browse (session_id page_token : option string) (refresh : bool)
    (answers : list (result Proto.BrowsePage Rpc.Status)) :
    list Proto.BrowseRequest * BrowseOutcome :=
  if page_size =? 0 then
    ([], BrowseFailed (CommandMessage "--page-size must be greater than zero"))
  else if all && (max_results =? 0) then
    ([], BrowseFailed (CommandMessage "--max-results must be greater than zero with --all"))
  else
    let request :=
      browse_request
        {| req_server := server; req_session_id := session_id;
           req_parent_node_key := parent_node_key; req_page_token := page_token;
           req_page_size := first_size; req_refresh := refresh |} in
    match answers with
    | [] => ([request], Waiting)
    | answer :: rest =>
        match
          (let? page := map_err ClientError (client_browse_page answer) in
           let? _ := ensure_page_bound page first_size in
           Ok page)
        with
        | Err error => ([request], BrowseFailed error)
        | Ok combined =>
            let '(requests, outcome) := fetch_pages rest combined 1 in (request :: requests, outcome)
        end
    end.
End Browse.

(** ** Searching *)

(** [cmd_search], up to the request it sends. *)
Definition cmd_search (server : string) (query : ustr) (mode : Api.SearchMatchMode)
    (session_id scope_node_key : option string) (max_results : Z) (include_branches refresh : bool) :
    result Proto.SearchRequest CommandError :=
  if max_results =? 0 then Err (CommandMessage "--max-results must be greater than zero")
  else
    Ok (Api.search_request
          {| Api.request_server := server; Api.request_query := query;
             Api.request_match_mode := mode; Api.request_session_id := session_id;
             Api.request_scope_node_key := scope_node_key; Api.request_max_results := max_results;
             Api.request_include_branches := include_branches; Api.request_refresh := refresh |}).

(** [str::trim] *)
Fixpoint trim_front (s : ustr) : ustr :=
  match s with
  | c :: rest => if is_whitespace c then trim_front rest else s
  | [] => []
  end.
Definition trim (s : ustr) : ustr := rev (trim_front (rev (trim_front s))).

(** [Display] of [SearchMatchMode] *)
Definition match_mode_text (mode : Api.SearchMatchMode) : string :=
  match mode with
  | ExactMode => "exact"
  | PrefixMode => "prefix"
  | ContainsMode => "contains"
  end.

(** [cmd_index_search], up to the request it sends. *)
Definition cmd_index_search (server : string) (query : ustr) (mode : Api.SearchMatchMode)
    (max_results : Z) : result Proto.SearchIndexRequest CommandError :=
  if max_results =? 0 then Err (CommandMessage "--max-results must be greater than zero")
  else
    let query := trim query in
    let minimum := match mode with ExactMode | PrefixMode => 2 | ContainsMode => 3 end in
    if bool_decide (query = []) then Err (CommandMessage "indexed search query must not be empty")
    else if Z.of_nat (length query) <? minimum then
      Err (CommandMessage
             (String.append "indexed "
                (String.append (match_mode_text mode)
                   (String.append " searches require at least "
                      (String.append (to_decimal minimum) " characters")))))
    else
      Ok (Api.search_index_request
            {| Api.index_server := server; Api.index_query := query; Api.index_match_mode := mode;
               Api.index_max_results := max_results |}).
