(* ===== verification/CommandsSpec.v ===== *)
(** * What the commands of the client do

    [browse --all] follows the pages of a gateway until they are complete or the cap is
    reached: it always ends, and shows the nodes of the pages it received, in order. The
    queries the command line accepts for an indexed search are accepted by the gateway. *)
From S2P Require Import Prelude Text Rpc Proto Query Api Manager Service Commands.

#[local] Arguments append_page : simpl never.
#[local] Arguments client_browse_page : simpl never.

Section BrowseSpec.
Context (server : string) (parent : option string) (page_size : Z) (max_results : Z).
Context (Hsize : 0 < page_size <= u32_max) (Hmax : 0 < max_results <= u32_max).

Abbreviation answer := (result Proto.BrowsePage Rpc.Status).
Abbreviation fetch_pages := (fetch_pages server parent page_size true max_results).

(** The request after [prev], when [nodes] nodes were received. *)
Definition following (session : string) (nodes : Z) (prev : Api.BrowsePage) : Proto.BrowseRequest :=
  {| browse_server := server; browse_session_id := Some session; browse_parent_node_key := parent;
     browse_page_token := Api.page_next_page_token prev;
     browse_page_size := Z.min page_size (max_results - nodes); browse_refresh := false |}.

(** [requests] and the [pages] that answered them, the first after [prev]: every page was
    incomplete up to the last, gives no more nodes than asked for, and belongs to the session. *)
Fixpoint paged (session : string) (nodes : Z) (prev : Api.BrowsePage)
    (requests : list Proto.BrowseRequest) (pages : list Api.BrowsePage) : Prop :=
  match requests, pages with
  | [], [] => True
  | request :: requests, page :: pages =>
      Api.page_complete prev = false /\ nodes < max_results /\
      request = following session nodes prev /\ 0 < browse_page_size request /\
      node_count page <= browse_page_size request /\ Api.page_session_id page = session /\
      paged session (nodes + node_count page) page requests pages
  | _, _ => False
  end.

Definition all_nodes (pages : list Api.BrowsePage) : list Api.BrowseNode :=
  concat (map Api.page_nodes pages).

Lemma request_size_value combined :
  node_count combined < max_results -> 0 <= node_count combined ->
  request_size page_size max_results combined = Z.min page_size (max_results - node_count combined).
Proof.
  intros Hlt Hpos. unfold request_size. unfold umax in *.
  rewrite (Z.mod_small (node_count combined)) by lia. rewrite Z.mod_small by lia. done.
Qed.

Lemma last_default {A} (l : list A) : forall p d, List.last (p :: l) d = List.last l p.
Proof.
  induction l as [|q l IH]; intros p d; [done|].
  change (List.last (p :: q :: l) d) with (List.last (q :: l) d). by rewrite !IH.
Qed.

(** What a turn of the loop adds. *)
Lemma append_page_ok combined size a combined' :
  append_page combined size a = Ok combined' ->
  exists page, client_browse_page a = Ok page /\ node_count page <= size /\
    (Api.page_complete page = false -> 0 < node_count page) /\
    Api.page_session_id page = Api.page_session_id combined /\
    Api.page_session_id combined' = Api.page_session_id combined /\
    Api.page_nodes combined' = Api.page_nodes combined ++ Api.page_nodes page /\
    Api.page_next_page_token combined' = Api.page_next_page_token page /\
    Api.page_complete combined' = Api.page_complete page.
Proof.
  unfold append_page. destruct (client_browse_page a) as [page|e]; [|done]. cbn [map_err result_bind].
  unfold ensure_page_bound. destruct (Z.ltb_spec size (node_count page)); [done|].
  destruct (negb (Api.page_complete page) && (node_count page =? 0)) eqn:E; [done|]. cbn [result_bind].
  destruct (String.eqb_spec (Api.page_session_id page) (Api.page_session_id combined)); [|done].
  cbn [negb]. destruct (_ || _); [done|]. intros <-%ok_inj. exists page. split; [done|]. split; [done|].
  split; [|done]. intros Hc. rewrite Hc in E. cbn in E. unfold node_count in *. lia.
Qed.

Lemma client_page_token a page :
  client_browse_page a = Ok page -> Api.page_complete page = false -> is_some (Api.page_next_page_token page) = true.
Proof.
  unfold client_browse_page. destruct a as [v|e]; cbn [map_err result_bind]; [|done].
  unfold Api.browse_page. destruct (Proto.page_complete v) eqn:Ec, (is_some (Proto.page_next_page_token v)) eqn:Et;
    cbn [andb negb]; try done.
  all: destruct (collect _) as [nodes|]; [|done]; cbn [result_bind];
    destruct (organization _) as [org|]; [|done]; cbn [result_bind];
    destruct (source _) as [src|]; [|done]; cbn [result_bind]; intros <-%ok_inj; cbn; congruence.
Qed.

Lemma node_count_nonneg p : 0 <= node_count p.
Proof. unfold node_count. lia. Qed.

Lemma show_page combined pages page n :
  show true max_results combined pages = Shown page n ->
  n = pages /\ Api.page_session_id page = Api.page_session_id combined /\
  Api.page_nodes page = Api.page_nodes combined /\
  Api.page_complete page = Api.page_complete combined /\
  Api.page_next_page_token page = Api.page_next_page_token combined.
Proof. unfold show. intros [= <- <-]. by destruct (stopped_at_browse_safety_cap _ _ _ _). Qed.

(** The run of the loop, from a page with a token where it is incomplete. *)
Lemma fetch_pages_spec answers : forall prev combined pages requests outcome,
  Api.page_next_page_token combined = Api.page_next_page_token prev ->
  Api.page_complete combined = Api.page_complete prev ->
  (Api.page_complete prev = false -> is_some (Api.page_next_page_token prev) = true) ->
  node_count combined <= max_results -> 0 < pages <= node_count combined \/ Api.page_complete prev = true ->
  fetch_pages answers combined pages = (requests, outcome) ->
  (outcome = Waiting -> Z.of_nat (length answers) < max_results - node_count combined) /\
  Z.of_nat (length requests) <= max_results - node_count combined /\
  forall page n, outcome = Shown page n ->
    exists received unread,
      answers = received ++ unread /\
      exists l, Forall2 (fun a p => client_browse_page a = Ok p) received l /\
        paged (Api.page_session_id combined) (node_count combined) prev requests l /\
        Api.page_session_id page = Api.page_session_id combined /\
        Api.page_nodes page = Api.page_nodes combined ++ all_nodes l /\
        Api.page_complete page = Api.page_complete (List.last l prev) /\
        Api.page_next_page_token page = Api.page_next_page_token (List.last l prev) /\
        n = pages + Z.of_nat (length l) /\
        (Api.page_complete page = false -> node_count page = max_results).
Proof.
  induction answers as [|a answers IH]; intros prev combined pages requests outcome Ht Hc Htok Hle Hpages.
  all: cbn [Commands.fetch_pages]; unfold should_fetch_browse_page; cbn [andb]; rewrite Hc;
    pose proof (node_count_nonneg combined) as Hpos.
  all: destruct (negb (Api.page_complete prev) && (node_count combined <? max_results)) eqn:Efetch.
  2,4: intros [= <- <-]; split; [done|]; split; [cbn [length]; lia|]; intros page n Hshow;
    pose proof (show_page _ _ _ _ Hshow) as (-> & Hs & Hn & Hcp & Htk);
    eexists [], _; split; [reflexivity|]; exists []; cbn [List.last length all_nodes concat map];
    rewrite app_nil_r; repeat split; try congruence; try lia; [constructor|];
    unfold node_count in *; rewrite Hcp, Hn, Hc; intros Hcf; rewrite Hcf in Efetch;
    cbn [negb andb] in Efetch; lia.
  all: apply andb_true_iff in Efetch as [Hinc%negb_true_iff Hlt%Z.ltb_lt];
    rewrite (request_size_value combined Hlt Hpos).
  - intros [= <- <-]. split; [cbn [length]; lia|]. split; [cbn [length]; lia|]. done.
  - set (size := Z.min page_size (max_results - node_count combined)).
    destruct (append_page combined size a) as [combined'|e] eqn:Ha.
    2: { intros [= <- <-]. split; [done|]. split; [cbn [length]; lia|]. done. }
    destruct (append_page_ok _ _ _ _ Ha) as (p & Hp & Hcount & Hne & Hsess & Hsess' & Hnodes & Htk' & Hc').
    assert (Hcount' : node_count combined' = node_count combined + node_count p).
    { unfold node_count. rewrite Hnodes, length_app. lia. }
    pose proof (node_count_nonneg p) as Hpp. destruct Hpages as [Hpages|Hpages]; [|congruence].
    destruct (fetch_pages answers combined' (next_browse_page_count pages)) as [reqs out] eqn:Ef.
    intros [= <- <-].
    assert (Hnext : next_browse_page_count pages = pages + 1).
    { unfold next_browse_page_count. unfold umax in *. rewrite Z.mod_small; lia. }
    destruct (IH p combined' (next_browse_page_count pages) reqs out) as (Hw & Hr & Hok).
    + done.
    + done.
    + by apply (client_page_token a).
    + lia.
    + rewrite Hnext. destruct (Api.page_complete p) eqn:Epc; [by right|left].
      specialize (Hne eq_refl). lia.
    + done.
    + split; [intros Hout; specialize (Hw Hout); cbn [length]|split].
      * destruct (Api.page_complete p) eqn:Epc; [|specialize (Hne eq_refl); lia].
        exfalso. revert Ef Hout. clear -Hc'. destruct answers; cbn [Commands.fetch_pages];
          unfold should_fetch_browse_page; rewrite Hc'; cbn; intros [= <- <-]; done.
      * cbn [length]. destruct (Api.page_complete p) eqn:Epc; [|specialize (Hne eq_refl); lia].
        assert (reqs = []) as ->; [|cbn [length]; lia]. revert Ef. clear -Hc'.
        destruct answers; cbn [Commands.fetch_pages]; unfold should_fetch_browse_page; rewrite Hc'; cbn;
          by intros [= <- _].
      * intros page n Hout.
        destruct (Hok page n Hout) as (received & unread & -> & l & Hf & Hpg & H1 & H2 & H3 & H4 & H5 & H6).
        exists (a :: received), unread. split; [done|]. exists (p :: l). split; [by constructor|].
        assert (Hlast : List.last (p :: l) prev = List.last l p).
        { by apply last_default. }
        rewrite Hlast. cbn [length]. repeat split; try congruence; try lia.
        -- unfold following, browse_request, next_request. cbn. f_equal.
           rewrite Ht. specialize (Htok Hinc). by destruct (Api.page_next_page_token prev).
        -- cbn. lia.
        -- rewrite Hsess', Hcount' in Hpg. done.
        -- rewrite H2, Hnodes. unfold all_nodes. cbn [map concat]. by rewrite app_assoc.
        -- done.
Qed.

Lemma paged_bound session : forall requests nodes prev pages,
  paged session nodes prev requests pages -> nodes <= max_results ->
  nodes + Z.of_nat (length (all_nodes pages)) <= max_results.
Proof.
  induction requests as [|r requests IH]; intros nodes prev [|p pages] Hp Hle; cbn in Hp; try done.
  - cbn. lia.
  - destruct Hp as (_ & Hlt & -> & _ & Hc & _ & Hp). cbn [following browse_page_size] in Hc.
    specialize (IH _ _ _ Hp ltac:(lia)). unfold all_nodes in *. cbn [map concat].
    rewrite length_app. unfold node_count in *. lia.
Qed.

(** The first page, and the loop after it. *)
Notation first_asked session_id page_token refresh :=
  {| browse_server := server; browse_session_id := session_id; browse_parent_node_key := parent;
     browse_page_token := page_token; browse_page_size := Z.min page_size max_results;
     browse_refresh := refresh |}.
Lemma cmd_browse_cases session_id page_token refresh answers requests outcome :
  cmd_browse server parent page_size true max_results session_id page_token refresh answers = (requests, outcome) ->
  (requests = [first_asked session_id page_token refresh] /\ (outcome = Waiting -> answers = []) /\
   forall page n, outcome <> Shown page n) \/
  exists a unread first rest,
    answers = a :: unread /\ client_browse_page a = Ok first /\
    requests = first_asked session_id page_token refresh :: rest /\
    node_count first <= Z.min page_size max_results /\
    (0 < 1 <= node_count first \/ Api.page_complete first = true) /\
    fetch_pages unread first 1 = (rest, outcome).
Proof.
  unfold cmd_browse. destruct (Z.eqb_spec page_size 0); [lia|].
  destruct (Z.eqb_spec max_results 0); [lia|]. cbn [andb]. unfold first_size.
  destruct answers as [|a answers]; [intros [= <- <-]; by left|].
  destruct (client_browse_page a) as [first|e] eqn:Ha; cbn [map_err result_bind]; [|intros [= <- <-]; by left].
  unfold ensure_page_bound.
  destruct (Z.ltb_spec (Z.min page_size max_results) (node_count first)) as [|Hcount]; cbn [result_bind];
    [intros [= <- <-]; by left|].
  destruct (negb (Api.page_complete first) && (node_count first =? 0)) eqn:Ene; cbn [result_bind];
    [intros [= <- <-]; by left|].
  pose proof (node_count_nonneg first) as Hpos.
  destruct (fetch_pages answers first 1) as [rest out] eqn:Ef. intros [= <- <-]. right.
  exists a, answers, first, rest. split_and!; try done.
  destruct (Api.page_complete first); [by right|left]. cbn in Ene. lia.
Qed.
Lemma fetch_complete answers first rest outcome :
  Api.page_complete first = true -> fetch_pages answers first 1 = (rest, outcome) -> rest = [] /\ outcome <> Waiting.
Proof.
  intros Hc. destruct answers; cbn [Commands.fetch_pages]; unfold should_fetch_browse_page;
    rewrite Hc; cbn; by intros [= <- <-].
Qed.
Lemma requests_bounded session_id page_token refresh answers requests outcome :
  cmd_browse server parent page_size true max_results session_id page_token refresh answers = (requests, outcome) ->
  Z.of_nat (length requests) <= max_results.
Proof.
  intros [(-> & _)|(a & unread & first & rest & -> & Ha & -> & Hcount & Hne & Ef)]%cmd_browse_cases; [cbn; lia|].
  destruct (fetch_pages_spec unread first first 1 rest outcome eq_refl eq_refl
    (client_page_token a first Ha) ltac:(lia) Hne Ef) as (_ & Hr & _).
  pose proof (node_count_nonneg first). cbn [length]. destruct Hne as [?|Hc]; [lia|].
  destruct (fetch_complete _ _ _ _ Hc Ef) as [-> _]. cbn. lia.
Qed.


(** C30: [browse --all] ends with what the gateway has, up to the cap. Whatever the gateway
    answers, the command sends at most [max_results] requests, and stops without waiting
    for more than as many answers; when it shows a page, its nodes are those of the pages
    it received, in order and no more than the cap; every request but the first continues
    the page before it, in the session of the first page, for the remaining nodes at most;
    and the page is complete, or has exactly as many nodes as the cap. *)
Theorem browse_all_ends (session_id page_token : option string) (refresh : bool)
    (answers : list answer) (requests : list Proto.BrowseRequest) (outcome : BrowseOutcome)
    (Hrun : cmd_browse server parent page_size true max_results session_id page_token refresh answers
              = (requests, outcome)) :
  (outcome = Waiting -> Z.of_nat (length answers) < max_results) /\
  Z.of_nat (length requests) <= max_results /\
  forall page n, outcome = Shown page n ->
    exists received unread first pages rest,
      answers = received ++ unread /\
      Forall2 (fun a p => client_browse_page a = Ok p) received (first :: pages) /\
      requests = {| browse_server := server; browse_session_id := session_id;
                    browse_parent_node_key := parent; browse_page_token := page_token;
                    browse_page_size := Z.min page_size max_results; browse_refresh := refresh |} :: rest /\
      paged (Api.page_session_id first) (node_count first) first rest pages /\
      Api.page_session_id page = Api.page_session_id first /\
      Api.page_nodes page = all_nodes (first :: pages) /\ node_count page <= max_results /\
      Api.page_complete page = Api.page_complete (List.last pages first) /\
      Api.page_next_page_token page = Api.page_next_page_token (List.last pages first) /\
      n = Z.of_nat (length received) /\
      (Api.page_complete page = false -> node_count page = max_results).
Proof.
  pose proof (requests_bounded _ _ _ _ _ _ Hrun) as Hbound.
  apply cmd_browse_cases in Hrun as [(-> & Hw & Hn)|(a & unread & first & rest & -> & Ha & -> & Hcount & Hne & Ef)].
  { split; [intros Ho; rewrite (Hw Ho); cbn [length]; lia|]. split; [done|]. intros page n Ho. by destruct (Hn page n). }
  pose proof (node_count_nonneg first) as Hpos.
  destruct (fetch_pages_spec unread first first 1 rest outcome eq_refl eq_refl
    (client_page_token a first Ha) ltac:(lia) Hne Ef) as (Hw & Hr & Hok).
  split; [|split; [done|]].
  - intros Ho. specialize (Hw Ho). cbn [length]. destruct Hne as [?|Hc]; [lia|].
    by destruct (fetch_complete _ _ _ _ Hc Ef).
  - intros page m Hout.
    destruct (Hok page m Hout) as (received & unread' & -> & l & Hf & Hpg & H1 & H2 & H3 & H4 & H5 & H6).
    exists (a :: received), unread', first, l, rest. split; [done|]. split; [by constructor|].
    split; [done|]. split; [done|]. split; [done|]. split; [done|]. split.
    { pose proof (paged_bound _ _ _ _ _ Hpg ltac:(lia)). unfold node_count in *.
      rewrite H2, length_app. lia. }
    split; [done|]. split; [done|]. split; [|done].
    rewrite H5. cbn [length]. rewrite (Forall2_length _ _ _ Hf). lia.
Qed.

End BrowseSpec.

(** ** Indexed searches *)

(** What is left of a text when its outer white space is cut. *)
Lemma trim_front_head s c rest : trim_front s = c :: rest -> is_whitespace c = false.
Proof.
  induction s as [|d s IH]; cbn; [done|]. destruct (is_whitespace d) eqn:E; [done|]. by intros [= -> ->].
Qed.

Lemma split_word word s :
  word <> [] \/ (exists c, In c s /\ is_whitespace c = false) -> split_whitespace_from word s <> [].
Proof.
  revert word. induction s as [|c s IH]; intros word Hw; cbn.
  - destruct (decide (word = [])); [|done]. by destruct Hw as [?|(c & [] & _)].
  - destruct (is_whitespace c) eqn:E.
    + destruct (decide (word = [])) as [->|]; [|done]. apply IH. right.
      destruct Hw as [?|(d & [->|Hd] & Hdw)]; [done|congruence|by exists d].
    + apply IH. by left.
Qed.

Lemma split_words_nonempty s : forall word, Forall (fun w => w <> []) (split_whitespace_from word s).
Proof.
  induction s as [|c s IH]; intros word; cbn.
  - destruct (decide (word = [])) as [|Hw]; constructor; [|done]. intros E. apply Hw.
    apply (f_equal (@rev Z)) in E. by rewrite rev_involutive in E.
  - destruct (is_whitespace c); [destruct (decide (word = [])) as [|Hw]|]; [done| |done].
    constructor; [|done]. intros E. apply Hw. apply (f_equal (@rev Z)) in E. by rewrite rev_involutive in E.
Qed.

(** A text that ends in a word, begun within one, is that word, or two words and more. *)
Lemma split_one_or_more c s : is_whitespace c = false -> forall word, word <> [] ->
  split_whitespace_from word (s ++ [c]) = [rev word ++ s ++ [c]] \/
  exists w1 w2 rest, split_whitespace_from word (s ++ [c]) = w1 :: w2 :: rest.
Proof.
  intros Hc. induction s as [|d s IH]; intros word Hw; cbn [app split_whitespace_from].
  - left. rewrite Hc. cbn. by destruct (decide (c :: word = [])).
  - destruct (is_whitespace d).
    + right. rewrite decide_False by done.
      destruct (split_whitespace_from [] (s ++ [c])) as [|w2 rest] eqn:E; [|by exists (rev word), w2, rest].
      exfalso. revert E. apply split_word. right. exists c. split; [|done]. apply in_app_iff. right. by left.
    + destruct (IH (d :: word)) as [->|?]; [done| |by right]. left. cbn [rev]. by rewrite <- !app_assoc.
Qed.

Lemma trim_front_suffix s : exists pre, s = pre ++ trim_front s.
Proof.
  induction s as [|d s [pre IH]]; cbn; [by exists []|]. destruct (is_whitespace d); [|by exists []].
  exists (d :: pre). cbn. by rewrite <- IH.
Qed.

(** A trimmed text begins and ends outside white space. *)
Lemma trim_ends q : trim q <> [] ->
  exists d, is_whitespace d = false /\
    (trim q = [d] \/ exists s c, trim q = d :: s ++ [c] /\ is_whitespace c = false).
Proof.
  unfold trim. set (t := trim_front q). destruct (trim_front_suffix (rev t)) as [pre Hpre].
  destruct (trim_front (rev t)) as [|c r] eqn:Er; [done|]. intros _.
  pose proof (trim_front_head _ _ _ Er) as Hc.
  assert (Ht : t = rev (c :: r) ++ rev pre) by (by rewrite <- rev_app_distr, <- Hpre, rev_involutive).
  destruct (rev (c :: r)) as [|d s] eqn:Es.
  { apply (f_equal (@rev Z)) in Es. by rewrite rev_involutive in Es. }
  exists d. split; [by apply (trim_front_head q d (s ++ rev pre))|].
  cbn [rev] in Es. destruct (rev r) as [|d' s'] eqn:Err.
  - left. injection Es as -> <-. done.
  - right. injection Es as -> <-. by exists s', c.
Qed.

Lemma joined_length (w1 w2 : ustr) (rest : list ustr) :
  w1 <> [] -> w2 <> [] -> (3 <= length (join [32%Z] (w1 :: w2 :: rest)))%nat.
Proof.
  intros H1 H2.
  assert (Hcons : forall (w : ustr) l, w <> [] -> (1 <= length (join [32%Z] (w :: l)))%nat).
  { intros [|c w] [|v l]; cbn; try done; intros _; lia. }
  change (join [32] (w1 :: w2 :: rest)) with (w1 ++ [32] ++ join [32] (w2 :: rest)).
  rewrite !length_app. specialize (Hcons w2 rest H2). destruct w1; [done|]. cbn [length] in *. lia.
Qed.

(** Cutting the inner white space leaves a text as it is, or three characters at least. *)
Lemma trimmed_words q : trim q <> [] ->
  join [32] (split_whitespace (trim q)) = trim q \/ (3 <= length (join [32%Z] (split_whitespace (trim q))))%nat.
Proof.
  intros Hq. destruct (trim_ends q Hq) as (d & Hd & [->|(s & c & -> & Hc)]).
  - left. unfold split_whitespace. cbn. by rewrite Hd.
  - unfold split_whitespace. cbn [split_whitespace_from]. rewrite Hd.
    destruct (split_one_or_more c s Hc [d]) as [->|(w1 & w2 & rest & E)]; [done|by left|right].
    pose proof (split_words_nonempty (s ++ [c]) [d]) as Hn. rewrite E in Hn |- *.
    apply Forall_cons in Hn as [H1 [H2 _]%Forall_cons]. by apply joined_length.
Qed.

(** The gateway accepts every query the command line accepts for an indexed search: the
    length of the trimmed query the client checks is enough for the normalized query the
    gateway checks, whatever white space it has inside. *)
Theorem index_search_accepted `{TextLibrary} (server : string) (query : ustr)
    (mode : Api.SearchMatchMode) (max_results : Z) (request : Proto.SearchIndexRequest)
    (Hlower : forall s, (length s <= length (to_lowercase s))%nat)
    (Hcmd : cmd_index_search server query mode max_results = Ok request) :
  validate_search_index (Proto.index_match_mode request) (Proto.index_query request) =
    Ok (match mode with
        | ExactMode => ModeExact
        | PrefixMode => ModePrefix
        | ContainsMode => ModeContains
        end) /\
  Proto.index_query request = trim query /\ Proto.index_max_results request = max_results /\
  max_results <> 0.
Proof.
  revert Hcmd. unfold cmd_index_search. destruct (Z.eqb_spec max_results 0) as [|Hmax]; [done|].
  destruct (bool_decide_reflect (trim query = [])) as [|Hq]; [done|].
  set (minimum := match mode with ExactMode | PrefixMode => 2 | ContainsMode => 3 end).
  destruct (Z.ltb_spec (Z.of_nat (length (trim query))) minimum) as [|Hlen]; [done|]. intros <-%ok_inj.
  split; [|done]. unfold validate_search_index. cbn [Proto.index_match_mode Proto.index_query search_index_request
    Api.index_match_mode Api.index_query].
  assert (Hn : minimum <= Z.of_nat (length (normalize_query (trim query)))).
  { pose proof (Hlower (join [32] (split_whitespace (trim query)))) as Hl. unfold normalize_query.
    destruct (trimmed_words query Hq) as [E|E]; [rewrite E in *; lia|].
    assert (minimum <= 3) by (unfold minimum; destruct mode; lia). lia. }
  destruct (normalize_query (trim query)) as [|c rest]; [exfalso; subst minimum; destruct mode; cbn in Hn; lia|].
  clear Hlen Hq. apply Z.ltb_ge in Hn.
  subst minimum. destruct mode; cbn -[Z.ltb Z.of_nat length] in *; by rewrite Hn.
Qed.

(** ** Witnesses *)

Definition demo_node (name : Z) : Proto.BrowseNode :=
  {| Proto.node_key := "k"; Proto.node_display_name := [name];
     Proto.node_kind := i32_of_browse_node_kind BROWSE_NODE_KIND_BRANCH; Proto.node_item_id := None |}.
Definition demo_answer (names : list Z) (token : option string) : result Proto.BrowsePage Rpc.Status :=
  Ok {| Proto.page_session_id := "s"; Proto.page_nodes := map demo_node names;
        Proto.page_next_page_token := token; Proto.page_complete := negb (is_some token);
        Proto.page_organization := i32_of_namespace_organization NAMESPACE_ORGANIZATION_HIERARCHICAL;
        Proto.page_source := i32_of_browse_source BROWSE_SOURCE_DA2; Proto.page_warning := None |}.
Definition demo_answers : list (result Proto.BrowsePage Rpc.Status) :=
  [demo_answer [1; 2] (Some "t1"); demo_answer [3; 4] (Some "t2"); demo_answer [5] (Some "t3")].
Definition demo_browse : list Proto.BrowseRequest * BrowseOutcome :=
  cmd_browse "plc" None 2 true 5 None None false demo_answers.

Lemma browse_all_ends_witness :
  map browse_page_size demo_browse.1 = [2; 2; 1] /\
  forall page n, demo_browse.2 = Shown page n -> node_count page <= 5.
Proof.
  split; [vm_compute; reflexivity|].
  pose proof (browse_all_ends "plc" None 2 5 ltac:(vm_compute; split; [reflexivity|discriminate])
    ltac:(vm_compute; split; [reflexivity|discriminate]) None None false demo_answers demo_browse.1 demo_browse.2
    (surjective_pairing _)) as (_ & _ & Hok).
  intros page n Hout. destruct (Hok page n Hout) as (? & ? & ? & ? & ? & _ & _ & _ & _ & _ & _ & Hle & _).
  exact Hle.
Defined.
