(* ===== verification/Refresh.v ===== *)
(** * The background refresh loop (index/scheduler.rs)

    One task of the manager visits, round after round, the servers with an index and automatic
    refreshes: it inspects the status of a server, compares the profile of the index with
    what the server reports now, inspects the status again, and starts a refresh, or a
    rebuild when the profile changed; then it sleeps until the next visit is due. The
    refresh itself is a task of [Lifecycle], for whose start the loop waits. The loop, the tasks and
    requests of the manager and the shutdown interleave: a step of the loop is one read of the
    manager or one call it waits for. Clocks, what a status reads of the registries, failures of
    the database and the answers of the OPC client are inputs. *)
From S2P Require Import Prelude Text TopK Schedule Controller Config Opc Store StoreSpec Status Manager Lifecycle.

(** What the loop saw before it started a refresh: the first status, the profile of the
    index and what the server reported, and the status read after that. *)
Record Inspection := {
  first_status : IndexStatus;
  stored_profile : option StoredIndexProfile;
  reported : option (NamespaceOrganization * BrowseSource);
  latest_status : IndexStatus
}.

(** A refresh the loop starts. *)
Record Launch := {
  launch_task : nat;
  launch_server : string;
  launch_inspection : Inspection;
  launch_changed : bool;
  launch_pc : Pc
}.

Inductive Stage :=
(* refresh_if_due *)
| InspectStage
(* refresh_existing_index_if_due *)
| GateStage (first : IndexStatus)
(* active_profile_changed *)
| ProfileStage (first : IndexStatus)
| ProbeStage (first : IndexStatus) (stored : StoredIndexProfile)
| RecheckStage (first : IndexStatus) (stored : option StoredIndexProfile)
    (reported : option (NamespaceOrganization * BrowseSource)) (changed : bool)
| CompareStage (inspection : Inspection) (changed : bool)
(* refresh_after_profile_change, refresh_active_generation_if_due *)
| DecideStage (inspection : Inspection) (changed : bool)
| RunStage (t : nat)
(* background_refresh_delay *)
| RetryStage
| DelayStage
| ClockStage (s : IndexStatus).

Inductive RefreshPc :=
| GracePeriod
| RoundHead
| ListServers
| NextServer (servers : list string) (delay : Z)
| Visit (server : string) (rest : list string) (delay : Z) (stage : Stage)
| Sleep (delay : Z)
| LoopEnded.

(** What the environment answers to one step of the loop. *)
Inductive Answer :=
| AnswerNone
| AnswerShutdown                                       (* the shutdown is noticed in a wait *)
| AnswerFailed                                         (* a read of the database fails *)
| AnswerClock (now hour minute : Z)
| AnswerStatus (now instant_now : Z) (reads : StatusReads)
| AnswerCapabilities (r : result (NamespaceOrganization * BrowseSource) string)
| AnswerDecision (t : nat) (now hour minute : Z).       (* an unused number for the refresh *)

Definition status_settings (settings : ResolvedIndexConfig) : StatusSettings :=
  {| refresh_interval_seconds := cfg_refresh_interval_seconds settings;
     schedule_jitter_seconds := cfg_schedule_jitter_seconds settings |}.

Section Refresh.
Context (settings : ResolvedIndexConfig).

Definition windows : list string := cfg_maintenance_windows settings.
Definition circuit_seconds : Z := cfg_circuit_open_seconds settings.
Definition allowed (now hour minute : Z) (s : IndexStatus) : bool :=
  automatic_refresh_allowed now windows hour minute s.

(** [wait_for_startup_grace]: without a grace period the shutdown is not even looked
    at. *)
Definition wait_for_startup_grace (down : bool) (a : Answer) : option RefreshPc :=
  if from_secs (cfg_startup_grace_period_seconds settings) =? 0 then Some RoundHead
  else
    match a with
    | AnswerShutdown => if down then Some LoopEnded else None
    | AnswerNone => Some RoundHead
    | _ => None
    end.

(** [wait_for_refresh_or_shutdown] *)
Definition wait_for_refresh_or_shutdown (down : bool) (a : Answer) : option RefreshPc :=
  if down then Some RoundHead else match a with AnswerNone => Some RoundHead | _ => None end.

(** [refresh_if_due] *)
Definition refresh_if_due (r : result IndexStatus string) : Stage :=
  match r with
  | Err _ => RetryStage
  | Ok s =>
      if (0 <? st_active_generation s)
         && negb match st_state s with Refreshing => true | _ => false end
      then GateStage s else RetryStage
  end.

(** [active_profile_changed]: an unavailable profile counts as unchanged. *)
Definition profile_read (first : IndexStatus) (failed : bool) (server : string) (m : Manager) : Stage :=
  if failed then RecheckStage first None None false
  else
    match active_profile (database m) server with
    | None => RecheckStage first None None false
    | Some stored => ProbeStage first stored
    end.
Definition profile_probed (first : IndexStatus) (stored : StoredIndexProfile)
    (r : result (NamespaceOrganization * BrowseSource) string) : Stage :=
  match r with
  | Err _ => RetryStage
  | Ok (organization, source) =>
      RecheckStage first (Some stored) (Some (organization, source))
        (negb (index_profile_is_compatible (profile_organization stored) (profile_source stored)
                 (profile_compatibility_fallback stored) organization source))
  end.

(** The comparison of the two statuses in [refresh_existing_index_if_due]. *)
Definition same_index (first latest : IndexStatus) : bool :=
  (st_active_generation latest =? st_active_generation first)
  && bool_decide (last_success_at (st_scheduler latest) = last_success_at (st_scheduler first)).
Definition compare_stage (i : Inspection) (changed : bool) (now hour minute : Z) : Stage :=
  if same_index (first_status i) (latest_status i) && allowed now hour minute (latest_status i)
  then DecideStage i changed else RetryStage.

(** The task a decision starts: [reserve_refresh_build(server, false, true)], followed
    by the invalidation of the index when the profile changed. *)
Definition decision (i : Inspection) (changed : bool) (now hour minute : Z) : option Pc :=
  let latest := latest_status i in
  if changed then
    then_some (allowed now hour minute latest)
      (Checking false true
         (Some (st_active_generation latest, last_success_at (st_scheduler latest))))
  else
    then_some
      (match st_state latest with Stale | IndexFailed | NotIndexed => true | _ => false end
       && allowed now hour minute latest)
      (Checking false true None).

(** The call returns when the build runs or nothing was started. *)
Definition refresh_returned (pc : Pc) : bool :=
  match pc with
  | Building _ _ | Ended => true
  | _ => false
  end.

Definition server_status (now instant_now : Z) (server : string) (reads : StatusReads) :
    result IndexStatus string :=
  status (status_settings settings) now instant_now server reads.

(** One stage of a visit up to the refresh; the second component is the task it
    starts. *)
Definition visit_stage (a : Answer) (server : string) (m : Manager) (stage : Stage) :
    option (Stage * option Launch) :=
  match stage, a with
  | InspectStage, AnswerStatus now instant_now reads =>
      Some (refresh_if_due (server_status now instant_now server reads), None)
  | GateStage s, AnswerClock now hour minute =>
      Some (if allowed now hour minute s then ProfileStage s else RetryStage, None)
  | ProfileStage s, AnswerFailed => Some (profile_read s true server m, None)
  | ProfileStage s, AnswerNone => Some (profile_read s false server m, None)
  | ProbeStage s stored, AnswerCapabilities r => Some (profile_probed s stored r, None)
  | RecheckStage s stored reported changed, AnswerStatus now instant_now reads =>
      Some (match server_status now instant_now server reads with
            | Err _ => RetryStage
            | Ok latest =>
                CompareStage {| first_status := s; stored_profile := stored; reported := reported;
                                latest_status := latest |} changed
            end, None)
  | CompareStage i changed, AnswerClock now hour minute =>
      Some (compare_stage i changed now hour minute, None)
  | DecideStage i changed, AnswerDecision t now hour minute =>
      Some (match decision i changed now hour minute with
            | Some pc => (RunStage t, Some {| launch_task := t; launch_server := server;
                                              launch_inspection := i; launch_changed := changed;
                                              launch_pc := pc |})
            | None => (RetryStage, None)
            end)
  | _, _ => None
  end.

(** [background_refresh_delay] and the minimum [refresh_scheduled_servers] takes. *)
Definition delay_stage (a : Answer) (server : string) (rest : list string) (delay : Z) (m : Manager)
    (stage : Stage) : option RefreshPc :=
  match stage, a with
  | RetryStage, AnswerClock now _ _ =>
      Some (match persisted_refresh_retry_delay now (runtime m !! server) with
            | Some retry => NextServer rest (Z.min delay retry)
            | None => Visit server rest delay DelayStage
            end)
  | DelayStage, AnswerStatus now instant_now reads =>
      Some (match server_status now instant_now server reads with
            | Ok s => Visit server rest delay (ClockStage s)
            | Err _ => NextServer rest (Z.min delay (retry_delay server 1 false circuit_seconds))
            end)
  | ClockStage s, AnswerClock now hour minute =>
      Some (NextServer rest
              (Z.min delay
                 (refresh_delay_for_status (status_settings settings) now circuit_seconds windows hour
                    minute server s)))
  | _, _ => None
  end.

(** One step of the loop: [run_background_indexing] around [refresh_scheduled_servers]. *)
Definition loop_step (a : Answer) (m : Manager) (pc : RefreshPc) : option (RefreshPc * option Launch) :=
  let plain (pc : option RefreshPc) : option (RefreshPc * option Launch) := pc ← pc; Some (pc, None) in
  match pc with
  | GracePeriod => plain (wait_for_startup_grace (shutting_down m) a)
  | RoundHead => plain (Some (if shutting_down m then LoopEnded else ListServers))
  | ListServers =>
      plain
        (match a with
         | AnswerFailed => Some (NextServer [] (from_secs 60))
         | AnswerNone => Some (NextServer (scheduled_servers (database m)) (from_secs 60))
         | _ => None
         end)
  | NextServer [] delay => plain (Some (Sleep delay))
  | NextServer (server :: rest) delay =>
      plain (Some (if shutting_down m then Sleep delay else Visit server rest delay InspectStage))
  | Visit server rest delay stage =>
      match delay_stage a server rest delay m stage with
      | Some pc => Some (pc, None)
      | None =>
          next ← visit_stage a server m stage;
          Some (Visit server rest delay next.1, next.2)
      end
  | Sleep delay => plain (wait_for_refresh_or_shutdown (shutting_down m) a)
  | LoopEnded => None
  end.
End Refresh.

(** ** The loop among the tasks *)

(** The manager with its tasks, the flag [background_started], the loop if it was spawned, and
    a record of what the loop started (a ghost). *)
Record World := mk_world {
  life : Lifecycle;
  background_started : bool;
  loop : option RefreshPc;
  launches : gmap nat Launch
}.

Definition set_loop (w : World) (pc : RefreshPc) : World :=
  mk_world (life w) (background_started w) (Some pc) (launches w).

(** [start_background_indexing]: a second call does nothing, and a shutdown refuses the
    task. *)
Definition start_background_indexing (w : World) : World :=
  if background_started w then w
  else mk_world (life w) true (if shutting_down (manager (life w)) then None else Some GracePeriod)
         (launches w).

(** The refresh becomes a task, and the loop waits for it. *)
Definition launch (w : World) (pc : RefreshPc) (l : option Launch) : World :=
  match l with
  | None => set_loop w pc
  | Some l =>
      let life := life w in
      mk_world
        (mk_lifecycle (manager life)
           (<[launch_task l := mk_task (launch_server l) (launch_pc l)]> (tasks life))
           (deleting_lock life))
        (background_started w) (Some pc) (<[launch_task l := l]> (launches w))
  end.

(** After a step of the manager: the loop goes on when the refresh it waits for has
    returned. *)
Definition resume (pc : RefreshPc) (tasks : gmap nat Task) : RefreshPc :=
  match pc with
  | Visit server rest delay (RunStage t) =>
      match tasks !! t with
      | Some task => if refresh_returned (task_pc task) then Visit server rest delay RetryStage else pc
      | None => pc
      end
  | _ => pc
  end.

Inductive Label :=
| ByLoop
| ByManager (t : option nat) (op : option db_op).

Section World.
Context `{TextLibrary}.
Context (settings : ResolvedIndexConfig).

Definition fresh_launch (w : World) (l : option Launch) : Prop :=
  forall l', l = Some l' -> tasks (life w) !! launch_task l' = None.

Inductive world_step (w : World) : Label -> World -> Prop :=
| step_start_loop : world_step w ByLoop (start_background_indexing w)
| step_loop a pc pc' l :
    loop w = Some pc -> loop_step settings a (manager (life w)) pc = Some (pc', l) ->
    fresh_launch w l ->
    world_step w ByLoop (launch w pc' l)
| step_manager t op life' :
    step settings (life w) t op life' ->
    world_step w (ByManager t op)
      (mk_world life' (background_started w)
         (pc ← loop w; Some (resume pc (tasks life'))) (launches w)).

Definition initial_world (db : IndexDb) : World :=
  mk_world (mk_lifecycle (new_manager db) ∅ None) false None ∅.

Inductive reachable_world (db : IndexDb) : World -> Prop :=
| world_initial : reachable_world db (initial_world db)
| world_next w l w' : reachable_world db w -> world_step w l w' -> reachable_world db w'.
End World.
