(* ===== verification/RefreshSpec.v ===== *)
(** * Properties of the background refresh loop

    What the loop starts is what two inspections allowed, one refresh at a time; a round
    visits the listed servers in their order and ends; and a run in which the loop asks an
    unreachable server again and again without a wait. *)
From S2P Require Import Prelude Text TopK Schedule Controller Config Opc Store StoreWf StoreSpec Status StatusSpec Manager Lifecycle LifecycleSpec Refresh.

Section RefreshSpec.
Context `{TextLibrary}.
Context (settings : ResolvedIndexConfig).

(** ** What the loop saw *)

Definition allowed_once (s : IndexStatus) : Prop :=
  exists now hour minute, allowed settings now hour minute s = true.

(** What makes a profile a changed one. *)
Definition profile_evidence (stored : option StoredIndexProfile)
    (reported : option (NamespaceOrganization * BrowseSource)) (changed : bool) : Prop :=
  changed = true -> exists p organization source,
    stored = Some p /\ reported = Some (organization, source) /\
    index_profile_is_compatible (profile_organization p) (profile_source p)
      (profile_compatibility_fallback p) organization source = false.

Record inspected (i : Inspection) (changed : bool) : Prop := {
  inspected_first : allowed_once (first_status i);
  inspected_latest : allowed_once (latest_status i);
  inspected_same : same_index (first_status i) (latest_status i) = true;
  inspected_profile : profile_evidence (stored_profile i) (reported i) changed
}.

Definition stage_ok (stage : Stage) : Prop :=
  match stage with
  | ProfileStage s | ProbeStage s _ => allowed_once s
  | RecheckStage s stored reported changed =>
      allowed_once s /\ profile_evidence stored reported changed
  | CompareStage i changed =>
      allowed_once (first_status i) /\ profile_evidence (stored_profile i) (reported i) changed
  | DecideStage i changed => inspected i changed
  | _ => True
  end.

(** The task a launch starts: neither forced nor for an index that is not due. *)
Definition launch_profile (l : Launch) : option (Z * option string) :=
  then_some (launch_changed l)
    (st_active_generation (latest_status (launch_inspection l)),
     last_success_at (st_scheduler (latest_status (launch_inspection l)))).
Definition due (l : Launch) : Prop :=
  launch_changed l = true \/
  st_state (latest_status (launch_inspection l)) ∈ [Stale; IndexFailed; NotIndexed].

Record launch_ok (l : Launch) : Prop := {
  launch_inspected : inspected (launch_inspection l) (launch_changed l);
  launch_checking : launch_pc l = Checking false true (launch_profile l);
  launch_due : due l
}.

Lemma then_some_Some {A} (b : bool) (x y : A) : then_some b x = Some y <-> b = true /\ x = y.
Proof. destruct b; simpl; [|by split; [done|intros [? _]]]. split; [by intros [= ->]|by intros [_ ->]]. Qed.

Lemma decision_ok i changed now hour minute pc server t :
  inspected i changed -> decision settings i changed now hour minute = Some pc ->
  launch_ok {| launch_task := t; launch_server := server; launch_inspection := i;
               launch_changed := changed; launch_pc := pc |}.
Proof.
  unfold decision. intros Hi Hd.
  split; [done| |]; destruct changed; apply then_some_Some in Hd as [Hd <-]; try done; [by left|].
  right. apply andb_true_iff in Hd as [Hd _]. cbn. rewrite !elem_of_cons.
  destruct (st_state (latest_status i)); try done; auto.
Qed.

Lemma visit_stage_ok a server m stage stage' l :
  visit_stage settings a server m stage = Some (stage', l) -> stage_ok stage ->
  stage_ok stage' /\ (forall l', l = Some l' -> launch_ok l' /\ launch_server l' = server /\
                        stage' = RunStage (launch_task l')).
Proof.
  destruct stage, a; simpl; try done; intros Hs Hok.
  - injection Hs as <- <-. split; [|done]. unfold refresh_if_due.
    destruct (server_status _ _ _ _ _); [|done]. by destruct (_ && _).
  - injection Hs as <- <-. split; [|done]. destruct (allowed _ _ _ _ _) eqn:E; [|done].
    by eexists _, _, _.
  - injection Hs as <- <-. split; [|done]. simpl.
    destruct (active_profile (database m) server); [done|]. by split.
  - injection Hs as <- <-. by split.
  - injection Hs as <- <-. split; [|done]. destruct r as [[organization source]|]; [|done].
    split; [done|]. intros Hc%negb_true_iff. by eexists _, _, _.
  - injection Hs as <- <-. split; [|done]. by destruct (server_status _ _ _ _ _).
  - injection Hs as <- <-. split; [|done]. unfold compare_stage.
    destruct (same_index _ _ && _) eqn:E; [|done]. apply andb_true_iff in E as [E1 E2].
    destruct Hok. split; try done. by eexists _, _, _.
  - destruct (decision _ _ _ _ _ _) eqn:E; injection Hs as <- <-; [|done]. split; [done|].
    intros l' [= <-]. by split; [eapply decision_ok|].
Qed.

(** ** The tasks the loop started *)

(** The critical sections of a refresh, with the flags it was started with until they have
    been used. *)
Definition refresh_of (l : Launch) (pc : Pc) : Prop :=
  match pc with
  | Checking force automatic profile =>
      force = false /\ automatic = true /\ profile = launch_profile l
  | Counting force profile | Reserving force profile _ => force = false /\ profile = launch_profile l
  | Invalidating generation completed => launch_profile l = Some (generation, completed)
  | _ => deletes pc = false /\ match pc with DeleteAdmitted | DeleteReserving => False | _ => True end
  end.

(** The call of the loop has not come to the running build or to its end yet. *)
Definition starting (pc : Pc) : bool :=
  match pc with
  | Checking _ _ _ | Counting _ _ | Reserving _ _ _ | Invalidating _ _ | Starting | StartFailed _
  | Recording _ | Pacing _ | PacingFailed _ _ _ | Attaching _ _ | AttachFailed _ _ | TakingCancel _ _
  | Attached _ _ | Probing _ _ | StartRefused _ _ _ | Generating _ _ _ _ | Launching _ _ _
  | Launched _ _ _ | Readying _ _ | Spawning _ _ => true
  | _ => false
  end.

Lemma task_step_refresh t s m lock pc m' lock' pc' op l :
  task_step settings t s m lock pc m' lock' pc' op -> refresh_of l pc -> refresh_of l pc'.
Proof.
  inversion 1; subst; simpl; intros Hl; repeat case_match; simplify_eq; simpl in *; intuition.
  all: unfold after_take; by case_match.
Qed.

Lemma task_step_starting t s m lock pc m' lock' pc' op :
  task_step settings t s m lock pc m' lock' pc' op -> starting pc' = true -> starting pc = true.
Proof. inversion 1; subst; simpl; intros Hl; try done; repeat case_match; done. Qed.

(** A reservation respects the enrollment, the back-off and the circuit. *)
Lemma task_step_counting t s m lock automatic profile m' lock' pc' op :
  task_step settings t s m lock (Checking false automatic profile) m' lock' pc' op -> pc' <> Ended ->
  shutting_down m = false /\ s ∉ deleting m /\
  exists enabled, enrollment (database m) s = Some enabled /\ (automatic = true -> enabled = true).
Proof.
  inversion 1; subst; [done|]. destruct r as [[|]|]; try done. intros _.
  match goal with Hr : reserve_check _ _ _ _ _ _ = _ |- _ => revert Hr end. unfold reserve_check.
  destruct (shutting_down m); [done|]. case_bool_decide; simpl; [done|].
  destruct (enrollment (database m) s) as [enabled|]; simpl; [|done].
  destruct (automatic && negb enabled) eqn:E; [done|]. intros _. split_and!; try done.
  exists enabled. split; [done|]. intros ->. by destruct enabled.
Qed.

Lemma task_step_reserved t s m lock profile foreground m' lock' pc' op :
  task_step settings t s m lock (Reserving false profile foreground) m' lock' pc' op -> pc' <> Ended ->
  let state := unwrap_or default_runtime (runtime m !! s) in
  build state = None /\ circuit_open state = false /\
  exists now, forall retry, retry_after state = Some retry -> retry <= now.
Proof.
  inversion 1; subst. destruct r as [[|]|]; try done. intros _.
  match goal with Hr : reserve_commit _ _ _ _ _ _ _ _ = _ |- _ => revert Hr end.
  unfold reserve_commit. set (state := unwrap_or default_runtime (runtime m !! s)). simpl.
  destruct (build state); [done|]. simpl.
  destruct (is_some_and _ (retry_after state)) eqn:E; [done|]. simpl.
  destruct (circuit_open state); [done|]. intros _. split_and!; try done.
  exists now. intros retry Hr. rewrite Hr in E. simpl in E. by apply Z.ltb_ge.
Qed.

(** ** The invariant *)

Definition waits_for (w : World) (t : nat) : Prop :=
  exists server rest delay, loop w = Some (Visit server rest delay (RunStage t)).

Record refresh_inv (w : World) : Prop := {
  ri_started : background_started w = false -> loop w = None;
  ri_stage server rest delay stage : loop w = Some (Visit server rest delay stage) -> stage_ok stage;
  ri_launch t l : launches w !! t = Some l -> launch_ok l /\
    exists pc, at_task (life w) t (launch_server l) pc /\ refresh_of l pc /\
      (starting pc = true -> waits_for w t)
}.

Lemma loop_step_ok a m pc pc' l server rest delay stage :
  loop_step settings a m pc = Some (pc', l) ->
  (forall server rest delay stage, pc = Visit server rest delay stage -> stage_ok stage) ->
  pc' = Visit server rest delay stage ->
  stage_ok stage /\
  (forall l', l = Some l' -> launch_ok l' /\ launch_server l' = server /\ stage = RunStage (launch_task l')).
Proof.
  intros Hs Hok ->. destruct pc as [| | |[|s' servers] d|s' r d stage'|d|]; simpl in Hs; try done.
  - destruct (wait_for_startup_grace _ _ _) eqn:E; simpl in Hs; [|done]. injection Hs as -> <-.
    unfold wait_for_startup_grace in E. repeat case_match; simplify_eq.
  - by destruct (shutting_down m).
  - destruct a; done.
  - destruct (shutting_down m); [done|]. by injection Hs as <- <- <- <- <-.
  - specialize (Hok _ _ _ _ eq_refl). destruct (delay_stage _ _ _ _ _ _ _) as [pc|] eqn:E.
    + injection Hs as -> <-. split; [|done]. destruct stage', a; simpl in E; try done.
      * destruct (persisted_refresh_retry_delay _ _); [done|]. by injection E as <- <- <- <-.
      * destruct (server_status _ _ _ _ _); [|done]. by injection E as <- <- <- <-.
    + destruct (visit_stage _ _ _ _ _) as [[stage'' l'']|] eqn:Ev; simpl in Hs; [|done].
      injection Hs as <- <- <- <- <-. by eapply visit_stage_ok.
  - destruct (wait_for_refresh_or_shutdown _ _) eqn:E; simpl in Hs; [|done]. injection Hs as -> <-.
    unfold wait_for_refresh_or_shutdown in E. repeat case_match; simplify_eq.
Qed.

Lemma initial_refresh_inv db : refresh_inv (initial_world db).
Proof. by split. Qed.

Lemma start_refresh_inv w : refresh_inv w -> refresh_inv (start_background_indexing w).
Proof.
  unfold start_background_indexing. intros Hinv. destruct (background_started w) eqn:E; [done|].
  pose proof (ri_started _ Hinv E) as Hnone. split; simpl; [done| |].
  - intros server rest delay stage. by destruct (shutting_down _).
  - intros t l Hl. destruct (ri_launch _ Hinv t l Hl) as (Hok & pc & Hpc & Hr & Hw).
    split; [done|]. exists pc. split_and!; try done.
    intros (server & rest & delay & Hloop)%Hw. congruence.
Qed.

Lemma loop_refresh_inv w a pc pc' l :
  refresh_inv w -> loop w = Some pc -> loop_step settings a (manager (life w)) pc = Some (pc', l) ->
  fresh_launch w l -> refresh_inv (launch w pc' l).
Proof.
  intros Hinv Hloop Hs Hfresh.
  assert (Hok : forall server rest delay stage, pc = Visit server rest delay stage -> stage_ok stage).
  { intros server rest delay stage ->. by eapply (ri_stage _ Hinv). }
  assert (Hrun : forall server rest delay t, pc <> Visit server rest delay (RunStage t)).
  { intros server rest delay t ->. simpl in Hs. by destruct a. }
  assert (Hnot : forall t l pc0, launches w !! t = Some l -> at_task (life w) t (launch_server l) pc0 ->
                   starting pc0 = false).
  { intros t l0 pc0 Hl Hat. destruct (ri_launch _ Hinv t l0 Hl) as (_ & pc1 & Hpc1 & _ & Hw).
    unfold at_task in *. assert (pc1 = pc0) as -> by congruence.
    destruct (starting pc0); [|done]. destruct Hw as (server & rest & delay & Hvisit); [done|]. destruct (Hrun server rest delay t); congruence. }
  split.
  - intros Hb. exfalso. assert (background_started w = false) by (by destruct l).
    rewrite (ri_started _ Hinv) in Hloop; done.
  - intros server rest delay stage Hl. assert (pc' = Visit server rest delay stage) as E.
    { destruct l; simpl in Hl; congruence. }
    by destruct (loop_step_ok _ _ _ _ _ _ _ _ _ Hs Hok E).
  - intros t l0. destruct l as [l|]; simpl.
    + assert (Hv : exists server rest delay stage, pc' = Visit server rest delay stage).
      { destruct pc as [| | |[|]|s' r d stage| |]; simpl in Hs; try done.
        - by destruct (wait_for_startup_grace _ _ _).
        - by destruct a.
        - destruct (delay_stage _ _ _ _ _ _ _); [done|].
          destruct (visit_stage _ _ _ _ _); simpl in Hs; [|done]. injection Hs as <- _. eauto.
        - by destruct (wait_for_refresh_or_shutdown _ _). }
      destruct Hv as (server & rest & delay & stage & Hv).
      destruct (loop_step_ok _ _ _ _ _ _ _ _ _ Hs Hok Hv) as [_ Hl].
      destruct (Hl l eq_refl) as (Hlok & Hserver & ->).
      destruct (decide (t = launch_task l)) as [->|Hne].
      * rewrite lookup_insert_eq. intros [= <-]. split; [done|]. exists (launch_pc l).
        unfold at_task. simpl. rewrite lookup_insert_eq. split; [done|].
        rewrite (launch_checking _ Hlok). simpl. split; [done|]. intros _. exists server, rest, delay. simpl. by rewrite Hv.
      * rewrite lookup_insert_ne by done. intros Hl0.
        destruct (ri_launch _ Hinv t l0 Hl0) as (Hok0 & pc0 & Hpc0 & Hr & Hw).
        split; [done|]. exists pc0. unfold at_task. simpl. rewrite lookup_insert_ne by done.
        split_and!; try done. rewrite (Hnot t l0 pc0) by done. done.
    + intros Hl0. destruct (ri_launch _ Hinv t l0 Hl0) as (Hok0 & pc0 & Hpc0 & Hr & Hw).
      split; [done|]. exists pc0. split_and!; try done. rewrite (Hnot t l0 pc0) by done. done.
Qed.

(** What a step of the manager does to a task. *)
Lemma step_at_task w t op life' t0 s pc0 :
  step settings w t op life' -> at_task w t0 s pc0 -> exists pc1,
  at_task life' t0 s pc1 /\
  (pc1 = pc0 \/ (t = Some t0 /\ task_step settings t0 s (manager w) (deleting_lock w) pc0 (manager life')
                                  (deleting_lock life') pc1 op)).
Proof.
  unfold at_task. inversion 1; subst; simpl; intros Hat.
  - exists pc0. rewrite lookup_insert_ne by congruence. auto.
  - destruct (decide (t1 = t0)) as [->|Hne].
    + assert (mk_task s pc0 = mk_task server pc) as [= -> ->] by congruence.
      eexists. rewrite lookup_insert_eq. split; [done|]. by right.
    + exists pc0. rewrite lookup_insert_ne by done. auto.
  - eauto.
Qed.

Lemma manager_refresh_inv w t op life' :
  refresh_inv w -> step settings (life w) t op life' ->
  refresh_inv (mk_world life' (background_started w) (pc ← loop w; Some (resume pc (tasks life')))
                 (launches w)).
Proof.
  intros Hinv Hs. split; simpl.
  - intros Hb. by rewrite (ri_started _ Hinv Hb).
  - intros server rest delay stage. destruct (loop w) as [pc|] eqn:Hloop; simpl; [|done]. intros [= Hr].
    destruct pc; try done. assert (stage = stage0 \/ stage = RetryStage) as [->| ->].
    { simpl in Hr. destruct stage0; repeat case_match; simplify_eq; auto. }
    + eapply (ri_stage _ Hinv). exact Hloop.
    + done.
  - intros t0 l Hl. destruct (ri_launch _ Hinv t0 l Hl) as (Hok & pc0 & Hpc0 & Hr & Hw).
    split; [done|]. destruct (step_at_task _ _ _ _ _ _ _ Hs Hpc0) as (pc1 & Hpc1 & Hstep).
    exists pc1. split; [done|]. split.
    { destruct Hstep as [->|[_ Hstep]]; [done|]. by eapply task_step_refresh. }
    intros Hst. destruct Hw as (server & rest & delay & Hloop).
    { destruct Hstep as [->|[_ Hstep]]; [done|]. by eapply task_step_starting. }
    exists server, rest, delay. simpl. rewrite Hloop. simpl. unfold at_task in Hpc1. rewrite Hpc1.
    simpl. by destruct pc1.
Qed.

Lemma reachable_refresh_inv db w : reachable_world settings db w -> refresh_inv w.
Proof.
  induction 1 as [|w l w' Hw IH Hs]; [apply initial_refresh_inv|].
  inversion Hs; subst; [by apply start_refresh_inv|by eapply loop_refresh_inv|by eapply manager_refresh_inv].
Qed.

(** ** What the loop starts *)

(** The guards on the critical sections of a refresh of the loop. *)
Definition guarded_step (l : Launch) (m : Manager) (pc pc' : Pc) (op : option db_op) : Prop :=
  let server := launch_server l in
  let latest := latest_status (launch_inspection l) in
  match pc, pc' with
  | Checking force automatic _, Counting _ _ =>
      force = false /\ automatic = true /\ shutting_down m = false /\ server ∉ deleting m /\
      enrollment (database m) server = Some true
  | Reserving force _ _, (Starting | Invalidating _ _) =>
      let state := unwrap_or default_runtime (runtime m !! server) in
      force = false /\ build state = None /\ circuit_open state = false /\
      exists now, forall retry, retry_after state = Some retry -> retry <= now
  | Invalidating _ _, Starting =>
      op = Some (OpClearServer server) /\ launch_changed l = true /\
      may_invalidate server (st_active_generation latest) (last_success_at (st_scheduler latest)) m = true
  | _, _ => forall s, op <> Some (OpClearServer s)
  end.

Lemma task_step_clears t s m lock pc m' lock' pc' op s' :
  task_step settings t s m lock pc m' lock' pc' op -> op = Some (OpClearServer s') ->
  exists generation completed, pc = Invalidating generation completed /\ pc' = Starting /\ s' = s.
Proof.
  inversion 1; subst; try done; intros Hop.
  - destruct (may_invalidate _ _ _ _); [|done]. injection Hop as ->. eauto.
  - by destruct failed.
  - by destruct failed.
  - by destruct failed.
  - by injection Hop as ->.
  - unfold finish_op in Hop. repeat case_match; simplify_eq.
  - by destruct write_error.
Qed.

Lemma task_step_invalidates t s m lock generation completed m' lock' op :
  task_step settings t s m lock (Invalidating generation completed) m' lock' Starting op ->
  op = Some (OpClearServer s) /\ may_invalidate s generation completed m = true.
Proof. inversion 1; subst. destruct (may_invalidate _ _ _ _); done. Qed.

Lemma launch_step_guarded t l m lock pc m' lock' pc' op :
  launch_ok l -> refresh_of l pc ->
  task_step settings t (launch_server l) m lock pc m' lock' pc' op -> guarded_step l m pc pc' op.
Proof.
  intros Hok Hr Hs.
  assert (Hno : (forall generation completed, pc <> Invalidating generation completed) \/ pc' <> Starting ->
                forall s, op <> Some (OpClearServer s)).
  { intros Hne s Hop. destruct (task_step_clears _ _ _ _ _ _ _ _ _ _ Hs Hop) as (g & c & H1 & H2 & _).
    destruct Hne as [Hne|Hne]; [by destruct (Hne g c)|done]. }
  unfold guarded_step. destruct pc; try (apply Hno; by left).
  - destruct Hr as (-> & -> & _). destruct pc'; try (apply Hno; by left).
    destruct (task_step_counting _ _ _ _ _ _ _ _ _ _ Hs) as (H1 & H2 & enabled & H3 & H4); [done|].
    rewrite H4 in H3; done.
  - destruct Hr as [-> _].
    destruct pc'; try (apply Hno; by left);
      by destruct (task_step_reserved _ _ _ _ _ _ _ _ _ _ Hs) as (H1 & H2 & H3).
  - destruct pc'; try (apply Hno; by right).
    destruct (task_step_invalidates _ _ _ _ _ _ _ _ _ Hs) as [H1 H2].
    unfold refresh_of, launch_profile in Hr. apply then_some_Some in Hr as [Hc [= <- <-]]. done.
Qed.

(** C39: automatic refreshes are guarded. Whatever else runs: a refresh of the background loop
    started after two inspections of the server that both allowed it and saw the same index,
    which was due or whose profile the server no longer has; it is not forced, so it reserves a
    build only of an enrolled server with automatic refreshes, outside of a deletion,
    the back-off and an open circuit; it clears an index only if the profile had
    changed and the index is still the inspected one; and no two of them are starting at a time. *)
Theorem background_refresh_guarded db w t op w' l pc pc' :
  reachable_world settings db w -> launches w !! t = Some l ->
  world_step settings w (ByManager (Some t) op) w' ->
  at_task (life w) t (launch_server l) pc -> at_task (life w') t (launch_server l) pc' ->
  inspected (launch_inspection l) (launch_changed l) /\ due l /\
  guarded_step l (manager (life w)) pc pc' op /\
  (forall t2 l2 pc2, launches w !! t2 = Some l2 -> at_task (life w) t2 (launch_server l2) pc2 ->
     starting pc = true -> starting pc2 = true -> t2 = t).
Proof.
  intros Hinv%reachable_refresh_inv Hl Hs Hat Hat'.
  destruct (ri_launch _ Hinv t l Hl) as (Hok & pc0 & Hpc0 & Hr & Hw).
  assert (pc0 = pc) as -> by (unfold at_task in *; congruence).
  split; [apply Hok|]. split; [apply Hok|]. split.
  - inversion Hs as [| |t0 op0 life' Hstep]; subst. simpl in Hat'.
    apply (launch_step_guarded t l _ (deleting_lock (life w)) pc (manager life') (deleting_lock life')); [done|done|].
    unfold at_task in *. inversion Hstep; subst; simpl in *.
    rewrite lookup_insert_eq in Hat'. simplify_eq. congruence.
  - intros t2 l2 pc2 Hl2 Hat2 Hst Hst2. destruct (ri_launch _ Hinv t2 l2 Hl2) as (_ & pc0 & Hpc2 & _ & Hw2).
    assert (pc0 = pc2) as -> by (unfold at_task in *; congruence).
    destruct (Hw Hst) as (? & ? & ? & H1), (Hw2 Hst2) as (? & ? & ? & H2). congruence.
Qed.

(** ** Rounds *)

Definition in_round (pc : RefreshPc) : bool :=
  match pc with
  | NextServer _ _ | Visit _ _ _ _ => true
  | _ => false
  end.

(** Whether a turn begins the next server only to see that the gateway shuts down. *)
Definition sees_shutdown (pc : RefreshPc) (m : Manager) : bool :=
  match pc with
  | NextServer (_ :: _) _ => shutting_down m
  | _ => false
  end.

(** One turn of a round, with any state of the manager, and whether it saw a shutdown. *)
Inductive turn (pc : RefreshPc) : bool -> RefreshPc -> Prop :=
| turn_step a m l pc' :
    in_round pc = true -> loop_step settings a m pc = Some (pc', l) -> turn pc (sees_shutdown pc m) pc'
| turn_return server rest delay t :
    pc = Visit server rest delay (RunStage t) -> turn pc false (Visit server rest delay RetryStage).

Definition visit_of (pc : RefreshPc) : list string :=
  match pc with
  | Visit server _ _ InspectStage => [server]
  | _ => []
  end.

(** The visits, the number of turns and whether a shutdown was seen, from [start]. *)
Inductive round (start : RefreshPc) : list string -> nat -> bool -> RefreshPc -> Prop :=
| round_start : round start [] 0 false start
| round_turn visited n seen pc sees pc' :
    round start visited n seen pc -> turn pc sees pc' ->
    round start (visited ++ visit_of pc') (S n) (seen || sees) pc'.

Definition stage_rank (stage : Stage) : nat :=
  match stage with
  | InspectStage => 11 | GateStage _ => 10 | ProfileStage _ => 9 | ProbeStage _ _ => 8
  | RecheckStage _ _ _ _ => 7 | CompareStage _ _ => 6 | DecideStage _ _ => 5 | RunStage _ => 4
  | RetryStage => 3 | DelayStage => 2 | ClockStage _ => 1
  end.
Definition round_rank (pc : RefreshPc) : nat :=
  match pc with
  | NextServer servers _ => 12 * length servers + 1
  | Visit _ rest _ stage => stage_rank stage + 12 * length rest + 1
  | _ => 0
  end.
Definition remaining (pc : RefreshPc) : list string :=
  match pc with
  | NextServer servers _ => servers
  | Visit _ rest _ _ => rest
  | _ => []
  end.
Definition delay_of (pc : RefreshPc) : option Z :=
  match pc with
  | NextServer _ delay | Visit _ _ delay _ | Sleep delay => Some delay
  | _ => None
  end.
Definition delay_bounded (pc : RefreshPc) : Prop :=
  exists delay, delay_of pc = Some delay /\ 0 <= delay <= from_secs 60.

#[local] Arguments retry_delay : simpl never.
#[local] Arguments refresh_delay_for_status : simpl never.

Lemma retry_delay_nonneg server : 0 <= retry_delay server 1 false (circuit_seconds settings).
Proof.
  change (retry_delay server 1 false (circuit_seconds settings)) with (retry_delay server 1 false 0).
  pose proof (retry_delay_closed server 1). pose proof (retry_base_bounds 1). change (from_secs 300) with 300000000000 in *. lia.
Qed.

Lemma ready_delay_nonneg now hour minute server s :
  0 <= ready_refresh_delay (status_settings settings) now (windows settings) hour minute server s.
Proof.
  unfold ready_refresh_delay. destruct (_ && _); [by destruct (windows settings)|].
  unfold unwrap_or. destruct (_ ≫= _) as [d|] eqn:E; [|done].
  apply bind_Some in E as (completed & _ & (elapsed & _ & [= <-])%bind_Some). unfold saturating_sub. lia.
Qed.

Lemma status_delay_nonneg now hour minute server s :
  0 <= refresh_delay_for_status (status_settings settings) now (circuit_seconds settings)
         (windows settings) hour minute server s.
Proof.
  pose proof (ready_delay_nonneg now hour minute server s). pose proof (retry_delay_nonneg server).
  unfold refresh_delay_for_status. by destruct (st_state s).
Qed.

(** A turn comes closer to the end, spends the visits it makes and keeps the delay
    bounded. *)
Lemma visit_turn a server stage m stage' l :
  visit_stage settings a server m stage = Some (stage', l) ->
  (stage_rank stage' < stage_rank stage)%nat /\ stage' <> InspectStage.
Proof.
  destruct stage, a; simpl; try done; intros Hs; simplify_eq.
  - unfold refresh_if_due. destruct (server_status _ _ _ _ _) as [s|]; [|split; [simpl; lia|done]].
    destruct (_ && _); (split; [simpl; lia|done]).
  - destruct (allowed _ _ _ _ _); (split; [simpl; lia|done]).
  - unfold profile_read. destruct (active_profile _ _); (split; [simpl; lia|done]).
  - split; [simpl; lia|done].
  - destruct r as [[]|]; (split; [simpl; lia|done]).
  - destruct (server_status _ _ _ _ _); (split; [simpl; lia|done]).
  - unfold compare_stage. destruct (_ && _); (split; [simpl; lia|done]).
  - destruct (decision _ _ _ _ _ _); simplify_eq; (split; [simpl; lia|done]).
Qed.

Lemma delay_turn a server rest delay m stage pc' :
  0 <= delay <= from_secs 60 -> delay_stage settings a server rest delay m stage = Some pc' ->
  (round_rank pc' < round_rank (Visit server rest delay stage))%nat /\
  visit_of pc' = [] /\ remaining pc' = rest /\ in_round pc' = true /\ delay_bounded pc'.
Proof.
  intros Hd. destruct stage, a; simpl; try done; intros [= <-].
  - destruct (persisted_refresh_retry_delay _ _) as [retry|] eqn:E; simpl.
    + split_and!; [lia|done|done|done|]. eexists. split; [done|].
      apply bind_Some in E as (r & _ & (d & _ & [= <-])%bind_Some). unfold from_secs, nanos_per_sec in *. lia.
    + split_and!; [lia|done|done|done|by eexists].
  - pose proof (retry_delay_nonneg server).
    destruct (server_status _ _ _ _ _); simpl; (split_and!; [lia|done|done|done|]).
    + by eexists.
    + eexists. split; [done|]. lia.
  - split_and!; simpl; [lia|done|done|done|]. eexists. split; [done|].
    pose proof (status_delay_nonneg now hour minute server s). lia.
Qed.

Lemma turn_spec pc sees pc' :
  turn pc sees pc' -> delay_bounded pc ->
  (round_rank pc' < round_rank pc)%nat /\ in_round pc = true /\
  (if sees then in_round pc' = false /\ visit_of pc' = [] /\ remaining pc <> []
   else remaining pc = visit_of pc' ++ remaining pc') /\
  delay_bounded pc' /\ (in_round pc' = false -> exists delay, pc' = Sleep delay).
Proof.
  intros Ht (d & Hd & Hb). destruct Ht as [a m l pc' Hin Hs|server rest delay t ->].
  2: { split_and!; simpl; [lia|done|done|by eexists|done]. }
  destruct pc as [| | |[|server servers] d'|server rest d' stage| |]; try done; simpl in Hd; simplify_eq/=.
  - split_and!; [lia|done|done|by eexists|eauto].
  - destruct (shutting_down m); simpl; (split_and!; try done; try lia; try (by eexists); by eauto).
  - destruct (delay_stage _ _ _ _ _ _ _) as [pc|] eqn:E.
    + simplify_eq. pose proof (delay_turn _ _ _ _ _ _ _ Hb E) as (H1 & H2 & H3 & H4 & H5). rewrite H2, H3, H4.
      by split_and!.
    + destruct (visit_stage _ _ _ _ _) as [[stage' l']|] eqn:Ev; simplify_eq/=.
      pose proof (visit_turn _ _ _ _ _ _ Ev) as [H1 H2].
      split_and!; [lia|done|by destruct stage'|by eexists|done].
Qed.

Lemma round_spec servers delay visited n seen pc :
  0 <= delay <= from_secs 60 -> round (NextServer servers delay) visited n seen pc ->
  (round_rank pc + n <= 12 * length servers + 1)%nat /\
  (exists left, visited ++ left = servers /\
     if seen then in_round pc = false /\ left <> [] else left = remaining pc) /\
  delay_bounded pc /\ (in_round pc = false -> exists delay, pc = Sleep delay).
Proof.
  intros Hd. induction 1 as [|visited n seen pc sees pc' Hr (IH1 & (left & IH2 & IH3) & IH4 & IH5) Ht].
  - split_and!; simpl; [lia|by exists servers|by eexists|done].
  - pose proof (turn_spec _ _ _ Ht IH4) as (H1 & H2 & H3 & H4 & H5). split_and!; try done; [lia|].
    destruct seen; [destruct IH3; congruence|]. subst left. destruct sees; simpl.
    + destruct H3 as (H3 & -> & H6). rewrite app_nil_r. by eexists.
    + exists (remaining pc'). split; [|done]. by rewrite <- app_assoc, <- H3.
Qed.

(** Some answer always moves the loop, while no refresh is awaited. *)
Lemma round_progress m pc :
  (forall server rest delay t, pc <> Visit server rest delay (RunStage t)) -> in_round pc = true ->
  exists a r, loop_step settings a m pc = Some r.
Proof.
  set (reads :=
    {| is_deleting := true; deletion_error := None; is_promoting := false; is_memory := false;
       enrollment_read := Ok None; rows_read := Ok []; Status.persisted_retry := Ok (None, 0, false);
       runtime_state := None; foreground_snapshot := default_metrics;
       latest_host_metrics := default_host_metrics; storage := default_storage;
       sentinel_configured := false |}).
  destruct pc as [| | |[|server servers] d|server rest d stage| |]; try done; intros Hrun _.
  - exists AnswerNone. by eexists.
  - exists AnswerNone. by eexists.
  - destruct stage; try by (exists AnswerNone; eexists).
    + exists (AnswerStatus 0 0 reads). by eexists.
    + exists (AnswerClock 0 0 0). by eexists.
    + exists (AnswerCapabilities (Err "")). by eexists.
    + exists (AnswerStatus 0 0 reads). by eexists.
    + exists (AnswerClock 0 0 0). by eexists.
    + exists (AnswerDecision 0 0 0 0). simpl. by destruct (decision _ _ _ _ _ _); eexists.
    + by destruct (Hrun server rest d t).
    + exists (AnswerClock 0 0 0). simpl. by destruct (persisted_refresh_retry_delay _ _); eexists.
    + exists (AnswerStatus 0 0 reads). by eexists.
    + exists (AnswerClock 0 0 0). by eexists.
Qed.

(** C23: a round of the loop ends. However the state of the manager changes between its steps, a
    round over the listed servers takes at most twelve turns for each and one more; until a
    refresh is awaited some answer always allows the next turn; the servers are visited in
    the listed order, each once; and the loop goes to sleep, for at most a minute, with no server
    left out, unless it saw a shutdown before one of the servers, which ends the round there. *)
Theorem background_round_ends servers visited n seen pc :
  round (NextServer servers (from_secs 60)) visited n seen pc ->
  (n <= 12 * length servers + 1)%nat /\
  (exists left, visited ++ left = servers /\
     if seen then left <> [] else left = remaining pc) /\
  ((exists delay, pc = Sleep delay /\ 0 <= delay <= from_secs 60 /\ (seen = false -> visited = servers)) \/
   seen = false /\
   ((exists server rest delay t, pc = Visit server rest delay (RunStage t)) \/
    in_round pc = true /\ forall m, exists a r, loop_step settings a m pc = Some r)).
Proof.
  intros Hr. destruct (round_spec servers (from_secs 60) visited n seen pc ltac:(done) Hr)
    as (H1 & (left & H2 & H3) & H4 & H5).
  split; [lia|]. split; [exists left; split; [done|]; by destruct seen; [apply H3|]|].
  destruct (in_round pc) eqn:E.
  - destruct seen; [by destruct H3|]. right. split; [done|].
    assert (Hdec : (exists server rest delay t, pc = Visit server rest delay (RunStage t)) \/
      forall server rest delay t, pc <> Visit server rest delay (RunStage t)).
    { destruct pc as [| | | |server rest delay [| | | | | | |t| | |]| |]; try (right; done). left. eauto. }
    destruct Hdec as [Hw|Hw]; [by left|right]. split; [done|]. intros m. by apply round_progress.
  - left. destruct (H5 eq_refl) as [delay ->]. destruct H4 as (d & [= <-] & Hd). exists delay.
    split; [done|]. split; [exact Hd|]. intros ->. subst left. simpl in H2. by rewrite app_nil_r in H2.
Qed.
End RefreshSpec.

(** ** Runs of the loop *)

Section Runs.
Context `{TextLibrary}.
Context (settings : ResolvedIndexConfig).

Inductive WorldAct :=
| StartLoop
| LoopStep (a : Answer)
| ManagerStep (a : Act).

(** The write of a task's next section, as [LifecycleSpec.advance_task] makes it. *)
Definition act_world (w : World) (a : WorldAct) : option World :=
  match a with
  | StartLoop => Some (start_background_indexing w)
  | LoopStep a =>
      pc ← loop w;
      next ← loop_step settings a (manager (life w)) pc;
      if match next.2 with Some l => is_some (tasks (life w) !! launch_task l) | None => false end
      then None else Some (launch w next.1 next.2)
  | ManagerStep a =>
      life' ← act settings (life w) a;
      Some (mk_world life' (background_started w) (pc ← loop w; Some (resume pc (tasks life')))
              (launches w))
  end.
Fixpoint run_world (w : World) (acts : list WorldAct) : option World :=
  match acts with
  | [] => Some w
  | a :: rest => w ← act_world w a; run_world w rest
  end.

Lemma act_world_step w a w' : act_world w a = Some w' -> exists l, world_step settings w l w'.
Proof.
  destruct a as [|a|a]; simpl.
  - intros [= <-]. eexists. constructor.
  - intros (pc & Hpc & ([pc' l] & Hs & E)%bind_Some)%bind_Some. simpl in E.
    exists ByLoop. destruct l as [l|]; simpl in E.
    + destruct (tasks (life w) !! launch_task l) eqn:Ht; simpl in E; [done|]. injection E as <-.
      apply (step_loop settings w a pc pc' (Some l)); [done|done|]. by intros l' [= <-].
    + injection E as <-. by apply (step_loop settings w a pc pc' None).
  - intros (life' & (t & op & Hs)%act_step & [= <-])%bind_Some. eexists. by constructor.
Qed.

Lemma run_world_app a b : forall w,
  run_world w (a ++ b) = (w' ← run_world w a; run_world w' b).
Proof. induction a as [|x a IH]; intros w; [done|]. simpl. destruct (act_world w x); [apply IH|done]. Qed.

Lemma run_world_reachable db acts : forall w w',
  reachable_world settings db w -> run_world w acts = Some w' -> reachable_world settings db w'.
Proof.
  induction acts as [|a acts IH]; simpl; intros w w' Hw; [by intros [= <-]|].
  intros (w1 & Ha & Hr)%bind_Some. apply act_world_step in Ha as [l Hs].
  eapply IH; [|exact Hr]. by eapply world_next.
Qed.
End Runs.

Definition refresh_demo_settings : ResolvedIndexConfig :=
  resolve_index_config None
    {| raw_database_path := None; raw_refresh_interval_seconds := Some 3600;
       raw_startup_grace_period_seconds := Some 0; raw_schedule_jitter_seconds := Some 0;
       raw_inventory_batch_size := None; raw_inventory_root := None;
       raw_commit_batch_size := None; raw_commit_interval_ms := None; raw_batch_size := None;
       raw_item_rate_limit := None; raw_burst_size := None; raw_duty_cycle_percent := None;
       raw_adaptive := None; raw_minimum_item_rate := None; raw_minimum_batch_size := None;
       raw_minimum_duty_cycle_percent := None; raw_canary_item_rate := None;
       raw_canary_batch_size := None; raw_canary_duty_cycle_percent := None;
       raw_adaptive_healthy_window_seconds := None;
       raw_adaptive_recovery_delay_seconds := None;
       raw_adaptive_max_recovery_delay_seconds := None; raw_sentinel_tag := None;
       raw_sentinel_probe_interval_seconds := None; raw_minimum_free_space_bytes := None;
       raw_storage_headroom_bytes := None; raw_circuit_failure_threshold := None;
       raw_circuit_open_seconds := None; raw_quiet_period_seconds := None;
       raw_health_probe_interval_seconds := None; raw_health_latency_threshold_ms := None;
       raw_adaptive_foreground_soft_latency_ms := None;
       raw_adaptive_foreground_hard_latency_ms := None; raw_operation_timeout_seconds := None;
       raw_maintenance_windows := ["00:00-00:00"]; raw_concurrency := None; raw_worker_count := None;
       raw_query_cache_capacity := None; raw_max_results := None |}.

(** An index of the server that is due, in an open maintenance window. *)
Definition enrolled_demo : IndexDb :=
  set_enrolled demo_db
    (<["plc" := {| auto_refresh_enabled := true; enrolled_at := "0"; updated_at := "0" |}]>
       (enrolled_servers demo_db)).
Definition due_at : Z := from_secs 7200.
Definition demo_visit (probe : result (NamespaceOrganization * BrowseSource) string) : list Answer :=
  [AnswerStatus due_at 0 demo_reads; AnswerClock due_at 12 0; AnswerNone; AnswerCapabilities probe].
Definition demo_begin : list WorldAct :=
  [StartLoop; LoopStep AnswerNone; LoopStep AnswerNone; LoopStep AnswerNone; LoopStep AnswerNone].
Definition demo_started_world : list WorldAct :=
  demo_begin ++ map LoopStep (demo_visit (Ok (OrgHierarchical, SourceDa3))) ++
  [LoopStep (AnswerStatus due_at 0 demo_reads); LoopStep (AnswerClock due_at 12 0);
   LoopStep (AnswerDecision 7 due_at 12 0)].
Definition demo_at (acts : list WorldAct) : World :=
  unwrap_or (initial_world enrolled_demo)
    (run_world (H := ascii_text) refresh_demo_settings (initial_world enrolled_demo) acts).

Lemma demo_at_reachable acts :
  is_some (run_world (H := ascii_text) refresh_demo_settings (initial_world enrolled_demo) acts) = true ->
  reachable_world (H := ascii_text) refresh_demo_settings enrolled_demo (demo_at acts).
Proof.
  unfold demo_at. destruct (run_world _ _ _) as [w|] eqn:Hw; [|done]. intros _.
  eapply run_world_reachable; [apply world_initial|exact Hw].
Qed.

Definition demo_launch : option Launch := launches (demo_at demo_started_world) !! 7%nat.

Lemma advance_world_step `{TextLibrary} settings w t server pc m lock pc' op :
  at_task (life w) t server pc ->
  advance_task settings t server (manager (life w)) (deleting_lock (life w)) pc = Some (m, lock, pc', op) ->
  let life' := mk_lifecycle m (<[t := mk_task server pc']> (tasks (life w))) lock in
  world_step settings w (ByManager (Some t) op)
    (mk_world life' (background_started w) (pc ← loop w; Some (resume pc (tasks life'))) (launches w)).
Proof. intros Hat Ha%advance_task_step. apply step_manager. by eapply step_task. Qed.

Definition demo_section : option (Pc * option db_op) :=
  '(_, _, pc, op) ← advance_task (H := ascii_text) refresh_demo_settings 7 "plc"
    (manager (life (demo_at demo_started_world))) (deleting_lock (life (demo_at demo_started_world)))
    (Checking false true None);
  Some (pc, op).

Lemma background_refresh_guarded_witness : exists l,
  demo_launch = Some l /\ due l /\
  enrollment (database (manager (life (demo_at demo_started_world)))) (launch_server l) = Some true.
Proof.
  destruct demo_launch as [l|] eqn:El; [|vm_compute in El; discriminate El]. exists l.
  assert (Hserver : launch_server l = "plc") by (vm_compute in El; injection El as <-; reflexivity).
  assert (Hs : demo_section = Some (Counting false None, None)) by (vm_compute; reflexivity).
  assert (Hat : at_task (life (demo_at demo_started_world)) 7 "plc" (Checking false true None))
    by (vm_compute; reflexivity).
  assert (Hr : reachable_world (H := ascii_text) refresh_demo_settings enrolled_demo (demo_at demo_started_world))
    by (apply demo_at_reachable; vm_compute; reflexivity).
  unfold demo_launch in El. unfold demo_section in Hs. revert El Hs Hat Hr.
  generalize (demo_at demo_started_world). intros w El Hs Hat Hr.
  destruct (advance_task _ _ _ _ _ _) as [[[[m lock] pc'] op]|] eqn:E; [|discriminate Hs].
  injection Hs as -> ->.
  destruct (background_refresh_guarded (H := ascii_text) refresh_demo_settings enrolled_demo
    w 7 None _ l (Checking false true None) (Counting false None)
    Hr El (advance_world_step refresh_demo_settings w 7 "plc" _ m lock _ None Hat E))
    as (_ & Hd & (_ & _ & _ & _ & He) & _).
  - by rewrite Hserver.
  - unfold at_task. simpl. by rewrite Hserver, lookup_insert_eq.
  - done.
Defined.

(** The turns of a round the answers allow, with the managers they read. *)
Fixpoint play (settings : ResolvedIndexConfig) (turns : list (Answer * Manager)) (visited : list string)
    (n : nat) (seen : bool) (pc : RefreshPc) : list string * nat * bool * RefreshPc :=
  match turns with
  | [] => (visited, n, seen, pc)
  | (a, m) :: turns =>
      match loop_step settings a m pc with
      | Some (pc', _) =>
          if in_round pc then play settings turns (visited ++ visit_of pc') (S n) (seen || sees_shutdown pc m) pc'
          else (visited, n, seen, pc)
      | None => (visited, n, seen, pc)
      end
  end.
Lemma play_round settings start turns : forall visited n seen pc,
  round settings start visited n seen pc ->
  let '(visited', n', seen', pc') := play settings turns visited n seen pc in
  round settings start visited' n' seen' pc'.
Proof.
  induction turns as [|[a m] turns IH]; intros visited n seen pc Hr; simpl; [done|].
  destruct (loop_step settings a m pc) as [[pc' l]|] eqn:E; [|done].
  destruct (in_round pc) eqn:Ei; [|done]. apply IH. eapply round_turn; [exact Hr|]. by eapply turn_step.
Qed.

(** Two servers without an index: each is visited, asks for its delay, and the loop sleeps. With
    a shutdown before the second it sleeps at once. *)
Definition reads_unindexed : StatusReads :=
  {| is_deleting := false; deletion_error := None; is_promoting := false; is_memory := false;
     enrollment_read := Ok (Some true); rows_read := Ok []; Status.persisted_retry := Ok (None, 0, false);
     runtime_state := None; foreground_snapshot := default_metrics;
     latest_host_metrics := default_host_metrics; storage := default_storage;
     sentinel_configured := false |}.
Definition demo_visit_turns (m : Manager) : list (Answer * Manager) :=
  [(AnswerNone, m); (AnswerStatus due_at 0 reads_unindexed, m); (AnswerClock due_at 3 0, m);
   (AnswerStatus due_at 0 reads_unindexed, m); (AnswerClock due_at 3 0, m)].
Definition demo_manager_up : Manager := new_manager empty_db.
Definition demo_round (second : Manager) : list string * nat * bool * RefreshPc :=
  play refresh_demo_settings (demo_visit_turns demo_manager_up ++ demo_visit_turns second ++ [(AnswerNone, second)])
    [] 0 false (NextServer ["a"; "b"] (from_secs 60)).
Definition demo_delay (second : Manager) : Z :=
  match (demo_round second).2 with Sleep delay => delay | _ => 0 end.

Lemma background_round_ends_witness :
  let down := set_shutting_down demo_manager_up true in
  (demo_round demo_manager_up = (["a"; "b"], 11%nat, false, Sleep (demo_delay demo_manager_up)) /\
     0 <= demo_delay demo_manager_up <= from_secs 60) /\
  (demo_round down = (["a"], 6%nat, true, Sleep (demo_delay down)) /\ 0 <= demo_delay down <= from_secs 60).
Proof.
  assert (H : forall second visited n seen delay,
    demo_round second = (visited, n, seen, Sleep delay) ->
    (seen = false -> visited = ["a"; "b"]) /\ 0 <= delay <= from_secs 60).
  { intros second visited n seen delay E.
    pose proof (play_round refresh_demo_settings (NextServer ["a"; "b"] (from_secs 60))
      (demo_visit_turns demo_manager_up ++ demo_visit_turns second ++ [(AnswerNone, second)]) [] 0 false _
      (round_start _ _)) as Hr.
    unfold demo_round in E. rewrite E in Hr.
    destruct (background_round_ends _ _ _ _ _ _ Hr) as (_ & _ & [(d & [= ->] & Hd & Hv)|[_ [(? & ? & ? & ? & ?)|[? _]]]]);
      [by split|discriminate|discriminate]. }
  intros down.
  assert (E1 : demo_round demo_manager_up = (["a"; "b"], 11%nat, false, Sleep (demo_delay demo_manager_up)))
    by (vm_compute; reflexivity).
  assert (E2 : demo_round down = (["a"], 6%nat, true, Sleep (demo_delay down))) by (vm_compute; reflexivity).
  split; (split; [assumption|]).
  - by destruct (H _ _ _ _ _ E1).
  - by destruct (H _ _ _ _ _ E2).
Defined.

(** ** A due index of an unreachable server

    In an open maintenance window the index of a server is due. The server does not answer the
    probe of its profile; nothing records the failure, no retry is scheduled, and the status
    of a due index asks for no delay: the loop sleeps for no time and probes the server again, as
    often as it can at one and the same instant. *)
Definition unreachable_round : list WorldAct :=
  map LoopStep
    ([AnswerNone; AnswerNone; AnswerNone] ++ demo_visit (Err "the server does not answer") ++
     [AnswerClock due_at 12 0; AnswerStatus due_at 0 demo_reads; AnswerClock due_at 12 0; AnswerNone]).

Lemma due_index_polled_without_wait n :
  let w := demo_at [StartLoop; LoopStep AnswerNone] in
  loop (demo_at (StartLoop :: LoopStep AnswerNone :: unreachable_round)) = Some (Sleep 0) /\
  run_world (H := ascii_text) refresh_demo_settings w
    (concat (replicate n (unreachable_round ++ [LoopStep AnswerNone]))) = Some w.
Proof.
  intros w. split; [vm_compute; reflexivity|]. induction n as [|n IH]; [done|].
  assert (E : run_world (H := ascii_text) refresh_demo_settings w (unreachable_round ++ [LoopStep AnswerNone]) = Some w)
    by (vm_compute; reflexivity).
  rewrite replicate_S. cbn [concat]. rewrite run_world_app, E. exact IH.
Qed.
