(* ===== verification/IndexFiles.v ===== *)
(** * The files of the index and the locks between processes (index/store.rs, scheduler.rs,
      enrollment.rs)

    An unreadable database is moved away with its side files, with a rollback when a move
    fails. A build, a deletion and the recovery of interrupted builds exclude each other across
    processes by a lock file per server. Every call of the operating system is a step; whether it
    fails, and with what error, is an input. *)
From S2P Require Import Prelude Text Schedule Opc Store StoreSpec.

(** What the code looks at of a [std::io::Error]. *)
Inductive IoKind := IoNotFound | IoWouldBlock | IoOther.
#[export] Instance IoKind_eq_dec : EqDecision IoKind.
Proof. solve_decision. Defined.
Record IoError := { io_kind : IoKind; raw_os_error : option Z; io_text : string }.

Definition is_lock_conflict (error : IoError) : bool :=
  bool_decide (io_kind error = IoWouldBlock)
  || match raw_os_error error with
     | Some code => (code =? 32) || (code =? 33)
     | None => false
     end.

Definition sqlite_sidecar_path (path suffix : string) : string := String.append path suffix.

(** ** Quarantine *)

(** The files by path, and the failures of the calls to come ([None]: the call does what it
    should). *)
Record Disk (A : Type) := mk_disk { files : gmap string A; faults : list (option IoError) }.
Arguments mk_disk {A}.
Arguments files {A}.
Arguments faults {A}.

Definition not_found : IoError :=
  {| io_kind := IoNotFound; raw_os_error := Some 2; io_text := "No such file or directory" |}.

Inductive QuarantineError :=
| InspectFailed (e : IoError)
| MoveFailed (e : IoError)
| RollbackFailed (source : string) (e : IoError) (failed : nat).

Section Quarantine.
Context {A : Type}.

Definition next_fault (d : Disk A) : option IoError * Disk A :=
  match faults d with
  | [] => (None, d)
  | f :: rest => (f, mk_disk (files d) rest)
  end.

(** [fs::symlink_metadata] *)
Definition symlink_metadata (source : string) (d : Disk A) : Disk A * result unit IoError :=
  let '(fault, d) := next_fault d in
  (d, match fault with
      | Some e => Err e
      | None => if is_some (files d !! source) then Ok tt else Err not_found
      end).

(** [fs::rename]: it replaces the destination, or changes nothing. *)
Definition rename (source destination : string) (d : Disk A) : Disk A * result unit IoError :=
  let '(fault, d) := next_fault d in
  match fault, files d !! source with
  | Some e, _ => (d, Err e)
  | None, None => (d, Err not_found)
  | None, Some f => (mk_disk (<[destination := f]> (delete source (files d))) (faults d), Ok tt)
  end.

(** [moved] has the last move first. *)
Fixpoint rollback (moved : list (string * string)) (d : Disk A) : Disk A * nat :=
  match moved with
  | [] => (d, O)
  | (moved_source, moved_destination) :: rest =>
      let '(d, r) := rename moved_destination moved_source d in
      let '(d, failed) := rollback rest d in
      (d, match r with Ok _ => failed | Err _ => S failed end)
  end.

Fixpoint quarantine_files (todo moved : list (string * string)) (d : Disk A) :
    Disk A * result bool QuarantineError :=
  match todo with
  | [] => (d, Ok match moved with [] => false | _ => true end)
  | (source, destination) :: rest =>
      match symlink_metadata source d with
      | (d, Err e) =>
          if bool_decide (io_kind e = IoNotFound) then quarantine_files rest moved d
          else (d, Err (InspectFailed e))
      | (d, Ok _) =>
          match rename source destination d with
          | (d, Err e) =>
              let '(d, failed) := rollback moved d in
              (d, Err (if (failed =? 0)%nat then MoveFailed e else RollbackFailed source e failed))
          | (d, Ok _) => quarantine_files rest ((source, destination) :: moved) d
          end
      end
  end.

Definition quarantine_paths (path quarantine : string) : list (string * string) :=
  [(path, quarantine);
   (sqlite_sidecar_path path "-wal", sqlite_sidecar_path quarantine "-wal");
   (sqlite_sidecar_path path "-shm", sqlite_sidecar_path quarantine "-shm")].

Definition quarantine_index_files_with (path quarantine : string) (d : Disk A) :
    Disk A * result bool QuarantineError :=
  quarantine_files (quarantine_paths path quarantine) [] d.
End Quarantine.

(** ** The lock of a build

    Every process runs this code; a thread below is one use of a lock, in any process.
    The lock of a file belongs to the handle that took it, here the number of its thread. *)
Record LockFile := mk_lock_file { lock_text : string; lock_holder : option nat }.

Inductive LockError :=
| AlreadyHeld (owner : string) (e : IoError)
| LockIo (e : IoError).

Inductive LockPc :=
(* BuildFileLock::acquire *)
| Opening
| LockingFile
| Initializing
| WritingOwner
| Unlocking (error : LockError)
| Closing (error : LockError)
| Refused (error : LockError)
| Acquired
(* the drop of BuildFileLock *)
| RemovingOwner
| Releasing
| Released
(* BuildFileLock::is_held *)
| ProbeOpening
| Probing
| ProbeUnlocking
| Answered (r : result bool LockError)
(* the recovery of interrupted builds, the death of the process *)
| Recovered
| Dead.

(** A probe of [open_once] is one for the recovery. *)
Record LockThread := mk_lock_thread { lock_server : string; for_recovery : bool; lock_pc : LockPc }.

(** The lock files and owner files by path, the threads, and the database the processes
    share. *)
Record LockWorld := mk_lock_world {
  lock_files : gmap string LockFile;
  owner_files : gmap string string;
  lock_threads : gmap nat LockThread;
  shared_db : IndexDb
}.

Definition set_lock_files (w : LockWorld) f :=
  mk_lock_world f (owner_files w) (lock_threads w) (shared_db w).
Definition set_owner_files (w : LockWorld) f :=
  mk_lock_world (lock_files w) f (lock_threads w) (shared_db w).
Definition set_lock_thread (w : LockWorld) (t : nat) (x : LockThread) :=
  mk_lock_world (lock_files w) (owner_files w) (<[t := x]> (lock_threads w)) (shared_db w).
Definition set_shared_db (w : LockWorld) db :=
  mk_lock_world (lock_files w) (owner_files w) (lock_threads w) db.

Section Locks.
Context `{TextLibrary}.
(** [cfg(windows)], and the canonical path of the database. *)
Context (windows : bool) (database : string).

Definition build_lock_path (server : string) : string :=
  String.append database
    (String.append "." (String.append (stable_server_hash server) ".build.lock")).
Definition build_owner_path (server : string) : string :=
  String.append database
    (String.append "." (String.append (stable_server_hash server) ".build.owner")).

Definition newline : string := String "010" EmptyString.
Definition lock_metadata (process : Z) (server : string) : string :=
  String.append "process_id="
    (String.append (to_decimal process)
       (String.append newline (String.append "server=" (String.append server newline)))).

(** [read_lock_owner]; the flags tell whether the owner file and the lock file can be read. *)
Definition read_lock_owner (w : LockWorld) (server : string) (owner_readable lock_readable : bool) :
    string :=
  let lock_file := f ← lock_files w !! build_lock_path server; then_some lock_readable (lock_text f) in
  let owner_file := o ← owner_files w !! build_owner_path server; then_some (windows && owner_readable) o in
  unwrap_or "owner details unavailable" (option_or owner_file lock_file).

Definition lock_free (w : LockWorld) (server : string) : bool :=
  match lock_files w !! build_lock_path server with
  | Some f => negb (is_some (lock_holder f))
  | None => true
  end.
Definition set_holder (holder : option nat) (server : string) (w : LockWorld) : LockWorld :=
  set_lock_files w
    (alter (fun f => mk_lock_file (lock_text f) holder) (build_lock_path server) (lock_files w)).
Definition set_text (text : string) (server : string) (w : LockWorld) : LockWorld :=
  set_lock_files w
    (alter (fun f => mk_lock_file text (lock_holder f)) (build_lock_path server) (lock_files w)).
(** [OpenOptions::create(true).truncate(false)] *)
Definition create_file (server : string) (w : LockWorld) : LockWorld :=
  match lock_files w !! build_lock_path server with
  | Some _ => w
  | None => set_lock_files w (<[build_lock_path server := mk_lock_file "" None]> (lock_files w))
  end.
(** The end of a handle releases what it holds. *)
Definition close_handle (t : nat) (server : string) (w : LockWorld) : LockWorld :=
  match lock_files w !! build_lock_path server with
  | Some f => if bool_decide (lock_holder f = Some t) then set_holder None server w else w
  | None => w
  end.

Definition in_memory : bool := bool_decide (database = ":memory:").

(** What [is_held] makes of a failed call. *)
Definition probe_error (opening : bool) (e : IoError) : result bool LockError :=
  if opening && bool_decide (io_kind e = IoNotFound) then Ok false
  else if is_lock_conflict e then Ok true
  else Err (LockIo e).

(** One call of thread [t]. A lock can be taken only when it is free; every call can also
    fail. *)
Inductive lock_step (t : nat) (server : string) (w : LockWorld) : LockPc -> LockWorld -> LockPc -> Prop :=
| step_memory : in_memory = true -> lock_step t server w Opening w Acquired
| step_directory_error e :
    in_memory = false -> lock_step t server w Opening w (Refused (LockIo e))
| step_open : in_memory = false -> lock_step t server w Opening (create_file server w) LockingFile
| step_open_error e r1 r2 :
    in_memory = false ->
    lock_step t server w Opening w
      (Refused (if is_lock_conflict e then AlreadyHeld (read_lock_owner w server r1 r2) e else LockIo e))
| step_lock :
    lock_free w server = true ->
    lock_step t server w LockingFile (set_holder (Some t) server w) Initializing
| step_lock_error e r1 r2 :
    lock_step t server w LockingFile w (Closing (AlreadyHeld (read_lock_owner w server r1 r2) e))
| step_initialize process :
    lock_step t server w Initializing (set_text (lock_metadata process server) server w)
      (if windows then WritingOwner else Acquired)
| step_initialize_error text e :
    lock_step t server w Initializing (set_text text server w) (Unlocking (LockIo e))
| step_owner process :
    lock_step t server w WritingOwner
      (set_owner_files w (<[build_owner_path server := lock_metadata process server]> (owner_files w)))
      Acquired
| step_owner_error e : lock_step t server w WritingOwner w (Unlocking (LockIo e))
| step_unlock (failed : bool) error :
    lock_step t server w (Unlocking error) (if failed then w else set_holder None server w) (Closing error)
| step_close error : lock_step t server w (Closing error) (close_handle t server w) (Refused error)
| step_drop : lock_step t server w Acquired w (if in_memory then Released else if windows then RemovingOwner else Releasing)
| step_remove_owner (failed : bool) :
    lock_step t server w RemovingOwner
      (if failed then w else set_owner_files w (delete (build_owner_path server) (owner_files w)))
      Releasing
| step_release : lock_step t server w Releasing (close_handle t server w) Released
| step_probe_memory : in_memory = true -> lock_step t server w ProbeOpening w (Answered (Ok false))
| step_probe_open :
    in_memory = false -> is_some (lock_files w !! build_lock_path server) = true ->
    lock_step t server w ProbeOpening w Probing
| step_probe_missing e :
    in_memory = false -> lock_files w !! build_lock_path server = None -> io_kind e = IoNotFound ->
    lock_step t server w ProbeOpening w (Answered (probe_error true e))
| step_probe_open_error e :
    in_memory = false -> io_kind e <> IoNotFound ->
    lock_step t server w ProbeOpening w (Answered (probe_error true e))
| step_probe_lock :
    lock_free w server = true ->
    lock_step t server w Probing (set_holder (Some t) server w) ProbeUnlocking
| step_probe_error e : lock_step t server w Probing w (Answered (probe_error false e))
| step_probe_unlock (failure : option IoError) :
    lock_step t server w ProbeUnlocking (close_handle t server w)
      (Answered match failure with Some e => Err (LockIo e) | None => Ok false end).

(** What the owner of the lock writes: the generations of its server. *)
Definition owner_op (server : string) (op : db_op) : Prop :=
  match op with
  | OpStartGeneration s _ _ _ | OpInsertEntries s _ _ | OpUpdateProgress s _ _
  | OpPromote s _ _ _ _ _ | OpFailGeneration s _ _ | OpDiscardEmptyGeneration s _
  | OpDeleteIndex s => s = server
  | _ => False
  end.

Inductive locks_step (w : LockWorld) : LockWorld -> Prop :=
| step_acquire t server :
    lock_threads w !! t = None ->
    locks_step w (set_lock_thread w t (mk_lock_thread server false Opening))
| step_is_held t server :
    lock_threads w !! t = None ->
    locks_step w (set_lock_thread w t (mk_lock_thread server false ProbeOpening))
| step_recovery t server :
    lock_threads w !! t = None -> server ∈ staging_servers (shared_db w) ->
    locks_step w (set_lock_thread w t (mk_lock_thread server true ProbeOpening))
| step_thread t server recovery pc w' pc' :
    lock_threads w !! t = Some (mk_lock_thread server recovery pc) ->
    lock_step t server w pc w' pc' ->
    locks_step w (set_lock_thread w' t (mk_lock_thread server recovery pc'))
| step_recover t server :
    lock_threads w !! t = Some (mk_lock_thread server true (Answered (Ok false))) ->
    locks_step w
      (set_lock_thread (set_shared_db w (recover_server (shared_db w) server)) t
         (mk_lock_thread server true Recovered))
| step_owner_write t server recovery op :
    lock_threads w !! t = Some (mk_lock_thread server recovery Acquired) -> owner_op server op ->
    locks_step w (set_shared_db w (db_exec (shared_db w) op))
| step_death t server recovery pc :
    lock_threads w !! t = Some (mk_lock_thread server recovery pc) ->
    locks_step w (set_lock_thread (close_handle t server w) t (mk_lock_thread server recovery Dead)).

Definition locks_initial (db : IndexDb) : LockWorld := mk_lock_world ∅ ∅ ∅ db.
Inductive locks_reachable (db : IndexDb) : LockWorld -> Prop :=
| locks_start : locks_reachable db (locks_initial db)
| locks_next w w' : locks_reachable db w -> locks_step w w' -> locks_reachable db w'.
End Locks.

(** [acquire_delete_lock_with]: the answers of the attempts, each with that of [is_held] after
    a failure; [None] while it waits. *)
Fixpoint acquire_delete_lock_with (attempts : list (result unit LockError * result bool LockError)) :
    option (result unit LockError) :=
  match attempts with
  | [] => None
  | (Ok _, _) :: _ => Some (Ok tt)
  | (Err error, held) :: rest =>
      match held with
      | Err e => Some (Err e)
      | Ok true => acquire_delete_lock_with rest
      | Ok false => Some (Err error)
      end
  end.
