(* ===== verification/IndexFilesSpec.v ===== *)
(** * Properties of the index files and of the locks between processes

    The quarantine of an unreadable database is all or nothing unless an inspection or the
    rollback fails; the lock of a build excludes and is never left behind; and runs in which the moments
    between a look at the lock and what follows from it end a live build or a deletion. *)
From S2P Require Import Prelude Text Schedule Opc Store StoreWf StoreSpec IndexFiles.

Section QuarantineSpec.
Context {A : Type}.
Implicit Types (fs : gmap string A) (d : Disk A) (p q : string * string).

(** Where the file of a pair is: at its source, or moved to its destination. *)
Definition pair_at fs0 fs (moved : bool) p : Prop :=
  if moved then fs !! p.1 = None /\ fs !! p.2 = fs0 !! p.1
  else fs !! p.1 = fs0 !! p.1 /\ fs !! p.2 = None.

Definition apart p q : Prop := p.1 <> q.1 /\ p.1 <> q.2 /\ p.2 <> q.1 /\ p.2 <> q.2.
Record separate (l : list (string * string)) : Prop := {
  separate_nodup : NoDup l;
  separate_self p : p ∈ l -> p.1 <> p.2;
  separate_apart p q : p ∈ l -> q ∈ l -> p <> q -> apart p q
}.
Definition outside (l : list (string * string)) (x : string) : Prop :=
  forall p, p ∈ l -> x <> p.1 /\ x <> p.2.

(** What a rename changes. *)
Lemma rename_spec src dst d d' r :
  rename src dst d = (d', r) ->
  (exists e, r = Err e /\ files d' = files d) \/
  (exists f, r = Ok tt /\ files d !! src = Some f /\ files d' = <[dst := f]> (delete src (files d))).
Proof.
  unfold rename. destruct (next_fault d) as [fault d1] eqn:E.
  assert (Hd : files d1 = files d).
  { unfold next_fault in E. destruct (faults d); by injection E as _ <-. }
  rewrite Hd. destruct fault as [e|]; [intros [= <- <-]; eauto|].
  destruct (files d !! src) as [f|] eqn:Hf; intros [= <- <-]; [right|left]; eauto.
Qed.

Lemma pair_at_frame fs0 fs b p src dst f :
  p.1 <> src -> p.1 <> dst -> p.2 <> src -> p.2 <> dst ->
  pair_at fs0 fs b p -> pair_at fs0 (<[dst := f]> (delete src fs)) b p.
Proof. intros. unfold pair_at. by rewrite !lookup_insert_ne, !lookup_delete_ne by congruence. Qed.

Lemma pair_moves fs0 fs (l : list (string * string)) (s t : string) (f : A) (b : bool) :
  separate l -> (s, t) ∈ l -> fs0 !! s = Some f ->
  let fs' : gmap string A := <[if b then t else s := f]> (delete (if b then s else t) fs) in
  pair_at fs0 fs' b (s, t) /\
  (forall p b', p ∈ l -> p <> (s, t) -> pair_at fs0 fs b' p -> pair_at fs0 fs' b' p) /\
  (forall x, outside l x -> fs' !! x = fs !! x).
Proof.
  intros Hsep Hin Hf. assert (Hst : s <> t) by (by apply (separate_self _ Hsep (s, t))). split_and!.
  - destruct b; unfold pair_at; simpl;
      rewrite lookup_insert_eq, lookup_insert_ne, lookup_delete_eq by done; split; congruence.
  - intros p b' Hp Hne. destruct (separate_apart _ Hsep p (s, t) Hp Hin Hne) as (? & ? & ? & ?).
    destruct b; by apply pair_at_frame.
  - intros x Hx. destruct (Hx _ Hin). simpl in *.
    destruct b; by rewrite lookup_insert_ne, lookup_delete_ne by congruence.
Qed.

Lemma rollback_spec fs0 l : separate l -> forall moved d d' n,
  NoDup moved -> (forall p, p ∈ moved -> p ∈ l /\ pair_at fs0 (files d) true p /\ is_Some (fs0 !! p.1)) ->
  rollback moved d = (d', n) ->
  (forall p, p ∈ moved -> exists b, pair_at fs0 (files d') b p /\ (n = O -> b = false)) /\
  (forall p b, p ∈ l -> p ∉ moved -> pair_at fs0 (files d) b p -> pair_at fs0 (files d') b p) /\
  (forall x, outside l x -> files d' !! x = files d !! x).
Proof.
  intros Hsep. induction moved as [|[s t] rest IH]; intros d d' n Hnd Hat Hr.
  { injection Hr as <- <-. split_and!; try done. intros p Hp. by apply elem_of_nil in Hp. }
  simpl in Hr. destruct (rename t s d) as [d1 r] eqn:E1. destruct (rollback rest d1) as [d2 m] eqn:E2.
  injection Hr as <- <-. apply NoDup_cons in Hnd as [Hnot Hnd].
  destruct (Hat (s, t)) as (Hin & [Hs Ht] & [f Hf]); [by left|]. simpl in Hs, Ht, Hf.
  assert (H1 : (exists b, pair_at fs0 (files d1) b (s, t) /\ (is_ok r = true -> b = false)) /\
    (forall p b, p ∈ l -> p <> (s, t) -> pair_at fs0 (files d) b p -> pair_at fs0 (files d1) b p) /\
    (forall x, outside l x -> files d1 !! x = files d !! x)).
  { destruct (rename_spec _ _ _ _ _ E1) as [(e & -> & ->)|(g & -> & Hg & ->)].
    - split_and!; [|done|done]. exists true. by split.
    - assert (g = f) as -> by congruence.
      destruct (pair_moves fs0 (files d) l s t f false Hsep Hin Hf) as (H1 & H2 & H3). by eauto. }
  destruct H1 as ((b1 & Hb1 & Hok) & Hkeep & Hout).
  destruct (IH d1 d2 m Hnd) as (H2 & H3 & H4); [|done|].
  { intros p Hp. destruct (Hat p) as (Hl & Hpa & Hsome); [by right|]. split_and!; try done.
    apply Hkeep; try done. by intros ->. }
  split_and!.
  - intros p Hp. apply elem_of_cons in Hp as [->|Hp].
    + exists b1. split; [by apply H3|]. destruct r; [intros _; by apply Hok|done].
    + destruct (H2 p Hp) as (b & Hb & Hm). exists b. split; [done|]. destruct r; [done|done].
  - intros p b Hp [Hne Hnr]%not_elem_of_cons Hpa. apply H3, Hkeep; done.
  - intros x Hx. rewrite H4, Hout; done.
Qed.

(** The failures of the calls do not pretend that a file is missing. *)
Definition genuine d : Prop :=
  Forall (fun f => forall e, f = Some e -> io_kind e <> IoNotFound) (faults d).

Lemma genuine_next d f d1 : genuine d -> next_fault d = (f, d1) ->
  genuine d1 /\ files d1 = files d /\ forall e, f = Some e -> io_kind e <> IoNotFound.
Proof.
  unfold genuine, next_fault. destruct (faults d) as [|f0 rest] eqn:E; intros Hg [= <- <-].
  - rewrite E. by split_and!.
  - apply Forall_cons in Hg as [H1 H2]. by split_and!.
Qed.

Lemma genuine_rename src dst d d' r : genuine d -> rename src dst d = (d', r) -> genuine d'.
Proof.
  unfold rename. destruct (next_fault d) as [f d1] eqn:E. intros Hg Hr.
  destruct (genuine_next _ _ _ Hg E) as (H1 & _). destruct f; [by injection Hr as <- _|].
  destruct (files d1 !! src); by injection Hr as <- _.
Qed.

Definition quarantine_result fs0 fs (l : list (string * string)) (r : result bool QuarantineError) : Prop :=
  match r with
  | Ok moved =>
      (forall p, p ∈ l -> pair_at fs0 fs true p) /\
      (moved = true <-> exists p, p ∈ l /\ is_Some (fs0 !! p.1))
  | Err (MoveFailed _) => forall p, p ∈ l -> pair_at fs0 fs false p
  | Err _ => forall p, p ∈ l -> exists b, pair_at fs0 fs b p
  end.

Lemma failed_move fs0 (l moved : list (string * string)) d d' n source e :
  separate l -> NoDup moved ->
  (forall p, p ∈ moved -> p ∈ l /\ pair_at fs0 (files d) true p /\ is_Some (fs0 !! p.1)) ->
  (forall p, p ∈ l -> p ∉ moved -> pair_at fs0 (files d) false p) -> rollback moved d = (d', n) ->
  quarantine_result fs0 (files d') l
    (Err (if (n =? 0)%nat then MoveFailed e else RollbackFailed source e n)) /\
  forall x, outside l x -> files d' !! x = files d !! x.
Proof.
  intros Hsep Hnd Hm Hrest Hb. destruct (rollback_spec fs0 l Hsep moved d d' n Hnd Hm Hb) as (B1 & B2 & B3).
  split; [|done].
  assert (Hall : forall p, p ∈ l -> exists b, pair_at fs0 (files d') b p /\ (n = O -> b = false)).
  { intros p Hp. destruct (decide (p ∈ moved)) as [Hi|Hi]; [by apply B1|].
    exists false. split; [|done]. by apply B2, Hrest. }
  destruct (Nat.eqb_spec n 0) as [->|Hn]; simpl; intros p Hp; destruct (Hall p Hp) as (b & Hpb & Hb0).
  - by rewrite Hb0 in Hpb.
  - by exists b.
Qed.

Lemma quarantine_files_spec fs0 l : separate l -> forall todo moved d d' r,
  NoDup (todo ++ moved) -> (forall p, p ∈ todo ++ moved -> p ∈ l) -> genuine d ->
  (forall p, p ∈ moved -> pair_at fs0 (files d) true p /\ is_Some (fs0 !! p.1)) ->
  (forall p, p ∈ l -> p ∉ moved -> pair_at fs0 (files d) false p /\ (p ∉ todo -> fs0 !! p.1 = None)) ->
  quarantine_files todo moved d = (d', r) ->
  quarantine_result fs0 (files d') l r /\ forall x, outside l x -> files d' !! x = files d !! x.
Proof.
  intros Hsep. induction todo as [|[s t] rest IH]; intros moved d d' r Hnd Hsub Hg Hm Ht Hr.
  { injection Hr as <- <-. split; [|done]. split.
    - intros p Hp. destruct (decide (p ∈ moved)) as [Hi|Hi]; [by apply Hm|].
      destruct (Ht p Hp Hi) as [[H1 H2] H3]. rewrite H3 in H1 by apply not_elem_of_nil.
      split; [done|]. rewrite H3; [done|apply not_elem_of_nil].
    - split.
      + destruct moved as [|p moved]; [done|]. intros _. exists p. split; [apply Hsub; by left|].
        apply Hm. by left.
      + intros (p & Hp & [f Hf]). destruct (decide (p ∈ moved)) as [Hi|Hi].
        * destruct moved; [by apply elem_of_nil in Hi|done].
        * destruct (Ht p Hp Hi) as [_ H3]. rewrite H3 in Hf by apply not_elem_of_nil. done. }
  simpl in Hr. apply NoDup_cons in Hnd as Hnd'. destruct Hnd' as [Hnot Hnd'].
  assert (Hin : (s, t) ∈ l) by (apply Hsub; by left).
  assert (Hnm : (s, t) ∉ moved) by (intros Hc; apply Hnot, elem_of_app; by right).
  destruct (Ht _ Hin Hnm) as [[Hs Hd] _]. simpl in Hs, Hd.
  unfold symlink_metadata in Hr. destruct (next_fault d) as [f d1] eqn:Ef.
  destruct (genuine_next _ _ _ Hg Ef) as (Hg1 & Hf1 & Hkind).
  assert (Hskip : fs0 !! s = None -> quarantine_files rest moved d1 = (d', r) ->
    quarantine_result fs0 (files d') l r /\ forall x, outside l x -> files d' !! x = files d !! x).
  { intros Hnone Hq. rewrite <- Hf1. apply (IH moved d1); try done.
    - intros p Hp. by apply Hsub, elem_of_cons; right.
    - by rewrite Hf1.
    - intros p Hp Hi. rewrite Hf1. destruct (Ht p Hp Hi) as [H1 H2]. split; [done|]. intros Hr2.
      destruct (decide (p = (s, t))) as [->|Hne]; [done|]. apply H2. by apply not_elem_of_cons. }
  destruct f as [e|].
  - rewrite bool_decide_eq_false_2 in Hr by (by apply Hkind). injection Hr as <- <-. rewrite Hf1.
    split; [|done]. intros p Hp. destruct (decide (p ∈ moved)) as [Hi|Hi]; [exists true|exists false].
    + by apply Hm.
    + by apply Ht.
  - rewrite Hf1 in Hr. destruct (files d !! s) as [g|] eqn:Hsrc; simpl in Hr.
    2: { apply Hskip; [congruence|exact Hr]. }
    destruct (rename s t d1) as [d2 r2] eqn:Er.
    destruct (rename_spec _ _ _ _ _ Er) as [(e & -> & H2)|(g' & -> & Hg' & H2)].
    + destruct (rollback moved d2) as [d3 n] eqn:Eb. injection Hr as <- <-. rewrite Hf1 in H2.
      rewrite <- H2. apply (failed_move fs0 l moved d2); try done.
      * apply NoDup_app in Hnd'. apply Hnd'.
      * intros p Hp. rewrite H2. destruct (Hm p Hp). split; [|done]. by apply Hsub, elem_of_app; right.
      * intros p Hp Hi. rewrite H2. by apply Ht.
    + rewrite Hf1 in H2, Hg'. assert (g' = g) as -> by congruence.
      destruct (pair_moves fs0 (files d) l s t g true Hsep Hin ltac:(congruence)) as (Hself & Hother & Hout).
      rewrite <- H2 in Hself, Hother, Hout.
      destruct (IH ((s, t) :: moved) d2 d' r) as [R1 R2]; try done.
      * apply (NoDup_Permutation_proper _ _ (Permutation_middle rest moved (s, t))). by constructor.
      * intros p Hp. apply Hsub. rewrite elem_of_app, elem_of_cons in Hp. simpl.
        rewrite elem_of_cons, elem_of_app. tauto.
      * by eapply genuine_rename.
      * intros p Hp. apply elem_of_cons in Hp as [->|Hp].
        { split; [done|]. simpl. by rewrite <- Hs. }
        destruct (Hm p Hp). split; [|done]. apply Hother; [|by intros ->|done].
        by apply Hsub, elem_of_cons; right; apply elem_of_app; right.
      * intros p Hp [Hne Hi]%not_elem_of_cons. destruct (Ht p Hp Hi) as [H3 H4].
        split; [by apply Hother|]. intros Hr2. apply H4. by apply not_elem_of_cons.
      * split; [done|]. intros x Hx. by rewrite R2, Hout by done.
Qed.

(** C25: the quarantine of the index files is all or nothing. Its three files are at unused
    destinations, or, when a move failed and the rollback did not, where they were; the answer tells
    whether there was any; and whatever fails, every file is in one of its two places with its
    content, and no other file is touched. *)
Theorem quarantine_all_or_nothing path quarantine d d' r :
  let l := quarantine_paths path quarantine in
  separate l -> (forall p, p ∈ l -> files d !! p.2 = None) -> genuine d ->
  quarantine_index_files_with path quarantine d = (d', r) ->
  match r with
  | Ok moved =>
      (forall p, p ∈ l -> files d' !! p.1 = None /\ files d' !! p.2 = files d !! p.1) /\
      (moved = true <-> exists p, p ∈ l /\ is_Some (files d !! p.1))
  | Err (MoveFailed _) => forall p, p ∈ l -> files d' !! p.1 = files d !! p.1 /\ files d' !! p.2 = None
  | Err _ =>
      forall p, p ∈ l ->
      (files d' !! p.1 = files d !! p.1 /\ files d' !! p.2 = None) \/
      (files d' !! p.1 = None /\ files d' !! p.2 = files d !! p.1)
  end /\
  forall x, outside l x -> files d' !! x = files d !! x.
Proof.
  intros l Hsep Hfree Hg Hq.
  destruct (quarantine_files_spec (files d) l Hsep l [] d d' r) as [H1 H2]; try done.
  - rewrite app_nil_r. by apply Hsep.
  - intros p Hp. by apply elem_of_nil in Hp.
  - intros p Hp _. split; [|by intros []]. split; [done|by apply Hfree].
  - split; [|done]. destruct r as [moved|[e|e|s e n]]; try exact H1;
      intros p Hp; destruct (H1 p Hp) as [[] Hb]; [by right|by left|by right|by left].
Qed.
End QuarantineSpec.

(** ** Failures of the quarantine *)

Definition demo_disk (faults : list (option IoError)) : Disk string :=
  mk_disk (<["index.db" := "main"]> (<["index.db-wal" := "log"]> (<["other" := "x"]> ∅))) faults.
Definition busy : IoError :=
  {| io_kind := IoOther; raw_os_error := Some 5; io_text := "Access is denied" |}.
Definition demo_paths : list (string * string) := quarantine_paths "index.db" "index.quarantine-1".

Lemma demo_separate : separate demo_paths.
Proof.
  split.
  - apply (bool_decide_unpack _). vm_compute. exact I.
  - intros p. unfold demo_paths, quarantine_paths. rewrite !elem_of_cons, elem_of_nil.
    intros [->|[->|[->|[]]]]; vm_compute; discriminate.
  - intros p q. unfold demo_paths, quarantine_paths. rewrite !elem_of_cons, !elem_of_nil.
    intros [->|[->|[->|[]]]] [->|[->|[->|[]]]]; try done; intros _; repeat split; vm_compute; discriminate.
Qed.

(** The move of the log fails: the database is moved back. *)
Lemma quarantine_all_or_nothing_witness :
  let r := quarantine_index_files_with "index.db" "index.quarantine-1" (demo_disk [None; None; None; Some busy]) in
  r.2 = Err (MoveFailed busy) /\ files r.1 !! "index.db" = Some "main".
Proof.
  intros r. split; [vm_compute; reflexivity|].
  destruct (quarantine_all_or_nothing "index.db" "index.quarantine-1" (demo_disk [None; None; None; Some busy])
    r.1 r.2 demo_separate) as [H1 _].
  - intros p. unfold quarantine_paths. rewrite !elem_of_cons, elem_of_nil.
    intros [->|[->|[->|[]]]]; vm_compute; reflexivity.
  - repeat constructor; by intros e [= <-].
  - vm_compute. reflexivity.
  - assert (E : r.2 = Err (MoveFailed busy)) by (vm_compute; reflexivity). rewrite E in H1.
    apply (H1 ("index.db", "index.quarantine-1")). unfold quarantine_paths. by left.
Defined.

(** A failed inspection of the second file returns without the rollback: the database has been
    moved, its log stays in its place, where the next database of that name finds it. *)
Lemma inspection_failure_splits_files :
  let r := quarantine_index_files_with "index.db" "index.quarantine-1" (demo_disk [None; None; Some busy]) in
  r.2 = Err (InspectFailed busy) /\ files r.1 !! "index.db" = None /\
  files r.1 !! "index.quarantine-1" = Some "main" /\ files r.1 !! "index.db-wal" = Some "log".
Proof. vm_compute. by split_and!. Qed.


(** ** The lock of a build *)

Section LockSpec.
Context `{TextLibrary}.
Context (windows : bool) (database : string).
Context (Hfile : in_memory database = false).
Notation path := (build_lock_path database).

(** The stages between taking the lock of the file and giving it up. *)
Definition has_lock (pc : LockPc) : bool :=
  match pc with
  | Initializing | WritingOwner | Unlocking _ | Acquired | RemovingOwner | Releasing | ProbeUnlocking => true
  | _ => false
  end.
(** The failed unlock of a refused handle is made good when it is closed. *)
Definition may_have_lock (pc : LockPc) : bool :=
  has_lock pc || match pc with Closing _ => true | _ => false end.

Definition thread_at (w : LockWorld) (t : nat) (server : string) (pc : LockPc) : Prop :=
  exists recovery, lock_threads w !! t = Some (mk_lock_thread server recovery pc).
Definition holder_of (w : LockWorld) (p : string) : option nat := f ← lock_files w !! p; lock_holder f.

Definition file_exists (w : LockWorld) (server : string) : Prop := is_Some (lock_files w !! path server).
Definition needs_file (pc : LockPc) : bool :=
  match pc with
  | LockingFile | Probing => true
  | _ => false
  end.

Record locks_inv (w : LockWorld) : Prop := {
  li_holds t server pc : thread_at w t server pc -> has_lock pc = true -> holder_of w (path server) = Some t;
  li_holder p t : holder_of w p = Some t ->
    exists server pc, p = path server /\ thread_at w t server pc /\ may_have_lock pc = true;
  li_exists t server pc : thread_at w t server pc -> needs_file pc = true -> file_exists w server
}.

Lemma thread_at_set w t x t' server pc :
  thread_at (set_lock_thread w t x) t' server pc <->
  (t' = t /\ lock_server x = server /\ lock_pc x = pc) \/ (t' <> t /\ thread_at w t' server pc).
Proof.
  unfold thread_at. simpl. destruct (decide (t' = t)) as [->|Hne].
  - rewrite lookup_insert_eq. destruct x as [s r p]. simpl. split.
    + intros [r' [= -> -> ->]]. by left.
    + intros [(_ & -> & ->)|[? _]]; [by eexists|done].
  - rewrite lookup_insert_ne by done. split; [by right|]. intros [[? _]|[_ ?]]; done.
Qed.

Lemma holder_set_holder h server w p :
  file_exists w server ->
  holder_of (set_holder database h server w) p = if bool_decide (p = path server) then h else holder_of w p.
Proof.
  intros [f Hf]. unfold holder_of, set_holder. simpl. case_bool_decide as Hp.
  - subst. by rewrite lookup_alter_eq, Hf.
  - by rewrite lookup_alter_ne.
Qed.
Lemma holder_set_text text server w p : holder_of (set_text database text server w) p = holder_of w p.
Proof.
  unfold holder_of, set_text. simpl. destruct (decide (p = path server)) as [->|Hp].
  - rewrite lookup_alter_eq. by destruct (lock_files w !! path server).
  - by rewrite lookup_alter_ne.
Qed.
Lemma holder_create server w p : holder_of (create_file database server w) p = holder_of w p.
Proof.
  unfold create_file. destruct (lock_files w !! path server) eqn:E; [done|]. unfold holder_of. simpl.
  destruct (decide (p = path server)) as [->|Hp]; [by rewrite lookup_insert_eq, E|by rewrite lookup_insert_ne].
Qed.
Lemma holder_exists w server t : holder_of w (path server) = Some t -> file_exists w server.
Proof. intros (f & Hf & _)%bind_Some. by eexists. Qed.
Lemma holder_close t server w p :
  holder_of (close_handle database t server w) p =
  if bool_decide (p = path server /\ holder_of w p = Some t) then None else holder_of w p.
Proof.
  assert (He : forall f, lock_files w !! path server = Some f -> holder_of w (path server) = lock_holder f).
  { intros f Hf. unfold holder_of. by rewrite Hf. }
  unfold close_handle. destruct (lock_files w !! path server) as [f|] eqn:E.
  - specialize (He f eq_refl). case_bool_decide as Hh.
    + rewrite holder_set_holder by (by eexists). destruct (decide (p = path server)) as [->|Hp].
      * rewrite !bool_decide_eq_true_2; [done| |done]. split; [done|congruence].
      * rewrite !bool_decide_eq_false_2; [done|tauto|done].
    + case_bool_decide as Hc; [|done]. destruct Hc as [-> Hc]. congruence.
  - case_bool_decide as Hc; [|done]. destruct Hc as [-> Hc]. apply holder_exists in Hc as [f Hf]. congruence.
Qed.
Lemma lock_free_holder w server : lock_free database w server = true -> holder_of w (path server) = None.
Proof.
  unfold lock_free, holder_of. destruct (lock_files w !! path server) as [f|]; [|done]. simpl.
  by destruct (lock_holder f).
Qed.

(** What a call does to the locks: it takes a free one for its thread, gives up its own, or
    changes nothing. *)
Record lock_effect (t : nat) (server : string) (w : LockWorld) (pc : LockPc) (w' : LockWorld) (pc' : LockPc) :
    Prop := {
  le_other p : p <> path server -> holder_of w' p = holder_of w p;
  le_own : holder_of w' (path server) = holder_of w (path server) \/
    (holder_of w' (path server) = Some t /\ holder_of w (path server) = None) \/
    (holder_of w' (path server) = None /\ holder_of w (path server) = Some t);
  le_holds : has_lock pc' = true -> holder_of w' (path server) = Some t;
  le_may : holder_of w' (path server) = Some t -> may_have_lock pc' = true;
  le_threads : lock_threads w' = lock_threads w;
  le_files s : file_exists w s -> file_exists w' s;
  le_needs : needs_file pc' = true -> file_exists w' server
}.

Lemma exists_set_holder h s0 w s : file_exists w s -> file_exists (set_holder database h s0 w) s.
Proof. unfold file_exists, set_holder. simpl. intros Hs. by apply lookup_alter_is_Some. Qed.
Lemma exists_set_text text s0 w s : file_exists w s -> file_exists (set_text database text s0 w) s.
Proof. unfold file_exists, set_text. simpl. intros Hs. by apply lookup_alter_is_Some. Qed.
Lemma exists_create s0 w s : file_exists w s -> file_exists (create_file database s0 w) s.
Proof.
  unfold file_exists, create_file. intros Hs. destruct (lock_files w !! path s0) eqn:E; [done|]. simpl.
  by apply lookup_insert_is_Some'; right.
Qed.
Lemma create_exists s0 w : file_exists (create_file database s0 w) s0.
Proof.
  unfold file_exists, create_file. destruct (lock_files w !! path s0) eqn:E; [by eexists|]. simpl.
  rewrite lookup_insert_eq. by eexists.
Qed.
Lemma exists_close t s0 w s : file_exists w s -> file_exists (close_handle database t s0 w) s.
Proof.
  unfold close_handle. intros Hs. destruct (lock_files w !! path s0); [|done].
  case_bool_decide; [by apply exists_set_holder|done].
Qed.

(** A call that leaves the locks alone. *)
Lemma effect_same t server w pc w' pc' :
  (forall p, holder_of w' p = holder_of w p) -> (has_lock pc' = true -> has_lock pc = true) ->
  (may_have_lock pc = true -> may_have_lock pc' = true) ->
  lock_threads w' = lock_threads w -> (forall s, file_exists w s -> file_exists w' s) ->
  (needs_file pc' = true -> file_exists w' server) ->
  (has_lock pc = true -> holder_of w (path server) = Some t) ->
  (holder_of w (path server) = Some t -> may_have_lock pc = true) -> lock_effect t server w pc w' pc'.
Proof. intros Hh H1 H2 Ht Hf Hn H3 H4. split; auto; rewrite ?Hh; auto. Qed.

(** The thread's own lock is given up. *)
Lemma effect_close t server w pc pc' :
  has_lock pc' = false -> needs_file pc' = false ->
  lock_effect t server w pc (close_handle database t server w) pc'.
Proof.
  intros H1 H2. split; try (rewrite ?H1, ?H2; done).
  - intros p Hp. rewrite holder_close, bool_decide_eq_false_2; [done|tauto].
  - rewrite holder_close. case_bool_decide as E; [right; right; tauto|by left].
  - rewrite holder_close. case_bool_decide; [done|tauto].
  - unfold close_handle. destruct (lock_files w !! path server); [|done]. by case_bool_decide.
  - by apply exists_close.
Qed.

Lemma effect_set t server w pc pc' h :
  file_exists w server -> needs_file pc' = false ->
  (h = Some t /\ holder_of w (path server) = None /\ has_lock pc' = true) \/
  (h = None /\ holder_of w (path server) = Some t /\ has_lock pc' = false) ->
  lock_effect t server w pc (set_holder database h server w) pc'.
Proof.
  intros He Hn Hc. assert (Hs : holder_of (set_holder database h server w) (path server) = h).
  { rewrite holder_set_holder by done. by rewrite bool_decide_eq_true_2. }
  split; rewrite ?Hs; try (rewrite ?Hn; done).
  - intros p Hp. rewrite holder_set_holder by done. by rewrite bool_decide_eq_false_2.
  - destruct Hc as [(-> & -> & _)|(-> & -> & _)]; auto.
  - by destruct Hc as [(-> & _)|(-> & _ & ->)].
  - unfold may_have_lock. by destruct Hc as [(_ & _ & ->)|(-> & _)].
  - by apply exists_set_holder.
Qed.

Lemma lock_step_effect t server w pc w' pc' :
  lock_step windows database t server w pc w' pc' ->
  (has_lock pc = true -> holder_of w (path server) = Some t) ->
  (holder_of w (path server) = Some t -> may_have_lock pc = true) ->
  (needs_file pc = true -> file_exists w server) -> lock_effect t server w pc w' pc'.
Proof.
  intros Hs Hh Hm Hn. inversion Hs; subst; try congruence.
  all: try (by apply effect_close).
  all: try (apply effect_same; try done; simpl; auto; try (by intros ?; destruct windows);
            try (by destruct (is_lock_conflict e)); try (intros; by apply exists_set_text);
            try (intros; by apply holder_set_text); fail).
  - apply effect_same; try done; [apply holder_create|unfold create_file; by case_match|apply exists_create|].
    intros _. apply create_exists.
  - apply effect_set; [by apply Hn|done|left]. split_and!; [done|by apply lock_free_holder|done].
  - destruct failed; [by apply effect_same|].
    apply effect_set; [eapply holder_exists; by apply Hh|done|right]. split_and!; [done|by apply Hh|done].
  - rewrite Hfile. destruct windows; by apply effect_same.
  - destruct failed; by apply effect_same.
  - apply effect_same; try done. intros _. unfold file_exists. by destruct (lock_files w' !! path server).
  - apply effect_set; [by apply Hn|done|left]. split_and!; [done|by apply lock_free_holder|done].
Qed.

Lemma thread_at_unique w t s1 s2 pc1 pc2 : thread_at w t s1 pc1 -> thread_at w t s2 pc2 -> s1 = s2 /\ pc1 = pc2.
Proof. intros [r1 H1] [r2 H2]. rewrite H1 in H2. by injection H2 as -> _ ->. Qed.

Lemma locks_move w w' t server recovery pc pc' :
  locks_inv w -> lock_threads w !! t = Some (mk_lock_thread server recovery pc) ->
  lock_effect t server w pc w' pc' ->
  locks_inv (set_lock_thread w' t (mk_lock_thread server recovery pc')).
Proof.
  intros Hinv Ht He.
  assert (Hat : thread_at w t server pc) by (by eexists).
  assert (Hthreads : forall t' s pc0, thread_at w' t' s pc0 <-> thread_at w t' s pc0).
  { intros. unfold thread_at. by rewrite (le_threads _ _ _ _ _ _ He). }
  split.
  - intros t' s pc0. rewrite thread_at_set. intros [(-> & <- & <-)|[Hne Hat']] Hl; [by apply He|].
    apply Hthreads in Hat'. pose proof (li_holds _ Hinv _ _ _ Hat' Hl) as Hh.
    change (holder_of w' (path s) = Some t').
    destruct (decide (path s = path server)) as [E|Hp]; [|by rewrite (le_other _ _ _ _ _ _ He)].
    rewrite E in *. destruct (le_own _ _ _ _ _ _ He) as [->|[[_ H1]|[_ H1]]]; congruence.
  - intros p t' Hh. change (holder_of w' p = Some t') in Hh.
    assert (Hold : holder_of w p = Some t' -> t' <> t -> exists s pc0, p = path s /\
      thread_at (set_lock_thread w' t (mk_lock_thread server recovery pc')) t' s pc0 /\ may_have_lock pc0 = true).
    { intros H1 Hne. destruct (li_holder _ Hinv _ _ H1) as (s & pc0 & -> & Hs & Hm).
      exists s, pc0. split_and!; [done| |done]. apply thread_at_set. right. by rewrite Hthreads. }
    destruct (decide (t' = t)) as [->|Hne].
    + assert (p = path server) as ->.
      { destruct (decide (p = path server)) as [|Hp]; [done|]. rewrite (le_other _ _ _ _ _ _ He) in Hh by done.
        destruct (li_holder _ Hinv _ _ Hh) as (s & pc0 & -> & Hs & _).
        by destruct (thread_at_unique _ _ _ _ _ _ Hs Hat) as [-> _]. }
      exists server, pc'. split_and!; [done| |by apply He]. apply thread_at_set. by left.
    + apply Hold; [|done]. destruct (decide (p = path server)) as [->|Hp].
      * destruct (le_own _ _ _ _ _ _ He) as [E|[[E _]|[E _]]]; congruence.
      * by rewrite <- (le_other _ _ _ _ _ _ He).
  - intros t' s pc0. rewrite thread_at_set. intros [(-> & <- & <-)|[Hne Hat']] Hl; [by apply (le_needs _ _ _ _ _ _ He)|].
    apply Hthreads in Hat'. apply (le_files _ _ _ _ _ _ He). by eapply (li_exists _ Hinv).
Qed.

Lemma locks_new w t server recovery pc :
  locks_inv w -> lock_threads w !! t = None -> may_have_lock pc = false -> needs_file pc = false ->
  locks_inv (set_lock_thread w t (mk_lock_thread server recovery pc)).
Proof.
  intros Hinv Ht Hm Hn. assert (Hl : has_lock pc = false) by (by destruct pc).
  split.
  - intros t' s pc0. rewrite thread_at_set. intros [(-> & <- & <-)|[Hne Hat']]; [simpl; by rewrite Hl|].
    by apply (li_holds _ Hinv).
  - intros p t' Hh. destruct (li_holder _ Hinv _ _ Hh) as (s & pc0 & -> & [r Hs] & Hp).
    exists s, pc0. split_and!; [done| |done]. apply thread_at_set. right. split; [congruence|by exists r].
  - intros t' s pc0. rewrite thread_at_set. intros [(-> & <- & <-)|[Hne Hat']]; [simpl; by rewrite Hn|].
    by apply (li_exists _ Hinv t' s pc0).
Qed.

Lemma locks_inv_step w w' : locks_inv w -> locks_step windows database w w' -> locks_inv w'.
Proof.
  intros Hinv Hs. inversion Hs as [t s Ht|t s Ht|t s Ht|t s r pc w1 pc' Ht Hl|t s Ht|t s r op Ht|t s r pc Ht]; subst.
  - by apply (locks_new w t s false Opening).
  - by apply (locks_new w t s false ProbeOpening).
  - by apply (locks_new w t s true ProbeOpening).
  - eapply locks_move; [done|done|]. eapply lock_step_effect; [done| | |].
    + by apply (li_holds _ Hinv t s pc); eexists.
    + intros Hh. destruct (li_holder _ Hinv _ _ Hh) as (s' & pc0 & E & Hat & Hm).
      destruct (thread_at_unique w t s' s pc0 pc Hat) as [-> ->]; [by eexists|done].
    + by apply (li_exists _ Hinv t s pc); eexists.
  - eapply (locks_move w (set_shared_db w _) t s true _ Recovered Hinv Ht). apply effect_same; try done.
    intros Hh. destruct (li_holder _ Hinv _ _ Hh) as (s' & pc0 & E & Hat & Hm).
    destruct (thread_at_unique w t s' s pc0 (Answered (Ok false)) Hat) as [-> ->]; [by eexists|done].
  - by destruct Hinv.
  - eapply locks_move; [done|done|]. by apply effect_close.
Qed.

Lemma locks_reachable_inv db w : locks_reachable windows database db w -> locks_inv w.
Proof.
  induction 1 as [|w w' Hw IH Hs]; [|by eapply locks_inv_step].
  split; [by intros t s pc [r Hr]|done|by intros t s pc [r Hr]].
Qed.
(** A probe that finds the lock free was right when it looked. *)
Lemma probe_right w t server w' pc :
  locks_inv w -> thread_at w t server pc -> lock_step windows database t server w pc w' (Answered (Ok false)) ->
  forall t' s pc', thread_at w t' s pc' -> path s = path server -> has_lock pc' = true -> t' = t.
Proof.
  intros Hinv Hat Hs t' s pc' Hat' E Hl. pose proof (li_holds _ Hinv _ _ _ Hat' Hl) as Hh. rewrite E in Hh.
  inversion Hs; subst; try congruence.
  - by destruct windows.
  - rewrite Hfile in *. by destruct windows.
  - match goal with Hm : lock_files _ !! _ = None |- _ => rename Hm into Hmissing end.
    apply holder_exists in Hh as [f Hf]. congruence.
  - unfold probe_error in *. simpl in *. rewrite bool_decide_eq_false_2 in * by done. by destruct (is_lock_conflict e).
  - unfold probe_error in *. simpl in *. by destruct (is_lock_conflict e).
  - pose proof (li_holds _ Hinv _ _ _ Hat eq_refl). congruence.
Qed.

(** C24: the lock of a build excludes. However the calls of any number of processes interleave,
    fail, or end with the death of a process: at most one handle has the lock of a server's
    file, and exactly a handle that still has to give it up is its holder, so that nothing is
    locked once every use is released, refused, answered or dead; and a probe that answers that the
    lock is free was right when it looked. *)
Theorem build_lock_exclusive db w :
  locks_reachable windows database db w ->
  (forall t1 t2 s1 s2 pc1 pc2, thread_at w t1 s1 pc1 -> thread_at w t2 s2 pc2 ->
     has_lock pc1 = true -> has_lock pc2 = true -> path s1 = path s2 -> t1 = t2) /\
  ((forall t x, lock_threads w !! t = Some x -> may_have_lock (lock_pc x) = false) ->
   forall p, holder_of w p = None) /\
  (forall t server pc w', thread_at w t server pc ->
     lock_step windows database t server w pc w' (Answered (Ok false)) ->
     forall t' s, thread_at w t' s Acquired -> path s <> path server).
Proof.
  intros Hinv%locks_reachable_inv. split_and!.
  - intros t1 t2 s1 s2 pc1 pc2 H1 H2 Hl1 Hl2 E.
    pose proof (li_holds _ Hinv _ _ _ H1 Hl1). pose proof (li_holds _ Hinv _ _ _ H2 Hl2). congruence.
  - intros Hend p. destruct (holder_of w p) as [t|] eqn:Hh; [|done].
    destruct (li_holder _ Hinv _ _ Hh) as (s & pc & _ & [r Hat] & Hm). apply Hend in Hat. simpl in Hat. congruence.
  - intros t server pc w' Hat Hs t' s Hat' E.
    assert (t' = t) as -> by (by eapply (probe_right w t server w' pc Hinv Hat Hs t' s Acquired)).
    destruct (thread_at_unique _ _ _ _ _ _ Hat Hat') as [_ ->]. inversion Hs.
    rewrite Hfile in *. by destruct windows.
Qed.
End LockSpec.

(** ** Runs *)

Section LockRuns.
Context `{TextLibrary}.
Context (windows : bool) (database : string).

Definition conflict : IoError :=
  {| io_kind := IoWouldBlock; raw_os_error := None; io_text := "lock conflict" |}.

(** The next call of a thread when only conflicts fail. *)
Definition advance_lock (t : nat) (server : string) (w : LockWorld) (pc : LockPc) :
    option (LockWorld * LockPc) :=
  match pc with
  | Opening => if in_memory database then None else Some (create_file database server w, LockingFile)
  | LockingFile =>
      if lock_free database w server then Some (set_holder database (Some t) server w, Initializing)
      else Some (w, Closing (AlreadyHeld (read_lock_owner windows database w server true true) conflict))
  | Initializing =>
      Some (set_text database (lock_metadata 1 server) server w, if windows then WritingOwner else Acquired)
  | Closing error => Some (close_handle database t server w, Refused error)
  | Acquired =>
      Some (w, if in_memory database then Released else if windows then RemovingOwner else Releasing)
  | Releasing => Some (close_handle database t server w, Released)
  | ProbeOpening =>
      if in_memory database then None
      else
        match lock_files w !! build_lock_path database server with
        | Some _ => Some (w, Probing)
        | None => Some (w, Answered (probe_error true not_found))
        end
  | Probing =>
      if lock_free database w server then Some (set_holder database (Some t) server w, ProbeUnlocking)
      else Some (w, Answered (probe_error false conflict))
  | ProbeUnlocking => Some (close_handle database t server w, Answered (Ok false))
  | _ => None
  end.

Lemma advance_lock_step t server w pc w' pc' :
  advance_lock t server w pc = Some (w', pc') -> lock_step windows database t server w pc w' pc'.
Proof.
  destruct pc; simpl; try done.
  - destruct (in_memory database) eqn:E; [done|]. intros [= <- <-]. by constructor.
  - destruct (lock_free database w server) eqn:E; intros [= <- <-]; by constructor.
  - intros [= <- <-]. constructor.
  - intros [= <- <-]. constructor.
  - intros [= <- <-]. constructor.
  - intros [= <- <-]. constructor.
  - destruct (in_memory database) eqn:E; [done|].
    destruct (lock_files w !! _) eqn:Hf; intros [= <- <-].
    + apply step_probe_open; [done|by rewrite Hf].
    + by apply (step_probe_missing windows database t server w not_found).
  - destruct (lock_free database w server) eqn:E; intros [= <- <-]; [by constructor|].
    apply (step_probe_error windows database t server w conflict).
  - intros [= <- <-]. apply (step_probe_unlock windows database t server w None).
Qed.

Inductive LockAct :=
| NewAcquire (t : nat) (server : string)
| NewProbe (t : nat) (server : string)
| NewRecovery (t : nat) (server : string)
| Call (t : nat)
| StartBuild (t : nat)
| Recover (t : nat).

Definition lock_act (w : LockWorld) (a : LockAct) : option LockWorld :=
  let new t server recovery pc :=
    if is_some (lock_threads w !! t) then None
    else Some (set_lock_thread w t (mk_lock_thread server recovery pc)) in
  match a with
  | NewAcquire t server => new t server false Opening
  | NewProbe t server => new t server false ProbeOpening
  | NewRecovery t server =>
      if bool_decide (server ∈ staging_servers (shared_db w)) then new t server true ProbeOpening else None
  | Call t =>
      x ← lock_threads w !! t;
      '(w, pc) ← advance_lock t (lock_server x) w (lock_pc x);
      Some (set_lock_thread w t (mk_lock_thread (lock_server x) (for_recovery x) pc))
  | StartBuild t =>
      x ← lock_threads w !! t;
      match lock_pc x with
      | Acquired =>
          Some (set_shared_db w
            (db_exec (shared_db w) (OpStartGeneration (lock_server x) OrgHierarchical SourceDa3 "0")))
      | _ => None
      end
  | Recover t =>
      x ← lock_threads w !! t;
      match for_recovery x, lock_pc x with
      | true, Answered (Ok false) =>
          Some (set_lock_thread (set_shared_db w (recover_server (shared_db w) (lock_server x))) t
                  (mk_lock_thread (lock_server x) true Recovered))
      | _, _ => None
      end
  end.
Fixpoint run_locks (w : LockWorld) (acts : list LockAct) : option LockWorld :=
  match acts with
  | [] => Some w
  | a :: rest => w ← lock_act w a; run_locks w rest
  end.

Lemma lock_act_step w a w' : lock_act w a = Some w' -> locks_step windows database w w'.
Proof.
  destruct a as [t s|t s|t s|t|t|t]; simpl.
  - destruct (lock_threads w !! t) eqn:E; [done|]. intros [= <-]. by constructor.
  - destruct (lock_threads w !! t) eqn:E; [done|]. intros [= <-]. by constructor.
  - case_bool_decide; [|done]. destruct (lock_threads w !! t) eqn:E; [done|]. intros [= <-]. by constructor.
  - intros ([s r pc] & Hx & ([w1 pc'] & Ha & [= <-])%bind_Some)%bind_Some.
    eapply step_thread; [exact Hx|]. by apply advance_lock_step.
  - intros ([s r pc] & Hx & Hr)%bind_Some. simpl in Hr. destruct pc; try done. injection Hr as <-.
    by apply (step_owner_write windows database w t s r (OpStartGeneration s OrgHierarchical SourceDa3 "0")).
  - intros ([s r pc] & Hx & Hr)%bind_Some. simpl in Hr. destruct r, pc as [| | | | | | | | | | | | | |[[|]|]| |]; try done.
    injection Hr as <-. by apply step_recover.
Qed.

Lemma run_locks_reachable db acts : forall w w',
  locks_reachable windows database db w -> run_locks w acts = Some w' -> locks_reachable windows database db w'.
Proof.
  induction acts as [|a acts IH]; simpl; intros w w' Hw; [by intros [= <-]|].
  intros (w1 & Ha%lock_act_step & Hr)%bind_Some. eapply IH; [|exact Hr]. by eapply locks_next.
Qed.
End LockRuns.

Definition demo_locks : LockWorld := locks_initial demo_db.
Definition locks_at (acts : list LockAct) : LockWorld :=
  unwrap_or demo_locks (run_locks (H := ascii_text) false "index.db" demo_locks acts).
Lemma locks_at_reachable acts :
  is_some (run_locks (H := ascii_text) false "index.db" demo_locks acts) = true ->
  locks_reachable (H := ascii_text) false "index.db" demo_db (locks_at acts).
Proof.
  unfold locks_at. destruct (run_locks _ _ _ _) as [w|] eqn:Hw; [|done]. intros _.
  eapply run_locks_reachable; [apply locks_start|exact Hw].
Qed.

Definition acquire_by (t : nat) : list LockAct := [NewAcquire t "plc"; Call t; Call t; Call t].

(** The holder of the lock, a refused acquisition, and a probe that saw the lock. *)
Lemma build_lock_exclusive_witness :
  let w := locks_at (acquire_by 1 ++ acquire_by 2 ++ [NewProbe 3 "plc"; Call 3; Call 3]) in
  thread_at w 1 "plc" Acquired /\ thread_at w 3 "plc" (Answered (Ok true)) /\
  forall t s, thread_at w t s Acquired -> s = "plc" -> t = 1%nat.
Proof.
  intros w. assert (H1 : thread_at w 1 "plc" Acquired) by (exists false; vm_compute; reflexivity).
  split; [exact H1|]. split; [exists false; vm_compute; reflexivity|]. intros t s Ht ->.
  assert (Hr : locks_reachable (H := ascii_text) false "index.db" demo_db w)
    by (apply locks_at_reachable; vm_compute; reflexivity).
  destruct (build_lock_exclusive (H := ascii_text) false "index.db" eq_refl demo_db w Hr) as (Hone & _ & _).
  by apply (Hone t 1%nat "plc" "plc" Acquired Acquired).
Defined.

(** *** The recovery can end a live build

    A process that opens the database finds the server's lock free, because no build runs; another
    process then takes the lock and starts a build; the recovery of the first one, which looked
    before, supersedes the new generation too, and its promotion is refused. *)
Definition recovery_race : list LockAct :=
  [NewRecovery 1 "plc"; Call 1] ++ acquire_by 2 ++ [StartBuild 2; Recover 1].
Lemma recovery_ends_live_build :
  let w := locks_at recovery_race in
  locks_reachable (H := ascii_text) false "index.db" demo_db w /\ thread_at w 2 "plc" Acquired /\
  (promote_with_profile (shared_db w) "plc" 4 "0" 0 None None).2 = Err "namespace index generation is not staging" /\
  (promote_with_profile
     (shared_db (locks_at ([NewRecovery 1 "plc"; Call 1] ++ acquire_by 2 ++ [StartBuild 2])))
     "plc" 4 "0" 0 None None).2 = Ok tt.
Proof.
  split; [apply locks_at_reachable; vm_compute; reflexivity|]. split; [exists false; vm_compute; reflexivity|].
  split; vm_compute; reflexivity.
Qed.

(** *** A deletion can give up although the lock has become free

    The lock is held when the deletion tries to take it and given up before its probe: the
    deletion fails with the refusal instead of trying again. *)
Definition delete_race : list LockAct :=
  acquire_by 1 ++ acquire_by 2 ++ [Call 1; Call 1; NewProbe 3 "plc"; Call 3; Call 3; Call 3].
Lemma deletion_gives_up :
  let w := locks_at delete_race in
  locks_reachable (H := ascii_text) false "index.db" demo_db w /\
  holder_of w (build_lock_path "index.db" "plc") = None /\
  exists error, thread_at w 2 "plc" (Refused error) /\ thread_at w 3 "plc" (Answered (Ok false)) /\
    acquire_delete_lock_with [(Err error, Ok false)] = Some (Err error).
Proof.
  split; [apply locks_at_reachable; vm_compute; reflexivity|]. split; [vm_compute; reflexivity|].
  eexists. split; [exists false; vm_compute; reflexivity|]. split; [exists false; vm_compute; reflexivity|].
  reflexivity.
Qed.
