(* ===== verification/Values.v ===== *)
(** * Values read and written (opcda-bridge/src/types/values.rs, client.rs, server/map.rs)

    A value to write is parsed from the text the user typed, sent as a typed value, and handed to
    the OPC client by the gateway; values read come back as text. [str::parse] of [f64] is written
    out: the decimal is rounded to the nearest binary64 value, ties to even. *)
From S2P Require Import Prelude Text Rpc Proto Api.

(** ** [str::parse] *)

Definition parse_bool (s : string) : option bool :=
  if String.eqb s "true" then Some true else if String.eqb s "false" then Some false else None.

Definition i32_max : Z := 2147483647.
(** [str::parse::<i32>] *)
Definition parse_i32 (s : string) : option Z :=
  match s with
  | String a (String _ _ as rest) =>
      if Ascii.eqb a "-"%char then
        match parse_digits (i32_max + 1) 0 rest with
        | Some z => Some (- z)
        | None => None
        end
      else parse_uint i32_max s
  | _ => parse_uint i32_max s
  end.

(** The longest prefix of digits, and what follows. *)
Fixpoint split_digits (s : string) : list Z * string :=
  match s with
  | String a rest =>
      match char_digit a with
      | Some d => let '(ds, tail) := split_digits rest in (d :: ds, tail)
      | None => ([], s)
      end
  | EmptyString => ([], s)
  end.
Definition digits_value (ds : list Z) : Z := fold_left (fun acc d => acc * 10 + d) ds 0.

(** An optional sign: whether it is a minus, and the rest. *)
Definition split_sign (s : string) : bool * string :=
  match s with
  | String a rest =>
      if Ascii.eqb a "-"%char then (true, rest)
      else if Ascii.eqb a "+"%char then (false, rest) else (false, s)
  | EmptyString => (false, s)
  end.

(** The digits of a number with the power of ten they are multiplied by. *)
Definition split_number (s : string) : option (list Z * Z * string) :=
  let '(whole, s) := split_digits s in
  let '(fraction, s) :=
    match s with
    | String a rest => if Ascii.eqb a "."%char then split_digits rest else ([], s)
    | EmptyString => ([], s)
    end in
  match whole ++ fraction with
  | [] => None
  | ds => Some (ds, - Z.of_nat (length fraction), s)
  end.

(** [Exp?] up to the end of the text. *)
Definition parse_exponent (s : string) : option Z :=
  match s with
  | EmptyString => Some 0
  | String a rest =>
      if Ascii.eqb a "e"%char || Ascii.eqb a "E"%char then
        let '(negative, rest) := split_sign rest in
        match split_digits rest with
        | ((_ :: _) as ds, EmptyString) =>
            Some (if negative then - digits_value ds else digits_value ds)
        | _ => None
        end
      else None
  end.

(** The value of [m * 10 ^ e], rounded; numbers beyond the range are settled by their number
    of digits. *)
Definition signed_zero (negative : bool) : f64 := S754_zero negative.
Definition decimal_to_f64 (negative : bool) (m e : Z) : f64 :=
  match m with
  | Zpos p =>
      let size := Z.of_nat (String.length (to_decimal m)) in
      if 310 <? size + e then S754_infinity negative
      else if size + e <? -330 then signed_zero negative
      else if 0 <=? e then binary_normalize 53 1024 ((if negative then - m else m) * 10 ^ e) 0 false
      else
        let '(mz, ez, lz) := SFdiv_core_binary 53 1024 m 0 (10 ^ (- e)) 0 in
        binary_round_aux 53 1024 negative mz ez lz
  | _ => signed_zero negative
  end.

Definition parse_f64 (s : string) : option f64 :=
  let '(negative, body) := split_sign s in
  let lower := to_ascii_lowercase body in
  if String.eqb lower "inf" || String.eqb lower "infinity" then Some (S754_infinity negative)
  else if String.eqb lower "nan" then Some S754_nan
  else
    '(ds, scale, rest) ← split_number body;
    exponent ← parse_exponent rest;
    Some (decimal_to_f64 negative (digits_value ds) (scale + exponent)).

(** ** Values of the client *)

Inductive Value :=
| ValueString (value : string)
| ValueInt (value : Z)
| ValueFloat (value : f64)
| ValueBool (value : bool).

Definition parse_value (raw : string) : Value :=
  match parse_bool raw with
  | Some b => ValueBool b
  | None =>
      match parse_i32 raw with
      | Some i => ValueInt i
      | None =>
          match parse_f64 raw with
          | Some f => ValueFloat f
          | None => ValueString raw
          end
      end
  end.

Record ClientTagValue := { client_tag_id : string; client_value : string; client_quality : string;
                           client_timestamp : string }.
Record ClientWriteResult := { client_write_tag : string; client_success : bool; client_error : option string }.

(** [Client::write] *)
Definition typed_value (value : Value) : Proto.TypedValue :=
  match value with
  | ValueString s => StringValue s
  | ValueInt i => IntValue i
  | ValueFloat f => FloatValue f
  | ValueBool b => BoolValue b
  end.
Record WriteRequest := { wr_server : string; wr_tag_id : string; wr_typed_value : option Proto.TypedValue }.
Definition write_request (server tag : string) (value : Value) : WriteRequest :=
  {| wr_server := server; wr_tag_id := tag; wr_typed_value := Some (typed_value value) |}.
Definition client_write (answer : result Proto.WriteResponse Rpc.Status) : result ClientWriteResult Api.Error :=
  let? result := map_err RpcError answer in
  Ok {| client_write_tag := write_tag_id result; client_success := write_success result;
        client_error := write_error result |}.

(** [Client::read] *)
Definition client_read (answer : result (list Proto.TagValue) Rpc.Status) :
    result (list ClientTagValue) Api.Error :=
  let? values := map_err RpcError answer in
  Ok (map (fun v => {| client_tag_id := tag_tag_id v; client_value := tag_value v;
                       client_quality := tag_quality v; client_timestamp := tag_timestamp v |}) values).

(** ** Values of the gateway *)

Record OpcTagValue := { opc_tag_id : string; opc_value : string; opc_quality : string; opc_timestamp : string }.
Record OpcWriteResult := { opc_write_tag : string; opc_success : bool; opc_error : option string }.
Inductive OpcValue :=
| OpcString (value : string)
| OpcInt (value : Z)
| OpcFloat (value : f64)
| OpcBool (value : bool).

Definition map_to_proto_tag_values (values : list OpcTagValue) : list Proto.TagValue :=
  map (fun v => {| tag_tag_id := opc_tag_id v; tag_value := opc_value v; tag_quality := opc_quality v;
                   tag_timestamp := opc_timestamp v |}) values.
Definition typed_value_to_opc_value (value : option Proto.TypedValue) : result OpcValue Rpc.Status :=
  match value with
  | None => Err (mk_status InvalidArgument "no typed_value provided")
  | Some (StringValue s) => Ok (OpcString s)
  | Some (IntValue i) => Ok (OpcInt i)
  | Some (FloatValue f) => Ok (OpcFloat f)
  | Some (BoolValue b) => Ok (OpcBool b)
  end.
Definition map_to_write_response (result : OpcWriteResult) : Proto.WriteResponse :=
  {| write_tag_id := opc_write_tag result; write_success := opc_success result;
     write_error := opc_error result |}.
