(* ===== verification/ValuesSpec.v ===== *)
(** * Properties of the values read and written

    What is typed arrives: integers of 32 bits as integers, other integers as the nearest double,
    "true" and "false" as booleans, and any text that is none of these as it was typed. *)
From S2P Require Import Prelude Text Rpc Proto Api Values.

(** ** Digits *)

Lemma split_digits_decimal fuel : forall z s,
  0 <= z -> z < 2 ^ Z.of_nat fuel ->
  exists l, digits_value l = z /\
    split_digits (to_decimal_fuel fuel z s) = (l ++ (split_digits s).1, (split_digits s).2).
Proof.
  induction fuel as [|fuel IH]; intros z s H0 Hf.
  - simpl in *. exists []. replace z with 0 by lia. split; [done|]. by destruct (split_digits s).
  - cbn [to_decimal_fuel]. pose proof (Z.mod_pos_bound z 10 ltac:(lia)) as Hmod.
    pose proof (Z.div_mod z 10 ltac:(lia)) as Hdm.
    destruct (Z.ltb_spec z 10).
    + exists [z]. split; [done|]. cbn [split_digits]. rewrite char_digit_char by lia.
      rewrite Z.mod_small by lia. by destruct (split_digits s).
    + assert (0 <= z / 10) by (apply Z.div_pos; lia).
      assert (z / 10 < 2 ^ Z.of_nat fuel).
      { rewrite Nat2Z.inj_succ, Z.pow_succ_r in Hf by lia. apply Z.div_lt_upper_bound; lia. }
      destruct (IH (z / 10) (String (digit_char (z mod 10)) s)) as (l & Hl & E); [done..|].
      rewrite E. cbn [split_digits]. rewrite char_digit_char by lia. destruct (split_digits s) as [ds tail].
      exists (l ++ [z mod 10]). unfold digits_value in *. rewrite fold_left_app, Hl. cbn. split; [lia|].
      by rewrite <- app_assoc.
Qed.

Lemma split_number_decimal z :
  0 <= z -> exists l, digits_value l = z /\ split_number (to_decimal z) = Some (l, 0, "").
Proof.
  intros Hz. destruct (split_digits_decimal _ z "" Hz (to_decimal_bound z Hz)) as (l & Hl & E).
  cbn [split_digits fst snd] in E. rewrite app_nil_r in E. exists l. split; [done|].
  unfold split_number, to_decimal. rewrite E. rewrite app_nil_r.
  destruct l; [|done]. exfalso.
  destruct (to_decimal_fuel_head (Z.to_nat (Z.log2 z)) z "" Hz) as (d & rest & Hh & Hd).
  rewrite Hh in E. cbn [split_digits] in E. rewrite char_digit_char in E by done.
  by destruct (split_digits rest).
Qed.

(** What the first character of an integer rules out. *)
Lemma digit_first d : 0 <= d <= 9 -> forall rest,
  let s := String (digit_char d) rest in
  split_sign s = (false, s) /\ parse_bool s = None /\
  String.eqb (to_ascii_lowercase s) "inf" = false /\ String.eqb (to_ascii_lowercase s) "infinity" = false /\
  String.eqb (to_ascii_lowercase s) "nan" = false /\ parse_i32 s = parse_uint i32_max s.
Proof.
  intros H rest. assert (d = 0 \/ d = 1 \/ d = 2 \/ d = 3 \/ d = 4 \/ d = 5 \/ d = 6 \/ d = 7
    \/ d = 8 \/ d = 9) as Hd by lia.
  repeat destruct Hd as [->|Hd]; subst; try (split_and!; try reflexivity; by destruct rest). 
Qed.

(** ** Integers *)

Lemma parse_digits_larger max max' : max' <= max -> forall s acc z,
  parse_digits max' acc s = Some z -> parse_digits max acc s = Some z.
Proof.
  intros Hle. induction s as [|a s IH]; intros acc z; cbn [parse_digits]; [done|].
  destruct (char_digit a) as [d|]; [|done].
  destruct (Z.leb_spec (acc * 10 + d) max'); [|done]. rewrite (proj2 (Z.leb_le _ max)) by lia. apply IH.
Qed.

(** The digits of an integer parse below a bound exactly when the integer fits. *)
Lemma parse_decimal max m : 0 <= m -> 0 <= max ->
  parse_digits max 0 (to_decimal m) = if m <=? max then Some m else None.
Proof.
  intros Hm Hmax. assert (Hok : forall bound, m <= bound -> parse_digits bound 0 (to_decimal m) = Some m).
  { intros bound Hb. unfold to_decimal. rewrite parse_to_decimal_fuel; [done|lia|by apply to_decimal_bound|lia]. }
  destruct (Z.leb_spec m max); [by apply Hok|].
  destruct (parse_digits max 0 (to_decimal m)) as [v|] eqn:E; [|done].
  pose proof (parse_digits_bounds max _ 0 v ltac:(lia) E). apply (parse_digits_larger m) in E; [|lia].
  rewrite Hok in E by lia. injection E as ->. lia.
Qed.

Lemma to_decimal_head m : 0 <= m ->
  exists d rest, to_decimal m = String (digit_char d) rest /\ 0 <= d <= 9.
Proof. intros Hm. by apply to_decimal_fuel_head. Qed.

Lemma parse_i32_decimal z :
  parse_i32 (i32_to_string z) = if (- (i32_max + 1) <=? z) && (z <=? i32_max) then Some z else None.
Proof.
  unfold i32_to_string. destruct (Z.ltb_spec z 0) as [Hneg|Hpos].
  - rewrite (andb_comm (- (i32_max + 1) <=? z)), (proj2 (Z.leb_le z i32_max)) by (unfold i32_max; lia). cbn [andb].
    destruct (to_decimal_head (- z)) as (d & rest & E & Hd); [lia|].
    change (String.append "-" (to_decimal (- z))) with (String "-"%char (to_decimal (- z))). rewrite E. unfold parse_i32. change (Ascii.eqb "-"%char "-"%char) with true. cbv iota. rewrite <- E.
    rewrite parse_decimal by (unfold i32_max; lia).
    destruct (Z.leb_spec (- z) (i32_max + 1)), (Z.leb_spec (- (i32_max + 1)) z); try lia; [|done]. f_equal. lia.
  - rewrite (proj2 (Z.leb_le (- (i32_max + 1)) z)) by (unfold i32_max; lia). cbn [andb].
    destruct (to_decimal_head z Hpos) as (d & rest & E & Hd). rewrite E.
    destruct (digit_first d Hd rest) as (_ & _ & _ & _ & _ & ->).
    unfold parse_uint. rewrite digit_char_plus, <- E by done. by apply parse_decimal.
Qed.

Lemma decimal_length fuel : forall k z s, 0 <= z < 10 ^ Z.of_nat k -> (1 <= k)%nat ->
  (String.length (to_decimal_fuel fuel z s) <= k + String.length s)%nat.
Proof.
  induction fuel as [|fuel IH]; intros k z s Hz Hk; [simpl; lia|].
  cbn [to_decimal_fuel]. destruct (Z.ltb_spec z 10); [simpl; lia|].
  destruct k as [|k]; [lia|]. rewrite Nat2Z.inj_succ, Z.pow_succ_r in Hz by lia.
  destruct k as [|k]; [simpl in Hz; lia|].
  etrans; [apply (IH (S k))|]; [|lia|simpl; lia].
  split; [apply Z.div_pos; lia|apply Z.div_lt_upper_bound; lia].
Qed.

Lemma decimal_to_f64_integer negative m : 0 < m < 10 ^ 310 ->
  decimal_to_f64 negative m 0 = binary_normalize 53 1024 (if negative then - m else m) 0 false.
Proof.
  intros Hm. destruct m as [|p|p]; [lia| |lia]. unfold decimal_to_f64.
  assert (Hl : (String.length (to_decimal (Zpos p)) <= 310)%nat).
  { unfold to_decimal. etrans; [apply (decimal_length _ 310)|]; [|lia|simpl; lia].
    replace (Z.of_nat 310) with 310 by reflexivity. lia. }
  rewrite (proj2 (Z.ltb_ge _ _)) by lia.
  rewrite (proj2 (Z.ltb_ge _ _)) by lia. cbn [Z.leb Z.compare]. by rewrite Z.mul_1_r.
Qed.

Lemma parse_f64_integer z : z <> 0 -> Z.abs z < 10 ^ 310 ->
  parse_f64 (i32_to_string z) = Some (binary_normalize 53 1024 z 0 false).
Proof.
  intros H0 Hz. set (negative := z <? 0).
  assert (Hm : 0 < Z.abs z < 10 ^ 310) by lia.
  destruct (to_decimal_head (Z.abs z)) as (d & rest & E & Hd); [lia|].
  destruct (digit_first d Hd rest) as (Hsign & _ & Hinf & Hinfy & Hnan & _). rewrite <- E in *.
  assert (Hs : split_sign (i32_to_string z) = (negative, to_decimal (Z.abs z))).
  { unfold i32_to_string, negative. destruct (Z.ltb_spec z 0).
    - rewrite Z.abs_neq by lia. done.
    - by rewrite Z.abs_eq in * by lia. }
  unfold parse_f64. rewrite Hs, Hinf, Hinfy, Hnan. cbn [orb].
  destruct (split_number_decimal (Z.abs z)) as (l & Hl & ->); [lia|]. cbn -[decimal_to_f64 Z.abs]. rewrite Hl.
  rewrite decimal_to_f64_integer by done. unfold negative.
  destruct (Z.ltb_spec z 0); do 2 f_equal; lia.
Qed.

Lemma parse_bool_integer z : parse_bool (i32_to_string z) = None.
Proof.
  unfold i32_to_string. destruct (Z.ltb_spec z 0) as [Hneg|Hpos]; [done|].
  destruct (to_decimal_head z Hpos) as (d & rest & -> & Hd). by destruct (digit_first d Hd rest) as (_ & ? & _).
Qed.

Lemma parse_i32_range raw i : parse_i32 raw = Some i -> - (i32_max + 1) <= i <= i32_max.
Proof.
  assert (Hu : parse_uint i32_max raw = Some i -> - (i32_max + 1) <= i <= i32_max).
  { intros E. apply parse_uint_bounds in E; unfold i32_max in *; lia. }
  destruct raw as [|a [|b rest]]; try exact Hu. cbn [parse_i32]. destruct (Ascii.eqb a "-"%char); [|exact Hu].
  destruct (parse_digits _ 0 _) as [v|] eqn:E; [|done]. intros [= <-].
  apply parse_digits_bounds in E; unfold i32_max in *; lia.
Qed.

(** ** What arrives at the OPC client *)

(** The value the gateway hands to the OPC client for the text [raw]. *)
Definition handed (server tag raw : string) : result OpcValue Rpc.Status :=
  typed_value_to_opc_value (wr_typed_value (write_request server tag (parse_value raw))).

(** An integer literal is read as an integer where it fits, and rounded to a double otherwise. *)
Definition integer_value (z : Z) : OpcValue :=
  if (- (i32_max + 1) <=? z) && (z <=? i32_max) then OpcInt z else OpcFloat (binary_normalize 53 1024 z 0 false).

Lemma handed_eq server tag raw :
  handed server tag raw =
  Ok (match parse_bool raw, parse_i32 raw, parse_f64 raw with
      | Some b, _, _ => OpcBool b
      | None, Some i, _ => OpcInt i
      | None, None, Some f => OpcFloat f
      | None, None, None => OpcString raw
      end).
Proof.
  unfold handed, parse_value. destruct (parse_bool raw); [done|].
  destruct (parse_i32 raw); [done|]. by destruct (parse_f64 raw).
Qed.

(** C35: the gateway always has a value to hand on for what the user typed, and it is the one
    meant: an integer literal arrives as that 32-bit integer when it fits and as the double
    nearest to it otherwise, true and false arrive as booleans, an integer that arrives is in
    the range of 32 bits, and a text arrives as it was typed, and only when it is no boolean,
    no integer and no number. The result of the write and the values of a read come back as the OPC
    client answered them. *)
Theorem written_value_arrives server tag raw z :
  Z.abs z < 10 ^ 310 ->
  handed server tag (i32_to_string z) = Ok (integer_value z) /\
  exists value, handed server tag raw = Ok value /\
    match value with
    | OpcBool b => raw = if b then "true" else "false"
    | OpcInt i => parse_i32 raw = Some i /\ - (i32_max + 1) <= i <= i32_max
    | OpcFloat f => parse_i32 raw = None /\ parse_f64 raw = Some f
    | OpcString s => s = raw /\ parse_bool raw = None /\ parse_i32 raw = None /\ parse_f64 raw = None
    end /\
    (forall w, client_write (Ok (map_to_write_response w)) =
       Ok {| client_write_tag := opc_write_tag w; client_success := opc_success w; client_error := opc_error w |}) /\
    (forall vs, client_read (Ok (map_to_proto_tag_values vs)) =
       Ok (map (fun v => {| client_tag_id := opc_tag_id v; client_value := opc_value v;
                            client_quality := opc_quality v; client_timestamp := opc_timestamp v |}) vs)).
Proof.
  intros Hz. rewrite !handed_eq. split.
  - rewrite parse_bool_integer, parse_i32_decimal. unfold integer_value.
    destruct ((- (i32_max + 1) <=? z) && (z <=? i32_max)) eqn:E; [done|].
    rewrite parse_f64_integer; [done| |done]. by intros ->.
  - eexists. split; [done|]. split; [|split; [done|]].
    2:{ intros vs. unfold client_read, map_to_proto_tag_values. cbn. by rewrite map_map. }
    destruct (parse_bool raw) as [b|] eqn:Eb.
    { unfold parse_bool in Eb. destruct (String.eqb_spec raw "true"); [by injection Eb as <-|].
      destruct (String.eqb_spec raw "false"); [by injection Eb as <-|done]. }
    destruct (parse_i32 raw) as [i|] eqn:Ei; [by apply parse_i32_range in Ei|].
    by destruct (parse_f64 raw) eqn:Ef.
Qed.

Lemma written_value_arrives_witness :
  handed "line" "pump.speed" (i32_to_string 2147483648) = Ok (OpcFloat (S754_finite false 4503599627370496 (-21))) /\
  handed "line" "pump.name" "12 bar" = Ok (OpcString "12 bar").
Proof.
  destruct (written_value_arrives "line" "pump.speed" "12 bar" 2147483648) as [H (value & Hv & _)];
    [reflexivity|].
  split; [rewrite H; vm_compute; reflexivity|vm_compute; reflexivity].
Defined.

(** Examples of numbers. *)
Example float_values :
  map (fun s => option_map (fun f => SFeqb f (decimal_to_f64 false 15 (-1))) (parse_f64 s))
    ["1.5"; "+15e-1"; "0.15E1"; ".15e1"; "1.5x"; "1.5e"; "nan"] =
  [Some true; Some true; Some true; Some true; None; None; Some false].
Proof. vm_compute. reflexivity. Qed.
