(* ===== verification/Requests.v ===== *)
(** * Requests in the foreground (server/service.rs, index/status.rs)

    A request that uses an OPC server counts as a foreground user of it, so that builds of its
    index pause, and its call is a sample of the foreground measurements. The handlers of the
    service are interleaved here, with each other and with everything else the manager does:
    one step is one critical section or one call that is waited for. Answers of the OPC client and of
    the browse manager are inputs; so is the end of a request whose client has gone. *)
From S2P Require Import Prelude Text Rpc Controller Config Opc Store Status Manager Proto Wire LiveSearch Service Values.

Inductive Operation :=
| GetCapabilities
| Browse
| Read (tag_ids : list string)
| Write (tag_id : string) (typed : option Proto.TypedValue)
| Search (request : Proto.SearchRequest).

(** What the OPC client (for a browse: the browse manager) answers. *)
Inductive OpcAnswer :=
| AnsweredCapabilities (r : result BrowseCapabilities string)
| AnsweredBrowse (r : result (string * Opc.BrowsePage) Rpc.Status)
| AnsweredRead (r : result (list OpcTagValue) string)
| AnsweredWrite (r : result OpcWriteResult string).
Definition answers (op : Operation) (a : OpcAnswer) : bool :=
  match op, a with
  | GetCapabilities, AnsweredCapabilities _ | Browse, AnsweredBrowse _ | Read _, AnsweredRead _
  | Write _ (Some _), AnsweredWrite _ => true
  | _, _ => false
  end.

Inductive Reply :=
| ReplyCapabilities (response : option GetCapabilitiesResponse)
| ReplyPage (page : Proto.BrowsePage)
| ReplyValues (values : list Proto.TagValue)
| ReplyWrite (response : Proto.WriteResponse)
| ReplyStream.

(** The flags a sample is recorded with: error, bad quality, failure of the server's
    health. *)
Definition is_err {A E} (r : result A E) : bool := negb (is_ok r).
Definition sample_of (a : OpcAnswer) : bool * bool * bool :=
  match a with
  | AnsweredCapabilities r => (is_err r, false, is_err r)
  | AnsweredBrowse r =>
      (is_err r, false,
       match r with
       | Err status => bool_decide (code status = Rpc.Unavailable) || bool_decide (code status = DeadlineExceeded)
       | Ok _ => false
       end)
  | AnsweredRead r =>
      (is_err r,
       match r with
       | Ok values => existsb (fun v => negb (String.eqb (to_ascii_lowercase (opc_quality v)) "good")) values
       | Err _ => false
       end, is_err r)
  | AnsweredWrite r =>
      (is_err r || match r with Ok w => negb (opc_success w) | Err _ => false end, false, is_err r)
  end.

(** The reply to an answer; the capabilities still need a status. *)
Definition reply_of (a : OpcAnswer) : option (result Reply Rpc.Status) :=
  match a with
  | AnsweredCapabilities (Ok _) => None
  | AnsweredCapabilities (Err e) => Some (Err (internal e))
  | AnsweredBrowse (Ok (session_id, page)) => Some (Ok (ReplyPage (map_browse_page session_id page)))
  | AnsweredBrowse (Err status) => Some (Err status)
  | AnsweredRead (Ok values) => Some (Ok (ReplyValues (map_to_proto_tag_values values)))
  | AnsweredRead (Err e) => Some (Err (internal e))
  | AnsweredWrite (Ok w) => Some (Ok (ReplyWrite (map_to_write_response w)))
  | AnsweredWrite (Err e) => Some (Err (internal e))
  end.
Definition capabilities_reply (max_results : Z) (capabilities : BrowseCapabilities)
    (r : result IndexStatus string) : result Reply Rpc.Status :=
  match r with
  | Ok status => Ok (ReplyCapabilities (map_capabilities capabilities status max_results))
  | Err e => Err (internal e)
  end.

Inductive Stage :=
(* foreground_guard *)
| GuardCount
| GuardUpdate (users : Z)
| GuardReconcile
(* the handler *)
| Validate
| CallClient
| RecordSample (a : OpcAnswer)
| ReadIndexStatus (capabilities : BrowseCapabilities)
| OpenSession
| SearchRuns
(* the drop of the guard, in foreground_end *)
| DropCount (reply : result Reply Rpc.Status)
| DropUpdate (reply : result Reply Rpc.Status)
| DropReconcile (reply : result Reply Rpc.Status)
| Replied (reply : result Reply Rpc.Status).

(** What a request is told while it waits: the answer of the OPC client (for a browse, of the
    browse manager), the status of the index, the session opened for a search, or that its
    client has gone. *)
Inductive Heard :=
| HeardClient (a : OpcAnswer)
| HeardStatus (r : result IndexStatus string)
| HeardSession (r : result string Rpc.Status)
| HeardGone.

(** [rq_answer] and [rq_heard] are ghosts: the answer a sample was recorded for, and everything
    the request was told. *)
Record Request := mk_request {
  rq_server : string;
  rq_operation : Operation;
  rq_stage : Stage;
  rq_answer : option OpcAnswer;
  rq_heard : list Heard
}.

(** [stale_builds] is a ghost: the servers whose running build was reserved with a count of
    foreground users that was not the current one any more, and was not updated since. *)
Record World := mk_world {
  rw_manager : Manager;
  samples : gmap string ForegroundMetricState;
  requests : gmap nat Request;
  stale_builds : gset string
}.

Section Requests.
Context `{TextLibrary}.
Context (settings : ResolvedIndexConfig).

(** [record_foreground_operation_with_health]; [elapsed] in nanoseconds *)
Definition record_foreground_operation_with_health (server : string) (now elapsed : Z)
    (flags : bool * bool * bool) (metrics : gmap string ForegroundMetricState) :
    gmap string ForegroundMetricState :=
  let '(error, bad, health_failure) := flags in
  <[server := record_health_at (unwrap_or default_metric_state (metrics !! server)) now
                (truncate_max 64 (as_millis elapsed)) error bad health_failure]> metrics.

Definition validated (op : Operation) : Stage :=
  match op with
  | Write _ typed =>
      match typed_value_to_opc_value typed with
      | Err status => DropCount (Err status)
      | Ok _ => CallClient
      end
  | Search request =>
      match validate_search request with
      | Err status => DropCount (Err status)
      | Ok _ => match request_session_id request with Some _ => SearchRuns | None => OpenSession end
      end
  | _ => CallClient
  end.
Definition recorded (a : OpcAnswer) : Stage :=
  match a, reply_of a with
  | AnsweredCapabilities (Ok capabilities), _ => ReadIndexStatus capabilities
  | _, Some reply => DropCount reply
  | _, None => DropCount (Err (internal ""))       (* does not happen *)
  end.

Definition gone : Rpc.Status := mk_status CancelledCode "".

(** One step of a request for [server], and what it is told. *)
Inductive request_step (server : string) (op : Operation) (m : Manager)
    (metrics : gmap string ForegroundMetricState) :
    Stage -> list Heard -> Manager -> gmap string ForegroundMetricState -> Stage -> Prop :=
| step_count :
    request_step server op m metrics GuardCount [] (increment_foreground_users server m).1 metrics
      (GuardUpdate (increment_foreground_users server m).2)
| step_update users :
    request_step server op m metrics (GuardUpdate users) []
      (alter_build (fun b => with_foreground b users None) server m) metrics GuardReconcile
| step_reconcile now :
    request_step server op m metrics GuardReconcile [] (reconcile_pause_state server now m) metrics Validate
| step_validate : request_step server op m metrics Validate [] m metrics (validated op)
| step_call a : answers op a = true ->
    request_step server op m metrics CallClient [HeardClient a] m metrics (RecordSample a)
| step_record a now elapsed :
    request_step server op m metrics (RecordSample a) [] m
      (record_foreground_operation_with_health server now elapsed (sample_of a) metrics) (recorded a)
| step_status capabilities r :
    request_step server op m metrics (ReadIndexStatus capabilities) [HeardStatus r] m metrics
      (DropCount (capabilities_reply (cfg_max_results settings) capabilities r))
| step_open_session (r : result string Rpc.Status) :
    request_step server op m metrics OpenSession [HeardSession r] m metrics
      (match r with Ok _ => SearchRuns | Err status => DropCount (Err status) end)
| step_search_end : request_step server op m metrics SearchRuns [] m metrics (DropCount (Ok ReplyStream))
| step_gone stage :
    stage ∈ [CallClient; OpenSession] \/ (exists capabilities, stage = ReadIndexStatus capabilities) ->
    request_step server op m metrics stage [HeardGone] m metrics (DropCount (Err gone))
| step_drop_count reply :
    request_step server op m metrics (DropCount reply) [] (decrement_foreground_users server m) metrics
      (DropUpdate reply)
| step_drop_update reply now :
    request_step server op m metrics (DropUpdate reply) []
      (update_runtime_after_foreground_end settings server now m) metrics (DropReconcile reply)
| step_drop_reconcile reply now :
    request_step server op m metrics (DropReconcile reply) [] (reconcile_pause_state server now m) metrics
      (Replied reply).

Definition answered (stage : Stage) (answer : option OpcAnswer) : option OpcAnswer :=
  match stage with
  | RecordSample a => Some a
  | _ => answer
  end.

(** The build of the server is told the count: it is not stale any more. *)
Definition updated (stage : Stage) (server : string) (stale : gset string) : gset string :=
  match stage with
  | GuardUpdate _ | DropUpdate _ => stale ∖ {[server]}
  | _ => stale
  end.

(** What the rest of the manager does to the foreground use of its builds: it drops builds, and
    reserves them with a count it has read. A build is stale from then on when that is not the
    current count; one that was there before stays what it was. *)
Definition other_work (m m' : Manager) (stale stale' : gset string) : Prop :=
  foreground_users m' = foreground_users m /\
  forall s, s ∈ stale' <->
    exists b', running_build m' s = Some b' /\ build_foreground_users b' <> foreground_count m s /\
      forall b, running_build m s = Some b -> build_foreground_users b = build_foreground_users b' -> s ∈ stale.

Definition with_request (w : World) (m : Manager) (metrics : gmap string ForegroundMetricState)
    (stale : gset string) (t : nat) (rq : Request) : World :=
  mk_world m metrics (<[t := rq]> (requests w)) stale.
(** The request [t] goes on. *)
Definition next_world (w : World) (t : nat) (rq : Request) (heard : list Heard) (m : Manager)
    (metrics : gmap string ForegroundMetricState) (stage : Stage) : World :=
  with_request w m metrics (updated (rq_stage rq) (rq_server rq) (stale_builds w)) t
    (mk_request (rq_server rq) (rq_operation rq) stage (answered (rq_stage rq) (rq_answer rq))
       (rq_heard rq ++ heard)).

Inductive world_step (w : World) : World -> Prop :=
| step_arrives t server op :
    requests w !! t = None ->
    world_step w (with_request w (rw_manager w) (samples w) (stale_builds w) t
                    (mk_request server op GuardCount None []))
| step_request t rq heard m metrics stage :
    requests w !! t = Some rq ->
    request_step (rq_server rq) (rq_operation rq) (rw_manager w) (samples w) (rq_stage rq)
      heard m metrics stage ->
    world_step w (next_world w t rq heard m metrics stage)
| step_other m stale :
    other_work (rw_manager w) m (stale_builds w) stale ->
    world_step w (mk_world m (samples w) (requests w) stale).

Definition initial_world (db : IndexDb) : World :=
  mk_world (mk_manager db ∅ ∅ ∅ ∅ ∅ ∅ ∅ ∅ ∅ ∅ false) ∅ ∅ ∅.

Inductive reachable_world (db : IndexDb) : World -> Prop :=
| reachable_initial : reachable_world db (initial_world db)
| reachable_next w w' : reachable_world db w -> world_step w w' -> reachable_world db w'.
End Requests.
