(* ===== verification/RequestsSpec.v ===== *)
(** * Properties of the requests in the foreground

    The foreground users of a server are its requests in flight, whatever interleaves and
    however a request ends; a build sees whether there are any; every answer of the OPC
    client is one sample; and a reply is the refusal, or what the OPC client answered. A value that is
    written or read arrives as it was typed or answered. *)
From S2P Require Import Prelude Text Rpc Api Controller Config Opc Store Status Manager Proto Compat Wire WireSpec LiveSearch Service Values Requests.

Section RequestsSpec.
Context `{TextLibrary}.
Context (settings : ResolvedIndexConfig).

(** The guard has counted the request and not been dropped yet. *)
Definition holds_guard (stage : Stage) : bool :=
  match stage with
  | GuardCount | DropUpdate _ | DropReconcile _ | Replied _ => false
  | _ => true
  end.
(** Between the change of the count and the update of the build. *)
Definition between (stage : Stage) : bool :=
  match stage with
  | GuardUpdate _ | DropUpdate _ => true
  | _ => false
  end.
Definition uses (s : string) (rq : Request) : bool := String.eqb (rq_server rq) s && holds_guard (rq_stage rq).
Definition sampled (s : string) (rq : Request) : bool := String.eqb (rq_server rq) s && is_some (rq_answer rq).
Definition in_use (w : World) (s : string) : nat := size (those (uses s) (requests w)).

(** *** The right reply *)

(** Why a search is refused. *)
Inductive search_refusal (request : Proto.SearchRequest) : string -> Prop :=
| refuses_empty :
    normalize_query (Proto.request_query request) = [] ->
    search_refusal request "search query must not be empty"
| refuses_mode :
    normalize_query (Proto.request_query request) <> [] ->
    (Proto.request_match_mode request < 0 \/ 3 < Proto.request_match_mode request) ->
    search_refusal request "unknown search match mode"
| refuses_short :
    normalize_query (Proto.request_query request) <> [] ->
    Proto.request_match_mode request = 0 \/ Proto.request_match_mode request = 3 ->
    (length (Proto.request_query request) < 2)%nat ->
    search_refusal request "contains searches require at least two characters"
| refuses_many :
    normalize_query (Proto.request_query request) <> [] ->
    0 <= Proto.request_match_mode request <= 3 ->
    (1 <= Proto.request_match_mode request <= 2 \/ (2 <= length (Proto.request_query request))%nat) ->
    1000 < Proto.request_max_results request ->
    search_refusal request "max_results must not exceed 1000".
Definition search_accepted (request : Proto.SearchRequest) : Prop :=
  forall reason, ~ search_refusal request reason.

Definition same_value (v : OpcTagValue) (shown : Proto.TagValue) : Prop :=
  tag_tag_id shown = opc_tag_id v /\ tag_value shown = opc_value v /\
  tag_quality shown = opc_quality v /\ tag_timestamp shown = opc_timestamp v.

(** The capabilities as they are answered: those of the server, those of this release of the
    gateway, and the state of the index, in the numbers the client reads as these values. *)
Record capabilities_shown (capabilities : BrowseCapabilities) (status : IndexStatus)
    (r : GetCapabilitiesResponse) : Prop := {
  cs_release : Proto.cap_application_version r = gateway_package_version /\
    Proto.cap_protocol_version r = "2" /\ Proto.cap_supports_indexed_search r = true /\
    Proto.cap_indexed_search_protocol_version r = "2" /\
    Proto.cap_max_indexed_search_results r = cfg_max_results settings;
  cs_page_size : Proto.cap_max_page_size r = Z.min (Opc.cap_max_page_size capabilities) 1000;
  cs_sessions : Proto.cap_supports_browse_sessions r = Opc.cap_supports_browse_sessions capabilities;
  cs_search : Proto.cap_supports_search r = Opc.cap_supports_search capabilities;
  cs_organization : Api.organization (Proto.cap_organization r) =
    Ok (organization_shown (Opc.cap_organization capabilities));
  cs_source : Api.source (Proto.cap_source r) = Ok (source_shown (Opc.cap_source capabilities));
  cs_state : Api.search_index_state (Proto.cap_search_index_state r) = Ok (state_shown (st_state status)).1 /\
    Proto.cap_search_index_promoting r = (state_shown (st_state status)).2
}.

(** What a request waits for when its client goes. *)
Inductive waits : Operation -> list Heard -> Prop :=
| waits_capabilities : waits GetCapabilities []
| waits_browse : waits Browse []
| waits_read tags : waits (Read tags) []
| waits_write tag value : waits (Write tag (Some value)) []
| waits_session request : search_accepted request -> request_session_id request = None ->
    waits (Search request) []
| waits_status capabilities : waits GetCapabilities [HeardClient (AnsweredCapabilities (Ok capabilities))].

(** The reply to each request, from what it asked and what it was told. *)
Inductive right_reply : Operation -> list Heard -> result Reply Rpc.Status -> Prop :=
| right_capabilities capabilities status response :
    capabilities_shown capabilities status response ->
    right_reply GetCapabilities [HeardClient (AnsweredCapabilities (Ok capabilities)); HeardStatus (Ok status)]
      (Ok (ReplyCapabilities (Some response)))
| right_no_capabilities error :
    right_reply GetCapabilities [HeardClient (AnsweredCapabilities (Err error))]
      (Err (mk_status Rpc.Internal error))
| right_no_status capabilities error :
    right_reply GetCapabilities [HeardClient (AnsweredCapabilities (Ok capabilities)); HeardStatus (Err error)]
      (Err (mk_status Rpc.Internal error))
| right_page session_id page :
    right_reply Browse [HeardClient (AnsweredBrowse (Ok (session_id, page)))]
      (Ok (ReplyPage (map_browse_page session_id page)))
| right_no_page status :
    right_reply Browse [HeardClient (AnsweredBrowse (Err status))] (Err status)
| right_values tags values shown :
    Forall2 same_value values shown ->
    right_reply (Read tags) [HeardClient (AnsweredRead (Ok values))] (Ok (ReplyValues shown))
| right_no_values tags error :
    right_reply (Read tags) [HeardClient (AnsweredRead (Err error))] (Err (mk_status Rpc.Internal error))
| right_untyped tag :
    right_reply (Write tag None) [] (Err (mk_status InvalidArgument "no typed_value provided"))
| right_written tag value done :
    right_reply (Write tag (Some value)) [HeardClient (AnsweredWrite (Ok done))]
      (Ok (ReplyWrite (mk_write_response (opc_write_tag done) (opc_success done) (opc_error done))))
| right_not_written tag value error :
    right_reply (Write tag (Some value)) [HeardClient (AnsweredWrite (Err error))]
      (Err (mk_status Rpc.Internal error))
| right_refused request reason :
    search_refusal request reason ->
    right_reply (Search request) [] (Err (mk_status InvalidArgument reason))
| right_stream request session :
    search_accepted request -> request_session_id request = Some session ->
    right_reply (Search request) [] (Ok ReplyStream)
| right_stream_opened request session :
    search_accepted request -> request_session_id request = None ->
    right_reply (Search request) [HeardSession (Ok session)] (Ok ReplyStream)
| right_not_opened request status :
    search_accepted request -> request_session_id request = None ->
    right_reply (Search request) [HeardSession (Err status)] (Err status)
| right_gone op heard :
    waits op heard -> right_reply op (heard ++ [HeardGone]) (Err (mk_status CancelledCode "")).

(** The answer of the client among what a request was told. *)
Fixpoint client_answer (heard : list Heard) : option OpcAnswer :=
  match heard with
  | [] => None
  | HeardClient a :: _ => Some a
  | _ :: heard => client_answer heard
  end.

Definition stage_ok (op : Operation) (answer : option OpcAnswer) (heard : list Heard) (stage : Stage) : Prop :=
  match stage with
  | DropCount reply | DropUpdate reply | DropReconcile reply | Replied reply =>
      right_reply op heard reply /\ answer = client_answer heard
  | GuardCount | GuardReconcile | Validate => answer = None /\ heard = []
  | GuardUpdate users => 1 <= users /\ answer = None /\ heard = []
  | CallClient | OpenSession =>
      answer = None /\ heard = [] /\ waits op [] /\
      (stage = OpenSession <-> exists request, op = Search request)
  | RecordSample a => answers op a = true /\ answer = None /\ heard = [HeardClient a]
  | ReadIndexStatus capabilities =>
      op = GetCapabilities /\ heard = [HeardClient (AnsweredCapabilities (Ok capabilities))] /\
      answer = client_answer heard
  | SearchRuns => answer = None /\ client_answer heard = None /\ right_reply op heard (Ok ReplyStream)
  end.

Record requests_inv (w : World) : Prop := {
  ri_count s : Z.of_nat (size (requests w)) <= umax 64 ->
    foreground_count (rw_manager w) s = Z.of_nat (in_use w s);
  ri_entry s users : foreground_users (rw_manager w) !! s = Some users -> 0 < users;
  ri_build s b : Z.of_nat (size (requests w)) <= umax 64 -> s ∉ stale_builds w ->
    running_build (rw_manager w) s = Some b ->
    (0 < build_foreground_users b <-> 0 < foreground_count (rw_manager w) s) \/
    exists t rq, requests w !! t = Some rq /\ rq_server rq = s /\ between (rq_stage rq) = true;
  ri_samples s : Z.of_nat (size (requests w)) <= umax 64 ->
    operations (unwrap_or default_metric_state (samples w !! s)) = Z.of_nat (size (those (sampled s) (requests w)));
  ri_stage t rq : requests w !! t = Some rq -> stage_ok (rq_operation rq) (rq_answer rq) (rq_heard rq) (rq_stage rq)
}.

(** ** What the sections do *)

Lemma count_increment server s m :
  foreground_count (increment_foreground_users server m).1 s =
  if String.eqb server s then saturating_add 64 (foreground_count m server) 1 else foreground_count m s.
Proof.
  unfold foreground_count, increment_foreground_users. simpl. destruct (String.eqb_spec server s) as [->|Hne].
  - by rewrite lookup_insert_eq.
  - by rewrite lookup_insert_ne.
Qed.
Lemma count_decrement server s m :
  foreground_count (decrement_foreground_users server m) s =
  if String.eqb server s then saturating_sub (foreground_count m server) 1 else foreground_count m s.
Proof.
  unfold decrement_foreground_users. set (remaining := saturating_sub _ _). unfold foreground_count. simpl.
  destruct (String.eqb_spec server s) as [->|Hne]; destruct (Z.eqb_spec remaining 0).
  - by rewrite lookup_delete_eq.
  - by rewrite lookup_insert_eq.
  - by rewrite lookup_delete_ne.
  - by rewrite lookup_insert_ne.
Qed.

Lemma running_alter f server m s :
  running_build (alter_build f server m) s =
  if String.eqb server s then f <$> running_build m s else running_build m s.
Proof.
  unfold alter_build, alter_runtime, running_build. simpl. destruct (String.eqb_spec server s) as [->|Hne].
  - rewrite lookup_alter_eq. by destruct (runtime m !! s).
  - by rewrite lookup_alter_ne.
Qed.

(** A reconciliation leaves the foreground use alone. *)
Lemma reconcile_keeps server now m :
  foreground_users (reconcile_pause_state server now m) = foreground_users m /\
  forall s b', running_build (reconcile_pause_state server now m) s = Some b' ->
    exists b, running_build m s = Some b /\ build_foreground_users b' = build_foreground_users b.
Proof.
  assert (Ht : forall call m', running_build (tell_control call m') = running_build m' /\
                             foreground_users (tell_control call m') = foreground_users m').
  { intros [[c p]|] m'; done. }
  unfold reconcile_pause_state, reconcile_build.
  destruct (running_build m server) as [b|] eqn:Hb; [|split; [done|eauto]].
  destruct (Ht (c ← Status.control b; Some (c, is_some (pause_reason_of b (get_overlay m server) now)))
    (alter_build (fun b0 => with_pause_reason b0 (pause_reason_of b (get_overlay m server) now)) server m)) as [-> ->].
  split; [done|]. intros s b'. rewrite running_alter. destruct (String.eqb server s); [|eauto].
  destruct (running_build m s) as [b0|]; simpl; [|done]. intros [= <-]. by exists b0.
Qed.

Lemma in_use_insert w t rq m metrics stale s :
  (in_use (with_request w m metrics stale t rq) s + one_if (uses s) (requests w !! t) =
   in_use w s + one_if (uses s) (Some rq))%nat.
Proof. apply those_insert. Qed.

Lemma sampled_insert w t rq s :
  (size (those (sampled s) (<[t := rq]> (requests w))) + one_if (sampled s) (requests w !! t) =
   size (those (sampled s) (requests w)) + one_if (sampled s) (Some rq))%nat.
Proof. apply those_insert. Qed.

Lemma in_use_pos w t rq s : requests w !! t = Some rq -> uses s rq = true -> (0 < in_use w s)%nat.
Proof.
  intros Ht Hu. pose proof (those_insert (uses s) (delete t (requests w)) t rq) as Hi.
  rewrite insert_delete_id, lookup_delete_eq in Hi by done. unfold one_if in Hi. cbn in Hi. rewrite Hu in Hi.
  unfold in_use. lia.
Qed.

(** The number of requests does not shrink. *)
Lemma size_insert_requests (m : gmap nat Request) t rq : (size m <= size (<[t := rq]> m))%nat.
Proof. rewrite map_size_insert. destruct (m !! t); cbn; lia. Qed.

(** *** The stages *)

Lemma search_mode_cases mode :
  search_mode mode = Err (mk_status InvalidArgument "unknown search match mode") /\ (mode < 0 \/ 3 < mode) \/
  search_mode mode = Ok SEARCH_MATCH_MODE_EXACT /\ mode = 1 \/
  search_mode mode = Ok SEARCH_MATCH_MODE_PREFIX /\ mode = 2 \/
  search_mode mode = Ok SEARCH_MATCH_MODE_CONTAINS /\ (mode = 0 \/ mode = 3).
Proof.
  destruct (decide (0 <= mode <= 3)) as [Hm|Hm].
  - assert (mode = 0 \/ mode = 1 \/ mode = 2 \/ mode = 3) as [->|[->|[->| ->]]] by lia; cbn; tauto.
  - left. split; [|lia]. destruct mode as [|[[|[]|]|[[]| |]|]|]; try done; lia.
Qed.
Lemma validate_refusal request :
  match validate_search request with
  | Err status => exists reason, search_refusal request reason /\ status = mk_status InvalidArgument reason
  | Ok _ => search_accepted request
  end.
Proof.
  unfold validate_search. destruct (normalize_query (Proto.request_query request)) as [|c query] eqn:Eq.
  { eexists. split; [by apply refuses_empty|done]. }
  assert (Hq : normalize_query (Proto.request_query request) <> []) by by rewrite Eq.
  unfold result_bind, DEFAULT_SEARCH_RESULTS, MAX_SEARCH_RESULTS.
  set (bound := if Proto.request_max_results request =? 0 then 200 else _).
  assert (Hbound : 1000 < bound <-> 1000 < Proto.request_max_results request).
  { unfold bound. destruct (Z.eqb_spec (Proto.request_max_results request) 0); lia. }
  destruct (search_mode_cases (Proto.request_match_mode request)) as [[-> Hm]|[[-> Hm]|[[-> Hm]|[-> Hm]]]].
  { eexists. split; [by apply refuses_mode|done]. }
  3: cbn [andb]; destruct (Z.ltb_spec (Z.of_nat (length (Proto.request_query request))) 2);
    [eexists; split; [apply refuses_short; [done|done|lia]|done]|].
  all: cbn [andb]; destruct (Z.ltb_spec 1000 bound);
    [eexists; split; [apply refuses_many; [done|lia|lia|by apply Hbound]|done]|].
  all: intros reason []; try congruence; lia.
Qed.

Lemma validated_ok op : stage_ok op None [] (validated op).
Proof.
  assert (Hother : (forall request, op <> Search request) ->
    (CallClient = OpenSession <-> exists request, op = Search request)).
  { intros Hn. split; [done|]. intros [request ->]. by destruct (Hn request). }
  destruct op as [| |tags|tag [typed|]|request]; simpl.
  1-3: split_and!; try done; [constructor|by apply Hother].
  - destruct typed; simpl; (split_and!; try done; [constructor|by apply Hother]).
  - split; [constructor|done].
  - pose proof (validate_refusal request) as Hv. destruct (validate_search request) as [v|status].
    + destruct (request_session_id request) as [session|] eqn:E; simpl.
      * split_and!; [done..|]. by eapply right_stream.
      * split_and!; [done..|by constructor|]. split; [eauto|done].
    + destruct Hv as (reason & Hr & ->). split; [by constructor|done].
Qed.

Lemma values_shown values : Forall2 same_value values (map_to_proto_tag_values values).
Proof.
  unfold map_to_proto_tag_values. apply Forall2_fmap_r, Forall_Forall2_diag, Forall_forall.
  by intros v _.
Qed.
Lemma recorded_ok op a : answers op a = true -> stage_ok op (Some a) [HeardClient a] (recorded a).
Proof.
  intros Ha. destruct op as [| |tags|tag [typed|]|request], a as [[c|e]|[[sid page]|status]|[v|e]|[r|e]];
    try discriminate Ha; cbn [recorded reply_of stage_ok client_answer]; split; try done; constructor.
  apply values_shown.
Qed.

Lemma capabilities_answered capabilities status :
  exists response, map_capabilities capabilities status (cfg_max_results settings) = Some response /\
    capabilities_shown capabilities status response.
Proof.
  unfold map_capabilities. assert (E : exists line, gateway_release_line = Some line /\
    namespace_protocol line = 2 /\ indexed_search_protocol line = 2) by (eexists; vm_compute; by split_and!).
  destruct E as (line & -> & En & Ei). eexists. split; [reflexivity|].
  unfold map_capabilities_for_release_line. rewrite En, Ei.
  split; simpl; try done; try apply organization_reaches; try apply source_reaches.
  destruct (state_reaches (st_state status)) as (H1 & H2 & _). by split.
Qed.

Lemma gone_stages stage :
  stage ∈ [CallClient; OpenSession] \/ (exists capabilities, stage = ReadIndexStatus capabilities) ->
  stage = CallClient \/ stage = OpenSession \/ exists capabilities, stage = ReadIndexStatus capabilities.
Proof. rewrite !elem_of_cons. intros [[->|[->|[]%not_elem_of_nil]]|?]; auto. Qed.
Ltac gone_cases :=
  match goal with
  | Hx : _ ∈ [CallClient; OpenSession] \/ _ |- _ => apply gone_stages in Hx as [->|[->|[capabilities ->]]]
  end.

Lemma request_step_stage server op m metrics stage heard m' metrics' stage' answer told :
  request_step settings server op m metrics stage heard m' metrics' stage' ->
  0 <= foreground_count m server -> stage_ok op answer told stage ->
  stage_ok op (answered stage answer) (told ++ heard) stage'.
Proof.
  inversion 1; subst; rewrite ?app_nil_r; cbn [stage_ok answered]; intros Hpos Hok; try done.
  - destruct Hok as [-> ->]. split_and!; [|done..].
    simpl. unfold saturating_add, umax. lia.
  - by destruct Hok as (_ & -> & ->).
  - destruct Hok as [-> ->]. apply validated_ok.
  - by destruct Hok as (-> & -> & _).
  - destruct Hok as (Ha & _ & ->). by apply recorded_ok.
  - destruct Hok as (-> & -> & ->). split; [|done]. destruct r as [status|error]; [|constructor]. simpl.
    destruct (capabilities_answered capabilities status) as (response & -> & Hr). by constructor.
  - destruct Hok as (-> & -> & Hw & Hs). destruct Hs as [Hs _]. destruct (Hs eq_refl) as [request ->].
    inversion Hw; subst. destruct r; cbn [stage_ok client_answer]; [split_and!; try done|split; [|done]];
      by econstructor.
  - by destruct Hok as (-> & -> & Hr).
  - gone_cases; cbn [stage_ok] in Hok.
    + destruct Hok as (-> & -> & Hw & _). split; [by apply (right_gone op [])|done].
    + destruct Hok as (-> & -> & Hw & _). split; [by apply (right_gone op [])|done].
    + destruct Hok as (-> & -> & ->). split; [apply right_gone; constructor|done].
Qed.

(** The use of the server before and after a step. *)
Definition use_change (stage : Stage) (before : Z) : Z :=
  match stage with
  | GuardCount => saturating_add 64 before 1
  | DropCount _ => saturating_sub before 1
  | _ => before
  end.

Lemma request_step_count server op m metrics stage heard m' metrics' stage' s :
  request_step settings server op m metrics stage heard m' metrics' stage' ->
  foreground_count m' s =
  if String.eqb server s then use_change stage (foreground_count m server) else foreground_count m s.
Proof.
  intros Hs. assert (Hsame : foreground_users m' = foreground_users m -> use_change stage (foreground_count m server) =
    foreground_count m server -> foreground_count m' s = if String.eqb server s
      then use_change stage (foreground_count m server) else foreground_count m s).
  { intros Hf ->. unfold foreground_count. rewrite Hf. by destruct (String.eqb_spec server s) as [->|]. }
  inversion Hs; subst; try (apply Hsame; done).
  - apply count_increment.
  - apply Hsame; [apply reconcile_keeps|done].
  - by gone_cases; apply Hsame.
  - apply count_decrement.
  - apply Hsame; [apply reconcile_keeps|done].
Qed.

Lemma request_step_guard server op m metrics stage heard m' metrics' stage' :
  request_step settings server op m metrics stage heard m' metrics' stage' ->
  holds_guard stage' =
  match stage with
  | GuardCount => true
  | DropCount _ => false
  | _ => holds_guard stage
  end.
Proof.
  inversion 1; subst; try done.
  - unfold validated. destruct op as [| |tags|tag typed|request]; try done.
    + by destruct (typed_value_to_opc_value typed).
    + destruct (validate_search request); [|done]. by destruct (request_session_id request).
  - unfold recorded. by destruct a as [[c|e]|[[s p]|st]|[v|e]|[r|e]].
  - by destruct r.
  - by gone_cases.
Qed.

Lemma request_step_entry server op m metrics stage heard m' metrics' stage' s users :
  request_step settings server op m metrics stage heard m' metrics' stage' ->
  (forall s users, foreground_users m !! s = Some users -> 0 < users) ->
  foreground_users m' !! s = Some users -> 0 < users.
Proof.
  intros Hs Hpos. inversion Hs; subst; try (apply Hpos; done).
  - unfold increment_foreground_users. simpl. destruct (decide (server = s)) as [->|Hne].
    + rewrite lookup_insert_eq. intros [= <-]. unfold foreground_count, saturating_add, umax.
      destruct (foreground_users m !! s) as [u|] eqn:E; simpl; [apply Hpos in E|]; lia.
    + rewrite lookup_insert_ne by done. apply Hpos.
  - destruct (reconcile_keeps server now m) as [-> _]. apply Hpos.
  - unfold decrement_foreground_users. set (remaining := saturating_sub _ _). simpl.
    destruct (decide (server = s)) as [->|Hne]; destruct (Z.eqb_spec remaining 0) as [E|E].
    + by rewrite lookup_delete_eq.
    + rewrite lookup_insert_eq. intros [= <-]. unfold remaining, saturating_sub in *. lia.
    + rewrite lookup_delete_ne by done. apply Hpos.
    + rewrite lookup_insert_ne by done. apply Hpos.
  - destruct (reconcile_keeps server now m) as [-> _]. apply Hpos.
Qed.

(** *** The invariant *)

Lemma in_use_size w s : (in_use w s <= size (requests w))%nat.
Proof. apply those_size. Qed.

Lemma stage_step_count w t server op stage answer told heard m metrics stage' s :
  requests_inv w -> requests w !! t = Some (mk_request server op stage answer told) ->
  request_step settings server op (rw_manager w) (samples w) stage heard m metrics stage' ->
  let w' := next_world w t (mk_request server op stage answer told) heard m metrics stage' in
  Z.of_nat (size (requests w')) <= umax 64 -> foreground_count m s = Z.of_nat (in_use w' s).
Proof.
  intros Hinv Ht Hs w' Hfit. cbn [requests w' next_world with_request rq_server rq_operation rq_stage rq_answer rq_heard] in Hfit.
  assert (Hfit0 : Z.of_nat (size (requests w)) <= umax 64).
  { etrans; [|exact Hfit]. apply inj_le, size_insert_requests. }
  pose proof (ri_count _ Hinv s Hfit0) as Hc.
  rewrite (request_step_count _ _ _ _ _ _ _ _ _ s Hs).
  pose proof (in_use_insert w t (mk_request server op stage' (answered stage answer) (told ++ heard)) m metrics (updated stage server (stale_builds w)) s) as Hi.
  change (with_request w m metrics _ t _) with w' in Hi. rewrite Ht in Hi. unfold one_if in Hi. cbn [is_some_and uses rq_server rq_stage] in Hi.
  unfold uses in Hi. cbn [rq_server rq_stage] in Hi. rewrite (request_step_guard _ _ _ _ _ _ _ _ _ Hs) in Hi.
  pose proof (in_use_size w' s) as Hle. cbn [requests w' next_world with_request rq_server rq_operation rq_stage rq_answer rq_heard] in Hle.
  destruct (String.eqb_spec server s) as [->|Hne]; cbn [andb] in Hi; [|lia].
  destruct stage; cbn [use_change holds_guard] in *; unfold saturating_add, saturating_sub; lia.
Qed.

Lemma stage_step_samples w t server op stage answer told heard m metrics stage' s :
  requests_inv w -> requests w !! t = Some (mk_request server op stage answer told) ->
  request_step settings server op (rw_manager w) (samples w) stage heard m metrics stage' ->
  let reqs := <[t := mk_request server op stage' (answered stage answer) (told ++ heard)]> (requests w) in
  Z.of_nat (size reqs) <= umax 64 ->
  operations (unwrap_or default_metric_state (metrics !! s)) = Z.of_nat (size (those (sampled s) reqs)).
Proof.
  intros Hinv Ht Hs reqs Hfit.
  assert (Hfit0 : Z.of_nat (size (requests w)) <= umax 64).
  { etrans; [|exact Hfit]. apply inj_le, size_insert_requests. }
  pose proof (ri_samples _ Hinv s Hfit0) as Hc. pose proof (ri_stage _ Hinv t _ Ht) as Hok. cbn in Hok.
  pose proof (sampled_insert w t (mk_request server op stage' (answered stage answer) (told ++ heard)) s) as Hi.
  fold reqs in Hi. rewrite Ht in Hi. unfold one_if in Hi. cbn [is_some_and] in Hi.
  unfold sampled at 2 4 in Hi. cbn [rq_server rq_answer] in Hi.
  pose proof (those_size (sampled s) reqs) as Hle.
  assert (Hsame : metrics = samples w -> answered stage answer = answer ->
    operations (unwrap_or default_metric_state (metrics !! s)) = Z.of_nat (size (those (sampled s) reqs))).
  { intros -> E. rewrite E in Hi. rewrite Hc. destruct (String.eqb server s && is_some answer); lia. }
  inversion Hs; subst; try (by apply Hsame); [|by gone_cases; apply Hsame].
  destruct Hok as (_ & -> & _). cbn [answered is_some is_some_and] in *. rewrite andb_true_r, andb_false_r in Hi.
  unfold record_foreground_operation_with_health. destruct (sample_of a) as [[error bad] health].
  destruct (String.eqb_spec server s) as [->|Hne].
  - rewrite lookup_insert_eq. cbn [unwrap_or record_health_at operations]. rewrite Hc. unfold saturating_add. lia.
  - rewrite lookup_insert_ne by done. lia.
Qed.

(** The build of a server whose count and build a step leaves alone. *)
Lemma build_kept w t server op stage rq' m s b :
  requests_inv w -> requests w !! t = Some rq' -> rq_stage rq' = stage -> rq_server rq' = server ->
  foreground_count m s = foreground_count (rw_manager w) s ->
  (server = s -> between stage = false) ->
  (exists b0, running_build (rw_manager w) s = Some b0 /\
     build_foreground_users b = build_foreground_users b0) ->
  Z.of_nat (size (requests w)) <= umax 64 -> s ∉ stale_builds w ->
  (0 < build_foreground_users b <-> 0 < foreground_count m s) \/
  exists t' rq, (<[t := op]> (requests w)) !! t' = Some rq /\
    rq_server rq = s /\ between (rq_stage rq) = true.
Proof.
  intros Hinv Ht Hst Hsv Hc Hn (b0 & Hb0 & E) Hfit Hfresh. rewrite E, Hc.
  destruct (ri_build _ Hinv s b0 Hfit Hfresh Hb0) as [?|(t' & rq & Hrq & Hs & Hbt)]; [by left|right].
  exists t', rq. split; [|done]. rewrite lookup_insert_ne; [done|]. intros ->. rewrite Ht in Hrq.
  injection Hrq as <-. rewrite Hst in Hbt. rewrite Hn in Hbt; congruence.
Qed.

(** What a step does to the builds. *)
Lemma request_step_builds server op m metrics stage heard m' metrics' stage' s b :
  request_step settings server op m metrics stage heard m' metrics' stage' ->
  running_build m' s = Some b ->
  exists b0, running_build m s = Some b0 /\
    build_foreground_users b =
      (if String.eqb server s
       then match stage with
            | GuardUpdate users => users
            | DropUpdate _ => foreground_count m s
            | _ => build_foreground_users b0
            end
       else build_foreground_users b0).
Proof.
  intros Hs Hb.
  assert (Hrec : forall now, running_build (reconcile_pause_state server now m) s = Some b ->
    exists b0, running_build m s = Some b0 /\ build_foreground_users b = build_foreground_users b0).
  { intros now. apply reconcile_keeps. }
  assert (Hid : running_build m s = Some b -> exists b0, running_build m s = Some b0 /\
    build_foreground_users b = build_foreground_users b0) by eauto.
  inversion Hs; subst; cbn [rw_manager] in *;
    try (destruct (String.eqb_spec server s); first [by apply Hid|by eapply Hrec]).
  - rewrite running_alter in Hb. destruct (String.eqb_spec server s); [|by apply Hid].
    destruct (running_build m s) as [b0|]; simpl in Hb; [|done]. injection Hb as <-. by exists b0.
  - gone_cases; destruct (String.eqb_spec server s); by apply Hid.
  - unfold update_runtime_after_foreground_end in Hb. rewrite running_alter in Hb.
    destruct (String.eqb_spec server s) as [<-|]; [|by apply Hid].
    destruct (running_build m server) as [b0|]; simpl in Hb; [|done]. injection Hb as <-. by exists b0.
Qed.

Lemma request_step_between server op m metrics stage heard m' metrics' stage' :
  request_step settings server op m metrics stage heard m' metrics' stage' ->
  match stage with GuardCount | DropCount _ => between stage' = true | _ => True end.
Proof. intros Hs. inversion Hs; subst; try done. by gone_cases. Qed.

Lemma stage_step_build w t server op stage answer told heard m metrics stage' s b :
  requests_inv w -> requests w !! t = Some (mk_request server op stage answer told) ->
  request_step settings server op (rw_manager w) (samples w) stage heard m metrics stage' ->
  let reqs := <[t := mk_request server op stage' (answered stage answer) (told ++ heard)]> (requests w) in
  Z.of_nat (size reqs) <= umax 64 -> s ∉ updated stage server (stale_builds w) -> running_build m s = Some b ->
  (0 < build_foreground_users b <-> 0 < foreground_count m s) \/
  exists t' rq, reqs !! t' = Some rq /\ rq_server rq = s /\ between (rq_stage rq) = true.
Proof.
  intros Hinv Ht Hs reqs Hfit Hfresh Hr.
  assert (Hfit0 : Z.of_nat (size (requests w)) <= umax 64).
  { etrans; [|exact Hfit]. apply inj_le, size_insert_requests. }
  assert (Hold : (server = s -> match stage with GuardUpdate _ | DropUpdate _ => False | _ => True end) ->
    s ∉ stale_builds w).
  { intros Hn Hin. apply Hfresh. unfold updated. destruct stage; try done; set_solver. }
  pose proof (request_step_count _ _ _ _ _ _ _ _ _ s Hs) as Hc.
  destruct (request_step_builds _ _ _ _ _ _ _ _ _ _ _ Hs Hr) as (b0 & Hb0 & Hu).
  destruct (String.eqb_spec server s) as [<-|Hne].
  2:{ eapply build_kept; eauto; try done; by apply Hold. }
  pose proof (stage_step_count _ _ _ _ _ _ _ _ _ _ _ server Hinv Ht Hs Hfit) as Hn. cbn zeta in Hn.
  pose proof (request_step_between _ _ _ _ _ _ _ _ _ Hs) as Hb.
  pose proof (request_step_guard _ _ _ _ _ _ _ _ _ Hs) as Hg.
  assert (Hmid : between stage' = true -> exists t' rq, reqs !! t' = Some rq /\
    rq_server rq = server /\ between (rq_stage rq) = true).
  { intros E. exists t. eexists. unfold reqs. rewrite lookup_insert_eq. by split_and!. }
  destruct stage; try (by right; apply Hmid);
    try (eapply build_kept; [done..| |eauto|done|by apply Hold]; done); left.
  - destruct (ri_stage _ Hinv t _ Ht) as [Hpos _]. cbn in Hpos.
    match type of Hn with _ = Z.of_nat (in_use ?w' _) =>
      assert (0 < in_use w' server)%nat; [|lia]; eapply (in_use_pos w' t); [apply lookup_insert_eq|] end.
    unfold uses. cbn [rq_server rq_stage]. by rewrite String.eqb_refl, Hg.
  - rewrite Hu, Hc. done.
Qed.

Lemma requests_inv_request w t server op stage answer told heard m metrics stage' :
  requests_inv w -> requests w !! t = Some (mk_request server op stage answer told) ->
  request_step settings server op (rw_manager w) (samples w) stage heard m metrics stage' ->
  requests_inv (next_world w t (mk_request server op stage answer told) heard m metrics stage').
Proof.
  intros Hinv Ht Hs. split.
  - intros s Hfit. by eapply stage_step_count.
  - intros s users. eapply request_step_entry; [exact Hs|exact (ri_entry _ Hinv)].
  - intros s b Hfit Hfresh Hr. by eapply stage_step_build.
  - intros s Hfit. by eapply stage_step_samples.
  - intros t' rq. cbn. destruct (decide (t = t')) as [<-|Hne].
    + rewrite lookup_insert_eq. intros [= <-]. cbn. eapply request_step_stage; [exact Hs| |exact (ri_stage _ Hinv t _ Ht)].
      unfold foreground_count. destruct (foreground_users (rw_manager w) !! server) eqn:E; simpl; [|done].
      apply (ri_entry _ Hinv) in E. lia.
    + rewrite lookup_insert_ne by done. apply (ri_stage _ Hinv).
Qed.

Lemma requests_inv_arrives w t server op :
  requests_inv w -> requests w !! t = None ->
  requests_inv (with_request w (rw_manager w) (samples w) (stale_builds w) t (mk_request server op GuardCount None [])).
Proof.
  intros Hinv Ht.
  assert (Hsz : (size (requests w) <= size (<[t := mk_request server op GuardCount None []]> (requests w)))%nat)
    by apply size_insert_requests.
  split; cbn.
  - intros s Hfit. pose proof (in_use_insert w t (mk_request server op GuardCount None []) (rw_manager w) (samples w) (stale_builds w) s) as Hi.
    rewrite Ht in Hi. unfold one_if, uses in Hi. cbn in Hi. rewrite andb_false_r in Hi.
    rewrite (ri_count _ Hinv s) by lia. unfold uses. lia.
  - apply (ri_entry _ Hinv).
  - intros s b Hfit Hfresh Hr.
    destruct (ri_build _ Hinv s b) as [?|(t' & rq & Hrq & ?)]; [lia|done|done|by left|right].
    exists t', rq. by rewrite lookup_insert_ne by (intros ->; congruence).
  - intros s Hfit. pose proof (sampled_insert w t (mk_request server op GuardCount None []) s) as Hi.
    rewrite Ht in Hi. unfold one_if, sampled in Hi. cbn in Hi. rewrite andb_false_r in Hi.
    rewrite (ri_samples _ Hinv s) by lia. unfold sampled. lia.
  - intros t' rq. destruct (decide (t = t')) as [<-|Hne].
    + by rewrite lookup_insert_eq; intros [= <-].
    + rewrite lookup_insert_ne by done. apply (ri_stage _ Hinv).
Qed.

Lemma requests_inv_other w m stale :
  requests_inv w -> other_work (rw_manager w) m (stale_builds w) stale ->
  requests_inv (mk_world m (samples w) (requests w) stale).
Proof.
  intros Hinv (Hf & Hstale). assert (Hc : forall s, foreground_count m s = foreground_count (rw_manager w) s).
  { intros s. unfold foreground_count. by rewrite Hf. }
  split; cbn; try apply Hinv.
  - intros s Hfit. rewrite Hc. by apply (ri_count _ Hinv).
  - intros s users. rewrite Hf. apply (ri_entry _ Hinv).
  - intros s b Hfit Hfresh Hr. rewrite Hc.
    destruct (decide (build_foreground_users b = foreground_count (rw_manager w) s)) as [->|Hne]; [by left|].
    destruct (running_build (rw_manager w) s) as [b0|] eqn:Hb0.
    + destruct (decide (build_foreground_users b0 = build_foreground_users b)) as [<-|Hd].
      * destruct (decide (s ∈ stale_builds w)) as [Hin|Hout]; [|by apply (ri_build _ Hinv)].
        exfalso. apply Hfresh, Hstale. exists b. split_and!; [done..|]. intros b1. rewrite Hb0. by intros [= <-].
      * exfalso. apply Hfresh, Hstale. exists b. split_and!; [done..|]. intros b1. rewrite Hb0. by intros [= <-].
    + exfalso. apply Hfresh, Hstale. exists b. split_and!; [done..|]. intros b1. by rewrite Hb0.
Qed.

Lemma requests_inv_reachable db w : reachable_world settings db w -> requests_inv w.
Proof.
  induction 1 as [|w w' Hr IH Hs].
  - split; cbn; try done; by intros.
  - destruct Hs.
    + by apply requests_inv_arrives.
    + destruct rq. by eapply requests_inv_request.
    + by apply requests_inv_other.
Qed.
(** C19: foreground use is counted exactly, however requests interleave with each other and
    with the other work of the manager, and however each of them ends (its reply, its refusal, an
    error, a client that is gone): the count of a server is the number of its requests that hold a
    guard, at every moment; when no request of a server is between the change of its count and the
    update of its build, the running build of that server has a use to yield to exactly when there
    is such a request, unless it was reserved with a count that was out of date and no request has
    updated it since; and when no request holds a guard, nothing is left in the map. *)
Theorem foreground_use_counted db w :
  reachable_world settings db w -> Z.of_nat (size (requests w)) <= umax 64 ->
  (forall s, foreground_count (rw_manager w) s = Z.of_nat (in_use w s)) /\
  (forall s b, s ∉ stale_builds w -> running_build (rw_manager w) s = Some b ->
     (forall t rq, requests w !! t = Some rq -> rq_server rq = s -> between (rq_stage rq) = false) ->
     (0 < build_foreground_users b <-> (0 < in_use w s)%nat)) /\
  ((forall t rq, requests w !! t = Some rq -> holds_guard (rq_stage rq) = false) ->
   foreground_users (rw_manager w) = ∅).
Proof.
  intros Hr Hfit. apply requests_inv_reachable in Hr. split_and!.
  - intros s. by apply (ri_count _ Hr).
  - intros s b Hfresh Hb Hsettled.
    destruct (ri_build _ Hr s b Hfit Hfresh Hb) as [->|(t & rq & Ht & Hs & E)].
    + rewrite (ri_count _ Hr s Hfit). lia.
    + by rewrite (Hsettled t rq Ht Hs) in E.
  - intros Hnone. apply map_eq. intros s. rewrite lookup_empty.
    destruct (foreground_users (rw_manager w) !! s) as [users|] eqn:E; [|done].
    pose proof (ri_count _ Hr s Hfit) as Hc. pose proof (ri_entry _ Hr _ _ E) as Hpos.
    unfold foreground_count in Hc. rewrite E in Hc. simpl in Hc.
    assert (in_use w s = 0%nat); [|lia]. unfold in_use. apply map_size_empty_iff.
    unfold those. apply map_empty_filter. intros t rq Ht. unfold uses. cbn. by rewrite (Hnone t rq Ht), andb_false_r.
Qed.

(** *** Every request ends *)

Definition stage_rank (stage : Stage) : nat :=
  match stage with
  | GuardCount => 10
  | GuardUpdate _ => 9
  | GuardReconcile => 8
  | Validate => 7
  | CallClient | OpenSession => 6
  | RecordSample _ | SearchRuns => 5
  | ReadIndexStatus _ => 4
  | DropCount _ => 3
  | DropUpdate _ => 2
  | DropReconcile _ => 1
  | Replied _ => 0
  end.
Lemma request_step_rank server op m metrics stage heard m' metrics' stage' :
  request_step settings server op m metrics stage heard m' metrics' stage' -> (stage_rank stage' < stage_rank stage)%nat.
Proof.
  intros Hs. inversion Hs; subst; simpl; try lia.
  - unfold validated. repeat case_match; simpl; lia.
  - unfold recorded. repeat case_match; simpl; lia.
  - destruct r; simpl; lia.
  - gone_cases; simpl; lia.
Qed.
Lemma request_step_enabled server op m metrics stage :
  (0 < stage_rank stage)%nat ->
  exists heard m' metrics' stage', request_step settings server op m metrics stage heard m' metrics' stage'.
Proof.
  intros Hr. destruct stage; simpl in Hr; try lia;
    try (eexists _, _, _, _; apply step_gone; rewrite !elem_of_cons; by eauto 6).
  - eexists _, _, _, _. apply step_count.
  - eexists _, _, _, _. apply step_update.
  - eexists _, _, _, _. by apply (step_reconcile _ _ _ _ _ 0).
  - eexists _, _, _, _. apply step_validate.
  - eexists _, _, _, _. by apply (step_record _ _ _ _ _ _ 0 0).
  - eexists _, _, _, _. apply step_search_end.
  - eexists _, _, _, _. apply step_drop_count.
  - eexists _, _, _, _. by apply (step_drop_update _ _ _ _ _ _ 0).
  - eexists _, _, _, _. by apply (step_drop_reconcile _ _ _ _ _ _ 0).
Qed.

(** C28: a request ends and its reply is the right one. Each of its steps brings it closer
    to its reply, and until then there is one. Its reply is the one [right_reply] gives for what was
    asked and what the request was told: the refusal of a write without a value and of a search
    that is invalid, with the reason of the refusal; the capabilities with the state of the index, the
    page, the values or the result the client answered, field by field, and its error as [Internal] (a status of the
    browse manager as it is); the stream of an accepted search, or the status its session was
    refused with; nothing for a client that is gone. The answers of the OPC client, and nothing
    else, are counted in the measurements, each once. *)
Theorem request_answered db w t rq :
  reachable_world settings db w -> requests w !! t = Some rq ->
  (forall heard m metrics stage',
     request_step settings (rq_server rq) (rq_operation rq) (rw_manager w) (samples w) (rq_stage rq)
       heard m metrics stage' ->
     (stage_rank stage' < stage_rank (rq_stage rq))%nat) /\
  ((0 < stage_rank (rq_stage rq))%nat -> exists heard m metrics stage',
     request_step settings (rq_server rq) (rq_operation rq) (rw_manager w) (samples w) (rq_stage rq)
       heard m metrics stage') /\
  (forall reply, rq_stage rq = Replied reply ->
     right_reply (rq_operation rq) (rq_heard rq) reply /\ rq_answer rq = client_answer (rq_heard rq)) /\
  (Z.of_nat (size (requests w)) <= umax 64 -> forall s,
     operations (unwrap_or default_metric_state (samples w !! s)) = Z.of_nat (size (those (sampled s) (requests w)))).
Proof.
  intros Hr Ht. apply requests_inv_reachable in Hr. split_and!.
  - intros heard m metrics stage'. apply request_step_rank.
  - apply request_step_enabled.
  - intros reply E. pose proof (ri_stage _ Hr t rq Ht) as Hok. rewrite E in Hok. exact Hok.
  - intros Hfit s. by apply (ri_samples _ Hr).
Qed.
End RequestsSpec.

(** ** A demonstration

    A read and a write of the same server while a build of its index runs, interleaved; the write has no value. *)

Definition requests_settings : ResolvedIndexConfig := resolve_index_config None default_index_config.

Definition one_step (t : nat) (heard : list Heard) (m : Manager)
    (metrics : gmap string ForegroundMetricState) (stage : Stage) (w : World) : World :=
  match requests w !! t with
  | Some rq => next_world w t rq heard m metrics stage
  | None => w
  end.
Definition quiet_step (t : nat) (heard : list Heard) (stage : Stage) (w : World) : World :=
  one_step t heard (rw_manager w) (samples w) stage w.

Definition demo_value : OpcTagValue :=
  {| opc_tag_id := "pump.speed"; opc_value := "1480"; opc_quality := "Good"; opc_timestamp := "0" |}.
Definition demo_answer : OpcAnswer := AnsweredRead (Ok [demo_value]).
Definition no_value : Rpc.Status := mk_status InvalidArgument "no typed_value provided".

Section Demo.
Local Existing Instance ascii_text.

Definition demo_reserved (w : World) : World :=
  mk_world (set_runtime (rw_manager w) {["line" := set_build default_runtime (Some (reserved_build "0" 0))]})
    (samples w) (requests w) (stale_builds w).
Definition demo_arrives (t : nat) (op : Operation) (w : World) : World :=
  with_request w (rw_manager w) (samples w) (stale_builds w) t (mk_request "line" op GuardCount None []).
Definition demo_count (t : nat) (w : World) : World :=
  let m := increment_foreground_users "line" (rw_manager w) in one_step t [] m.1 (samples w) (GuardUpdate m.2) w.
Definition demo_update (t : nat) (users : Z) (w : World) : World :=
  one_step t [] (alter_build (fun b => with_foreground b users None) "line" (rw_manager w)) (samples w) GuardReconcile w.
Definition demo_reconcile (t : nat) (stage : Stage) (w : World) : World :=
  one_step t [] (reconcile_pause_state "line" 5 (rw_manager w)) (samples w) stage w.
Definition demo_record (t : nat) (a : OpcAnswer) (w : World) : World :=
  one_step t [] (rw_manager w)
    (record_foreground_operation_with_health "line" 6 2000000 (sample_of a) (samples w)) (recorded a) w.
Definition demo_drop (t : nat) (reply : result Reply Rpc.Status) (w : World) : World :=
  one_step t [] (decrement_foreground_users "line" (rw_manager w)) (samples w) (DropUpdate reply) w.
Definition demo_drop_update (t : nat) (reply : result Reply Rpc.Status) (w : World) : World :=
  one_step t [] (update_runtime_after_foreground_end requests_settings "line" 7 (rw_manager w)) (samples w)
    (DropReconcile reply) w.

Definition demo_reply : result Reply Rpc.Status := Ok (ReplyValues (map_to_proto_tag_values [demo_value])).
Definition demo_steps : list (World -> World) :=
  [demo_reserved; demo_arrives 0 (Read ["pump.speed"]); demo_arrives 1 (Write "pump.speed" None);
   demo_count 0; demo_count 1; demo_update 1 2; demo_update 0 1; demo_reconcile 0 Validate; demo_reconcile 1 Validate;
   quiet_step 0 [] CallClient; quiet_step 1 [] (DropCount (Err no_value)); quiet_step 0 [HeardClient demo_answer] (RecordSample demo_answer);
   demo_drop 1 (Err no_value); demo_record 0 demo_answer; demo_drop_update 1 (Err no_value);
   demo_reconcile 1 (Replied (Err no_value))].
Definition demo_requests (n : nat) : World := foldl (fun w f => f w) (initial_world empty_db) (take n demo_steps).
End Demo.

Lemma one_step_ok `{TextLibrary} settings w t rq heard m metrics stage' :
  requests w !! t = Some rq ->
  request_step settings (rq_server rq) (rq_operation rq) (rw_manager w) (samples w) (rq_stage rq)
    heard m metrics stage' ->
  world_step settings w (one_step t heard m metrics stage' w).
Proof. intros Ht Hs. unfold one_step. rewrite Ht. by apply step_request. Qed.

(** One more step of the demonstration. *)
Lemma demo_next (k : nat) f :
  demo_steps !! k = Some f ->
  @reachable_world ascii_text requests_settings empty_db (demo_requests k) ->
  @world_step ascii_text requests_settings (demo_requests k) (f (demo_requests k)) ->
  @reachable_world ascii_text requests_settings empty_db (demo_requests (S k)).
Proof.
  intros Hf Hr Hs. unfold demo_requests. rewrite (take_S_r _ _ _ Hf), foldl_app. by eapply reachable_next.
Qed.

Ltac demo_step :=
  first
    [ apply step_arrives; vm_compute; reflexivity
    | eapply one_step_ok; [vm_compute; reflexivity|cbn [rq_server rq_operation rq_stage]; constructor; reflexivity]
    | eapply one_step_ok; [vm_compute; reflexivity|cbn [rq_server rq_operation rq_stage]; constructor]
    | idtac ].
Ltac demo_walk :=
  first [apply reachable_initial | eapply demo_next; [reflexivity|demo_walk|demo_step]].

Lemma demo_requests_reachable : @reachable_world ascii_text requests_settings empty_db (demo_requests 15).
Proof.
  demo_walk.
  apply step_other. split; [done|]. intros s. split; [by intros []%not_elem_of_empty|].
  intros (b & Hb & Hne & _). unfold running_build in Hb. cbn in Hb. exfalso. apply Hne.
  destruct (decide ("line" = s)) as [<-|Hd].
  - rewrite lookup_singleton_eq in Hb. by injection Hb as <-.
  - by rewrite lookup_singleton_ne in Hb.
Qed.
Lemma demo_replied_reachable : @reachable_world ascii_text requests_settings empty_db (demo_requests 16).
Proof. eapply demo_next; [reflexivity|apply demo_requests_reachable|demo_step]. Qed.

(** Both requests hold a guard: the build has a use to yield to; after the step of one of them, the other still
    does. *)
Lemma foreground_use_counted_witness :
  in_use (demo_requests 15) "line" = 1%nat /\ foreground_count (rw_manager (demo_requests 15)) "line" = 1 /\
  exists b, running_build (rw_manager (demo_requests 15)) "line" = Some b /\ 0 < build_foreground_users b.
Proof.
  destruct (@foreground_use_counted ascii_text requests_settings empty_db (demo_requests 15) demo_requests_reachable)
    as (Hcount & Hbuild & _); [vm_compute; discriminate|].
  assert (Huse : in_use (demo_requests 15) "line" = 1%nat) by (vm_compute; reflexivity).
  split; [exact Huse|]. split; [rewrite Hcount, Huse; reflexivity|].
  destruct (running_build (rw_manager (demo_requests 15)) "line") as [b|] eqn:Hb; [|vm_compute in Hb; discriminate].
  exists b. split; [reflexivity|]. apply (Hbuild "line" b); [by intros []%not_elem_of_empty|exact Hb| |rewrite Huse; lia].
  assert (Hall : map_Forall (fun _ rq => between (rq_stage rq) = false) (requests (demo_requests 15)))
    by (apply (bool_decide_eq_true_1 _); vm_compute; reflexivity).
  intros t rq Ht _. exact (Hall t rq Ht).
Defined.

Definition demo_replied : Request :=
  mk_request "line" (Write "pump.speed" None) (Replied (Err no_value)) None [].

(** The write without a value is refused and leaves no sample; the read is still on its way. *)
Lemma request_answered_witness :
  requests (demo_requests 16) !! 1%nat = Some demo_replied /\
  @right_reply ascii_text requests_settings (Write "pump.speed" None) [] (Err no_value) /\
  operations (unwrap_or default_metric_state (samples (demo_requests 16) !! "line")) = 1.
Proof.
  assert (Ht : requests (demo_requests 16) !! 1%nat = Some demo_replied) by (vm_compute; reflexivity).
  destruct (@request_answered ascii_text requests_settings empty_db (demo_requests 16) 1 demo_replied
    demo_replied_reachable Ht) as (_ & _ & Hreply & Hsamples).
  split; [exact Ht|]. split; [apply (Hreply _ eq_refl)|].
  rewrite (Hsamples ltac:(vm_compute; discriminate)). vm_compute. reflexivity.
Defined.
