(* ===== verification/Startup.v ===== *)
(** * The start of a build (index/enrollment.rs, traversal.rs, scheduler.rs)

    [refresh_reserved] and what it calls, in the direct style of the source: a program of critical
    sections of [Manager] and questions to the environment (answers of the OPC client, clocks, failures
    of the database), between which anything else may run. [Lifecycle] has the same code as a
    machine with program counters; [StartupSpec] proves that they agree. *)
From S2P Require Import Prelude Text Schedule Controller Config Opc Store StoreSpec Status Build Coordinated Manager.
From S2P Require Import Lifecycle.

(** ** Programs *)

Inductive Prog (A : Type) : Type :=
| Ret (a : A)
(** one critical section: the manager, the write it commits, and what it returns *)
| Atomic {X : Type} (section : Manager -> Manager * option db_op * X) (k : X -> Prog A)
(** an answer of the environment *)
| Ask {X : Type} (k : X -> Prog A).
Arguments Ret {A} a.
Arguments Atomic {A X} section k.
Arguments Ask {A X} k.

Fixpoint bind {A B} (p : Prog A) (f : A -> Prog B) : Prog B :=
  match p with
  | Ret a => f a
  | Atomic section k => Atomic section (fun x => bind (k x) f)
  | Ask k => Ask (fun x => bind (k x) f)
  end.
Notation "'let!' x := p 'in' q" := (bind p (fun x => q))
  (at level 200, x name, p at level 100, q at level 200).

Definition ask (X : Type) : Prog X := Ask (fun x => Ret x).
Definition atomic {X} (section : Manager -> Manager * option db_op * X) : Prog X :=
  Atomic section (fun x => Ret x).
Definition change (f : Manager -> Manager) : Prog unit := atomic (fun m => (f m, None, tt)).

(** One step of a program: the answers it asks for, up to the end of its next critical section. *)
Fixpoint prog_step {A} (p : Prog A) (m : Manager) (p' : Prog A) (m' : Manager) (op : option db_op) : Prop :=
  match p with
  | Ret _ => False
  | Atomic section k =>
      let '(m1, op1, x) := section m in m' = m1 /\ op = op1 /\ p' = k x
  | Ask k => exists x, prog_step (k x) m p' m' op
  end.

Section Startup.
Context `{TextLibrary}.
Context (settings : ResolvedIndexConfig).
(** The ownership token is the name of the task. *)
Context (t : nat) (server : string).

(** [with_opc_timeout]: no answer in time is an error. *)
Definition operation_timeout : Z := Z.max 1 (cfg_operation_timeout_seconds settings).
Definition with_opc_timeout {A} (operation : string) (answer : option (result A string)) : result A string :=
  match answer with
  | Some r => r
  | None =>
      Err (String.append "OPC namespace index "
        (String.append operation
           (String.append " timed out after " (String.append (to_decimal operation_timeout) " seconds"))))
  end.
Definition opc_call (A : Type) (operation : string) : Prog (result A string) :=
  let! answer := ask (option (result A string)) in Ret (with_opc_timeout operation answer).

(** [with_database_write] of an operation; [None]: it fails and commits nothing *)
Definition database_write {A} (op : Manager -> db_op) (answer : Manager -> result A string) :
    Prog (result A string) :=
  let! failure := ask (option string) in
  atomic (fun m =>
    (exec (write (is_some failure) (op m)) m, write (is_some failure) (op m),
     match failure with Some error => Err error | None => answer m end)).

(** ** The end of a build that did not start *)

(** [finalize_owned_build] from a stage on *)
Definition finish_from (stage : FinishStage) : Prog unit :=
  let persist :=
    let! write_error := ask (option string) in
    atomic (fun m => (persist_retry_state server write_error m, finish_op server Persist write_error m, tt)) in
  let overlays := change (clear_pause_overlays server) in
  let owner := change (remove_build_owner server t) in
  let active := change (clear_active_build server) in
  let lock := change (clear_build_lock server) in
  let take := change (take_build server) in
  let pending := change (clear_pending_cancel server) in
  match stage with
  | Update | Persist =>
      let! _ := persist in let! _ := overlays in let! _ := owner in let! _ := active in
      let! _ := lock in let! _ := take in pending
  | Overlays =>
      let! _ := overlays in let! _ := owner in let! _ := active in let! _ := lock in let! _ := take in pending
  | Owner => let! _ := owner in let! _ := active in let! _ := lock in let! _ := take in pending
  | ActiveBuild => let! _ := active in let! _ := lock in let! _ := take in pending
  | BuildLock => let! _ := lock in let! _ := take in pending
  | TakeBuild => let! _ := take in pending
  | PendingCancel => pending
  end.
Definition finalize_owned_build : Prog unit := finish_from Persist.

(** [finish_build_inner_with_retry_policy] *)
Definition finish_build_inner (c : option nat) (error : option string) (preserve : bool) : Prog unit :=
  let! now := ask Z in
  let! owns := atomic (fun m =>
    let '(m', owns) := finish_update settings server c t error preserve now m in (m', None, owns)) in
  if owns then finalize_owned_build else Ret tt.
Definition finish_build_owned (error : option string) : Prog unit := finish_build_inner None error false.
Definition finish_build_for_control_owned (c : nat) (error : option string) : Prog unit :=
  finish_build_inner (Some c) error false.

Definition record_start_failure (error : string) : Prog (result unit string) :=
  let! now := ask Z in
  let! persisted :=
    database_write (fun _ => OpRecordFailedAttempt server error (timestamp_now now)) (fun _ => Ok tt) in
  let! _ := finish_build_owned (Some error) in
  Ret persisted.

(** [self.record_start_failure(..)?; return Err(error)] *)
Definition refuse {A} (error : string) : Prog (result (option A) string) :=
  let! persisted := record_start_failure error in
  Ret (match persisted with Ok _ => Err error | Err e => Err e end).

(** ** The inventory *)

(** The control of a started inventory, as the client returns it; its name is fresh. *)
Definition new_inventory_control (cancelled : bool) : Prog nat :=
  let! hint := ask nat in
  atomic (fun m =>
    let c := if decide (build_controls m !! hint = None) then hint else fresh (dom (build_controls m)) in
    (set_build_controls m
       (<[c := {| control_cancelled := cancelled; control_paused := false |}]> (build_controls m)), None, c)).

Definition start_failed {A} (error : string) : Prog (result (option A) string) :=
  let! cancelled :=
    atomic (fun m => ((take_pending_cancel server m).1, None, (take_pending_cancel server m).2)) in
  if cancelled then let! _ := finish_build_owned None in Ret (Ok None) else refuse error.

(** The answer to a start: whether the new control is cancelled already. *)
Definition started (answer : result bool string) : Prog (result (option nat) string) :=
  match answer with
  | Ok cancelled => let! c := new_inventory_control cancelled in Ret (Ok (Some c))
  | Err error => let! _ := change (fun m => m) in start_failed error
  end.

(** [discover_inventory_roots]; a failed session or page leaves the later answers unused *)
Definition discover : Prog (result (option InventoryRootPlan) string) :=
  let! capabilities := opc_call BrowseCapabilities "get inventory browse capabilities" in
  let! session := opc_call string "open inventory root browse session" in
  let! page := opc_call BrowsePage "browse inventory root" in
  let! close := opc_call unit "close inventory root browse session" in
  Ret (discover_inventory_roots capabilities session page close).

(** [start_coordinated_inventory], up to the control of its coordinator (whose run is [Coordinated]) *)
Definition start_coordinated_inventory (limits : InventoryLimits) :
    Prog (result (option (Coordinated.World)) string) :=
  let! plan := discover in
  Ret (match plan with
       | Err error => Err error
       | Ok None => Ok None
       | Ok (Some plan) =>
           Ok (Some (Coordinated.initial plan (coordinated_worker_count (cfg_worker_count settings) plan)
             (pacing_for_limits limits)))
       end).

(** What a coordinated start gives, or else one inventory of the whole namespace. *)
Definition start_with (coordinated : result (option Coordinated.World) string) :
    Prog (result (option nat) string) :=
  match coordinated with
  | Ok (Some world) => started (Ok (cancelled (Coordinated.control world)))
  | _ => let! answer := opc_call bool "start inventory" in started answer
  end.
Definition start_refresh_inventory (limits : InventoryLimits) : Prog (result (option nat) string) :=
  match cfg_inventory_root settings with
  | Some _ => let! answer := opc_call bool "start root-scoped inventory" in started answer
  | None =>
      let! coordinated :=
        (if 1 <? cfg_worker_count settings then start_coordinated_inventory limits else Ret (Ok None)) in
      start_with coordinated
  end.

(** ** The control, the generation, and the build *)

Definition is_cancelled_now (c : nat) : Prog bool := atomic (fun m => (m, None, is_cancelled m c)).

(** The cancellation of a build that is about to start: the operator's, or the client's. *)
Definition give_up_control (c : nat) (before : bool) : Prog bool :=
  atomic (fun m =>
    (cancel_control c (take_pending_cancel server m).1, None,
     (take_pending_cancel server m).2 || (negb before && is_cancelled m c))).
Definition pacing_failed (c : nat) (before : bool) (error : string) : Prog (result (option bool) string) :=
  let! cancelled := give_up_control c before in
  if cancelled then let! _ := finish_build_owned None in Ret (Ok None)
  else refuse (String.append "unable to apply initial inventory pacing: " error).
Definition attach_failed (c : nat) (before : bool) : Prog (result (option bool) string) :=
  let! cancelled := give_up_control c before in
  if cancelled then let! _ := finish_build_owned None in Ret (Ok None)
  else let! _ := finish_build_owned (Some disappeared) in Ret (Err disappeared).
Definition take_cancel (c : nat) (before : bool) : Prog (result (option bool) string) :=
  let! cancelled := atomic (fun m =>
    (if (take_pending_cancel server m).2 then cancel_control c (take_pending_cancel server m).1
     else (take_pending_cancel server m).1, None, (take_pending_cancel server m).2)) in
  if cancelled then let! _ := finish_build_for_control_owned c None in Ret (Ok None)
  else Ret (Ok (Some before)).
Definition attach (c : nat) (before : bool) : Prog (result (option bool) string) :=
  let! present := atomic (fun m =>
    (alter_build (fun b => with_control_of b (Some c)) server m, None, is_some (running_build m server))) in
  if present then take_cancel c before else attach_failed c before.

(** [attach_refresh_control]; [pacing] is the answer of [set_pacing] *)
Definition attach_refresh_control (c : nat) : Prog (result (option bool) string) :=
  let! pacing := ask (option string) in
  let! before := is_cancelled_now c in
  match pacing with
  | Some error => pacing_failed c before error
  | None => attach c before
  end.

(** A start that is refused after the control was attached. *)
Definition start_refused (c : nat) (before : bool) (error : string) : Prog (result (option Z) string) :=
  let! cancelled := atomic (fun m => (cancel_control c m, None, negb before && is_cancelled m c)) in
  if cancelled then let! _ := finish_build_for_control_owned c None in Ret (Ok None) else refuse error.

Definition generate (c : nat) (before : bool) (organization : NamespaceOrganization) (source : BrowseSource) :
    Prog (result (option Z) string) :=
  let! now := ask Z in
  let! failure := ask (option string) in
  let! generation := atomic (fun m =>
    match failure, (start_generation (database m) server organization source (timestamp_now now)).2 with
    | None, Ok generation =>
        (exec (Some (OpStartGeneration server organization source (timestamp_now now))) m,
         Some (OpStartGeneration server organization source (timestamp_now now)), Ok generation)
    | Some error, _ | None, Err error => (m, None, Err error)
    end) in
  match generation with
  | Err error => start_refused c before error
  | Ok generation => Ret (Ok (Some generation))
  end.

(** [start_refresh_generation]; the cleanup it schedules is a task of its own *)
Definition start_refresh_generation (c : nat) (before : bool) : Prog (result (option Z) string) :=
  let! capabilities := opc_call (NamespaceOrganization * BrowseSource) "inventory capability probe" in
  let! _ := change (fun m => m) in
  match capabilities with
  | Err error => start_refused c before error
  | Ok (organization, source) => generate c before organization source
  end.

(** [abandon_generation] *)
Definition fail_generation_and_schedule_cleanup (generation : Z) (reason : string) : Prog unit :=
  let! _ := database_write (fun _ => OpFailGeneration server generation reason) (fun _ => Ok tt) in Ret tt.
Definition abandon_generation (generation : Z) (reason : string) : Prog unit :=
  let! discarded :=
    database_write (fun _ => OpDiscardEmptyGeneration server generation)
      (fun m => (discard_empty_generation (database m) server generation).2) in
  match discarded with
  | Ok false => fail_generation_and_schedule_cleanup generation reason
  | _ => Ret tt
  end.

(** A build that is not launched: its generation is abandoned, its registrations are released. *)
Definition abandon (generation : Z) (reason : string) (c : option nat) (error : option string) :
    Prog (result bool string) :=
  let! _ := abandon_generation generation reason in
  let! _ := finish_build_inner c error false in
  Ret (match error with Some error => Err error | None => Ok false end).

(** [launch_refresh_build]: whether the build runs *)
Definition spawn_build (c : nat) (generation : Z) : Prog (result bool string) :=
  let! refused := atomic (fun m => (if shutting_down m then cancel_control c m else m, None, shutting_down m)) in
  if refused then abandon generation "index build task was not started" (Some c) None else Ret (Ok true).
Definition ready_build (c : nat) (generation : Z) : Prog (result bool string) :=
  let! stop := atomic (fun m => (if shutting_down m then cancel_control c m else m, None, shutting_down m)) in
  if stop then abandon generation "gateway shutdown before index build" None None else spawn_build c generation.
Definition launched (c : nat) (generation : Z) (before : bool) : Prog (result bool string) :=
  let! now := ask Z in
  let! cancelled := atomic (fun m =>
    (if negb before && is_cancelled m c then cancel_control c m else reconcile_pause_state server now m, None,
     negb before && is_cancelled m c)) in
  if cancelled then abandon generation "index build cancelled during startup" (Some c) None
  else ready_build c generation.
Definition launch_refresh_build (c : nat) (generation : Z) (before : bool) : Prog (result bool string) :=
  let! lost := atomic (fun m =>
    if bool_decide ((b ← running_build m server; Status.control b) = Some c) then (m, None, None)
    else (cancel_control c m, None, Some (is_cancelled m c))) in
  match lost with
  | Some cancelled => abandon generation disappeared None (if cancelled : bool then None else Some disappeared)
  | None => launched c generation before
  end.

(** [refresh_reserved], up to the status it answers: the control and the generation of the build
    that runs now, if one does *)
Definition Outcome : Type := result (option (nat * Z)) string.
Definition after_launch (c : nat) (generation : Z) (launched : result bool string) : Prog Outcome :=
  Ret (match launched with
       | Ok true => Ok (Some (c, generation))
       | Ok false => Ok None
       | Err error => Err error
       end).
Definition after_generation (c : nat) (before : bool) (r : result (option Z) string) : Prog Outcome :=
  match r with
  | Err error => Ret (Err error)
  | Ok None => Ret (Ok None)
  | Ok (Some generation) =>
      let! launched := launch_refresh_build c generation before in after_launch c generation launched
  end.
Definition attached (c : nat) (before : bool) : Prog Outcome :=
  let! stop := atomic (fun m => (if shutting_down m then cancel_control c m else m, None, shutting_down m)) in
  if stop then let! _ := finish_build_owned None in Ret (Ok None)
  else let! r := start_refresh_generation c before in after_generation c before r.
Definition after_attach (c : nat) (r : result (option bool) string) : Prog Outcome :=
  match r with
  | Err error => Ret (Err error)
  | Ok None => Ret (Ok None)
  | Ok (Some before) => attached c before
  end.
Definition after_start (r : result (option nat) string) : Prog Outcome :=
  match r with
  | Err error => Ret (Err error)
  | Ok None => Ret (Ok None)
  | Ok (Some c) => let! r := attach_refresh_control c in after_attach c r
  end.
Definition refresh_reserved (now : Z) : Prog Outcome :=
  let! r := start_refresh_inventory (initial_inventory_limits settings now) in after_start r.
End Startup.
