(* ===== verification/StartupSpec.v ===== *)
(** * The machine of [Lifecycle] is the program of [Startup]

    The states of a task between the reservation and the running build are the points of the
    program of [refresh_reserved]: each step of the program is a step of the machine to the next
    point, with the same manager and the same write, and the machine has no other steps there. The properties
    of [Lifecycle] are thereby properties of the code in its direct style. *)
From Stdlib Require Import FunctionalExtensionality.
From S2P Require Import Prelude Text Schedule Controller Config Opc Store StoreSpec Status Build BuildSpec Coordinated Manager.
From S2P Require Import Lifecycle LifecycleSpec Startup.

(** ** Programs *)

Lemma bind_bind {A B C} (p : Prog A) (f : A -> Prog B) (g : B -> Prog C) :
  bind (bind p f) g = bind p (fun x => bind (f x) g).
Proof.
  induction p as [a|X section k IH|X k IH]; simpl; [done|..]; f_equal; by apply functional_extensionality.
Qed.

Lemma step_atomic {A X} (section : Manager -> Manager * option db_op * X) (k : X -> Prog A) m p' m' op :
  prog_step (bind (atomic section) k) m p' m' op <->
  let '(m1, op1, x) := section m in m' = m1 /\ op = op1 /\ p' = k x.
Proof. done. Qed.
Lemma step_ask {A X} (k : X -> Prog A) m p' m' op :
  prog_step (bind (ask X) k) m p' m' op <-> exists x, prog_step (k x) m p' m' op.
Proof. done. Qed.
Lemma step_change {A} (f : Manager -> Manager) (k : unit -> Prog A) m p' m' op :
  prog_step (bind (change f) k) m p' m' op <-> m' = f m /\ op = None /\ p' = k tt.
Proof. done. Qed.

Section StartupSpec.
Context `{TextLibrary}.
Context (settings : ResolvedIndexConfig).
Context (t : nat) (server : string).

(** ** The points of the program *)

Definition finish_at (stage : FinishStage) (c : option nat) (error : option string) (preserve : bool) : Prog unit :=
  match stage with
  | Update => finish_build_inner settings t server c error preserve
  | _ => finish_from t server stage
  end.
(** The outcome of a start that did not start a build. *)
Definition not_started (error : option string) : Outcome :=
  match error with Some error => Err error | None => Ok None end.

Inductive at_pc : Pc -> Prog Outcome -> Prop :=
| at_starting now : at_pc Starting (refresh_reserved settings t server now)
| at_start_failed error :
    at_pc (StartFailed error) (bind (start_failed settings t server error) (after_start settings t server))
| at_recording error (o : result unit string -> string) :
    at_pc (Recording error) (bind (record_start_failure settings t server error) (fun r => Ret (Err (o r))))
| at_pacing c :
    at_pc (Pacing c) (bind (attach_refresh_control settings t server c) (after_attach settings t server c))
| at_pacing_failed c before error :
    at_pc (PacingFailed c before error)
      (bind (pacing_failed settings t server c before error) (after_attach settings t server c))
| at_attaching c before :
    at_pc (Attaching c before) (bind (attach settings t server c before) (after_attach settings t server c))
| at_attach_failed c before :
    at_pc (AttachFailed c before)
      (bind (attach_failed settings t server c before) (after_attach settings t server c))
| at_taking_cancel c before :
    at_pc (TakingCancel c before)
      (bind (take_cancel settings t server c before) (after_attach settings t server c))
| at_attached c before : at_pc (Attached c before) (attached settings t server c before)
| at_probing c before :
    at_pc (Probing c before)
      (bind (start_refresh_generation settings t server c before) (after_generation settings t server c before))
| at_start_refused c before error :
    at_pc (StartRefused c before error)
      (bind (start_refused settings t server c before error) (after_generation settings t server c before))
| at_generating c before organization source :
    at_pc (Generating c before organization source)
      (bind (generate settings t server c before organization source)
         (after_generation settings t server c before))
| at_launching c before generation :
    at_pc (Launching c before generation)
      (bind (launch_refresh_build settings t server c generation before) (after_launch c generation))
| at_launched c before generation :
    at_pc (Launched c before generation)
      (bind (launched settings t server c generation before) (after_launch c generation))
| at_readying c generation :
    at_pc (Readying c generation) (bind (ready_build settings t server c generation) (after_launch c generation))
| at_spawning c generation :
    at_pc (Spawning c generation) (bind (spawn_build settings t server c generation) (after_launch c generation))
| at_discarding c0 generation0 generation reason c error :
    at_pc (Discarding generation reason c error)
      (bind (abandon settings t server generation reason c error) (after_launch c0 generation0))
| at_failing generation reason c error o :
    at_pc (FailingGeneration generation reason c error)
      (bind (fail_generation_and_schedule_cleanup server generation reason)
         (fun _ => bind (finish_build_inner settings t server c error false) (fun _ => Ret (not_started o))))
| at_finishing stage c error preserve o :
    at_pc (Finishing stage c error preserve)
      (bind (finish_at stage c error preserve) (fun _ => Ret (not_started o)))
| at_building c generation : at_pc (Building c generation) (Ret (Ok (Some (c, generation))))
| at_ended o : at_pc Ended (Ret (not_started o)).

(** The points where the program runs. *)
Definition starting (pc : Pc) : bool :=
  match pc with
  | Starting | StartFailed _ | Recording _ | Pacing _ | PacingFailed _ _ _ | Attaching _ _ | AttachFailed _ _
  | TakingCancel _ _ | Attached _ _ | Probing _ _ | StartRefused _ _ _ | Generating _ _ _ _ | Launching _ _ _
  | Launched _ _ _ | Readying _ _ | Spawning _ _ | Discarding _ _ _ _ | FailingGeneration _ _ _ _
  | Finishing _ _ _ _ => true
  | _ => false
  end.

Lemma at_recording_refuse {A} error (K : result (option A) string -> Prog Outcome) :
  (forall e, K (Err e) = Ret (Err e)) ->
  at_pc (Recording error) (bind (refuse settings t server error) K).
Proof.
  intros HK. unfold refuse. rewrite bind_bind.
  replace (fun x : result unit string => bind (Ret (match x with Ok _ => Err error | Err e => Err e end)) K)
    with (fun r : result unit string => Ret (Err (match r with Ok _ => error | Err e => e end)) : Prog Outcome);
    [apply (at_recording error (fun r => match r with Ok _ => error | Err e => e end))|].
  apply functional_extensionality. intros [|e]; by rewrite <- HK.
Qed.

(** The end of a build, with whatever outcome that is no running build. *)
Definition starts_nothing (o : Outcome) : bool := match o with Ok (Some _) => false | _ => true end.
Lemma starts_nothing_eq o : starts_nothing o = true -> exists error, o = not_started error.
Proof. destruct o as [[x|]|error]; [done|..]; intros _; [by exists None|by exists (Some error)]. Qed.
Lemma at_finish stage c error preserve o :
  starts_nothing o = true ->
  at_pc (Finishing stage c error preserve) (bind (finish_at stage c error preserve) (fun _ => Ret o)).
Proof. intros [e ->]%starts_nothing_eq. constructor. Qed.
Lemma at_finish_then {A} stage c error preserve (q : Prog A) (K : A -> Prog Outcome) (r : A) o :
  q = bind (finish_at stage c error preserve) (fun _ => Ret r) -> K r = Ret o -> starts_nothing o = true ->
  at_pc (Finishing stage c error preserve) (bind q K).
Proof. intros -> HK Ho. rewrite bind_bind. simpl. rewrite HK. by apply at_finish. Qed.

Ltac prog_norm Hs :=
  repeat first
    [ rewrite bind_bind in Hs
    | rewrite step_ask in Hs; destruct Hs as [? Hs]
    | rewrite step_atomic in Hs | rewrite step_change in Hs
    | match type of Hs with context [bind (Ret ?a) ?k] => change (bind (Ret a) k) with (k a) in Hs; cbv beta in Hs end ].

Lemma sim_finishing stage c error preserve o m lock p' m' op :
  prog_step (bind (finish_at stage c error preserve) (fun _ => Ret (not_started o))) m p' m' op ->
  exists pc', task_step settings t server m lock (Finishing stage c error preserve) m' lock pc' op /\ at_pc pc' p'.
Proof.
  intros Hs. destruct stage.
  { unfold finish_at, finish_build_inner in Hs. prog_norm Hs.
    match type of Hs with context [finish_update settings server c t error preserve ?now m] =>
      destruct (finish_update settings server c t error preserve now m) as [m1 owns] eqn:E end.
    destruct Hs as (-> & -> & ->). eexists. split; [by eapply step_finish_update|].
    destruct owns; [|constructor]. apply (at_finishing Persist c error preserve). }
  all: unfold finish_at, finish_from in Hs; prog_norm Hs; destruct Hs as (-> & -> & ->);
    (eexists; split;
      [first [match goal with w : option string |- context [finish_op _ _ ?x _] =>
                eapply (step_finish_stage _ _ _ _ _ _ _ _ x); [done|reflexivity] end
             |eapply step_finish_stage with (write_error := None); [done|reflexivity]]|]).
  - apply (at_finishing Overlays).
  - apply (at_finishing Owner).
  - apply (at_finishing ActiveBuild).
  - apply (at_finishing BuildLock).
  - apply (at_finishing TakeBuild).
  - apply (at_finishing PendingCancel).
  - constructor.
Qed.

Definition simulated (pc : Pc) (p : Prog Outcome) : Prop :=
  forall m lock p' m' op, prog_step p m p' m' op ->
  exists pc', task_step settings t server m lock pc m' lock pc' op /\ at_pc pc' p'.

Lemma sim_recording error o :
  simulated (Recording error) (bind (record_start_failure settings t server error) (fun r => Ret (Err (o r)))).
Proof.
  intros m lock p' m' op Hs. unfold record_start_failure, database_write in Hs. prog_norm Hs.
  destruct Hs as (-> & -> & ->). eexists. split; [by eapply step_record|].
  match goal with |- at_pc _ (bind (finish_build_owned _ _ _ _) ?K) => by apply (at_finish Update None (Some error) false) end.
Qed.

Lemma sim_start_failed error :
  simulated (StartFailed error) (bind (start_failed settings t server error) (after_start settings t server)).
Proof.
  intros m lock p' m' op Hs. unfold start_failed in Hs. prog_norm Hs. destruct Hs as (-> & -> & ->).
  eexists. split; [by eapply step_start_failed|]. unfold after_take. destruct (take_pending_cancel server m).2.
  - eapply (at_finish_then Update); done.
  - by apply at_recording_refuse.
Qed.

Lemma sim_started answer m lock p' m' op :
  prog_step (bind (started settings t server answer) (after_start settings t server)) m p' m' op ->
  exists pc', task_step settings t server m lock Starting m' lock pc' op /\ at_pc pc' p'.
Proof.
  intros Hs. destruct answer as [cancelled|error]; unfold started in Hs; prog_norm Hs.
  - unfold new_inventory_control in Hs. prog_norm Hs. destruct Hs as (-> & -> & ->).
    match goal with |- context [if ?d then _ else _] => set (c := if d then _ else _) end.
    exists (Pacing c). split; [|constructor]. apply step_start_ok. unfold c. case_decide; [done|].
    apply not_elem_of_dom, is_fresh.
  - destruct Hs as (-> & -> & ->). eexists. split; [apply step_start_error|constructor].
Qed.

Lemma sim_start_with coordinated m lock p' m' op :
  prog_step (bind (start_with settings t server coordinated) (after_start settings t server)) m p' m' op ->
  exists pc', task_step settings t server m lock Starting m' lock pc' op /\ at_pc pc' p'.
Proof.
  assert (Hfull : prog_step (bind (bind (opc_call settings bool "start inventory") (started settings t server))
      (after_start settings t server)) m p' m' op ->
    exists pc', task_step settings t server m lock Starting m' lock pc' op /\ at_pc pc' p').
  { intros Hs. unfold opc_call in Hs. prog_norm Hs. by eapply sim_started. }
  destruct coordinated as [[world|]|error]; [|exact Hfull..]. apply sim_started.
Qed.

Lemma sim_starting now : simulated Starting (refresh_reserved settings t server now).
Proof.
  intros m lock p' m' op Hs. unfold refresh_reserved, start_refresh_inventory in Hs.
  destruct (cfg_inventory_root settings).
  { unfold opc_call in Hs. prog_norm Hs. by eapply sim_started. }
  destruct (1 <? cfg_worker_count settings).
  - unfold start_coordinated_inventory, discover, opc_call in Hs. prog_norm Hs. by eapply sim_start_with.
  - exact (sim_start_with (Ok None) _ _ _ _ _ Hs).
Qed.

Lemma sim_pacing c :
  simulated (Pacing c) (bind (attach_refresh_control settings t server c) (after_attach settings t server c)).
Proof.
  intros m lock p' m' op Hs. unfold attach_refresh_control, is_cancelled_now in Hs. prog_norm Hs.
  destruct Hs as (-> & -> & ->). destruct x as [error|]; eexists.
  - split; [by apply step_pace_error|constructor].
  - split; [apply step_pace|constructor].
Qed.

Lemma sim_pacing_failed c before error :
  simulated (PacingFailed c before error)
    (bind (pacing_failed settings t server c before error) (after_attach settings t server c)).
Proof.
  intros m lock p' m' op Hs. unfold pacing_failed, give_up_control in Hs. prog_norm Hs.
  destruct Hs as (-> & -> & ->). eexists. split; [by apply step_pacing_failed|]. unfold after_take.
  destruct (_ || _).
  - by eapply (at_finish_then Update).
  - by apply at_recording_refuse.
Qed.

Lemma sim_attaching c before :
  simulated (Attaching c before) (bind (attach settings t server c before) (after_attach settings t server c)).
Proof.
  intros m lock p' m' op Hs. unfold attach in Hs. prog_norm Hs. destruct Hs as (-> & -> & ->).
  eexists. split; [apply step_attach|]. destruct (running_build m server); constructor.
Qed.

Lemma sim_attach_failed c before :
  simulated (AttachFailed c before)
    (bind (attach_failed settings t server c before) (after_attach settings t server c)).
Proof.
  intros m lock p' m' op Hs. unfold attach_failed, give_up_control in Hs. prog_norm Hs.
  destruct Hs as (-> & -> & ->). eexists. split; [by apply step_attach_failed|]. unfold after_take.
  destruct (_ || _); by eapply (at_finish_then Update).
Qed.

Lemma sim_taking_cancel c before :
  simulated (TakingCancel c before)
    (bind (take_cancel settings t server c before) (after_attach settings t server c)).
Proof.
  intros m lock p' m' op Hs. unfold take_cancel in Hs. prog_norm Hs. destruct Hs as (-> & -> & ->).
  eexists. split; [by apply step_take_cancel|]. destruct (take_pending_cancel server m).2.
  - by eapply (at_finish_then Update).
  - constructor.
Qed.

Lemma sim_attached c before : simulated (Attached c before) (attached settings t server c before).
Proof.
  intros m lock p' m' op Hs. unfold attached in Hs. prog_norm Hs. destruct Hs as (-> & -> & ->).
  eexists. split; [by apply step_attached|]. destruct (shutting_down m).
  - by apply (at_finish Update None None false).
  - constructor.
Qed.

Lemma sim_probing c before :
  simulated (Probing c before)
    (bind (start_refresh_generation settings t server c before) (after_generation settings t server c before)).
Proof.
  intros m lock p' m' op Hs. unfold start_refresh_generation, opc_call in Hs. prog_norm Hs.
  destruct Hs as (-> & -> & ->). destruct (with_opc_timeout _ _ _) as [[organization source]|error]; eexists.
  - split; [by apply step_probe|constructor].
  - split; [by apply step_probe_error|constructor].
Qed.

Lemma sim_start_refused c before error :
  simulated (StartRefused c before error)
    (bind (start_refused settings t server c before error) (after_generation settings t server c before)).
Proof.
  intros m lock p' m' op Hs. unfold start_refused in Hs. prog_norm Hs. destruct Hs as (-> & -> & ->).
  eexists. split; [by apply step_start_refused|]. destruct (negb before && is_cancelled m c).
  - by eapply (at_finish_then Update).
  - by apply at_recording_refuse.
Qed.

Lemma sim_generating c before organization source :
  simulated (Generating c before organization source)
    (bind (generate settings t server c before organization source) (after_generation settings t server c before)).
Proof.
  intros m lock p' m' op Hs. unfold generate in Hs. prog_norm Hs.
  destruct x0 as [error|]; [destruct Hs as (-> & -> & ->)|destruct (start_generation _ _ _ _ _).2 as [generation|error] eqn:E;
    destruct Hs as (-> & -> & ->)]; eexists.
  - split; [by apply step_generate_error|constructor].
  - split; [by apply step_generate|constructor].
  - split; [by apply step_generate_error|constructor].
Qed.

Lemma sim_launching c before generation :
  simulated (Launching c before generation)
    (bind (launch_refresh_build settings t server c generation before) (after_launch c generation)).
Proof.
  intros m lock p' m' op Hs. unfold launch_refresh_build in Hs. prog_norm Hs.
  case_bool_decide as Hc; destruct Hs as (-> & -> & ->); eexists.
  - split; [by apply step_launch|constructor].
  - split; [by apply step_launch_lost|constructor].
Qed.

Lemma sim_launched c before generation :
  simulated (Launched c before generation)
    (bind (launched settings t server c generation before) (after_launch c generation)).
Proof.
  intros m lock p' m' op Hs. unfold launched in Hs. prog_norm Hs. destruct Hs as (-> & -> & ->).
  eexists. split; [by apply step_launched|]. destruct (negb before && is_cancelled m c); constructor.
Qed.

Lemma sim_readying c generation :
  simulated (Readying c generation)
    (bind (ready_build settings t server c generation) (after_launch c generation)).
Proof.
  intros m lock p' m' op Hs. unfold ready_build in Hs. prog_norm Hs. destruct Hs as (-> & -> & ->).
  eexists. split; [by apply step_ready|]. destruct (shutting_down m); constructor.
Qed.

Lemma sim_spawning c generation :
  simulated (Spawning c generation)
    (bind (spawn_build settings t server c generation) (after_launch c generation)).
Proof.
  intros m lock p' m' op Hs. unfold spawn_build in Hs. prog_norm Hs. destruct Hs as (-> & -> & ->).
  eexists. split; [by apply step_spawn_build|]. destruct (shutting_down m); constructor.
Qed.

Lemma at_abandon_rest c0 generation0 c error :
  at_pc (Finishing Update c error false)
    (bind (finish_build_inner settings t server c error false)
       (fun _ => after_launch c0 generation0 (match error with Some error => Err error | None => Ok false end))).
Proof. apply (at_finish Update). by destruct error. Qed.
Lemma at_failing_rest c0 generation0 generation reason c error :
  at_pc (FailingGeneration generation reason c error)
    (bind (fail_generation_and_schedule_cleanup server generation reason)
       (fun _ => bind (finish_build_inner settings t server c error false)
          (fun _ => after_launch c0 generation0 (match error with Some error => Err error | None => Ok false end)))).
Proof. destruct error as [e|]; [apply (at_failing _ _ _ _ (Some e))|apply (at_failing _ _ _ _ None)]. Qed.

Lemma sim_discarding c0 generation0 generation reason c error :
  simulated (Discarding generation reason c error)
    (bind (abandon settings t server generation reason c error) (after_launch c0 generation0)).
Proof.
  intros m lock p' m' op Hs. unfold abandon, abandon_generation, database_write in Hs. prog_norm Hs.
  destruct Hs as (-> & -> & ->). eexists. split; [by eapply step_discard|].
  destruct x as [failure|]; [exact (at_abandon_rest c0 generation0 c error)|].
  destruct (discard_empty_generation (database m) server generation).2 as [[|]|];
    [exact (at_abandon_rest c0 generation0 c error)| |exact (at_abandon_rest c0 generation0 c error)].
  exact (at_failing_rest c0 generation0 generation reason c error).
Qed.

Lemma sim_failing generation reason c error o :
  simulated (FailingGeneration generation reason c error)
    (bind (fail_generation_and_schedule_cleanup server generation reason)
       (fun _ => bind (finish_build_inner settings t server c error false) (fun _ => Ret (not_started o)))).
Proof.
  intros m lock p' m' op Hs. unfold fail_generation_and_schedule_cleanup, database_write in Hs. prog_norm Hs.
  destruct Hs as (-> & -> & ->). eexists. split; [by eapply step_fail_generation|].
  apply (at_finishing Update).
Qed.

Lemma startup_simulates pc p : at_pc pc p -> starting pc = true -> simulated pc p.
Proof.
  intros Hat. destruct Hat; intros Hst; try done.
  - apply sim_starting.
  - apply sim_start_failed.
  - apply sim_recording.
  - apply sim_pacing.
  - apply sim_pacing_failed.
  - apply sim_attaching.
  - apply sim_attach_failed.
  - apply sim_taking_cancel.
  - apply sim_attached.
  - apply sim_probing.
  - apply sim_start_refused.
  - apply sim_generating.
  - apply sim_launching.
  - apply sim_launched.
  - apply sim_readying.
  - apply sim_spawning.
  - apply sim_discarding.
  - apply sim_failing.
  - intros m lock p' m' op. apply sim_finishing.
Qed.

(** ** The machine has no other steps *)

Definition complete (pc : Pc) (p : Prog Outcome) : Prop :=
  forall m lock pc' m' lock' op, task_step settings t server m lock pc m' lock' pc' op ->
  lock' = lock /\ exists p', prog_step p m p' m' op /\ at_pc pc' p'.

Ltac goal_norm :=
  repeat first
    [ rewrite bind_bind
    | match goal with |- context [bind (Ret ?a) ?k] => change (bind (Ret a) k) with (k a); cbv beta end ].
Ltac answer a := goal_norm; rewrite step_ask; exists a; goal_norm.
(** The program takes the step that the machine took. *)
Ltac stepped := goal_norm; first [rewrite step_change | rewrite step_atomic]; cbv zeta beta iota; split_and!; reflexivity.

Lemma com_starting now : complete Starting (refresh_reserved settings t server now).
Proof.
  assert (Hanswer : forall r m p' m' op,
    prog_step (bind (started settings t server r) (after_start settings t server)) m p' m' op ->
    prog_step (refresh_reserved settings t server now) m p' m' op).
  { intros r m p' m' op Hs. unfold refresh_reserved, start_refresh_inventory.
    destruct (cfg_inventory_root settings).
    { unfold opc_call. answer (Some r). exact Hs. }
    destruct (1 <? cfg_worker_count settings).
    - unfold start_coordinated_inventory, discover, opc_call. answer (Some (Err "" : result BrowseCapabilities string)).
      answer (@None (result string string)). answer (@None (result BrowsePage string)). answer (@None (result unit string)).
      cbn [with_opc_timeout discover_inventory_roots result_bind]. unfold start_with, opc_call.
      answer (Some r). exact Hs.
    - goal_norm. unfold start_with, opc_call. answer (Some r). exact Hs. }
  intros m lock pc' m' lock' op Hs. inversion Hs; subst; (split; [done|]).
  - exists (bind (attach_refresh_control settings t server c) (after_attach settings t server c)).
    split; [|constructor]. apply (Hanswer (Ok cancelled)). unfold started, new_inventory_control. answer c.
    rewrite step_atomic. rewrite decide_True by done. done.
  - exists (bind (start_failed settings t server error) (after_start settings t server)).
    split; [|constructor]. apply (Hanswer (Err error)). unfold started. stepped.
Qed.

Lemma com_finishing stage c error preserve o :
  complete (Finishing stage c error preserve) (bind (finish_at stage c error preserve) (fun _ => Ret (not_started o))).
Proof.
  intros m lock pc' m' lock' op Hs. inversion Hs; subst; (split; [done|]).
  - match goal with Hf : finish_update _ _ _ _ _ _ ?now _ = _ |- _ => rename Hf into Hu;
      eexists; split; [unfold finish_at, finish_build_inner; answer now|] end.
    + rewrite step_atomic, Hu. done.
    + destruct owns; [|constructor]. apply (at_finishing Persist c error preserve).
  - match goal with Hf : finish_stage _ _ _ ?w _ = _ |- _ => rename Hf into Hu; rename w into e end.
    destruct stage; [done|..]; injection Hu as <- <-; eexists;
      (split; [unfold finish_at, finish_from; first [answer e; stepped|stepped]|]).
    + apply (at_finishing Overlays).
    + apply (at_finishing Owner).
    + apply (at_finishing ActiveBuild).
    + apply (at_finishing BuildLock).
    + apply (at_finishing TakeBuild).
    + apply (at_finishing PendingCancel).
    + constructor.
Qed.
Lemma com_start_failed error :
  complete (StartFailed error) (bind (start_failed settings t server error) (after_start settings t server)).
Proof.
  intros m lock pc' m' lock' op Hs. inversion Hs; subst; (split; [done|]).
  eexists. split; [unfold start_failed; stepped|]. unfold after_take. destruct (take_pending_cancel server m).2.
  - by eapply (at_finish_then Update).
  - by apply at_recording_refuse.
Qed.

Lemma com_recording error o :
  complete (Recording error) (bind (record_start_failure settings t server error) (fun r => Ret (Err (o r)))).
Proof.
  intros m lock pc' m' lock' op Hs. inversion Hs; subst; (split; [done|]).
  destruct failed; eexists;
    (split; [unfold record_start_failure, database_write; answer now;
       first [answer (Some ""); stepped|answer (@None string); stepped]|]);
    goal_norm; by apply (at_finish Update None (Some error) false).
Qed.

Lemma com_pacing c :
  complete (Pacing c) (bind (attach_refresh_control settings t server c) (after_attach settings t server c)).
Proof.
  intros m lock pc' m' lock' op Hs. inversion Hs; subst; (split; [done|]).
  - eexists. split; [unfold attach_refresh_control, is_cancelled_now; answer (@None string); stepped|]. constructor.
  - eexists. split; [unfold attach_refresh_control, is_cancelled_now; answer (Some error); stepped|]. constructor.
Qed.

Lemma com_pacing_failed c before error :
  complete (PacingFailed c before error) (bind (pacing_failed settings t server c before error) (after_attach settings t server c)).
Proof.
  intros m lock pc' m' lock' op Hs. inversion Hs; subst; (split; [done|]).
  eexists. split; [unfold pacing_failed, give_up_control; stepped|]. unfold after_take. destruct (_ || _).
  - by eapply (at_finish_then Update).
  - by apply at_recording_refuse.
Qed.

Lemma com_attaching c before :
  complete (Attaching c before) (bind (attach settings t server c before) (after_attach settings t server c)).
Proof.
  intros m lock pc' m' lock' op Hs. inversion Hs; subst; (split; [done|]).
  eexists. split; [unfold attach; stepped|]. destruct (running_build m server); constructor.
Qed.

Lemma com_attach_failed c before :
  complete (AttachFailed c before) (bind (attach_failed settings t server c before) (after_attach settings t server c)).
Proof.
  intros m lock pc' m' lock' op Hs. inversion Hs; subst; (split; [done|]).
  eexists. split; [unfold attach_failed, give_up_control; stepped|]. unfold after_take.
  destruct (_ || _); by eapply (at_finish_then Update).
Qed.

Lemma com_taking_cancel c before :
  complete (TakingCancel c before) (bind (take_cancel settings t server c before) (after_attach settings t server c)).
Proof.
  intros m lock pc' m' lock' op Hs. inversion Hs; subst; (split; [done|]).
  eexists. split; [unfold take_cancel; stepped|]. destruct (take_pending_cancel server m).2.
  - by eapply (at_finish_then Update).
  - constructor.
Qed.

Lemma com_attached c before :
  complete (Attached c before) (attached settings t server c before).
Proof.
  intros m lock pc' m' lock' op Hs. inversion Hs; subst; (split; [done|]).
  eexists. split; [unfold attached; stepped|]. destruct (shutting_down m).
  - by apply (at_finish Update None None false).
  - constructor.
Qed.

Lemma com_probing c before :
  complete (Probing c before) (bind (start_refresh_generation settings t server c before) (after_generation settings t server c before)).
Proof.
  intros m lock pc' m' lock' op Hs. inversion Hs; subst; (split; [done|]).
  - eexists. split; [unfold start_refresh_generation, opc_call; answer (Some (Ok (organization, source) : result _ string)); stepped|].
    constructor.
  - eexists. split; [unfold start_refresh_generation, opc_call; answer (Some (Err error : result (NamespaceOrganization * BrowseSource) string)); stepped|].
    constructor.
Qed.

Lemma com_start_refused c before error :
  complete (StartRefused c before error) (bind (start_refused settings t server c before error) (after_generation settings t server c before)).
Proof.
  intros m lock pc' m' lock' op Hs. inversion Hs; subst; (split; [done|]).
  eexists. split; [unfold start_refused; stepped|]. destruct (negb before && is_cancelled m c).
  - by eapply (at_finish_then Update).
  - by apply at_recording_refuse.
Qed.

Lemma com_generating c before organization source :
  complete (Generating c before organization source) (bind (generate settings t server c before organization source) (after_generation settings t server c before)).
Proof.
  intros m lock pc' m' lock' op Hs. inversion Hs; subst; (split; [done|]).
  - match goal with E : _.2 = Ok generation |- _ => rename E into Hg end.
    eexists. split; [unfold generate; answer now; answer (@None string); rewrite step_atomic, Hg; split_and!; reflexivity|].
    constructor.
  - eexists. split; [unfold generate; answer 0; answer (Some error); stepped|]. constructor.
Qed.

Lemma com_launching c before generation :
  complete (Launching c before generation) (bind (launch_refresh_build settings t server c generation before) (after_launch c generation)).
Proof.
  intros m lock pc' m' lock' op Hs. inversion Hs; subst; (split; [done|]).
  - eexists. split; [unfold launch_refresh_build; goal_norm; rewrite step_atomic, bool_decide_eq_true_2 by done; done|].
    constructor.
  - eexists. split; [unfold launch_refresh_build; goal_norm; rewrite step_atomic, bool_decide_eq_false_2 by done; done|].
    constructor.
Qed.

Lemma com_launched c before generation :
  complete (Launched c before generation) (bind (launched settings t server c generation before) (after_launch c generation)).
Proof.
  intros m lock pc' m' lock' op Hs. inversion Hs; subst; (split; [done|]).
  eexists. split; [unfold launched; answer now; stepped|]. destruct (negb before && is_cancelled m c); constructor.
Qed.

Lemma com_readying c generation :
  complete (Readying c generation) (bind (ready_build settings t server c generation) (after_launch c generation)).
Proof.
  intros m lock pc' m' lock' op Hs. inversion Hs; subst; (split; [done|]).
  eexists. split; [unfold ready_build; stepped|]. destruct (shutting_down m); constructor.
Qed.

Lemma com_spawning c generation :
  complete (Spawning c generation) (bind (spawn_build settings t server c generation) (after_launch c generation)).
Proof.
  intros m lock pc' m' lock' op Hs. inversion Hs; subst; (split; [done|]).
  eexists. split; [unfold spawn_build; stepped|]. destruct (shutting_down m); constructor.
Qed.

Lemma com_discarding c0 generation0 generation reason c error :
  complete (Discarding generation reason c error) (bind (abandon settings t server generation reason c error) (after_launch c0 generation0)).
Proof.
  intros m lock pc' m' lock' op Hs. inversion Hs; subst; (split; [done|]).
  destruct failed.
  - eexists. split; [unfold abandon, abandon_generation, database_write; answer (Some ""); stepped|].
    exact (at_abandon_rest c0 generation0 c error).
  - eexists. split; [unfold abandon, abandon_generation, database_write; answer (@None string); stepped|].
    destruct (discard_empty_generation (database m) server generation).2 as [[|]|];
      [exact (at_abandon_rest c0 generation0 c error)| |exact (at_abandon_rest c0 generation0 c error)].
    exact (at_failing_rest c0 generation0 generation reason c error).
Qed.

Lemma com_failing generation reason c error o :
  complete (FailingGeneration generation reason c error) (bind (fail_generation_and_schedule_cleanup server generation reason)
    (fun _ => bind (finish_build_inner settings t server c error false) (fun _ => Ret (not_started o)))).
Proof.
  intros m lock pc' m' lock' op Hs. inversion Hs; subst; (split; [done|]).
  destruct failed; eexists;
    (split; [unfold fail_generation_and_schedule_cleanup, database_write;
       first [answer (Some ""); stepped|answer (@None string); stepped]|]);
    goal_norm; apply (at_finishing Update).
Qed.

Lemma startup_complete pc p : at_pc pc p -> starting pc = true -> complete pc p.
Proof.
  intros Hat. destruct Hat; intros Hst; try done.
  - apply com_starting.
  - apply com_start_failed.
  - apply com_recording.
  - apply com_pacing.
  - apply com_pacing_failed.
  - apply com_attaching.
  - apply com_attach_failed.
  - apply com_taking_cancel.
  - apply com_attached.
  - apply com_probing.
  - apply com_start_refused.
  - apply com_generating.
  - apply com_launching.
  - apply com_launched.
  - apply com_readying.
  - apply com_spawning.
  - apply com_discarding.
  - apply com_failing.
  - apply com_finishing.
Qed.

(** ** Among the other tasks *)

(** The program of task [t], started where a reservation has ended, with the other tasks, requests and the
    shutdown of the lifecycle in between: the manager, the other tasks, and the lock of [deleting]. *)
Inductive corun (db : IndexDb) : Manager -> gmap nat Task -> option nat -> Prog Outcome -> Prop :=
| corun_start w now :
    reachable settings db w -> tasks w !! t = Some (mk_task server Starting) ->
    corun db (manager w) (delete t (tasks w)) (deleting_lock w) (refresh_reserved settings t server now)
| corun_other m others lock p l op w' :
    corun db m others lock p -> step settings (mk_lifecycle m others lock) l op w' -> tasks w' !! t = None ->
    corun db (manager w') (tasks w') (deleting_lock w') p
| corun_prog m others lock p m' op p' :
    corun db m others lock p -> prog_step p m p' m' op -> corun db m' others lock p'.

(** A step of the others is a step with [t] among them. *)
Lemma step_beside m others lock l op w' task :
  step settings (mk_lifecycle m others lock) l op w' -> tasks w' !! t = None ->
  step settings (mk_lifecycle m (<[t := task]> others) lock) l op
    (mk_lifecycle (manager w') (<[t := task]> (tasks w')) (deleting_lock w')).
Proof.
  intros Hs Hn. inversion Hs as [t2 s2 pc Hf Hi|t2 s2 pc m2 lock2 pc' op' Ht Htask|m2 op' Hr]; subst; simpl in *.
  - apply lookup_insert_None in Hn as [_ Hne]. rewrite insert_insert_ne by done.
    exact (step_new settings (mk_lifecycle m (<[t:=task]> others) lock) t2 s2 pc
             (eq_trans (lookup_insert_ne _ _ _ _ (not_eq_sym Hne)) Hf) Hi).
  - apply lookup_insert_None in Hn as [_ Hne]. rewrite insert_insert_ne by done.
    exact (step_task settings (mk_lifecycle m (<[t:=task]> others) lock) t2 s2 pc _ _ _ _
             (eq_trans (lookup_insert_ne _ _ _ _ (not_eq_sym Hne)) Ht) Htask).
  - exact (step_request settings (mk_lifecycle m (<[t:=task]> others) lock) _ _ Hr).
Qed.

Lemma stopped_pc pc p m p' m' op : at_pc pc p -> prog_step p m p' m' op -> starting pc = true.
Proof. by intros []. Qed.

Lemma returned_pc pc o : at_pc pc (Ret o) -> starting pc = false.
Proof.
  intros Hat. remember (Ret o) as p eqn:E. destruct Hat; try done; try discriminate E; exfalso.
  - revert E. unfold refresh_reserved, start_refresh_inventory. destruct (cfg_inventory_root settings); [done|].
    by destruct (1 <? cfg_worker_count settings).
  - by destruct stage.
Qed.

Lemma corun_inv db m others lock p :
  corun db m others lock p ->
  others !! t = None /\
  exists pc, reachable settings db (mk_lifecycle m (<[t := mk_task server pc]> others) lock) /\ at_pc pc p.
Proof.
  induction 1 as [w now Hr Ht|m others lock p l op w' _ [_ (pc & Hr & Hat)] Hs Hn|
    m others lock p m' op p' _ [Hn (pc & Hr & Hat)] Hs].
  - split; [by rewrite lookup_delete_eq|]. exists Starting. rewrite insert_delete_id by done. by destruct w; split; [|constructor].
  - split; [done|]. exists pc. split; [|done]. eapply reachable_next; [exact Hr|]. by eapply step_beside.
  - split; [done|]. destruct (startup_simulates pc p Hat (stopped_pc _ _ _ _ _ _ Hat Hs) _ lock _ _ _ Hs) as (pc' & Htask & Hat').
    exists pc'. split; [|done]. eapply reachable_next; [exact Hr|].
    rewrite <- (insert_insert_eq others t (mk_task server pc') (mk_task server pc)).
    exact (step_task settings (mk_lifecycle m (<[t:=mk_task server pc]> others) lock) t server pc _ _ _ _
             (lookup_insert_eq _ _ _) Htask).
Qed.

(** C8: the start of a build, as the code is written, is the machine whose properties the lifecycle
    is proved with. Whatever runs between its critical sections, the program of a reserved refresh is at
    a point of the machine in a reachable state, each of its steps is the machine's step with the same
    manager and the same write, and the machine has no other step there. When it returns a
    running build, that build is registered as active and owned by this task, with the
    control it answers; when it returns anything else, this task owns no build any more. *)
Theorem startup_refines_lifecycle db m others lock p :
  corun db m others lock p ->
  (exists pc,
     reachable settings db (mk_lifecycle m (<[t := mk_task server pc]> others) lock) /\ at_pc pc p /\
     (forall p' m' op, prog_step p m p' m' op ->
        exists pc', task_step settings t server m lock pc m' lock pc' op /\ at_pc pc' p') /\
     (starting pc = true -> forall pc' m' lock' op, task_step settings t server m lock pc m' lock' pc' op ->
        lock' = lock /\ exists p', prog_step p m p' m' op /\ at_pc pc' p')) /\
  (forall c generation, p = Ret (Ok (Some (c, generation))) ->
     server ∈ active_builds m /\ build_owners m !! server = Some t /\
     forall b, running_build m server = Some b -> Status.control b = Some c) /\
  (forall o, p = Ret o -> starts_nothing o = true -> build_owners m !! server <> Some t).
Proof.
  intros [Hn (pc & Hr & Hat)]%corun_inv. split_and!.
  - exists pc. split; [done|]. split; [done|]. split.
    + intros p' m' op Hs. by eapply startup_simulates, Hs; [|eapply stopped_pc].
    + intros Hst pc' m' lock' op. by apply startup_complete.
  - intros c generation ->.
    assert (Hpc : pc = Building c generation).
    { pose proof (returned_pc _ _ Hat) as Hst. remember (Ret _) as p eqn:E.
      destruct Hat; try done; [by injection E as <- <-|by destruct o]. }
    subst pc. apply lifecycle_reachable_inv in Hr. pose proof (inv_owner _ _ Hr server t) as Ho. simpl in Ho.
    assert (Ht : at_task (mk_lifecycle m (<[t:=mk_task server (Building c generation)]> others) lock) t server (Building c generation))
      by (unfold at_task; simpl; by rewrite lookup_insert_eq).
    split; [|split].
    + apply (inv_active _ _ Hr). exists t. by eexists.
    + apply Ho. by eexists.
    + intros b. by apply (inv_attached _ _ Hr server t (Building c generation)).
  - intros o -> Ho Hown. apply lifecycle_reachable_inv in Hr. apply (inv_owner _ _ Hr server t) in Hown as (pc1 & Ht1 & Hown).
    unfold at_task in Ht1. simpl in Ht1. rewrite lookup_insert_eq in Ht1. injection Ht1 as <-.
    pose proof (returned_pc _ _ Hat) as Hst. remember (Ret o) as p eqn:E.
    destruct Hat; try done. injection E as <-. done.
Qed.
End StartupSpec.

(** ** A demonstration

    A reserved refresh whose inventory the client starts. *)

Definition demo_reserved : Lifecycle :=
  demo_after (ActEnroll "plc" :: ActNew 1 "plc" false :: replicate 3 (ActAdvance 1)).
Lemma demo_reserved_task : tasks demo_reserved !! 1%nat = Some (mk_task "plc" Starting).
Proof. vm_compute. reflexivity. Qed.
Lemma demo_reserved_reachable : reachable (H := ascii_text) demo_settings empty_db demo_reserved.
Proof. apply demo_after_reachable. vm_compute. reflexivity. Qed.

Definition demo_controlled : Manager :=
  set_build_controls (manager demo_reserved)
    (<[7%nat := {| control_cancelled := false; control_paused := false |}]> (build_controls (manager demo_reserved))).
Definition demo_attaching : Prog Outcome :=
  bind (attach_refresh_control (H := ascii_text) demo_settings 1 "plc" 7)
    (after_attach (H := ascii_text) demo_settings 1 "plc" 7).
Lemma demo_corun :
  corun (H := ascii_text) demo_settings 1 "plc" empty_db demo_controlled (delete 1%nat (tasks demo_reserved))
    (deleting_lock demo_reserved) demo_attaching.
Proof.
  eapply corun_prog; [exact (corun_start _ _ _ _ demo_reserved 0 demo_reserved_reachable demo_reserved_task)|].
  destruct (startup_complete (H := ascii_text) demo_settings 1 "plc" Starting
    (refresh_reserved (H := ascii_text) demo_settings 1 "plc" 0)) with
    (m := manager demo_reserved) (lock := @None nat) (pc' := Pacing 7) (m' := demo_controlled) (lock' := @None nat)
    (op := @None db_op) as [_ (p' & Hs & Hat)]; [constructor|done|..].
  - apply (step_start_ok (H := ascii_text) demo_settings 1 "plc" (manager demo_reserved) 7 false). vm_compute. reflexivity.
  - assert (p' = demo_attaching) as -> by (inversion Hat; subst; done). exact Hs.
Qed.

Lemma startup_refines_lifecycle_witness :
  exists pc,
    reachable (H := ascii_text) demo_settings empty_db
      (mk_lifecycle demo_controlled (<[1%nat := mk_task "plc" pc]> (delete 1%nat (tasks demo_reserved)))
         (deleting_lock demo_reserved)) /\
    at_pc (H := ascii_text) demo_settings 1 "plc" pc demo_attaching.
Proof.
  destruct (startup_refines_lifecycle (H := ascii_text) demo_settings 1 "plc" empty_db _ _ _ _ demo_corun)
    as [(pc & Hr & Hat & _) _].
  exists pc. split; [exact Hr|exact Hat].
Defined.
