(* ===== verification/Observation.v ===== *)
(** * What the adaptive controller observes (controller.rs, index/traversal.rs)

    [controller_observation] gathers the foreground measurements, the health of the server, the
    latency of the last commit, the disk and the host into one observation. Each registry is read under its own
    lock, so each at a moment of its own. The counters of the operating system and the clocks are
    inputs. *)
From S2P Require Import Prelude Text Schedule Controller Config Opc Store Status Build Manager Requests.

(** ** Host metrics *)

Record SystemCounters := { busy_ticks : Z; total_ticks : Z }.
Record ProcessCounters := { read_bytes : Z; write_bytes : Z }.
Record WindowsMetricsState := {
  sampled_at : option Z;
  system : option SystemCounters;
  process : option ProcessCounters;
  latest : HostMetrics
}.
Definition default_metrics_state : WindowsMetricsState :=
  {| sampled_at := None; system := None; process := None; latest := default_host_metrics |}.

Definition filetime_ticks (low high : Z) : Z := Z.lor low (Z.shiftl high 32).
(** [collect_system] on the three times that [GetSystemTimes] answers *)
Definition collect_system (times : option (Z * Z * Z)) : option SystemCounters :=
  '(idle, kernel, user) ← times;
  let total := saturating_add 64 kernel user in
  Some {| busy_ticks := saturating_sub total idle; total_ticks := total |}.
(** [collect_memory] on the available and the total memory *)
Definition collect_memory (memory : option (Z * Z)) : option f64 :=
  '(available, total) ← memory;
  if total =? 0 then None
  else Some (f64_div (f64_mul (f64_of_Z available) (f64_of_Z 100)) (f64_of_Z total)).

(** [as u64] of a double *)
Definition f64_as_u64 (x : f64) : Z :=
  match x with
  | S754_finite false m e =>
      Z.min (umax 64) (if 0 <=? e then Z.pos m * 2 ^ e else Z.pos m / 2 ^ (- e))
  | S754_infinity false => umax 64
  | _ => 0
  end.

(** What the operating system answers to one collection. *)
Record HostReading := {
  read_system : option SystemCounters;
  read_memory : option f64;
  read_working_set : option Z;
  read_private_bytes : option Z;
  read_process : option ProcessCounters;
  read_disk_free : option Z
}.

Definition cpu_percent (previous current : option SystemCounters) : option f64 :=
  p ← previous; c ← current;
  let total := saturating_sub (total_ticks c) (total_ticks p) in
  let busy := saturating_sub (busy_ticks c) (busy_ticks p) in
  if 0 <? total then Some (f64_div (f64_mul (f64_of_Z busy) (f64_of_Z 100)) (f64_of_Z total)) else None.
Definition transfer_rates (previous current : option ProcessCounters) (elapsed : option Z) : option (Z * Z) :=
  p ← previous; c ← current; elapsed ← elapsed;
  let seconds := as_secs_f64 elapsed in
  if negb (SFltb (f64_of_Z 0) seconds) then None
  else Some (f64_as_u64 (f64_div (f64_of_Z (saturating_sub (read_bytes c) (read_bytes p))) seconds),
             f64_as_u64 (f64_div (f64_of_Z (saturating_sub (write_bytes c) (write_bytes p))) seconds)).

Definition host_snapshot (now : Z) (reading : HostReading) (state : WindowsMetricsState) :
    WindowsMetricsState * HostMetrics :=
  let rates :=
    transfer_rates (process state) (read_process reading) (saturating_since now <$> sampled_at state) in
  let metrics :=
    {| hm_cpu_percent := cpu_percent (system state) (read_system reading);
       hm_available_memory_percent := read_memory reading;
       hm_disk_active_percent := None; hm_disk_queue := None;
       hm_process_working_set_bytes := read_working_set reading;
       hm_process_private_bytes := read_private_bytes reading;
       hm_process_read_bytes_per_second := fst <$> rates;
       hm_process_write_bytes_per_second := snd <$> rates;
       hm_disk_free_bytes := read_disk_free reading |} in
  ({| sampled_at := Some now; system := read_system reading; process := read_process reading;
      latest := metrics |}, metrics).

(** ** The latency of the last commit *)

Definition with_commit_latency (b : RuntimeBuild) (latency : Z) : RuntimeBuild :=
  {| control := control b; progress := progress b; started_at := started_at b;
     build_foreground_users := build_foreground_users b; operator_paused := operator_paused b;
     operator_cancelled_until := operator_cancelled_until b; quiet_until := quiet_until b;
     effective_limits := effective_limits b; controller_state := controller_state b;
     pause_reason := pause_reason b; recovery_deadline := recovery_deadline b;
     last_commit_latency_ms := Some latency |}.
(** The end of [commit_pending_entries]; [elapsed] in nanoseconds. *)
Definition record_commit_latency (server : string) (elapsed now : Z) (m : Manager)
    (recorded : gmap string Z) : Manager * gmap string Z :=
  (alter_build (fun b => with_commit_latency b (truncate_max 64 (as_millis elapsed))) server m,
   <[server := now]> recorded).

(** ** The observation *)

(** The registries at the moments their locks are taken. *)
Record ObservationReads := {
  at_metrics : World;               (* foreground_metrics, and foreground_users under it *)
  at_host : HostMetrics;            (* host_metrics.snapshot() *)
  at_health : Manager;
  at_storage : StorageDiagnostics;  (* storage_diagnostics() *)
  at_build : Manager;
  at_recorded : gmap string Z;      (* commit_latency_recorded_at *)
  at_active : World                 (* foreground_active *)
}.

Section Observation.
Context (settings : ResolvedIndexConfig).

Definition foreground_active (server : string) (m : Manager) : bool :=
  is_some_and (fun count => 0 <? count) (foreground_users m !! server).

Definition failure_window : Z := from_secs (Z.max (cfg_health_probe_interval_seconds settings) 1).
Definition commit_window : Z := from_secs (Z.max (cfg_adaptive_recovery_delay_seconds settings) 1).

(** The three readings of the foreground measurements. *)
Definition foreground_reading (server : string) (now : Z) (w : World) : ForegroundMetrics * bool * bool :=
  match samples w !! server with
  | Some value =>
      (snapshot value (foreground_count (rw_manager w) server), recent_health_failure value now failure_window,
       recent_bad_quality value now failure_window)
  | None => (Status.default_metrics, false, false)
  end.

Definition health_reading (server : string) (m : Manager) : HealthProbeState :=
  match runtime m !! server with Some state => Status.health state | None => Status.Unavailable end.
Definition commit_reading (server : string) (now : Z) (m : Manager) (recorded : gmap string Z) : option Z :=
  if is_some_and (fun recorded_at => saturating_since now recorded_at <=? commit_window) (recorded !! server)
  then b ← running_build m server; last_commit_latency_ms b
  else None.
Definition space_is_low (storage : StorageDiagnostics) : bool :=
  is_some_and
    (fun free => free <?
       saturating_add 64 (cfg_minimum_free_space_bytes settings) (cfg_storage_headroom_bytes settings))
    (sd_free_bytes storage).

Definition controller_observation (server : string) (inventory_error : bool) (now : Z)
    (reads : ObservationReads) : Adaptive.ControllerObservation :=
  let '(foreground, failure, bad_quality) := foreground_reading server now (at_metrics reads) in
  Adaptive.mk_observation
    (foreground_active server (rw_manager (at_active reads)))
    failure
    bad_quality
    (fm_latency_p95_ms foreground)
    (Some (cfg_health_latency_threshold_ms settings))
    (inventory_error
     || match health_reading server (at_health reads) with Unhealthy => true | _ => false end)
    (hm_cpu_percent (at_host reads))
    (hm_available_memory_percent (at_host reads))
    (hm_disk_active_percent (at_host reads))
    (hm_disk_queue (at_host reads))
    (commit_reading server now (at_build reads) (at_recorded reads))
    (space_is_low (at_storage reads)).

Definition controller_observation_for_slice (server : string) (slice : InventorySliceObservation) (now : Z)
    (reads : ObservationReads) : Adaptive.ControllerObservation :=
  controller_observation server (slice_native_operations slice =? 0) now reads.
End Observation.
