(* ===== verification/ObservationSpec.v ===== *)
(** * The controller yields to requests and to failures

    The observation of a build's controller composed with the requests of [Requests] and the
    decisions of [Controller]. *)
From S2P Require Import Prelude Text Schedule Controller Config Opc Store Status Build Proto Wire LiveSearch Service Values Manager.
From S2P Require Import Requests RequestsSpec Observation.

(** ** Decisions *)

Module Import Decisions.
Import Adaptive.

Lemma hard_pauses c now o r :
  Adaptive.foreground_active o = false -> hard_reason c o = Some r ->
  decision_state (observe c now o).2 = Paused r /\ decision_paused (observe c now o).2 = true /\
  decision_reason (observe c now o).2 = Some r /\ r <> Foreground.
Proof.
  intros Hf Hr. unfold observe. rewrite (observe_hard _ _ _ _ Hf Hr). cbn. split_and!; try done.
  by eapply hard_reason_not_foreground.
Qed.

Lemma observe_foreground_iff c now o :
  decision_state (observe c now o).2 = Paused Foreground <-> Adaptive.foreground_active o = true.
Proof.
  split; [|intros H; unfold observe; by rewrite observe_foreground].
  destruct (Adaptive.foreground_active o) eqn:Hf; [done|]. destruct (hard_reason c o) as [r|] eqn:Hr.
  { destruct (hard_pauses c now o r Hf Hr) as (-> & _ & _ & Hne). by intros [= ->]. }
  unfold observe, observe_state. rewrite Hf, (hard_reason_config _ c), Hr by apply leave_foreground_config.
  cbn. destruct (is_paused _ && _).
  - unfold leave_foreground. case_decide; cbn; [done|congruence].
  - intros E. assert (Hp : is_paused (state (leave_pause (leave_foreground c now) now)) = false).
    { unfold leave_pause. by destruct (is_paused (state (leave_foreground c now))) eqn:?. }
    apply (adjust_not_paused _ now o) in Hp. by rewrite E in Hp.
Qed.

Lemma hard_of_failure c o :
  Adaptive.foreground_error o || Adaptive.foreground_bad_quality o || Adaptive.inventory_error o ||
    Adaptive.insufficient_disk_space o = true ->
  exists r, hard_reason c o = Some r.
Proof.
  intros Hf. unfold hard_reason.
  destruct (Adaptive.foreground_error o || Adaptive.foreground_bad_quality o || Adaptive.inventory_error o); [eauto|].
  simpl in Hf. rewrite Hf, orb_true_r. repeat case_match; eauto.
Qed.
End Decisions.

Section ObservationSpec.
Context `{TextLibrary}.
Context (settings : ResolvedIndexConfig).

Lemma active_in_use db w server :
  reachable_world settings db w -> Z.of_nat (size (requests w)) <= umax 64 ->
  (foreground_active server (rw_manager w) = true <-> (0 < in_use w server)%nat).
Proof.
  intros Hr%requests_inv_reachable Hfit. pose proof (ri_count _ _ Hr server Hfit) as Hc.
  unfold foreground_active, foreground_count in *.
  destruct (foreground_users (rw_manager w) !! server) as [users|]; simpl in *; [rewrite Z.ltb_lt|]; split; lia || done.
Qed.

(** What went wrong for a server, at the moments it is looked at. *)
Definition failing (server : string) (inventory_error : bool) (now : Z) (reads : ObservationReads) : Prop :=
  inventory_error = true \/
  health_reading server (at_health reads) = Unhealthy \/
  (exists value at_, samples (at_metrics reads) !! server = Some value /\
     (last_health_failure_at value = Some at_ \/ last_bad_quality_at value = Some at_) /\
     saturating_since now at_ <= failure_window settings) \/
  space_is_low settings (at_storage reads) = true.

Lemma failing_observed server inventory_error now reads :
  failing server inventory_error now reads ->
  let o := controller_observation settings server inventory_error now reads in
  Adaptive.foreground_error o || Adaptive.foreground_bad_quality o || Adaptive.inventory_error o ||
    Adaptive.insufficient_disk_space o = true.
Proof.
  intros Hf. unfold controller_observation.
  destruct (foreground_reading settings server now (at_metrics reads)) as [[foreground failure] bad] eqn:E. cbn.
  destruct Hf as [->|[Hh|[(value & at_ & Hv & Hw & Hle)|Hs]]].
  - by rewrite orb_true_r.
  - rewrite Hh. by rewrite !orb_true_r.
  - unfold foreground_reading in E. rewrite Hv in E. injection E as <- <- <-.
    unfold recent_health_failure, recent_bad_quality.
    destruct Hw as [-> | ->]; simpl; rewrite (proj2 (Z.leb_le _ _)) by done; [done|by rewrite !orb_true_r].
  - by rewrite Hs, orb_true_r.
Qed.

(** A request that ended with a failure of the server's health is such a failure as long as the
    window lasts. *)
Lemma recorded_failure_observed server inventory_error now recorded_at elapsed flags reads metrics :
  samples (at_metrics reads) = record_foreground_operation_with_health server recorded_at elapsed flags metrics ->
  flags.2 = true -> saturating_since now recorded_at <= failure_window settings ->
  failing server inventory_error now reads.
Proof.
  intros E Hflag Hle. right. right. left. destruct flags as [[error bad] health]. simpl in Hflag. subst health.
  eexists _, recorded_at. rewrite E. unfold record_foreground_operation_with_health. rewrite lookup_insert_eq.
  split; [done|]. split; [by left|done].
Qed.

(** C20: a build yields to the requests of clients and to trouble. Whenever its controller looks,
    whatever its state: it pauses for the foreground exactly when some request in flight uses the server at that
    moment, keeping its limits; and when none does, it pauses for another reason if the inventory
    call failed, the server is unhealthy, a request failed or read bad values within the window, or
    the disk is short of space. *)
Theorem observed_trouble_pauses db reads server c now observed_at inventory_error :
  reachable_world settings db (at_active reads) -> Z.of_nat (size (requests (at_active reads))) <= umax 64 ->
  let o := controller_observation settings server inventory_error now reads in
  let d := (Adaptive.observe c observed_at o).2 in
  (Adaptive.decision_state d = Paused Foreground <-> (0 < in_use (at_active reads) server)%nat) /\
  ((0 < in_use (at_active reads) server)%nat ->
     Adaptive.decision_paused d = true /\ Adaptive.decision_limits d = Adaptive.limits c) /\
  (in_use (at_active reads) server = 0%nat -> failing server inventory_error now reads ->
     exists r, Adaptive.decision_state d = Paused r /\ r <> Foreground /\ Adaptive.decision_paused d = true /\
       Adaptive.decision_reason d = Some r).
Proof.
  intros Hr Hfit o d. pose proof (active_in_use db (at_active reads) server Hr Hfit) as Ha.
  assert (Ho : Adaptive.foreground_active o = foreground_active server (rw_manager (at_active reads))).
  { unfold o, controller_observation. by destruct (foreground_reading _ _ _ _) as [[] ?]. }
  split_and!.
  - unfold d. by rewrite observe_foreground_iff, Ho.
  - intros Hu%Ha. rewrite <- Ho in Hu. unfold d, Adaptive.observe. by rewrite Adaptive.observe_foreground.
  - intros Hu Hf. apply failing_observed, (hard_of_failure c) in Hf as [r Hr'].
    assert (Hn : Adaptive.foreground_active o = false).
    { rewrite Ho. apply not_true_is_false. rewrite Ha, Hu. lia. }
    exists r. destruct (hard_pauses c observed_at o r Hn Hr') as (H1 & H2 & H3 & H4). by split_and!.
Qed.
End ObservationSpec.

(** ** Demonstrations *)

Definition demo_reads (w : World) : ObservationReads :=
  {| at_metrics := w; at_host := default_host_metrics; at_health := rw_manager w; at_storage := default_storage;
     at_build := rw_manager w; at_recorded := ∅; at_active := w |}.
(** With a request of the demonstration in flight, the controller pauses; for a server without requests, an
    inventory call that fails pauses it for the health of the OPC server. *)
Lemma observed_trouble_pauses_witness :
  let c := Adaptive.new (controller_config requests_settings) 0 in
  let decide server error :=
    (Adaptive.observe c 9 (controller_observation requests_settings server error 8 (demo_reads (demo_requests 15)))).2 in
  Adaptive.decision_state (decide "line" false) = Paused Foreground /\
  exists r, Adaptive.decision_state (decide "mill" true) = Paused r /\ r <> Foreground.
Proof.
  set (w := demo_requests 15). intros c decide.
  assert (Hfit : Z.of_nat (size (requests w)) <= umax 64) by (vm_compute; discriminate).
  destruct (@observed_trouble_pauses ascii_text requests_settings empty_db (demo_reads w) "line" c 8 9 false
    demo_requests_reachable Hfit) as [Hf _].
  split; [apply Hf; vm_compute; lia|].
  destruct (@observed_trouble_pauses ascii_text requests_settings empty_db (demo_reads w) "mill" c 8 9 true
    demo_requests_reachable Hfit) as (_ & _ & Ht).
  destruct Ht as (r & Hr & Hne & _); [vm_compute; reflexivity|left; reflexivity|].
  exists r. split; [exact Hr|exact Hne].
Defined.

(** The host's readings: none for the first collection, the share of busy ticks and the rates after it. *)
Example host_metrics :
  let reading busy read :=
    {| read_system := Some {| busy_ticks := busy; total_ticks := 2 * busy |}; read_memory := None;
       read_working_set := Some 4096; read_private_bytes := None;
       read_process := Some {| read_bytes := read; write_bytes := 0 |}; read_disk_free := None |} in
  let '(state, first) := host_snapshot (from_secs 1) (reading 100 1000) default_metrics_state in
  let '(state, second) := host_snapshot (from_secs 3) (reading 300 5000) state in
  (hm_cpu_percent first, hm_process_read_bytes_per_second first) = (None, None) /\
  option_map (fun p => SFeqb p (f64_of_Z 50)) (hm_cpu_percent second) = Some true /\
  hm_process_read_bytes_per_second second = Some 2000 /\ latest state = second.
Proof. vm_compute. split_and!; reflexivity. Qed.
