(* ===== verification/Adapter.v ===== *)
(** * The OPC DA adapter (opc_da_adapter.rs) and the inventory streams (opc.rs, index/traversal.rs)

    [OpcDaAdapter] answers the calls of the gateway with the calls of the native OPC DA client: it
    keeps the capabilities of the open sessions, writes and parses the tokens of the native client, and maps
    values and events. The native client is not part of the repository: its tokens are a parameter,
    its answers are inputs. The streams of inventories share an interface, which the adapter's and the coordinated
    stream implement. *)
From S2P Require Import Prelude Text Controller Opc Values.

(** ** The native client

    The enumerations are those the adapter matches on. *)

Inductive BrowseNamespace := NamespaceFlat | NamespaceHierarchical | NamespaceUnknown.
Record NativeCapabilities := {
  native_namespace : BrowseNamespace;
  supports_da3 : bool;
  supports_da2 : bool;
  native_max_page_size : Z
}.
Inductive ExtBrowseNodeKind := ExtBranch | ExtItem | ExtBranchAndItem.

(** The tokens of the native client, with [to_string] and [parse]. *)
Class NativeTokens := {
  BrowseSessionToken : Type;
  BrowseNodeToken : Type;
  BrowsePageToken : Type;
  show_session : BrowseSessionToken -> string;
  show_node : BrowseNodeToken -> string;
  show_page : BrowsePageToken -> string;
  parse_session : string -> result BrowseSessionToken string;
  parse_node : string -> result BrowseNodeToken string;
  parse_page : string -> result BrowsePageToken string
}.
(** A token that is written parses as itself. *)
Class NativeTokenLaws `{NativeTokens} : Prop := {
  session_parses token : parse_session (show_session token) = Ok token;
  node_parses token : parse_node (show_node token) = Ok token;
  page_parses token : parse_page (show_page token) = Ok token
}.

(** ** Mappings *)

Definition map_capabilities (capabilities : NativeCapabilities) : NamespaceOrganization * BrowseSource :=
  (match native_namespace capabilities with
   | NamespaceFlat => OrgFlat
   | NamespaceHierarchical => OrgHierarchical
   | NamespaceUnknown => OrgUnspecified
   end,
   match native_namespace capabilities with
   | NamespaceFlat => SourceFlat
   | NamespaceHierarchical | NamespaceUnknown =>
       if supports_da3 capabilities then SourceDa3
       else if supports_da2 capabilities then SourceDa2 else SourceDerived
   end).

Definition map_node_kind (kind : ExtBrowseNodeKind) : BrowseNodeKind :=
  match kind with
  | ExtBranch => NodeBranch
  | ExtItem => NodeItem
  | ExtBranchAndItem => NodeBranchAndItem
  end.

Record ExtInventoryEntry := {
  ext_display_name : ustr;
  ext_item_id : ustr;
  ext_kind : ExtBrowseNodeKind;
  ext_breadcrumbs : list ustr
}.
Record ExtInventoryCompleted := {
  ext_complete : bool;
  ext_cancelled : bool;
  ext_truncated : bool;
  ext_warning : option string;
  ext_capabilities : NativeCapabilities
}.
(** Progress and slices have the fields of the gateway's own types. *)
Inductive ExtInventoryEvent :=
| ExtEntry (entry : ExtInventoryEntry)
| ExtProgress (progress : InventoryProgress)
| ExtSlice (slice : InventorySliceObservation)
| ExtCompleted (completed : ExtInventoryCompleted).

Definition map_inventory_event (event : ExtInventoryEvent) : InventoryEvent :=
  match event with
  | ExtEntry entry =>
      Entry {| entry_display_name := ext_display_name entry; entry_item_id := ext_item_id entry;
               entry_kind :=
                 match ext_kind entry with
                 | ExtBranchAndItem => InventoryBranchAndItem
                 | ExtItem | ExtBranch => InventoryItem
                 end;
               entry_breadcrumbs := ext_breadcrumbs entry |}
  | ExtProgress progress => Progress progress
  | ExtSlice slice => Slice slice
  | ExtCompleted completed =>
      Completed {| completed_complete := ext_complete completed; completed_cancelled := ext_cancelled completed;
                   completed_truncated := ext_truncated completed; completed_warning := ext_warning completed;
                   completed_organization := (map_capabilities (ext_capabilities completed)).1;
                   completed_source := (map_capabilities (ext_capabilities completed)).2 |}
  end.

(** ** Sessions *)

Notation Sessions := (gmap string (NamespaceOrganization * BrowseSource)).

Section Adapter.
Context `{NativeTokens}.

Definition parse_token {T} (parse : string -> result T string) (value label : string) : result T string :=
  map_err (fun error => String.append "invalid " (String.append label (String.append " token: " error)))
    (parse value).

Record NativeNode := {
  native_token : BrowseNodeToken;
  native_name : ustr;
  native_kind : ExtBrowseNodeKind;
  native_item_id : option ustr
}.
Record NativePage := { native_nodes : list NativeNode; native_continuation : option BrowsePageToken }.
Record BrowsePageRequest := {
  request_parent : option BrowseNodeToken;
  request_max_elements : Z;
  request_continuation : option BrowsePageToken
}.

Definition get_capabilities (answer : result NativeCapabilities string) : result BrowseCapabilities string :=
  let? capabilities := answer in
  let '(organization, source) := map_capabilities capabilities in
  Ok {| cap_organization := organization; cap_source := source; cap_supports_browse_sessions := true;
        cap_supports_search := true; cap_max_page_size := native_max_page_size capabilities |}.

Definition open_browse_session (capabilities : result NativeCapabilities string)
    (session : result BrowseSessionToken string) (sessions : Sessions) : Sessions * result string string :=
  match capabilities, session with
  | Err e, _ | Ok _, Err e => (sessions, Err e)
  | Ok capabilities, Ok session =>
      (<[show_session session := map_capabilities capabilities]> sessions, Ok (show_session session))
  end.

(** [Option::map(..).transpose()?] *)
Definition parse_optional {T} (parse : string -> result T string) (label : string) (value : option string) :
    result (option T) string :=
  match value with
  | None => Ok None
  | Some value => let? token := parse_token parse value label in Ok (Some token)
  end.

(** What [browse_page] asks the native client for. *)
Definition page_request (session_id : string) (parent_node_key page_token : option string) (page_size : Z) :
    result (BrowseSessionToken * BrowsePageRequest) string :=
  let? session := parse_token parse_session session_id "browse session" in
  let? parent := parse_optional parse_node "browse node" parent_node_key in
  let? continuation := parse_optional parse_page "browse page" page_token in
  Ok (session, {| request_parent := parent; request_max_elements := page_size;
                  request_continuation := continuation |}).
Definition map_page (capabilities : NamespaceOrganization * BrowseSource) (page : NativePage) : BrowsePage :=
  {| page_nodes :=
       map (fun node => {| node_key := show_node (native_token node); node_display_name := native_name node;
                           node_kind := map_node_kind (native_kind node); node_item_id := native_item_id node |})
         (native_nodes page);
     page_next_page_token := show_page <$> native_continuation page;
     page_complete := negb (is_some (native_continuation page));
     page_organization := capabilities.1;
     page_source := capabilities.2;
     page_warning := None |}.
(** [browse_page]; the sessions are read after the native call has answered *)
Definition browse_page (session_id : string) (parent_node_key page_token : option string) (page_size : Z)
    (answer : result NativePage string) (sessions : Sessions) : result BrowsePage string :=
  let? _ := page_request session_id parent_node_key page_token page_size in
  let? page := answer in
  match sessions !! session_id with
  | Some capabilities => Ok (map_page capabilities page)
  | None => Err "unknown browse session"
  end.

Definition close_browse_session (session_id : string) (answer : result unit string) (sessions : Sessions) :
    Sessions * result unit string :=
  match parse_token parse_session session_id "browse session" with
  | Err e => (sessions, Err e)
  | Ok _ => (delete session_id sessions, answer)
  end.
End Adapter.

(** ** Inventories *)

Definition batch_size_allowed (batch_size : Z) : bool :=
  (1 <=? batch_size) && (batch_size <=? MAX_NATIVE_INVENTORY_BATCH_SIZE).
Definition batch_size_error : string :=
  String.append "native inventory batch size must be between 1 and " (to_decimal MAX_NATIVE_INVENTORY_BATCH_SIZE).
(** [start_inventory] and [start_inventory_at_root]: whether the native client may be asked. *)
Definition start_allowed (batch_size : Z) : result unit string :=
  if batch_size_allowed batch_size then Ok tt else Err batch_size_error.

(** [apply_pacing]: the pacing the native control has afterwards; [batch] is the answer of
    [set_batch_size] *)
Record NativePacing := { native_min_interval : Z; native_item_rate : option Z; native_batch_size : Z }.
Definition apply_pacing (pacing : InventoryPacing) (batch : result unit string) (native : NativePacing) :
    NativePacing * result unit string :=
  let paced := {| native_min_interval := min_interval pacing; native_item_rate := pacing_item_rate_per_second pacing;
                  native_batch_size := native_batch_size native |} in
  match pacing_batch_size pacing with
  | None => (paced, Ok tt)
  | Some size =>
      match batch with
      | Ok _ => ({| native_min_interval := min_interval pacing; native_item_rate := pacing_item_rate_per_second pacing;
                    native_batch_size := size |}, Ok tt)
      | Err error => (paced, Err (String.append "native inventory batch update failed: " error))
      end
  end.

(** ** Streams *)

(** [InventoryStream]: [next] on what the source delivers, [shutdown] on the end of the task
    it waits for, and [drop]. The other members are observations of a stream: whether it has
    delivered a completion, whether it has been shut down, and whether it has cancelled its
    inventory. *)
Class InventoryStream (S : Type) := {
  next : option (result InventoryEvent string) -> S -> S * option (result InventoryEvent string);
  shutdown : result unit string -> S -> S * result unit string;
  terminal_event_seen : S -> bool;
  was_shut_down : S -> bool;
  has_cancelled : S -> bool
}.

Definition is_completion (event : option (result InventoryEvent string)) : bool :=
  match event with Some (Ok (Completed _)) => true | _ => false end.

(** What a build relies on. *)
Class InventoryStreamLaws (S : Type) `{InventoryStream S} : Prop := {
  next_terminal event s :
    terminal_event_seen (next event s).1 = terminal_event_seen s || is_completion (next event s).2;
  next_keeps event s :
    has_cancelled (next event s).1 = has_cancelled s /\ was_shut_down (next event s).1 = was_shut_down s;
  shutdown_first joined s :
    was_shut_down s = false ->
    has_cancelled (shutdown joined s).1 = has_cancelled s || negb (terminal_event_seen s) /\
    is_ok (shutdown joined s).2 = is_ok joined;
  shutdown_ends joined s :
    was_shut_down (shutdown joined s).1 = true /\
    terminal_event_seen (shutdown joined s).1 = terminal_event_seen s;
  shutdown_again joined s :
    was_shut_down s = true -> has_cancelled s || terminal_event_seen s = true ->
    shutdown joined s = (s, Ok tt)
}.

Definition join_failure (prefix : string) (joined : result unit string) : result unit string :=
  map_err (String.append prefix) joined.

(** [AdapterInventoryStream]; [inner] is a stream of the native client, which it takes on shutdown. *)
Record AdapterInventoryStream := { inner : bool; adapter_terminal : bool; inner_cancelled : bool }.
#[export] Instance adapter_stream : InventoryStream AdapterInventoryStream := {|
  next event s :=
    if inner s
    then ({| inner := true; adapter_terminal := adapter_terminal s || is_completion event;
             inner_cancelled := inner_cancelled s |}, event)
    else (s, None);
  shutdown joined s :=
    if inner s
    then ({| inner := false; adapter_terminal := adapter_terminal s;
             inner_cancelled := inner_cancelled s || negb (adapter_terminal s) |},
          join_failure "native inventory stream shutdown failed: " joined)
    else (s, Ok tt);
  terminal_event_seen := adapter_terminal;
  was_shut_down s := negb (inner s);
  has_cancelled := inner_cancelled
|}.

(** [CoordinatedInventoryStream]: [coordinator] is the handle of the task that merges the workers. *)
Record CoordinatedInventoryStream := {
  coordinator : bool;
  coordinated_terminal : bool;
  control_cancelled : bool
}.
#[export] Instance coordinated_stream : InventoryStream CoordinatedInventoryStream := {|
  next event s :=
    ({| coordinator := coordinator s; coordinated_terminal := coordinated_terminal s || is_completion event;
        control_cancelled := control_cancelled s |}, event);
  shutdown joined s :=
    let s :=
      {| coordinator := coordinator s; coordinated_terminal := coordinated_terminal s;
         control_cancelled := control_cancelled s || negb (coordinated_terminal s) |} in
    if coordinator s
    then ({| coordinator := false; coordinated_terminal := coordinated_terminal s;
             control_cancelled := control_cancelled s |},
          join_failure "coordinated inventory task failed: " joined)
    else (s, Ok tt);
  terminal_event_seen := coordinated_terminal;
  was_shut_down s := negb (coordinator s);
  has_cancelled := control_cancelled
|}.
(** [Drop for CoordinatedInventoryStream] *)
Definition drop_coordinated (s : CoordinatedInventoryStream) : CoordinatedInventoryStream :=
  {| coordinator := coordinator s; coordinated_terminal := coordinated_terminal s; control_cancelled := true |}.

(** What a build does with a stream: it takes events and shuts it down, in any order. *)
Inductive StreamCall := CallNext (event : option (result InventoryEvent string)) | CallShutdown (joined : result unit string).
Definition stream_call {S} `{InventoryStream S} (s : S) (call : StreamCall) : S :=
  match call with
  | CallNext event => (next event s).1
  | CallShutdown joined => (shutdown joined s).1
  end.
