(* ===== verification/AdapterSpec.v ===== *)
(** * Properties of the adapter and of the streams *)
From S2P Require Import Prelude Text Controller Config Opc Values Adapter.

(** ** Streams *)

#[export] Instance adapter_stream_laws : InventoryStreamLaws AdapterInventoryStream.
Proof.
  split; simpl.
  - intros event [[|] term canc]; simpl; [done|by rewrite orb_false_r].
  - by intros event [[|] term canc].
  - intros joined [[|] term canc]; simpl; [|done]. by destruct joined.
  - by intros joined [[|] term canc].
  - by intros joined [[|] term canc].
Qed.
#[export] Instance coordinated_stream_laws : InventoryStreamLaws CoordinatedInventoryStream.
Proof.
  split; simpl.
  - done.
  - done.
  - intros joined [[|] term canc]; simpl; [|done]. by destruct joined.
  - by intros joined [[|] term canc].
  - intros joined [[|] term canc]; simpl; [done|]. intros _ Hct. f_equal. f_equal.
    by destruct canc, term.
Qed.

Section Streams.
Context {Stream : Type} `{InventoryStreamLaws Stream}.

Definition fresh_stream (s : Stream) : Prop :=
  terminal_event_seen s = false /\ was_shut_down s = false /\ has_cancelled s = false.
Definition calls (s : Stream) (l : list StreamCall) : Stream := fold_left stream_call l s.

Definition settled (s : Stream) : Prop := was_shut_down s = true -> has_cancelled s || terminal_event_seen s = true.

Lemma stream_call_settled s call : settled s -> settled (stream_call s call).
Proof.
  intros Hs. destruct call as [event|joined]; simpl; intros Hd.
  - destruct (next_keeps event s) as [Hc Hw]. rewrite Hw in Hd. rewrite Hc, next_terminal.
    rewrite orb_assoc, (Hs Hd). done.
  - destruct (was_shut_down s) eqn:E.
    + rewrite shutdown_again; auto.
    + destruct (shutdown_first joined s E) as [-> _]. destruct (shutdown_ends joined s) as [_ ->].
      by destruct (has_cancelled s), (terminal_event_seen s).
Qed.
Lemma calls_settled s l : settled s -> settled (calls s l).
Proof. revert s. induction l as [|c l IH]; simpl; intros s Hs; [done|]. apply IH. by apply stream_call_settled. Qed.
Lemma fresh_settled s : fresh_stream s -> settled s.
Proof. intros (_ & Hw & _) Hd. congruence. Qed.

(** A stream that is shut down has been told to stop, or had delivered its completion; a stream that
    delivered it first is never told to stop; a second shutdown changes nothing and succeeds. *)
Lemma stream_shutdown s l joined :
  fresh_stream s ->
  let s' := (shutdown joined (calls s l)).1 in
  was_shut_down s' = true /\ has_cancelled s' || terminal_event_seen s' = true /\
  (forall again, shutdown again s' = (s', Ok tt)) /\
  (was_shut_down (calls s l) = false -> terminal_event_seen (calls s l) = true ->
   has_cancelled (calls s l) = false -> has_cancelled s' = false).
Proof.
  intros Hf s'. pose proof (calls_settled s l (fresh_settled s Hf)) as Hs.
  destruct (shutdown_ends joined (calls s l)) as [Hw Ht].
  assert (Hs' : has_cancelled s' || terminal_event_seen s' = true).
  { apply (stream_call_settled _ (CallShutdown joined) Hs). done. }
  split_and!; [done|done| |].
  - intros again. by apply shutdown_again.
  - intros Hn Hterm Hc. unfold s'. destruct (shutdown_first joined _ Hn) as [-> _]. by rewrite Hc, Hterm.
Qed.
End Streams.

(** ** The bounds of an inventory *)

(** The batch sizes the gateway starts an inventory with are allowed, whatever the configuration. *)
Lemma initial_batch_allowed path config now :
  config_keys_typed config ->
  start_allowed (batch_size (initial_inventory_limits (resolve_index_config path config) now)) = Ok tt.
Proof.
  intros Ht. unfold start_allowed, batch_size_allowed, initial_inventory_limits.
  destruct (settings_bounds path config Ht) as (_ & _ & _ & [Hb1 Hb2] & _).
  set (s := resolve_index_config path config) in *.
  destruct (negb (cfg_adaptive s)); [cbn [batch_size]; by rewrite !(proj2 (Z.leb_le _ _))|].
  pose proof (Adaptive.new_inv (controller_config s) now (controller_config_typed path config Ht)) as Hinv.
  pose proof (Adaptive.wf_floor_pos _ (Adaptive.inv_config _ Hinv)).
  pose proof (Adaptive.wf_batch _ (Adaptive.inv_config _ Hinv)).
  destruct (Adaptive.inv_floor _ Hinv) as (_ & Hf & _). destruct (Adaptive.inv_ceiling _ Hinv) as (_ & Hc & _).
  by rewrite !(proj2 (Z.leb_le _ _)) by lia.
Qed.

(** ** Sessions and pages *)

Section Sessions.
Context `{NativeTokenLaws}.

(** What happened to the sessions of the adapter. *)
Inductive SessionEvent :=
| Opened (capabilities : NativeCapabilities) (session : BrowseSessionToken)
| OpenFailed (capabilities : result NativeCapabilities string) (error : string)
| Closed (session_id : string) (answer : result unit string).
Definition session_step (sessions : Sessions) (event : SessionEvent) : Sessions :=
  match event with
  | Opened capabilities session => (open_browse_session (Ok capabilities) (Ok session) sessions).1
  | OpenFailed capabilities error => (open_browse_session capabilities (Err error) sessions).1
  | Closed session_id answer => (close_browse_session session_id answer sessions).1
  end.
Definition session_history (events : list SessionEvent) : Sessions := fold_left session_step events ∅.

(** The capabilities of a session that is open: those of its last opening since it was last closed. *)
Fixpoint open_capabilities (events : list SessionEvent) (session_id : string) : option NativeCapabilities :=
  match events with
  | [] => None
  | event :: earlier =>
      match event with
      | Opened capabilities session =>
          if String.eqb (show_session session) session_id then Some capabilities
          else open_capabilities earlier session_id
      | OpenFailed _ _ => open_capabilities earlier session_id
      | Closed closed _ =>
          if String.eqb closed session_id && is_ok (parse_session session_id) then None
          else open_capabilities earlier session_id
      end
  end.

Lemma parse_token_ok {T} (parse : string -> result T string) value label :
  is_ok (parse_token parse value label) = is_ok (parse value).
Proof. unfold parse_token. by destruct (parse value). Qed.

Lemma session_history_open events session_id :
  session_history events !! session_id = map_capabilities <$> open_capabilities (rev events) session_id.
Proof.
  induction events as [|event events IH] using rev_ind; [done|].
  unfold session_history in *. rewrite fold_left_app, rev_app_distr. simpl.
  destruct event as [capabilities session|capabilities error|closed answer]; simpl.
  - destruct (String.eqb_spec (show_session session) session_id) as [->|Hne].
    + by rewrite lookup_insert_eq.
    + by rewrite lookup_insert_ne.
  - by destruct capabilities.
  - unfold close_browse_session. pose proof (parse_token_ok parse_session closed "browse session") as Hp.
    destruct (parse_token parse_session closed "browse session") as [session|e]; simpl in Hp.
    + destruct (String.eqb_spec closed session_id) as [->|Hne]; simpl.
      * rewrite <- Hp. by rewrite lookup_delete_eq.
      * by rewrite lookup_delete_ne.
    + destruct (String.eqb_spec closed session_id) as [->|Hne]; simpl; [|done]. by rewrite <- Hp.
Qed.

Lemma page_request_round (session : BrowseSessionToken) node continuation size :
  page_request (show_session session) (show_node <$> node) (show_page <$> continuation) size =
  Ok (session, {| request_parent := node; request_max_elements := size; request_continuation := continuation |}).
Proof.
  unfold page_request, parse_optional, parse_token.
  destruct node as [node|], continuation as [continuation|]; simpl;
    rewrite ?session_parses, ?node_parses, ?page_parses; done.
Qed.

(** How the namespace of a server is presented: a flat one as flat and read as flat, whatever
    interfaces the server has; any other through the newest interface it supports. *)
Inductive presented (c : NativeCapabilities) : NamespaceOrganization -> BrowseSource -> Prop :=
| presented_flat : native_namespace c = NamespaceFlat -> presented c OrgFlat SourceFlat
| presented_tree organization source :
    (native_namespace c = NamespaceHierarchical /\ organization = OrgHierarchical \/
     native_namespace c = NamespaceUnknown /\ organization = OrgUnspecified) ->
    (supports_da3 c = true /\ source = SourceDa3 \/
     supports_da3 c = false /\ supports_da2 c = true /\ source = SourceDa2 \/
     supports_da3 c = false /\ supports_da2 c = false /\ source = SourceDerived) ->
    presented c organization source.
Lemma map_capabilities_presented c : presented c (map_capabilities c).1 (map_capabilities c).2.
Proof.
  unfold map_capabilities. destruct (native_namespace c) eqn:E; simpl; [by apply presented_flat| |];
    (apply presented_tree; [tauto|]); destruct (supports_da3 c), (supports_da2 c); tauto.
Qed.
(** A native node and the node shown for it. *)
Definition shown_as (child : NativeNode) (node : BrowseNode) : Prop :=
  node_display_name node = native_name child /\ node_item_id node = native_item_id child /\
  (node_kind node = NodeBranch <-> native_kind child = ExtBranch) /\
  (node_kind node = NodeItem <-> native_kind child = ExtItem) /\
  (node_kind node = NodeBranchAndItem <-> native_kind child = ExtBranchAndItem).

(** C17: the adapter speaks the tokens of the native client faithfully. In every history of
    sessions: a page is answered only for a session that is open, with the capabilities of its
    opening, complete exactly when the native client has no continuation, its nodes in order with their
    kinds and ItemIDs; the continuation of a page, with or without nodes on it, given back for
    any node of the native client and any size, continues exactly where the native client
    stopped, and the key of a node, given back, asks for the children of exactly that native
    node; and a session that was closed, even when the native client
    failed to close it, is refused. *)
Theorem adapter_pages_faithful events session native size parent token :
  match browse_page (show_session session) (show_node <$> parent) (show_page <$> token) size (Ok native)
          (session_history events) with
  | Ok page =>
      exists capabilities, open_capabilities (rev events) (show_session session) = Some capabilities /\
        presented capabilities (page_organization page) (page_source page) /\
        (page_complete page = true <-> native_continuation native = None) /\
        (page_complete page = true <-> page_next_page_token page = None) /\
        Forall2 shown_as (native_nodes native) (page_nodes page) /\
        (forall node again,
          page_request (show_session session) (show_node <$> node) (page_next_page_token page) again =
            Ok (session, {| request_parent := node; request_max_elements := again;
                            request_continuation := native_continuation native |})) /\
        forall i n, page_nodes page !! i = Some n -> exists child, native_nodes native !! i = Some child /\
          forall continuation again,
          page_request (show_session session) (Some (node_key n)) (show_page <$> continuation) again =
            Ok (session, {| request_parent := Some (native_token child); request_max_elements := again;
                            request_continuation := continuation |})
  | Err error =>
      open_capabilities (rev events) (show_session session) = None /\ error = "unknown browse session"
  end.
Proof.
  unfold browse_page. rewrite page_request_round. simpl. rewrite session_history_open.
  destruct (open_capabilities (rev events) (show_session session)) as [capabilities|]; simpl; [|done].
  exists capabilities. split; [done|]. split; [apply map_capabilities_presented|].
  split; [by destruct (native_continuation native)|]. split; [by destruct (native_continuation native)|].
  split.
  { simpl. apply Forall2_fmap_r, Forall_Forall2_diag, Forall_forall. intros child _.
    unfold shown_as. simpl. by destruct (native_kind child). }
  split; [intros node again; apply (page_request_round session node (native_continuation native))|].
  intros i n Hn. cbn [map_page page_nodes] in Hn. rewrite list_lookup_fmap in Hn.
  destruct (native_nodes native !! i) as [child|]; simpl in Hn; [|discriminate].
  injection Hn as <-. exists child. split; [done|]. intros continuation again.
  apply (page_request_round session (Some (native_token child)) continuation).
Qed.
End Sessions.

(** ** A demonstration *)

Definition text_tokens : NativeTokens :=
  {| BrowseSessionToken := string; BrowseNodeToken := string; BrowsePageToken := string;
     show_session s := s; show_node s := s; show_page s := s;
     parse_session := Ok; parse_node := Ok; parse_page := Ok |}.
Lemma text_token_laws : @NativeTokenLaws text_tokens.
Proof. by split. Qed.

Definition demo_capabilities : NativeCapabilities :=
  {| native_namespace := NamespaceHierarchical; supports_da3 := false; supports_da2 := true;
     native_max_page_size := 100 |}.
Definition demo_native_page : @NativePage text_tokens :=
  {| native_nodes := [@Build_NativeNode text_tokens "node-7" [66; 111; 105; 108; 101; 114] ExtBranch None];
     native_continuation := Some ("page-2" : @BrowsePageToken text_tokens) |}.

(** A page without nodes still hands out its continuation. *)
Definition demo_empty_page : @NativePage text_tokens :=
  {| native_nodes := []; native_continuation := Some ("page-2" : @BrowsePageToken text_tokens) |}.
Definition demo_sessions : Sessions :=
  @session_history text_tokens [@Opened text_tokens demo_capabilities "session-1"].

Lemma adapter_pages_faithful_witness :
  exists page,
    @browse_page text_tokens "session-1" None None 10 (Ok demo_empty_page) demo_sessions = Ok page /\
    page_complete page = false /\ (page_organization page, page_source page) = (OrgHierarchical, SourceDa2) /\
    @page_request text_tokens "session-1" None (page_next_page_token page) 10 =
      Ok ("session-1", @Build_BrowsePageRequest text_tokens None 10 (Some "page-2")).
Proof.
  pose proof (@adapter_pages_faithful text_tokens text_token_laws [@Opened text_tokens demo_capabilities "session-1"]
    "session-1" demo_empty_page 10 None None) as H.
  change (@show_session text_tokens "session-1") with "session-1" in H.
  change (@show_node text_tokens <$> None) with (@None string) in H.
  change (@show_page text_tokens <$> None) with (@None string) in H.
  change (session_history _) with demo_sessions in H.
  destruct (browse_page _ _ _ _ _ _) as [page|error] eqn:E.
  - destruct H as (capabilities & Hc & Hm & Hcomplete & _ & _ & Hrequest & _). exists page. split; [done|].
    clear Hm Hc. vm_compute in E. injection E as <-. split; [|split; [reflexivity|exact (Hrequest None 10)]].
    apply not_true_iff_false. intros Ht. by apply Hcomplete in Ht.
  - exfalso. vm_compute in E. discriminate.
Defined.
