(* ===== verification/Runs.v ===== *)
(** * Programs that talk to their environment, and their runs

    A program is an interaction tree: it ends with a result, or performs an event and continues with its
    answer. A run logs the events with their answers; it may stop anywhere, so that the runs that
    have not ended are the states in between. *)
From ITree Require Import Core.ITreeDefinition.
From S2P Require Import Prelude.

Section Runs.
Context {E : Type -> Type}.

(** An event and the answer it got. *)
Inductive Entry :=
| Answered {A : Type} (event : E A) (answer : A).

(** The run of a program, with the number of its steps. *)
Inductive run {R} : nat -> itree E R -> list Entry -> option R -> Prop :=
| run_open t : run 0 t [] None
| run_ret t r : observe t = RetF r -> run 0 t [] (Some r)
| run_tau n t u log o : observe t = TauF u -> run n u log o -> run (S n) t log o
| run_vis {A} n t (e : E A) (k : A -> itree E R) a log o :
    observe t = VisF e k -> run n (k a) log o -> run (S n) t (Answered e a :: log) o.
Definition exec {R} (t : itree E R) (log : list Entry) (o : option R) : Prop := exists n, run n t log o.

Lemma run_observe {R} n (t u : itree E R) log o : observe t = observe u -> run n t log o -> run n u log o.
Proof.
  intros Hobs Ht. destruct Ht; econstructor; try eassumption; congruence.
Qed.

Lemma run_Ret {R} n (r : R) log o : run n (Ret r) log o -> n = 0%nat /\ log = [] /\ (o = None \/ o = Some r).
Proof. intros H. inversion H as [|? ? Hr|? ? ? ? ? Hr|? ? ? ? ? ? ? ? Hr]; simpl in *; simplify_eq; auto. Qed.
Lemma run_Tau {R} n t (u : itree E R) log o :
  observe t = TauF u -> run n t log o ->
  (n = 0%nat /\ log = [] /\ o = None) \/ exists m, n = S m /\ run m u log o.
Proof.
  intros Ht H. inversion H as [|? ? Hr|? ? ? ? ? Hr|? ? ? ? ? ? ? ? Hr]; subst; try congruence; [auto|].
  rewrite Ht in Hr. injection Hr as ->. eauto.
Qed.
Lemma run_Vis {A R} n t (e : E A) (k : A -> itree E R) log o :
  observe t = VisF e k -> run n t log o ->
  (n = 0%nat /\ log = [] /\ o = None) \/
  exists m a log', n = S m /\ log = Answered e a :: log' /\ run m (k a) log' o.
Proof.
  intros Ht H. inversion H as [|? ? Hr|? ? ? ? ? Hr|B m ? e' k' a log' ? Hr Hk]; subst.
  - auto.
  - congruence.
  - congruence.
  - right. rewrite Ht in Hr. clear H. revert a Hk.
    refine (match Hr in _ = u return
      match u with
      | VisF e0 k0 => forall a, run m (k0 a) log' o ->
          exists m0 a0 log0, S m = S m0 /\ Answered e0 a :: log' = Answered e a0 :: log0 /\ run m0 (k a0) log0 o
      | _ => True end with eq_refl => _ end).
    eauto 6.
Qed.

(** A program in sequence. *)
Lemma observe_bind {R T} (t : itree E R) (k : R -> itree E T) :
  observe (ITree.bind t k) =
  match observe t with
  | RetF r => observe (k r)
  | TauF u => TauF (ITree.bind u k)
  | VisF e ke => VisF e (fun x => ITree.bind (ke x) k)
  end.
Proof. unfold observe at 1; cbn. by destruct (observe t). Qed.
Lemma run_bind {R T} n (t : itree E R) (k : R -> itree E T) log o :
  run n (ITree.bind t k) log o ->
  (o = None /\ run n t log None) \/
  exists r log1 log2 n1 n2, n = (n1 + n2)%nat /\ log = log1 ++ log2 /\ run n1 t log1 (Some r) /\ run n2 (k r) log2 o.
Proof.
  revert t log. induction n as [n IH] using lt_wf_ind; intros t log H.
  pose proof (observe_bind t k) as Hb. destruct (observe t) as [r|u|A e ke] eqn:Ht.
  - right. exists r, [], log, 0%nat, n. split_and!; [done|done|by apply run_ret|by eapply run_observe].
  - destruct (run_Tau _ _ _ _ _ Hb H) as [(-> & -> & ->)|(m & -> & H')]; [left; split; [done|apply run_open]|].
    destruct (IH m ltac:(lia) u log H') as [[-> H1]|(r & log1 & log2 & n1 & n2 & -> & -> & H1 & H2)].
    + left. split; [done|]. by eapply run_tau.
    + right. exists r, log1, log2, (S n1), n2. split_and!; [done|done|by eapply run_tau|done].
  - destruct (run_Vis _ _ _ _ _ _ Hb H) as [(-> & -> & ->)|(m & a & log' & -> & -> & H')];
      [left; split; [done|apply run_open]|].
    destruct (IH m ltac:(lia) (ke a) log' H') as [[-> H1]|(r & log1 & log2 & n1 & n2 & -> & -> & H1 & H2)].
    + left. split; [done|]. by eapply run_vis.
    + right. exists r, (Answered e a :: log1), log2, (S n1), n2. split_and!; [done|done|by eapply run_vis|done].
Qed.

Lemma run_then {R T} n1 n2 (t : itree E R) (k : R -> itree E T) log1 log2 r o :
  run n1 t log1 (Some r) -> run n2 (k r) log2 o -> exec (ITree.bind t k) (log1 ++ log2) o.
Proof.
  intros H1 H2. remember (Some r) as o1 eqn:Ho in H1.
  induction H1 as [t|t r' Hr|n t u log o1 Hr Hu IH|A n t e ku a log o1 Hr Hu IH]; [done| | |].
  - injection Ho as ->. exists n2. simpl. eapply run_observe; [|exact H2]. by rewrite observe_bind, Hr.
  - destruct (IH Ho) as [m Hm]. exists (S m). eapply run_tau; [|exact Hm]. by rewrite observe_bind, Hr.
  - destruct (IH Ho) as [m Hm]. exists (S m). simpl.
    apply (run_vis m _ e (fun x => ITree.bind (ku x) k)); [|exact Hm]. by rewrite observe_bind, Hr.
Qed.
Lemma run_within {R T} n (t : itree E R) (k : R -> itree E T) log :
  run n t log None -> run n (ITree.bind t k) log None.
Proof.
  remember None as o eqn:Ho. intros H. induction H as [t|t r Hr|n t u log o Hr Hu IH|A n t e ku a log o Hr Hu IH].
  - apply run_open.
  - done.
  - eapply run_tau; [|by apply IH]. by rewrite observe_bind, Hr.
  - apply (run_vis n _ e (fun x => ITree.bind (ku x) k)); [|by apply IH]. by rewrite observe_bind, Hr.
Qed.

Lemma exec_open {R} (t : itree E R) : exec t [] None.
Proof. exists 0%nat. apply run_open. Qed.
Lemma exec_Ret {R} (r : R) log o : exec (Ret r) log o <-> log = [] /\ (o = None \/ o = Some r).
Proof.
  split.
  - intros [n H]. by apply run_Ret in H as (_ & ? & ?).
  - intros [-> [->| ->]]; [apply exec_open|exists 0%nat; by apply run_ret].
Qed.
Lemma exec_bind {R T} (t : itree E R) (k : R -> itree E T) log o :
  exec (ITree.bind t k) log o <->
  (o = None /\ exec t log None) \/
  exists r log1 log2, log = log1 ++ log2 /\ exec t log1 (Some r) /\ exec (k r) log2 o.
Proof.
  split.
  - intros [n H]. apply run_bind in H as [[-> H]|(r & log1 & log2 & n1 & n2 & _ & -> & H1 & H2)]; unfold exec; eauto 10.
  - intros [[-> [n H]]|(r & log1 & log2 & -> & [n1 H1] & [n2 H2])]; [|by eapply run_then].
    exists n. by apply run_within.
Qed.
Lemma exec_trigger {A} (e : E A) log o :
  exec (ITree.trigger e) log o <->
  (log = [] /\ o = None) \/ exists a, log = [Answered e a] /\ (o = None \/ o = Some a).
Proof.
  split.
  - intros [n H]. destruct (run_Vis n (ITree.trigger e) e (fun x => Ret x) _ _ eq_refl H) as [(_ & -> & ->)|(m & a & log' & _ & -> & H')];
      [by left|]. apply run_Ret in H' as (_ & -> & Ho). eauto.
  - intros [[-> ->]|(a & -> & Ho)]; [apply exec_open|].
    assert (H : exec (Ret a : itree E A) [] o) by by apply exec_Ret.
    destruct H as [n H]. exists (S n). by apply (run_vis n (ITree.trigger e) e (fun x => Ret x)).
Qed.

(** The runs of a loop. *)
Section Loop.
Context {I R : Type} (body : I -> itree E (I + R)).
Inductive loop : I -> list Entry -> option R -> Prop :=
| loop_open i log : exec (body i) log None -> loop i log None
| loop_done i log r o : exec (body i) log (Some (inr r)) -> o = None \/ o = Some r -> loop i log o
| loop_again i log1 j log2 o : exec (body i) log1 (Some (inl j)) -> loop j log2 o -> loop i (log1 ++ log2) o.

Lemma exec_iter i log o : exec (ITree.iter body i) log o -> loop i log o.
Proof.
  intros [n H]. revert i log H. induction n as [n IH] using lt_wf_ind; intros i log H.
  pose (enter := fun lr : I + R => match lr with inl j => Tau (ITree.iter body j) | inr r => Ret r end).
  apply (run_observe n (ITree.iter body i) (ITree.bind (body i) enter) log o eq_refl) in H.
  apply run_bind in H as [[-> H]|([j|r] & log1 & log2 & n1 & n2 & -> & -> & H1 & H2)].
  - apply loop_open. by exists n.
  - eapply loop_again; [by exists n1|]. destruct (run_Tau n2 (Tau (ITree.iter body j)) _ _ _ eq_refl H2) as [(_ & -> & ->)|(m & -> & H3)].
    + apply loop_open, exec_open.
    + apply (IH m); [lia|done].
  - apply run_Ret in H2 as (_ & -> & Ho). rewrite app_nil_r. eapply loop_done; [by exists n1|done].
Qed.
End Loop.

(** A run against a scripted environment, which may refuse to answer. *)
Fixpoint play {S R} (env : forall A, E A -> S -> option (A * S)) (steps : nat) (t : itree E R) (s : S) :
    list Entry * option R :=
  match steps with
  | O => ([], None)
  | Datatypes.S steps =>
      match observe t with
      | RetF r => ([], Some r)
      | TauF u => play env steps u s
      | VisF e k =>
          match env _ e s with
          | Some (a, s) => let '(log, o) := play env steps (k a) s in (Answered e a :: log, o)
          | None => ([], None)
          end
      end
  end.
Lemma play_exec {S R} (env : forall A, E A -> S -> option (A * S)) steps (t : itree E R) s :
  exec t (play env steps t s).1 (play env steps t s).2.
Proof.
  revert t s. induction steps as [|steps IH]; intros t s; simpl; [apply exec_open|].
  destruct (observe t) as [r|u|A e k] eqn:Ht.
  - exists 0%nat. by apply run_ret.
  - destruct (IH u s) as [n Hn]. exists (Datatypes.S n). by eapply run_tau.
  - destruct (env A e s) as [[a s']|]; [|apply exec_open]. specialize (IH (k a) s').
    destruct (play env steps (k a) s') as [log o]. destruct IH as [n Hn]. exists (Datatypes.S n). by eapply run_vis.
Qed.
End Runs.
Arguments Entry E : clear implicits.
