(* ===== verification/Output.v ===== *)
(** * What the client prints (opcda-bridge-client/src/output.rs, commands)

    The rows, JSON values and texts the commands print, with [Display] and [Serialize] of the client's
    types. A printed document is kept as the value the libraries render: a table of headers
    and cells (tabled), a JSON value (serde_json), or a text. Within a text, the digits of an [f64] are left to
    the standard library. *)
From S2P Require Import Prelude Text Rpc Proto Api Compat Service Values Commands.

(** ** Texts and documents *)

Inductive Piece := Str (s : string) | Chars (u : ustr) | Real (x : f64).
Notation Text := (list Piece).

Inductive Json :=
| JNull
| JBool (b : bool)
| JInt (z : Z)
| JReal (x : f64)
| JText (t : Text)
| JList (l : list Json)
| JObject (fields : list (string * Json)).

(** [Table::new(rows)], [to_string_pretty], [to_string], or plain text *)
Inductive Part :=
| Table (headers : list string) (rows : list (list Text))
| Pretty (value : Json)
| Compact (value : Json)
| Plain (text : Text).
Notation Doc := (list Part).

(** The traits of rows. *)
Class Tabled (T : Type) := { headers : list string; cells : T -> list Text }.
Class Serialize (T : Type) := { to_json : T -> Json }.

Definition render {T} `{Tabled T, Serialize T} (rows : list T) (format : OutputFormat) : Doc :=
  match format with
  | TableFormat => [Table headers (map cells rows)]
  | JsonFormat => [Pretty (JList (map to_json rows))]
  end.

(** ** [Display] *)

Definition str (s : string) : Text := [Str s].
Definition chars (u : ustr) : Text := [Chars u].
Definition real (x : f64) : Text := [Real x].
Definition num (z : Z) : Text := [Str (to_decimal z)].
Definition bool_string (b : bool) : string := if b then "true" else "false".
Definition flag (b : bool) : Text := [Str (bool_string b)].

Definition organization_text (value : Api.NamespaceOrganization) : string :=
  match value with
  | UnspecifiedOrganization => "unspecified"
  | FlatOrganization => "flat"
  | HierarchicalOrganization => "hierarchical"
  end.
Definition source_text (value : Api.BrowseSource) : string :=
  match value with
  | UnspecifiedSource => "unspecified"
  | Da3Source => "da3"
  | Da2Source => "da2"
  | FlatSource => "flat"
  | DerivedSource => "derived"
  end.
Definition kind_text (value : Api.BrowseNodeKind) : string :=
  match value with
  | UnspecifiedKind => "unspecified"
  | BranchKind => "branch"
  | ItemKind => "item"
  | BranchAndItemKind => "branch-and-item"
  end.
Definition state_text (value : SearchIndexState) : string :=
  match value with
  | UnspecifiedState => "unspecified"
  | NotIndexedState => "not-indexed"
  | PartialState => "partial"
  | ReadyState => "ready"
  | StaleState => "stale"
  | RefreshingState => "refreshing"
  | PromotingState => "promoting"
  | FailedState => "failed"
  | DeletingState => "deleting"
  end.
Definition controller_text (value : IndexControllerState) : string :=
  match value with
  | UnspecifiedController => "unspecified"
  | RampingController => "ramping"
  | SteadyController => "steady"
  | ThrottledController => "throttled"
  | PausedController => "paused"
  end.
Definition pause_reason_text (value : IndexPauseReason) : string :=
  match value with
  | UnspecifiedReason => "unspecified"
  | ForegroundReason => "foreground"
  | OpcHealthReason => "opc-health"
  | HostCpuReason => "host-cpu"
  | MemoryReason => "memory"
  | DiskReason => "disk"
  | DatabaseReason => "database"
  | OperatorReason => "operator"
  | CircuitReason => "circuit"
  end.
Definition health_text (value : IndexHealthState) : string :=
  match value with
  | UnspecifiedProbe => "unspecified"
  | HealthyProbe => "healthy"
  | UnhealthyProbe => "unhealthy"
  | UnavailableProbe => "unavailable"
  end.
Definition compatibility_source_text (value : CompatibilitySource) : string :=
  match value with
  | FromGatewayInfo => "gateway-info"
  | FromLegacyCapabilities => "legacy-capabilities"
  | SourceUnknown => "unknown"
  end.
Definition feature_status_text (value : FeatureCompatibilityStatus) : string :=
  match value with
  | Compatible => "compatible"
  | Unsupported => "unsupported"
  | Incompatible => "incompatible"
  | Unknown => "unknown"
  end.
Definition compatibility_status_text (value : CompatibilityStatus) : string :=
  match value with
  | Full => "full"
  | PartlyCompatible => "partial"
  | NotCompatible => "incompatible"
  | UnknownCompatibility => "unknown"
  end.
Definition evidence_text (value : CompatibilityEvidence) : string :=
  match value with
  | ContractBoundaryTested => "contract-boundary-tested"
  | ExactPairTested => "exact-pair-tested"
  | Unverified => "unverified"
  end.

(** ** [Serialize] *)

Definition jstr (s : string) : Json := JText (str s).
Definition jopt {A} (f : A -> Json) (o : option A) : Json := from_option f JNull o.

(** ** Simple commands *)

Record ServerRow := { server_name : string }.
#[export] Instance ServerRow_tabled : Tabled ServerRow :=
  {| headers := ["Servers"%string]; cells row := [str (server_name row)] |}.
#[export] Instance ServerRow_serialize : Serialize ServerRow :=
  {| to_json row := JObject [("name"%string, jstr (server_name row))] |}.

(** [ReadRow] has the fields of the client's [TagValue]. *)
#[export] Instance ReadRow_tabled : Tabled ClientTagValue :=
  {| headers := ["Tag"; "Value"; "Quality"; "Timestamp"]%string;
     cells row := [str (client_tag_id row); str (client_value row); str (client_quality row);
                   str (client_timestamp row)] |}.
#[export] Instance ReadRow_serialize : Serialize ClientTagValue :=
  {| to_json row := JObject [("tag_id"%string, jstr (client_tag_id row)); ("value"%string, jstr (client_value row));
                             ("quality"%string, jstr (client_quality row));
                             ("timestamp"%string, jstr (client_timestamp row))] |}.

(** [WriteRow] has the fields of the client's [WriteResult]; a missing error is an empty cell. *)
#[export] Instance WriteRow_tabled : Tabled ClientWriteResult :=
  {| headers := ["Tag"; "Success"; "Error"]%string;
     cells row := [str (client_write_tag row); flag (client_success row); from_option str [] (client_error row)] |}.
#[export] Instance WriteRow_serialize : Serialize ClientWriteResult :=
  {| to_json row := JObject [("tag_id"%string, jstr (client_write_tag row));
                             ("success"%string, JBool (client_success row));
                             ("error"%string, jopt jstr (client_error row))] |}.

(** [CapabilitiesRow] has the fields of [Capabilities], the enumerations as texts. *)
#[export] Instance CapabilitiesRow_tabled : Tabled Capabilities :=
  {| headers := ["Application Version"; "Protocol Version"; "Max Page Size"; "Browse Sessions"; "Search";
                 "Organization"; "Source"; "Indexed Search"; "Index Protocol"; "Index Max Results";
                 "Index State"; "Index Promoting"]%string;
     cells row := [str (cap_application_version row); str (cap_protocol_version row);
                   num (cap_max_page_size row); flag (cap_supports_browse_sessions row);
                   flag (cap_supports_search row); str (organization_text (cap_organization row));
                   str (source_text (cap_source row)); flag (cap_supports_indexed_search row);
                   str (cap_indexed_search_protocol_version row); num (cap_max_indexed_search_results row);
                   str (state_text (cap_search_index_state row)); flag (cap_search_index_promoting row)] |}.
#[export] Instance CapabilitiesRow_serialize : Serialize Capabilities :=
  {| to_json row := JObject
       [("application_version"%string, jstr (cap_application_version row));
        ("protocol_version"%string, jstr (cap_protocol_version row));
        ("max_page_size"%string, JInt (cap_max_page_size row));
        ("supports_browse_sessions"%string, JBool (cap_supports_browse_sessions row));
        ("supports_search"%string, JBool (cap_supports_search row));
        ("organization"%string, jstr (organization_text (cap_organization row)));
        ("source"%string, jstr (source_text (cap_source row)));
        ("supports_indexed_search"%string, JBool (cap_supports_indexed_search row));
        ("indexed_search_protocol_version"%string, jstr (cap_indexed_search_protocol_version row));
        ("max_indexed_search_results"%string, JInt (cap_max_indexed_search_results row));
        ("search_index_state"%string, jstr (state_text (cap_search_index_state row)));
        ("search_index_promoting"%string, JBool (cap_search_index_promoting row))] |}.

(** ** Browsing *)

(** [BrowseNodeRow] *)
#[export] Instance BrowseNodeRow_tabled : Tabled Api.BrowseNode :=
  {| headers := ["Name"; "Kind"; "Item ID"; "Node Key"]%string;
     cells row := [chars (Api.node_display_name row); str (kind_text (Api.node_kind row));
                   from_option chars [] (Api.node_item_id row); str (Api.node_key row)] |}.
#[export] Instance BrowseNodeRow_serialize : Serialize Api.BrowseNode :=
  {| to_json row := JObject
       [("display_name"%string, JText (chars (Api.node_display_name row)));
        ("kind"%string, jstr (kind_text (Api.node_kind row)));
        ("item_id"%string, jopt (fun u => JText (chars u)) (Api.node_item_id row));
        ("node_key"%string, jstr (Api.node_key row))] |}.

(** [BrowseOutput] *)
Definition browse_json (page : Api.BrowsePage) (pages : Z) : Json :=
  JObject [("session_id"%string, jstr (Api.page_session_id page));
           ("nodes"%string, JList (map to_json (Api.page_nodes page)));
           ("next_page_token"%string, jopt jstr (Api.page_next_page_token page));
           ("complete"%string, JBool (Api.page_complete page));
           ("organization"%string, jstr (organization_text (Api.page_organization page)));
           ("source"%string, jstr (source_text (Api.page_source page)));
           ("warning"%string, jopt jstr (Api.page_warning page));
           ("pages"%string, JInt pages)].
Definition newline : string := String (Ascii.ascii_of_nat 10) "".
Definition labelled (label value : string) : string := String.append newline (String.append label value).
Definition render_browse (page : Api.BrowsePage) (pages : Z) (format : OutputFormat) : Doc :=
  match format with
  | JsonFormat => [Pretty (browse_json page pages)]
  | TableFormat =>
      render (Api.page_nodes page) TableFormat ++
      [Plain (map Str
         [labelled "Session: " (Api.page_session_id page);
          labelled "Organization: " (organization_text (Api.page_organization page));
          labelled "Source: " (source_text (Api.page_source page));
          labelled "Complete: " (bool_string (Api.page_complete page));
          labelled "More children available: " (bool_string (negb (Api.page_complete page)));
          labelled "Pages: " (to_decimal pages);
          labelled "Next page token: " (unwrap_or "none"%string (Api.page_next_page_token page))])] ++
      match Api.page_warning page with
      | Some warning => [Plain [Str (labelled "Warning: " warning)]]
      | None => []
      end
  end.

Record CloseSessionRow := { closed_session_id : string }.
#[export] Instance CloseSessionRow_tabled : Tabled CloseSessionRow :=
  {| headers := ["Closed Session"%string]; cells row := [str (closed_session_id row)] |}.
#[export] Instance CloseSessionRow_serialize : Serialize CloseSessionRow :=
  {| to_json row := JObject [("session_id"%string, jstr (closed_session_id row))] |}.
Definition render_close_browse_session (session_id : string) (format : OutputFormat) : Doc :=
  render [{| closed_session_id := session_id |}] format.

(** ** Compatibility *)

(** Enumerations are serialized in snake case. *)
Definition feature_snake (value : CompatibilityFeature) : string :=
  match value with Core => "core" | Namespace => "namespace" | IndexedSearch => "indexed_search" end.
Definition compatibility_source_snake (value : CompatibilitySource) : string :=
  match value with
  | FromGatewayInfo => "gateway_info"
  | FromLegacyCapabilities => "legacy_capabilities"
  | SourceUnknown => "unknown"
  end.
Definition evidence_snake (value : CompatibilityEvidence) : string :=
  match value with
  | ContractBoundaryTested => "contract_boundary_tested"
  | ExactPairTested => "exact_pair_tested"
  | Unverified => "unverified"
  end.
Definition range_json (range : ProtocolVersionRange) : Json :=
  JObject [("min"%string, JInt (range_min range)); ("max"%string, JInt (range_max range))].
Definition feature_json (value : FeatureCompatibility) : Json :=
  JObject [("feature"%string, jstr (feature_snake (result_feature value)));
           ("status"%string, jstr (feature_status_text (result_status value)));
           ("client_versions"%string, range_json (result_client_versions value));
           ("gateway_versions"%string, jopt range_json (result_gateway_versions value));
           ("negotiated_version"%string, jopt JInt (negotiated_version value));
           ("reason"%string, jstr (reason value))].
Definition report_json (report : CompatibilityReport) : Json :=
  JObject [("client_version"%string, jstr (report_client_version report));
           ("library_version"%string, jstr (report_library_version report));
           ("gateway_version"%string, jopt jstr (report_gateway_version report));
           ("source"%string, jstr (compatibility_source_snake (report_source report)));
           ("status"%string, jstr (compatibility_status_text (report_status report)));
           ("evidence"%string, jstr (evidence_snake (report_evidence report)));
           ("features"%string, JList (map feature_json (report_features report)))].

Definition version_range (range : option ProtocolVersionRange) : string :=
  match range with
  | Some range =>
      if range_min range =? range_max range then to_decimal (range_min range) else range_text range
  | None => "unknown"
  end.
Definition compatibility_headers : list string :=
  ["Client"; "Library"; "Gateway"; "Source"; "Overall"; "Evidence"; "Feature"; "Feature Status";
   "Client Versions"; "Gateway Versions"; "Negotiated"; "Reason"]%string.
(** [CompatibilityRow] *)
Definition compatibility_row (report : CompatibilityReport)
    (feature status client_versions gateway_versions negotiated why : string) : list Text :=
  map str [report_client_version report; report_library_version report;
           unwrap_or "unknown"%string (report_gateway_version report);
           compatibility_source_text (report_source report);
           compatibility_status_text (report_status report); evidence_text (report_evidence report);
           feature; status; client_versions; gateway_versions; negotiated; why].
Definition render_compatibility (report : CompatibilityReport) (format : OutputFormat) : Doc :=
  match format with
  | JsonFormat => [Pretty (report_json report)]
  | TableFormat =>
      let rows :=
        match report_features report with
        | [] =>
            [compatibility_row report "none" "unknown" "unknown" "unknown" "none"
               "gateway did not provide a compatibility profile"]
        | features =>
            map (fun f =>
                   compatibility_row report (feature_name (result_feature f))
                     (feature_status_text (result_status f)) (version_range (Some (result_client_versions f)))
                     (version_range (result_gateway_versions f))
                     (from_option to_decimal "none"%string (negotiated_version f)) (reason f)) features
        end in
      [Table compatibility_headers rows]
  end.

(** ** The status of an index

    The outputs of progress, limits, foreground use, host, storage and scheduler have the fields of the
    client's values; [IndexStatusOutput] has the texts of the enumerations. *)

Definition progress_json (value : IndexedSearchProgress) : Json :=
  JObject [("branches_visited"%string, JInt (progress_branches_visited value));
           ("entries_seen"%string, JInt (progress_entries_seen value));
           ("unique_items"%string, JInt (progress_unique_items value));
           ("active_time_ms"%string, JInt (progress_active_time_ms value));
           ("paused_time_ms"%string, JInt (progress_paused_time_ms value));
           ("items_per_second"%string, JReal (progress_items_per_second value));
           ("estimated_remaining_ms"%string, jopt JInt (progress_estimated_remaining_ms value))].
Definition limits_json (value : IndexInventoryLimits) : Json :=
  JObject [("item_rate_per_second"%string, JInt (limits_item_rate_per_second value));
           ("batch_size"%string, JInt (limits_batch_size value));
           ("duty_cycle_percent"%string, JInt (limits_duty_cycle_percent value))].
Definition foreground_json (value : IndexForegroundDiagnostics) : Json :=
  JObject [("active_count"%string, JInt (foreground_active_count value));
           ("operations"%string, JInt (foreground_operations value));
           ("errors"%string, JInt (foreground_errors value));
           ("bad_quality"%string, JInt (foreground_bad_quality value));
           ("latency_p50_ms"%string, jopt JInt (foreground_latency_p50_ms value));
           ("latency_p95_ms"%string, jopt JInt (foreground_latency_p95_ms value));
           ("latency_max_ms"%string, jopt JInt (foreground_latency_max_ms value));
           ("last_error"%string, JBool (foreground_last_error value));
           ("last_bad_quality"%string, JBool (foreground_last_bad_quality value))].
Definition host_json (value : IndexHostDiagnostics) : Json :=
  JObject [("cpu_percent"%string, jopt JReal (host_cpu_percent value));
           ("available_memory_percent"%string, jopt JReal (host_available_memory_percent value));
           ("disk_active_percent"%string, jopt JReal (host_disk_active_percent value));
           ("disk_queue"%string, jopt JReal (host_disk_queue value));
           ("process_working_set_bytes"%string, jopt JInt (host_process_working_set_bytes value));
           ("process_private_bytes"%string, jopt JInt (host_process_private_bytes value));
           ("process_read_bytes_per_second"%string, jopt JInt (host_process_read_bytes_per_second value));
           ("process_write_bytes_per_second"%string, jopt JInt (host_process_write_bytes_per_second value));
           ("disk_free_bytes"%string, jopt JInt (host_disk_free_bytes value))].
Definition storage_json (value : IndexStorageDiagnostics) : Json :=
  JObject [("main_bytes"%string, JInt (storage_main_bytes value));
           ("wal_bytes"%string, JInt (storage_wal_bytes value));
           ("shm_bytes"%string, JInt (storage_shm_bytes value));
           ("free_bytes"%string, jopt JInt (storage_free_bytes value));
           ("last_commit_latency_ms"%string, jopt JInt (storage_last_commit_latency_ms value))].
Definition scheduler_json (value : IndexSchedulerDiagnostics) : Json :=
  JObject [("next_refresh_at"%string, jopt jstr (scheduler_next_refresh_at value));
           ("last_attempt_at"%string, jopt jstr (scheduler_last_attempt_at value));
           ("last_success_at"%string, jopt jstr (scheduler_last_success_at value));
           ("last_success_duration_ms"%string, jopt JInt (scheduler_last_success_duration_ms value));
           ("retry_after"%string, jopt jstr (scheduler_retry_after value));
           ("consecutive_failures"%string, JInt (scheduler_consecutive_failures value));
           ("circuit_open"%string, JBool (scheduler_circuit_open value))].
Definition health_json (value : IndexHealthDiagnostics) : Json :=
  JObject [("state"%string, jstr (health_text (health_state value)));
           ("sentinel_configured"%string, JBool (health_sentinel_configured value))].
Definition status_json (value : SearchIndexStatus) : Json :=
  JObject [("server"%string, jstr (status_server value));
           ("state"%string, jstr (state_text (status_state value)));
           ("auto_refresh_enabled"%string, JBool (status_auto_refresh_enabled value));
           ("active_generation"%string, JInt (status_active_generation value));
           ("entry_count"%string, JInt (status_entry_count value));
           ("unique_item_count"%string, JInt (status_unique_item_count value));
           ("started_at"%string, jopt jstr (status_started_at value));
           ("completed_at"%string, jopt jstr (status_completed_at value));
           ("last_error"%string, jopt jstr (status_last_error value));
           ("database_bytes"%string, JInt (status_database_bytes value));
           ("organization"%string, jstr (organization_text (status_organization value)));
           ("source"%string, jstr (source_text (status_source value)));
           ("progress"%string, jopt progress_json (status_progress value));
           ("effective_limits"%string, jopt limits_json (status_effective_limits value));
           ("controller_state"%string, jstr (controller_text (status_controller_state value)));
           ("pause_reason"%string, jopt (fun r => jstr (pause_reason_text r)) (status_pause_reason value));
           ("pause_reason_detail"%string, jopt jstr (status_pause_reason_detail value));
           ("recovery_deadline"%string, jopt jstr (status_recovery_deadline value));
           ("foreground"%string, foreground_json (status_foreground value));
           ("host"%string, host_json (status_host value));
           ("storage"%string, storage_json (status_storage value));
           ("scheduler"%string, scheduler_json (status_scheduler value));
           ("health"%string, health_json (status_health value));
           ("promoting"%string, JBool (status_promoting value))].

(** A missing value is shown as a dash. *)
Definition dash {A} (show : A -> Text) (o : option A) : Text := from_option show (str "-") o.

Definition limits_rows (limits : IndexInventoryLimits) : list (string * Text) :=
  [("Effective item rate/s"%string, num (limits_item_rate_per_second limits));
   ("Effective batch size"%string, num (limits_batch_size limits));
   ("Effective duty cycle %"%string, num (limits_duty_cycle_percent limits))].
Definition progress_rows (progress : IndexedSearchProgress) : list (string * Text) :=
  [("Branches visited"%string, num (progress_branches_visited progress));
   ("Entries seen"%string, num (progress_entries_seen progress));
   ("Build unique items"%string, num (progress_unique_items progress));
   ("Active time ms"%string, num (progress_active_time_ms progress));
   ("Paused time ms"%string, num (progress_paused_time_ms progress));
   ("Items per second"%string, real (progress_items_per_second progress));
   ("Estimated remaining ms"%string, dash num (progress_estimated_remaining_ms progress))].
Definition foreground_rows (foreground : IndexForegroundDiagnostics) : list (string * Text) :=
  [("Foreground active"%string, num (foreground_active_count foreground));
   ("Foreground operations"%string, num (foreground_operations foreground));
   ("Foreground errors"%string, num (foreground_errors foreground));
   ("Foreground bad quality"%string, num (foreground_bad_quality foreground));
   ("Foreground p50 ms"%string, dash num (foreground_latency_p50_ms foreground));
   ("Foreground p95 ms"%string, dash num (foreground_latency_p95_ms foreground));
   ("Foreground max ms"%string, dash num (foreground_latency_max_ms foreground))].
Definition health_rows (health : IndexHealthDiagnostics) : list (string * Text) :=
  [("Health"%string, str (health_text (health_state health)));
   ("Sentinel configured"%string, flag (health_sentinel_configured health))].
Definition host_rows (host : IndexHostDiagnostics) : list (string * Text) :=
  [("Host CPU %"%string, dash real (host_cpu_percent host));
   ("Available memory %"%string, dash real (host_available_memory_percent host));
   ("Disk active %"%string, dash real (host_disk_active_percent host));
   ("Disk queue"%string, dash real (host_disk_queue host));
   ("Process working set bytes"%string, dash num (host_process_working_set_bytes host));
   ("Process private bytes"%string, dash num (host_process_private_bytes host));
   ("Process read bytes/s"%string, dash num (host_process_read_bytes_per_second host));
   ("Process write bytes/s"%string, dash num (host_process_write_bytes_per_second host));
   ("Index free bytes"%string, dash num (host_disk_free_bytes host))].
Definition storage_rows (storage : IndexStorageDiagnostics) : list (string * Text) :=
  [("SQLite main bytes"%string, num (storage_main_bytes storage));
   ("SQLite WAL bytes"%string, num (storage_wal_bytes storage));
   ("SQLite SHM bytes"%string, num (storage_shm_bytes storage));
   ("SQLite free bytes"%string, dash num (storage_free_bytes storage));
   ("SQLite last commit ms"%string, dash num (storage_last_commit_latency_ms storage))].
Definition scheduler_rows (scheduler : IndexSchedulerDiagnostics) : list (string * Text) :=
  [("Next refresh"%string, dash str (scheduler_next_refresh_at scheduler));
   ("Last attempt"%string, dash str (scheduler_last_attempt_at scheduler));
   ("Last success"%string, dash str (scheduler_last_success_at scheduler));
   ("Last success duration ms"%string, dash num (scheduler_last_success_duration_ms scheduler));
   ("Retry after"%string, dash str (scheduler_retry_after scheduler));
   ("Consecutive failures"%string, num (scheduler_consecutive_failures scheduler));
   ("Circuit open"%string, flag (scheduler_circuit_open scheduler))].
Definition index_status_rows (status : SearchIndexStatus) : list (string * Text) :=
  let diagnostic_label :=
    if negb (String.eqb (state_text (status_state status)) "failed") && is_some (status_last_error status)
    then "Last warning"%string else "Last error"%string in
  [("Server"%string, str (status_server status));
   ("State"%string, str (state_text (status_state status)));
   ("Promoting"%string, flag (status_promoting status));
   ("Auto refresh enabled"%string, flag (status_auto_refresh_enabled status));
   ("Active generation"%string, num (status_active_generation status));
   ("Entries"%string, num (status_entry_count status));
   ("Unique items"%string, num (status_unique_item_count status));
   ("Database bytes"%string, num (status_database_bytes status));
   ("Organization"%string, str (organization_text (status_organization status)));
   ("Source"%string, str (source_text (status_source status)));
   ("Controller state"%string, str (controller_text (status_controller_state status)));
   ("Pause reason"%string, dash (fun r => str (pause_reason_text r)) (status_pause_reason status));
   ("Pause detail"%string, dash str (status_pause_reason_detail status));
   ("Recovery deadline"%string, dash str (status_recovery_deadline status));
   ("Started"%string, dash str (status_started_at status));
   ("Completed"%string, dash str (status_completed_at status));
   (diagnostic_label, dash str (status_last_error status))] ++
  from_option limits_rows [] (status_effective_limits status) ++
  from_option progress_rows [] (status_progress status) ++
  foreground_rows (status_foreground status) ++ health_rows (status_health status) ++
  host_rows (status_host status) ++ storage_rows (status_storage status) ++ scheduler_rows (status_scheduler status).

(** [IndexStatusRow] *)
Definition rows_table (rows : list (string * Text)) : Part :=
  Table ["Metric"; "Value"]%string (map (fun row => [str row.1; row.2]) rows).
Definition render_index_status (status : SearchIndexStatus) (format : OutputFormat) : Doc :=
  match format with
  | JsonFormat => [Pretty (status_json status)]
  | TableFormat => [rows_table (index_status_rows status)]
  end.
Inductive WatchStatusOutput := WatchTable (rendered : Doc) | WatchJson (rendered : Doc).
Definition render_watch_status (status : SearchIndexStatus) (format : OutputFormat) : WatchStatusOutput :=
  match format with
  | TableFormat => WatchTable (render_index_status status format)
  | JsonFormat => WatchJson [Compact (status_json status)]
  end.

(** ** Indexed search *)

Definition indexed_match_json (found : IndexedSearchMatch) : Json :=
  JObject [("breadcrumbs"%string, JList (map (fun u => JText (chars u)) (indexed_breadcrumbs found)));
           ("display_name"%string, JText (chars (indexed_display_name found)));
           ("kind"%string, jstr (kind_text (indexed_kind found)));
           ("item_id"%string, JText (chars (indexed_item_id found)))].
(** [IndexedSearchOutput] *)
Definition indexed_search_json (response : SearchIndexResponse) : Json :=
  JObject [("matches"%string, JList (map indexed_match_json (response_matches response)));
           ("has_more"%string, JBool (response_has_more response));
           ("status"%string, status_json (response_status response))].
(** [slice::join] *)
Fixpoint join_text (separator : string) (texts : list Text) : Text :=
  match texts with
  | [] => []
  | [text] => text
  | text :: rest => text ++ str separator ++ join_text separator rest
  end.
(** [IndexedSearchMatchTableRow] *)
Definition indexed_match_cells (found : IndexedSearchMatch) : list Text :=
  [join_text " / " (map chars (indexed_breadcrumbs found)); chars (indexed_display_name found);
   str (kind_text (indexed_kind found)); chars (indexed_item_id found)].
Definition render_indexed_search (response : SearchIndexResponse) (format : OutputFormat) : Doc :=
  match format with
  | JsonFormat => [Pretty (indexed_search_json response)]
  | TableFormat =>
      [Table ["Breadcrumbs"; "Name"; "Kind"; "Item ID"]%string (map indexed_match_cells (response_matches response));
       Plain [Str (labelled "Has more: " (bool_string (response_has_more response))); Str newline];
       rows_table (index_status_rows (response_status response))]
  end.

(** ** Live search *)

(** [SearchNodeOutput] *)
Definition search_node_json (node : Api.BrowseNode) : Json :=
  JObject [("node_key"%string, jstr (Api.node_key node));
           ("display_name"%string, JText (chars (Api.node_display_name node)));
           ("kind"%string, jstr (kind_text (Api.node_kind node)));
           ("item_id"%string, jopt (fun u => JText (chars u)) (Api.node_item_id node))].
Definition breadcrumb_json (part : Api.BrowseBreadcrumb) : Json :=
  JObject [("node_key"%string, jstr (Api.crumb_node_key part));
           ("display_name"%string, JText (chars (Api.crumb_display_name part)))].
(** [SearchOutputEvent]: the name of the variant is a field *)
Definition tagged (event : string) (fields : list (string * Json)) : Json :=
  JObject (("event"%string, jstr event) :: fields).
(** [search_output_event], serialized *)
Definition search_event_json (event : Api.SearchEvent) : Json :=
  match event with
  | Api.MatchEvent found =>
      tagged "match" [("node"%string, search_node_json (Api.match_node found));
                      ("breadcrumbs"%string, JList (map breadcrumb_json (Api.match_breadcrumbs found)))]
  | Api.ProgressEvent progress =>
      tagged "progress" [("visited_nodes"%string, JInt (Api.search_visited_nodes progress));
                         ("matches"%string, JInt (Api.search_matches progress));
                         ("partial"%string, JBool (Api.search_partial progress))]
  | Api.CompletedEvent completed =>
      tagged "completed" [("complete"%string, JBool (Api.done_complete completed));
                          ("cancelled"%string, JBool (Api.done_cancelled completed));
                          ("truncated"%string, JBool (Api.done_truncated completed));
                          ("warning"%string, jopt jstr (Api.done_warning completed))]
  end.
(** The line of a match. *)
Definition match_line (found : Api.SearchMatch) : Text :=
  let node := Api.match_node found in
  let tab := str (String (Ascii.ascii_of_nat 9) "") in
  join_text " / " (map (fun part => chars (Api.crumb_display_name part)) (Api.match_breadcrumbs found)) ++
  tab ++ chars (Api.node_display_name node) ++ tab ++ str (kind_text (Api.node_kind node)) ++ tab ++
  from_option chars [] (Api.node_item_id node) ++ tab ++ str (Api.node_key node).
Definition progress_line (progress : Api.SearchProgress) : Text :=
  map Str ["Search progress: visited="%string; to_decimal (Api.search_visited_nodes progress);
           ", matches="%string; to_decimal (Api.search_matches progress);
           ", partial="%string; bool_string (Api.search_partial progress)].
Definition search_completion_messages (format : OutputFormat) (completed : Api.SearchCompleted) : list Text :=
  match format with
  | TableFormat =>
      map Str ["Search complete: complete="%string; bool_string (Api.done_complete completed);
               ", cancelled="%string; bool_string (Api.done_cancelled completed);
               ", truncated="%string; bool_string (Api.done_truncated completed)] ::
      match Api.done_warning completed with
      | Some warning => [map Str ["Warning: "%string; warning]]
      | None => []
      end
  | JsonFormat => []
  end.
