(* ===== verification/Paths.v ===== *)
(** * Paths and files of the host

    What [std::path] and [std::fs] do for the gateway and the client. A path the operator wrote is its
    text; the path of the executable is its components, as [Path::components] gives them. *)
From S2P Require Import Prelude Text.

(** [std::fs::read_to_string]: how it fails *)
Inductive ReadError := FileNotFound | FileUnreadable (error : string).

(** ** Paths as text *)

(** [Path::join] of a relative path; on Windows for paths that are not verbatim *)
Definition is_separator (windows : bool) (c : Ascii.ascii) : bool :=
  Ascii.eqb c (Ascii.ascii_of_nat 47) || windows && Ascii.eqb c (Ascii.ascii_of_nat 92).
Definition is_drive (path : string) : bool :=
  match path with
  | String letter (String colon "") =>
      let n := Ascii.nat_of_ascii letter in
      Ascii.eqb colon (Ascii.ascii_of_nat 58) && bool_decide (65 <= n <= 90 \/ 97 <= n <= 122)%nat
  | _ => false
  end.
Fixpoint last_char (s : string) : option Ascii.ascii :=
  match s with
  | "" => None
  | String c "" => Some c
  | String _ rest => last_char rest
  end%string.
Definition join_path (windows : bool) (path part : string) : string :=
  match last_char path with
  | None => part
  | Some c =>
      if is_separator windows c || windows && is_drive path then String.append path part
      else String.append path (String (Ascii.ascii_of_nat (if windows then 92 else 47)) part)
  end.
Definition join_all (windows : bool) (path : string) (parts : list string) : string :=
  fold_left (join_path windows) parts path.

(** ** Paths as components *)

Inductive Component := DrivePrefix (prefix : string) | RootDir | CurDir | ParentDir | Normal (name : string).
Inductive PathBuf :=
| Written (text : string)
| Located (components : list Component).

(** [Path::parent] *)
Definition parent (path : list Component) : option (list Component) :=
  match last path with
  | Some (CurDir | ParentDir | Normal _) => Some (removelast path)
  | _ => None
  end.
(** [exe_path.parent().unwrap_or_else(|| Path::new(".")).join(name)] *)
Definition beside (exe_path : list Component) (name : string) : PathBuf :=
  Located (unwrap_or [CurDir] (parent exe_path) ++ [Normal name]).

Example beside_executable :
  beside [RootDir; Normal "usr"; Normal "bin"; Normal "gateway"] "logs"
    = Located [RootDir; Normal "usr"; Normal "bin"; Normal "logs"] /\
  beside [RootDir] "logs" = Located [CurDir; Normal "logs"].
Proof. split; reflexivity. Qed.
