(* ===== verification/Cli.v ===== *)
(** * The client as a program (opcda-bridge/src/client.rs, opcda-bridge-client/src)

    The methods of the client library and the commands, as programs whose events are what they do to
    the outside: connections, calls and their answers, messages of a stream, Ctrl-C and timers,
    files and output. The runs of a program ([Runs]) are its conversations with the gateway. What the libraries render
    is kept as a value of [Output]; a panic ends a program without a result. *)
From ITree Require Import Core.ITreeDefinition.
From S2P Require Import Prelude Text Rpc Proto Api Compat Service Values Commands Output Runs Paths.

(** ** Events *)

(** The calls of the protocol, with the type of their answers. *)
Inductive rpc : Type -> Type :=
| ListServers (host : string) : rpc (list string)
| GetGatewayInfo : rpc GetGatewayInfoResponse
| GetCapabilities (server : string) : rpc GetCapabilitiesResponse
| Browse (request : Proto.BrowseRequest) : rpc Proto.BrowsePage
| CloseBrowseSession (session_id : string) : rpc unit
| Search (request : Proto.SearchRequest) : rpc unit
| GetSearchIndexStatus (server : string) : rpc Proto.SearchIndexStatus
| RefreshSearchIndex (server : string) (force : bool) : rpc Proto.SearchIndexStatus
| ControlSearchIndex (server : string) (action : Z) : rpc Proto.SearchIndexStatus
| SearchIndex (request : Proto.SearchIndexRequest) : rpc Proto.SearchIndexResponse
| Read (server : string) (tag_ids : list string) : rpc (list Proto.TagValue)
| Write (request : WriteRequest) : rpc Proto.WriteResponse.

Inductive cliE : Type -> Type :=
| Connect (url : string) : cliE (result unit string)
| Call {A} (request : rpc A) : cliE (result A Status)
(** the next message of the search that was opened *)
| Message : cliE (result (option Proto.SearchEvent) Status)
(** [tokio::select!] of a call or a timer and Ctrl-C *)
| CallOrInterrupt {A} (request : rpc A) : cliE (result A Status + result unit string)
| SleepOrInterrupt (seconds : Z) : cliE (unit + result unit string)
| ReadFile (path : string) : cliE (result string ReadError)
| Stdout (document : Doc) : cliE unit
| Stderr (document : Doc) : cliE unit
| Flush : cliE (result unit string)
| Panic (message : string) : cliE False.

Notation prog := (itree cliE).
Notation "'let*' x := t 'in' k" := (ITree.bind t (fun x => k))
  (at level 200, x pattern, t at level 100, k at level 200).
(** [?] in a program *)
Definition try {A B X} (t : prog (result A X)) (k : A -> prog (result B X)) : prog (result B X) :=
  let* r := t in match r with Ok a => k a | Err e => Ret (Err e) end.
Notation "'let+' x := t 'in' k" := (try t (fun x => k))
  (at level 200, x pattern, t at level 100, k at level 200).
Definition perform {A} (e : cliE A) : prog A := ITree.trigger e.
Definition client_errors {A} (t : prog (result A Api.Error)) : prog (result A CommandError) :=
  let* r := t in Ret (map_err ClientError r).

Definition println (d : Doc) : prog unit := perform (Stdout (d ++ [Plain [Str newline]])).
Definition eprintln (t : Text) : prog unit := perform (Stderr [Plain t; Plain [Str newline]]).
Definition flush : prog (result unit CommandError) :=
  let* r := perform Flush in Ret (map_err CommandMessage r).

(** The TOML library, for the client's configuration. *)
Class TomlLibrary := { parse_client_config : string -> result ClientConfig string }.

Section Client.
(** the [Debug] format of a server name *)
Context (debug : string -> string).

(** ** The client library *)

Definition url_of (host : string) : string := String.append "http://" host.
Definition connect (host : string) : prog (result unit Api.Error) :=
  let* r := perform (Connect (url_of host)) in Ret (map_err ConnectError r).
(** A call, its status as an error, and the conversion of its answer. *)
Definition ask {A B} (request : rpc A) (error : Status -> Api.Error) (convert : A -> result B Api.Error) :
    prog (result B Api.Error) :=
  let* answer := perform (Call request) in Ret (let? m := map_err error answer in convert m).

Definition capabilities (server : string) : prog (result Capabilities Api.Error) :=
  ask (GetCapabilities server) (feature_error "capability discovery") Api.capabilities.
Definition gateway_info : prog (result GatewayInfo Api.Error) :=
  ask GetGatewayInfo RpcError gateway_info_from.
Definition compatibility_with_client_version (server : option string) (client_version : string) :
    prog (result CompatibilityReport Api.Error) :=
  match current_client_profile client_version with
  | None =>
      let* x := perform (Panic "reusable client package version must be in the compatibility catalog") in
      match x : False with end
  | Some client_profile =>
      let* info := gateway_info in
      match info with
      | Ok info => Ret (Ok (evaluate_compatibility client_profile (from_gateway_info info)))
      | Err (RpcError status) =>
          match code status, server with
          | Unimplemented, Some server =>
              let+ c := capabilities server in
              Ret (Ok (evaluate_compatibility client_profile (legacy_gateway_profile c)))
          | Unimplemented, None =>
              Ret (Ok (unknown_compatibility_report
                         (unwrap_or ""%string (profile_application_version client_profile))))
          | _, _ => Ret (Err (RpcError status))
          end
      | Err error => Ret (Err error)
      end
  end.
(** [compatibility] gives the library's version as the client's *)
Definition compatibility (server : option string) : prog (result CompatibilityReport Api.Error) :=
  compatibility_with_client_version server library_package_version.
Definition list_servers : prog (result (list string) Api.Error) := ask (ListServers "localhost") RpcError Ok.
Definition browse_page (request : BrowsePageRequest) : prog (result Api.BrowsePage Api.Error) :=
  let* answer := perform (Call (Browse (browse_request request))) in Ret (client_browse_page answer).
Definition open_browse (server : string) (page_size : Z) : prog (result Api.BrowsePage Api.Error) :=
  browse_page {| req_server := server; req_session_id := None; req_parent_node_key := None; req_page_token := None;
                 req_page_size := page_size; req_refresh := false |}.
Definition browse (server : string) (page_size : Z) : prog (result Api.BrowsePage Api.Error) :=
  open_browse server page_size.
Definition close_browse_session (session_id : string) : prog (result unit Api.Error) :=
  ask (CloseBrowseSession session_id) (feature_error "browse-session close") Ok.
Definition search_stream (request : Proto.SearchRequest) : prog (result unit Api.Error) :=
  ask (Search request) (feature_error "namespace search") Ok.
(** [SearchStream::message] *)
Definition decode_message (answer : result (option Proto.SearchEvent) Status) :
    result (option Api.SearchEvent) Api.Error :=
  let? event := map_err RpcError answer in transpose (Api.search_event <$> event).
Definition message : prog (result (option Api.SearchEvent) Api.Error) :=
  let* answer := perform Message in Ret (decode_message answer).
(** [Client::search]: the whole stream *)
Definition collect_event (events : list Api.SearchEvent) :
    prog (list Api.SearchEvent + result (list Api.SearchEvent) Api.Error) :=
  let* event := message in
  Ret match event with
      | Ok (Some event) => inl (events ++ [event])
      | Ok None => inr (Ok events)
      | Err error => inr (Err error)
      end.
Definition search (request : Api.SearchRequest) : prog (result (list Api.SearchEvent) Api.Error) :=
  let+ _ := search_stream (Api.search_request request) in ITree.iter collect_event [].
Definition decode_status (answer : result Proto.SearchIndexStatus Status) : result SearchIndexStatus Api.Error :=
  let? m := map_err (feature_error "indexed-search status") answer in Api.search_index_status m.
Definition search_index_status (server : string) : prog (result SearchIndexStatus Api.Error) :=
  let* answer := perform (Call (GetSearchIndexStatus server)) in Ret (decode_status answer).
Definition refresh_search_index (server : string) (force : bool) : prog (result SearchIndexStatus Api.Error) :=
  let* answer := perform (Call (RefreshSearchIndex server force)) in
  Ret (client_answer debug "indexed-search refresh" server answer).
Definition control_search_index (server : string) (action : SearchIndexControlAction) :
    prog (result SearchIndexStatus Api.Error) :=
  let* answer := perform (Call (ControlSearchIndex server (action_number action))) in
  Ret (client_answer debug "indexed-search control" server answer).
Definition set_search_index_auto_refresh (server : string) (enabled : bool) :
    prog (result SearchIndexStatus Api.Error) :=
  control_search_index server (if enabled then EnableAutoRefreshAction else DisableAutoRefreshAction).
Definition delete_search_index (server : string) : prog (result SearchIndexStatus Api.Error) :=
  control_search_index server DeleteAction.
Definition search_index (request : Proto.SearchIndexRequest) : prog (result SearchIndexResponse Api.Error) :=
  ask (SearchIndex request) (feature_error "indexed search") search_index_response.
Definition read (server : string) (tags : list string) : prog (result (list ClientTagValue) Api.Error) :=
  let* answer := perform (Call (Read server tags)) in Ret (client_read answer).
Definition write (server tag : string) (value : Value) : prog (result ClientWriteResult Api.Error) :=
  let* answer := perform (Call (Write (write_request server tag value))) in Ret (client_write answer).

(** ** Commands *)

(** [Client::connect(&host).await?] and one call, with its result printed *)
Definition connected {A} (host : string) (t : prog (result A CommandError)) : prog (result A CommandError) :=
  let+ _ := client_errors (connect host) in t.
Definition show_answer {A} (host : string) (question : prog (result A Api.Error)) (show : A -> Doc) :
    prog (result unit CommandError) :=
  connected host (let+ a := client_errors question in let* _ := println (show a) in Ret (Ok tt)).

Definition cmd_servers (host : string) (format : OutputFormat) : prog (result unit CommandError) :=
  show_answer host list_servers (fun servers => render (map Build_ServerRow servers) format).
Definition cmd_capabilities (host server : string) (format : OutputFormat) : prog (result unit CommandError) :=
  show_answer host (capabilities server) (fun c => render [c] format).
Definition cmd_read (host server : string) (tags : list string) (format : OutputFormat) :
    prog (result unit CommandError) :=
  show_answer host (read server tags) (fun rows => render rows format).
Definition cmd_write (host server tag value : string) (format : OutputFormat) : prog (result unit CommandError) :=
  show_answer host (write server tag (parse_value value)) (fun row => render [row] format).
Definition cmd_close_browse_session (host session_id : string) (format : OutputFormat) :
    prog (result unit CommandError) :=
  show_answer host (close_browse_session session_id) (fun _ => render_close_browse_session session_id format).
Definition cmd_index_refresh (host server : string) (force : bool) (format : OutputFormat) :
    prog (result unit CommandError) :=
  show_answer host (refresh_search_index server force) (fun status => render_index_status status format).
Definition cmd_index_control (host server : string) (action : SearchIndexControlAction) (format : OutputFormat) :
    prog (result unit CommandError) :=
  show_answer host (control_search_index server action) (fun status => render_index_status status format).
Definition cmd_index_search (host server : string) (query : ustr) (mode : Api.SearchMatchMode) (max_results : Z)
    (format : OutputFormat) : prog (result unit CommandError) :=
  match Commands.cmd_index_search server query mode max_results with
  | Err error => Ret (Err error)
  | Ok request => show_answer host (search_index request) (fun response => render_indexed_search response format)
  end.

(** The last lines of [cmd_compatibility]: the required features that are not compatible. *)
Definition compatibility_failures (report : CompatibilityReport) (required : list CompatibilityFeature) :
    list CompatibilityFeature :=
  List.filter (fun f => negb (is_some_and is_compatible (report_feature report f))) required.
Definition required_or_core (required : list CompatibilityFeature) : list CompatibilityFeature :=
  match required with [] => [Core] | _ => required end.
(** [slice::join] *)
Fixpoint join_names (names : list string) : string :=
  match names with
  | [] => ""
  | [name] => name
  | name :: rest => String.append name (String.append ", " (join_names rest))
  end.
Definition client_package_version : string := "0.6.1".
Definition cmd_compatibility (host : string) (server : option string) (required : list CompatibilityFeature)
    (format : OutputFormat) : prog (result unit CommandError) :=
  connected host (
    let+ report := client_errors (compatibility_with_client_version server client_package_version) in
    let* _ := println (render_compatibility report format) in
    match compatibility_failures report (required_or_core required) with
    | [] => Ret (Ok tt)
    | failures =>
        Ret (Err (CommandMessage (String.append "gateway compatibility check failed for "
                                    (join_names (map feature_name failures)))))
    end).

(** The loop of [cmd_browse]: the page so far and the number of its pages. *)
Definition fetch_more (server : string) (parent_node_key : option string) (page_size : Z) (all : bool)
    (max_results : Z) : Api.BrowsePage * Z -> prog ((Api.BrowsePage * Z) + result (Api.BrowsePage * Z) CommandError) :=
  fun '(combined, pages) =>
    if should_fetch_browse_page all (Api.page_complete combined) (node_count combined) max_results then
      let size := request_size page_size max_results combined in
      let request := browse_request
        (next_request server (Api.page_session_id combined) parent_node_key
           (unwrap_or ""%string (Api.page_next_page_token combined)) size) in
      let* answer := perform (Call (Browse request)) in
      match append_page combined size answer with
      | Err error => Ret (inr (Err error))
      | Ok combined => Ret (inl (combined, next_browse_page_count pages))
      end
    else Ret (inr (Ok (combined, pages))).
Definition expensive_warning (max_results : Z) : Text :=
  [Str (String.append "Warning: --all may be expensive; stopping after at most "
          (String.append (to_decimal max_results) " results"))].
Definition cmd_browse (host server : string) (session_id parent_node_key page_token : option string)
    (page_size : Z) (all : bool) (max_results : Z) (refresh : bool) (format : OutputFormat) :
    prog (result unit CommandError) :=
  if page_size =? 0 then Ret (Err (CommandMessage "--page-size must be greater than zero"))
  else if all && (max_results =? 0) then
    Ret (Err (CommandMessage "--max-results must be greater than zero with --all"))
  else
    let* _ := if all then eprintln (expensive_warning max_results) else Ret tt in
    let size := first_size page_size all max_results in
    connected host (
      let+ combined := client_errors (browse_page
        {| req_server := server; req_session_id := session_id; req_parent_node_key := parent_node_key;
           req_page_token := page_token; req_page_size := size; req_refresh := refresh |}) in
      let+ _ := Ret (ensure_page_bound combined size) in
      let+ fetched := ITree.iter (fetch_more server parent_node_key page_size all max_results) (combined, 1) in
      let '(combined, pages) := fetched in
      let shown :=
        if stopped_at_browse_safety_cap all (Api.page_complete combined) (node_count combined) max_results
        then with_warning combined (merge_warnings (Api.page_warning combined) (Some (cap_warning max_results)))
        else combined in
      let* _ := println (render_browse shown pages format) in Ret (Ok tt)).

(** The loop of [cmd_search]: what an event prints, and the message it leaves on the other stream. *)
Definition show_event (format : OutputFormat) (event : Api.SearchEvent) : prog (result unit CommandError) :=
  match format, event with
  | JsonFormat, _ => let* _ := println [Compact (search_event_json event)] in flush
  | TableFormat, Api.MatchEvent found => let* _ := println [Plain (match_line found)] in flush
  | TableFormat, _ => Ret (Ok tt)
  end.
Fixpoint eprint_lines (lines : list Text) : prog unit :=
  match lines with
  | [] => Ret tt
  | line :: rest => let* _ := eprintln line in eprint_lines rest
  end.
Definition note_event (format : OutputFormat) (event : Api.SearchEvent) : prog unit :=
  match event with
  | Api.ProgressEvent progress => eprintln (progress_line progress)
  | Api.CompletedEvent completed => eprint_lines (search_completion_messages format completed)
  | Api.MatchEvent _ => Ret tt
  end.
Definition next_event (format : OutputFormat) : unit -> prog (unit + result unit CommandError) := fun _ =>
  let* event := message in
  match event with
  | Err error => Ret (inr (Err (ClientError error)))
  | Ok None => Ret (inr (Ok tt))
  | Ok (Some event) =>
      let* shown := show_event format event in
      match shown with
      | Err error => Ret (inr (Err error))
      | Ok _ => let* _ := note_event format event in Ret (inl tt)
      end
  end.
Definition cmd_search (host server : string) (query : ustr) (mode : Api.SearchMatchMode)
    (session_id scope_node_key : option string) (max_results : Z) (include_branches refresh : bool)
    (format : OutputFormat) : prog (result unit CommandError) :=
  match Commands.cmd_search server query mode session_id scope_node_key max_results include_branches refresh with
  | Err error => Ret (Err error)
  | Ok request =>
      connected host (
        let+ _ := client_errors (search_stream request) in
        ITree.iter (next_event format) tt)
  end.

(** The loop of [watch_index_status]. *)
Definition clear_screen : Text :=
  [Str (String (Ascii.ascii_of_nat 27) (String.append "[2J" (String (Ascii.ascii_of_nat 27) "[H")))].
Definition show_watched (format : OutputFormat) (status : SearchIndexStatus) : prog (result unit CommandError) :=
  match render_watch_status status format with
  | WatchTable rendered =>
      let* _ := perform (Stdout [Plain clear_screen]) in
      let* _ := println rendered in
      flush
  | WatchJson rendered => let* _ := println rendered in Ret (Ok tt)
  end.
Definition interrupted (answer : result unit string) : result unit CommandError := map_err CommandMessage answer.
Definition watch_turn (server : string) (format : OutputFormat) (watch_seconds : Z) :
    unit -> prog (unit + result unit CommandError) := fun _ =>
  let* selected := perform (CallOrInterrupt (GetSearchIndexStatus server)) in
  match selected with
  | inr ctrl_c => Ret (inr (interrupted ctrl_c))
  | inl answer =>
      match decode_status answer with
      | Err error => Ret (inr (Err (ClientError error)))
      | Ok status =>
          let* shown := show_watched format status in
          match shown with
          | Err error => Ret (inr (Err error))
          | Ok _ =>
              let* slept := perform (SleepOrInterrupt (Z.max watch_seconds 1)) in
              match slept with
              | inl _ => Ret (inl tt)
              | inr ctrl_c => Ret (inr (interrupted ctrl_c))
              end
          end
      end
  end.
Definition watch_index_status (server : string) (format : OutputFormat) (watch_seconds : Z) :
    prog (result unit CommandError) :=
  ITree.iter (watch_turn server format watch_seconds) tt.
Definition cmd_index_status (host server : string) (format : OutputFormat) (watch_seconds : option Z) :
    prog (result unit CommandError) :=
  match watch_seconds with
  | None => show_answer host (search_index_status server) (fun status => render_index_status status format)
  | Some watch_seconds => connected host (watch_index_status server format watch_seconds)
  end.

(** ** The command line (cli.rs) *)

Inductive RequiredFeature := RequireCore | RequireNamespace | RequireIndexedSearch.
Definition compatibility_feature (value : RequiredFeature) : CompatibilityFeature :=
  match value with
  | RequireCore => Core
  | RequireNamespace => Namespace
  | RequireIndexedSearch => IndexedSearch
  end.
Inductive SearchModeFlag := ExactFlag | PrefixFlag | ContainsFlag.
Definition search_match_mode (value : SearchModeFlag) : Api.SearchMatchMode :=
  match value with
  | ExactFlag => ExactMode
  | PrefixFlag => PrefixMode
  | ContainsFlag => ContainsMode
  end.

Inductive Subcommand :=
| Servers
| CompatibilityCommand (server : option string) (require : list RequiredFeature)
| CapabilitiesCommand (server : option string)
| BrowseCommand (server session_id parent_node_key page_token : option string) (page_size : option Z)
    (all : bool) (max_results : option Z) (refresh : bool)
| CloseBrowseSessionCommand (session_id : string)
| SearchCommand (query : ustr) (server : option string) (match_mode : SearchModeFlag)
    (session_id scope_node_key : option string) (max_results : option Z) (include_branches refresh : bool)
| IndexStatusCommand (server : option string) (watch : option Z)
| IndexSearchCommand (query : ustr) (server : option string) (match_mode : SearchModeFlag) (max_results : option Z)
| IndexRefresh (server : option string) (force : bool)
| IndexPause (server : option string)
| IndexResume (server : option string)
| IndexCancel (server : option string)
| ReadCommand (server : option string) (tags : list string)
| WriteCommand (server : option string) (tag value : string).
Record Cli := {
  cli_host : option string;
  cli_config : option string;
  cli_output : option OutputFormat;
  cli_json : bool;
  command : Subcommand
}.

Definition with_server (server : option string) (config : ClientConfig)
    (k : string -> prog (result unit CommandError)) : prog (result unit CommandError) :=
  match resolve_server server config with
  | Err error => Ret (Err (CommandMessage error))
  | Ok server => k server
  end.
Definition run_command (cli : Cli) (config : ClientConfig) (format : OutputFormat) :
    prog (result unit CommandError) :=
  let host := resolve_host (cli_host cli) config in
  match command cli with
  | Servers => cmd_servers host format
  | CompatibilityCommand server require =>
      cmd_compatibility host (option_or server (config_server config)) (map compatibility_feature require) format
  | CapabilitiesCommand server => with_server server config (fun server => cmd_capabilities host server format)
  | BrowseCommand server session_id parent_node_key page_token page_size all max_results refresh =>
      with_server server config (fun server =>
        cmd_browse host server session_id parent_node_key page_token (resolve_page_size page_size config) all
          (resolve_browse_all_limit max_results config) refresh format)
  | CloseBrowseSessionCommand session_id => cmd_close_browse_session host session_id format
  | SearchCommand query server match_mode session_id scope_node_key max_results include_branches refresh =>
      with_server server config (fun server =>
        cmd_search host server query (search_match_mode match_mode) session_id scope_node_key
          (resolve_search_max_results max_results config) include_branches refresh format)
  | IndexStatusCommand server watch =>
      with_server server config (fun server => cmd_index_status host server format watch)
  | IndexSearchCommand query server match_mode max_results =>
      with_server server config (fun server =>
        cmd_index_search host server query (search_match_mode match_mode)
          (resolve_index_search_max_results max_results config) format)
  | IndexRefresh server force => with_server server config (fun server => cmd_index_refresh host server force format)
  | IndexPause server => with_server server config (fun server => cmd_index_control host server PauseAction format)
  | IndexResume server => with_server server config (fun server => cmd_index_control host server ResumeAction format)
  | IndexCancel server => with_server server config (fun server => cmd_index_control host server CancelAction format)
  | ReadCommand server tags => with_server server config (fun server => cmd_read host server tags format)
  | WriteCommand server tag value =>
      with_server server config (fun server => cmd_write host server tag value format)
  end.

(** ** The configuration (config.rs) *)

Record Environment := {
  xdg_config_home : option string;
  home : option string;
  appdata : option string;
  is_windows : bool
}.
Definition config_path_from (env : Environment) : option string :=
  let join := join_all (is_windows env) in
  if is_windows env then (fun dir => join dir ["opcda-bridge"; "client.toml"]%string) <$> appdata env
  else
    match xdg_config_home env with
    | Some dir => Some (join dir ["opcda-bridge"; "client.toml"]%string)
    | None => (fun dir => join dir [".config"; "opcda-bridge"; "client.toml"]%string) <$> home env
    end.

Context `{TomlLibrary}.
Definition default_config : ClientConfig :=
  {| config_host := None; config_server := None; config_page_size := None; config_browse_all_limit := None;
     config_search_max_results := None; config_index_search_max_results := None; config_output := None |}.
Definition about_config (before path after : string) : CommandError :=
  CommandMessage (String.append before (String.append path after)).
Definition load_config_file (path : string) (missing_is_error : bool) : prog (result ClientConfig CommandError) :=
  let* contents := perform (ReadFile path) in
  Ret match contents with
      | Ok contents =>
          map_err (fun e => about_config "failed to parse config file " path (String.append ": " e))
            (parse_client_config contents)
      | Err FileNotFound =>
          if missing_is_error then Err (about_config "config file not found: " path "") else Ok default_config
      | Err (FileUnreadable e) => Err (about_config "failed to read config file " path (String.append ": " e))
      end.
Definition load_config_from_env (env : Environment) : prog (result ClientConfig CommandError) :=
  match config_path_from env with
  | Some path => load_config_file path false
  | None => Ret (Ok default_config)
  end.
Definition load_config (env : Environment) (explicit_path : option string) :
    prog (result ClientConfig CommandError) :=
  match explicit_path with
  | Some path => load_config_file path true
  | None => load_config_from_env env
  end.

(** ** The process (lib.rs) *)

(** [Display] of a gRPC status, and [Debug] of an [anyhow::Error] *)
Context (status_display : Status -> string) (anyhow_debug : CommandError -> Text).
Inductive ExitCode := Success | Failure.
Definition error_text (error : CommandError) : Text :=
  match error with
  | CommandMessage message => str message
  | ClientError (ConnectError message) => str message
  | ClientError (RpcError status) => str (status_display status)
  | ClientError (IncompatibleGateway operation) =>
      map Str ["gateway does not support "%string; operation;
               "; upgrade the gateway and client to compatible protocol versions"%string]
  | ClientError (UnknownIndexServer server) =>
      map Str ["OPC DA server "%string; debug server; " is not registered"%string]
  | ClientError (IndexNotEnrolled server) =>
      map Str ["namespace index for OPC DA server "%string; debug server; " is not enrolled"%string]
  | ClientError (IndexDeleting server) =>
      map Str ["namespace index for OPC DA server "%string; debug server; " is being deleted"%string]
  | ClientError (ProtocolError message) => map Str ["protocol error: "%string; message]
  end.
(** [output::format_error] *)
Definition format_error (error : CommandError) (format : OutputFormat) : Doc :=
  match format with
  | TableFormat => [Plain (Str "Error: " :: anyhow_debug error)]
  | JsonFormat => [Pretty (JObject [("error"%string, JText (error_text error))])]
  end.
Definition fail (error : CommandError) (format : OutputFormat) : prog ExitCode :=
  let* _ := perform (Stderr (format_error error format ++ [Plain [Str newline]])) in Ret Failure.
Definition run_with_cli (env : Environment) (cli : Cli) : prog ExitCode :=
  let cli_format := resolve_from_cli (cli_json cli) (cli_output cli) in
  let* loaded := load_config env (cli_config cli) in
  match loaded with
  | Err error => fail error (unwrap_or TableFormat cli_format)
  | Ok config =>
      let format := resolve_output cli_format config in
      let* done := run_command cli config format in
      match done with
      | Ok _ => Ret Success
      | Err error => fail error format
      end
  end.
End Client.
