(* ===== verification/CliSpec.v ===== *)
(** * Properties of the client's programs *)
From ITree Require Import Core.ITreeDefinition.
From S2P Require Import Prelude Text Rpc Proto Api Compat Service Values Commands Output Runs Paths Cli CommandsSpec.

Notation Log := (list (Entry cliE)).

(** ** Logs *)

Definition printed (e : Entry cliE) : option Doc :=
  match e with Answered (Stdout d) _ => Some d | _ => None end.
Definition browsed (e : Entry cliE) : option (Proto.BrowseRequest * result Proto.BrowsePage Status) :=
  match e with
  | Answered event a =>
      match event in cliE A return A -> _ with
      | Call r =>
          match r in rpc B return result B Status -> _ with
          | Browse request => fun a => Some (request, a)
          | _ => fun _ => None
          end
      | _ => fun _ => None
      end a
  end.
Definition stdout (log : Log) : list Doc := omap printed log.
Definition pages_asked (log : Log) : list (Proto.BrowseRequest * result Proto.BrowsePage Status) := omap browsed log.

(** Inversion of the runs of a program. *)
Ltac invert_run H :=
  match type of H with
  | exec (ITree.bind _ _) _ _ =>
      let r := fresh "r" in let l1 := fresh "log" in let l2 := fresh "log" in let H1 := fresh "R" in
      apply exec_bind in H as [[-> H]|(r & l1 & l2 & -> & H1 & H)]
  | exec (ITree.trigger _) _ None => apply exec_trigger in H as [[-> _]|(? & -> & _)]
  | exec (ITree.trigger _) _ (Some _) =>
      apply exec_trigger in H as [[_ H]|(? & -> & [H|H])]; [discriminate|discriminate|injection H as H; subst]
  | exec (ITree.trigger _) _ _ => apply exec_trigger in H as [[-> ->]|(? & -> & H)]
  | exec (Ret _) _ None => apply exec_Ret in H as [-> _]
  | exec (Ret _) _ (Some _) => apply exec_Ret in H as [-> [H|H]]; [discriminate|injection H as H; subst]
  | exec (Ret _) _ _ => apply exec_Ret in H as [-> H]
  end.

Lemma exec_try {A B X} (t : prog (result A X)) (k : A -> prog (result B X)) log o :
  exec (try t k) log o ->
  (o = None /\ exec t log None) \/
  (exists e, exec t log (Some (Err e)) /\ (o = None \/ o = Some (Err e))) \/
  exists a log1 log2, log = log1 ++ log2 /\ exec t log1 (Some (Ok a)) /\ exec (k a) log2 o.
Proof.
  unfold try. intros H. apply exec_bind in H as [H|([a|e] & log1 & log2 & -> & H1 & H2)]; [by left| |].
  - right. right. eauto 10.
  - right. left. apply exec_Ret in H2 as [-> Ho]. rewrite app_nil_r. eauto.
Qed.
Lemma exec_client_errors {A} (t : prog (result A Api.Error)) log o :
  exec (client_errors t) log o ->
  (o = None /\ exec t log None) \/
  exists r, exec t log (Some r) /\ (o = None \/ o = Some (map_err ClientError r)).
Proof.
  unfold client_errors. intros H. apply exec_bind in H as [H|(r & log1 & log2 & -> & H1 & H2)]; [by left|].
  right. apply exec_Ret in H2 as [-> Ho]. rewrite app_nil_r. eauto.
Qed.
Lemma exec_connect host log o :
  exec (connect host) log o ->
  (log = [] /\ o = None) \/
  exists a, log = [Answered (Connect (url_of host)) a] /\ (o = None \/ o = Some (map_err ConnectError a)).
Proof.
  unfold connect. intros H. apply exec_bind in H as [[-> H]|(r & log1 & log2 & -> & H1 & H2)].
  - apply exec_trigger in H as [[-> _]|(a & -> & _)]; eauto.
  - apply exec_trigger in H1 as [[_ H1]|(a & -> & [H1|H1])]; [done|done|]. injection H1 as ->.
    apply exec_Ret in H2 as [-> Ho]. right. eauto.
Qed.
Lemma exec_println d log o :
  exec (println d) log o ->
  (log = [] /\ o = None) \/ exists a, log = [Answered (Stdout (d ++ [Plain [Str newline]])) a].
Proof. unfold println. intros H. apply exec_trigger in H as [?|(a & -> & _)]; eauto. Qed.

(** ** [browse] *)

Section Browsing.
Context (server : string) (parent : option string) (page_size : Z) (all : bool) (max_results : Z).

(** The program sends the requests of the paging function on its answers, and ends as it does. *)
Definition agrees (calls : list (Proto.BrowseRequest * result Proto.BrowsePage Status))
    (o : option (result (Api.BrowsePage * Z) CommandError)) (paged : list Proto.BrowseRequest * BrowseOutcome) : Prop :=
  match o with
  | None => map fst calls `prefix_of` paged.1
  | Some (Err error) => paged = (map fst calls, BrowseFailed error)
  | Some (Ok (combined, pages)) => paged = (map fst calls, show all max_results combined pages)
  end.

Notation fetch := (fetch_more server parent page_size all max_results).
Notation paging := (fetch_pages server parent page_size all max_results).
Definition next_size (combined : Api.BrowsePage) : Z := request_size page_size max_results combined.
Definition request_after (combined : Api.BrowsePage) : Proto.BrowseRequest :=
  browse_request (next_request server (Api.page_session_id combined) parent
    (unwrap_or ""%string (Api.page_next_page_token combined)) (next_size combined)).
Definition wants (combined : Api.BrowsePage) : bool :=
  should_fetch_browse_page all (Api.page_complete combined) (node_count combined) max_results.

Lemma fetch_turn combined pages log o :
  exec (fetch (combined, pages)) log o ->
  if wants combined then
    (log = [] /\ o = None) \/
    exists a, log = [Answered (Call (Browse (request_after combined))) a] /\
      (o = None \/
       o = Some (match append_page combined (next_size combined) a with
                 | Err error => inr (Err error)
                 | Ok combined => inl (combined, next_browse_page_count pages)
                 end))
  else log = [] /\ (o = None \/ o = Some (inr (Ok (combined, pages)))).
Proof.
  unfold fetch_more. fold (wants combined). destruct (wants combined); [|apply exec_Ret].
  fold (next_size combined). fold (request_after combined). intros H.
  apply exec_bind in H as [[-> H]|(a & log1 & log2 & -> & R & H)]; [apply exec_trigger in H as [[-> _]|(a & -> & _)]; [by left|right; by eauto]|].
  apply exec_trigger in R as [[_ R]|(a' & -> & [R|R])]; [done|done|]. injection R as ->. right. exists a'.
  destruct (append_page combined (next_size combined) a'); apply exec_Ret in H as [-> Ho]; auto.
Qed.
Lemma paging_nil combined pages :
  paging [] combined pages = if wants combined then ([request_after combined], Waiting) else ([], show all max_results combined pages).
Proof. reflexivity. Qed.
Lemma paging_cons answer rest combined pages :
  paging (answer :: rest) combined pages =
  if wants combined then
    match append_page combined (next_size combined) answer with
    | Err error => ([request_after combined], BrowseFailed error)
    | Ok combined' =>
        let '(requests, outcome) := paging rest combined' (next_browse_page_count pages) in
        (request_after combined :: requests, outcome)
    end
  else ([], show all max_results combined pages).
Proof. reflexivity. Qed.

Lemma fetched_pages state log o :
  loop fetch state log o ->
  stdout log = [] /\ agrees (pages_asked log) o (paging (map snd (pages_asked log)) state.1 state.2).
Proof.
  induction 1 as [[combined pages] log H|[combined pages] log r o H Ho|[combined pages] log1 [c' p'] log2 o H _ [IHs IH]];
    apply fetch_turn in H; cbn [fst snd].
  - destruct (wants combined) eqn:Ew; [|destruct H as [-> _]; split; [done|unfold agrees; simpl; apply prefix_nil]].
    destruct H as [[-> _]|(a & -> & _)]; (split; [done|]); [unfold agrees; simpl; apply prefix_nil|].
    simpl pages_asked. simpl map. rewrite paging_cons, Ew.
    destruct (append_page _ _ a) as [c|e]; unfold agrees; cbn [map fst]; [|by exists []].
    destruct (paging [] c _) as [requests outcome]. by apply prefix_cons, prefix_nil.
  - destruct (wants combined) eqn:Ew.
    + destruct H as [[_ H]|(a & -> & [H|H])]; [done|done|]. split; [done|].
      simpl pages_asked. simpl map. rewrite paging_cons, Ew.
      destruct (append_page combined (next_size combined) a) as [c|e]; [done|]. injection H as ->.
      destruct Ho as [-> | ->]; [by exists []|done].
    + destruct H as [-> [H|H]]; [done|]. injection H as ->. split; [done|]. simpl map. rewrite paging_nil, Ew.
      destruct Ho as [-> | ->]; [unfold agrees; simpl; apply prefix_nil|done].
  - destruct (wants combined) eqn:Ew; [|by destruct H as [_ [H|H]]].
    destruct H as [[_ H]|(a & -> & [H|H])]; [done|done|]. split; [done|].
    simpl pages_asked. simpl map. rewrite paging_cons, Ew.
    destruct (append_page combined (next_size combined) a) as [c|e]; [|done]. injection H as <- <-.
    cbn [fst snd] in IH. change (omap browsed log2) with (pages_asked log2).
    destruct (paging (map snd (pages_asked log2)) c' _) as [requests outcome]. unfold agrees in *.
    destruct o as [[[combined' pages']|error]|]; simpl in *.
    + injection IH as -> ->. done.
    + injection IH as -> ->. done.
    + by apply prefix_cons.
Qed.
End Browsing.

Lemma exec_connected {A} host (t : prog (result A CommandError)) log o :
  exec (connected host t) log o ->
  (log = [] /\ o = None) \/
  exists a log', log = Answered (Connect (url_of host)) a :: log' /\
    match a with
    | Ok _ => exec t log' o
    | Err e => log' = [] /\ (o = None \/ o = Some (Err (ClientError (ConnectError e))))
    end.
Proof.
  unfold connected. intros H.
  assert (Hc : forall log o, exec (client_errors (connect host)) log o ->
    (log = [] /\ o = None) \/
    exists a, log = [Answered (Connect (url_of host)) a] /\ (o = None \/ o = Some (map_err ClientError (map_err ConnectError a)))).
  { clear. intros log o H. apply exec_client_errors in H as [[-> H]|(r & H & Hr)]; apply exec_connect in H as [[-> He]|(a & -> & H)];
      [by left|right; by eauto|done|]. destruct H as [H|H]; [done|]. injection H as ->. right. eauto. }
  apply exec_try in H as [[-> H]|[(e & H & Ho)|(u & log1 & log2 & -> & H & H2)]]; apply Hc in H as [[-> He]|(a & -> & He)].
  - by left.
  - right. exists a, []. split; [done|]. destruct a; [apply exec_open|auto].
  - done.
  - destruct He as [He|He]; [done|]. right. exists a, []. split; [done|]. destruct a as [|e']; [done|]. injection He as ->. auto.
  - done.
  - destruct He as [He|He]; [done|]. right. exists a, log2. split; [done|]. by destruct a.
Qed.

Lemma exec_last {A} (e : cliE A) {R} (r : R) log o :
  exec (let* _ := ITree.trigger e in Ret r) log o ->
  (log = [] /\ o = None) \/ exists a, log = [Answered e a] /\ (o = None \/ o = Some r).
Proof.
  intros H. apply exec_bind in H as [[-> H]|(a & log1 & log2 & -> & R1 & H)].
  - apply exec_trigger in H as [[-> _]|(a & -> & _)]; [by left|right; by eauto].
  - apply exec_trigger in R1 as [[_ R1]|(a' & -> & _)]; [done|]. apply exec_Ret in H as [-> Ho]. right. eauto.
Qed.
Lemma exec_client_call {A B} (r : rpc A) (f : result A Status -> result B Api.Error) log o :
  exec (client_errors (let* a := perform (Call r) in Ret (f a))) log o ->
  (log = [] /\ o = None) \/
  exists a, log = [Answered (Call r) a] /\ (o = None \/ o = Some (map_err ClientError (f a))).
Proof.
  intros H. apply exec_client_errors in H as [[-> H]|(x & H & Hx)];
    apply exec_bind in H as [[He H]|(a & log1 & log2 & -> & R1 & H)]; try done.
  - apply exec_trigger in H as [[-> _]|(a & -> & _)]; [by left|right; by eauto].
  - apply exec_trigger in R1 as [[_ R1]|(a' & -> & _)]; [done|]. apply exec_Ret in H as [-> _]. right. eauto.
  - apply exec_trigger in R1 as [[_ R1]|(a' & -> & [R1|R1])]; [done|done|]. injection R1 as ->.
    apply exec_Ret in H as [-> [H|H]]; [done|]. injection H as ->. right. eauto.
Qed.

(** ** [browse] as a whole *)

Section BrowseRun.
Context (host server : string) (session parent token : option string) (page_size : Z) (all : bool)
  (max_results : Z) (refresh : bool) (format : OutputFormat).
Notation run_browse := (cmd_browse host server session parent token page_size all max_results refresh format).
Notation pure answers := (Commands.cmd_browse server parent page_size all max_results session token refresh answers).
Definition shown_page (page : Api.BrowsePage) (pages : Z) : Doc := render_browse page pages format ++ [Plain [Str newline]].

(** What a run prints and how it ends, against a paging function on its answers. *)
Definition run_agrees (paged : list (result Proto.BrowsePage Status) -> list Proto.BrowseRequest * BrowseOutcome)
    (log : Log) (o : option (result unit CommandError)) : Prop :=
  let calls := pages_asked log in
  match o with
  | None =>
      map fst calls `prefix_of` (paged (map snd calls)).1 /\
      (stdout log = [] \/
       exists page pages, paged (map snd calls) = (map fst calls, Shown page pages) /\ stdout log = [shown_page page pages])
  | Some (Ok _) =>
      exists page pages, paged (map snd calls) = (map fst calls, Shown page pages) /\ stdout log = [shown_page page pages]
  | Some (Err error) => stdout log = [] /\ paged (map snd calls) = (map fst calls, BrowseFailed error)
  end.

Definition first_request : BrowsePageRequest :=
  {| req_server := server; req_session_id := session; req_parent_node_key := parent; req_page_token := token;
     req_page_size := first_size page_size all max_results; req_refresh := refresh |}.
Lemma exec_browse_page log o :
  exec (client_errors (browse_page first_request)) log o ->
  (log = [] /\ o = None) \/
  exists a, log = [Answered (Call (Browse (browse_request first_request))) a] /\
    (o = None \/ o = Some (map_err ClientError (client_browse_page a))).
Proof. apply exec_client_call. Qed.

Definition fetch_and_show (combined : Api.BrowsePage) : prog (result unit CommandError) :=
  let+ fetched := ITree.iter (fetch_more server parent page_size all max_results) (combined, 1) in
  let '(combined, pages) := fetched in
  let shown :=
    if stopped_at_browse_safety_cap all (Api.page_complete combined) (node_count combined) max_results
    then with_warning combined (merge_warnings (Api.page_warning combined) (Some (cap_warning max_results)))
    else combined in
  let* _ := println (render_browse shown pages format) in Ret (Ok tt).
Lemma fetch_and_show_agrees combined log o :
  exec (fetch_and_show combined) log o ->
  run_agrees (fun answers => fetch_pages server parent page_size all max_results answers combined 1) log o.
Proof.
  unfold fetch_and_show. intros H.
  apply exec_try in H as [[-> H]|[(e & H & Ho)|([c pages] & log1 & log2 & -> & H & H2)]];
    apply exec_iter, fetched_pages in H as [Hs Ha]; unfold run_agrees, agrees in *; cbn [fst snd] in Ha.
  - auto.
  - destruct Ho as [-> | ->]; rewrite Ha; [|done]. split; [cbn [fst]; reflexivity|by left].
  - apply exec_last in H2 as [[-> ->]|(u & -> & Ho)]; unfold stdout, pages_asked in *; rewrite ?omap_app, Hs.
    + rewrite app_nil_r. split; [|auto]. rewrite Ha. cbn [fst]; reflexivity.
    + simpl. rewrite app_nil_r. unfold show in Ha.
      destruct Ho as [-> | ->]; [|by eauto]. rewrite Ha. split; [cbn [fst]; reflexivity|]. right. by eauto.
Qed.

Definition ask_pages (answers : list (result Proto.BrowsePage Status)) : list Proto.BrowseRequest * BrowseOutcome :=
  match answers with
  | [] => ([browse_request first_request], Waiting)
  | answer :: rest =>
      match
        (let? page := map_err ClientError (client_browse_page answer) in
         let? _ := ensure_page_bound page (first_size page_size all max_results) in
         Ok page)
      with
      | Err error => ([browse_request first_request], BrowseFailed error)
      | Ok combined =>
          let '(requests, outcome) := fetch_pages server parent page_size all max_results rest combined 1 in
          (browse_request first_request :: requests, outcome)
      end
  end.
Lemma first_page_agrees log o :
  exec (let+ combined := client_errors (browse_page first_request) in
        let+ _ := Ret (ensure_page_bound combined (first_size page_size all max_results)) in
        fetch_and_show combined) log o ->
  run_agrees ask_pages log o.
Proof.
  intros H. apply exec_try in H as [[-> H]|[(e & H & Ho)|(combined & log1 & log2 & -> & H & H2)]];
    apply exec_browse_page in H as [[-> He]|(a & -> & He)]; try discriminate He.
  - split; [apply prefix_nil|by left].
  - split; [|by left].
    change (pages_asked [Answered (Call (Browse (browse_request first_request))) a]) with [(browse_request first_request, a)].
    unfold ask_pages. cbn [map fst snd]. destruct (client_browse_page a) as [page|]; cbn [map_err result_bind fst]; [|reflexivity].
    destruct (ensure_page_bound page _); cbn [result_bind fst]; [|reflexivity].
    destruct (fetch_pages _ _ _ _ _ [] page 1) as [requests outcome]. by apply prefix_cons, prefix_nil.
  - destruct He as [He|He]; [done|]. unfold run_agrees. cbn. destruct (client_browse_page a) as [page|e']; [done|].
    injection He as ->. cbn. destruct Ho as [-> | ->]; [|done]. split; [reflexivity|by left].
  - destruct He as [He|He]; [done|]. destruct (client_browse_page a) as [page|e'] eqn:Ea; [|done]. injection He as ->.
    destruct (ensure_page_bound page (first_size page_size all max_results)) as [u|e] eqn:Ee.
    + assert (H3 : exec (fetch_and_show page) log2 o).
      { apply exec_try in H2 as [[-> H2]|[(e & H2 & Ho)|(u' & l1 & l2 & -> & H2 & H3)]];
          apply exec_Ret in H2 as [-> [H2|H2]]; try discriminate H2; [apply exec_open|done]. }
      apply fetch_and_show_agrees in H3. revert H3. unfold run_agrees, ask_pages.
      change (stdout ([Answered (Call (Browse (browse_request first_request))) a] ++ log2)) with (stdout log2).
      change (pages_asked ([Answered (Call (Browse (browse_request first_request))) a] ++ log2))
        with ((browse_request first_request, a) :: pages_asked log2).
      cbn [map fst snd]. rewrite Ea. cbn [map_err result_bind]. rewrite Ee. cbn [result_bind].
      destruct (fetch_pages _ _ _ _ _ (map snd (pages_asked log2)) page 1) as [requests outcome]. cbn [fst].
      destruct o as [[u0|error]|].
      * intros (p & n & [= -> ->] & ->). by eauto.
      * by intros [-> [= -> ->]].
      * intros [Hp Hs]. split; [by apply prefix_cons|].
        destruct Hs as [->|(p & n & [= -> ->] & ->)]; [by left|right; by eauto].
    + apply exec_try in H2 as [[-> H2]|[(e' & H2 & Ho)|(u' & l1 & l2 & -> & H2 & H3)]];
        apply exec_Ret in H2 as [-> [H2|H2]]; try discriminate H2.
      * unfold run_agrees. cbn. rewrite Ea. cbn. rewrite Ee. split; [reflexivity|by left].
      * injection H2 as ->. unfold run_agrees. cbn. rewrite Ea. cbn. rewrite Ee. cbn.
        destruct Ho as [-> | ->]; [|done]. split; [reflexivity|by left].
Qed.

Lemma browse_run log o :
  exec run_browse log o ->
  run_agrees (fun answers => pure answers) log o \/
  (pages_asked log = [] /\ stdout log = [] /\ exists e, o = Some (Err (ClientError (ConnectError e)))).
Proof.
  unfold cmd_browse, Commands.cmd_browse. intros H.
  destruct (page_size =? 0).
  { left. apply exec_Ret in H as [-> [-> | ->]]; [|done]. split; [apply prefix_nil|by left]. }
  destruct (all && (max_results =? 0)).
  { left. apply exec_Ret in H as [-> [-> | ->]]; [|done]. split; [apply prefix_nil|by left]. }
  change (run_agrees (fun answers => ask_pages answers) log o \/
    (pages_asked log = [] /\ stdout log = [] /\ exists e, o = Some (Err (ClientError (ConnectError e))))).
  assert (Hw : forall log o, exec (if all then eprintln (expensive_warning max_results) else Ret tt) log o ->
                 stdout log = [] /\ pages_asked log = []).
  { clear. intros log o. destruct all; intros H; [|by apply exec_Ret in H as [-> _]].
    unfold eprintln in H. by apply exec_trigger in H as [[-> _]|(u & -> & _)]. }
  apply exec_bind in H as [[-> H]|(u & log1 & log2 & -> & H1 & H)].
  { left. apply Hw in H as [Hs Hp]. unfold run_agrees. rewrite Hs, Hp. split; [apply prefix_nil|by left]. }
  apply Hw in H1 as [Hs Hp]. unfold run_agrees, stdout, pages_asked in *. rewrite !omap_app, Hs, Hp.
  apply exec_connected in H as [[-> ->]|(a & log' & -> & H)].
  { left. split; [apply prefix_nil|by left]. }
  destruct a as [c|e].
  - left. apply first_page_agrees in H. exact H.
  - destruct H as [-> [-> | ->]]; [left; split; [apply prefix_nil|by left]|]. right. by eauto.
Qed.

(** C31: the [browse] program is the paging function. In every run, wherever it stops and whatever the
    gateway answers: the requests it has sent are those of the paging function on the answers it got; it
    succeeds only where the function shows a page, having printed exactly that page, with its number of
    pages; it fails with the function's error, or because it could not connect, having printed nothing;
    and with [--all] it never sends more than [max_results] requests. *)
Theorem browse_program_pages (log : Log) (o : option (result unit CommandError))
    (Hrun : exec run_browse log o) (Hsize : 0 < page_size <= u32_max) (Hmax : 0 < max_results <= u32_max) :
  (run_agrees (fun answers => pure answers) log o \/
   (pages_asked log = [] /\ stdout log = [] /\ exists e, o = Some (Err (ClientError (ConnectError e))))) /\
  (all = true -> Z.of_nat (length (pages_asked log)) <= max_results).
Proof.
  pose proof (browse_run log o Hrun) as H. split; [exact H|]. intros Ha.
  destruct H as [H|(-> & _)]; [|cbn; lia]. revert H. unfold run_agrees. rewrite Ha.
  destruct (Commands.cmd_browse _ _ _ _ _ _ _ _ _) as [requests outcome] eqn:E.
  pose proof (requests_bounded server parent page_size max_results Hsize Hmax _ _ _ _ _ _ E) as Hb.
  assert (Hl : map fst (pages_asked log) `prefix_of` requests -> Z.of_nat (length (pages_asked log)) <= max_results).
  { intros Hp%prefix_length. rewrite length_map in Hp. lia. }
  destruct o as [[u|error]|]; simpl.
  - intros (page & pages & [= -> _] & _). by apply Hl.
  - intros [_ [= -> _]]. by apply Hl.
  - intros [Hp _]. by apply Hl.
Qed.
End BrowseRun.

(** ** [search]: what is received is shown *)

Definition output_of (e : Entry cliE) : option (Doc + Doc) :=
  match e with
  | Answered (Stdout d) _ => Some (inl d)
  | Answered (Stderr d) _ => Some (inr d)
  | _ => None
  end.
(** What a run prints on both streams, in order. *)
Definition outputs (log : Log) : list (Doc + Doc) := omap output_of log.
Definition message_of (e : Entry cliE) : option (result (option Api.SearchEvent) Api.Error) :=
  match e with
  | Answered event a =>
      match event in cliE A return A -> _ with
      | Message => fun a => Some (decode_message a)
      | _ => fun _ => None
      end a
  end.
(** The messages of the stream, as the client reads them, and the events among them. *)
Definition messages (log : Log) : list (result (option Api.SearchEvent) Api.Error) := omap message_of log.
Definition event_of (m : result (option Api.SearchEvent) Api.Error) : option Api.SearchEvent :=
  match m with Ok event => event | Err _ => None end.
Definition received (log : Log) : list Api.SearchEvent := omap event_of (messages log).

Definition line (t : Text) : Doc := [Plain t; Plain [Str newline]].
Lemma messages_app l1 l2 : messages (l1 ++ l2) = messages l1 ++ messages l2.
Proof. apply omap_app. Qed.
Lemma outputs_app l1 l2 : outputs (l1 ++ l2) = outputs l1 ++ outputs l2.
Proof. apply omap_app. Qed.
Lemma received_app l1 l2 : received (l1 ++ l2) = received l1 ++ received l2.
Proof. unfold received. by rewrite messages_app, omap_app. Qed.

(** What an event prints, and the message it leaves on the other stream. *)
Definition event_shown (format : OutputFormat) (event : Api.SearchEvent) : list (Doc + Doc) :=
  match format, event with
  | JsonFormat, _ => [inl [Compact (search_event_json event); Plain [Str newline]]]
  | TableFormat, Api.MatchEvent found => [inl (line (match_line found))]
  | TableFormat, _ => []
  end.
Definition event_noted (format : OutputFormat) (event : Api.SearchEvent) : list (Doc + Doc) :=
  match event with
  | Api.MatchEvent _ => []
  | Api.ProgressEvent progress => [inr (line (progress_line progress))]
  | Api.CompletedEvent completed => map (fun t => inr (line t)) (search_completion_messages format completed)
  end.
Definition event_outputs (format : OutputFormat) (event : Api.SearchEvent) : list (Doc + Doc) :=
  event_shown format event ++ event_noted format event.
Definition shown (format : OutputFormat) (events : list Api.SearchEvent) : list (Doc + Doc) :=
  flat_map (event_outputs format) events.

Lemma exec_eprint_lines lines log o :
  exec (eprint_lines lines) log o ->
  messages log = [] /\ outputs log `prefix_of` map (fun t => inr (line t)) lines /\
  (is_some o = true -> outputs log = map (fun t => inr (line t)) lines).
Proof.
  revert log. induction lines as [|t lines IH]; intros log H; simpl in H.
  - apply exec_Ret in H as [-> _]. done.
  - apply exec_bind in H as [[-> H]|(u & log1 & log2 & -> & R1 & H)].
    + apply exec_trigger in H as [[-> _]|(u & -> & _)]; [split_and!; [done|apply prefix_nil|done]|].
      split_and!; [done|by apply prefix_cons, prefix_nil|done].
    + apply exec_trigger in R1 as [[_ R1]|(u' & -> & _)]; [done|].
      destruct (IH log2 H) as (Hm & Hp & Ho). split_and!; [done|by apply prefix_cons|].
      intros Hs. change (inr (line t) :: outputs log2 = inr (line t) :: map (fun t => inr (line t)) lines). by rewrite Ho.
Qed.
Lemma exec_note_event format event log o :
  exec (note_event format event) log o ->
  messages log = [] /\ outputs log `prefix_of` event_noted format event /\
  (is_some o = true -> outputs log = event_noted format event).
Proof.
  intros H. destruct event; simpl in H.
  - apply exec_Ret in H as [-> _]. done.
  - apply (exec_eprint_lines [progress_line value]). simpl.
    apply exec_trigger in H as [[-> ->]|(u & -> & Ho)]; [apply exec_open|].
    apply exec_bind. right. exists u, [Answered (Stderr (line (progress_line value))) u], [].
    split; [done|]. split; [apply exec_trigger; eauto|]. apply exec_Ret. by destruct u.
  - by apply exec_eprint_lines.
Qed.

(** A flush that fails ends a command. *)
Definition flush_failed (log : Log) (error : CommandError) : Prop :=
  exists m, error = CommandMessage m /\ In (Answered Flush (Err m)) log.
Lemma exec_flushed d log o :
  exec (let* _ := println d in flush) log o ->
  messages log = [] /\ outputs log `prefix_of` [inl (d ++ [Plain [Str newline]])] /\
  forall r, o = Some r -> outputs log = [inl (d ++ [Plain [Str newline]])] /\
    match r with Ok _ => True | Err e => flush_failed log e end.
Proof.
  intros H. apply exec_bind in H as [[-> H]|(u & log1 & log2 & -> & R1 & H)].
  - apply exec_trigger in H as [[-> _]|(u & -> & _)]; (split; [done|]); (split; [|done]); [apply prefix_nil|done].
  - apply exec_trigger in R1 as [[_ R1]|(u' & -> & _)]; [done|]. unfold flush in H.
    apply exec_bind in H as [[-> H]|(a & l1 & l2 & -> & R1 & H)].
    + apply exec_trigger in H as [[-> _]|(a & -> & _)]; (split; [done|]); (split; [done|]); done.
    + apply exec_trigger in R1 as [[_ R1]|(a' & -> & [R1|R1])]; [done|done|]. injection R1 as ->.
      apply exec_Ret in H as [-> Ho]. split; [done|]. split; [done|]. intros r ->.
      destruct Ho as [Ho|Ho]; [done|]. injection Ho as ->. split; [done|].
      destruct a' as [|m]; simpl; [done|]. exists m. split; [done|]. right. by left.
Qed.
Lemma exec_show_event format event log o :
  exec (show_event format event) log o ->
  messages log = [] /\ outputs log `prefix_of` event_shown format event /\
  forall r, o = Some r -> outputs log = event_shown format event /\
    match r with Ok _ => True | Err e => flush_failed log e end.
Proof.
  intros H. destruct format; [destruct event|]; simpl in H; try (apply exec_flushed in H; exact H).
  all: apply exec_Ret in H as [-> Ho]; split_and!; [done|apply prefix_nil|].
  all: intros r ->; destruct Ho as [Ho|Ho]; [done|injection Ho as ->; done].
Qed.

(** One turn of the loop. *)
Lemma next_event_turn format log o :
  exec (next_event format tt) log o ->
  (log = [] /\ o = None) \/
  exists a rest, log = Answered Message a :: rest /\ messages rest = [] /\
    match decode_message a with
    | Err e => rest = [] /\ (o = None \/ o = Some (inr (Err (ClientError e))))
    | Ok None => rest = [] /\ (o = None \/ o = Some (inr (Ok tt)))
    | Ok (Some event) =>
        outputs rest `prefix_of` event_outputs format event /\
        match o with
        | None => True
        | Some (inl _) => outputs rest = event_outputs format event
        | Some (inr r) => exists e, r = Err e /\ flush_failed rest e
        end
    end.
Proof.
  unfold next_event, message. intros H.
  apply exec_bind in H as [[-> H]|(m & log1 & log2 & -> & R1 & H)].
  - apply exec_bind in H as [[_ H]|(a & l1 & l2 & -> & R2 & H)].
    + apply exec_trigger in H as [[-> _]|(a & -> & _)]; [by left|]. right. exists a, [].
      do 2 (split; [done|]). destruct (decode_message a) as [[event|]|e]; [|auto|auto]. split; [apply prefix_nil|done].
    + apply exec_Ret in H as [-> _]. apply exec_trigger in R2 as [[_ R2]|(a' & -> & _)]; [done|].
      right. exists a', []. do 2 (split; [done|]).
      destruct (decode_message a') as [[event|]|e]; [|auto|auto]. split; [apply prefix_nil|done].
  - right. apply exec_bind in R1 as [[R1 _]|(a & l1 & l2 & -> & R2 & R1)]; [done|].
    apply exec_trigger in R2 as [[_ R2]|(a' & -> & [R2|R2])]; [done|done|]. injection R2 as ->.
    apply exec_Ret in R1 as [-> [R1|R1]]; [done|]. injection R1 as ->.
    exists a', log2. split; [done|]. destruct (decode_message a') as [[event|]|e].
    2,3: apply exec_Ret in H as [-> Ho]; auto.
    apply exec_bind in H as [[-> H]|(r & l1 & l2 & -> & R1 & H)].
    { apply exec_show_event in H as (Hm & Hp & _). split; [done|]. split; [|exact I].
      unfold event_outputs. by apply prefix_app_r. }
    apply exec_show_event in R1 as (Hm & _ & Ho). destruct (Ho r eq_refl) as [Hout Hr].
    rewrite messages_app, outputs_app, Hm, Hout. unfold event_outputs. destruct r as [u|e].
    + apply exec_bind in H as [[-> H]|(u' & l3 & l4 & -> & R1 & H)].
      * apply exec_note_event in H as (Hm2 & Hp & _). split; [by rewrite Hm2|]. split; [by apply prefix_app|done].
      * apply exec_note_event in R1 as (Hm2 & _ & Hn). specialize (Hn eq_refl).
        apply exec_Ret in H as [-> Ho']. rewrite app_nil_r, Hm2, Hn. split; [done|].
        split; [done|]. destruct Ho' as [-> | ->]; done.
    + apply exec_Ret in H as [-> Ho']. simpl. rewrite app_nil_r. split; [done|].
      split; [by apply prefix_app_r|]. destruct Ho' as [-> | ->]; [done|]. exists e. split; [done|].
      by rewrite app_nil_r.
Qed.

(** What the run of a stream shows and how it ends. *)
Definition search_streams (format : OutputFormat) (log : Log) (o : option (result unit CommandError)) : Prop :=
  outputs log `prefix_of` shown format (received log) /\
  shown format (removelast (received log)) `prefix_of` outputs log /\
  match o with
  | None => True
  | Some (Ok _) => outputs log = shown format (received log) /\ last (messages log) = Some (Ok None)
  | Some (Err error) =>
      (outputs log = shown format (received log) /\ exists e, last (messages log) = Some (Err e) /\ error = ClientError e) \/
      flush_failed log error
  end.
Lemma flush_failed_app log1 log2 e : flush_failed log1 e \/ flush_failed log2 e -> flush_failed (log1 ++ log2) e.
Proof. intros [(m & -> & H)|(m & -> & H)]; exists m; (split; [done|]); apply in_or_app; auto. Qed.

Lemma message_log a rest :
  messages rest = [] ->
  messages (Answered Message a :: rest) = [decode_message a] /\
  received (Answered Message a :: rest) = match event_of (decode_message a) with Some e => [e] | None => [] end.
Proof.
  intros Hm. assert (H : messages (Answered Message a :: rest) = [decode_message a]).
  { change (decode_message a :: messages rest = [decode_message a]). by rewrite Hm. }
  split; [done|]. unfold received. rewrite H. simpl. by destruct (event_of (decode_message a)).
Qed.

Lemma search_loop format i log o : loop (next_event format) i log o -> search_streams format log o.
Proof.
  induction 1 as [[] log H|[] log r o H Ho|[] log1 [] log2 o H _ IH]; apply next_event_turn in H.
  - destruct H as [[-> _]|(a & rest & -> & Hm & H)]; [by split_and!; try apply prefix_nil|].
    destruct (message_log a rest Hm) as [Hms Hr]. unfold search_streams. rewrite Hr.
    change (outputs (Answered Message a :: rest)) with (outputs rest).
    destruct (decode_message a) as [[event|]|e]; simpl; rewrite ?app_nil_r.
    + destruct H as [Hp _]. split_and!; [done|apply prefix_nil|done].
    + destruct H as [-> _]. split_and!; done.
    + destruct H as [-> _]. split_and!; done.
  - destruct H as [[_ H]|(a & rest & -> & Hm & H)]; [done|].
    destruct (message_log a rest Hm) as [Hms Hr]. unfold search_streams. rewrite Hr, Hms.
    change (outputs (Answered Message a :: rest)) with (outputs rest).
    destruct (decode_message a) as [[event|]|e]; simpl; rewrite ?app_nil_r.
    + destruct H as [Hp (e & -> & m & -> & Hin)]. split_and!; [done|apply prefix_nil|].
      destruct Ho as [-> | ->]; [done|]. right. exists m. split; [done|]. by right.
    + destruct H as [-> [H|H]]; [done|]. injection H as ->. split_and!; [done|done|]. by destruct Ho as [-> | ->].
    + destruct H as [-> [H|H]]; [done|]. injection H as ->. split_and!; [done|done|].
      destruct Ho as [-> | ->]; [done|]. left. split; [done|]. by eauto.
  - destruct H as [[_ H]|(a & rest & -> & Hm & H)]; [done|]. destruct (message_log a rest Hm) as [Hms Hr].
    destruct (decode_message a) as [[event|]|e] eqn:Ed; [|by destruct H as [_ [H|H]]|by destruct H as [_ [H|H]]].
    destruct H as [_ Hout]. destruct IH as (Hp & Hq & IH). unfold search_streams.
    rewrite received_app, outputs_app, messages_app, Hr, Hms.
    change (outputs (Answered Message a :: rest)) with (outputs rest). rewrite Hout. simpl shown. split_and!.
    + by apply prefix_app.
    + destruct (received log2) as [|event' events]; [apply prefix_nil|].
      change (removelast ([event] ++ event' :: events)) with (event :: removelast (event' :: events)).
      simpl. by apply prefix_app.
    + destruct o as [[[]|error]|]; [| |done].
      * destruct IH as [-> Hl]. split; [done|]. by rewrite last_app, Hl.
      * destruct IH as [(-> & e & Hl & He)|He]; [left|right].
        -- split; [done|]. exists e. by rewrite last_app, Hl.
        -- apply flush_failed_app. by right.
Qed.

Lemma exec_ask {A B} (r : rpc A) error (convert : A -> result B Api.Error) log o :
  exec (client_errors (ask r error convert)) log o ->
  (log = [] /\ o = None) \/
  exists a, log = [Answered (Call r) a] /\
    (o = None \/ o = Some (map_err ClientError (let? m := map_err error a in convert m))).
Proof. apply exec_client_call. Qed.

(** C32: a live search shows what it receives, when it receives it. In every run of [search], wherever it
    stops: what is printed, on both streams and in order, is what the received events print, complete except perhaps
    for the last of them; the command succeeds only when the gateway has ended the stream, with
    everything shown; and when it fails, everything received is shown, unless the output itself failed. *)
Theorem search_shows_stream host server query mode session scope max_results include_branches refresh format
    (log : Log) (o : option (result unit CommandError))
    (Hrun : exec (cmd_search host server query mode session scope max_results include_branches refresh format) log o) :
  outputs log `prefix_of` shown format (received log) /\
  shown format (removelast (received log)) `prefix_of` outputs log /\
  (o = Some (Ok tt) -> outputs log = shown format (received log) /\ last (messages log) = Some (Ok None)) /\
  (forall error, o = Some (Err error) -> outputs log = shown format (received log) \/ flush_failed log error).
Proof.
  assert (Hquiet : forall log, outputs log = [] -> messages log = [] -> o <> Some (Ok tt) ->
    outputs log `prefix_of` shown format (received log) /\
    shown format (removelast (received log)) `prefix_of` outputs log /\
    (o = Some (Ok tt) -> outputs log = shown format (received log) /\ last (messages log) = Some (Ok None)) /\
    (forall error, o = Some (Err error) -> outputs log = shown format (received log) \/ flush_failed log error)).
  { clear Hrun log. intros log Ho Hm Hn. unfold received. rewrite Ho, Hm. split_and!; [done|done|done|by left]. }
  unfold cmd_search in Hrun.
  destruct (Commands.cmd_search _ _ _ _ _ _ _ _) as [request|error].
  2: { apply exec_Ret in Hrun as [-> Ho]. apply Hquiet; [done|done|]. by destruct Ho as [-> | ->]. }
  apply exec_connected in Hrun as [[-> ->]|(a & log' & -> & H)]; [by apply Hquiet|].
  destruct a as [c|e]; [|destruct H as [-> Ho]; apply Hquiet; [done|done|by destruct Ho as [-> | ->]]].
  apply exec_try in H as [[-> H]|[(e & H & Ho)|(u & log1 & log2 & -> & H & H2)]]; apply exec_ask in H as [[-> He]|(a & -> & He)];
    try discriminate He.
  - by apply Hquiet.
  - by apply Hquiet.
  - apply Hquiet; [done|done|]. by destruct Ho as [-> | ->].
  - apply exec_iter, search_loop in H2 as (Hp & Hq & H2).
    change (outputs (Answered (Connect (url_of host)) (Ok c) :: [Answered (Call (Search request)) a] ++ log2))
      with (outputs log2).
    change (received (Answered (Connect (url_of host)) (Ok c) :: [Answered (Call (Search request)) a] ++ log2))
      with (received log2).
    change (messages (Answered (Connect (url_of host)) (Ok c) :: [Answered (Call (Search request)) a] ++ log2))
      with (messages log2).
    split_and!; [done|done|by intros ->|]. intros error ->.
    destruct H2 as [[Hs _]|Hf]; [by left|right].
    apply (flush_failed_app [Answered (Connect (url_of host)) (Ok c); Answered (Call (Search request)) a]). by right.
Qed.

(** ** A demonstration *)

(** A gateway that answers the requests for pages in order, and everything else with success. *)
Definition page_gateway : forall A, cliE A -> list (result Proto.BrowsePage Status) -> option (A * list (result Proto.BrowsePage Status)) :=
  fun A e answers =>
    match e in cliE A return option (A * _) with
    | Connect _ => Some (Ok tt, answers)
    | Stdout _ | Stderr _ => Some (tt, answers)
    | Call r =>
        match r in rpc B return option (result B Status * _) with
        | Browse _ => match answers with answer :: rest => Some (answer, rest) | [] => None end
        | _ => None
        end
    | _ => None
    end.
Definition demo_run : Log * option (result unit CommandError) :=
  play page_gateway 100 (cmd_browse "localhost:7600" "plc" None None None 2 true 5 false JsonFormat) demo_answers.

Lemma browse_program_pages_witness :
  (pages_asked demo_run.1).*1 = demo_browse.1 /\ demo_run.2 = Some (Ok tt) /\
  run_agrees JsonFormat (fun answers => Commands.cmd_browse "plc" None 2 true 5 None None false answers) demo_run.1 demo_run.2.
Proof.
  split; [vm_compute; reflexivity|]. split; [vm_compute; reflexivity|].
  destruct (browse_program_pages "localhost:7600" "plc" None None None 2 true 5 false JsonFormat demo_run.1 demo_run.2
    (play_exec _ _ _ _) ltac:(vm_compute; split; [reflexivity|discriminate])
    ltac:(vm_compute; split; [reflexivity|discriminate])) as [[H|(H & _)] _]; [exact H|].
  vm_compute in H. discriminate.
Defined.

(** A gateway that streams messages. *)
Definition stream_gateway : forall A, cliE A -> list (result (option Proto.SearchEvent) Status) ->
    option (A * list (result (option Proto.SearchEvent) Status)) :=
  fun A e unread =>
    match e in cliE A return option (A * _) with
    | Connect _ | Flush => Some (Ok tt, unread)
    | Stdout _ | Stderr _ => Some (tt, unread)
    | Call r =>
        match r in rpc B return option (result B Status * _) with Search _ => Some (Ok tt, unread) | _ => None end
    | Message => match unread with m :: unread => Some (m, unread) | [] => None end
    | _ => None
    end.
Definition demo_progress : Proto.SearchEvent :=
  {| Proto.event := Some (EventProgress
       {| Proto.search_visited_nodes := 3; Proto.search_matches := 0; Proto.search_partial := false |}) |}.
Definition demo_search : Log * option (result unit CommandError) :=
  play stream_gateway 100 (cmd_search "h" "plc" [66] ContainsMode None None 5 false false JsonFormat)
    [Ok (Some demo_progress); Ok (Some demo_progress); Ok None].

Lemma search_shows_stream_witness :
  length (received demo_search.1) = 2%nat /\ length (outputs demo_search.1) = 4%nat /\
  outputs demo_search.1 = shown JsonFormat (received demo_search.1).
Proof.
  split; [vm_compute; reflexivity|]. split; [vm_compute; reflexivity|].
  apply (search_shows_stream "h" "plc" [66] ContainsMode None None 5 false false JsonFormat demo_search.1 demo_search.2
    (play_exec _ _ _ _)). vm_compute. reflexivity.
Defined.
