(* ===== verification/CliRunSpec.v ===== *)
(** * The process of the client: its connection, its errors, and the watch

    Closure rules, one per construct of programs, show how a command uses its connection: nothing
    is asked before it is open, it is opened once at most, and nothing is asked when that failed. *)
From ITree Require Import Core.ITreeDefinition.
From S2P Require Import Prelude Text Rpc Proto Api Compat Service Values Commands Output Runs Paths Cli CliSpec.

(** ** Connections *)

Definition connection_of (e : Entry cliE) : option (string * bool) :=
  match e with
  | Answered event a =>
      match event in cliE A return A -> _ with
      | Connect url => fun a => Some (url, is_ok a)
      | _ => fun _ => None
      end a
  end.
(** The event asks the gateway something. *)
Definition asks (e : Entry cliE) : bool :=
  match e with
  | Answered (Call _) _ | Answered Message _ | Answered (CallOrInterrupt _) _ => true
  | _ => false
  end.
Definition local (e : Entry cliE) : Prop := connection_of e = None /\ asks e = false.
Definition established (e : Entry cliE) : Prop := connection_of e = None.

(** A run that opens at most the one connection, and asks only over it. *)
Definition one_session (url : string) (log : Log) : Prop :=
  Forall local log \/
  exists before e opened after, log = before ++ e :: after /\ Forall local before /\
    connection_of e = Some (url, opened) /\ Forall established after /\ (opened = false -> Forall local after).

Definition offline {R} (t : prog R) : Prop := forall log o, exec t log o -> Forall local log.
Definition online {R} (t : prog R) : Prop := forall log o, exec t log o -> Forall established log.
Definition sessions {R} (url : string) (t : prog R) : Prop := forall log o, exec t log o -> one_session url log.

Lemma local_established log : Forall local log -> Forall established log.
Proof. intros H. eapply Forall_impl; [exact H|]. by intros e []. Qed.

Lemma offline_ret {R} (r : R) : offline (Ret r).
Proof. intros log o [-> _]%exec_Ret. constructor. Qed.
Lemma offline_bind {R T} (t : prog R) (k : R -> prog T) :
  offline t -> (forall r, offline (k r)) -> offline (ITree.bind t k).
Proof.
  intros Ht Hk log o [[_ H]|(r & l1 & l2 & -> & H1 & H2)]%exec_bind; [by eapply Ht|].
  apply Forall_app. split; [by eapply Ht|by eapply Hk].
Qed.
Lemma offline_perform {A} (e : cliE A) : (forall a, local (Answered e a)) -> offline (ITree.trigger e).
Proof. intros He log o [[-> _]|(a & -> & _)]%exec_trigger; repeat constructor; apply He. Qed.
Lemma offline_online {R} (t : prog R) : offline t -> online t.
Proof. intros Ht log o H. by eapply local_established, Ht. Qed.
Lemma online_bind {R T} (t : prog R) (k : R -> prog T) :
  online t -> (forall r, online (k r)) -> online (ITree.bind t k).
Proof.
  intros Ht Hk log o [[_ H]|(r & l1 & l2 & -> & H1 & H2)]%exec_bind; [by eapply Ht|].
  apply Forall_app. split; [by eapply Ht|by eapply Hk].
Qed.
Lemma online_perform {A} (e : cliE A) : (forall a, established (Answered e a)) -> online (ITree.trigger e).
Proof. intros He log o [[-> _]|(a & -> & _)]%exec_trigger; repeat constructor; apply He. Qed.
Lemma online_try {A B X} (t : prog (result A X)) (k : A -> prog (result B X)) :
  online t -> (forall a, online (k a)) -> online (try t k).
Proof.
  intros Ht Hk. unfold try. apply online_bind; [done|]. intros [a|e]; [done|]. apply offline_online, offline_ret.
Qed.
Lemma online_iter {I R} (body : I -> prog (I + R)) i : (forall i, online (body i)) -> online (ITree.iter body i).
Proof.
  intros Hb log o H%exec_iter. induction H as [i log H|i log r o H _|i log1 j log2 o H _ IH]; try by eapply Hb.
  apply Forall_app. split; [by eapply Hb|done].
Qed.

Lemma sessions_offline {R} url (t : prog R) : offline t -> sessions url t.
Proof. intros Ht log o H. left. by eapply Ht. Qed.
Lemma sessions_connected {A} host (t : prog (result A CommandError)) :
  online t -> sessions (url_of host) (connected host t).
Proof.
  intros Ht log o [[-> _]|(a & log' & -> & H)]%exec_connected; [by left|]. right.
  exists [], (Answered (Connect (url_of host)) a), (is_ok a), log'. split_and!; [done|done|done| |].
  - destruct a; [by eapply Ht|]. by destruct H as [-> _].
  - destruct a; [done|]. by destruct H as [-> _].
Qed.
Lemma sessions_after {R T} url (t : prog R) (k : R -> prog T) :
  offline t -> (forall r, sessions url (k r)) -> sessions url (ITree.bind t k).
Proof.
  intros Ht Hk log o [[_ H]|(r & l1 & l2 & -> & H1%Ht & H2%Hk)]%exec_bind; [left; by eapply Ht|].
  destruct H2 as [H2|(before & e & opened & after & -> & Hb & He & Ha & Hc)].
  - left. by apply Forall_app.
  - right. exists (l1 ++ before), e, opened, after. rewrite <- app_assoc. split_and!; try done. by apply Forall_app.
Qed.
Lemma sessions_then {R T} url (t : prog R) (k : R -> prog T) :
  sessions url t -> (forall r, offline (k r)) -> sessions url (ITree.bind t k).
Proof.
  intros Ht Hk log o [[_ H]|(r & l1 & l2 & -> & H1%Ht & H2%Hk)]%exec_bind; [by eapply Ht|].
  destruct H1 as [H1|(before & e & opened & after & -> & Hb & He & Ha & Hc)].
  - left. by apply Forall_app.
  - right. exists before, e, opened, (after ++ l2). rewrite <- app_assoc. split_and!; try done.
    + apply Forall_app. split; [done|by apply local_established].
    + intros Ho. apply Forall_app. auto.
Qed.

(** The rules, applied along the structure of a program. *)
Ltac by_rules :=
  repeat first
    [ progress intros
    | match goal with
      | |- sessions _ (connected _ _) => apply sessions_connected
      | |- sessions _ (Ret _) => apply sessions_offline, offline_ret
      | |- sessions _ (ITree.bind _ _) => apply sessions_after
      | |- online (try _ _) => apply online_try
      | |- online (ITree.iter _ _) => apply online_iter
      | |- online (ITree.bind _ _) => apply online_bind
      | |- online (Ret _) => apply offline_online, offline_ret
      | |- online (ITree.trigger _) => apply online_perform
      | |- online (perform _) => apply online_perform
      | |- offline (ITree.bind _ _) => apply offline_bind
      | |- offline (Ret _) => apply offline_ret
      | |- offline (ITree.trigger _) => apply offline_perform
      | |- offline (perform _) => apply offline_perform
      | |- _ (match ?x with _ => _ end) => destruct x
      | |- _ (let '(_, _) := ?x in _) => destruct x
      end
    | done ].

Lemma online_println d : online (println d).
Proof. unfold println. by_rules. Qed.
Lemma online_client_errors {A} (t : prog (result A Api.Error)) : online t -> online (client_errors t).
Proof. intros Ht. unfold client_errors. by_rules. Qed.
Lemma online_ask {A B} (r : rpc A) error (convert : A -> result B Api.Error) : online (ask r error convert).
Proof. unfold ask. by_rules. Qed.
Lemma sessions_show_answer {A} host (question : prog (result A Api.Error)) show :
  online question -> sessions (url_of host) (show_answer host question show).
Proof.
  intros Hq. unfold show_answer. by_rules; [by apply online_client_errors|apply online_println].
Qed.
Lemma online_eprint_lines lines : online (eprint_lines lines).
Proof. induction lines as [|t lines IH]; simpl; unfold eprintln; by_rules. Qed.
Lemma online_search format i : online (next_event format i).
Proof.
  unfold next_event, message, show_event, note_event, eprintln, flush, println.
  by_rules; apply online_eprint_lines.
Qed.
Lemma online_watch server format seconds : online (watch_index_status server format seconds).
Proof.
  unfold watch_index_status, watch_turn, show_watched, flush, println, perform. by_rules.
Qed.
Lemma online_compatibility server version : online (compatibility_with_client_version server version).
Proof.
  unfold compatibility_with_client_version, gateway_info, capabilities. by_rules; apply online_ask.
Qed.
Lemma online_browse_page request : online (browse_page request).
Proof. unfold browse_page. by_rules. Qed.
Lemma online_fetch server parent page_size all max_results state :
  online (fetch_more server parent page_size all max_results state).
Proof. unfold fetch_more. by_rules. Qed.

Section Process.
Context (debug : string -> string) `{Htoml : TomlLibrary} (status_display : Status -> string)
  (anyhow_debug : CommandError -> Text).
Notation url cli config := (url_of (resolve_host (cli_host cli) config)).

Lemma sessions_browse host server session parent token page_size all max_results refresh format :
  sessions (url_of host) (cmd_browse host server session parent token page_size all max_results refresh format).
Proof.
  unfold cmd_browse, eprintln. by_rules;
    auto using online_client_errors, online_browse_page, online_fetch, online_println.
Qed.
Lemma sessions_search host server query mode session scope max_results branches refresh format :
  sessions (url_of host) (cmd_search host server query mode session scope max_results branches refresh format).
Proof.
  unfold cmd_search, search_stream. by_rules; auto using online_client_errors, online_ask, online_search.
Qed.
Lemma sessions_compatibility host server required format :
  sessions (url_of host) (cmd_compatibility host server required format).
Proof. unfold cmd_compatibility. by_rules; auto using online_client_errors, online_compatibility, online_println. Qed.
Lemma sessions_status host server format watch : sessions (url_of host) (cmd_index_status host server format watch).
Proof.
  unfold cmd_index_status. destruct watch; [apply sessions_connected, online_watch|].
  apply sessions_show_answer. unfold search_index_status. by_rules.
Qed.
Lemma sessions_run_command cli config format : sessions (url cli config) (run_command debug cli config format).
Proof.
  unfold run_command. destruct (command cli); unfold with_server;
    try (destruct (resolve_server _ _); [|apply sessions_offline, offline_ret]);
    auto using sessions_browse, sessions_search, sessions_compatibility, sessions_status;
    unfold cmd_index_search; try (destruct (Commands.cmd_index_search _ _ _ _); [|apply sessions_offline, offline_ret]);
    apply sessions_show_answer; try apply online_ask;
    unfold read, write, refresh_search_index, control_search_index; by_rules.
Qed.
Lemma offline_load_config env path : offline (load_config env path).
Proof. unfold load_config, load_config_from_env, load_config_file. by_rules. Qed.
Lemma offline_fail error format : offline (fail debug status_display anyhow_debug error format).
Proof. unfold fail. by_rules. Qed.
(** The first of the settings that is given. *)
Fixpoint first_given {A} (settings : list (option A)) (default : A) : A :=
  match settings with
  | [] => default
  | Some a :: _ => a
  | None :: settings => first_given settings default
  end.
Definition chosen_host (cli : Cli) (config : ClientConfig) : string :=
  first_given [cli_host cli; config_host config] DEFAULT_HOST.
(** [--json], [--output], the configuration when there is one, else the table. *)
Definition chosen_format (cli : Cli) (config : option ClientConfig) : OutputFormat :=
  first_given [if cli_json cli then Some JsonFormat else None; cli_output cli; config ≫= config_output] TableFormat.
Lemma chosen_host_resolved cli config : resolve_host (cli_host cli) config = chosen_host cli config.
Proof. unfold resolve_host, chosen_host. by destruct (cli_host cli), (config_host config). Qed.
Lemma chosen_format_resolved cli config :
  resolve_output (resolve_from_cli (cli_json cli) (cli_output cli)) config = chosen_format cli (Some config).
Proof.
  unfold resolve_output, resolve_from_cli, chosen_format.
  by destruct (cli_json cli), (cli_output cli); simpl; try destruct (config_output config).
Qed.

(** What an error says. *)
Inductive says : CommandError -> Text -> Prop :=
| says_message message : says (CommandMessage message) [Str message]
| says_connect message : says (ClientError (ConnectError message)) [Str message]
| says_status status : says (ClientError (RpcError status)) [Str (status_display status)]
| says_incompatible operation :
    says (ClientError (IncompatibleGateway operation))
      [Str "gateway does not support "; Str operation;
       Str "; upgrade the gateway and client to compatible protocol versions"]
| says_unknown server :
    says (ClientError (UnknownIndexServer server))
      [Str "OPC DA server "; Str (debug server); Str " is not registered"]
| says_not_enrolled server :
    says (ClientError (IndexNotEnrolled server))
      [Str "namespace index for OPC DA server "; Str (debug server); Str " is not enrolled"]
| says_deleting server :
    says (ClientError (IndexDeleting server))
      [Str "namespace index for OPC DA server "; Str (debug server); Str " is being deleted"]
| says_protocol message :
    says (ClientError (ProtocolError message)) [Str "protocol error: "; Str message].
(** What is printed of it: a line of text, or a JSON object. *)
Inductive printed (error : CommandError) : OutputFormat -> Doc -> Prop :=
| printed_table : printed error TableFormat [Plain (Str "Error: " :: anyhow_debug error)]
| printed_json text : says error text -> printed error JsonFormat [Pretty (JObject [("error"%string, JText text)])].
(** A process that fails with an error prints it, last of all. *)
Inductive fails_with (error : CommandError) (format : OutputFormat) : Log -> option ExitCode -> Prop :=
| fails_pending : fails_with error format [] None
| fails_printed document answer o :
    printed error format document -> o = None \/ o = Some Failure ->
    fails_with error format [Answered (Stderr (document ++ [Plain [Str newline]])) answer] o.

Lemma exec_fail error format log o :
  exec (fail debug status_display anyhow_debug error format) log o -> fails_with error format log o.
Proof.
  unfold fail. intros [[-> ->]|(u & -> & Ho)]%exec_last; [constructor|]. constructor; [|done].
  destruct format; [constructor|]. constructor. destruct error as [message|[]]; constructor.
Qed.

(** C33: the client asks only over one connection, to the gateway it was told. In every run of the process,
    wherever it stops: the configuration is read before anything is asked; when that fails, the process prints
    that error and fails, and nothing is asked; otherwise it runs the command with that configuration, over at
    most one connection, to the host of the command line, the configuration or the default, with nothing asked
    before the connection is open or when it failed; it succeeds exactly when the command does, and when the
    command fails it prints the very error of the command and fails. Errors are printed last of all, in
    the format of [--json], [--output], or the configuration that was read. *)
Theorem client_connects_once env cli (log : Log) (o : option ExitCode)
    (Hrun : exec (run_with_cli debug status_display anyhow_debug env cli) log o) :
  o = None /\ exec (load_config env (cli_config cli)) log None /\ Forall local log \/
  exists loaded loading rest, log = loading ++ rest /\ Forall local loading /\
    exec (load_config env (cli_config cli)) loading (Some loaded) /\
    match loaded with
    | Err error => fails_with error (chosen_format cli None) rest o
    | Ok config =>
        one_session (url_of (chosen_host cli config)) rest /\
        (o = None /\ exec (run_command debug cli config (chosen_format cli (Some config))) rest None \/
         exists running last outcome, rest = running ++ last /\
           exec (run_command debug cli config (chosen_format cli (Some config))) running (Some outcome) /\
           match outcome with
           | Ok _ => last = [] /\ (o = None \/ o = Some Success)
           | Err error => fails_with error (chosen_format cli (Some config)) last o
           end)
    end.
Proof.
  unfold run_with_cli in Hrun. set (flags := resolve_from_cli _ _) in *.
  apply exec_bind in Hrun as [[-> H]|(loaded & l1 & l2 & -> & H1 & H)].
  { left. split_and!; [done..|]. by eapply offline_load_config. }
  right. exists loaded, l1, l2. split_and!; [done|by eapply offline_load_config|done|].
  destruct loaded as [config|error].
  - unfold flags in H. rewrite chosen_format_resolved in H. split.
    + rewrite <- chosen_host_resolved.
      eapply (sessions_then _ (run_command debug cli config (chosen_format cli (Some config))));
        [apply sessions_run_command| |exact H].
      intros [[]|e]; [apply offline_ret|apply offline_fail].
    + apply exec_bind in H as [?|(outcome & l3 & l4 & -> & H2 & H)]; [by left|right].
      exists l3, l4, outcome. split_and!; [done..|]. destruct outcome as [u|error]; [|by apply exec_fail].
      by apply exec_Ret in H.
  - apply exec_fail in H. unfold flags, resolve_from_cli in H. unfold chosen_format.
    by destruct (cli_json cli), (cli_output cli).
Qed.
End Process.

(** ** [index-status --watch] *)

Definition poll_of (e : Entry cliE) : option (result SearchIndexStatus Api.Error) :=
  match e with
  | Answered event a =>
      match event in cliE A return A -> _ with
      | CallOrInterrupt r =>
          match r in rpc B return result B Status + result unit string -> _ with
          | GetSearchIndexStatus _ => fun a => match a with inl a => Some (decode_status a) | inr _ => None end
          | _ => fun _ => None
          end
      | _ => fun _ => None
      end a
  end.
Definition nap_of (e : Entry cliE) : option Z :=
  match e with Answered (SleepOrInterrupt seconds) _ => Some seconds | _ => None end.
Definition ctrl_c_of (e : Entry cliE) : option (result unit string) :=
  match e with
  | Answered event a =>
      match event in cliE A return A -> _ with
      | CallOrInterrupt _ => fun a => match a with inr c => Some c | inl _ => None end
      | SleepOrInterrupt _ => fun a => match a with inr c => Some c | inl _ => None end
      | _ => fun _ => None
      end a
  end.
(** The statuses that were read, the pauses between them, and Ctrl-C. *)
Definition polls (log : Log) : list (result SearchIndexStatus Api.Error) := omap poll_of log.
Definition ok_of {A X} (r : result A X) : option A := match r with Ok a => Some a | Err _ => None end.
Definition statuses (log : Log) : list SearchIndexStatus := omap ok_of (polls log).
Definition naps (log : Log) : list Z := omap nap_of log.
Definition ctrl_c (log : Log) : list (result unit string) := omap ctrl_c_of log.
Definition status_outputs (format : OutputFormat) (status : SearchIndexStatus) : list (Doc + Doc) :=
  match format with
  | TableFormat => [inl [Plain clear_screen]; inl (render_index_status status TableFormat ++ [Plain [Str newline]])]
  | JsonFormat => [inl [Compact (status_json status); Plain [Str newline]]]
  end.
Definition screens (format : OutputFormat) (l : list SearchIndexStatus) : list (Doc + Doc) :=
  flat_map (status_outputs format) l.

Definition silent (log : Log) : Prop := polls log = [] /\ naps log = [] /\ ctrl_c log = [].
Lemma exec_show_watched format status log o :
  exec (show_watched format status) log o ->
  silent log /\ outputs log `prefix_of` status_outputs format status /\
  forall r, o = Some r -> outputs log = status_outputs format status /\
    match r with Ok _ => True | Err e => flush_failed log e end.
Proof.
  unfold show_watched, render_watch_status. intros H.
  assert (Hf : forall d log o, exec (let* _ := println d in flush) log o -> silent log).
  { clear. intros d log o [[_ H]|(u & l1 & l2 & -> & H1 & H2)]%exec_bind.
    - by apply exec_trigger in H as [[-> _]|(u & -> & _)].
    - apply exec_trigger in H1 as [[-> _]|(u' & -> & _)]; unfold flush in H2;
        apply exec_bind in H2 as [[_ H2]|(a & l3 & l4 & -> & H2 & H3)];
        (apply exec_trigger in H2 as [[-> _]|(a' & -> & _)]); try done; by apply exec_Ret in H3 as [-> _]. }
  destruct format; cbn [status_outputs].
  - apply exec_bind in H as [[-> H]|(u & l1 & l2 & -> & H1 & H)].
    + apply exec_trigger in H as [[-> _]|(u & -> & _)]; (split; [done|]); (split; [|done]); [apply prefix_nil|].
      by apply prefix_cons, prefix_nil.
    + apply exec_trigger in H1 as [[_ H1]|(u' & -> & _)]; [done|]. pose proof (Hf _ _ _ H) as Hs.
      apply exec_flushed in H as (_ & Hp & Ho). split; [done|].
      rewrite outputs_app. split; [by apply prefix_cons|]. intros r ->. destruct (Ho r eq_refl) as [-> Hr].
      split; [done|]. destruct r; [done|]. apply flush_failed_app. by right.
  - apply exec_last in H as [[-> ->]|(u & -> & [-> | ->])]; split_and!; try done; try apply prefix_nil.
    intros r [= <-]. done.
Qed.

Section Watch.
Context (server : string) (format : OutputFormat) (watch_seconds : Z).
Notation seconds := (Z.max watch_seconds 1).
Notation poll := (CallOrInterrupt (GetSearchIndexStatus server)).

Lemma watch_turn_run log o :
  exec (watch_turn server format watch_seconds tt) log o ->
  (log = [] /\ o = None) \/
  exists answer rest, log = Answered poll answer :: rest /\ polls rest = [] /\ Forall (eq seconds) (naps rest) /\
    match answer with
    | inr c => rest = [] /\ (o = None \/ o = Some (inr (interrupted c)))
    | inl a =>
        match decode_status a with
        | Err e => rest = [] /\ (o = None \/ o = Some (inr (Err (ClientError e))))
        | Ok status =>
            outputs rest `prefix_of` status_outputs format status /\
            match o with
            | None => True
            | Some (inl _) => outputs rest = status_outputs format status /\ naps rest = [seconds]
            | Some (inr (Ok _)) => outputs rest = status_outputs format status /\ ctrl_c rest = [Ok tt]
            | Some (inr (Err e)) => outputs rest = status_outputs format status \/ flush_failed rest e
            end
        end
    end.
Proof.
  unfold watch_turn. intros [[-> H]|(answer & l1 & log2 & -> & H1 & H)]%exec_bind.
  { apply exec_trigger in H as [[-> _]|(answer & -> & _)]; [by left|]. right. exists answer, [].
    do 3 (split; [done|]). destruct answer as [a|c]; [destruct (decode_status a)|]; auto using prefix_nil. }
  apply exec_trigger in H1 as [[_ H1]|(answer' & -> & [H1|H1])]; [done|done|]. injection H1 as ->.
  right. exists answer', log2. split; [done|].
  destruct answer' as [a|c]; [destruct (decode_status a) as [status|e]|]; try (by apply exec_Ret in H as [-> Ho]).
  apply exec_bind in H as [[-> H]|(r & l1 & l2 & -> & H1 & H)].
  { apply exec_show_watched in H as ((Hp & Hn & _) & Ho & _). by rewrite Hp, Hn. }
  apply exec_show_watched in H1 as ((Hp & Hn & Hc) & _ & Ho). destruct (Ho r eq_refl) as [Hout Hr]. clear Ho.
  unfold polls, naps, ctrl_c in *. rewrite !omap_app, outputs_app, Hp, Hn, Hc, Hout. simpl.
  destruct r as [u|e].
  - apply exec_bind in H as [[-> H]|(slept & l3 & l4 & -> & H1 & H)].
    + apply exec_trigger in H as [[-> _]|(s & -> & _)]; simpl; rewrite app_nil_r; auto.
    + apply exec_trigger in H1 as [[_ H1]|(s & -> & [H1|H1])]; [done|done|]. injection H1 as ->.
      destruct s as [w|c]; apply exec_Ret in H as [-> Ho]; simpl; rewrite app_nil_r; (split; [done|]); (split; [by repeat constructor|]);
        (split; [done|]).
      * by destruct Ho as [-> | ->].
      * destruct Ho as [-> | ->]; [done|]. destruct c as [[]|m]; simpl; auto.
  - apply exec_Ret in H as [-> Ho]. simpl. rewrite app_nil_r. do 3 (split; [done|]).
    destruct Ho as [-> | ->]; [done|]. right. apply flush_failed_app. by left.
Qed.

Definition watch_streams (log : Log) (o : option (result unit CommandError)) : Prop :=
  outputs log `prefix_of` screens format (statuses log) /\
  screens format (removelast (statuses log)) `prefix_of` outputs log /\
  Forall (eq seconds) (naps log) /\ (length (polls log) <= S (length (naps log)))%nat /\
  match o with
  | None => True
  | Some (Ok _) => outputs log = screens format (statuses log) /\ last (ctrl_c log) = Some (Ok tt)
  | Some (Err error) => outputs log = screens format (statuses log) \/ flush_failed log error
  end.

Lemma polled a rest :
  polls rest = [] ->
  polls (Answered poll (inl a) :: rest) = [decode_status a] /\
  statuses (Answered poll (inl a) :: rest) = match ok_of (decode_status a) with Some s => [s] | None => [] end /\
  outputs (Answered poll (inl a) :: rest) = outputs rest /\ naps (Answered poll (inl a) :: rest) = naps rest /\
  ctrl_c (Answered poll (inl a) :: rest) = ctrl_c rest.
Proof.
  intros Hp. assert (H : polls (Answered poll (inl a) :: rest) = [decode_status a]).
  { change (decode_status a :: polls rest = [decode_status a]). by rewrite Hp. }
  split_and!; try done. unfold statuses. rewrite H. simpl. by destruct (ok_of (decode_status a)).
Qed.
Lemma interrupted_at_once c o :
  o = None \/ o = Some (interrupted c) -> watch_streams [Answered poll (inr c)] o.
Proof.
  intros Ho. split_and!; try done; [simpl; lia|].
  destruct Ho as [-> | ->]; [done|]. destruct c as [[]|m]; [done|by left].
Qed.

Lemma watch_loop i log o : loop (watch_turn server format watch_seconds) i log o -> watch_streams log o.
Proof.
  induction 1 as [[] log H|[] log r o H Ho|[] log1 [] log2 o H _ IH]; apply watch_turn_run in H.
  - destruct H as [[-> _]|([a|c] & rest & -> & Hp & Hn & H)].
    + split_and!; try apply prefix_nil; try done; simpl; lia.
    + destruct (polled a rest Hp) as (Hps & Hs & Hout & Hns & _). unfold watch_streams. rewrite Hps, Hs, Hout, Hns.
      destruct (decode_status a) as [status|e]; cbn; rewrite ?app_nil_r.
      * destruct H as [H _]. split_and!; [done|apply prefix_nil|done|lia|done].
      * destruct H as [-> _]. split_and!; [done|done|done|cbn; lia|done].
    + destruct H as [-> _]. apply interrupted_at_once. by left.
  - destruct H as [[_ H]|([a|c] & rest & -> & Hp & Hn & H)]; [done| |].
    + destruct (polled a rest Hp) as (Hps & Hs & Hout & Hns & Hc). unfold watch_streams. rewrite Hps, Hs, Hout, Hns, Hc.
      destruct (decode_status a) as [status|e]; cbn; rewrite ?app_nil_r.
      * destruct H as [H H']. split_and!; [done|apply prefix_nil|done|lia|].
        destruct Ho as [-> | ->]; [done|]. destruct r as [[]|e].
        -- by destruct H' as [-> ->].
        -- destruct H' as [->|H']; [by left|]. right. by apply (flush_failed_app [_]); right.
      * destruct H as [-> [H|H]]; [done|]. injection H as ->. split_and!; [done|done|done|cbn; lia|].
        destruct Ho as [-> | ->]; [done|by left].
    + destruct H as [-> [H|H]]; [done|]. injection H as ->. by apply interrupted_at_once.
  - destruct H as [[_ H]|([a|c] & rest & -> & Hp & Hn & H)]; [done| |by destruct H as [_ [H|H]]].
    destruct (polled a rest Hp) as (Hps & Hs & Hout & Hns & Hc).
    destruct (decode_status a) as [status|e]; [|by destruct H as [_ [H|H]]].
    destruct H as (_ & Hf & Hn1). destruct IH as (Ip & Iq & In & Il & IH). unfold watch_streams.
    unfold statuses, polls, naps, ctrl_c in *. rewrite !omap_app, outputs_app, Hps, Hout, Hns, Hf, Hn1.
    simpl. split_and!.
    + by apply prefix_app.
    + fold (statuses log2). destruct (omap ok_of (omap poll_of log2)) as [|status' l]; [apply prefix_nil|].
      change (removelast (status :: status' :: l)) with (status :: removelast (status' :: l)). simpl. by apply prefix_app.
    + by constructor.
    + simpl in *. lia.
    + destruct o as [[[]|error]|]; [| |done].
      * destruct IH as [-> Hl]. split; [done|]. by rewrite last_app, Hl.
      * destruct IH as [->|He]; [by left|right]. apply (flush_failed_app (_ :: _)). by right.
Qed.
End Watch.

(** C34: watching an index shows every status it reads, at the asked pace. In every run of [index-status --watch],
    wherever it stops: the statuses are printed in the order they were read, each before the next is asked for; between two questions lie
    the seconds asked for, one at least; the command succeeds only on Ctrl-C, with everything shown; and
    when it fails, everything read is shown, unless the output itself failed. *)
Theorem watch_shows_statuses (host server : string) (format : OutputFormat) (watch_seconds : Z)
    (log : Log) (o : option (result unit CommandError))
    (Hrun : exec (cmd_index_status host server format (Some watch_seconds)) log o) :
  watch_streams format watch_seconds log o.
Proof.
  apply exec_connected in Hrun as [[-> ->]|([c|e] & log' & -> & H)].
  - split_and!; done || apply prefix_nil || (simpl; lia).
  - apply exec_iter, watch_loop in H. destruct H as (Hp & Hq & Hn & Hl & H). split_and!; try done.
    destruct o as [[u|error]|]; [done| |done]. destruct H as [H|H]; [by left|right]. apply (flush_failed_app [_]). by right.
  - destruct H as [-> Ho]. split_and!; try done; [simpl; lia|]. destruct Ho as [-> | ->]; [done|by left].
Qed.

(** ** [compatibility] *)

(** The command succeeds exactly where the report satisfies what is required. *)
Lemma failures_satisfied report required :
  compatibility_failures report required = [] <-> satisfies report required = true.
Proof.
  induction required as [|f required IH]; [done|]. unfold compatibility_failures, satisfies in *. simpl.
  destruct (is_some_and is_compatible (report_feature report f)); simpl; [exact IH|]. by split.
Qed.
Lemma compatibility_enforced host server required format log r :
  exec (cmd_compatibility host server required format) log (Some r) ->
  (exists e, r = Err (ClientError e)) \/
  exists report, In (inl (render_compatibility report format ++ [Plain [Str newline]])) (outputs log) /\
    (is_ok r = true <-> satisfies report (required_or_core required) = true).
Proof.
  intros [[_ H]|([c|e] & log' & -> & H)]%exec_connected; [done| |destruct H as [_ [H|H]]; [done|]; injection H as ->; by eauto].
  apply exec_try in H as [[H _]|[(e & H & Ho)|(report & l1 & l2 & -> & H1 & H)]]; [done| |].
  - apply exec_client_errors in H as [[H _]|(x & _ & H)]; [done|]. destruct H as [H|H]; [done|].
    destruct x; [done|]. injection H as ->. destruct Ho as [Ho|Ho]; [done|]. injection Ho as ->. by eauto.
  - right. exists report. apply exec_bind in H as [[H _]|(u & l3 & l4 & -> & H2 & H)]; [done|].
    apply exec_trigger in H2 as [[_ H2]|(u' & -> & _)]; [done|]. split.
    + change (outputs (Answered (Connect (url_of host)) (Ok c) :: ?l)) with (outputs l).
      rewrite !outputs_app. apply in_or_app. right. by left.
    + rewrite <- failures_satisfied. destruct (compatibility_failures _ _); apply exec_Ret in H as [_ [H|H]]; try done;
        injection H as ->; done.
Qed.

(** ** [Client::search] *)

Lemma exec_read_message {R} (f : result (option Api.SearchEvent) Api.Error -> R) log x :
  exec (let* event := message in Ret (f event)) log (Some x) ->
  exists a, messages log = [decode_message a] /\
    received log = match event_of (decode_message a) with Some e => [e] | None => [] end /\ x = f (decode_message a).
Proof.
  unfold message. intros [[H _]|(m & l1 & l2 & -> & H1 & H)]%exec_bind; [done|].
  apply exec_Ret in H as [-> [H|H]]; [done|]. injection H as ->.
  apply exec_bind in H1 as [[H1 _]|(a & l3 & l4 & -> & H2 & H1)]; [done|].
  apply exec_trigger in H2 as [[_ H2]|(a' & -> & [H2|H2])]; [done|done|]. injection H2 as ->.
  apply exec_Ret in H1 as [-> [H1|H1]]; [done|]. injection H1 as ->.
  exists a'. rewrite app_nil_r. destruct (message_log a' [] eq_refl) as [Hm Hr]. by split_and!.
Qed.
Definition collected (log : Log) (before : list Api.SearchEvent) (r : result (list Api.SearchEvent) Api.Error) : Prop :=
  match r with
  | Ok events => events = before ++ received log /\ last (messages log) = Some (Ok None)
  | Err e => last (messages log) = Some (Err e)
  end.
Lemma collect_loop log before r :
  exec (ITree.iter collect_event before) log (Some r) -> collected log before r.
Proof.
  intros H%exec_iter. remember (Some r) as o eqn:Ho. revert r Ho.
  induction H as [before log H|before log r' o H Ho|before log1 before' log2 o H _ IH]; intros r Hr; [done|subst o..].
  - destruct Ho as [Ho|Ho]; [done|]. injection Ho as ->.
    apply exec_read_message in H as (a & Hm & Hr & Hx). unfold collected. rewrite Hm, Hr.
    destruct (decode_message a) as [[event|]|e]; [done| |]; injection Hx as ->; [by rewrite app_nil_r|done].
  - specialize (IH r eq_refl). apply exec_read_message in H as (a & Hm & Hr & Hx). unfold collected in *.
    rewrite received_app, messages_app, Hm, Hr, last_app.
    destruct (decode_message a) as [[event|]|e]; [|done|done]. injection Hx as ->.
    destruct r as [events|e]; [|by rewrite IH]. destruct IH as [-> ->]. by rewrite <- app_assoc.
Qed.

(** The collected search has exactly the events of its stream, which the gateway has ended. *)
Lemma collected_events request log r :
  exec (search request) log (Some r) ->
  match r with
  | Ok events => events = received log /\ last (messages log) = Some (Ok None)
  | Err e => messages log = [] \/ last (messages log) = Some (Err e)
  end.
Proof.
  assert (Hq : forall log o, exec (search_stream (Api.search_request request)) log o -> messages log = []).
  { clear. unfold search_stream, ask. intros log o [[_ H]|(a & l1 & l2 & -> & H1 & H)]%exec_bind.
    - by apply exec_trigger in H as [[-> _]|(a & -> & _)].
    - apply exec_Ret in H as [-> _]. by apply exec_trigger in H1 as [[-> _]|(a' & -> & _)]. }
  unfold search. intros [[H _]|[(e & H & Ho)|(u & l1 & l2 & -> & H1 & H)]]%exec_try; [done| |].
  - destruct Ho as [Ho|Ho]; [done|]. injection Ho as ->. left. by eapply Hq.
  - apply collect_loop in H. apply Hq in H1. unfold received. rewrite messages_app, H1.
    destruct r; [exact H|by right].
Qed.

(** ** Demonstrations *)

Definition any_toml : TomlLibrary := {| parse_client_config _ := Ok default_config |}.
(** A host without a configuration, whose gateway refuses connections. *)
Definition refusing_host : forall A, cliE A -> unit -> option (A * unit) :=
  fun A e s =>
    match e in cliE A return option (A * unit) with
    | Connect _ => Some (Err "refused"%string, s)
    | ReadFile _ => Some (Err FileNotFound, s)
    | Stdout _ | Stderr _ => Some (tt, s)
    | _ => None
    end.
Definition demo_environment : Environment :=
  {| xdg_config_home := None; home := Some "/home/me"%string; appdata := None; is_windows := false |}.
Definition demo_cli : Cli :=
  {| cli_host := Some "plant:7600"%string; cli_config := None; cli_output := None; cli_json := true; command := Servers |}.
Definition demo_process : Log * option ExitCode :=
  play refusing_host 100
    (@run_with_cli (fun s => s) any_toml Rpc.message (fun _ => []) demo_environment demo_cli) tt.

(** The gateway refuses the connection: the only thing printed is that. *)
Lemma client_connects_once_witness :
  omap connection_of demo_process.1 = [("http://plant:7600"%string, false)] /\
  demo_process.2 = Some Failure /\
  exists error document, outputs demo_process.1 = [inr (document ++ [Plain [Str newline]])] /\
    printed (fun s => s) Rpc.message (fun _ => []) error JsonFormat document.
Proof.
  assert (Ec : omap connection_of demo_process.1 = [("http://plant:7600"%string, false)])
    by (vm_compute; reflexivity).
  assert (Eo : demo_process.2 = Some Failure) by (vm_compute; reflexivity).
  assert (En : length (outputs demo_process.1) = 1%nat) by (vm_compute; reflexivity).
  split; [exact Ec|]. split; [exact Eo|].
  assert (Hrun : exec (@run_with_cli (fun s => s) any_toml Rpc.message (fun _ => []) demo_environment demo_cli)
    demo_process.1 demo_process.2) by apply play_exec.
  destruct (@client_connects_once (fun s => s) any_toml Rpc.message (fun _ => []) demo_environment demo_cli
    demo_process.1 demo_process.2 Hrun) as [[? _]|(loaded & loading & rest & E & _ & _ & H)]; [congruence|].
  assert (Hprinted : forall format log o error,
    fails_with (fun s => s) Rpc.message (fun _ => []) error format log o -> o = Some Failure ->
    exists document, outputs log = [inr (document ++ [Plain [Str newline]])] /\
      printed (fun s => s) Rpc.message (fun _ => []) error format document).
  { intros format log o error [|document answer o' Hp _] Ho; [done|]. by exists document. }
  assert (Hlast : forall before log error document, outputs demo_process.1 = before ++ outputs log ->
    outputs log = [inr (document ++ [Plain [Str newline]])] ->
    printed (fun s => s) Rpc.message (fun _ => []) error JsonFormat document ->
    exists error document, outputs demo_process.1 = [inr (document ++ [Plain [Str newline]])] /\
      printed (fun s => s) Rpc.message (fun _ => []) error JsonFormat document).
  { intros before log error document Eq El Hp. exists error, document. split; [|exact Hp]. rewrite Eq, El in En |- *.
    rewrite length_app in En. destruct before; [done|]. simpl in En. lia. }
  destruct loaded as [config|error].
  - destruct H as [_ [[? _]|(running & last & outcome & E' & _ & H)]]; [congruence|].
    destruct outcome as [u|error]; [destruct H as [_ [?|?]]; congruence|].
    destruct (Hprinted _ _ _ _ H Eo) as (document & Ed & Hp). eapply (Hlast (outputs (loading ++ running))); [|exact Ed|exact Hp].
    by rewrite E, E', app_assoc, outputs_app.
  - destruct (Hprinted _ _ _ _ H Eo) as (document & Ed & Hp). eapply (Hlast (outputs loading)); [|exact Ed|exact Hp].
    by rewrite E, outputs_app.
Defined.

(** A gateway with one status, interrupted while the client waits. *)
Definition demo_status : Proto.SearchIndexStatus :=
  {| Proto.status_server := "plc"; Proto.status_state := 3; Proto.status_configured := true;
     Proto.status_active_generation := 1; Proto.status_entry_count := 2; Proto.status_unique_item_count := 2;
     Proto.status_started_at := None; Proto.status_completed_at := None; Proto.status_last_error := None;
     Proto.status_database_bytes := 10; Proto.status_organization := 1; Proto.status_source := 1;
     Proto.status_progress := None; Proto.status_effective_limits := None; Proto.status_controller_state := 0;
     Proto.status_pause_reason := None; Proto.status_recovery_deadline := None; Proto.status_foreground := None;
     Proto.status_host := None; Proto.status_storage := None; Proto.status_scheduler := None;
     Proto.status_health := None; Proto.status_promoting := false; Proto.status_pause_reason_detail := None |}.
Definition watched_gateway : forall A, cliE A -> nat -> option (A * nat) :=
  fun A e naps =>
    match e in cliE A return option (A * nat) with
    | Connect _ | Flush => Some (Ok tt, naps)
    | Stdout _ | Stderr _ => Some (tt, naps)
    | CallOrInterrupt r =>
        match r in rpc B return option ((result B Status + result unit string) * nat) with
        | GetSearchIndexStatus _ => Some (inl (Ok demo_status), naps)
        | _ => None
        end
    | SleepOrInterrupt _ => match naps with O => Some (inr (Ok tt), O) | S n => Some (inl tt, n) end
    | _ => None
    end.
Definition demo_watch : Log * option (result unit CommandError) :=
  play watched_gateway 100 (cmd_index_status "h" "plc" JsonFormat (Some 0)) 2%nat.
Lemma watch_shows_statuses_witness :
  demo_watch.2 = Some (Ok tt) /\ length (polls demo_watch.1) = 3%nat /\
  watch_streams JsonFormat 0 demo_watch.1 demo_watch.2.
Proof.
  split; [vm_compute; reflexivity|]. split; [vm_compute; reflexivity|].
  apply (watch_shows_statuses "h" "plc" JsonFormat 0 demo_watch.1 demo_watch.2 (play_exec _ _ _ _)).
Defined.
