(* ===== verification/Settings.v ===== *)
(** * Settings of the gateway process (gateway config.rs, logging.rs, service.rs)

    What the command line and the configuration file give the process: its port, its log, the path
    of its index, and the registration of the Windows service that starts it again with the same
    flags. The command line is parsed by clap, which folds the environment variables of a flag into
    it; TOML and the filter syntax of the tracing library are parameters. *)
From S2P Require Import Prelude Text Config Paths.

(** ** The command line *)

Inductive ServiceCommand := Install | Uninstall | Start | Stop | Status.
Record Cli := {
  command : option ServiceCommand;
  cli_config : option string;
  cli_port : option Z;
  cli_log_level : option string;
  cli_log_dir : option string;
  cli_log_format : option string;
  cli_log_rotation : option string
}.

(** ** The configuration file *)

Record LogConfig := {
  log_level : option string;
  log_dir : option string;
  log_format : option string;
  log_rotation : option string
}.
Record GatewayConfig := {
  config_port : option Z;
  config_log : LogConfig;
  config_index : IndexConfig
}.
Definition default_log_config : LogConfig :=
  {| log_level := None; log_dir := None; log_format := None; log_rotation := None |}.
Definition default_gateway_config : GatewayConfig :=
  {| config_port := None; config_log := default_log_config; config_index := default_index_config |}.

(** The TOML library: a value, its tables, and its reading as a configuration. *)
Class GatewayToml := {
  toml_value : Type;
  parse_toml : string -> result toml_value string;
  toml_get : toml_value -> string -> option toml_value;
  toml_config : toml_value -> result GatewayConfig string
}.

Inductive ConfigError :=
| ConfigUnparsed (path : PathBuf) (error : string)
| RetiredKey (path : PathBuf) (key : string)
| ConfigNotFound (path : PathBuf)
| ConfigUnreadable (path : PathBuf) (error : string).

Section ConfigFile.
Context `{GatewayToml}.
Definition uses_key (value : toml_value) (key : string) : bool :=
  is_some (index ← toml_get value "index"; toml_get index key).
(** The loop over the keys that were taken out of the configuration. *)
Definition retired_key (value : toml_value) : option string := List.find (uses_key value) ["enabled"; "paused"]%string.
(** [load_config_file], on what reading the file gave *)
Definition load_config_file (path : PathBuf) (missing_is_error : bool) (contents : result string ReadError) :
    result GatewayConfig ConfigError :=
  match contents with
  | Ok contents =>
      let? value := map_err (ConfigUnparsed path) (parse_toml contents) in
      match retired_key value with
      | Some key => Err (RetiredKey path key)
      | None => map_err (ConfigUnparsed path) (toml_config value)
      end
  | Err FileNotFound => if missing_is_error then Err (ConfigNotFound path) else Ok default_gateway_config
  | Err (FileUnreadable e) => Err (ConfigUnreadable path e)
  end.
End ConfigFile.

Definition config_path_from_exe (exe_path : list Component) : PathBuf := beside exe_path "opcda-bridge-gateway.toml".

Definition DEFAULT_BRIDGE_PORT : Z := 7600.
Definition resolve_port (flag : option Z) (config : GatewayConfig) : Z :=
  unwrap_or DEFAULT_BRIDGE_PORT (option_or flag (config_port config)).

Definition index_path_from (xdg_data_home home program_data : option string) (is_windows : bool) : option string :=
  let join := join_all is_windows in
  if is_windows then (fun dir => join dir ["opcda-bridge"; "index.sqlite3"]%string) <$> program_data
  else
    match xdg_data_home with
    | Some dir => Some (join dir ["opcda-bridge"; "index.sqlite3"]%string)
    | None => (fun dir => join dir [".local"; "share"; "opcda-bridge"; "index.sqlite3"]%string) <$> home
    end.

(** ** The log *)

Inductive LogFormat := Pretty | Json.
Inductive Rotation := Hourly | Daily | Never.

Definition ascii_lower (c : Ascii.ascii) : Ascii.ascii :=
  let n := Ascii.nat_of_ascii c in
  if bool_decide (65 <= n <= 90)%nat then Ascii.ascii_of_nat (n + 32) else c.
Fixpoint eq_ignore_ascii_case (a b : string) : bool :=
  match a, b with
  | EmptyString, EmptyString => true
  | String c a, String d b => Ascii.eqb (ascii_lower c) (ascii_lower d) && eq_ignore_ascii_case a b
  | _, _ => false
  end.
Definition parse_log_format (value : option string) : LogFormat :=
  match value with
  | Some v => if eq_ignore_ascii_case v "json" then Json else Pretty
  | None => Pretty
  end.
Definition parse_rotation (value : option string) : Rotation :=
  match value with
  | Some v =>
      if eq_ignore_ascii_case v "hourly" then Hourly
      else if eq_ignore_ascii_case v "never" then Never else Daily
  | None => Daily
  end.
Definition log_dir_from_exe (exe_path : list Component) : PathBuf := beside exe_path "logs".

Record LogSettings := {
  level : option string;
  dir : PathBuf;
  format : LogFormat;
  rotation : Rotation
}.
Definition resolve_log_settings (flag_level flag_dir flag_format flag_rotation : option string)
    (config : LogConfig) (default_dir : PathBuf) : LogSettings :=
  {| level := option_or flag_level (log_level config);
     dir := unwrap_or default_dir (Written <$> option_or flag_dir (log_dir config));
     format := parse_log_format (option_or flag_format (log_format config));
     rotation := parse_rotation (option_or flag_rotation (log_rotation config)) |}.

(** The filter syntax of the tracing library. *)
Class FilterLibrary := { filter_parses : string -> bool }.
Definition build_env_filter `{FilterLibrary} (level : option string) : string :=
  unwrap_or "info"%string (spec ← level; then_some (filter_parses spec) spec).

(** The rolling file and the subscriber that [init_tracing_with_stdout] builds. *)
Record FileAppender := {
  appender_rotation : Rotation;
  filename_prefix : string;
  filename_suffix : string;
  appender_dir : PathBuf
}.
Definition build_file_appender (settings : LogSettings) : FileAppender :=
  {| appender_rotation := rotation settings; filename_prefix := "opcda-bridge-gateway";
     filename_suffix := "log"; appender_dir := dir settings |}.
Record Subscriber := {
  subscriber_filter : string;
  file_format : LogFormat;
  stdout_layer : bool
}.
Definition subscriber `{FilterLibrary} (settings : LogSettings) (attach_stdout : bool) : Subscriber :=
  {| subscriber_filter := build_env_filter (level settings); file_format := format settings;
     stdout_layer := attach_stdout |}.

(** ** The registration of the service *)

Definition SERVICE_NAME : string := "OpcdaBridgeGateway".
Definition SERVICE_DISPLAY_NAME : string := "OPC DA Bridge Gateway".
Definition SERVICE_DESCRIPTION : string :=
  "Bridges native OPC DA (COM/DCOM) tags to opcda-bridge clients over the network. https://github.com/bytehound-labs/opcda-bridge".

Record ServiceDefinition := {
  name : string;
  display_name : string;
  description : string;
  executable_path : PathBuf;
  launch_arguments : list string
}.
(** A flag that was given, and its value. *)
Definition push_flag (flag : string) (value : option string) (args : list string) : list string :=
  match value with Some value => args ++ [flag; value] | None => args end.
Definition service_launch_arguments (cli : Cli) : list string :=
  let args := push_flag "--config" (cli_config cli) [] in
  let args := push_flag "--port" (to_decimal <$> cli_port cli) args in
  let args := push_flag "--log-level" (cli_log_level cli) args in
  let args := push_flag "--log-dir" (cli_log_dir cli) args in
  let args := push_flag "--log-format" (cli_log_format cli) args in
  push_flag "--log-rotation" (cli_log_rotation cli) args.
Definition build_service_definition (executable_path : PathBuf) (cli : Cli) : ServiceDefinition :=
  {| name := SERVICE_NAME; display_name := SERVICE_DISPLAY_NAME; description := SERVICE_DESCRIPTION;
     executable_path := executable_path; launch_arguments := service_launch_arguments cli |}.

(** ** The states of the service *)

Inductive ServiceLifecycle := StartPending | Running | StopPending | Stopped.
#[export] Instance ServiceLifecycle_eq_dec : EqDecision ServiceLifecycle.
Proof. solve_decision. Defined.
Definition next (state : ServiceLifecycle) : option ServiceLifecycle :=
  match state with
  | StartPending => Some Running
  | Running => Some StopPending
  | StopPending => Some Stopped
  | Stopped => None
  end.

Definition ERROR_FAILED_SERVICE_CONTROLLER_CONNECT : Z := 1063.
Definition is_scm_launch_error_code (code : option Z) : bool :=
  bool_decide (code = Some ERROR_FAILED_SERVICE_CONTROLLER_CONNECT).

(** What a report tells the service control manager: the controls it may send, the exit code, and the milliseconds
    to wait for the next report. *)
Record ServiceStatus := {
  current_state : ServiceLifecycle;
  accepts_stop : bool;                       (* STOP and SHUTDOWN *)
  exit_code : Z;                             (* ServiceExitCode::Win32 *)
  wait_hint : Z
}.
Definition status_of (state : ServiceLifecycle) : ServiceStatus :=
  let '(accepts, hint) :=
    match state with
    | StartPending => (false, 5000)
    | Running => (true, 0)
    | StopPending => (false, 30000)
    | Stopped => (false, 0)
    end in
  {| current_state := state; accepts_stop := accepts; exit_code := 0; wait_hint := hint |}.

(** A control of the manager. *)
Inductive ServiceControl := Interrogate | ControlStop | ControlShutdown | OtherControl.
Inductive HandlerResult := NoError | NotImplemented.
(** [event_handler]: the sender it still holds or not, whether it sends, and its result *)
Definition event_handler (control : ServiceControl) (shutdown_tx : bool) : bool * bool * HandlerResult :=
  match control with
  | Interrogate => (shutdown_tx, false, NoError)
  | ControlStop | ControlShutdown => (false, shutdown_tx, NoError)
  | OtherControl => (shutdown_tx, false, NotImplemented)
  end.

(** ** Facts *)

(** A file with a key that was taken out of the configuration is refused, whatever else it says. *)
Lemma retired_key_refused `{GatewayToml} path missing_is_error contents value :
  parse_toml contents = Ok value -> uses_key value "enabled" || uses_key value "paused" = true ->
  exists key, load_config_file path missing_is_error (Ok contents) = Err (RetiredKey path key).
Proof.
  intros Hv Hk. unfold load_config_file, retired_key. rewrite Hv. simpl.
  destruct (uses_key value "enabled"); [by eexists|]. simpl in Hk. rewrite Hk. by eexists.
Qed.
(** The handler sends once: the first stop takes the sender, a later one finds none. *)
Lemma handler_sends_once control control' tx :
  let '(tx1, sent1, _) := event_handler control tx in
  let '(_, sent2, _) := event_handler control' tx1 in sent1 = true -> sent2 = false.
Proof. by destruct control, control', tx. Qed.
