(* ===== verification/Threads.v ===== *)
(** * Threads and the protocols they follow

    A thread is a finite program over typed events. Threads interleave one event at a time; what a thread may
    do next is what is left of its program. A protocol is an automaton over the events: once the
    program of a thread is shown to follow it, every state of every interleaving has a phase in which
    what is left still follows, so that the invariants of the interleaving are about phases. *)
From S2P Require Import Prelude.

Inductive thread (E : Type -> Type) (R : Type) : Type :=
| Done (r : R)
| Do {A : Type} (e : E A) (k : A -> thread E R).
Arguments Done {E R}.
Arguments Do {E R A}.

Section Threads.
Context {E : Type -> Type}.

Fixpoint bind {R T} (t : thread E R) (k : R -> thread E T) : thread E T :=
  match t with
  | Done r => k r
  | Do e k' => Do e (fun a => bind (k' a) k)
  end.
Definition perform {A} (e : E A) : thread E A := Do e Done.
(** [?] *)
Definition try {A B X} (t : thread E (result A X)) (k : A -> thread E (result B X)) : thread E (result B X) :=
  bind t (fun r => match r with Ok a => k a | Err e => Done (Err e) end).
(** An event that can fail, with the error it becomes. *)
Definition ask {A X Y} (e : E (result A X)) (f : X -> Y) : thread E (result A Y) :=
  bind (perform e) (fun r => Done (map_err f r)).

(** ** Protocols *)

Context {S : Type} (allowed : forall A, E A -> S -> Prop) (after : forall A, E A -> S -> A -> S).

Fixpoint follows {R} (post : R -> S -> Prop) (t : thread E R) (s : S) : Prop :=
  match t with
  | Done r => post r s
  | Do e k => allowed _ e s /\ forall a, follows post (k a) (after _ e s a)
  end.

Lemma follows_weaken {R} (post post' : R -> S -> Prop) t s :
  (forall r s, post r s -> post' r s) -> follows post t s -> follows post' t s.
Proof. intros Hp. revert s. induction t as [r|A e k IH]; intros s; simpl; [by auto|]. intros [Ha Hk]. by eauto. Qed.
Lemma follows_bind {R T} (mid : R -> S -> Prop) (post : T -> S -> Prop) t (k : R -> thread E T) s :
  follows mid t s -> (forall r s, mid r s -> follows post (k r) s) -> follows post (bind t k) s.
Proof. intros H Hk. revert s H. induction t as [r|A e k' IH]; intros s; simpl; [by auto|]. intros [Ha Hf]. by eauto. Qed.
Lemma follows_perform {A} (e : E A) (post : A -> S -> Prop) s :
  allowed _ e s -> (forall a, post a (after _ e s a)) -> follows post (perform e) s.
Proof. by split. Qed.

(** ** The threads left over *)

(** What is left of a thread after one of its events: a smaller program. *)
Inductive rest {R} : thread E R -> thread E R -> Prop :=
| rest_of {A} (e : E A) k (a : A) : rest (k a) (Do e k).
Lemma rest_inv {R} (t u : thread E R) :
  rest u t -> match t with Done _ => False | Do _ k => exists a, u = k a end.
Proof. intros []. by eexists. Qed.
Lemma rest_well_founded {R} : well_founded (@rest R).
Proof. intros t. induction t as [r|A e k IH]; constructor; intros u Hu%rest_inv; [done|]. by destruct Hu as [a ->]. Qed.
End Threads.
Declare Scope thread_scope.
Delimit Scope thread_scope with thread.
Notation "'let*' x := t 'in' k" := (bind t (fun x => k))
  (at level 200, x pattern, t at level 100, k at level 200) : thread_scope.
Notation "'let+' x := t 'in' k" := (try t (fun x => k))
  (at level 200, x pattern, t at level 100, k at level 200) : thread_scope.
