(* ===== verification/Process.v ===== *)
(** * The gateway process (gateway run.rs, service.rs, main.rs, logging.rs)

    The bootstrap [run_gateway], the task it spawns to serve the requests, and the Windows service around them,
    as threads ([Threads]) whose events are what they ask of the operating system, of the service control manager
    and of tonic. A world interleaves the two threads with the control handler, the
    requests and the background tasks of the index. A panic of the bootstrap ends the process: its thread stays at
    [Panic]; a panic of the spawned task is a step of the world. *)
From S2P Require Import Prelude Text Config Paths Settings Threads.
#[local] Open Scope thread_scope.

(** ** Events *)

(** What the shutdown future waits for: the message of the control handler, or a signal of the console. *)
Inductive StopSource := ControlMessage | ConsoleSignal.

Inductive taskE : Type -> Type :=
| TaskReport (status : ServiceStatus) : taskE (result unit string)
| SendReady : taskE unit
(** tonic accepts requests until the shutdown future has what it waits for, or the transport fails *)
| Accept (until : StopSource) : taskE (result unit string)
(** tonic waits for the requests in flight *)
| Drain : taskE (result unit string).

Inductive ServiceAccess := QueryStatusAccess | StartAccess | StopAccess | DeleteAccess.
Record ServiceInfo := {
  info_definition : ServiceDefinition;
  auto_start : bool;
  own_process : bool;
  account_name : option string
}.
Inductive ServiceState := Reported (state : ServiceLifecycle) | OtherState.
(** [windows_service::Error] *)
Inductive ServiceError := Winapi (raw_os_error : option Z) | OtherServiceError (message : string).

Inductive mainE : Type -> Type :=
(* the service control manager *)
| RegisterHandler : mainE (result unit string)
| Report (status : ServiceStatus) : mainE (result unit string)
| Dispatch (service : string) : mainE (result unit ServiceError)
| OpenManager (create : bool) : mainE (result unit string)
| CreateService (info : ServiceInfo) : mainE (result unit string)
| SetDescription (description : string) : mainE (result unit string)
| OpenService (service : string) (access : list ServiceAccess) : mainE (result unit string)
| QueryStatus : mainE (result ServiceState string)
| StartService : mainE (result unit string)
| StopService : mainE (result unit string)
| DeleteService : mainE (result unit string)
(* the process *)
| ParseArguments : mainE Cli
| NewRuntime : mainE (result unit string)
| CurrentExe : mainE (result (list Component) string)
| ReadFile (path : PathBuf) : mainE (result string ReadError)
| Println (message : string) : mainE unit
| Eprintln (message : string) : mainE unit
| Panic (message : string) : mainE False
(* the log *)
| StdoutIsTerminal : mainE bool
| CreateDirAll (dir : PathBuf) : mainE (result unit string)
| OpenAppender (appender : FileAppender) : mainE (result unit string)
| InstallSubscriber (subscriber : Subscriber) : mainE (result unit string)
| CloseLog : mainE unit
(* the server and the index *)
| Bind (port : Z) : mainE (result unit string)
| LocalAddr : mainE (result unit string)
| NewService (config : GatewayConfig) : mainE unit
| SpawnServe (task : thread taskE (result unit string)) : mainE unit
| AwaitReady : mainE (result unit unit)
| StartIndexing : mainE unit
| AwaitServe : mainE (result (result unit string) string)
| RequestShutdown : mainE unit
| WaitForIdle : mainE unit.

Inductive GatewayError :=
| ConfigFailed (error : ConfigError)
| LogFailed (error : string)
| BindFailed (error : string)
| NotReady                                   (* gateway server failed before becoming ready *)
| TaskFailed (error : string)                (* JoinError *)
| TransportFailed (error : string)
| ServiceFailed (error : string)
| RuntimeFailed (error : string).

(** ** The server task (run.rs) *)

Record Shutdown := { awaited : StopSource; announced : thread taskE unit }.

(** [Server::serve_with_incoming_shutdown] of tonic: it accepts until the shutdown future has what it waits for,
    lets the future finish, and then drains. Stated for any protocol of the task ([Threads]). *)
Class Tonic := {
  serve_with_incoming_shutdown : Shutdown -> thread taskE (result unit string);
  serve_documented {S : Type} (allowed : forall A, taskE A -> S -> Prop) (after : forall A, taskE A -> S -> A -> S)
      (post : result unit string -> S -> Prop) (shutdown : Shutdown) (s : S) :
    let accept := Accept (awaited shutdown) in
    allowed _ accept s -> (forall e, post (Err e) (after _ accept s (Err e))) ->
    follows allowed after (fun _ s => allowed _ Drain s /\ forall r, post r (after _ Drain s r))
      (announced shutdown) (after _ accept s (Ok tt)) ->
    follows allowed after post (serve_with_incoming_shutdown shutdown) s
}.

Section Bootstrap.
Context `{Tonic} `{GatewayToml} `{FilterLibrary}.
Definition serve_with_ready (shutdown : Shutdown) (ready : thread taskE unit) : thread taskE (result unit string) :=
  let* _ := ready in serve_with_incoming_shutdown shutdown.
Definition serve (shutdown : Shutdown) : thread taskE (result unit string) := serve_with_ready shutdown (Done tt).
Definition shutdown_signal : Shutdown := {| awaited := ConsoleSignal; announced := Done tt |}.

(** ** The bootstrap (run.rs, with config.rs and logging.rs) *)

(** [current_exe().expect(...)] *)
Definition current_exe : thread mainE (list Component) :=
  let* exe := perform CurrentExe in
  match exe with
  | Ok exe => Done exe
  | Err _ => let* impossible := perform (Panic "failed to resolve current executable path") in
             match impossible : False with end
  end.
Definition load_config (explicit_path : option string) : thread mainE (result GatewayConfig ConfigError) :=
  match explicit_path with
  | Some path => let* contents := perform (ReadFile (Written path)) in Done (load_config_file (Written path) true contents)
  | None =>
      let* exe := current_exe in
      let path := config_path_from_exe exe in
      let* contents := perform (ReadFile path) in Done (load_config_file path false contents)
  end.
Definition init_tracing_with_stdout (settings : LogSettings) (attach_stdout : bool) :
    thread mainE (result unit GatewayError) :=
  let+ _ := ask (CreateDirAll (dir settings)) LogFailed in
  let+ _ := ask (OpenAppender (build_file_appender settings)) LogFailed in
  ask (InstallSubscriber (subscriber settings attach_stdout)) LogFailed.
Definition init_tracing (settings : LogSettings) : thread mainE (result unit GatewayError) :=
  let* terminal := perform StdoutIsTerminal in init_tracing_with_stdout settings terminal.

(** The end of [run_gateway], from the listener on. *)
Definition bind_and_serve (config : GatewayConfig) (port : Z) (shutdown : Shutdown) (ready : thread taskE unit) :
    thread mainE (result unit GatewayError) :=
  let+ _ := ask (Bind port) BindFailed in
  let+ _ := ask LocalAddr BindFailed in
  let* _ := perform (NewService config) in
  let* _ := perform (SpawnServe (serve_with_ready shutdown (let* _ := ready in perform SendReady))) in
  let+ _ := ask AwaitReady (fun _ => NotReady) in
  let* _ := perform StartIndexing in
  let* serve_result := perform AwaitServe in
  let* _ := perform RequestShutdown in
  let* _ := perform WaitForIdle in
  Done match serve_result with
       | Err join => Err (TaskFailed join)
       | Ok served => map_err TransportFailed served
       end.
(** [_log_guard]: dropped when [run_gateway] returns *)
Definition with_log_guard {R} (body : thread mainE R) : thread mainE R :=
  let* r := body in let* _ := perform CloseLog in Done r.
Definition run_gateway (cli : Cli) (shutdown : Shutdown) (ready : thread taskE unit) :
    thread mainE (result unit GatewayError) :=
  let* config := load_config (cli_config cli) in
  match config with
  | Err e => Done (Err (ConfigFailed e))
  | Ok config =>
      let port := resolve_port (cli_port cli) config in
      let* exe := current_exe in
      let default_log_dir := log_dir_from_exe exe in
      let log_settings :=
        resolve_log_settings (cli_log_level cli) (cli_log_dir cli) (cli_log_format cli) (cli_log_rotation cli)
          (config_log config) default_log_dir in
      let+ _ := init_tracing log_settings in
      with_log_guard (bind_and_serve config port shutdown ready)
  end.

(** ** The Windows service (service.rs) *)

Definition report_status (state : ServiceLifecycle) : thread mainE (result unit GatewayError) :=
  ask (Report (status_of state)) ServiceFailed.
(** [let _ = report_status(...)] in the task *)
Definition report_from_task (state : ServiceLifecycle) : thread taskE unit :=
  let* _ := perform (TaskReport (status_of state)) in Done tt.
Definition service_shutdown : Shutdown :=
  {| awaited := ControlMessage; announced := report_from_task StopPending |}.
Definition run_service : thread mainE (result unit GatewayError) :=
  let+ _ := ask RegisterHandler ServiceFailed in
  let+ _ := report_status StartPending in
  let* cli := perform ParseArguments in
  let+ _ := ask NewRuntime RuntimeFailed in
  let* result := run_gateway cli service_shutdown (report_from_task Running) in
  let+ _ := report_status Stopped in
  Done result.
Definition service_main : thread mainE unit :=
  let* r := run_service in
  match r with
  | Err _ => perform (Eprintln "opcda-bridge gateway service run failed")
  | Ok _ => Done tt
  end.

(** ** Service management and the process (service.rs, main.rs) *)

Definition to_service_info (definition : ServiceDefinition) : ServiceInfo :=
  {| info_definition := definition; auto_start := true; own_process := true; account_name := None |}.
Definition install (cli : Cli) : thread mainE (result unit GatewayError) :=
  let+ exe := ask CurrentExe ServiceFailed in
  let definition := build_service_definition (Located exe) cli in
  let+ _ := ask (OpenManager true) ServiceFailed in
  let+ _ := ask (CreateService (to_service_info definition)) ServiceFailed in
  let+ _ := ask (SetDescription (description definition)) ServiceFailed in
  let* _ := perform (Println (String.append "Installed '" (String.append (display_name definition)
    (String.append "' (" (String.append (name definition)
      "). Start it with: opcda-bridge-gateway.exe start"))))) in
  Done (Ok tt).
(** A command on the registered service. *)
Definition open_service (access : list ServiceAccess) : thread mainE (result unit GatewayError) :=
  let+ _ := ask (OpenManager false) ServiceFailed in ask (OpenService SERVICE_NAME access) ServiceFailed.
Definition println_ok (message : string) : thread mainE (result unit GatewayError) :=
  let* _ := perform (Println message) in Done (Ok tt).
Definition quoted (before after : string) : string := String.append before (String.append SERVICE_DISPLAY_NAME after).
Definition is_stopped (state : ServiceState) : bool :=
  match state with Reported Stopped => true | _ => false end.
Definition uninstall : thread mainE (result unit GatewayError) :=
  let+ _ := open_service [QueryStatusAccess; StopAccess; DeleteAccess] in
  let+ state := ask QueryStatus ServiceFailed in
  let+ _ := if is_stopped state then Done (Ok tt) else ask StopService ServiceFailed in
  let+ _ := ask DeleteService ServiceFailed in
  println_ok (quoted "Uninstalled '" "'.").
Definition start : thread mainE (result unit GatewayError) :=
  let+ _ := open_service [StartAccess] in
  let+ _ := ask StartService ServiceFailed in
  println_ok (quoted "Started '" "'.").
Definition stop : thread mainE (result unit GatewayError) :=
  let+ _ := open_service [StopAccess] in
  let+ _ := ask StopService ServiceFailed in
  println_ok (quoted "Stop requested for '" "'.").
(** [Debug] of the state, by the library *)
Context (debug_state : ServiceState -> string).
Definition status : thread mainE (result unit GatewayError) :=
  let+ _ := open_service [QueryStatusAccess] in
  let+ state := ask QueryStatus ServiceFailed in
  println_ok (quoted "" (String.append ": " (debug_state state))).

Definition is_run_outside_scm (err : ServiceError) : bool :=
  match err with Winapi code => is_scm_launch_error_code code | OtherServiceError _ => false end.
(** [run_as_service] runs [service_main] on a thread of the manager and returns when the service has stopped. *)
Definition run_as_service : thread mainE (result unit ServiceError) := perform (Dispatch SERVICE_NAME).
Definition gateway_main : thread mainE (result unit GatewayError) :=
  let* cli := perform ParseArguments in
  match command cli with
  | Some Install => install cli
  | Some Uninstall => uninstall
  | Some Start => start
  | Some Stop => stop
  | Some Status => status
  | None =>
      let* served := run_as_service in
      match served with
      | Ok _ => Done (Ok tt)
      | Err e =>
          if is_run_outside_scm e then
            let+ _ := ask NewRuntime RuntimeFailed in
            run_gateway cli shutdown_signal (Done tt)
          else Done (Err (ServiceFailed "service dispatcher"))
      end
  end.
End Bootstrap.

(** ** The process among its environment *)

(** The spawned task: it ends with a result, or with the panic its handle sees. *)
Inductive TaskState :=
| NotSpawned
| Live (program : thread taskE (result unit string))
| Ended (outcome : result (result unit string) string).

Record World := mk_world {
  main : thread mainE (result unit GatewayError);
  task : TaskState;
  handler : bool;                            (* the control handler is registered *)
  shutdown_tx : bool;                        (* the handler still holds the sender *)
  stop_sent : bool;                          (* what the shutdown future waits for *)
  ready_sent : bool;
  in_flight : nat;                           (* requests tonic has accepted and not answered *)
  active : nat;                              (* BackgroundTaskState *)
  shutting_down : bool;
  (* a record of what was done *)
  reports : list ServiceLifecycle;
  listening : option Z;
  log_open : bool
}.

Definition set_main (w : World) (main : thread mainE (result unit GatewayError)) : World :=
  mk_world main (task w) (handler w) (shutdown_tx w) (stop_sent w) (ready_sent w) (in_flight w) (active w)
    (shutting_down w) (reports w) (listening w) (log_open w).
Definition set_task (w : World) (task : TaskState) : World :=
  mk_world (main w) task (handler w) (shutdown_tx w) (stop_sent w) (ready_sent w) (in_flight w) (active w)
    (shutting_down w) (reports w) (listening w) (log_open w).
Definition set_handler (w : World) (handler shutdown_tx stop_sent : bool) : World :=
  mk_world (main w) (task w) handler shutdown_tx stop_sent (ready_sent w) (in_flight w) (active w)
    (shutting_down w) (reports w) (listening w) (log_open w).
Definition set_ready (w : World) : World :=
  mk_world (main w) (task w) (handler w) (shutdown_tx w) (stop_sent w) true (in_flight w) (active w)
    (shutting_down w) (reports w) (listening w) (log_open w).
Definition set_work (w : World) (in_flight active : nat) (shutting_down : bool) : World :=
  mk_world (main w) (task w) (handler w) (shutdown_tx w) (stop_sent w) (ready_sent w) in_flight active
    shutting_down (reports w) (listening w) (log_open w).
Definition add_report (w : World) (state : ServiceLifecycle) : World :=
  mk_world (main w) (task w) (handler w) (shutdown_tx w) (stop_sent w) (ready_sent w) (in_flight w) (active w)
    (shutting_down w) (reports w ++ [state]) (listening w) (log_open w).
Definition set_open (w : World) (listening : option Z) (log_open : bool) : World :=
  mk_world (main w) (task w) (handler w) (shutdown_tx w) (stop_sent w) (ready_sent w) (in_flight w) (active w)
    (shutting_down w) (reports w) listening log_open.

(** What an event of the bootstrap does, and which answers it can get: a wait has its answer when what it waits for
    has happened. [BackgroundTasks::spawn] refuses a task once the shutdown was requested. *)
Definition main_effect {A} (e : mainE A) : A -> World -> option World :=
  match e in mainE A return A -> World -> option World with
  | RegisterHandler => fun a w => Some (if is_ok a then set_handler w true true (stop_sent w) else w)
  | Report status => fun _ w => Some (add_report w (current_state status))
  | InstallSubscriber _ => fun a w => Some (if is_ok a then set_open w (listening w) true else w)
  | CloseLog => fun _ w => Some (set_open w (listening w) false)
  | Bind port => fun a w => Some (if is_ok a then set_open w (Some port) (log_open w) else w)
  | SpawnServe program => fun _ w => Some (set_task w (Live program))
  | AwaitReady => fun a w =>
      if is_ok a then if ready_sent w then Some w else None
      else match task w with Ended _ => if ready_sent w then None else Some w | _ => None end
  | StartIndexing => fun _ w =>
      Some (if shutting_down w then w else set_work w (in_flight w) (S (active w)) (shutting_down w))
  | AwaitServe => fun a w =>
      match task w with
      | Ended outcome =>
          match a, outcome with
          | Ok (Ok _), Ok (Ok _) => Some w
          | Ok (Err e), Ok (Err e') | Err e, Err e' => if String.eqb e e' then Some w else None
          | _, _ => None
          end
      | _ => None
      end
  | RequestShutdown => fun _ w => Some (set_work w (in_flight w) (active w) true)
  | WaitForIdle => fun _ w => if (active w =? 0)%nat then Some w else None
  | Panic _ => fun impossible _ => match impossible : False with end
  | _ => fun _ w => Some w
  end.
Definition task_effect {A} (e : taskE A) : A -> World -> option World :=
  match e in taskE A return A -> World -> option World with
  | TaskReport status => fun _ w => Some (add_report w (current_state status))
  | SendReady => fun _ w => Some (set_ready w)
  | Accept _ => fun a w => if is_ok a then if stop_sent w then Some w else None else Some w
  | Drain => fun a w => if is_ok a then if (in_flight w =? 0)%nat then Some w else None else Some w
  end.
(** A task that has run to its end. *)
Definition settle (program : thread taskE (result unit string)) : TaskState :=
  match program with Done r => Ended (Ok r) | Do _ _ => Live program end.
Definition accepting (w : World) (source : StopSource) : bool :=
  match task w with
  | Live (Do e _) =>
      match e, source with
      | Accept ControlMessage, ControlMessage | Accept ConsoleSignal, ConsoleSignal => true
      | _, _ => false
      end
  | _ => false
  end.

(** What the process does by itself. *)
Inductive system_step (w : World) : World -> Prop :=
| step_main {A} (e : mainE A) k a w' :
    main w = Do e k -> main_effect e a w = Some w' -> system_step w (set_main w' (k a))
| step_task {A} (e : taskE A) k a w' :
    task w = Live (Do e k) -> task_effect e a w = Some w' -> system_step w (set_task w' (settle (k a)))
| step_answer n : in_flight w = S n -> system_step w (set_work w n (active w) (shutting_down w))
| step_background_end n : active w = S n -> system_step w (set_work w (in_flight w) n (shutting_down w)).
(** What happens to it. *)
Inductive outside_step (w : World) : World -> Prop :=
| step_control control :
    handler w = true ->
    outside_step w
      (let '(tx, sends, _) := event_handler control (shutdown_tx w) in
       set_handler w true tx (stop_sent w || sends))
| step_signal : accepting w ConsoleSignal = true -> outside_step w (set_handler w (handler w) (shutdown_tx w) true)
| step_request source :
    accepting w source = true -> outside_step w (set_work w (S (in_flight w)) (active w) (shutting_down w))
| step_background :
    shutting_down w = false -> outside_step w (set_work w (in_flight w) (S (active w)) (shutting_down w))
| step_panic program error : task w = Live program -> outside_step w (set_task w (Ended (Err error))).
Definition step (w w' : World) : Prop := system_step w w' \/ outside_step w w'.

Definition initial (program : thread mainE (result unit GatewayError)) : World :=
  mk_world program NotSpawned false false false false 0 0 false [] None false.
Inductive reachable (program : thread mainE (result unit GatewayError)) : World -> Prop :=
| reachable_initial : reachable program (initial program)
| reachable_step w w' : reachable program w -> step w w' -> reachable program w'.
