(* ===== verification/ProcessSpec.v ===== *)
(** * The life of the gateway process

    The bootstrap and the server task follow protocols; the reports to the service control manager, the
    requests, the index and the log are tied to the phases of the two, whatever the order in which the threads, the
    control handler and the requests move. *)
From S2P Require Import Prelude Text Config Paths Settings Threads Process.

(** ** The protocol of the server task *)

Inductive TaskPhase := Beginning | Announced | Serving | Stopping | Draining | Drained | Failed.

Section Protocols.
(** whether the process is a service, which reports its states *)
Context (service : bool).

Definition task_allowed (A : Type) (e : taskE A) (p : TaskPhase) : Prop :=
  match e with
  | TaskReport status =>
      service = true /\
      (p = Beginning /\ current_state status = Running \/ p = Stopping /\ current_state status = StopPending)
  | SendReady => p = if service then Announced else Beginning
  | Accept source => p = Serving /\ source = if service then ControlMessage else ConsoleSignal
  | Drain => p = if service then Draining else Stopping
  end.
Definition task_after (A : Type) (e : taskE A) (p : TaskPhase) : A -> TaskPhase :=
  match e in taskE A return A -> TaskPhase with
  | TaskReport _ => fun _ => match p with Beginning => Announced | _ => Draining end
  | SendReady => fun _ => Serving
  | Accept _ => fun a => if is_ok a then Stopping else Failed
  | Drain => fun a => if is_ok a then Drained else Failed
  end.
Definition task_ends (r : result unit string) (p : TaskPhase) : Prop := p = if is_ok r then Drained else Failed.
Notation task_follows := (follows task_allowed task_after task_ends).

(** ** The protocol of the bootstrap *)

Notation Outcome := (result (result unit string) string).
Inductive Phase :=
| Unregistered | Registered | Configuring | Logged | Listening | Spawned | Ready | Indexing
| Served (r : Outcome) | ShuttingDown (r : Outcome) | Idle (r : Outcome) | Unready
| Closed (served : option Outcome) | Told (served : option Outcome).

Definition main_allowed (A : Type) (e : mainE A) (p : Phase) : Prop :=
  match e with
  | RegisterHandler => p = Unregistered
  | Report status =>
      service = true /\
      match p with
      | Registered => current_state status = StartPending
      | Configuring | Closed _ => current_state status = Stopped
      | _ => False
      end
  | ParseArguments | NewRuntime | CurrentExe | ReadFile _ | StdoutIsTerminal | CreateDirAll _ | OpenAppender _
  | InstallSubscriber _ | Panic _ => p = Configuring
  | Bind _ => p = Logged
  | LocalAddr | NewService _ => p = Listening
  | SpawnServe program => p = Listening /\ (exists B (e : taskE B) k, program = Do e k) /\ task_follows program Beginning
  | AwaitReady => p = Spawned
  | StartIndexing => p = Ready
  | AwaitServe => p = Indexing
  | RequestShutdown => exists r, p = Served r
  | WaitForIdle => exists r, p = ShuttingDown r
  | CloseLog => match p with Logged | Listening | Unready | Idle _ => True | _ => False end
  | _ => False
  end.
Definition main_after (A : Type) (e : mainE A) (p : Phase) : A -> Phase :=
  match e in mainE A return A -> Phase with
  | RegisterHandler => fun a => if is_ok a then Registered else p
  | Report _ => fun _ =>
      match p with Registered => Configuring | Closed served => Told served | _ => Told None end
  | InstallSubscriber _ => fun a => if is_ok a then Logged else p
  | Bind _ => fun a => if is_ok a then Listening else p
  | SpawnServe _ => fun _ => Spawned
  | AwaitReady => fun a => if is_ok a then Ready else Unready
  | StartIndexing => fun _ => Indexing
  | AwaitServe => fun a => Served a
  | RequestShutdown => fun _ => match p with Served r => ShuttingDown r | _ => p end
  | WaitForIdle => fun _ => match p with ShuttingDown r => Idle r | _ => p end
  | CloseLog => fun _ => Closed match p with Idle r => Some r | _ => None end
  | _ => fun _ => p
  end.
(** Where the bootstrap may end, and that it succeeds only after the server has drained. *)
Definition failed_early (r : result unit GatewayError) : Prop :=
  exists e, r = Err (ServiceFailed e) \/ r = Err (RuntimeFailed e).
Definition gateway_ends (r : result unit GatewayError) (p : Phase) : Prop :=
  match p with
  | Configuring => is_ok r = false
  | Closed served => is_ok r = true -> served = Some (Ok (Ok tt))
  | _ => False
  end.
Definition service_ends (r : result unit GatewayError) (p : Phase) : Prop :=
  match p with
  | Unregistered | Configuring => failed_early r
  | Told served => is_ok r = true -> served = Some (Ok (Ok tt))
  | _ => False
  end.
Definition main_ends : result unit GatewayError -> Phase -> Prop :=
  if service then service_ends else gateway_ends.
End Protocols.
Notation task_follows service := (follows (task_allowed service) task_after task_ends).
Notation main_follows service := (follows (main_allowed service) main_after).

(** ** The threads follow their protocols *)

(** A step that succeeds into [p'], or stays in [p] with an error of [Q]. *)
Definition moves {A X} (p p' : Phase) (Q : X -> Prop) (r : result A X) (q : Phase) : Prop :=
  match r with Ok _ => q = p' | Err e => q = p /\ Q e end.
Lemma ask_follows service {A X Y} (e : mainE (result A X)) (f : X -> Y) p p' :
  main_allowed service _ e p -> (forall a, main_after _ e p (Ok a) = p') -> (forall x, main_after _ e p (Err x) = p) ->
  main_follows service (moves p p' (fun y => exists x, y = f x)) (ask e f) p.
Proof. intros Ha Ho He. split; [done|]. intros [a|x]; simpl; rewrite ?Ho, ?He; by eauto. Qed.
Lemma try_follows service {A B X} (t : thread mainE (result A X)) (k : A -> thread mainE (result B X)) p p' Q post :
  main_follows service (moves p p' Q) t p ->
  (forall a, main_follows service post (k a) p') -> (forall e, Q e -> post (Err e) p) ->
  main_follows service post (try t k) p.
Proof.
  intros Ht Hk He. unfold try. eapply follows_bind; [exact Ht|]. intros [a|e] q; simpl; [by intros ->|].
  intros [-> H]. by apply He.
Qed.
Lemma perform_follows service {A X} (e : mainE A) (k : A -> thread mainE X) post p :
  main_allowed service _ e p -> (forall a, main_follows service post (k a) (main_after _ e p a)) ->
  main_follows service post (bind (perform e) k) p.
Proof. by split. Qed.

(** The task of the service and of the console. *)
Lemma service_task_follows `{Tonic} : task_follows true
  (serve_with_ready service_shutdown (bind (report_from_task Running) (fun _ => perform SendReady))) Beginning.
Proof.
  split; [simpl; by auto 10|]. intros a. split; [done|]. intros b. apply serve_documented; [done|done|].
  split; [simpl; by auto 10|]. intros c. split; [done|]. by intros [v|e].
Qed.
Lemma console_task_follows `{Tonic} : task_follows false
  (serve_with_ready shutdown_signal (bind (Done tt) (fun _ => perform SendReady))) Beginning.
Proof. split; [done|]. intros b. apply serve_documented; [done|done|]. split; [done|]. by intros [v|e]. Qed.

Section Follow.
Context `{Htonic : Tonic} `{Htoml : GatewayToml} `{Hfilter : FilterLibrary} (service : bool).
Notation follows_main := (main_follows service).

Lemma current_exe_follows : follows_main (fun _ p => p = Configuring) current_exe Configuring.
Proof. split; [done|]. intros [exe|e]; [done|]. split; [done|]. by intros []. Qed.
Lemma load_config_follows path : follows_main (fun _ p => p = Configuring) (load_config path) Configuring.
Proof.
  unfold load_config. destruct path as [path|]; [by split|].
  eapply follows_bind; [apply current_exe_follows|]. by intros exe p ->; split.
Qed.
Lemma init_tracing_follows settings :
  follows_main (moves Configuring Logged (fun _ => True)) (init_tracing settings) Configuring.
Proof.
  apply perform_follows; [done|]. intros terminal. unfold init_tracing_with_stdout.
  eapply try_follows with (p' := Configuring); [by apply ask_follows| |done]. intros _.
  eapply try_follows with (p' := Configuring); [by apply ask_follows| |done]. intros _.
  eapply follows_weaken; [|by apply (ask_follows service _ LogFailed Configuring Logged)].
  intros [u|e] p; simpl; [done|]. by intros [-> _].
Qed.
(** Where the bootstrap stands when its log is closed. *)
Definition log_closes (r : result unit GatewayError) (p : Phase) : Prop :=
  match p with
  | Logged | Listening | Unready => is_ok r = false
  | Idle served => is_ok r = true -> served = Ok (Ok tt)
  | _ => False
  end.
Lemma bind_and_serve_follows config port shutdown ready :
  task_follows service (serve_with_ready shutdown (bind ready (fun _ => perform SendReady))) Beginning ->
  (exists B (e : taskE B) k, serve_with_ready shutdown (bind ready (fun _ => perform SendReady)) = Do e k) ->
  follows_main log_closes (bind_and_serve config port shutdown ready) Logged.
Proof.
  intros Htask Hdo. unfold bind_and_serve.
  eapply try_follows with (p' := Listening); [by apply ask_follows| |done]. intros _.
  eapply try_follows with (p' := Listening); [by apply ask_follows| |done]. intros _.
  apply perform_follows; [done|]. intros n. apply perform_follows; [by split_and!|]. intros m.
  eapply follows_bind with (mid := fun r p => p = if is_ok r then Ready else Unready).
  { split; [done|]. by intros [u|e]. }
  intros [u|e] p ->; [|done]. apply perform_follows; [done|]. intros i. apply perform_follows; [done|]. intros r.
  apply perform_follows; [by eexists|]. intros s. apply perform_follows; [by eexists|]. intros j.
  by destruct r as [[[]|e]|e].
Qed.
Lemma run_gateway_follows cli shutdown ready :
  task_follows service (serve_with_ready shutdown (bind ready (fun _ => perform SendReady))) Beginning ->
  (exists B (e : taskE B) k, serve_with_ready shutdown (bind ready (fun _ => perform SendReady)) = Do e k) ->
  follows_main gateway_ends (run_gateway cli shutdown ready) Configuring.
Proof.
  intros Htask Hdo. unfold run_gateway. eapply follows_bind; [apply load_config_follows|]. intros [config|e] p ->; [|done].
  eapply follows_bind; [apply current_exe_follows|]. intros exe p ->.
  eapply try_follows; [apply init_tracing_follows| |done]. intros _.
  eapply follows_bind; [by apply bind_and_serve_follows|]. intros r p Hp. simpl.
  destruct p; try done; simpl in *; destruct r; split; try done; intros _; simpl; try done; intros _; f_equal; auto.
Qed.
End Follow.

Lemma run_service_follows `{Htonic : Tonic} `{Htoml : GatewayToml} `{Hfilter : FilterLibrary} :
  main_follows true service_ends run_service Unregistered.
Proof.
  unfold run_service.
  eapply try_follows with (p' := Registered); [by apply ask_follows| |by intros e [x ->]; eexists; left]. intros _.
  eapply follows_bind with (mid := moves Configuring Configuring (fun y => exists x, y = ServiceFailed x)).
  { split; [done|]. intros [u|e]; simpl; by eauto. }
  intros [u|e] p Hm; [simpl in Hm; subst p|destruct Hm as [-> [x ->]]; by eexists; left].
  apply perform_follows; [done|]. intros cli.
  eapply try_follows with (p' := Configuring); [by apply ask_follows| |by intros e [x ->]; eexists; right]. intros _.
  eapply follows_bind; [apply run_gateway_follows; [apply service_task_follows|by eexists _, _, _]|].
  intros r p Hp. eapply follows_bind with (mid := fun _ q => exists served, q = Told served /\
    (is_ok r = true -> served = Some (Ok (Ok tt)))).
  { destruct p; try done; (split; [done|]); intros [u'|e]; simpl in *; eexists; (split; [done|]); try done;
      by rewrite Hp. }
  intros [u'|e] q (served & -> & Hs); simpl; [exact Hs|done].
Qed.

(** ** The invariant *)

Section Invariant.
Context (service : bool).

(** The reports of the task in its phases, and of the bootstrap before and after them. *)
Definition task_reports (p : TaskPhase) : list ServiceLifecycle :=
  if service then
    match p with
    | Beginning => []
    | Announced | Serving | Stopping => [Running]
    | _ => [Running; StopPending]
    end
  else [].
Definition reports_before (p : Phase) : list ServiceLifecycle :=
  match p with Unregistered | Registered => [] | _ => if service then [StartPending] else [] end.
Definition reports_after (p : Phase) : list ServiceLifecycle :=
  match p with Told _ => [Stopped] | _ => [] end.

Definition before_spawn (p : Phase) : bool :=
  match p with Unregistered | Registered | Configuring | Logged | Listening => true | _ => false end.
Definition log_held (p : Phase) : bool :=
  match p with Unregistered | Registered | Configuring | Closed _ | Told _ => false | _ => true end.
(** The index is quiet for good. *)
Definition quiet (w : World) : Prop := shutting_down w = true /\ active w = 0%nat.

Definition started (p : TaskPhase) : bool := match p with Beginning | Announced => false | _ => true end.
Definition stopped_by (p : TaskPhase) : bool := match p with Stopping | Draining | Drained => true | _ => false end.
(** What the task has reported, and what goes with it. *)
Record task_ok (w : World) (told : list ServiceLifecycle) : Prop := {
  told_order : told = [] \/ service = true /\ (told = [Running] \/ told = [Running; StopPending]);
  told_asked : In StopPending told -> stop_sent w = true;
  told_spawned : match task w with NotSpawned => told = [] /\ ready_sent w = false /\ in_flight w = 0%nat | _ => is_some (listening w) = true end;
  requests_told : (0 < in_flight w)%nat -> service = true -> In Running told;
  live_ok : forall program, task w = Live program ->
    (exists A (e : taskE A) k, program = Do e k) /\
    exists p, task_follows service program p /\ told = task_reports p /\ ready_sent w = started p /\
      (stopped_by p = true -> stop_sent w = true);
  ended_ok : forall r, task w = Ended (Ok r) ->
    ready_sent w = true /\
    (is_ok r = true -> in_flight w = 0%nat /\ stop_sent w = true /\ told = task_reports Drained)
}.
Definition main_ok (w : World) (p : Phase) : Prop :=
  log_open w = log_held p /\
  match p with
  | Unregistered | Registered | Configuring | Logged => task w = NotSpawned
  | Listening => task w = NotSpawned /\ is_some (listening w) = true
  | Spawned | Ready | Indexing => task w <> NotSpawned
  | Served r => task w = Ended r
  | ShuttingDown r => task w = Ended r /\ shutting_down w = true
  | Idle r | Closed (Some r) | Told (Some r) => task w = Ended r /\ quiet w
  | Unready => exists error, task w = Ended (Err error)
  | Closed None | Told None => task w = NotSpawned \/ exists error, task w = Ended (Err error)
  end.
Definition process_inv (w : World) : Prop :=
  exists p told, main_follows service (main_ends service) (main w) p /\ main_ok w p /\ task_ok w told /\
    reports w = reports_before p ++ told ++ reports_after p.
End Invariant.

Lemma serving_running service : service = true -> In Running (task_reports service Serving).
Proof. intros ->. by left. Qed.

Section Steps.
Context (service : bool).
#[local] Notation task_reports := (task_reports service).
#[local] Notation reports_before := (reports_before service).
#[local] Notation task_ok := (task_ok service).
#[local] Notation told_spawned := (told_spawned service).
#[local] Notation ended_ok := (ended_ok service).

Lemma task_ok_weaken w w' told :
  task w' = task w -> ready_sent w' = ready_sent w -> (in_flight w' <= in_flight w)%nat ->
  (stop_sent w = true -> stop_sent w' = true) -> (is_some (listening w) = true -> is_some (listening w') = true) ->
  task_ok w told -> task_ok w' told.
Proof.
  intros Ht Hr Hf Hs Hl [Ho Ha Hn Hq Hv He]. constructor; rewrite ?Ht, ?Hr.
  - done.
  - auto.
  - destruct (task w); [|by auto..]. destruct Hn as (? & ? & ?). split_and!; [done..|lia].
  - intros. apply Hq; [lia|done].
  - intros program Hp. destruct (Hv program Hp) as (Hdo & p & ? & ? & ? & ?). split; [done|]. exists p. split_and!; auto.
  - intros r Hp. destruct (He r Hp) as [Hrs Hd]. split; [done|]. intros Hok. destruct (Hd Hok) as (? & ? & ?).
    split_and!; [lia|auto|done].
Qed.

#[local] Ltac keep_task Ht := eapply task_ok_weaken; [..|exact Ht]; simpl; auto.
(** An event of the bootstrap moves its phase. *)
Lemma main_effect_inv {A} (e : mainE A) a w w' p told :
  main_effect e a w = Some w' -> main_allowed service _ e p ->
  main_ok w p -> task_ok w told -> reports w = reports_before p ++ told ++ reports_after p ->
  main_ok w' (main_after _ e p a) /\ task_ok w' told /\
  reports w' = reports_before (main_after _ e p a) ++ told ++ reports_after (main_after _ e p a).
Proof.
  intros He Ha Hp Ht Hr.
  destruct e; simpl in Ha, He; try done; try (destruct a; fail); simplify_eq; try by split_and!.
  all: destruct Hp as [Hlog Hp]; pose proof (told_spawned _ _ Ht) as Hn; pose proof (ended_ok _ _ Ht) as Hends.
  (* RegisterHandler *)
  - destruct a; simpl; [|by split_and!]. split_and!; [by split|by keep_task Ht|done].
  (* Report *)
  - destruct Ha as [Hsrv Ha]. split_and!; [|by keep_task Ht|].
    + destruct p as [| | | | | | | | | | | |served|]; try done; (split; [done|]); simpl in *; by auto.
    + simpl. rewrite Hr. destruct p; try done; simpl in *; rewrite Ha, ?app_nil_r, ?Hsrv, <- ?app_assoc; try done.
      rewrite Hp in Hn. by destruct Hn as [-> _].
  (* InstallSubscriber *)
  - destruct a; simpl; [|by split_and!]. split_and!; [by split|by keep_task Ht|done].
  (* CloseLog *)
  - split_and!; [|by keep_task Ht|].
    + destruct p as [| | | | | | | | | | | | |]; try done; (split; [done|]); simpl in *; by intuition.
    + simpl. rewrite Hr. by destruct p.
  (* Bind *)
  - destruct a; simpl; [|by split_and!]. split_and!; [by repeat split|by keep_task Ht|done].
  (* SpawnServe *)
  - destruct Ha as (-> & Hdo & Hf). destruct Hp as [Hp Hl]. rewrite Hp in Hn. destruct Hn as (-> & Hrs & Hi).
    split_and!; [by split| |exact Hr].
    constructor; simpl; try done; [by left|lia|]. intros program [= <-]. split; [done|]. exists Beginning. split_and!; try done.
    unfold task_reports. by destruct service.
  (* AwaitReady *)
  - destruct a; simpl in *; [destruct (ready_sent w); simplify_eq; by split_and!|].
    destruct (task w) as [| |[r|x]] eqn:Hw; try done; destruct (ready_sent w) eqn:Hs; simplify_eq.
    + by destruct (Hends r eq_refl) as [H' _].
    + split_and!; [|done|done]. split; [done|]. by exists x.
  (* StartIndexing *)
  - destruct (shutting_down w); split_and!; try done; by keep_task Ht.
  (* AwaitServe *)
  - destruct (task w) as [| |out] eqn:Hw; try done.
    destruct a as [[[]|x]|x], out as [[[]|y]|y]; try done; try (destruct (String.eqb_spec x y); [subst y|done]); simplify_eq; by split_and!.
  (* RequestShutdown *)
  - destruct Ha as [r ->]. split_and!; [|by keep_task Ht|done]. by split_and!.
  (* WaitForIdle *)
  - destruct Ha as [r ->]. destruct (Nat.eqb_spec (active w) 0); simplify_eq. destruct Hp. by split_and!.
Qed.

(** What is left of the task after one of its events. *)
Lemma settled_task_ok w program tp told :
  task w = settle program -> task_follows service program tp ->
  told = [] \/ service = true /\ (told = [Running] \/ told = [Running; StopPending]) ->
  (In StopPending told -> stop_sent w = true) -> is_some (listening w) = true ->
  ((0 < in_flight w)%nat -> service = true -> In Running told) ->
  ready_sent w = started tp -> (tp <> Failed -> told = task_reports tp) ->
  (stopped_by tp = true -> stop_sent w = true) -> (tp = Drained -> in_flight w = 0%nat) -> task_ok w told.
Proof.
  intros Hw Hf Ho Ha Hl Hq Hr Ht Hs Hd. destruct program as [r|A e k]; simpl in Hw.
  - simpl in Hf. unfold task_ends in Hf. constructor; rewrite ?Hw; try done.
    intros r' [= <-]. rewrite Hr. destruct (is_ok r); subst tp; (split; [done|]); intros; try done. split_and!; auto.
  - constructor; rewrite ?Hw; try done. intros program [= <-]. split; [by eexists _, _, _|]. exists tp. split_and!; try done.
    apply Ht. intros ->. destruct Hf as [Hf _]. destruct e; simpl in Hf; try by destruct service; naive_solver.
Qed.
(** While the task lives, the bootstrap waits for it. *)
Lemma live_phase w t p : main_ok w p -> task w = Live t -> p = Spawned \/ p = Ready \/ p = Indexing.
Proof.
  intros [_ Hp] Hw. destruct p as [| | | | | | | | | | | |[|]|[|]]; simpl in Hp; rewrite Hw in Hp; auto;
    repeat match goal with
           | H : _ /\ _ |- _ => destruct H | H : _ \/ _ |- _ => destruct H | H : exists _, _ |- _ => destruct H
           end; discriminate.
Qed.
Lemma task_effect_keeps {A} (e : taskE A) a w w' :
  task_effect e a w = Some w' ->
  main w' = main w /\ log_open w' = log_open w /\ listening w' = listening w /\ stop_sent w' = stop_sent w /\
  in_flight w' = in_flight w /\ active w' = active w /\ shutting_down w' = shutting_down w.
Proof. destruct e; simpl; repeat case_match; intros [= <-]; done. Qed.
Lemma task_effect_inv {A} (e : taskE A) k a w w' p told :
  task w = Live (Do e k) -> task_effect e a w = Some w' ->
  main_ok w p -> task_ok w told -> reports w = reports_before p ++ told ++ reports_after p ->
  exists told', main_ok (set_task w' (settle (k a))) p /\ task_ok (set_task w' (settle (k a))) told' /\
    reports w' = reports_before p ++ told' ++ reports_after p.
Proof.
  intros Hw He Hm [Ho Ha Hn Hq Hlive _] Hr. rewrite Hw in Hn. pose proof (live_phase _ _ _ Hm Hw) as Hph.
  destruct (Hlive _ Hw) as (_ & tp & [Hal Hf] & Htold & Hst & Hstop). specialize (Hf a).
  pose proof (task_effect_keeps _ _ _ _ He) as (_ & Hlog & Hlis & Hss & Hfl & _ & _).
  assert (Hm' : main_ok (set_task w' (settle (k a))) p).
  { destruct Hm as [Hl _]. split; [by rewrite <- Hl|]. by destruct Hph as [-> |[-> | ->]]; simpl; destruct (k a). }
  assert (Haft : reports_after p = []) by by destruct Hph as [-> |[-> | ->]]. rewrite Haft in *. rewrite app_nil_r in *.
  rename told into told0. subst told0.
  assert (Hnext : forall extra tp', tp' = task_after _ e tp a -> reports w' = reports w ++ extra ->
      let told := task_reports tp ++ extra in
      told = [] \/ service = true /\ (told = [Running] \/ told = [Running; StopPending]) ->
      (In StopPending extra -> stop_sent w = true) ->
      ready_sent w' = started tp' -> (tp' <> Failed -> told = task_reports tp') ->
      (stopped_by tp' = true -> stop_sent w = true) -> (tp' = Drained -> in_flight w = 0%nat) ->
    exists told', main_ok (set_task w' (settle (k a))) p /\ task_ok (set_task w' (settle (k a))) told' /\
      reports w' = reports_before p ++ told' ++ []).
  { intros extra tp' -> Hrep told Hord Hin H1 H2 H3 H4. exists told. rewrite app_nil_r. unfold told.
    split_and!; [done| |by rewrite Hrep, Hr, app_assoc].
    eapply settled_task_ok; try done; simpl; rewrite ?Hss, ?Hlis, ?Hfl; try done.
    - by intros [?|?]%in_app_or; auto.
    - intros H5 H6. apply in_or_app. left. by apply Hq. }
  clear Hlive Hw Hf Hm'. destruct e as [status| |source|]; simpl in Hal, He; simplify_eq.
  - destruct Hal as [-> [[-> Hs]|[-> Hs]]].
    + apply (Hnext [Running] Announced); simpl; rewrite ?Hs; auto 10; try done. by intros [|].
    + apply (Hnext [StopPending] Draining); simpl; rewrite ?Hs; auto 10; done.
  - apply (Hnext [] Serving); rewrite ?app_nil_r; auto; try done; by destruct service.
  - destruct Hal as [-> _]. destruct a; simpl in *.
    + destruct (stop_sent w) eqn:Es; simplify_eq. by apply (Hnext [] Stopping); rewrite ?app_nil_r; auto.
    + simplify_eq. by apply (Hnext [] Failed); rewrite ?app_nil_r; auto.
  - destruct a; simpl in *.
    + destruct (Nat.eqb_spec (in_flight w) 0); simplify_eq. apply (Hnext [] Drained); rewrite ?app_nil_r; auto; try done; by destruct service.
    + simplify_eq. apply (Hnext [] Failed); rewrite ?app_nil_r; auto; try done; by destruct service.
Qed.

#[local] Notation process_inv := (process_inv service).

(** Requests are accepted between the two reports of the task. *)
Lemma accepting_told w source told :
  task_ok w told -> accepting w source = true ->
  told = task_reports Serving /\ source = if service then ControlMessage else ConsoleSignal.
Proof.
  intros Ht Ha. unfold accepting in Ha. destruct (task w) as [|[r|A e k]|] eqn:Hw; try done.
  destruct (live_ok _ _ _ Ht _ Hw) as (_ & p & [Hal _] & -> & _).
  destruct e as [| |s|]; try done. destruct Hal as [-> ->]. by destruct service, source.
Qed.
Lemma system_step_inv w w' : system_step w w' -> process_inv w -> process_inv w'.
Proof.
  intros H (p & told & Hf & Hm & Ht & Hr). destruct H as [A e k a w' Hw He|A e k a w' Hw He|n Hn|n Hn].
  - rewrite Hw in Hf. destruct Hf as [Ha Hf]. exists (main_after _ e p a), told. split; [exact (Hf a)|].
    destruct (main_effect_inv _ _ _ _ _ _ He Ha Hm Ht Hr) as (Hm' & Ht' & Hr'). split_and!; [exact Hm'| |exact Hr'].
    eapply task_ok_weaken; [..|exact Ht']; auto.
  - destruct (task_effect_inv _ _ _ _ _ _ _ Hw He Hm Ht Hr) as (told' & Hm' & Ht' & Hr').
    exists p, told'. split_and!; try done. simpl. pose proof (task_effect_keeps _ _ _ _ He) as [-> _]. exact Hf.
  - exists p, told. split_and!; try done. eapply task_ok_weaken; [..|exact Ht]; auto; simpl; lia.
  - exists p, told. split_and!; try done; [|eapply task_ok_weaken; [..|exact Ht]; auto].
    destruct Hm as [Hl Hm]. split; [done|]. unfold quiet in *.
    destruct p as [| | | | | | | | | | | |[|]|[|]]; simpl in *; try done; destruct Hm as (? & ? & ?); congruence.
Qed.
Lemma outside_step_inv w w' : outside_step w w' -> process_inv w -> process_inv w'.
Proof.
  intros H (p & told & Hf & Hm & Ht & Hr). destruct H as [control Hh|Ha|source Ha|Hs|program error Hw].
  - exists p, told. destruct (event_handler control (shutdown_tx w)) as [[tx sends] result]. split_and!; try done.
    eapply task_ok_weaken; [..|exact Ht]; simpl; auto. by intros ->.
  - exists p, told. split_and!; try done. eapply task_ok_weaken; [..|exact Ht]; simpl; auto.
  - exists p, told. destruct (accepting_told _ _ _ Ht Ha) as [Htold _]. split_and!; try done. destruct Ht as [Ho Hin Hn Hq Hv He].
    unfold accepting in Ha. destruct (task w) as [|t|] eqn:Hw; try done.
    constructor; simpl; rewrite ?Hw; try done. intros _ Hsrv. rewrite Htold. by apply serving_running.
  - exists p, told. split_and!; try done; [|eapply task_ok_weaken; [..|exact Ht]; auto].
    destruct Hm as [Hl Hm]. split; [done|]. unfold quiet in *.
    destruct p as [| | | | | | | | | | | |[|]|[|]]; simpl in *; try done; destruct Hm as (? & ? & ?); congruence.
  - exists p, told. pose proof (live_phase _ _ _ Hm Hw) as Hp. split_and!; try done.
    + destruct Hm as [Hl _]. split; [done|]. by destruct Hp as [-> |[-> | ->]].
    + destruct Ht as [Ho Hin Hn Hq Hv He]. rewrite Hw in Hn. by constructor.
Qed.
Lemma process_reachable_inv program w : process_inv (initial program) -> reachable program w -> process_inv w.
Proof.
  intros Hi. induction 1 as [|w w' _ IH [H|H]]; [done|by eapply system_step_inv|by eapply outside_step_inv].
Qed.
End Steps.

Section Programs.
Context `{Htonic : Tonic} `{Htoml : GatewayToml} `{Hfilter : FilterLibrary}.
Lemma service_inv w : reachable run_service w -> process_inv true w.
Proof.
  apply process_reachable_inv. exists Unregistered, []. split; [apply run_service_follows|]. split_and!; [done| |done].
  constructor; try done; [by left|]. simpl. lia.
Qed.
Lemma console_inv cli w : reachable (run_gateway cli shutdown_signal (Done tt)) w -> process_inv false w.
Proof.
  apply process_reachable_inv. exists Configuring, []. split; [|split_and!; [done| |done]].
  - apply run_gateway_follows; [apply console_task_follows|by eexists _, _, _].
  - constructor; try done. by left.
Qed.
End Programs.

(** ** What the service keeps *)

(** A state comes after another in the sequence of [next]. *)
Fixpoint comes_after (steps : nat) (state later : ServiceLifecycle) : Prop :=
  match steps, next state with
  | S steps, Some following => following = later \/ comes_after steps following later
  | _, _ => False
  end.

Record lifecycle_kept (w : World) : Prop := {
  (* the manager hears of the states in their order, of each at most once *)
  reports_ordered : StronglySorted (comes_after 3) (reports w);
  (* Running: the port is open; StopPending: a stop was asked for *)
  running_listens : In Running (reports w) -> is_some (listening w) = true;
  pending_asked : In StopPending (reports w) -> stop_sent w = true;
  (* requests are accepted, and handled, only after Running; accepted only before StopPending *)
  accepts_running : forall source, accepting w source = true ->
    In Running (reports w) /\ ~ In StopPending (reports w) /\ ~ In Stopped (reports w);
  handles_running : (0 < in_flight w)%nat -> In Running (reports w);
  (* Stopped: the server has ended, the log is flushed, and the index is quiet for good
     unless the server never came up; a server that was stopped has drained *)
  stopped_ended : In Stopped (reports w) ->
    log_open w = false /\ (forall program, task w <> Live program) /\
    (quiet w \/ task w = NotSpawned \/ exists panic, task w = Ended (Err panic)) /\
    (task w = Ended (Ok (Ok tt)) -> in_flight w = 0%nat);
  (* the service returns after Stopped, but for a failure before its runtime exists; it succeeds
     only after everything was drained *)
  returned : forall r, main w = Done r ->
    (In Stopped (reports w) \/ failed_early r /\ ~ In Running (reports w)) /\
    (is_ok r = true -> reports w = [StartPending; Running; StopPending; Stopped] /\ in_flight w = 0%nat /\ quiet w)
}.

Lemma in_reports state p told :
  In state (reports_before true p ++ told ++ reports_after p) ->
  match state with
  | Stopped => (exists served, p = Told served) \/ In Stopped told
  | StartPending => True
  | _ => In state told
  end.
Proof.
  intros [H|[H|H]%in_app_or]%in_app_or.
  - destruct p; simpl in H; try done; by destruct H as [<-|[]].
  - destruct state; auto.
  - destruct p; simpl in H; try done. destruct H as [<-|[]]. by left; eexists.
Qed.
Lemma told_in_reports state p told :
  In state told -> In state (reports_before true p ++ told ++ reports_after p).
Proof. intros H. apply in_or_app. right. apply in_or_app. by left. Qed.
Lemma told_no_stopped w told : task_ok true w told -> ~ In Stopped told.
Proof. intros H. destruct (told_order _ _ _ H) as [->|[_ [->| ->]]]; simpl; naive_solver. Qed.
Lemma reports_sorted p told :
  told = [] \/ told = [Running] \/ told = [Running; StopPending] -> (before_spawn p = true -> told = []) ->
  StronglySorted (comes_after 3) (reports_before true p ++ told ++ reports_after p).
Proof.
  intros Ht Hb. destruct p; simpl in Hb; try rewrite Hb by done; destruct Ht as [->|[->| ->]]; simpl;
    repeat (constructor; simpl; auto 10).
Qed.

Lemma lifecycle_holds w : process_inv true w -> lifecycle_kept w.
Proof.
  intros (p & told & Hf & [Hlog Hp] & Ht & Hr).
  assert (Hrun : In Running (reports w) -> In Running told) by (rewrite Hr; apply in_reports).
  assert (Hpend : In StopPending (reports w) -> In StopPending told) by (rewrite Hr; apply in_reports).
  assert (Hstop : In Stopped (reports w) -> exists served, p = Told served).
  { rewrite Hr. intros [H|H]%in_reports; [done|]. by apply (told_no_stopped w) in H. }
  constructor.
  - rewrite Hr. apply reports_sorted; [destruct (told_order _ _ _ Ht) as [|[_ [|]]]; auto|].
    intros Hb. pose proof (told_spawned _ _ _ Ht) as Hn. destruct p; try done; [..|destruct Hp as [Hp _]]; rewrite Hp in Hn; by destruct Hn.
  - intros H%Hrun. pose proof (told_spawned _ _ _ Ht) as Hn. destruct (task w); try done. by destruct Hn as [-> _].
  - intros H%Hpend. by apply (told_asked _ _ _ Ht).
  - intros source Ha. destruct (accepting_told _ _ _ _ Ht Ha) as [-> _]. split_and!.
    + rewrite Hr. apply told_in_reports. by left.
    + intros H%Hpend. by destruct H as [H|[]].
    + intros [served ->]%Hstop. unfold accepting in Ha. destruct (task w) eqn:Hw; try done.
      destruct served; simpl in Hp; naive_solver.
  - intros H. rewrite Hr. apply told_in_reports. by apply (requests_told _ _ _ Ht).
  - intros [served ->]%Hstop. split_and!; [done| | |].
    + intros program Hw. by destruct (live_phase w program (Told served) (conj Hlog Hp) Hw) as [|[|]].
    + destruct served; simpl in Hp; naive_solver.
    + intros Hw. by apply (ended_ok _ _ _ Ht _ Hw).
  - intros r Hdone. rewrite Hdone in Hf. simpl in Hf. destruct p as [| | | | | | | | | | | | |served]; try done.
    + pose proof (told_spawned _ _ _ Ht) as Hn. simpl in Hp. rewrite Hp in Hn. destruct Hn as (-> & _).
      split; [right; split; [exact Hf|rewrite Hr; by intros []]|]. by destruct Hf as (e & [-> | ->]).
    + pose proof (told_spawned _ _ _ Ht) as Hn. simpl in Hp. rewrite Hp in Hn. destruct Hn as (-> & _).
      split; [right; split; [exact Hf|rewrite Hr; simpl; by intros [?|[]]]|]. by destruct Hf as (e & [-> | ->]).
    + split; [left; rewrite Hr; apply in_or_app; right; apply in_or_app; right; by left|].
      intros Hok. rewrite (Hf Hok) in *. destruct Hp as [Hw Hq]. destruct (ended_ok _ _ _ Ht _ Hw) as [_ H].
      destruct (H eq_refl) as (Hz & _ & ->). split_and!; [by rewrite Hr|done|exact Hq].
Qed.

Section Kept.
Context `{Htonic : Tonic} `{Htoml : GatewayToml} `{Hfilter : FilterLibrary}.
(** C26: The Windows service tells the manager its life as it is, in every interleaving of the bootstrap, the server
    task, the controls, the requests and the background tasks. The reports come in the order of [next], each
    at most once; Running is reported with the port open, StopPending only after a stop was asked for;
    requests are accepted only between the two; when Stopped is reported the server has ended, the log is
    flushed and the background tasks of the index have ended for good, unless the server never came up; and the service succeeds only
    after all four reports, with no request in flight. *)
Theorem service_lifecycle_kept (w : World) (Hw : reachable run_service w) : lifecycle_kept w.
Proof. by apply lifecycle_holds, service_inv. Qed.
End Kept.

(** ** Playing a run *)

Inductive Move := MainMove | TaskMove | ControlMove (control : ServiceControl) | RequestMove | AnswerMove | IdleMove.
Section Play.
Context (main_answer : forall A, mainE A -> option A) (task_answer : forall A, taskE A -> option A).
Definition play_move (m : Move) (w : World) : option World :=
  match m with
  | MainMove =>
      match main w with
      | Do e k => a ← main_answer _ e; w' ← main_effect e a w; Some (set_main w' (k a))
      | Done _ => None
      end
  | TaskMove =>
      match task w with
      | Live (Do e k) => a ← task_answer _ e; w' ← task_effect e a w; Some (set_task w' (settle (k a)))
      | _ => None
      end
  | ControlMove control =>
      if handler w then
        let '(tx, sends, _) := event_handler control (shutdown_tx w) in
        Some (set_handler w true tx (stop_sent w || sends))
      else None
  | RequestMove =>
      if accepting w ControlMessage then Some (set_work w (S (in_flight w)) (active w) (shutting_down w)) else None
  | AnswerMove =>
      match in_flight w with S n => Some (set_work w n (active w) (shutting_down w)) | O => None end
  | IdleMove =>
      match active w with S n => Some (set_work w (in_flight w) n (shutting_down w)) | O => None end
  end.
Fixpoint play_moves (moves : list Move) (w : World) : option World :=
  match moves with
  | [] => Some w
  | m :: moves => w ← play_move m w; play_moves moves w
  end.
Lemma play_move_step m w w' : play_move m w = Some w' -> step w w'.
Proof.
  destruct m; simpl; intros H.
  - destruct (main w) as [|A e k] eqn:Hm; [done|]. destruct (main_answer A e) as [a|]; [|done]. simpl in H.
    destruct (main_effect e a w) as [w1|] eqn:He; simplify_eq/=. left. by eapply step_main.
  - destruct (task w) as [|[|A e k]|] eqn:Hm; try done. destruct (task_answer A e) as [a|]; [|done]. simpl in H.
    destruct (task_effect e a w) as [w1|] eqn:He; simplify_eq/=. left. by eapply step_task.
  - destruct (handler w) eqn:Hh; [|done]. right.
    pose proof (step_control w control Hh) as Hs. destruct (event_handler control (shutdown_tx w)) as [[tx sends] r].
    by simplify_eq.
  - destruct (accepting w ControlMessage) eqn:Ha; simplify_eq. right. by eapply step_request.
  - destruct (in_flight w) eqn:Hf; simplify_eq. left. by constructor.
  - destruct (active w) eqn:Hf; simplify_eq. left. by constructor.
Qed.
Lemma play_moves_reachable program moves w w' :
  reachable program w -> play_moves moves w = Some w' -> reachable program w'.
Proof.
  revert w. induction moves as [|m moves IH]; intros w Hw H; simpl in H; [by simplify_eq|].
  destruct (play_move m w) as [w1|] eqn:Hm; simplify_eq/=. apply (IH w1); [|done]. by eapply reachable_step, play_move_step.
Qed.
Lemma play_moves_result program moves w :
  reachable program w -> match play_moves moves w with Some w' => reachable program w' | None => True end.
Proof. intros Hw. destruct (play_moves moves w) eqn:H; [|done]. by eapply play_moves_reachable. Qed.
End Play.

Lemma plain_serve_documented {S : Type} (allowed : forall A, taskE A -> S -> Prop)
    (after : forall A, taskE A -> S -> A -> S) (post : result unit string -> S -> Prop) (shutdown : Shutdown) (s : S) :
  let accept := Accept (awaited shutdown) in
  allowed _ accept s -> (forall e, post (Err e) (after _ accept s (Err e))) ->
  follows allowed after (fun _ s => allowed _ Drain s /\ forall r, post r (after _ Drain s r))
    (announced shutdown) (after _ accept s (Ok tt)) ->
  follows allowed after post
    (try (perform accept) (fun _ => bind (announced shutdown) (fun _ => perform Drain))) s.
Proof.
  intros accept Ha He Hf. split; [exact Ha|]. intros [[]|e]; simpl; [|by apply He].
  eapply follows_bind; [exact Hf|]. intros u s' [Hd Hp]. by apply follows_perform.
Qed.
Definition plain_tonic : Tonic :=
  {| serve_with_incoming_shutdown shutdown :=
       try (perform (Accept (awaited shutdown))) (fun _ => bind (announced shutdown) (fun _ => perform Drain));
     serve_documented S := plain_serve_documented (S := S) |}.
Definition any_gateway_toml : GatewayToml :=
  {| toml_value := unit; parse_toml _ := Ok tt; toml_get _ _ := None; toml_config _ := Ok default_gateway_config |}.
Definition any_filter : FilterLibrary := {| filter_parses _ := true |}.
Definition bare_cli : Cli :=
  {| command := None; cli_config := None; cli_port := Some 7700; cli_log_level := None; cli_log_dir := None;
     cli_log_format := None; cli_log_rotation := None |}.
(** An operating system where everything succeeds. *)
Definition working_host : forall A, mainE A -> option A :=
  fun A e =>
    match e in mainE A return option A with
    | RegisterHandler | Report _ | NewRuntime | CreateDirAll _ | OpenAppender _ | InstallSubscriber _ | Bind _
    | LocalAddr => Some (Ok tt)
    | ParseArguments => Some bare_cli
    | CurrentExe => Some (Ok [DrivePrefix "C:"; RootDir; Normal "gateway.exe"]%string)
    | ReadFile _ => Some (Err FileNotFound)
    | StdoutIsTerminal => Some false
    | CloseLog | NewService _ | SpawnServe _ | StartIndexing | RequestShutdown | WaitForIdle => Some tt
    | AwaitReady => Some (Ok tt)
    | AwaitServe => Some (Ok (Ok tt))
    | _ => None
    end.
Definition working_server : forall A, taskE A -> option A :=
  fun A e =>
    match e in taskE A return option A with
    | TaskReport _ | Accept _ | Drain => Some (Ok tt)
    | SendReady => Some tt
    end.
(** The service comes up, takes a request, is stopped while it handles it, drains, and ends. *)
Definition stopping_moves : list Move :=
  repeat MainMove 15 ++ [TaskMove; TaskMove; MainMove; MainMove; RequestMove; ControlMove ControlStop; TaskMove; TaskMove;
    ControlMove ControlShutdown; AnswerMove; TaskMove; MainMove; MainMove; IdleMove] ++ repeat MainMove 3.
#[local] Notation stopped_service :=
  (play_moves working_host working_server stopping_moves (initial (@run_service plain_tonic any_gateway_toml any_filter))).
Example stopped_service_reports :
  (fun w => (reports w, in_flight w, listening w, match main w with Done r => Some r | _ => None end)) <$> stopped_service
    = Some ([StartPending; Running; StopPending; Stopped], 0%nat, Some 7700, Some (Ok tt)).
Proof. vm_compute. reflexivity. Qed.
Lemma stopped_service_reachable :
  match stopped_service with Some w => reachable (@run_service plain_tonic any_gateway_toml any_filter) w | None => True end.
Proof. apply play_moves_result, reachable_initial. Qed.
Lemma service_lifecycle_kept_witness :
  match stopped_service with
  | Some w => reports w = [StartPending; Running; StopPending; Stopped] /\ lifecycle_kept w
  | None => False
  end.
Proof.
  generalize stopped_service_reports, stopped_service_reachable.
  destruct stopped_service as [w|]; [|done]. intros H Hw. split; [by simplify_eq/=|].
  exact (@service_lifecycle_kept plain_tonic any_gateway_toml any_filter w Hw).
Defined.

(** ** A stop completes *)

(** Whatever the process does by itself, it comes to [P]. *)
Inductive inevitably (P : World -> Prop) (w : World) : Prop :=
| inevitably_now : P w -> inevitably P w
| inevitably_later :
    (exists w', system_step w w') -> (forall w', system_step w w' -> inevitably P w') -> inevitably P w.

Definition at_panic (w : World) : Prop := exists message k, main w = Do (Panic message) k.
Definition finished (w : World) : Prop := at_panic w \/ exists r, main w = Done r.

(** The task moves to a smaller program. *)
Inductive task_rest : TaskState -> TaskState -> Prop :=
| live_rest t u : rest t u -> task_rest (Live t) (Live u)
| ended_rest r u : task_rest (Ended r) (Live u).
Lemma task_rest_well_founded : well_founded task_rest.
Proof.
  assert (He : forall r, Acc task_rest (Ended r)) by (constructor; intros s H; inversion H).
  intros [|t|r]; [constructor; intros s H; inversion H| |apply He].
  induction t as [t IH] using (well_founded_induction rest_well_founded). constructor. intros s H. inversion H; subst; auto.
Qed.
Lemma system_well_founded : well_founded (fun w' w => system_step w w').
Proof.
  assert (H : forall m t n w, main w = m -> task w = t -> (in_flight w + active w)%nat = n ->
    Acc (fun w' w => system_step w w') w).
  { intros m. induction m as [m IHm] using (well_founded_induction rest_well_founded).
    intros t. induction t as [t IHt] using (well_founded_induction task_rest_well_founded).
    intros n. induction n as [n IHn] using lt_wf_ind. intros w Hm Ht Hn. constructor. intros w' Hs.
    destruct Hs as [A e k a w' Hw He|A e k a w' Hw He|j Hj|j Hj].
    - eapply (IHm (k a)); try reflexivity. rewrite <- Hm, Hw. constructor.
    - pose proof (task_effect_keeps _ _ _ _ He) as (Hm' & _).
      eapply (IHt (settle (k a))); try reflexivity; [|by simpl; congruence].
      rewrite <- Ht, Hw. destruct (k a) eqn:Hk; simpl; constructor. rewrite <- Hk. constructor.
    - eapply (IHn (j + active w)%nat); try done. rewrite <- Hn, Hj. lia.
    - eapply (IHn (in_flight w + j)%nat); try done. rewrite <- Hn, Hj. lia. }
  intros w. by eapply H.
Qed.
Lemma stop_kept w w' : system_step w w' -> stop_sent w = true -> stop_sent w' = true.
Proof.
  intros [A e k a w1 _ He|A e k a w1 _ He|n _|n _] Hs; try done; simpl.
  - destruct e; simpl in He; repeat case_match; simplify_eq; done.
  - pose proof (task_effect_keeps _ _ _ _ He) as (_ & _ & _ & -> & _). done.
Qed.
(** A live task can go on once a stop was asked for. *)
Lemma live_progress service w told t :
  task_ok service w told -> stop_sent w = true -> task w = Live t -> exists w', system_step w w'.
Proof.
  intros Ht Hs Hw. destruct (live_ok _ _ _ Ht _ Hw) as ((A & e & k & ->) & _).
  assert (Hgo : forall a w1, task_effect e a w = Some w1 -> exists w', system_step w w').
  { intros a w1 He. eexists. by eapply step_task. }
  destruct e.
  - by eapply (Hgo (Ok tt)).
  - by eapply (Hgo tt).
  - eapply (Hgo (Ok tt)). simpl. by rewrite Hs.
  - destruct (in_flight w) as [|n] eqn:Hf; [|eexists; by apply step_answer].
    eapply (Hgo (Ok tt)). simpl. by rewrite Hf.
Qed.
Lemma spawned_progress service w told :
  task_ok service w told -> stop_sent w = true -> task w <> NotSpawned ->
  (exists w', system_step w w') \/ exists outcome, task w = Ended outcome.
Proof.
  intros Ht Hs Hn. destruct (task w) eqn:Hw; [done| |by right; eexists]. left. by eapply live_progress.
Qed.
Lemma stop_progress service w :
  process_inv service w -> stop_sent w = true -> finished w \/ exists w', system_step w w'.
Proof.
  intros (p & told & Hf & [_ Hp] & Ht & _) Hs. destruct (main w) as [r|A e k] eqn:Hm; [left; right; by eexists|].
  destruct Hf as [Ha _].
  assert (Hgo : forall a w1, main_effect e a w = Some w1 -> finished w \/ exists w', system_step w w').
  { intros a w1 He. right. eexists. by eapply step_main. }
  destruct e; try (by eapply (Hgo (Ok tt))); try (by eapply (Hgo tt)).
  all: try by eapply (Hgo (Ok OtherState)).
  all: try by eapply (Hgo bare_cli).
  all: try by eapply (Hgo (Err "")).
  all: try by eapply (Hgo (Err FileNotFound)).
  all: try by eapply (Hgo false).
  - left. left. by eexists _, _.
  - simpl in Ha. subst p. destruct (spawned_progress _ _ _ Ht Hs Hp) as [H|[o Ho]]; [by right|].
    destruct (ready_sent w) eqn:Hr; [eapply (Hgo (Ok tt))|eapply (Hgo (Err tt))]; simpl; by rewrite ?Ho, Hr.
  - simpl in Ha. subst p. destruct (spawned_progress _ _ _ Ht Hs Hp) as [H|[o Ho]]; [by right|].
    eapply (Hgo o). simpl. rewrite Ho. destruct o as [[[]|e]|e]; by rewrite ?String.eqb_refl.
  - destruct (active w) as [|n] eqn:Hn; [|right; eexists; by apply step_background_end].
    eapply (Hgo tt). simpl. by rewrite Hn.
Qed.
Lemma stop_inevitable service (P : World -> Prop) w :
  (forall w, process_inv service w -> finished w -> P w) ->
  process_inv service w -> stop_sent w = true -> inevitably P w.
Proof.
  intros HP. induction w as [w IH] using (well_founded_induction system_well_founded). intros Hw Hs.
  destruct (stop_progress _ _ Hw Hs) as [Hf|Hn]; [left; auto|]. right; [done|]. intros w' Hw'. apply IH; [done| |].
  - by eapply system_step_inv.
  - by eapply stop_kept.
Qed.

(** C27: Once a stop was asked for, the service ends, whatever the order in which its threads move: with the
    background tasks and the requests in flight ending, and no others arriving, no run goes on for ever and none is stuck, until the
    process has panicked, or the service has returned with Stopped reported (or a failure before its runtime
    existed); and if it returns without an error, the requests in flight were answered and the index is
    quiet. *)
Theorem service_stop_completes `{Htonic : Tonic} `{Htoml : GatewayToml} `{Hfilter : FilterLibrary} (w : World)
    (Hw : reachable run_service w) (Hstop : stop_sent w = true) :
  inevitably (fun w' => at_panic w' \/ exists r, main w' = Done r /\ (In Stopped (reports w') \/ failed_early r) /\
    (is_ok r = true -> in_flight w' = 0%nat /\ quiet w')) w.
Proof.
  apply (stop_inevitable true); [|by apply service_inv|done]. intros w' Hw' [Hp|[r Hr]]; [by left|]. right.
  exists r. split; [done|]. destruct (returned _ (lifecycle_holds _ Hw') _ Hr) as [H1 H2].
  split; [destruct H1 as [|[]]; auto|]. intros Hok. by destruct (H2 Hok).
Qed.

(** The service with a request in flight when the stop arrives. *)
#[local] Notation stopping_service :=
  (play_moves working_host working_server (take 21 stopping_moves) (initial (@run_service plain_tonic any_gateway_toml any_filter))).
Lemma stopping_service_state :
  (fun w => (stop_sent w, in_flight w, reports w)) <$> stopping_service = Some (true, 1%nat, [StartPending; Running]).
Proof. vm_compute. reflexivity. Qed.
Lemma stopping_service_reachable :
  match stopping_service with Some w => reachable (@run_service plain_tonic any_gateway_toml any_filter) w | None => True end.
Proof. apply play_moves_result, reachable_initial. Qed.
Lemma service_stop_completes_witness :
  match stopping_service with
  | Some w => in_flight w = 1%nat /\
      inevitably (fun w' => at_panic w' \/ exists r, main w' = Done r /\ (In Stopped (reports w') \/ failed_early r) /\
        (is_ok r = true -> in_flight w' = 0%nat /\ quiet w')) w
  | None => False
  end.
Proof.
  generalize stopping_service_state, stopping_service_reachable.
  destruct stopping_service as [w|]; [|done]. intros H Hw. injection H as Hs Hf Hr. split; [done|].
  exact (@service_stop_completes plain_tonic any_gateway_toml any_filter w Hw Hs).
Defined.

(** ** The console *)

(** The gateway in a console drains and ends on a signal as the service does. *)
Lemma console_stop_completes `{Htonic : Tonic} `{Htoml : GatewayToml} `{Hfilter : FilterLibrary} cli w :
  reachable (run_gateway cli shutdown_signal (Done tt)) w -> stop_sent w = true ->
  inevitably (fun w' => at_panic w' \/ exists r, main w' = Done r /\
    (is_ok r = true -> in_flight w' = 0%nat /\ quiet w')) w.
Proof.
  intros Hw. apply (stop_inevitable false); [|by eapply console_inv]. clear. intros w (p & told & Hf & [_ Hp] & Ht & _) [H|[r Hr]]; [by left|].
  right. exists r. split; [done|]. intros Hok. rewrite Hr in Hf. destruct p as [| | | | | | | | | | | |served|]; try done; simpl in Hf.
  - by rewrite Hok in Hf.
  - rewrite (Hf Hok) in Hp. destruct Hp as [Hp Hq]. split; [|exact Hq]. by apply (ended_ok _ _ _ Ht _ Hp).
Qed.

(** ** Two failures, as the manager sees them *)

(** An operating system where one event fails. *)
Definition failing_host (fails : forall A, mainE A -> option A) : forall A, mainE A -> option A :=
  fun A e => match fails A e with Some a => Some a | None => working_host A e end.
Definition no_runtime : forall A, mainE A -> option A :=
  fun A e => match e in mainE A return option A with NewRuntime => Some (Err "no runtime"%string) | _ => None end.
Definition port_taken : forall A, mainE A -> option A :=
  fun A e => match e in mainE A return option A with Bind _ => Some (Err "in use"%string) | _ => None end.
#[local] Notation failed_service fails n :=
  (play_moves (failing_host fails) working_server (repeat MainMove n)
    (initial (@run_service plain_tonic any_gateway_toml any_filter))).
Lemma failed_run fails n e told :
  (fun w => (match main w with Done r => Some r | _ => None end, reports w)) <$> failed_service fails n
    = Some (Some (Err e), told) ->
  exists w, reachable (@run_service plain_tonic any_gateway_toml any_filter) w /\ main w = Done (Err e) /\ reports w = told.
Proof.
  generalize (play_moves_result (failing_host fails) working_server _ (repeat MainMove n) _ (reachable_initial
    (@run_service plain_tonic any_gateway_toml any_filter))).
  destruct (failed_service fails n) as [w|]; [|done]. intros Hr H. exists w. split; [exact Hr|].
  simplify_eq/=. by destruct (main w); simplify_eq.
Qed.
(** Without a runtime the service returns, and the manager is left with StartPending. *)
Lemma runtime_failure_unreported :
  exists w, reachable (@run_service plain_tonic any_gateway_toml any_filter) w /\
    main w = Done (Err (RuntimeFailed "no runtime")) /\ reports w = [StartPending].
Proof. apply (failed_run no_runtime 4). vm_compute. reflexivity. Qed.
(** A start that fails is reported as Stopped right after StartPending, with the exit code of a success. *)
Lemma failed_start_reported :
  exit_code (status_of Stopped) = 0 /\
  exists w, reachable (@run_service plain_tonic any_gateway_toml any_filter) w /\
    main w = Done (Err (BindFailed "in use")) /\ reports w = [StartPending; Stopped].
Proof. split; [done|]. apply (failed_run port_taken 14). vm_compute. reflexivity. Qed.
